(* ===== verification/_CoqProject ===== *)
-Q . S2P
Prelude.v
Utf8.v
Json.v
CanonicalJson.v
Clock.v
Hex.v
Envelope.v
MeshNode.v
ReferenceText.v
Framing.v
OperatorEvent.v
RoutePolicy.v
Sensitive.v
Turns.v
TurnProtocol.v
EventLog.v
EvidenceRecords.v
OperatorJournal.v
JournalLog.v
JournalContract.v
JournalConcurrent.v
JournalTail.v
EvidenceStream.v
WorkerLease.v
Compaction.v
WorkerState.v
Session.v
SessionSync.v
SessionTurns.v
SessionRecovery.v
WorkerEvents.v
RunFold.v
RunRecovery.v
PaneTail.v
Work.v
WorkSession.v
WorkspaceLease.v
Scope.v
Git.v
Worktree.v
Executions.v
ProviderEvidence.v
Drex.v
ModelCall.v
Routing.v
CallCosts.v
Sse.v
ModelExecution.v
ExecutionProtocol.v
Fanout.v
Provider.v
ProviderStreams.v
ProviderHttp.v
AnthropicApi.v
OpenAiApi.v
GeminiApi.v
CliAdapters.v
Discovery.v
AccountCodec.v
RegistryStore.v
Admission.v
LaneSelection.v
Connections.v
AdapterCalls.v
PriceRouting.v
LoopController.v
LoopExecutor.v
Judgment.v
JudgmentDecode.v
System1.v
Sha256.v
Auth.v
Decisions.v
AgenticTools.v
ReferenceLog.v
ReferenceJournal.v
ReferenceStream.v
ReferenceRuns.v
ReferenceAdapters.v
ReferenceAuth.v
