(* ===== verification/Prelude.v ===== *)
(** * Heiwa: a verification library for the local runtime

    Heiwa is a Rust workspace: a local runtime that keeps a user's agent work
    (turns, worker runs, leases, repositories, provider accounts) in
    append-only files, and a mesh identity with which nodes replicate it.  This
    library models the crates that decide what those files mean and who may do
    what, and proves what makes them correct.  Every definition is translated
    from the Rust source and keeps its names; every operation is executable, and
    the Reference files evaluate it on concrete inputs.

    ** The parts and how they interact

    The operator stream (crates/heiwa_evidence/src/operator.rs) is one
    append-only file of events.  The session service
    (crates/heiwa_session/src/operator.rs) validates and appends to it, and
    folds it into threads and turns.  Workers (crates/heiwa_worker) and Works
    (crates/heiwa_work) append events to the same stream through the service and
    are two further folds of it.  The evidence streams
    (crates/heiwa_evidence/src/journal.rs) are separate files of rows, written
    under a lock; worker leases live there, and the writer leases of
    repositories (crates/heiwa_workspace) are worker leases of a capability
    named after the repository.  Provider admission (crates/heiwa_provider)
    decides which account and model may serve a turn, the routing core
    (apps/heiwa_core/src/drex) which of them does, and the view of provider
    executions (crates/heiwa_session/src/provider_executions.rs) is a fourth
    fold of the operator stream, of what the calls came to.  The executor
    (apps/heiwa_shell/src/model_calls.rs) plans a call, admits its lanes against
    the account registry (crates/heiwa_provider/src/registry), records every
    attempt through the session service and sends; the loop controller
    (crates/heiwa_loop/src/lib.rs) makes such calls, one turn each, under a
    budget, and its fan-out (fanout.rs) splits a workload over child turns.  The
    mesh (crates/heiwa_mesh) names nodes by keys held in the vault
    (crates/heiwa_vault), stamps events with a hybrid clock and seals them in
    signed, chained envelopes.

    ** The files

    Shared: this file (results, panics, machine integers, option and list
    lemmas, automation); Utf8 (from_utf8_lossy); Json (serde_json values, the
    text codec as a class, and binary64 by its bits); CanonicalJson
    (write_canonical).

    Mesh: Clock (clock.rs), Hex (lib.rs), Envelope (envelope.rs), MeshNode
    (node.rs, keystore.rs, peers.rs, advertisement.rs, and the key operations of
    the vault).  The interface KeyStore is discharged by the memory store and by
    the vault over any keyring that meets KeyringLaws.

    Operator stream: OperatorEvent (the record), Sensitive (sensitive.rs, the
    gate of every append), Framing (files as lines and a torn
    tail), OperatorJournal (append, read_after, read_tail on bytes), and the
    interface EventLog.  JournalLog discharges EventLog for the byte-level
    journal; JournalContract, JournalConcurrent and JournalTail state what
    the journal promises.

    Sessions: RoutePolicy and Turns (the state and both validators),
    TurnProtocol (the abstract machine of a turn and its refinement), Session
    (the service over any EventLog, with an Env record for what the operating
    system supplies), SessionSync, SessionTurns, SessionRecovery (restart, and
    the paging of one thread).

    Evidence streams: EvidenceRecords (rows), EvidenceStream (append with
    faults, replay), WorkerLease (try_acquire_worker_lease), Compaction,
    WorkerState (the view and recover_interrupted).

    Worker runs: WorkerEvents, RunFold (projector.rs, and the lifecycle),
    RunRecovery (recovery.rs and the shell's recovery planner, an instance of
    the service's RecoveryPlanner), PaneTail (pane.rs).

    Works and repositories: Work, WorkSession (session.rs, snapshot.rs,
    surface.rs), WorkspaceLease, Scope (scope.rs), Git (git.rs, repository.rs),
    Worktree (worktree.rs).

    Provider executions: Executions (the fold), ProviderEvidence (what a row
    says of the stream, and the projection a running service keeps).

    Model routing: Drex (the vector of a request, its scores and its authority
    gate, over binary64), ModelCall (call.rs, and what the planner promises), Routing (router.rs).

    Accounts: Provider (registry.rs, health.rs, admission.rs, routing.rs),
    Admission (who may serve a turn), AccountCodec (the serialization of
    accounts), RegistryStore (registry/storage.rs: load and the merging save),
    Connections (connections.rs, keychain.rs: an account and its secret, over
    two stores that fail on their own), Discovery (detect/mod.rs: accounts from
    installed programs and environment keys, and their verification).

    Adapters: Sse (sse.rs, the framer), ProviderStreams (stream.rs, the loop
    over the interface SseConsumer, and the secret and base URL of a call),
    ProviderHttp (what the HTTP adapters share), AnthropicApi, OpenAiApi (with
    OpenRouter) and GeminiApi (the three vocabularies, each an instance of
    SseConsumer and its laws), CliAdapters (the four programs),
    AdapterCalls (the adapter of a lane, and what every call promises).

    Routing by price: PriceRouting (heiwa_quota/src/lib.rs, the windows of the
    rate groups, and heiwa_drex/src/lib.rs, the router over accounts and
    windows).

    Executions: CallCosts (the money of a call in binary64), ModelExecution
    (run_adapter and execute), ExecutionProtocol (the machine of an execution,
    its bounds and its books, and execute_canonical_turn around it),
    LaneSelection (which lanes an execution may use, and the checks before a
    message leaves), LoopController (heiwa_loop/src/lib.rs over the interface
    LoopModelCaller, which states what the loop needs of a call), LoopExecutor
    (ExecutorLoopCaller, the implementation that discharges it), Fanout
    (fanout.rs).

    Judgment (crates/heiwa_judgment): Judgment (lib.rs, question.rs, error.rs:
    answers, bands, the gate of a batch, the questions), JudgmentDecode
    (decode.rs), System1 (backend.rs: the native endpoint and the structured
    fallback).

    Authority of the local runtime: Sha256 (the SHA-256 and HMAC of
    apps/heiwa_core/src/auth.rs, against FIPS 180-4), Auth (the rest of auth.rs:
    signed local requests, session tokens, who a request speaks for), Decisions
    (integrity.rs and heiwa_drex/src/drex_gate.rs: which actions are held, the
    seal of a decision, the wait for one), AgenticTools
    (apps/heiwa_shell/src/agentic.rs: the tool calls of a reply behind that
    gate).

    Reference instances and witnesses: ReferenceText (a text codec and a
    cryptography that meet their laws), ReferenceLog (a list as an EventLog),
    ReferenceJournal, ReferenceStream, ReferenceRuns (runs, Works, leases of
    repositories and worktrees),
    ReferenceAdapters (stored accounts, a loop run from its objective to the
    message and its receipt, provider replies), ReferenceAuth (an unpadded
    URL-safe base64, a signed request, a session token, a sealed decision and
    the tool call it approves).

    ** What the theorems show

    - Durability.  A successful append is read back after any crash of a later
      one and any number of later appends; a torn tail costs no earlier row; a
      cursor resumes exactly; a lock-free read is one of a state the file had;
      the tail reader says what it dropped (JournalContract, JournalConcurrent,
      JournalTail).  The evidence streams have the exact effect of an append,
      torn tails included (EvidenceStream), and a compaction that changes no
      last-write-wins view, or fails and changes no byte (Compaction).
    - Turns.  Replay refines the machine of TurnProtocol; terminal turns never
      change; the writer's validator accepts what the reader's accepts, but
      for the rows it names;
      incremental materialization is replay from the start; a submission is
      exactly-once under retries; recovery closes every open turn, for the
      reason its state calls for; paging loses and repeats nothing.
    - Leases.  At most one live lease per capability, hence one writer per
      repository; after a completed restart recovery of whole streams nothing
      is in flight (a torn tail can cost a closing row).
    - Folds.  Each row of the runs and Works read models is a function of the
      events that concern it, and moves only along its lifecycle; the snapshot
      of a Work is bounded and reports what it left out.
    - Provider evidence.  Each row of the provider view is the summary of
      exactly the events that match it, names nothing but identities, and is
      the same however the service caught up.
    - Routing.  The planner selects the best of exactly the permitted
      candidates, whatever their order; a route keeps text on the device where
      its privacy class says so.
    - Routing by price.  A window holds exactly the uses since it began; the
      route names a capable model of a usable account that no other such model
      undercuts, and there is no route only when there is no such model, as
      long as no group has used 0.95 of its budget (beyond it the router does
      not do what its constant is documented for).
    - Executions.  An execution keeps its attempts, budget, privacy class and
      exclusions whatever providers answer; sends only what is on record; its
      costs are the charges of its attempts; every message stays in the lane it
      was admitted for, checked again at each attempt; a turn is closed once,
      under its own thread and identifier, as it ended.  A loop makes at most
      its turns' calls within its budget, each told exactly what is left and
      which models failed, and a call is executed at most once.
    - Accounts.  A save merges per account or refuses, a damaged file is
      refused and kept, and concurrent saves of different accounts lose
      nothing; disconnecting removes an account from the file before its secret.
    - Adapters.  A reply does not depend on how the network cut it; tool calls
      are assembled from their own fragments; every call through an admitted
      adapter is answered once the request, body or program it waits for is (a
      wait for one that never comes is a value of the model, and not bounded by
      the code); a key goes to the endpoint of its own account's provider and
      nowhere else, in one header of a request made of nothing secret besides.
    - Judgment.  Decoded answers are of questions asked, among the options
      offered, with coherent distributions; a batch is as safe as its least safe
      gating question; a selection of the fallback is never in the auto band (a
      yes-or-no answer of it can be, which the code does not mean).
    - Authority.  The runtime's SHA-256 is the standard's; a signature is one
      request's, a seal one record's, a token its claims', unless the very texts
      compared, as they were hashed, differ and have one digest; a
      subject is the holder of the machine's token or of a token signed for it;
      an outcome of an approval is read only from a sealed record, and no tool
      runs that neither the table nor such an approval allows.
    - Containment.  A path is granted exactly when it lands under its root,
      where no link on its way dangles; a Work has one worktree, at the commit
      that was HEAD.
    - Admission.  The lanes on offer are exactly the ones admitted, and the
      adapter of a lane is built from its own account's provider.
    - Mesh.  No node record without its key; an opened envelope was sealed by
      its origin with this content; a chain tip commits to its history; canonical
      JSON identifies values up to key order; the clock strictly increases and
      respects causality.

    ** Conventions and bounds

    A fallible function returns [result]; one that can unwind returns
    [outcome].  Integers that wrap or saturate are [Z] with the width written
    out (Clock, Framing, OperatorJournal, Fanout); the revision of a Work and
    the counters of a pane tail and of a snapshot count rows of a stream and are
    unbounded.  Strings are byte strings, valid UTF-8 where Rust's [String] is.
    Loops that are not structural take fuel: the scans of the journal take the
    length of their input plus one, and every iteration consumes a byte or
    returns, which JournalTail proves; the service's page loops take fuel
    as an argument, and their theorems hold with any fuel above the number of
    rows of the stream, which they prove enough; chunking takes the length of
    the list.  The attempts of an execution and the turns of a loop are counted
    down from their own maxima, and the adapter's loop is structural in what it
    finds ready; an execution whose provider has not answered waits, which is a
    value of its own and no error, as is an adapter's call whose request, body
    or program has not ended.  The wait for an approval looks at a sequence
    of polls, each no earlier than the sleeps before it, and its fuel is one
    poll per interval of its timeout, which is proved enough.  [canonicalize] follows at most forty links, as the system
    does.  Iteration over a HashMap is an
    arbitrary permutation (HashOrder).

    Parameters with laws: the text of JSON values (JsonText, JsonTextLaws,
    CanonicalTextLaws, JsonTornLaws), SHA-256 and Ed25519 (Crypto, CryptoLaws:
    lengths, and that a signature verifies; nothing assumes that SHA-256 is
    injective, and a theorem that needs two digests to differ names the two
    texts that would collide), base64 (Base64Laws, Base64UrlLaws), the system
    keyring (KeyringLaws), git's worktrees (WorktreeLaws: what a command that
    succeeds did, and that one that fails leaves the worktrees at other paths
    alone; the listing is git's with its bare, detached, locked and prunable
    entries, and is read back for printable ASCII fields).  Parameters without laws: uuid version
    5, RFC 3339 parsing, running git, running binaries.  Each class has a
    concrete instance in a Reference file.

    ** Not modelled

    Errors of reading a disk, creating directories and file modes; the file
    locks as such (whether an operation obtained its locks is an input, and an
    operation under a lock is one step); growth of a file past 2^63-1 bytes,
    which the journal's append refuses here; opening, links and modes of a
    decision's file, which are what a poll observes; probing the evidence
    directory before the tail of provider executions is read; the derived index
    of the session crate; a path's trailing [/.], lost when a path is its
    component list; the HTTP client and the provider programs as
    such: what a request or a program answers, in which chunks, the outcome of
    each race with the cancel switch, clocks and fresh ids are arguments.
    Outside the model for their nature: sockets and processes, SQL statements
    (the quota table is a finite map, a statement takes effect or fails),
    terminal and desktop interfaces, installation, and the shell that drives
    the crates. *)

From stdpp Require Import base gmap strings fin_maps sorting numbers list.
From Stdlib Require Import ZArith Lia Ascii.

#[local] Open Scope Z_scope.
#[export] Set Default Goal Selector "!".

(** ** Fallible code: [Result<T, E>] *)

Inductive result (E A : Type) : Type :=
| Ok (a : A)
| Err (e : E).
Arguments Ok {E A} _.
Arguments Err {E A} _.

#[export] Instance result_ret E : MRet (result E) := λ A a, Ok a.
#[export] Instance result_bind E : MBind (result E) := λ A B f r,
  match r with Ok a => f a | Err e => Err e end.
#[export] Instance result_fmap E : FMap (result E) := λ A B f r,
  match r with Ok a => Ok (f a) | Err e => Err e end.

#[export] Instance result_eq_dec E A `{EqDecision E, EqDecision A} :
  EqDecision (result E A).
Proof. solve_decision. Defined.

(** [Option::ok_or]. *)
Definition ok_or {E A} (e : E) (o : option A) : result E A :=
  match o with Some a => Ok a | None => Err e end.

(** [Result::map_err]. *)
Definition map_err {E F A} (f : E → F) (r : result E A) : result F A :=
  match r with Ok a => Ok a | Err e => Err (f e) end.

(** [Result::ok]. *)
Definition result_ok {E A} (r : result E A) : option A :=
  match r with Ok a => Some a | Err _ => None end.

(** A guard of the source: [if b { return Err(e) }]. *)
Definition bail_if {E} (b : bool) (e : E) : result E unit :=
  if b then Err e else Ok tt.

(** ** Code that can panic

    [Return a] is a normal return of [a]; [Panic] is an unwinding panic, such as
    slicing a [str] off a character boundary. *)

Inductive outcome (A : Type) : Type :=
| Return (a : A)
| Panic.
Arguments Return {A} _.
Arguments Panic {A}.

#[export] Instance outcome_ret : MRet outcome := λ A a, Return a.
#[export] Instance outcome_bind : MBind outcome := λ A B f o,
  match o with Return a => f a | Panic => Panic end.

(** ** Machine integers

    A [u32], [u64] or [usize] is a [Z] between 0 and its maximum; the
    operations below write the width out. *)

Definition u32_max : Z := 2 ^ 32 - 1.
Definition u64_max : Z := 2 ^ 64 - 1.
Definition is_u32 (z : Z) : Prop := 0 ≤ z ≤ u32_max.
Definition is_u64 (z : Z) : Prop := 0 ≤ z ≤ u64_max.

(** [checked_add] at the width whose maximum is [m]. *)
Definition checked_add (m a b : Z) : option Z :=
  if bool_decide (a + b ≤ m) then Some (a + b) else None.

(** [saturating_add] at the width whose maximum is [m]. *)
Definition saturating_add (m a b : Z) : Z := Z.min (a + b) m.

(** [saturating_sub] on unsigned integers. *)
Definition saturating_sub (a b : Z) : Z := Z.max (a - b) 0.

(** ** Tactics *)

(** Case analysis on every [match] scrutinee and decidable test in sight, then
    first-order clean-up: what most branch-by-branch proofs of handlers need. *)
Ltac break :=
  repeat (case_match || case_decide || case_bool_decide); simplify_eq/=.

Ltac widths := unfold is_u32, is_u64, u32_max, u64_max in *.

Create HintDb heiwa.

(** ** Bytes and strings

    A Rust [String] or [&str] is a [string], one [ascii] per byte of its UTF-8
    encoding, so [String.length] is [str::len]; file contents and hash inputs
    are [list ascii]. *)

Notation bytes := (list ascii) (only parsing).

Definition byte_val (a : ascii) : Z := Z.of_N (N_of_ascii a).
Definition byte_of (z : Z) : ascii := ascii_of_N (Z.to_N (z mod 256)).

(** [str::as_bytes]. *)
Definition as_bytes (s : string) : bytes := String.list_ascii_of_string s.

Definition str_len (s : string) : Z := Z.of_nat (String.length s).

Definition newline : ascii := byte_of 10.

(** [str::is_char_boundary]: the byte at [i] is not a UTF-8 continuation byte. *)
Definition is_continuation (a : ascii) : bool :=
  bool_decide (128 ≤ byte_val a ∧ byte_val a < 192).

Definition is_char_boundary (s : bytes) (i : nat) : bool :=
  bool_decide (i = 0%nat) || bool_decide (i = length s) ||
  match s !! i with Some a => negb (is_continuation a) | None => false end.

(** [&s[a..b]]: panics out of range or off a character boundary. *)
Definition str_slice (s : bytes) (a b : nat) : outcome bytes :=
  if (a <=? b)%nat && (b <=? length s)%nat &&
     is_char_boundary s a && is_char_boundary s b
  then Return (take (b - a) (drop a s)) else Panic.

(** [to_le_bytes] of an integer of [n] bytes. *)
Fixpoint le_bytes (n : nat) (z : Z) : bytes :=
  match n with
  | O => []
  | S n' => byte_of z :: le_bytes n' (z / 256)
  end.

(** [str::trim]: the UTF-8 encodings of the characters with the Unicode
    [White_Space] property are stripped from both ends. *)
Definition whitespace : list bytes :=
  map (map byte_of)
    ([[9]; [10]; [11]; [12]; [13]; [32]; [194; 133]; [194; 160]; [225; 154; 128];
      [226; 128; 168]; [226; 128; 169]; [226; 128; 175]; [226; 129; 159];
      [227; 128; 128]] ++
     map (λ k, [226; 128; k]) [128; 129; 130; 131; 132; 133; 134; 135; 136; 137; 138]).

Fixpoint strip_prefix (p s : bytes) : option bytes :=
  match p, s with
  | [], _ => Some s
  | a :: p', b :: s' => if bool_decide (a = b) then strip_prefix p' s' else None
  | _ :: _, [] => None
  end.

Fixpoint strip_first (ps : list bytes) (s : bytes) : option bytes :=
  match ps with
  | [] => None
  | p :: ps' => match strip_prefix p s with Some r => Some r | None => strip_first ps' s end
  end.

(** Strip encodings until none matches; each one is at least a byte long, so
    the length is fuel enough. *)
Fixpoint strip_all (fuel : nat) (ps : list bytes) (s : bytes) : bytes :=
  match fuel with
  | O => s
  | S fuel' => match strip_first ps s with Some r => strip_all fuel' ps r | None => s end
  end.

Definition trim_bytes (s : bytes) : bytes :=
  let s := strip_all (length s) whitespace s in
  reverse (strip_all (length s) (map reverse whitespace) (reverse s)).

Definition trim (s : string) : string :=
  String.string_of_list_ascii (trim_bytes (as_bytes s)).

Definition is_blank (s : string) : bool := bool_decide (trim s = "").

(** ** Lemmas on bytes *)

Lemma result_bind_Ok {E A B} (r : result E A) (k : A → result E B) b :
  (x ← r; k x) = Ok b ↔ ∃ a, r = Ok a ∧ k a = Ok b.
Proof. destruct r; simpl; split; naive_solver. Qed.

Lemma byte_val_range a : 0 ≤ byte_val a < 256.
Proof.
  unfold byte_val. pose proof (N_ascii_bounded a). lia.
Qed.

Lemma byte_of_val a : byte_of (byte_val a) = a.
Proof.
  unfold byte_of. rewrite Z.mod_small by apply byte_val_range.
  unfold byte_val. by rewrite N2Z.id, ascii_N_embedding.
Qed.

Lemma byte_val_of z : byte_val (byte_of z) = z mod 256.
Proof.
  unfold byte_val, byte_of.
  pose proof (Z.mod_pos_bound z 256 ltac:(lia)).
  rewrite N_ascii_embedding by lia. by rewrite Z2N.id by lia.
Qed.

Lemma byte_val_inj a b : byte_val a = byte_val b → a = b.
Proof. intros H. rewrite <- (byte_of_val a), <- (byte_of_val b). by f_equal. Qed.

Lemma le_bytes_length n z : length (le_bytes n z) = n.
Proof. revert z. induction n; intros z; simpl; auto. Qed.

Lemma le_bytes_inj n : ∀ a b,
  0 ≤ a < 256 ^ Z.of_nat n → 0 ≤ b < 256 ^ Z.of_nat n →
  le_bytes n a = le_bytes n b → a = b.
Proof.
  induction n as [|n IH]; intros a b Ha Hb; simpl; intros H.
  { change (256 ^ Z.of_nat 0) with 1 in *. lia. }
  injection H as Hh Ht.
  apply (f_equal byte_val) in Hh. rewrite !byte_val_of in Hh.
  rewrite Nat2Z.inj_succ, Z.pow_succ_r in Ha, Hb by lia.
  apply IH in Ht; [|split; [apply Z.div_pos; lia|apply Z.div_lt_upper_bound; lia]..].
  rewrite (Z.div_mod a 256), (Z.div_mod b 256) by lia. congruence.
Qed.

Lemma as_bytes_inj s t : as_bytes s = as_bytes t → s = t.
Proof.
  unfold as_bytes. intros H.
  rewrite <- (String.string_of_list_ascii_of_string s), H.
  apply String.string_of_list_ascii_of_string.
Qed.

Lemma as_bytes_app s t : as_bytes (s +:+ t) = as_bytes s ++ as_bytes t.
Proof. unfold as_bytes. induction s; simpl; [done|]. by rewrite IHs. Qed.

Lemma as_bytes_length s : length (as_bytes s) = String.length s.
Proof. unfold as_bytes. induction s; simpl; auto. Qed.

#[export] Instance as_bytes_Inj : Inj (=) (=) as_bytes.
Proof. intros s t. apply as_bytes_inj. Qed.

(** Two framings that agree on the whole and on the length of the first part
    agree on both parts. *)
Lemma app_inj_length {A} (a b c d : list A) :
  length a = length c → a ++ b = c ++ d → a = c ∧ b = d.
Proof. apply app_inj_1. Qed.

(** ** Lemmas on trimming *)

Lemma strip_prefix_Some p s r : strip_prefix p s = Some r ↔ s = p ++ r.
Proof.
  revert s. induction p as [|a p IH]; intros s; simpl; [naive_solver|].
  destruct s as [|b s]; [naive_solver|]. case_bool_decide as Hab; [|naive_solver].
  subst. rewrite IH. naive_solver.
Qed.

Lemma strip_first_Some ps s r :
  strip_first ps s = Some r → ∃ p, p ∈ ps ∧ s = p ++ r.
Proof.
  induction ps as [|p ps IH]; simpl; [done|].
  destruct (strip_prefix p s) as [r'|] eqn:E.
  - intros [= <-]. apply strip_prefix_Some in E. exists p. split; [by left|done].
  - intros (q & ? & ?)%IH. exists q. split; [by right|done].
Qed.

Lemma strip_first_None ps s : strip_first ps s = None ↔ ∀ p r, p ∈ ps → s ≠ p ++ r.
Proof.
  induction ps as [|p ps IH]; simpl.
  { split; [intros _ p r Hp; by apply elem_of_nil in Hp|done]. }
  destruct (strip_prefix p s) as [r'|] eqn:E.
  - split; [done|]. intros H. apply strip_prefix_Some in E. by destruct (H p r'); [left|].
  - rewrite IH. split.
    + intros H q r [->|Hq]%elem_of_cons; [|by apply H].
      intros Hs. apply strip_prefix_Some in Hs. congruence.
    + intros H q r Hq. apply H. by right.
Qed.

(** Stripping is complete: nothing in the list is left at the front. *)
Lemma strip_all_done ps (Hne : [] ∉ ps) fuel : ∀ s,
  (length s ≤ fuel)%nat → strip_first ps (strip_all fuel ps s) = None.
Proof.
  induction fuel as [|fuel IH]; intros s Hf; simpl.
  - destruct s; [|simpl in Hf; lia]. apply strip_first_None. intros p r Hp Heq.
    destruct p; [done|discriminate].
  - destruct (strip_first ps s) as [r|] eqn:E; [|done]. apply IH.
    apply strip_first_Some in E as (p & Hp & ->). rewrite length_app in Hf.
    destruct p; [done|]. simpl in Hf. lia.
Qed.

Lemma strip_all_fixed ps fuel s : strip_first ps s = None → strip_all fuel ps s = s.
Proof. destruct fuel; simpl; [done|]. by intros ->. Qed.

(** What stripping leaves is a suffix. *)
Lemma strip_all_suffix ps fuel : ∀ s, ∃ pre, s = pre ++ strip_all fuel ps s.
Proof.
  induction fuel as [|fuel IH]; intros s; simpl; [by exists []|].
  destruct (strip_first ps s) as [r|] eqn:E; [|by exists []].
  apply strip_first_Some in E as (p & _ & ->). destruct (IH r) as [pre Hpre].
  exists (p ++ pre). by rewrite <- app_assoc, <- Hpre.
Qed.

Lemma whitespace_nonempty : [] ∉ whitespace ∧ [] ∉ map reverse whitespace.
Proof. split; apply (bool_decide_unpack _); vm_compute; exact I. Qed.

Lemma trim_bytes_fixed s :
  strip_first whitespace s = None → strip_first (map reverse whitespace) (reverse s) = None →
  trim_bytes s = s.
Proof.
  intros H1 H2. unfold trim_bytes. rewrite (strip_all_fixed _ _ _ H1), (strip_all_fixed _ _ _ H2).
  apply reverse_involutive.
Qed.

Lemma trim_bytes_done s :
  strip_first whitespace (trim_bytes s) = None ∧
  strip_first (map reverse whitespace) (reverse (trim_bytes s)) = None.
Proof.
  unfold trim_bytes. destruct whitespace_nonempty as [H1 H2].
  set (u := strip_all (length s) whitespace s).
  assert (strip_first whitespace u = None) as Hu by (apply strip_all_done; done || lia).
  rewrite reverse_involutive. split.
  - destruct (strip_all_suffix (map reverse whitespace) (length u) (reverse u)) as [pre Hpre].
    apply (f_equal reverse) in Hpre. rewrite reverse_involutive, reverse_app in Hpre.
    apply strip_first_None. intros p r Hp Heq. rewrite Heq, <- app_assoc in Hpre.
    by eapply strip_first_None in Hu.
  - apply strip_all_done; [done|]. by rewrite length_reverse.
Qed.

Lemma trim_bytes_idem s : trim_bytes (trim_bytes s) = trim_bytes s.
Proof. apply trim_bytes_fixed; apply trim_bytes_done. Qed.

Lemma trim_idem s : trim (trim s) = trim s.
Proof.
  unfold trim at 1 2. unfold as_bytes at 1.
  rewrite String.list_ascii_of_string_of_list_ascii, trim_bytes_idem. done.
Qed.

(** Permuted lists of strings sort alike. *)
Lemma merge_sort_perm (l l' : list string) :
  l ≡ₚ l' → merge_sort String.le l = merge_sort String.le l'.
Proof.
  intros Hp. apply (StronglySorted_unique String.le).
  - apply (StronglySorted_merge_sort String.le).
  - apply (StronglySorted_merge_sort String.le).
  - by rewrite !merge_sort_Permutation.
Qed.

Lemma merge_sort_sorted (l : list string) :
  StronglySorted String.le l → merge_sort String.le l = l.
Proof.
  intros Hs. apply (StronglySorted_unique String.le); [|done|apply merge_sort_Permutation].
  apply (StronglySorted_merge_sort String.le).
Qed.

(** ** Sorting by a comparator: [slice::sort_by], [Ordering::then] *)

Definition then_cmp (c d : comparison) : comparison := match c with Eq => d | _ => c end.

(** [slice::sort_by]: stable, by insertion. *)
Fixpoint insert_by {A} (cmp : A → A → comparison) (x : A) (l : list A) : list A :=
  match l with
  | [] => [x]
  | y :: rest => match cmp x y with Gt => y :: insert_by cmp x rest | _ => x :: l end
  end.

Definition sort_by {A} (cmp : A → A → comparison) (l : list A) : list A := foldr (insert_by cmp) [] l.

(** The contract a comparator owes [sort_by]: a total preorder. *)
Class CmpLaws {A} (cmp : A → A → comparison) : Prop := {
  cmp_opp x y : cmp y x = CompOpp (cmp x y);
  cmp_trans x y z : cmp x y ≠ Gt → cmp y z ≠ Gt → cmp x z ≠ Gt;
}.

Arguments cmp_opp {A} cmp {_} x y.
Arguments cmp_trans {A} cmp {_} x y z.

Definition cmp_le {A} (cmp : A → A → comparison) (x y : A) : Prop := cmp x y ≠ Gt.

Section comparators.
Context {A B : Type}.
Implicit Types (cmp : A → A → comparison).

Lemma cmp_refl cmp `{!CmpLaws cmp} x : cmp x x = Eq.
Proof. pose proof (cmp_opp cmp x x) as Hx. by destruct (cmp x x). Qed.

Lemma cmp_total cmp `{!CmpLaws cmp} x y : cmp_le cmp x y ∨ cmp_le cmp y x.
Proof. unfold cmp_le. rewrite (cmp_opp cmp x y). destruct (cmp x y); auto. Qed.

Lemma cmp_lt_le_trans cmp `{!CmpLaws cmp} x y z : cmp x y = Lt → cmp_le cmp y z → cmp x z = Lt.
Proof.
  intros Hxy Hyz. assert (cmp_le cmp x z) as Hxz by (apply (cmp_trans cmp x y z); [congruence|done]).
  destruct (cmp x z) eqn:E; [|done|done].
  destruct (cmp_trans cmp y z x Hyz); rewrite ?(cmp_opp cmp x z), ?(cmp_opp cmp x y), ?E, ?Hxy; done.
Qed.

Lemma cmp_le_lt_trans cmp `{!CmpLaws cmp} x y z : cmp_le cmp x y → cmp y z = Lt → cmp x z = Lt.
Proof.
  intros Hxy Hyz. assert (cmp_le cmp x z) as Hxz by (apply (cmp_trans cmp x y z); [done|congruence]).
  destruct (cmp x z) eqn:E; [|done|done].
  destruct (cmp_trans cmp z x y); rewrite ?(cmp_opp cmp x z), ?(cmp_opp cmp y z), ?E, ?Hyz; done.
Qed.

Lemma then_cmp_laws cmp cmp' `{!CmpLaws cmp, !CmpLaws cmp'} :
  CmpLaws (λ x y, then_cmp (cmp x y) (cmp' x y)).
Proof.
  split.
  - intros x y. rewrite (cmp_opp cmp x y), (cmp_opp cmp' x y). by destruct (cmp x y).
  - intros x y z Hxy Hyz. destruct (cmp x y) eqn:E1, (cmp y z) eqn:E2; simpl in *; try done.
    + assert (cmp x z = Eq) as ->; [|by apply (cmp_trans cmp' x y z)].
      assert (cmp x z ≠ Gt ∧ cmp z x ≠ Gt) as [H1 H2]
        by (split; [apply (cmp_trans cmp x y z)|apply (cmp_trans cmp z y x)]; rewrite ?(cmp_opp cmp y z), ?(cmp_opp cmp x y), ?E1, ?E2; done).
      rewrite (cmp_opp cmp x z) in H2. by destruct (cmp x z).
    + by rewrite (cmp_le_lt_trans cmp x y z) by (unfold cmp_le; congruence).
    + by rewrite (cmp_lt_le_trans cmp x y z) by (unfold cmp_le; congruence).
    + by rewrite (cmp_lt_le_trans cmp x y z) by (unfold cmp_le; congruence).
Qed.

Lemma on_cmp_laws cmp (f : B → A) `{!CmpLaws cmp} : CmpLaws (λ x y, cmp (f x) (f y)).
Proof. split; [intros; apply (cmp_opp cmp)|intros x y z Hxy Hyz; by eapply (cmp_trans cmp)]. Qed.

Lemma flip_cmp_laws cmp `{!CmpLaws cmp} : CmpLaws (λ x y, cmp y x).
Proof. split; [intros; apply (cmp_opp cmp)|intros x y z Hxy Hyz; by eapply (cmp_trans cmp)]. Qed.

Lemma insert_by_perm cmp x l : insert_by cmp x l ≡ₚ x :: l.
Proof. induction l as [|y l IH]; simpl; [done|]. destruct (cmp x y); [done..|]. rewrite IH. constructor. Qed.

Lemma sort_by_perm cmp l : sort_by cmp l ≡ₚ l.
Proof. induction l as [|x l IH]; simpl; [done|]. by rewrite insert_by_perm, IH. Qed.

Lemma insert_by_sorted cmp `{!CmpLaws cmp} x l :
  StronglySorted (cmp_le cmp) l → StronglySorted (cmp_le cmp) (insert_by cmp x l).
Proof.
  induction 1 as [|y l Hl IH Hy]; simpl; [by repeat constructor|].
  destruct (cmp x y) eqn:E; [| |constructor; [done|]].
  - constructor; [by constructor|]. constructor; [unfold cmp_le; congruence|].
    eapply Forall_impl; [exact Hy|]. intros z. apply (cmp_trans cmp). congruence.
  - constructor; [by constructor|]. constructor; [unfold cmp_le; congruence|].
    eapply Forall_impl; [exact Hy|]. intros z. apply (cmp_trans cmp). congruence.
  - rewrite insert_by_perm. constructor; [|done]. unfold cmp_le. by rewrite (cmp_opp cmp x y), E.
Qed.

Lemma sort_by_sorted cmp `{!CmpLaws cmp} l : StronglySorted (cmp_le cmp) (sort_by cmp l).
Proof. induction l; simpl; [constructor|by apply insert_by_sorted]. Qed.

(** Where the comparator tells the elements apart, the order of the input does
    not matter. *)
Lemma sort_by_unique cmp `{!CmpLaws cmp} l l' :
  l ≡ₚ l' → (∀ x y, x ∈ l → y ∈ l → cmp x y = Eq → x = y) → sort_by cmp l = sort_by cmp l'.
Proof.
  intros Hp Heq. apply (StronglySorted_unique_strong (cmp_le cmp)).
  - intros x y Hx Hy. rewrite sort_by_perm in Hx. rewrite sort_by_perm, <- Hp in Hy.
    unfold cmp_le. rewrite (cmp_opp cmp x y). intros H1 H2. apply Heq; [done..|]. by destruct (cmp x y).
  - apply sort_by_sorted; done.
  - apply sort_by_sorted; done.
  - by rewrite !sort_by_perm.
Qed.

Lemma sort_by_strict cmp `{!CmpLaws cmp} l :
  (∀ x y, x ∈ l → y ∈ l → cmp x y = Eq → x = y) → NoDup l →
  StronglySorted (λ x y, cmp x y = Lt) (sort_by cmp l).
Proof.
  intros Heq Hnd.
  assert (∀ x, x ∈ sort_by cmp l → x ∈ l) as Hin by (intros x; by rewrite sort_by_perm).
  assert (NoDup (sort_by cmp l)) as Hnd' by by rewrite sort_by_perm.
  pose proof (sort_by_sorted cmp l) as Hs. induction Hs as [|x r Hr IH Hx]; constructor.
  - apply NoDup_cons in Hnd' as [_ Hnd']. apply IH; [|done]. intros y Hy. apply Hin. by right.
  - apply NoDup_cons in Hnd' as [Hxr _]. apply Forall_forall. intros y Hy.
    rewrite Forall_forall in Hx. specialize (Hx y Hy). unfold cmp_le in Hx.
    destruct (cmp x y) eqn:E; [|done|done]. destruct Hxr.
    by rewrite (Heq x y) by (done || (apply Hin; by left) || (apply Hin; by right)).
Qed.

End comparators.

#[export] Instance Z_cmp_laws : CmpLaws Z.compare.
Proof. split; [intros x y; apply Z.compare_antisym|]. intros x y z. unfold not. rewrite !Z.compare_gt_iff. lia. Qed.

#[export] Instance string_cmp_laws : CmpLaws String.compare.
Proof.
  split; [intros x y; apply String.compare_antisym|].
  intros x. induction x as [|a x IH]; intros [|b y] [|c z]; simpl; try done.
  unfold Ascii.compare.
  destruct (N.compare_spec (N_of_ascii a) (N_of_ascii b)), (N.compare_spec (N_of_ascii b) (N_of_ascii c)),
    (N.compare_spec (N_of_ascii a) (N_of_ascii c)); try done; try lia. apply IH.
Qed.

Lemma string_compare_Eq x y : String.compare x y = Eq → x = y.
Proof. by apply String.compare_eq_iff. Qed.

(** The derived order of [Option]: [None] first. *)
Definition option_cmp {A} (cmp : A → A → comparison) (x y : option A) : comparison :=
  match x, y with
  | None, None => Eq
  | None, Some _ => Lt
  | Some _, None => Gt
  | Some a, Some b => cmp a b
  end.

#[export] Instance option_cmp_laws {A} (cmp : A → A → comparison) `{!CmpLaws cmp} : CmpLaws (option_cmp cmp).
Proof.
  split; [intros [x|] [y|]; try done; apply (cmp_opp cmp)|].
  intros [x|] [y|] [z|]; try done. apply (cmp_trans cmp).
Qed.

Lemma option_cmp_Eq {A} (cmp : A → A → comparison) (Heq : ∀ a b, cmp a b = Eq → a = b) x y :
  option_cmp cmp x y = Eq → x = y.
Proof. destruct x, y; simpl; intros; try done. f_equal. by apply Heq. Qed.

(** The derived order of [Vec]: lexicographic. *)
Fixpoint list_cmp {A} (cmp : A → A → comparison) (x y : list A) : comparison :=
  match x, y with
  | [], [] => Eq
  | [], _ => Lt
  | _, [] => Gt
  | a :: x', b :: y' => then_cmp (cmp a b) (list_cmp cmp x' y')
  end.

#[export] Instance list_cmp_laws {A} (cmp : A → A → comparison) `{!CmpLaws cmp} : CmpLaws (list_cmp cmp).
Proof.
  split.
  - intros x. induction x as [|a x IH]; intros [|b y]; simpl; try done.
    rewrite (cmp_opp cmp a b), IH. by destruct (cmp a b).
  - intros x. induction x as [|a x IH]; intros [|b y] [|c z]; simpl; try done.
    intros Hxy Hyz. destruct (cmp a b) eqn:E1, (cmp b c) eqn:E2; simpl in *; try done.
    + assert (cmp a c = Eq) as ->; [|by apply (IH y z)].
      assert (cmp a c ≠ Gt ∧ cmp c a ≠ Gt) as [H1 H2] by (split;
        [apply (cmp_trans cmp a b c)|apply (cmp_trans cmp c b a)]; rewrite ?(cmp_opp cmp b c), ?(cmp_opp cmp a b), ?E1, ?E2; done).
      rewrite (cmp_opp cmp a c) in H2. by destruct (cmp a c).
    + by rewrite (cmp_le_lt_trans cmp a b c) by (unfold cmp_le; congruence).
    + by rewrite (cmp_lt_le_trans cmp a b c) by (unfold cmp_le; congruence).
    + by rewrite (cmp_lt_le_trans cmp a b c) by (unfold cmp_le; congruence).
Qed.

Lemma list_cmp_Eq {A} (cmp : A → A → comparison) (Heq : ∀ a b, cmp a b = Eq → a = b) x y :
  list_cmp cmp x y = Eq → x = y.
Proof.
  revert y. induction x as [|a x IH]; intros [|b y]; simpl; try done.
  destruct (cmp a b) eqn:E; simpl; try done. intros Hxy. f_equal; auto.
Qed.

#[global] Arguments le_bytes : simpl never.
#[global] Arguments byte_of : simpl never.
