(* ===== verification/Utf8.v ===== *)
(** * UTF-8 (String::from_utf8_lossy)

    Rust's decoder of possibly damaged text: the longest valid prefixes of
    ill-formed sequences are each replaced by U+FFFD. *)

From stdpp Require Import base numbers list.
From Stdlib Require Import Ascii.
From S2P Require Import Prelude.
#[local] Open Scope Z_scope.

(** The range of the second byte of a sequence and how many more follow it, by
    its first byte. *)
Definition utf8_second (x : Z) : option (Z * Z * nat) :=
  if bool_decide (194 ≤ x ≤ 223) then Some (128, 191, 0%nat)
  else if bool_decide (x = 224) then Some (160, 191, 1%nat)
  else if bool_decide (225 ≤ x ≤ 236 ∨ 238 ≤ x ≤ 239) then Some (128, 191, 1%nat)
  else if bool_decide (x = 237) then Some (128, 159, 1%nat)
  else if bool_decide (x = 240) then Some (144, 191, 2%nat)
  else if bool_decide (241 ≤ x ≤ 243) then Some (128, 191, 2%nat)
  else if bool_decide (x = 244) then Some (128, 143, 2%nat)
  else None.

(** [more] continuation bytes: how many are there, and whether all are. *)
Fixpoint utf8_rest (more : nat) (s : bytes) : bool * nat :=
  match more, s with
  | O, _ => (true, 0%nat)
  | S more', b :: s' =>
      if is_continuation b
      then let '(ok, n) := utf8_rest more' s' in (ok, S n)
      else (false, 0%nat)
  | S _, [] => (false, 0%nat)
  end.

(** The sequence that starts with [a]: whether it is a character, and how many
    of the bytes after [a] belong to it. *)
Definition utf8_sequence (a : ascii) (s : bytes) : bool * nat :=
  let x := byte_val a in
  if bool_decide (x < 128) then (true, 0%nat)
  else match utf8_second x, s with
       | Some (lo, hi, more), b :: s' =>
           if bool_decide (lo ≤ byte_val b ≤ hi)
           then let '(ok, n) := utf8_rest more s' in (ok, S n)
           else (false, 0%nat)
       | _, _ => (false, 0%nat)
       end.

Definition replacement_character : bytes := map byte_of [239; 191; 189].

Fixpoint utf8_lossy_loop (fuel : nat) (s : bytes) : bytes :=
  match fuel, s with
  | S fuel', a :: s' =>
      let '(ok, n) := utf8_sequence a s' in
      (if ok then a :: take n s' else replacement_character) ++ utf8_lossy_loop fuel' (drop n s')
  | _, _ => []
  end.

(** [String::from_utf8_lossy]; each round consumes a byte. *)
Definition utf8_lossy (s : bytes) : bytes := utf8_lossy_loop (length s) s.

(** Plain ASCII is left as it is. *)
Lemma utf8_lossy_ascii s : Forall (λ a, byte_val a < 128) s → utf8_lossy s = s.
Proof.
  unfold utf8_lossy. induction 1 as [|a s Ha _ IH]; [done|]. cbn [length utf8_lossy_loop].
  unfold utf8_sequence. rewrite bool_decide_true by done.
  rewrite take_0, drop_0. simpl. by rewrite IH.
Qed.

(** Text decodes a character at a time. *)
Lemma utf8_rest_le more s : ((utf8_rest more s).2 ≤ length s)%nat.
Proof.
  revert s. induction more as [|more IH]; intros [|b s]; simpl; try lia.
  destruct (is_continuation b); [|simpl; lia]. specialize (IH s).
  destruct (utf8_rest more s) as [ok n]. simpl in *. lia.
Qed.

Example lossy_e_acute : utf8_lossy (map byte_of [99; 195; 169]) = map byte_of [99; 195; 169].
Proof. vm_compute. reflexivity. Qed.

Example lossy_torn : utf8_lossy (map byte_of [226; 130; 65]) = map byte_of [239; 191; 189; 65].
Proof. vm_compute. reflexivity. Qed.
