(* ===== verification/Json.v ===== *)
(** * JSON values (serde_json::Value)

    The value type the records, payloads and envelopes of the runtime are made
    of.  An object is the association list of serde_json's default map, a
    [BTreeMap]: [btree_insert] keeps the keys strictly increasing.  Text
    rendering and parsing belong to serde_json and are operations of the class
    [JsonText], with the laws the runtime relies on in [JsonTextLaws].  The file
    ends with the floats a value can hold, by their bits. *)

From stdpp Require Import base sets strings numbers sorting list.
From Stdlib Require Import Ascii.
From S2P Require Import Prelude.
#[local] Open Scope Z_scope.

(** serde_json's [Number]: an unsigned, a negative or a floating-point number,
    the last by its IEEE 754 bits. *)
Inductive number : Type :=
| PosInt (u : Z)
| NegInt (i : Z)
| Float (bits : Z).

#[export] Instance number_eq_dec : EqDecision number.
Proof. solve_decision. Defined.

Inductive json : Type :=
| JNull
| JBool (b : bool)
| JNumber (n : number)
| JString (s : string)
| JArray (items : list json)
| JObject (fields : list (string * json)).

(** The induction principle that sees through arrays and objects. *)
Fixpoint json_ind_strong (P : json → Prop)
    (Hnull : P JNull) (Hbool : ∀ b, P (JBool b)) (Hnum : ∀ n, P (JNumber n))
    (Hstr : ∀ s, P (JString s))
    (Harr : ∀ l, Forall P l → P (JArray l))
    (Hobj : ∀ m, Forall (λ kv, P kv.2) m → P (JObject m))
    (v : json) {struct v} : P v :=
  let rec := json_ind_strong P Hnull Hbool Hnum Hstr Harr Hobj in
  match v with
  | JNull => Hnull
  | JBool b => Hbool b
  | JNumber n => Hnum n
  | JString s => Hstr s
  | JArray l =>
      Harr l ((fix go l : Forall P l :=
                 match l with
                 | [] => List.Forall_nil _
                 | x :: l' => List.Forall_cons _ _ _ (rec x) (go l')
                 end) l)
  | JObject m =>
      Hobj m ((fix go m : Forall (λ kv, P kv.2) m :=
                 match m with
                 | [] => List.Forall_nil _
                 | kv :: m' => List.Forall_cons _ _ _ (rec kv.2) (go m')
                 end) m)
  end.

(** ** Maps in key order *)

(** [BTreeMap::get]. *)
Fixpoint obj_get {A} (k : string) (m : list (string * A)) : option A :=
  match m with
  | [] => None
  | (k', v) :: m' => if bool_decide (k = k') then Some v else obj_get k m'
  end.

(** [BTreeMap::insert] on the list of entries in key order. *)
Fixpoint btree_insert {A} (k : string) (v : A) (m : list (string * A))
    : list (string * A) :=
  match m with
  | [] => [(k, v)]
  | (k', v') :: m' =>
      if bool_decide (k = k') then (k, v) :: m'
      else if bool_decide (String.le k k') then (k, v) :: m
      else (k', v') :: btree_insert k v m'
  end.

(** The [json!({...})] macro: insertion of the fields in source order. *)
Definition json_object (fields : list (string * json)) : json :=
  JObject (foldl (λ m '(k, v), btree_insert k v m) [] fields).

(** ** Accessors of [Value] *)

Definition json_get (k : string) (v : json) : option json :=
  match v with JObject m => obj_get k m | _ => None end.

Definition as_str (v : json) : option string :=
  match v with JString s => Some s | _ => None end.

Definition as_bool (v : json) : option bool :=
  match v with JBool b => Some b | _ => None end.

Definition as_u64 (v : json) : option Z :=
  match v with JNumber (PosInt u) => Some u | _ => None end.

(** [payload.get(k).and_then(Value::as_str)]. *)
Definition get_str (v : json) (k : string) : option string := json_get k v ≫= as_str.
Definition get_bool (v : json) (k : string) : option bool := json_get k v ≫= as_bool.
Definition get_u64 (v : json) (k : string) : option Z := json_get k v ≫= as_u64.

(** An [Option] field in the [json!] macro. *)
Definition json_opt_str (o : option string) : json :=
  match o with Some s => JString s | None => JNull end.

(** ** Documents

    A parsed document keeps the members of its objects in text order, repeated
    keys included.  A [Value] is that document with each object inserted in a
    [BTreeMap], the last member of a key winning; a struct is decoded from the
    document itself. *)

Fixpoint value_of (doc : json) : json :=
  match doc with
  | JArray l => JArray (map value_of l)
  | JObject m => json_object (map (λ kv, (kv.1, value_of kv.2)) m)
  | _ => doc
  end.

(** ** Decoding derived by serde

    A struct is read from an object that repeats none of its fields (other keys
    are ignored), or from an array of its fields in declaration order. *)

Definition key_count (k : string) (m : list (string * json)) : nat :=
  length (filter (λ kv, kv.1 = k) m).

Definition struct_view (names : list string) (doc : json) : option (list (string * json)) :=
  match doc with
  | JObject m => if forallb (λ k, (key_count k m <=? 1)%nat) names then Some m else None
  | JArray l => if (length l =? length names)%nat then Some (zip names l) else None
  | _ => None
  end.

(** A required [String] field. *)
Definition field_string (m : list (string * json)) (k : string) : option string :=
  obj_get k m ≫= as_str.

(** An [Option<T>] field: absent and null are [None]. *)
Definition field_option {A} (dec : json → option A) (m : list (string * json)) (k : string)
    : option (option A) :=
  match obj_get k m with
  | None | Some JNull => Some None
  | Some v => Some <$> dec v
  end.

(** A field with [#[serde(default)]]: absent is the default, null is not. *)
Definition field_default {A} (d : A) (dec : json → option A) (m : list (string * json))
    (k : string) : option A :=
  match obj_get k m with None => Some d | Some v => dec v end.

(** An unsigned integer at the width whose maximum is [mx] (a [PosInt] is never
    negative). *)
Definition as_uint (mx : Z) (v : json) : option Z :=
  u ← as_u64 v; if bool_decide (0 ≤ u ≤ mx) then Some u else None.

Definition as_list {A} (dec : json → option A) (v : json) : option (list A) :=
  match v with JArray l => mapM dec l | _ => None end.

(** A unit variant: its name, or an object with the name alone and a null. *)
Definition variant_name (v : json) : option string :=
  match v with
  | JString s => Some s
  | JObject [(s, JNull)] => Some s
  | _ => None
  end.

(** The variant of a list whose serde name is in the document. *)
Definition decode_variant {A} (name : A → string) (all : list A) (v : json) : option A :=
  s ← variant_name v; head (filter (λ a, name a = s) all).

(** ** Text *)

(** What the code calls of serde_json to turn values into text and back. *)
Class JsonText : Type := {
  number_text : number → string;
  string_text : string → string;
  print_json : json → string;
  print_json_pretty : json → string;
  parse_json : string → option json;
}.

(** [serde_json::from_str::<Value>]. *)
Definition from_str_value `{JsonText} (s : string) : option json := value_of <$> parse_json s.

(** Integers at their width and no float (whose text need not read back to the
    same bits), at every depth. *)
Fixpoint exact_numbers (v : json) : bool :=
  match v with
  | JNumber (PosInt u) => bool_decide (0 ≤ u ∧ u ≤ u64_max)
  | JNumber (NegInt i) => bool_decide (- 2 ^ 63 ≤ i ∧ i < 0)
  | JNumber (Float _) => false
  | JArray l => forallb exact_numbers l
  | JObject m => forallb (λ kv, exact_numbers kv.2) m
  | _ => true
  end.

(** The nesting depth; the parser refuses more than 127 levels. *)
Fixpoint json_depth (v : json) : nat :=
  match v with
  | JArray l => S (max_list_with json_depth l)
  | JObject m => S (max_list_with (λ kv, json_depth kv.2) m)
  | _ => 0
  end.

Definition json_exact (v : json) : bool := exact_numbers v && (json_depth v <=? 127)%nat.

(** Documented behaviour of serde_json: printed text parses back to the
    document it was printed from, compact output holds no raw newline (control
    characters are escaped), and the empty text is not JSON. *)
Class JsonTextLaws `{JsonText} : Prop := {
  parse_print : ∀ v, json_exact v = true → parse_json (print_json v) = Some v;
  parse_print_pretty : ∀ v, json_exact v = true → parse_json (print_json_pretty v) = Some v;
  print_no_newline : ∀ v, newline ∉ as_bytes (print_json v);
  parse_empty : parse_json "" = None;
}.

(** ** Lemmas *)

Lemma obj_get_None {A} k (m : list (string * A)) : obj_get k m = None ↔ k ∉ m.*1.
Proof.
  induction m as [|[k' v] m IH]; simpl; [set_solver|].
  case_bool_decide; subst; set_solver.
Qed.

Lemma obj_get_elem {A} k (v : A) m : obj_get k m = Some v → (k, v) ∈ m.
Proof.
  induction m as [|[k' v'] m IH]; simpl; [done|].
  case_bool_decide; intros; simplify_eq; set_solver.
Qed.

Lemma elem_obj_get {A} k (v : A) m : NoDup m.*1 → (k, v) ∈ m → obj_get k m = Some v.
Proof.
  induction m as [|[k' v'] m IH]; simpl; [set_solver|].
  intros [Hk Hnd]%NoDup_cons [Heq|Hin]%elem_of_cons.
  - simplify_eq. by rewrite bool_decide_true.
  - rewrite bool_decide_false; [by apply IH|]. intros ->. apply Hk.
    apply list_elem_of_fmap. by exists (k', v).
Qed.

Lemma obj_get_insert {A} k k' (v : A) m :
  obj_get k' (btree_insert k v m) = if bool_decide (k' = k) then Some v else obj_get k' m.
Proof.
  induction m as [|[k0 v0] m IH]; simpl; [by case_bool_decide|].
  repeat case_bool_decide; simpl; subst; repeat case_bool_decide; simplify_eq; try done.
  all: rewrite IH; by case_bool_decide.
Qed.

(** Reading a field of a [json!] literal: the last entry with that key. *)
Lemma json_get_object k fields :
  json_get k (json_object fields) =
    foldl (λ o '(k', v), if bool_decide (k = k') then Some v else o) None fields.
Proof.
  unfold json_object; simpl.
  change (@None json) with (obj_get k (@nil (string * json))).
  generalize (@nil (string * json)) as acc.
  induction fields as [|[k' v] fs IH]; intros acc; simpl; [done|].
  rewrite IH, obj_get_insert. done.
Qed.

Lemma obj_get_map {A B} (f : A → B) k (m : list (string * A)) :
  obj_get k (map (λ kv, (kv.1, f kv.2)) m) = f <$> obj_get k m.
Proof. induction m as [|[k' v] m IH]; simpl; [done|]. by case_bool_decide. Qed.

(** *** Objects without repeated keys *)

Definition object_fields (fields : list (string * json)) : list (string * json) :=
  foldl (λ m '(k, v), btree_insert k v m) [] fields.

Lemma json_object_fields fields : json_object fields = JObject (object_fields fields).
Proof. done. Qed.

Lemma fold_get_absent k (fields : list (string * json)) o :
  k ∉ fields.*1 →
  foldl (λ o '(k', v), if bool_decide (k = k') then Some v else o) o fields = o.
Proof.
  revert o. induction fields as [|[k' v] fs IH]; intros o Hk; simpl; [done|].
  rewrite bool_decide_false by set_solver. apply IH. set_solver.
Qed.

(** The object built from fields with distinct keys has those fields. *)
Lemma obj_get_object_fields k fields :
  NoDup fields.*1 → obj_get k (object_fields fields) = obj_get k fields.
Proof.
  intros Hnd. change (json_get k (json_object fields) = obj_get k fields).
  rewrite json_get_object.
  assert (∀ o, foldl (λ o '(k', v), if bool_decide (k = k') then Some v else o) o fields =
               match obj_get k fields with Some v => Some v | None => o end) as Hg.
  { induction fields as [|[k' v] fs IH]; intros o; simpl; [done|].
    simpl in Hnd. apply NoDup_cons in Hnd as [Hk Hnd].
    case_bool_decide; [subst; by rewrite fold_get_absent|by rewrite IH]. }
  rewrite Hg. by destruct (obj_get k fields).
Qed.

Lemma btree_insert_keys {A} k k' (v : A) m : k' ∈ (btree_insert k v m).*1 ↔ k' = k ∨ k' ∈ m.*1.
Proof.
  induction m as [|[k0 v0] m IH]; simpl; [set_solver|].
  repeat case_bool_decide; simpl; set_solver.
Qed.

Lemma btree_insert_length {A} k (v : A) m :
  k ∉ m.*1 → btree_insert k v m ≡ₚ (k, v) :: m.
Proof.
  induction m as [|[k0 v0] m IH]; simpl; intros Hk; [done|].
  rewrite bool_decide_false by set_solver. case_bool_decide; [done|].
  rewrite IH by set_solver. apply Permutation_swap.
Qed.

Lemma object_fields_perm fields : NoDup fields.*1 → object_fields fields ≡ₚ fields.
Proof.
  unfold object_fields. intros Hnd.
  assert (∀ acc, NoDup (fields.*1 ++ acc.*1) →
    foldl (λ m '(k, v), btree_insert k v m) acc fields ≡ₚ fields ++ acc) as Hg.
  { clear Hnd. induction fields as [|[k v] fs IH]; intros acc Hnd; simpl in *; [done|].
    apply NoDup_cons in Hnd as [Hk Hnd].
    assert (btree_insert k v acc ≡ₚ (k, v) :: acc) as Hp by (apply btree_insert_length; set_solver).
    assert ((btree_insert k v acc).*1 ≡ₚ k :: acc.*1) as Hp1 by (by rewrite Hp).
    rewrite IH.
    - rewrite Hp. by rewrite Permutation_middle.
    - rewrite Hp1, <- Permutation_middle. by apply NoDup_cons. }
  rewrite Hg; [by rewrite app_nil_r|]. by rewrite app_nil_r.
Qed.

Lemma key_count_NoDup k m : NoDup m.*1 → (key_count k m ≤ 1)%nat.
Proof.
  unfold key_count. induction m as [|[k' v] m IH]; simpl; [lia|].
  intros [Hk Hnd]%NoDup_cons. rewrite filter_cons. case_decide as E; simpl; [|auto].
  simpl in E; subst. destruct (filter _ m) as [|[k2 v2] l] eqn:F; [simpl; lia|].
  assert ((k2, v2) ∈ filter (λ kv, kv.1 = k) m) as [Heq Hin]%list_elem_of_filter
    by (rewrite F; set_solver).
  simpl in Heq; subst. destruct Hk. apply list_elem_of_fmap. by exists (k, v2).
Qed.

Lemma struct_view_NoDup names m : NoDup m.*1 → struct_view names (JObject m) = Some m.
Proof.
  intros Hnd. simpl. assert (forallb (λ k, (key_count k m <=? 1)%nat) names = true) as ->; [|done].
  apply forallb_forall. intros k _. apply Nat.leb_le, key_count_NoDup, Hnd.
Qed.

(** The members of a [Value] built from distinct fields. *)
Lemma value_members (fields : list (string * json)) :
  NoDup fields.*1 →
  ∃ m, value_of (JObject fields) = JObject m ∧ NoDup m.*1 ∧
    ∀ k, obj_get k m = value_of <$> obj_get k fields.
Proof.
  intros Hnd. assert ((map (λ kv : string * json, (kv.1, value_of kv.2)) fields).*1 = fields.*1) as Hk.
  { change (map ?f ?l) with (f <$> l). rewrite <- list_fmap_compose. by apply list_fmap_ext. }
  simpl. rewrite json_object_fields. eexists. split; [reflexivity|]. split.
  - rewrite (object_fields_perm (map _ fields)); by rewrite Hk.
  - intros k. rewrite obj_get_object_fields by (by rewrite Hk). apply obj_get_map.
Qed.

(** ** Floating-point numbers by their bits

    A 64-bit float is kept as its IEEE 754 bits: the tests the code makes, the
    conversion from an integer, and what serde_json makes of a float. *)

Definition f64_is_zero (b : Z) : bool := bool_decide (b = 0 ∨ b = 2 ^ 63).
Definition f64_exponent (b : Z) : Z := (b / 2 ^ 52) mod 2048.
Definition f64_is_finite (b : Z) : bool := bool_decide (f64_exponent b ≠ 2047).
Definition f64_is_nan (b : Z) : bool :=
  bool_decide (f64_exponent b = 2047 ∧ b mod 2 ^ 52 ≠ 0).

(** [==] on [f64]: a NaN equals nothing and the two zeros are equal. *)
Definition f64_eqb (a b : Z) : bool :=
  negb (f64_is_nan a) && negb (f64_is_nan b) &&
  (bool_decide (a = b) || (f64_is_zero a && f64_is_zero b)).

(** [f64::partial_cmp], and the comparisons that come from it. *)
Definition f64_key (b : Z) : Z := if bool_decide (b < 2 ^ 63) then b else - (b - 2 ^ 63).
Definition f64_partial_cmp (a b : Z) : option comparison :=
  if f64_is_nan a || f64_is_nan b then None else Some (Z.compare (f64_key a) (f64_key b)).
Definition f64_leb (a b : Z) : bool :=
  match f64_partial_cmp a b with Some (Lt | Eq) => true | _ => false end.
Definition f64_ltb (a b : Z) : bool :=
  match f64_partial_cmp a b with Some Lt => true | _ => false end.

(** [f64::total_cmp]. *)
Definition total_key (bits : Z) : Z := if bool_decide (bits < 2 ^ 63) then bits else -1 - (bits - 2 ^ 63).
Definition f64_total_cmp (a b : Z) : comparison := Z.compare (total_key a) (total_key b).

(** [u as f64] for a positive integer: round to nearest, ties to even. *)
Definition f64_of_pos (m : Z) : Z :=
  let k := Z.log2 m in
  if bool_decide (k ≤ 52) then (k + 1023) * 2 ^ 52 + (Z.shiftl m (52 - k) - 2 ^ 52)
  else
    let shift := k - 52 in
    let q := Z.shiftr m shift in
    let r := m mod 2 ^ shift in
    let half := 2 ^ (shift - 1) in
    let q' := if bool_decide (r > half ∨ (r = half ∧ Z.odd q = true)) then q + 1 else q in
    (k + 1023) * 2 ^ 52 + (q' - 2 ^ 52).

Definition f64_of_number (n : number) : Z :=
  match n with
  | PosInt u => if bool_decide (u = 0) then 0 else f64_of_pos u
  | NegInt i => 2 ^ 63 + f64_of_pos (- i)
  | Float bits => bits
  end.

(** A float in a [Value]: one that is not finite is null. *)
Definition f64_json (b : Z) : json := if f64_is_finite b then JNumber (Float b) else JNull.

Definition as_f64 (v : json) : option Z :=
  match v with JNumber n => Some (f64_of_number n) | _ => None end.

Lemma value_of_f64_json b : value_of (f64_json b) = f64_json b.
Proof. unfold f64_json. by destruct (f64_is_finite b). Qed.

#[export] Instance f64_total_cmp_laws : CmpLaws f64_total_cmp.
Proof. apply (on_cmp_laws Z.compare total_key). Qed.

Lemma f64_finite_not_nan b : f64_is_finite b = true → f64_is_nan b = false.
Proof.
  unfold f64_is_finite, f64_is_nan. rewrite bool_decide_eq_true, bool_decide_eq_false. tauto.
Qed.

(** A required [f64] field of a record that [to_value] wrote. *)
Lemma field_f64 m k b :
  f64_is_finite b = true → obj_get k m = Some (f64_json b) → obj_get k m ≫= as_f64 = Some b.
Proof. intros Hf ->. unfold f64_json. by rewrite Hf. Qed.
