(* ===== verification/CanonicalJson.v ===== *)
(** * Canonical JSON (crates/heiwa_mesh/src/envelope.rs)

    [write_canonical] renders a payload with its object keys sorted, so that a
    signature depends on the content of the payload and not on the order in
    which some parser stored it.  The theorems show both directions: values
    that differ only in key order render alike, and values that render alike
    differ only in key order. *)

From stdpp Require Import base sets list strings numbers sorting.
From Stdlib Require Import Ascii.
From S2P Require Import Prelude Json.
#[local] Open Scope Z_scope.
#[local] Arguments String.append : simpl nomatch.

(** The separator loops of [write_canonical]: a comma before every item but the
    first. *)
Fixpoint comma_separated (items : list string) : string :=
  match items with
  | [] => ""
  | [x] => x
  | x :: items' => x +:+ "," +:+ comma_separated items'
  end.

(** [write_canonical]: the rendered members of an object are looked up by key
    ([map[key]]) in the order of the sorted keys. *)
Fixpoint write_canonical `{JsonText} (value : json) : string :=
  match value with
  | JNull => "null"
  | JBool true => "true"
  | JBool false => "false"
  | JNumber number => number_text number
  | JString text => string_text text
  | JArray items => "[" +:+ comma_separated (map write_canonical items) +:+ "]"
  | JObject fields =>
      let rendered := map (λ kv, (kv.1, write_canonical kv.2)) fields in
      let keys := merge_sort String.le (map fst fields) in
      "{" +:+ comma_separated
                (map (λ key, string_text key +:+ ":" +:+ default "" (obj_get key rendered)) keys)
      +:+ "}"
  end.

Definition canonical_json `{JsonText} (value : json) : string := write_canonical value.

(** ** Values up to key order *)

Inductive json_equiv : json → json → Prop :=
| je_null : json_equiv JNull JNull
| je_bool b : json_equiv (JBool b) (JBool b)
| je_number n : json_equiv (JNumber n) (JNumber n)
| je_string s : json_equiv (JString s) (JString s)
| je_array l l' : Forall2 json_equiv l l' → json_equiv (JArray l) (JArray l')
| je_object m m' m'' :
    Permutation m'' m' →
    Forall2 (λ a b, a.1 = b.1 ∧ json_equiv a.2 b.2) m m'' →
    json_equiv (JObject m) (JObject m').

(** A finite [f64], or an integer at its width: what a [Number] can hold. *)
Definition number_valid (n : number) : Prop :=
  match n with
  | PosInt u => is_u64 u
  | NegInt i => - 2 ^ 63 ≤ i < 0
  | Float bits => is_u64 bits ∧ (bits / 2 ^ 52) mod 2048 ≠ 2047
  end.

(** Numbers in range and no repeated key, at every depth. *)
Inductive json_valid : json → Prop :=
| jv_null : json_valid JNull
| jv_bool b : json_valid (JBool b)
| jv_number n : number_valid n → json_valid (JNumber n)
| jv_string s : json_valid (JString s)
| jv_array l : Forall json_valid l → json_valid (JArray l)
| jv_object m : NoDup (map fst m) → Forall (λ kv, json_valid kv.2) m →
    json_valid (JObject m).

Definition quote_char : ascii := byte_of 34.

(** What may follow a value in JSON text. *)
Definition delimited (r : string) : Prop :=
  match r with
  | "" => True
  | String c _ => c = ","%char ∨ c = "]"%char ∨ c = "}"%char
  end.

(** Documented behaviour of serde_json's text (RFC 8259): a string literal
    starts with a quote and ends where its text says; a number starts with a
    digit or a minus sign, ends at a delimiter and determines its value. *)
Class CanonicalTextLaws `{JsonText} : Prop := {
  string_text_quote : ∀ s, ∃ t, string_text s = String quote_char t;
  string_text_prefix : ∀ s s' r r',
    string_text s +:+ r = string_text s' +:+ r' → s = s' ∧ r = r';
  number_text_head : ∀ n, ∃ c t, number_text n = String c t ∧
    (c = "-"%char ∨ 48 ≤ byte_val c ≤ 57);
  number_text_prefix : ∀ n n' r r', number_valid n → number_valid n' →
    delimited r → delimited r' →
    number_text n +:+ r = number_text n' +:+ r' → n = n' ∧ r = r';
}.

(** ** Lemmas: values up to key order render alike *)

Lemma obj_get_perm {A} k (m m' : list (string * A)) :
  NoDup m.*1 → m ≡ₚ m' → obj_get k m = obj_get k m'.
Proof.
  intros Hnd Hp. destruct (obj_get k m') as [v|] eqn:E.
  - apply elem_obj_get; [done|]. rewrite Hp. by apply obj_get_elem.
  - apply obj_get_None. rewrite Hp. by apply obj_get_None.
Qed.

Section canonical.
Context `{JsonText}.

Definition render (fields : list (string * json)) : list (string * string) :=
  map (λ kv, (kv.1, write_canonical kv.2)) fields.

Definition render_member (m : list (string * json)) (key : string) : string :=
  string_text key +:+ ":" +:+ default "" (obj_get key (render m)).

Lemma write_canonical_object m :
  write_canonical (JObject m) =
    "{" +:+ comma_separated (map (render_member m) (merge_sort String.le (map fst m))) +:+ "}".
Proof. done. Qed.

Lemma render_keys m : (render m).*1 = m.*1.
Proof. unfold render. induction m; simpl; [done|]. by f_equal. Qed.

Lemma render_equiv m m'' :
  Forall (λ kv, ∀ v', json_valid kv.2 → json_equiv kv.2 v' →
            write_canonical kv.2 = write_canonical v') m →
  Forall (λ kv, json_valid kv.2) m →
  Forall2 (λ a b, a.1 = b.1 ∧ json_equiv a.2 b.2) m m'' →
  render m = render m''.
Proof.
  intros IH Hv H2. induction H2 as [|[k v] [k' v'] m m'' [Hk Hj] H2 IH2]; [done|].
  apply Forall_cons in IH as [IHv IH], Hv as [Hvv Hv]. simpl in *. subst.
  rewrite (IHv v'), IH2; done.
Qed.

Lemma canonical_equiv v v' :
  json_valid v → json_equiv v v' → write_canonical v = write_canonical v'.
Proof.
  revert v'. induction v as [| | | |l IH|m IH] using json_ind_strong;
    intros v' Hv Hj; inversion Hj as [| | | |? l' H2|? m' m'' Hp H2]; subst; try done.
  - simpl. do 3 f_equal. inversion Hv as [| | | |? Hl|]; subst. clear Hj Hv.
    induction H2 as [|x y l l' Hxy H2 IH2]; [done|].
    apply Forall_cons in IH as [IHx IH], Hl as [Hx Hl]. simpl.
    rewrite (IHx y), IH2; done.
  - inversion Hv as [| | | | |? Hnd Hm]; subst. rewrite !write_canonical_object.
    assert (render m = render m'') as Hr by by eapply render_equiv.
    assert (map fst m = map fst m'') as Hk.
    { change (m.*1 = m''.*1). by rewrite <- (render_keys m), Hr, render_keys. }
    rewrite Hk, (merge_sort_perm (map fst m'') (map fst m')) by by rewrite Hp.
    do 2 f_equal. f_equal. apply map_ext. intros key. unfold render_member. rewrite Hr.
    do 3 f_equal. apply obj_get_perm; [|by unfold render; rewrite Hp].
    rewrite render_keys. change (NoDup (map fst m'')). by rewrite <- Hk.
Qed.

(** *** Objects as their entries in key order *)

Definition entries (m : list (string * json)) : list (string * json) :=
  map (λ key, (key, default JNull (obj_get key m))) (merge_sort String.le (map fst m)).

Definition entry_text (kv : string * json) : string :=
  string_text kv.1 +:+ ":" +:+ write_canonical kv.2.

Lemma obj_get_render key m :
  obj_get key (render m) = write_canonical <$> obj_get key m.
Proof. apply obj_get_map. Qed.

Lemma entries_text m :
  map (render_member m) (merge_sort String.le (map fst m)) = map entry_text (entries m).
Proof.
  unfold entries. rewrite map_map. apply map_ext_in. intros key Hin%list_elem_of_In.
  unfold render_member, entry_text; simpl. rewrite obj_get_render.
  rewrite merge_sort_Permutation in Hin.
  destruct (obj_get key m) eqn:E; [done|]. by apply obj_get_None in E.
Qed.

Lemma entries_perm m : NoDup (map fst m) → entries m ≡ₚ m.
Proof.
  intros Hnd. unfold entries. rewrite merge_sort_Permutation.
  assert (map (λ key, (key, default JNull (obj_get key m))) (map fst m) = m) as ->; [|done].
  rewrite map_map. rewrite <- (map_id m) at 2. apply map_ext_in.
  intros [k v] Hin%list_elem_of_In. simpl.
  rewrite (elem_obj_get k v m); [done|exact Hnd|done].
Qed.

(** *** Separated lists determine their items *)

Lemma string_app_assoc (a b c : string) : (a +:+ b) +:+ c = a +:+ b +:+ c.
Proof. induction a; simpl; [done|]. by f_equal. Qed.

(** What follows the first item of a separated list. *)
Definition items_rest (items : list string) (tail : string) : string :=
  match items with [] => tail | _ => "," +:+ comma_separated items +:+ tail end.

Lemma comma_separated_cons x items tail :
  comma_separated (x :: items) +:+ tail = x +:+ items_rest items tail.
Proof. destruct items; simpl; [done|]. by rewrite string_app_assoc. Qed.

Lemma items_rest_delimited items c r :
  (c = "]"%char ∨ c = "}"%char) → delimited (items_rest items (String c r)).
Proof. destruct items; simpl; tauto. Qed.

Lemma comma_separated_inj {A} (R : A → A → Prop) (f : A → string) close l :
  ∀ l' r r', (close = "]"%char ∨ close = "}"%char) →
  Forall (λ x, ∀ y t t', y ∈ l' → delimited t → delimited t' →
            f x +:+ t = f y +:+ t' → R x y ∧ t = t') l →
  Forall (λ x, ∃ c t, f x = String c t ∧ c ≠ close) (l ++ l') →
  comma_separated (map f l) +:+ String close r = comma_separated (map f l') +:+ String close r' →
  Forall2 R l l' ∧ r = r'.
Proof.
  induction l as [|x l IH]; intros [|y l'] r r' Hc Hinj Hhead.
  - simpl. intros [=]. auto.
  - apply Forall_cons in Hhead as [(c & t & E & Hne) _].
    rewrite (map_cons f y l'), comma_separated_cons, E. simpl. intros [=]; congruence.
  - apply Forall_cons in Hhead as [(c & t & E & Hne) _].
    rewrite (map_cons f x l), comma_separated_cons, E. simpl. intros [=]; congruence.
  - rewrite !map_cons, !comma_separated_cons. intros Heq.
    apply Forall_cons in Hinj as [Hx Hinj].
    apply Hx in Heq as [HR Ht]; [|by left|by apply items_rest_delimited..].
    destruct l as [|x2 l], l' as [|y2 l']; simpl in Ht.
    + injection Ht as ->. auto.
    + injection Ht as -> _. destruct Hc; discriminate.
    + injection Ht as <- _. destruct Hc; discriminate.
    + injection Ht as Ht.
      destruct (IH (y2 :: l') r r') as [HF ->]; [done| | |done|auto].
      * eapply Forall_impl; [exact Hinj|]. intros z Hz y' t t' Hin. apply Hz. by right.
      * apply Forall_app in Hhead as [[_ H1]%Forall_cons [_ H2]%Forall_cons].
        by apply Forall_app.
Qed.

(** *** Rendering determines the value up to key order *)

Context `{!CanonicalTextLaws}.

(** The first character tells the constructors apart. *)
Definition char_kind (c : ascii) : nat :=
  if bool_decide (c = "n"%char) then 0
  else if bool_decide (c = "t"%char) then 1
  else if bool_decide (c = "f"%char) then 2
  else if bool_decide (c = quote_char) then 4
  else if bool_decide (c = "["%char) then 5
  else if bool_decide (c = "{"%char) then 6
  else if bool_decide (c = "]"%char ∨ c = "}"%char) then 7
  else 3.

Definition json_kind (v : json) : nat :=
  match v with
  | JNull => 0
  | JBool true => 1
  | JBool false => 2
  | JNumber _ => 3
  | JString _ => 4
  | JArray _ => 5
  | JObject _ => 6
  end.

Lemma number_char_kind c : (c = "-"%char ∨ 48 ≤ byte_val c ≤ 57) → char_kind c = 3%nat.
Proof.
  intros [->|Hc]; [done|]. unfold char_kind.
  repeat (case_bool_decide as E; [try destruct E as [E|E]; subst;
    exfalso; revert Hc; vm_compute; intros [? ?]; congruence|clear E]). done.
Qed.

Lemma canonical_head v : ∃ c t, write_canonical v = String c t ∧ char_kind c = json_kind v.
Proof.
  destruct v as [|[]|n|s|l|m]; try (by eexists _, _).
  - destruct (number_text_head n) as (c & t & E & Hc). exists c, t. split; [done|].
    by apply number_char_kind.
  - destruct (string_text_quote s) as [t E]. by exists quote_char, t.
Qed.

Lemma canonical_not_close v close : (close = "]"%char ∨ close = "}"%char) →
  ∃ c t, write_canonical v = String c t ∧ c ≠ close.
Proof.
  intros Hc. destruct (canonical_head v) as (c & t & E & Hk). exists c, t. split; [done|].
  intros ->. destruct Hc as [-> | ->]; by destruct v as [|[]| | | |].
Qed.

Definition canonical_prefix_free (v : json) : Prop :=
  ∀ v' r r', json_valid v → json_valid v' → delimited r → delimited r' →
  write_canonical v +:+ r = write_canonical v' +:+ r' → json_equiv v v' ∧ r = r'.

Lemma entry_text_inj x y r r' :
  canonical_prefix_free x.2 → json_valid x.2 → json_valid y.2 → delimited r → delimited r' →
  entry_text x +:+ r = entry_text y +:+ r' → (x.1 = y.1 ∧ json_equiv x.2 y.2) ∧ r = r'.
Proof.
  intros IH Hx Hy Hr Hr'. unfold entry_text. rewrite !string_app_assoc. intros Heq.
  apply string_text_prefix in Heq as [-> Heq]. apply (inj (String.app ":")) in Heq.
  apply IH in Heq as [? ->]; auto.
Qed.

Lemma array_prefix_free l : Forall canonical_prefix_free l → canonical_prefix_free (JArray l).
Proof.
  intros IH v' r r' Hv Hv' Hr Hr' Heq.
  assert (∃ l', v' = JArray l') as [l' ->].
  { destruct (canonical_head (JArray l)) as (c & t & E & Hk).
    destruct (canonical_head v') as (c' & t' & E' & Hk').
    rewrite E, E' in Heq. injection Heq as -> _.
    destruct v' as [|[]| | | |]; simpl in Hk, Hk'; try congruence. eauto. }
  inversion Hv as [| | | |? Hl|]; inversion Hv' as [| | | |? Hl'|]; subst.
  simpl in Heq. injection Heq as Heq. rewrite !string_app_assoc in Heq.
  apply (comma_separated_inj json_equiv) in Heq as [HF ->]; [|auto| |].
  - split; [by constructor|done].
  - rewrite Forall_forall in Hl'. apply Forall_forall. intros x Hx y t t' Hy Ht Ht' E.
    rewrite Forall_forall in IH, Hl. eapply (IH x); eauto.
  - apply Forall_forall. intros x _. apply canonical_not_close. auto.
Qed.

Lemma same_kind v v' r r' :
  write_canonical v +:+ r = write_canonical v' +:+ r' → json_kind v = json_kind v'.
Proof.
  destruct (canonical_head v) as (c & t & -> & <-), (canonical_head v') as (c' & t' & -> & <-).
  by intros [= -> _].
Qed.

Lemma entries_Forall (P : json → Prop) m :
  NoDup (map fst m) → Forall (λ kv, P kv.2) m → ∀ x, x ∈ entries m → P x.2.
Proof.
  intros Hnd HP x Hx. rewrite entries_perm in Hx by done.
  rewrite Forall_forall in HP. by apply HP.
Qed.

Lemma object_prefix_free m :
  Forall (λ kv, canonical_prefix_free kv.2) m → canonical_prefix_free (JObject m).
Proof.
  intros IH v' r r' Hv Hv' Hr Hr' Heq.
  assert (∃ m', v' = JObject m') as [m' ->].
  { apply same_kind in Heq. destruct v' as [|[]| | | |]; try done. eauto. }
  inversion Hv as [| | | | |? Hnd Hm]; inversion Hv' as [| | | | |? Hnd' Hm']; subst.
  rewrite !write_canonical_object, !entries_text in Heq. simpl in Heq. injection Heq as Heq.
  rewrite !string_app_assoc in Heq.
  apply (comma_separated_inj (λ a b, a.1 = b.1 ∧ json_equiv a.2 b.2)) in Heq as [HF ->];
    [|auto| |].
  - split; [|done]. destruct (Permutation_Forall2 (entries_perm m Hnd) HF) as (m'' & Hp & HF').
    apply je_object with m''; [by rewrite <- Hp; apply entries_perm|done].
  - apply Forall_forall. intros x Hx y t t' Hy Ht Ht'.
    apply entry_text_inj; [by eapply entries_Forall in IH|by eapply entries_Forall in Hm|
      by eapply entries_Forall in Hm'|done..].
  - apply Forall_forall. intros x _. unfold entry_text.
    destruct (string_text_quote x.1) as [t ->]. eexists _, _. split; [done|].
    discriminate.
Qed.

Lemma prefix_free v : canonical_prefix_free v.
Proof.
  induction v as [| | | |l IH|m IH] using json_ind_strong.
  5: by apply array_prefix_free. 5: by apply object_prefix_free.
  - intros v' r r' _ _ _ _ Heq. pose proof (same_kind _ _ _ _ Heq).
    destruct v' as [|[]| | | |]; try done. split; [constructor|]. by apply (inj _) in Heq.
  - intros v' r r' _ _ _ _ Heq. pose proof (same_kind _ _ _ _ Heq) as Hk.
    destruct v' as [|b'| | | |]; try by destruct b.
    assert (b' = b) as -> by by destruct b, b'.
    split; [constructor|]. by apply (inj _) in Heq.
  - intros v' r r' Hv Hv' Hr Hr' Heq. pose proof (same_kind _ _ _ _ Heq) as Hk.
    destruct v' as [|[]|n'| | |]; try done.
    inversion Hv; inversion Hv'; subst.
    apply number_text_prefix in Heq as [-> ->]; [|done..]. by repeat constructor.
  - intros v' r r' _ _ _ _ Heq. pose proof (same_kind _ _ _ _ Heq) as Hk.
    destruct v' as [|[]| |s'| |]; try done.
    apply string_text_prefix in Heq as [-> ->]. by repeat constructor.
Qed.

(** Canonical rendering is exactly content: two values with numbers in
    range and no repeated key render to the same text if and only if they are
    equal up to the order of object keys, at every depth. *)
Theorem canonical_json_exact v v' :
  json_valid v → json_valid v' →
  canonical_json v = canonical_json v' ↔ json_equiv v v'.
Proof.
  intros Hv Hv'. split; [|by apply canonical_equiv].
  intros Heq. destruct (prefix_free v v' "" "") as [? _]; try done.
  unfold canonical_json in Heq. by rewrite Heq.
Qed.
End canonical.
