(* ===== verification/Clock.v ===== *)
(** * Hybrid logical clock (crates/heiwa_mesh/src/clock.rs)

    The stamp a mesh event carries.  [wall_ms] is a [u64] of milliseconds and
    [counter] a [u32]; both are kept at their width, with the carry of
    [HybridLogicalClock::step] written out. *)

From S2P Require Import Prelude.
From stdpp Require Import base list numbers.
#[local] Open Scope Z_scope.

Record HybridLogicalClock : Type := mkHLC {
  wall_ms : Z;
  counter : Z;
}.

#[export] Instance hlc_eq_dec : EqDecision HybridLogicalClock.
Proof. solve_decision. Defined.

(** What the field types of the struct admit. *)
Definition hlc_typed (c : HybridLogicalClock) : Prop :=
  is_u64 (wall_ms c) ∧ is_u32 (counter c).

(** The derived [Ord]: lexicographic in field order. *)
Definition hlc_lt (a b : HybridLogicalClock) : Prop :=
  wall_ms a < wall_ms b ∨ (wall_ms a = wall_ms b ∧ counter a < counter b).

(** No later stamp is representable. *)
Definition hlc_saturated (c : HybridLogicalClock) : Prop :=
  wall_ms c = u64_max ∧ counter c = u32_max.

(** [HybridLogicalClock::step]. *)
Definition step (wall counter : Z) : HybridLogicalClock :=
  match checked_add u32_max counter 1 with
  | Some counter' => mkHLC wall counter'
  | None =>
      match checked_add u64_max wall 1 with
      | Some wall' => mkHLC wall' 0
      | None => mkHLC wall counter
      end
  end.

(** [HybridLogicalClock::tick]. *)
Definition tick (self : HybridLogicalClock) (now_ms : Z) : HybridLogicalClock :=
  if bool_decide (wall_ms self < now_ms) then mkHLC now_ms 0
  else step (wall_ms self) (counter self).

(** [HybridLogicalClock::observe]. *)
Definition observe (self remote : HybridLogicalClock) (now_ms : Z)
    : HybridLogicalClock :=
  let highest := Z.max (wall_ms self) (wall_ms remote) in
  if bool_decide (highest < now_ms) then mkHLC now_ms 0
  else
    let c :=
      if bool_decide (wall_ms self = wall_ms remote)
      then Z.max (counter self) (counter remote)
      else if bool_decide (wall_ms remote < wall_ms self)
      then counter self
      else counter remote in
    step highest c.

(** ** A run of the mesh

    Events in a global order in which every cause precedes its effect.  An
    event is stamped by the node it happens on: a local event with [tick], the
    receipt of the event at an earlier position with [observe] of that event's
    stamp. *)
Inductive mesh_event : Type :=
| Local (node : nat) (now_ms : Z)
| Receive (node : nat) (cause : nat) (now_ms : Z).

Definition event_node (e : mesh_event) : nat :=
  match e with Local n _ => n | Receive n _ _ => n end.

(** The clock of each node: the last stamp it issued, the default stamp before
    its first event. *)
Definition clocks := nat → HybridLogicalClock.

Definition clock_update (cs : clocks) (n : nat) (c : HybridLogicalClock) : clocks :=
  λ m, if bool_decide (m = n) then c else cs m.

Definition stamp_event (cs : clocks) (stamps : list HybridLogicalClock)
    (e : mesh_event) : HybridLogicalClock :=
  match e with
  | Local n now => tick (cs n) now
  | Receive n cause now => observe (cs n) (default (mkHLC 0 0) (stamps !! cause)) now
  end.

Fixpoint run_mesh (cs : clocks) (stamps : list HybridLogicalClock)
    (es : list mesh_event) : list HybridLogicalClock :=
  match es with
  | [] => stamps
  | e :: es' =>
      let c := stamp_event cs stamps e in
      run_mesh (clock_update cs (event_node e) c) (stamps ++ [c]) es'
  end.

Definition mesh_stamps (es : list mesh_event) : list HybridLogicalClock :=
  run_mesh (λ _, mkHLC 0 0) [] es.

(** A receipt names an earlier event, and every wall-clock reading is a [u64]. *)
Definition mesh_wf (es : list mesh_event) : Prop :=
  ∀ i e, es !! i = Some e →
    match e with
    | Local _ now => is_u64 now
    | Receive _ cause now => (cause < i)%nat ∧ is_u64 now
    end.

(** Lamport's happens-before on positions of a run. *)
Inductive happens_before (es : list mesh_event) : nat → nat → Prop :=
| hb_node i j ei ej :
    es !! i = Some ei → es !! j = Some ej →
    event_node ei = event_node ej → (i < j)%nat → happens_before es i j
| hb_message i j n now :
    es !! j = Some (Receive n i now) → (i < j)%nat → happens_before es i j
| hb_trans i j k :
    happens_before es i j → happens_before es j k → happens_before es i k.

(** ** Lemmas *)

Lemma hlc_lt_trans a b c : hlc_lt a b → hlc_lt b c → hlc_lt a c.
Proof. unfold hlc_lt. lia. Qed.

Lemma hlc_lt_irrefl a : ¬ hlc_lt a a.
Proof. unfold hlc_lt. lia. Qed.

Lemma step_typed w c : is_u64 w → is_u32 c → hlc_typed (step w c).
Proof.
  unfold step, checked_add, hlc_typed. intros. widths.
  break; simpl; lia.
Qed.

(** A step is strictly later unless it started from the last representable
    stamp, and then it stands still. *)
Lemma step_later w c :
  is_u64 w → is_u32 c →
  (hlc_saturated (mkHLC w c) ∧ step w c = mkHLC w c) ∨
  (¬ hlc_saturated (mkHLC w c) ∧ hlc_lt (mkHLC w c) (step w c)).
Proof.
  unfold step, checked_add, hlc_saturated, hlc_lt. intros. widths.
  break; simpl; first [right; lia | left; split; [lia | done]].
Qed.

(** A step runs at most one millisecond ahead of the wall clock it carries. *)
Lemma step_skew w c : wall_ms (step w c) ≤ w + 1.
Proof. unfold step, checked_add. break; simpl; lia. Qed.

Lemma tick_typed c now : hlc_typed c → is_u64 now → hlc_typed (tick c now).
Proof.
  unfold tick. intros [Hw Hc] Hn. case_bool_decide.
  - unfold hlc_typed; simpl. widths. lia.
  - by apply step_typed.
Qed.

Lemma observe_typed c r now :
  hlc_typed c → hlc_typed r → is_u64 now → hlc_typed (observe c r now).
Proof.
  unfold observe. intros [Hw Hc] [Hw' Hc'] Hn. case_bool_decide.
  - unfold hlc_typed; simpl. widths. lia.
  - apply step_typed; widths; [lia|]. break; lia.
Qed.

(** The stamp [observe] steps from: the later of the two clocks. *)
Definition later_of (a b : HybridLogicalClock) : HybridLogicalClock :=
  mkHLC (Z.max (wall_ms a) (wall_ms b))
    (if bool_decide (wall_ms a = wall_ms b) then Z.max (counter a) (counter b)
     else if bool_decide (wall_ms b < wall_ms a) then counter a else counter b).

Lemma later_of_ge a b c :
  hlc_lt (later_of a b) c → hlc_lt a c ∧ hlc_lt b c.
Proof. unfold later_of, hlc_lt; simpl. break; lia. Qed.

Lemma later_of_typed a b : hlc_typed a → hlc_typed b → hlc_typed (later_of a b).
Proof. unfold later_of, hlc_typed; simpl. widths. break; lia. Qed.

Lemma observe_unfold c r now :
  observe c r now =
    if bool_decide (wall_ms (later_of c r) < now) then mkHLC now 0
    else step (wall_ms (later_of c r)) (counter (later_of c r)).
Proof. done. Qed.

(** A fresh stamp that is below the top of the range is strictly later than
    what it was stepped from. *)
Lemma advance_later c now :
  hlc_typed c →
  ¬ hlc_saturated (if bool_decide (wall_ms c < now) then mkHLC now 0
                   else step (wall_ms c) (counter c)) →
  hlc_lt c (if bool_decide (wall_ms c < now) then mkHLC now 0
            else step (wall_ms c) (counter c)).
Proof.
  intros [Hw Hc] Hs. case_bool_decide.
  - left. done.
  - destruct (step_later (wall_ms c) (counter c) Hw Hc) as [[? Heq]|[_ ?]].
    + rewrite Heq in Hs. done.
    + by destruct c.
Qed.

Lemma tick_later c now :
  hlc_typed c → ¬ hlc_saturated (tick c now) → hlc_lt c (tick c now).
Proof. apply advance_later. Qed.

Lemma observe_later c r now :
  hlc_typed c → hlc_typed r → ¬ hlc_saturated (observe c r now) →
  hlc_lt c (observe c r now) ∧ hlc_lt r (observe c r now).
Proof.
  rewrite observe_unfold. intros Hc Hr Hs.
  apply later_of_ge, advance_later; [by apply later_of_typed | done].
Qed.

(** *** Runs of the mesh *)

Definition clocks_typed (cs : clocks) : Prop := ∀ n, hlc_typed (cs n).

Lemma hlc_zero_typed : hlc_typed (mkHLC 0 0).
Proof. unfold hlc_typed; simpl. widths. lia. Qed.

#[export] Hint Resolve hlc_zero_typed tick_typed observe_typed : heiwa.

Lemma stamp_event_typed cs stamps e :
  clocks_typed cs → Forall hlc_typed stamps →
  match e with Local _ now => is_u64 now | Receive _ _ now => is_u64 now end →
  hlc_typed (stamp_event cs stamps e).
Proof.
  intros Hcs Hst Hn. destruct e; simpl; [auto with heiwa|].
  apply observe_typed; [done| |done].
  destruct (stamps !! cause) eqn:E; simpl; [|auto with heiwa].
  by eapply Forall_lookup_1.
Qed.

Lemma clock_update_typed cs n c :
  clocks_typed cs → hlc_typed c → clocks_typed (clock_update cs n c).
Proof. intros Hcs Hc m. unfold clock_update. by case_bool_decide. Qed.

(** The stamps already issued are a prefix of every later list of stamps. *)
Lemma run_mesh_prefix es : ∀ cs stamps, stamps `prefix_of` run_mesh cs stamps es.
Proof.
  induction es as [|e es IH]; intros cs stamps; simpl; [done|].
  etrans; [|apply IH]. by apply prefix_app_r.
Qed.

Lemma run_mesh_length es : ∀ cs stamps,
  length (run_mesh cs stamps es) = (length stamps + length es)%nat.
Proof.
  induction es as [|e es IH]; intros cs stamps; simpl; [lia|].
  rewrite IH, length_app. simpl. lia.
Qed.

(** The invariant of a run: [done] are the events stamped so far, and each
    node's clock is the stamp of its latest event, later than its others. *)
Record run_inv (done : list mesh_event) (cs : clocks)
    (stamps : list HybridLogicalClock) : Prop := mkRunInv {
  ri_length : length stamps = length done;
  ri_clocks : clocks_typed cs;
  ri_stamps : Forall hlc_typed stamps;
  ri_latest : ∀ i e s, done !! i = Some e → stamps !! i = Some s →
    s = cs (event_node e) ∨ hlc_lt s (cs (event_node e)) ∨ hlc_saturated (cs (event_node e));
}.

(** What a run guarantees of two positions: the later stamp is strictly later,
    or the range of the clock is exhausted. *)
Definition ordered (stamps : list HybridLogicalClock) (i j : nat) : Prop :=
  ∀ a b, stamps !! i = Some a → stamps !! j = Some b →
    ¬ hlc_saturated b → hlc_lt a b.

(** One edge of happens-before. *)
Definition hb_edge (es : list mesh_event) (i j : nat) : Prop :=
  (i < j)%nat ∧
  ((∃ ei ej, es !! i = Some ei ∧ es !! j = Some ej ∧ event_node ei = event_node ej) ∨
   (∃ n now, es !! j = Some (Receive n i now))).

Lemma hlc_lt_not_saturated a b : hlc_typed b → hlc_lt a b → ¬ hlc_saturated a.
Proof. unfold hlc_typed, hlc_lt, hlc_saturated. widths. lia. Qed.

(** Stamping an event moves its node's clock strictly forward. *)
Lemma stamp_event_later cs stamps e :
  clocks_typed cs → Forall hlc_typed stamps →
  ¬ hlc_saturated (stamp_event cs stamps e) →
  hlc_lt (cs (event_node e)) (stamp_event cs stamps e).
Proof.
  intros Hcs Hst Hs. destruct e; simpl in *; [by apply tick_later|].
  apply observe_later; [done| |done].
  destruct (stamps !! cause) eqn:E; simpl; [|auto with heiwa].
  by eapply Forall_lookup_1.
Qed.

Lemma stamp_event_after_cause cs stamps n cause now r :
  clocks_typed cs → hlc_typed r → stamps !! cause = Some r →
  ¬ hlc_saturated (stamp_event cs stamps (Receive n cause now)) →
  hlc_lt r (stamp_event cs stamps (Receive n cause now)).
Proof. intros Hcs Hr E. simpl. rewrite E. simpl. intros. by apply observe_later. Qed.

(** Every earlier stamp of the node is below its next stamp. *)
Lemma latest_below done cs stamps e i ei s :
  run_inv done cs stamps → done !! i = Some ei → stamps !! i = Some s →
  event_node ei = event_node e → hlc_typed (stamp_event cs stamps e) →
  ¬ hlc_saturated (stamp_event cs stamps e) →
  hlc_lt s (stamp_event cs stamps e).
Proof.
  intros [_ Hcs Hst Hl] He Hs Hn Hty Hns.
  pose proof (stamp_event_later cs stamps e Hcs Hst Hns) as Hlt.
  specialize (Hl _ _ _ He Hs). rewrite Hn in Hl.
  destruct Hl as [->|[Hl|Hsat]]; [done|by eapply hlc_lt_trans|].
  by apply hlc_lt_not_saturated in Hlt.
Qed.

Lemma run_inv_step done cs stamps e :
  run_inv done cs stamps → hlc_typed (stamp_event cs stamps e) →
  run_inv (done ++ [e]) (clock_update cs (event_node e) (stamp_event cs stamps e))
    (stamps ++ [stamp_event cs stamps e]).
Proof.
  intros Hinv Hty. pose proof Hinv as [Hlen Hcs Hst Hl]. split.
  - rewrite !length_app. simpl. lia.
  - by apply clock_update_typed.
  - apply Forall_app. auto.
  - intros i ei s He Hs. unfold clock_update. case_bool_decide as Hn.
    + destruct (decide (hlc_saturated (stamp_event cs stamps e))) as [|Hns] eqn:Hd;
        [by right; right|].
      clear Hd. apply lookup_snoc_Some in He as [[Hi He]|[-> <-]].
      * right; left. rewrite lookup_app_l in Hs by lia. by eapply latest_below.
      * left. rewrite <- Hlen, list_lookup_middle in Hs by done. by simplify_eq.
    + apply lookup_snoc_Some in He as [[Hi He]|[-> <-]]; [|done].
      rewrite lookup_app_l in Hs by lia. by eapply Hl.
Qed.

(** An edge into the event just stamped is ordered. *)
Lemma new_edge_ordered done cs stamps e es i :
  run_inv done cs stamps → hlc_typed (stamp_event cs stamps e) →
  hb_edge (done ++ e :: es) i (length done) →
  ordered (stamps ++ [stamp_event cs stamps e]) i (length done).
Proof.
  intros Hinv Hty [Hi Hedge] a b Ha Hb Hns.
  pose proof Hinv as [Hlen Hcs Hst _].
  rewrite <- Hlen, list_lookup_middle in Hb by done. simplify_eq.
  rewrite lookup_app_l in Ha by lia.
  destruct Hedge as [(ei & ej & He & He' & Hn)|(n & now & He)].
  - rewrite lookup_app_l in He by lia.
    rewrite list_lookup_middle in He' by done. simplify_eq.
    by eapply latest_below.
  - rewrite list_lookup_middle in He by done. simplify_eq.
    apply stamp_event_after_cause; try done. by eapply Forall_lookup_1.
Qed.

Lemma ordered_app_l stamps c i j :
  (i < j < length stamps)%nat → ordered stamps i j → ordered (stamps ++ [c]) i j.
Proof. intros Hij Ho a b. rewrite !lookup_app_l by lia. apply Ho. Qed.

Lemma run_mesh_ordered es : ∀ done cs stamps,
  run_inv done cs stamps →
  (∀ i j, (j < length done)%nat → hb_edge (done ++ es) i j → ordered stamps i j) →
  mesh_wf (done ++ es) →
  Forall hlc_typed (run_mesh cs stamps es) ∧
  ∀ i j, hb_edge (done ++ es) i j → ordered (run_mesh cs stamps es) i j.
Proof.
  induction es as [|e es IH]; intros done cs stamps Hinv Hord Hwf; simpl.
  { split; [by destruct Hinv|]. intros i j Hij. apply Hord; [|done].
    rewrite app_nil_r in Hij. destruct Hij as [_ [(?&?&_&Hj&_)|(?&?&Hj)]];
      by eapply lookup_lt_Some. }
  assert (hlc_typed (stamp_event cs stamps e)) as Hty.
  { apply stamp_event_typed; [by destruct Hinv..|].
    specialize (Hwf (length done) e). rewrite list_lookup_middle in Hwf by done.
    specialize (Hwf eq_refl). destruct e; [done|by destruct Hwf]. }
  pose proof Hinv as [Hlen _ _ _].
  pose proof (app_assoc done [e] es) as Happ. simpl in Happ. rewrite Happ in Hwf |- *.
  apply IH; [by apply run_inv_step| |done].
  intros i j Hj Hij. rewrite <- Happ in Hij.
  rewrite length_app in Hj. simpl in Hj.
  destruct (decide (j = length done)) as [->|].
  - by eapply new_edge_ordered.
  - apply ordered_app_l; [|apply Hord; [lia|done]]. destruct Hij. lia.
Qed.

Lemma mesh_stamps_ordered es :
  mesh_wf es →
  Forall hlc_typed (mesh_stamps es) ∧
  ∀ i j, hb_edge es i j → ordered (mesh_stamps es) i j.
Proof.
  intros Hwf. apply (run_mesh_ordered es []); [|simpl; lia|done].
  split; [done|intros ?; apply hlc_zero_typed|constructor|done].
Qed.

Lemma happens_before_lt es i j : happens_before es i j → (i < j)%nat ∧ is_Some (es !! j).
Proof. induction 1; [eauto..|]. intuition lia. Qed.

Lemma mesh_stamps_length es : length (mesh_stamps es) = length es.
Proof. unfold mesh_stamps. by rewrite run_mesh_length. Qed.

Lemma mesh_stamps_lookup es i : is_Some (es !! i) → is_Some (mesh_stamps es !! i).
Proof. rewrite !lookup_lt_is_Some, mesh_stamps_length. done. Qed.

(**  Causality: in every well-formed run of the mesh, an event that happens
    before another one (on the same node, by a message, or through a chain of
    both) carries a strictly smaller stamp, whatever the wall clocks of the
    nodes say, unless the 96-bit range of the clock is used up. *)
Theorem hlc_respects_causality (es : list mesh_event) (i j : nat)
    (a b : HybridLogicalClock) :
  mesh_wf es → happens_before es i j →
  mesh_stamps es !! i = Some a → mesh_stamps es !! j = Some b →
  ¬ hlc_saturated b → hlc_lt a b.
Proof.
  intros Hwf Hhb. destruct (mesh_stamps_ordered es Hwf) as [Hty Hord].
  revert a b. induction Hhb as [i j ei ej Hi Hj Hn Hlt|i j n now Hj Hlt|i j k H1 IH1 H2 IH2];
    intros a b Ha Hb Hns.
  - eapply Hord; [|done..]. split; eauto 8.
  - eapply Hord; [|done..]. split; eauto 8.
  - destruct (mesh_stamps_lookup es j) as [m Hm].
    { by apply happens_before_lt in H1 as [_ ?]. }
    assert (hlc_lt m b) by by eapply IH2.
    eapply hlc_lt_trans; [|done]. apply IH1; [done..|].
    eapply hlc_lt_not_saturated; [|done]. by eapply Forall_lookup_1.
Qed.

(** C19.  Monotonicity at the machine widths: a stamp taken by [tick] or
    [observe] stays a ([u64], [u32]) pair, never runs more than one millisecond
    ahead of the largest wall clock seen, and is strictly later than the clock
    it advances (and, for [observe], than the peer's stamp) unless that clock
    already held the last representable stamp. *)
Theorem hlc_monotone (c r : HybridLogicalClock) (now : Z) :
  hlc_typed c → hlc_typed r → is_u64 now →
  (hlc_typed (tick c now) ∧
   wall_ms (tick c now) ≤ Z.max (wall_ms c) now + 1 ∧
   (¬ hlc_saturated c → hlc_lt c (tick c now)) ∧
   (hlc_saturated c → tick c now = c)) ∧
  (hlc_typed (observe c r now) ∧
   wall_ms (observe c r now) ≤ Z.max (Z.max (wall_ms c) (wall_ms r)) now + 1 ∧
   (¬ hlc_saturated c → ¬ hlc_saturated r →
    hlc_lt c (observe c r now) ∧ hlc_lt r (observe c r now)) ∧
   (hlc_saturated c → observe c r now = c)).
Proof.
  intros Hc Hr Hn. pose proof (step_skew (wall_ms c) (counter c)) as Hsk.
  pose proof (step_skew (wall_ms (later_of c r)) (counter (later_of c r))) as Hsk'.
  split; (split_and!; [auto with heiwa|..]).
  - unfold tick. case_bool_decide; simpl; lia.
  - intros Hs. destruct (decide (hlc_saturated (tick c now))) as [[Hw Hk]|];
      [|by apply tick_later].
    unfold hlc_saturated, hlc_typed, hlc_lt in *. widths. lia.
  - intros [Ew Ec]. destruct c as [w k]; simpl in *; subst.
    unfold tick, step, checked_add; simpl. widths. repeat case_bool_decide; (lia || done).
  - rewrite observe_unfold. case_bool_decide; simpl in *; lia.
  - intros Hs Hs'. destruct (decide (hlc_saturated (observe c r now))) as [[Hw Hk]|];
      [|by apply observe_later].
    unfold hlc_saturated, hlc_typed, hlc_lt in *. widths. lia.
  - intros [Ew Ec]. destruct Hr as [Hrw Hrk].
    assert (later_of c r = c) as Hl.
    { destruct c as [w k]; simpl in *; subst. unfold later_of; simpl. widths.
      f_equal; [lia|]. repeat case_bool_decide; lia. }
    rewrite observe_unfold, Hl. destruct c as [w k]; simpl in *; subst.
    unfold step, checked_add. widths. repeat case_bool_decide; (lia || done).
Qed.

(** ** Witnesses *)

(** Node 0 sends, node 1 (whose wall clock lags by 400 ms) receives and then
    acts. *)
Definition skewed_run : list mesh_event :=
  [Local 0 500; Receive 1 0 100; Local 1 101].

Lemma skewed_run_wf : mesh_wf skewed_run.
Proof.
  intros [|[|[|i]]] e H; simpl in H; simplify_eq; widths; simpl; lia.
Qed.

Lemma hlc_respects_causality_witness :
  hlc_lt (mkHLC 500 0) (mkHLC 500 2).
Proof.
  apply (hlc_respects_causality skewed_run 0 2).
  - apply skewed_run_wf.
  - eapply hb_trans; [eapply (hb_message _ 0 1 1 100); [done|lia]|].
    eapply (hb_node _ 1 2); [done..|lia].
  - vm_compute. reflexivity.
  - vm_compute. reflexivity.
  - intros [H _]. vm_compute in H. discriminate H.
Defined.

Lemma hlc_monotone_witness :
  hlc_lt (mkHLC 100 u32_max) (tick (mkHLC 100 u32_max) 100).
Proof.
  destruct (hlc_monotone (mkHLC 100 u32_max) (mkHLC 0 0) 100) as [(_ & _ & H & _) _].
  - unfold hlc_typed; simpl. widths. lia.
  - apply hlc_zero_typed.
  - widths. lia.
  - apply H. intros [H' _]. vm_compute in H'. discriminate H'.
Defined.
