(* ===== verification/Hex.v ===== *)
(** * Hex rendering (crates/heiwa_mesh/src/lib.rs)

    [to_hex] and [from_hex], with [u8::from_str_radix] and [str] slicing as the
    standard library defines them: slicing off a character boundary panics,
    and a leading [+] is part of the number syntax. *)

From S2P Require Import Prelude.
From stdpp Require Import base list strings numbers.
From Stdlib Require Import Ascii.
#[local] Open Scope Z_scope.

(** [MeshError].  [Malformed] keeps the subject of the message. *)
Inductive MeshError : Type :=
| UnknownVersion (v : Z)
| NotEstablished
| Malformed (what : string)
| KeyStoreFailed (backend : string)
| MissingSigningKey (node_id : string)
| BadSignature (origin_node : string)
| WrongOrigin (claimed expected : string)
| Io.

(** One digit of [format!("{byte:02x}")]. *)
Definition hex_digit (z : Z) : ascii :=
  if bool_decide (z < 10) then byte_of (48 + z) else byte_of (87 + z).

Fixpoint to_hex (bs : bytes) : string :=
  match bs with
  | [] => ""
  | b :: bs' =>
      String (hex_digit (byte_val b / 16))
        (String (hex_digit (byte_val b mod 16)) (to_hex bs'))
  end.

(** [char::to_digit(16)] on one byte. *)
Definition to_digit16 (a : ascii) : option Z :=
  let v := byte_val a in
  if bool_decide (48 ≤ v ∧ v ≤ 57) then Some (v - 48)
  else if bool_decide (97 ≤ v ∧ v ≤ 102) then Some (v - 87)
  else if bool_decide (65 ≤ v ∧ v ≤ 70) then Some (v - 55)
  else None.

(** The digit loop of [u8::from_str_radix(_, 16)]. *)
Fixpoint radix16_digits (acc : Z) (s : bytes) : option Z :=
  match s with
  | [] => Some acc
  | a :: s' =>
      d ← to_digit16 a;
      let acc' := acc * 16 + d in
      if bool_decide (acc' ≤ 255) then radix16_digits acc' s' else None
  end.

Definition plus_sign : ascii := byte_of 43.
Definition minus_sign : ascii := byte_of 45.

(** [u8::from_str_radix(_, 16)]: no digits and a lone sign are errors, a
    leading [+] is skipped, a leading [-] is not a digit of an unsigned type. *)
Definition u8_from_str_radix16 (s : bytes) : option Z :=
  match s with
  | [] => None
  | [a] => if bool_decide (a = plus_sign ∨ a = minus_sign) then None
           else radix16_digits 0 [a]
  | a :: s' => if bool_decide (a = plus_sign) then radix16_digits 0 s'
               else radix16_digits 0 s
  end.

(** The loop of [from_hex]: bytes [index .. index + n] of the array. *)
Fixpoint from_hex_loop (hex : bytes) (what : string) (index n : nat)
    : outcome (result MeshError bytes) :=
  match n with
  | O => Return (Ok [])
  | S n' =>
      pair ← str_slice hex (index * 2) (index * 2 + 2);
      match u8_from_str_radix16 pair with
      | None => Return (Err (Malformed what))
      | Some v =>
          rest ← from_hex_loop hex what (S index) n';
          Return (match rest with
                  | Ok bs => Ok (byte_of v :: bs)
                  | Err e => Err e
                  end)
      end
  end.

Definition from_hex (n : nat) (hex : string) (what : string)
    : outcome (result MeshError bytes) :=
  if bool_decide (String.length hex ≠ n * 2)%nat
  then Return (Err (Malformed what))
  else from_hex_loop (as_bytes hex) what 0 n.

(** ** Lemmas *)

Lemma to_hex_length bs : String.length (to_hex bs) = (length bs * 2)%nat.
Proof. induction bs; simpl; lia. Qed.

Definition all_bytes : list ascii := byte_of <$> seqZ 0 256.

Lemma elem_of_all_bytes a : a ∈ all_bytes.
Proof.
  unfold all_bytes. apply list_elem_of_fmap. exists (byte_val a).
  rewrite byte_of_val. split; [done|]. apply elem_of_seqZ.
  pose proof (byte_val_range a). lia.
Qed.

(** A decidable statement about every byte is checked on the 256 of them. *)
Lemma all_bytes_forall (P : ascii → Prop) `{∀ a, Decision (P a)} :
  bool_decide (Forall P all_bytes) = true → ∀ a, P a.
Proof.
  intros H'%bool_decide_eq_true a. rewrite Forall_forall in H'.
  apply H', list_elem_of_In, elem_of_all_bytes.
Qed.

(** The two digits of a byte are ASCII, are read back to it, and are no sign. *)
Definition digits_ok (a : ascii) : Prop :=
  let h := hex_digit (byte_val a / 16) in
  let l := hex_digit (byte_val a mod 16) in
  is_continuation h = false ∧ is_continuation l = false ∧
  u8_from_str_radix16 [h; l] = Some (byte_val a).

#[local] Instance digits_ok_dec a : Decision (digits_ok a).
Proof. unfold digits_ok. simpl. solve_decision. Defined.

Lemma hex_digits_ok a : digits_ok a.
Proof. revert a. apply (all_bytes_forall digits_ok). vm_compute. reflexivity. Qed.

Lemma is_char_boundary_in s i a :
  s !! i = Some a → is_continuation a = false → is_char_boundary s i = true.
Proof. intros H1 H2. unfold is_char_boundary. rewrite H1, H2. simpl. by rewrite orb_true_r. Qed.

Lemma is_char_boundary_end s : is_char_boundary s (length s) = true.
Proof. unfold is_char_boundary. rewrite (bool_decide_eq_true_2 (length s = length s)) by done.
  by rewrite orb_true_r. Qed.

(** Rendered hex starts on a character boundary wherever a suffix begins. *)
Lemma hex_boundary pre bs :
  is_char_boundary (pre ++ as_bytes (to_hex bs)) (length pre) = true.
Proof.
  destruct bs as [|b bs]; simpl.
  - rewrite app_nil_r. apply is_char_boundary_end.
  - eapply is_char_boundary_in; [by apply list_lookup_middle|].
    apply (hex_digits_ok b).
Qed.

Lemma str_slice_middle pre (mid suf : bytes) :
  is_char_boundary (pre ++ mid ++ suf) (length pre) = true →
  is_char_boundary (pre ++ mid ++ suf) (length pre + length mid) = true →
  str_slice (pre ++ mid ++ suf) (length pre) (length pre + length mid) = Return mid.
Proof.
  intros H1 H2. unfold str_slice. rewrite H1, H2, !andb_true_r, !length_app.
  rewrite (proj2 (Nat.leb_le _ _)), (proj2 (Nat.leb_le _ _)) by lia. simpl.
  rewrite drop_app_length. f_equal.
  replace (length pre + length mid - length pre)%nat with (length mid) by lia.
  apply take_app_length.
Qed.

Lemma from_hex_loop_to_hex what bs : ∀ pre index,
  length pre = (index * 2)%nat →
  from_hex_loop (pre ++ as_bytes (to_hex bs)) what index (length bs) = Return (Ok bs).
Proof.
  induction bs as [|b bs IH]; intros pre index Hlen; [done|].
  cbn [from_hex_loop length].
  set (h := hex_digit (byte_val b / 16)). set (l := hex_digit (byte_val b mod 16)).
  change (as_bytes (to_hex (b :: bs))) with ([h; l] ++ as_bytes (to_hex bs)).
  rewrite <- Hlen.
  rewrite (str_slice_middle pre [h; l]).
  - unfold mbind, outcome_bind; cbv beta iota. destruct (hex_digits_ok b) as (_ & _ & Hd). fold h l in Hd.

    rewrite Hd, app_assoc, IH by (rewrite length_app; simpl; lia). simpl. by rewrite byte_of_val.
  - change ([h; l] ++ as_bytes (to_hex bs)) with (as_bytes (to_hex (b :: bs))).
    apply hex_boundary.
  - rewrite app_assoc. replace (length pre + length [h; l])%nat
      with (length (pre ++ [h; l])) by by rewrite length_app.
    apply hex_boundary.
Qed.

Lemma from_hex_to_hex what bs : from_hex (length bs) (to_hex bs) what = Return (Ok bs).
Proof.
  unfold from_hex. rewrite bool_decide_false by (rewrite to_hex_length; lia).
  by apply (from_hex_loop_to_hex what bs []).
Qed.

Lemma to_hex_inj a b : to_hex a = to_hex b → a = b.
Proof.
  revert b. induction a as [|x a IH]; intros [|y b]; simpl; intros H; try done.
  injection H as H1 H2 H3. f_equal; [|by apply IH].
  destruct (hex_digits_ok x) as (_ & _ & Hx), (hex_digits_ok y) as (_ & _ & Hy).
  rewrite H1, H2 in Hx. rewrite Hx in Hy. apply byte_val_inj. by injection Hy.
Qed.

Lemma char_boundary_ascii s i :
  Forall (λ a, is_continuation a = false) s → (i ≤ length s)%nat →
  is_char_boundary s i = true.
Proof.
  intros Hs Hi. destruct (s !! i) as [a|] eqn:E.
  - eapply is_char_boundary_in; [done|]. by eapply (Forall_lookup_1 _ _ _ _ Hs).
  - apply lookup_ge_None in E. replace i with (length s) by lia.
    apply is_char_boundary_end.
Qed.

Lemma from_hex_loop_ascii hex what n : ∀ index,
  Forall (λ a, is_continuation a = false) hex → ((index + n) * 2 ≤ length hex)%nat →
  ∃ r, from_hex_loop hex what index n = Return r.
Proof.
  induction n as [|n IH]; intros index Hs Hn; [by eexists|]. cbn [from_hex_loop].
  unfold str_slice.
  rewrite !char_boundary_ascii, (proj2 (Nat.leb_le _ _)), (proj2 (Nat.leb_le _ _)) by (done || lia).
  unfold mbind, outcome_bind. simpl andb. cbv iota beta.
  destruct (u8_from_str_radix16 _); [|by eexists].
  destruct (IH (S index)) as [r ->]; [done|lia|]. by eexists.
Qed.

(**  Hex round trip: the rendering of an [N]-byte array decodes to the same
    array and to nothing else, and decoding at any other size is refused. *)
Theorem hex_roundtrip (bs : bytes) (n : nat) (what : string) :
  from_hex n (to_hex bs) what =
    Return (if bool_decide (n = length bs) then Ok bs else Err (Malformed what)).
Proof.
  case_bool_decide as Hn.
  - subst. apply from_hex_to_hex.
  - unfold from_hex. rewrite to_hex_length, bool_decide_true by lia. done.
Qed.

(**  [from_hex] returns, with a value or an error, on every text without
    UTF-8 continuation bytes; and it panics on a text of the right byte length
    whose character boundaries are not all even: the byte-offset slice of line
    75 is not a character boundary there. *)
Theorem from_hex_total_on_ascii :
  (∀ n hex what, Forall (λ a, is_continuation a = false) (as_bytes hex) →
     ∃ r, from_hex n hex what = Return r) ∧
  from_hex 2 (String "a" (String (byte_of 195) (String (byte_of 169) "a"))) "signature"
    = Panic.
Proof.
  split; [|vm_compute; reflexivity].
  intros n hex what Hs. unfold from_hex. case_bool_decide as Hn; [by eexists|].
  apply from_hex_loop_ascii; [done|]. rewrite as_bytes_length. lia.
Qed.

(**  [from_hex] is not limited to lowercase hex: an array has several texts
    that decode to it, so a text that decodes is not in general the rendering
    of its value. *)
Theorem from_hex_accepts_more_than_lowercase (what : string) :
  from_hex 2 "0aff" what = Return (Ok [byte_of 10; byte_of 255]) ∧
  from_hex 2 "+aFF" what = Return (Ok [byte_of 10; byte_of 255]) ∧
  to_hex [byte_of 10; byte_of 255] = "0aff".
Proof. vm_compute. auto. Qed.
