(* ===== verification/Envelope.v ===== *)
(** * The replication frame (crates/heiwa_mesh/src/envelope.rs)

    The length-prefixed signing digest, sealing, opening and
    hash-chaining of mesh envelopes.  SHA-256 and Ed25519 are operations of the
    class [Crypto]; the streaming hasher is the byte string fed to it. *)

From S2P Require Import Prelude Json CanonicalJson Hex Clock.
From stdpp Require Import base sets list strings numbers sorting.
From Stdlib Require Import Ascii.
#[local] Open Scope Z_scope.

(** ** Cryptography the crate calls *)

Class Crypto : Type := {
  sha256 : bytes → bytes;
  (** [SigningKey::verifying_key], on 32-byte keys. *)
  ed_public : bytes → bytes;
  (** [SigningKey::sign], a 64-byte signature. *)
  ed_sign : bytes → bytes → bytes;
  (** [VerifyingKey::verify]. *)
  ed_verify : bytes → bytes → bytes → bool;
  (** [VerifyingKey::from_bytes] accepts the bytes. *)
  ed_valid_public : bytes → bool;
}.

(** Documented behaviour: SHA-256 digests are 32 bytes, Ed25519 public keys are
    32 bytes and decode, signatures are 64 bytes and verify. *)
Class CryptoLaws `{Crypto} : Prop := {
  sha256_length : ∀ m, length (sha256 m) = 32%nat;
  ed_public_length : ∀ sk, length (ed_public sk) = 32%nat;
  ed_public_valid : ∀ sk, ed_valid_public (ed_public sk) = true;
  ed_sign_length : ∀ sk m, length (ed_sign sk m) = 64%nat;
  ed_verify_sign : ∀ sk m, ed_verify (ed_public sk) m (ed_sign sk m) = true;
}.

(** These two messages, which differ, have one digest. *)
Definition digests_collide `{Crypto} (m m' : bytes) : Prop := m ≠ m' ∧ sha256 m = sha256 m'.

(** ** Node names (crates/heiwa_mesh/src/node.rs) *)

(** [NodeId] is the transparent string of a fingerprint. *)
Definition NodeId : Type := string.

Definition fingerprint `{Crypto} (public_key_bytes : bytes) : string :=
  "sha256:" +:+ to_hex (sha256 public_key_bytes).

(** [NodeId::from_public_key]. *)
Definition from_public_key `{Crypto} (public_key : bytes) : NodeId :=
  fingerprint public_key.

(** ** Data *)

Definition ENVELOPE_SCHEMA_VERSION : Z := 1.

Inductive PrivacyClass : Type := Standard | LocalOnly | Sovereign.

#[export] Instance privacy_eq_dec : EqDecision PrivacyClass.
Proof. solve_decision. Defined.

Definition privacy_as_str (p : PrivacyClass) : string :=
  match p with
  | Standard => "standard"
  | LocalOnly => "local_only"
  | Sovereign => "sovereign"
  end.

Definition may_replicate_to_peer (p : PrivacyClass) : bool :=
  match p with LocalOnly => false | _ => true end.

Definition may_leave_user_devices (p : PrivacyClass) : bool :=
  match p with Standard => true | _ => false end.

Record MeshEnvelope : Type := mkEnvelope {
  me_schema_version : Z;
  me_event_id : string;
  me_origin_node : NodeId;
  me_origin_seq : Z;
  me_hlc : HybridLogicalClock;
  me_causal_parents : list string;
  me_work_id : option string;
  me_task_id : option string;
  me_event_type : string;
  me_payload : json;
  me_privacy_class : PrivacyClass;
  me_previous_hash : option string;
  me_signature : string;
}.

Record EnvelopeDraft : Type := mkDraft {
  ed_event_id : string;
  ed_origin_seq : Z;
  ed_hlc : HybridLogicalClock;
  ed_causal_parents : list string;
  ed_work_id : option string;
  ed_task_id : option string;
  ed_event_type : string;
  ed_payload : json;
  ed_privacy_class : PrivacyClass;
  ed_previous_hash : option string;
}.

(** ** The signing digest *)

(** [feed]: the hasher is the bytes it has been given. *)
Definition feed (hasher : bytes) (label : string) (bs : bytes) : bytes :=
  hasher ++ le_bytes 8 (str_len label) ++ as_bytes label ++
    le_bytes 8 (Z.of_nat (length bs)) ++ bs.

(** The buffer [feed_optional] hashes: an absent field and an empty one differ. *)
Definition optional_buffer (value : option string) : bytes :=
  match value with
  | None => [byte_of 0]
  | Some value => byte_of 1 :: as_bytes value
  end.

Definition feed_optional (hasher : bytes) (label : string) (value : option string) : bytes :=
  feed hasher label (optional_buffer value).

(** Everything [signing_digest] has hashed when it finalizes. *)
Definition signing_preimage `{JsonText} (self : MeshEnvelope) : bytes :=
  let h := feed [] "schema_version" (le_bytes 4 (me_schema_version self)) in
  let h := feed h "event_id" (as_bytes (me_event_id self)) in
  let h := feed h "origin_node" (as_bytes (me_origin_node self)) in
  let h := feed h "origin_seq" (le_bytes 8 (me_origin_seq self)) in
  let h := feed h "hlc_wall_ms" (le_bytes 8 (wall_ms (me_hlc self))) in
  let h := feed h "hlc_counter" (le_bytes 4 (counter (me_hlc self))) in
  let h := feed h "causal_parent_count"
             (le_bytes 8 (Z.of_nat (length (me_causal_parents self)))) in
  let h := foldl (λ h parent, feed h "causal_parent" (as_bytes parent)) h
             (me_causal_parents self) in
  let h := feed_optional h "work_id" (me_work_id self) in
  let h := feed_optional h "task_id" (me_task_id self) in
  let h := feed h "event_type" (as_bytes (me_event_type self)) in
  let h := feed h "payload" (as_bytes (canonical_json (me_payload self))) in
  let h := feed h "privacy_class" (as_bytes (privacy_as_str (me_privacy_class self))) in
  feed_optional h "previous_hash" (me_previous_hash self).

Definition signing_digest `{JsonText, Crypto} (self : MeshEnvelope) : bytes :=
  sha256 (signing_preimage self).

(** [MeshEnvelope::hash]. *)
Definition envelope_hash `{JsonText, Crypto} (self : MeshEnvelope) : string :=
  "sha256:" +:+ to_hex (sha256 (signing_digest self ++ as_bytes (me_signature self))).

(** ** Sealing and opening *)

Definition with_signature (e : MeshEnvelope) (s : string) : MeshEnvelope :=
  mkEnvelope (me_schema_version e) (me_event_id e) (me_origin_node e) (me_origin_seq e)
    (me_hlc e) (me_causal_parents e) (me_work_id e) (me_task_id e) (me_event_type e)
    (me_payload e) (me_privacy_class e) (me_previous_hash e) s.

(** [MeshEnvelope::seal], with the signing key as its 32 bytes. *)
Definition seal `{JsonText, Crypto} (node_id : NodeId) (key : bytes)
    (draft : EnvelopeDraft) : result MeshError MeshEnvelope :=
  let derived := from_public_key (ed_public key) in
  if bool_decide (derived ≠ node_id) then Err (WrongOrigin node_id derived)
  else
    let envelope :=
      mkEnvelope ENVELOPE_SCHEMA_VERSION (ed_event_id draft) node_id (ed_origin_seq draft)
        (ed_hlc draft) (ed_causal_parents draft) (ed_work_id draft) (ed_task_id draft)
        (ed_event_type draft) (ed_payload draft) (ed_privacy_class draft)
        (ed_previous_hash draft) "" in
    Ok (with_signature envelope (to_hex (ed_sign key (signing_digest envelope)))).

(** [MeshEnvelope::open], with the verifying key as its 32 bytes. *)
Definition open_envelope `{JsonText, Crypto} (self : MeshEnvelope) (origin : NodeId)
    (key : bytes) : outcome (result MeshError unit) :=
  let derived := from_public_key key in
  if bool_decide (derived ≠ origin) then Return (Err (WrongOrigin origin derived))
  else if bool_decide (me_origin_node self ≠ origin)
  then Return (Err (WrongOrigin (me_origin_node self) origin))
  else
    decoded ← from_hex 64 (me_signature self) "signature";
    Return (match decoded with
            | Err e => Err e
            | Ok signature =>
                if ed_verify key (signing_digest self) signature then Ok tt
                else Err (BadSignature (me_origin_node self))
            end).

(** ** Widths *)

(** A Rust string or vector is at most [isize::MAX] bytes or items long. *)
Definition alloc_ok (n : nat) : Prop := Z.of_nat n < 2 ^ 63.

Definition opt_alloc_ok (o : option string) : Prop :=
  match o with Some s => alloc_ok (String.length s) | None => True end.

Record envelope_typed `{JsonText} (e : MeshEnvelope) : Prop := mkEnvelopeTyped {
  et_version : is_u32 (me_schema_version e);
  et_seq : is_u64 (me_origin_seq e);
  et_hlc : hlc_typed (me_hlc e);
  et_event_id : alloc_ok (String.length (me_event_id e));
  et_origin : alloc_ok (String.length (me_origin_node e));
  et_parents : alloc_ok (length (me_causal_parents e));
  et_parent : Forall (λ p, alloc_ok (String.length p)) (me_causal_parents e);
  et_work : opt_alloc_ok (me_work_id e);
  et_task : opt_alloc_ok (me_task_id e);
  et_type : alloc_ok (String.length (me_event_type e));
  et_payload : alloc_ok (String.length (canonical_json (me_payload e)));
  et_previous : opt_alloc_ok (me_previous_hash e);
}.

(** What the signature of an envelope covers: every field but the signature,
    the payload by its canonical text. *)
Definition same_content `{JsonText} (e e' : MeshEnvelope) : Prop :=
  me_schema_version e = me_schema_version e' ∧ me_event_id e = me_event_id e' ∧
  me_origin_node e = me_origin_node e' ∧ me_origin_seq e = me_origin_seq e' ∧
  me_hlc e = me_hlc e' ∧ me_causal_parents e = me_causal_parents e' ∧
  me_work_id e = me_work_id e' ∧ me_task_id e = me_task_id e' ∧
  me_event_type e = me_event_type e' ∧
  canonical_json (me_payload e) = canonical_json (me_payload e') ∧
  me_privacy_class e = me_privacy_class e' ∧ me_previous_hash e = me_previous_hash e'.

(** ** Framing is injective *)

(** What one call of [feed] adds to the hasher. *)
Definition frame (field : string * bytes) : bytes :=
  le_bytes 8 (str_len field.1) ++ as_bytes field.1 ++
    le_bytes 8 (Z.of_nat (length field.2)) ++ field.2.

Definition frames (fields : list (string * bytes)) : bytes :=
  concat (map frame fields).

Definition field_ok (field : string * bytes) : Prop :=
  str_len field.1 < 2 ^ 64 ∧ Z.of_nat (length field.2) < 2 ^ 64.

Lemma feed_frame h l b : feed h l b = h ++ frame (l, b).
Proof. done. Qed.

Lemma le8_inj (n m : nat) :
  Z.of_nat n < 2 ^ 64 → Z.of_nat m < 2 ^ 64 →
  le_bytes 8 (Z.of_nat n) = le_bytes 8 (Z.of_nat m) → n = m.
Proof.
  intros Hn Hm H%le_bytes_inj; [lia|..];
    change (256 ^ Z.of_nat 8) with (2 ^ 64); lia.
Qed.

Lemma frame_inj f f' r r' :
  field_ok f → field_ok f' → frame f ++ r = frame f' ++ r' → f = f' ∧ r = r'.
Proof.
  destruct f as [l b], f' as [l' b']. unfold field_ok, frame; cbn [fst snd].
  unfold str_len. intros [H1 H2] [H1' H2']. rewrite <- !app_assoc. intros H.
  apply app_inj_length in H as [Hl H]; [|by rewrite !le_bytes_length].
  apply le8_inj in Hl; [|done..].
  apply app_inj_length in H as [Hll H]; [|by rewrite !as_bytes_length].
  apply app_inj_length in H as [Hb H]; [|by rewrite !le_bytes_length].
  apply le8_inj in Hb; [|done..].
  apply app_inj_length in H as [-> ->]; [|done].
  apply as_bytes_inj in Hll as ->. done.
Qed.

Lemma frame_not_nil f r : frame f ++ r ≠ [].
Proof. unfold frame. intros H%(f_equal length). rewrite !length_app, le_bytes_length in H. simpl in H. lia. Qed.

Lemma frames_inj fs fs' :
  Forall field_ok fs → Forall field_ok fs' → frames fs = frames fs' → fs = fs'.
Proof.
  unfold frames. intros Hfs. revert fs'.
  induction Hfs as [|f fs Hf Hfs IH]; intros fs' Hfs'; destruct Hfs' as [|f' fs' Hf' Hfs'];
    simpl; intros H.
  - done.
  - by symmetry in H; apply frame_not_nil in H.
  - by apply frame_not_nil in H.
  - apply frame_inj in H as [-> H]; [|done..]. f_equal. by apply IH.
Qed.

(** The labelled fields of an envelope, in the order they are hashed. *)
Definition content_fields `{JsonText} (e : MeshEnvelope) : list (string * bytes) :=
  [("schema_version", le_bytes 4 (me_schema_version e));
   ("event_id", as_bytes (me_event_id e));
   ("origin_node", as_bytes (me_origin_node e));
   ("origin_seq", le_bytes 8 (me_origin_seq e));
   ("hlc_wall_ms", le_bytes 8 (wall_ms (me_hlc e)));
   ("hlc_counter", le_bytes 4 (counter (me_hlc e)));
   ("causal_parent_count", le_bytes 8 (Z.of_nat (length (me_causal_parents e))))] ++
  map (λ p, ("causal_parent", as_bytes p)) (me_causal_parents e) ++
  [("work_id", optional_buffer (me_work_id e));
   ("task_id", optional_buffer (me_task_id e));
   ("event_type", as_bytes (me_event_type e));
   ("payload", as_bytes (canonical_json (me_payload e)));
   ("privacy_class", as_bytes (privacy_as_str (me_privacy_class e)));
   ("previous_hash", optional_buffer (me_previous_hash e))].

Lemma frames_app a b : frames (a ++ b) = frames a ++ frames b.
Proof. unfold frames. by rewrite map_app, concat_app. Qed.

Lemma frames_cons f fs : frames (f :: fs) = frame f ++ frames fs.
Proof. done. Qed.

Lemma foldl_feed_parents ps : ∀ h,
  foldl (λ h parent, feed h "causal_parent" (as_bytes parent)) h ps =
    h ++ frames (map (λ p, ("causal_parent", as_bytes p)) ps).
Proof.
  induction ps as [|p ps IH]; intros h; cbn [foldl map].
  - by rewrite app_nil_r.
  - by rewrite IH, feed_frame, frames_cons, app_assoc.
Qed.

Lemma signing_preimage_frames `{JsonText} e : signing_preimage e = frames (content_fields e).
Proof.
  unfold signing_preimage, content_fields, feed_optional.
  rewrite !frames_app, !feed_frame, foldl_feed_parents.
  rewrite !frames_cons. change (frames []) with (@nil ascii).
  rewrite !app_nil_r. by rewrite !app_nil_l, <- !app_assoc.
Qed.

Lemma optional_buffer_length o : (length (optional_buffer o) ≤ S (default 0 (String.length <$> o)))%nat.
Proof. destruct o; simpl; [|lia]. rewrite as_bytes_length. lia. Qed.

Lemma optional_buffer_inj o o' : optional_buffer o = optional_buffer o' → o = o'.
Proof.
  destruct o, o'; simpl; intros H; try done.
  injection H as H. f_equal. by apply as_bytes_inj.
Qed.

Lemma privacy_as_str_inj p p' : privacy_as_str p = privacy_as_str p' → p = p'.
Proof. destruct p, p'; done. Qed.

Lemma field_ok_text l s :
  str_len l < 2 ^ 64 → alloc_ok (String.length s) → field_ok (l, as_bytes s).
Proof. unfold field_ok, alloc_ok; simpl. rewrite as_bytes_length. lia. Qed.

Lemma field_ok_le l n z : str_len l < 2 ^ 64 → (n ≤ 8)%nat → field_ok (l, le_bytes n z).
Proof. unfold field_ok; simpl. rewrite le_bytes_length. lia. Qed.

Lemma field_ok_opt l o : str_len l < 2 ^ 64 → opt_alloc_ok o → field_ok (l, optional_buffer o).
Proof.
  unfold field_ok; simpl. intros Hl Ho. split; [done|].
  pose proof (optional_buffer_length o). destruct o; simpl in *; unfold alloc_ok in *; lia.
Qed.

Lemma content_fields_ok `{JsonText} e : envelope_typed e → Forall field_ok (content_fields e).
Proof.
  intros []. unfold content_fields. rewrite !Forall_app, Forall_map. split_and!.
  - repeat constructor; try apply field_ok_le; try apply field_ok_text; done || lia.
  - eapply Forall_impl; [done|]. intros p Hp. by apply field_ok_text.
  - repeat (apply Forall_cons; split); try apply Forall_nil;
      try apply field_ok_opt; try apply field_ok_text; try done.
    destruct (me_privacy_class e); done.
Qed.

Lemma le_u32_inj a b : is_u32 a → is_u32 b → le_bytes 4 a = le_bytes 4 b → a = b.
Proof.
  unfold is_u32, u32_max. intros Ha Hb H%le_bytes_inj; [done|..];
    change (256 ^ Z.of_nat 4) with (2 ^ 32); lia.
Qed.

Lemma le_u64_inj a b : is_u64 a → is_u64 b → le_bytes 8 a = le_bytes 8 b → a = b.
Proof.
  unfold is_u64, u64_max. intros Ha Hb H%le_bytes_inj; [done|..];
    change (256 ^ Z.of_nat 8) with (2 ^ 64); lia.
Qed.

Lemma field_cons_inj (l : string) (b b' : bytes) r r' :
  (l, b) :: r = (l, b') :: r' → b = b' ∧ r = r'.
Proof. intros H. split; [|by apply (f_equal tail) in H].
  apply (f_equal (λ x, snd <$> head x)) in H. by apply (inj Some) in H. Qed.

Lemma parents_inj (ps ps' : list string) :
  map (λ p, ("causal_parent", as_bytes p)) ps = map (λ p, ("causal_parent", as_bytes p)) ps' →
  ps = ps'.
Proof.
  revert ps'. induction ps as [|p ps IH]; intros [|p' ps'] H; try done.
  apply field_cons_inj in H as [H1 H2]. f_equal; [by apply as_bytes_inj|by apply IH].
Qed.

(** Compare two lists of labelled fields head by head. *)
Ltac next_field H H1 := apply field_cons_inj in H as [H1 H].

Lemma content_fields_inj `{JsonText} e e' :
  envelope_typed e → envelope_typed e' →
  content_fields e = content_fields e' → same_content e e'.
Proof.
  intros [] [] Heq. unfold content_fields in Heq.
  apply app_inj_length in Heq as [Hpre Heq]; [|done].
  next_field Hpre Hv. next_field Hpre Hid. next_field Hpre Hor. next_field Hpre Hseq.
  next_field Hpre Hw. next_field Hpre Hc. next_field Hpre Hn.
  assert (length (me_causal_parents e) = length (me_causal_parents e')) as Hlen.
  { apply le8_inj in Hn; [done|unfold alloc_ok in *; lia..]. }
  apply app_inj_length in Heq as [Hpar Hpost]; [|by rewrite !length_map].
  next_field Hpost Hwk. next_field Hpost Htk. next_field Hpost Hty. next_field Hpost Hpl.
  next_field Hpost Hpr. next_field Hpost Hprev.
  unfold same_content. split_and!.
  - by apply le_u32_inj.
  - by apply as_bytes_inj.
  - by apply as_bytes_inj.
  - by apply le_u64_inj.
  - destruct et_hlc0, et_hlc1. destruct (me_hlc e), (me_hlc e'). simpl in *.
    f_equal; [by apply le_u64_inj|by apply le_u32_inj].
  - by apply parents_inj.
  - by apply optional_buffer_inj.
  - by apply optional_buffer_inj.
  - by apply as_bytes_inj.
  - by apply as_bytes_inj.
  - by apply privacy_as_str_inj, as_bytes_inj.
  - by apply optional_buffer_inj.
Qed.

Lemma signing_preimage_inj `{JsonText} e e' :
  envelope_typed e → envelope_typed e' →
  signing_preimage e = signing_preimage e' → same_content e e'.
Proof.
  intros He He'. rewrite !signing_preimage_frames. intros Heq.
  apply content_fields_inj; [done..|].
  apply frames_inj; [by apply content_fields_ok..|done].
Qed.

(** Equal digests: equal content, or the two texts the digests are of collide. *)
Lemma signing_digest_inj `{JsonText, Crypto} e e' :
  envelope_typed e → envelope_typed e' →
  signing_digest e = signing_digest e' →
  same_content e e' ∨ digests_collide (signing_preimage e) (signing_preimage e').
Proof.
  intros He He' Hd. destruct (decide (signing_preimage e = signing_preimage e')) as [Hp|Hp].
  - left. by apply signing_preimage_inj.
  - by right.
Qed.

Lemma signing_preimage_signature `{JsonText} e s :
  signing_preimage (with_signature e s) = signing_preimage e.
Proof. done. Qed.

(** *** Hash chains *)

(** One node's envelopes, oldest first: each names the hash of the one before
    it, and only the first names none. *)
Fixpoint chained `{JsonText, Crypto} (previous : option string) (es : list MeshEnvelope) : Prop :=
  match es with
  | [] => True
  | e :: es' => me_previous_hash e = previous ∧ chained (Some (envelope_hash e)) es'
  end.

Lemma chained_snoc `{JsonText, Crypto} es e : ∀ p,
  chained p (es ++ [e]) ↔
  chained p es ∧ me_previous_hash e = default p (Some ∘ envelope_hash <$> last es).
Proof.
  induction es as [|e0 es IH]; intros p; simpl; [tauto|].
  rewrite IH.
  assert (default p (Some ∘ envelope_hash <$> last (e0 :: es)) =
          default (Some (envelope_hash e0)) (Some ∘ envelope_hash <$> last es)) as ->
    by (rewrite last_cons; by destruct (last es)).
  tauto.
Qed.

(** What [MeshEnvelope::hash] hashes. *)
Definition hash_preimage `{JsonText, Crypto} (e : MeshEnvelope) : bytes :=
  signing_digest e ++ as_bytes (me_signature e).

(** Two envelopes for which SHA-256 fails: the texts that are signed collide,
    or those that are chained do. *)
Definition envelopes_collide `{JsonText, Crypto} (e e' : MeshEnvelope) : Prop :=
  digests_collide (signing_preimage e) (signing_preimage e') ∨
  digests_collide (hash_preimage e) (hash_preimage e').

(** The hash of an envelope commits to its content and to its signature text. *)
Lemma envelope_hash_inj `{JsonText, CryptoLaws} e e' :
  envelope_typed e → envelope_typed e' → envelope_hash e = envelope_hash e' →
  (same_content e e' ∧ me_signature e = me_signature e') ∨ envelopes_collide e e'.
Proof.
  intros He He' Heq. unfold envelope_hash in Heq.
  apply (inj (String.app "sha256:")) in Heq. apply to_hex_inj in Heq.
  destruct (decide (hash_preimage e = hash_preimage e')) as [Hm|Hm].
  - apply app_inj_length in Hm as [Hd Hs]; [|by unfold signing_digest; rewrite !sha256_length].
    apply as_bytes_inj in Hs. destruct (signing_digest_inj e e' He He' Hd); [auto|].
    right. by left.
  - right. by right.
Qed.

Definition same_envelope `{JsonText} (e e' : MeshEnvelope) : Prop :=
  same_content e e' ∧ me_signature e = me_signature e'.

(**  The tip of a node's hash chain commits to its whole history: two
    chains with the same tip hash agree from the tip back to the first envelope,
    in content and in signature, or SHA-256 has collided on an envelope of the
    one and an envelope of the other. *)
Theorem chain_tip_commits `{JsonText, CryptoLaws} es : ∀ es',
  chained None es → chained None es' →
  Forall envelope_typed es → Forall envelope_typed es' →
  (envelope_hash <$> last es) = (envelope_hash <$> last es') →
  Forall2 same_envelope es es' ∨ (∃ e e', e ∈ es ∧ e' ∈ es' ∧ envelopes_collide e e').
Proof.
  induction es as [|e es IH] using rev_ind; intros es'; destruct es' as [|e' es'] using rev_ind;
    intros Hc Hc' Ht Ht' Htip.
  - left. constructor.
  - by rewrite last_snoc in Htip.
  - by rewrite last_snoc in Htip.
  - clear IHes'. rewrite !last_snoc in Htip. apply (inj Some) in Htip.
    apply chained_snoc in Hc as [Hc Hp], Hc' as [Hc' Hp'].
    apply Forall_app in Ht as [Ht He%Forall_inv], Ht' as [Ht' He'%Forall_inv].
    destruct (envelope_hash_inj e e' He He' Htip) as [[Hs Hsig]|]; [|right; exists e, e'; set_solver].
    destruct (IH es') as [Hall|(a & a' & Ha)]; [done..| |left|right; exists a, a'; set_solver].
    + assert (me_previous_hash e = me_previous_hash e') as Hpp by (unfold same_content in Hs; tauto).
      rewrite Hp, Hp' in Hpp. destruct (last es), (last es'); simpl in *; congruence.
    + apply Forall2_app; [done|]. by constructor.
Qed.

(** *** What [open] accepts *)

Lemma open_envelope_ok `{JsonText, Crypto} e origin key :
  open_envelope e origin key = Return (Ok tt) ↔
  origin = from_public_key key ∧ me_origin_node e = origin ∧
  ∃ signature, from_hex 64 (me_signature e) "signature" = Return (Ok signature) ∧
    ed_verify key (signing_digest e) signature = true.
Proof.
  unfold open_envelope. case_bool_decide as H1; [naive_solver|].
  case_bool_decide as H2; [naive_solver|].
  unfold mbind, outcome_bind.
  destruct (from_hex _ _ _) as [[s|err]|];
    [|split; [done|]; intros (_ & _ & s & Hs & _); discriminate..].
  destruct (ed_verify _ _ _) eqn:E.
  - split; [|done]. intros _. split_and!; eauto.
  - split; [done|]. intros (_ & _ & s' & [= <-] & Hv). congruence.
Qed.

Lemma from_hex_signature `{CryptoLaws} key m what :
  from_hex 64 (to_hex (ed_sign key m)) what = Return (Ok (ed_sign key m)).
Proof. rewrite <- (ed_sign_length key m). apply from_hex_to_hex. Qed.

Lemma seal_signature `{JsonText, Crypto} node key draft e :
  seal node key draft = Ok e → me_signature e = to_hex (ed_sign key (signing_digest e)).
Proof. unfold seal. case_bool_decide; [done|]. by intros [= <-]. Qed.

(**  Sealing: a draft sealed under the node's own name carries every draft
    field and the schema version, and opens under that name and key; sealing
    under any other name is refused. *)
Theorem seal_opens `{JsonText, CryptoLaws} (node : NodeId) (key : bytes) (draft : EnvelopeDraft) :
  match seal node key draft with
  | Err e => node ≠ from_public_key (ed_public key) ∧
      e = WrongOrigin node (from_public_key (ed_public key))
  | Ok e =>
      node = from_public_key (ed_public key) ∧
      open_envelope e node (ed_public key) = Return (Ok tt) ∧
      me_schema_version e = ENVELOPE_SCHEMA_VERSION ∧ me_origin_node e = node ∧
      mkDraft (me_event_id e) (me_origin_seq e) (me_hlc e) (me_causal_parents e)
        (me_work_id e) (me_task_id e) (me_event_type e) (me_payload e)
        (me_privacy_class e) (me_previous_hash e) = draft
  end.
Proof.
  unfold seal. case_bool_decide as Hn; [auto|].
  split_and!; try done; [|by destruct draft].
  apply open_envelope_ok. split_and!; [done..|].
  eexists. split; [|apply ed_verify_sign]. apply from_hex_signature.
Qed.

(** C27.  Tamper evidence: what opens under a node's name and key has the
    content of the envelope the node sealed, field by field, unless one of two
    attacks on these very envelopes succeeded: it carries a signature that
    verifies over a digest other than the sealed one (the sealed signature
    itself, when its text was kept), or its signed text and the sealed one
    differ and yet have one SHA-256 digest. *)
Theorem open_is_tamper_evident `{JsonText, CryptoLaws} (node : NodeId) (key : bytes)
    (draft : EnvelopeDraft) (sealed received : MeshEnvelope) :
  seal node key draft = Ok sealed →
  envelope_typed sealed → envelope_typed received →
  open_envelope received node (ed_public key) = Return (Ok tt) →
  same_content sealed received ∨
  (∃ signature, from_hex 64 (me_signature received) "signature" = Return (Ok signature) ∧
     signing_digest received ≠ signing_digest sealed ∧
     ed_verify (ed_public key) (signing_digest received) signature = true ∧
     (me_signature received = me_signature sealed →
      signature = ed_sign key (signing_digest sealed))) ∨
  digests_collide (signing_preimage sealed) (signing_preimage received).
Proof.
  intros Hseal Hs Hr (_ & _ & sig & Hsig & Hv)%open_envelope_ok.
  destruct (decide (signing_digest sealed = signing_digest received)) as [Hd|Hd].
  - destruct (signing_digest_inj _ _ Hs Hr Hd); auto.
  - right. left. exists sig. split_and!; [done|congruence|done|].
    intros Hkept. rewrite Hkept, (seal_signature _ _ _ _ Hseal) in Hsig.
    rewrite from_hex_signature in Hsig. congruence.
Qed.
