(* ===== verification/MeshNode.v ===== *)
(** * Node identity (crates/heiwa_mesh/src/node.rs, keystore.rs, peers.rs,
      advertisement.rs; crates/heiwa_vault/src/lib.rs)

    The key-store interface and its two implementations, the node record on
    disk, enrolment, the peer registry and capability advertisements. *)

From stdpp Require Import base gmap sets strings numbers list.
From Stdlib Require Import Ascii.
From S2P Require Import Prelude Json CanonicalJson Hex Clock Envelope.
#[local] Open Scope Z_scope.

(** ** Key stores *)

Inductive KeyStoreError : Type := Backend (reason : string).

(** The trait [KeyStore], on the state of the store. *)
Class KeyStore (K : Type) : Type := {
  ks_store : K → string → string → K * result KeyStoreError unit;
  ks_load : K → string → result KeyStoreError (option string);
  ks_delete : K → string → K * result KeyStoreError unit;
}.

(** What a client may rely on: a store that succeeded is read back, other
    accounts keep their answer, and a delete that succeeded reads as absent. *)
Class KeyStoreLaws K `{KeyStore K} : Prop := {
  load_stored : ∀ k a s k', ks_store k a s = (k', Ok tt) → ks_load k' a = Ok (Some s);
  load_other : ∀ k a b s k', a ≠ b → ks_store k a s = (k', Ok tt) → ks_load k' b = ks_load k b;
  load_deleted : ∀ k a k', ks_delete k a = (k', Ok tt) → ks_load k' a = Ok None;
}.

(** *** [MemoryKeyStore]: a map behind a mutex that a panic may have poisoned *)

Record MemoryKeyStore : Type := mkMemory {
  entries_map : gmap string string;
  poisoned : bool;
}.

Definition poison_text : string := "poisoned lock: another task failed inside".

Definition memory_store (k : MemoryKeyStore) (account secret : string)
    : MemoryKeyStore * result KeyStoreError unit :=
  if poisoned k then (k, Err (Backend poison_text))
  else (mkMemory (<[account := secret]> (entries_map k)) false, Ok tt).

Definition memory_load (k : MemoryKeyStore) (account : string)
    : result KeyStoreError (option string) :=
  if poisoned k then Err (Backend poison_text) else Ok (entries_map k !! account).

Definition memory_delete (k : MemoryKeyStore) (account : string)
    : MemoryKeyStore * result KeyStoreError unit :=
  if poisoned k then (k, Err (Backend poison_text))
  else (mkMemory (delete account (entries_map k)) false, Ok tt).

#[export] Instance memory_key_store : KeyStore MemoryKeyStore := {|
  ks_store := memory_store; ks_load := memory_load; ks_delete := memory_delete |}.

#[export] Instance memory_key_store_laws : KeyStoreLaws MemoryKeyStore.
Proof.
  split; intros; simpl in *; unfold memory_store, memory_load, memory_delete in *;
    destruct (poisoned k) eqn:E; simplify_eq; simpl.
  - by rewrite lookup_insert_eq.
  - by rewrite lookup_insert_ne.
  - by rewrite lookup_delete_eq.
Qed.

(** *** The vault: [heiwa_vault] over the OS keyring *)

Inductive KeyringError : Type := NoEntry | OtherKeyringError (reason : string).

(** What [heiwa_vault] calls of the [keyring] crate, on the state of the OS
    store. *)
Class Keyring (R : Type) : Type := {
  entry_new : string → string → result KeyringError unit;
  set_password : R → string → string → string → R * result KeyringError unit;
  get_password : R → string → string → result KeyringError string;
  delete_credential : R → string → string → R * result KeyringError unit;
  keyring_text : KeyringError → string;
}.

(** Documented behaviour of the keyring: a password that was set is read back
    until it is deleted, entries are independent, and there is no entry after a
    deletion or when the deletion says so. *)
Class KeyringLaws R `{Keyring R} : Prop := {
  get_set : ∀ r s a p r', set_password r s a p = (r', Ok tt) → get_password r' s a = Ok p;
  get_set_other : ∀ r s a b p r', a ≠ b → set_password r s a p = (r', Ok tt) →
    get_password r' s b = get_password r s b;
  get_delete : ∀ r s a r' x, delete_credential r s a = (r', x) →
    (x = Ok tt ∨ x = Err NoEntry) → get_password r' s a = Err NoEntry;
}.

Inductive VaultError : Type :=
| NotFound (service account : string)
| VaultBackend (e : KeyringError)
| InvalidUtf8
| Decode.

Section vault.
Context `{Keyring R}.

Definition vault_error_text (e : VaultError) : string :=
  match e with
  | NotFound service account => "secret not found: service=" +:+ service +:+ " account=" +:+ account
  | VaultBackend e => "keyring backend error: " +:+ keyring_text e
  | InvalidUtf8 => "secret is not valid utf8"
  | Decode => "json decode failed"
  end.

(** [Vault::entry]. *)
Definition vault_entry (service account : string) : result VaultError unit :=
  map_err VaultBackend (entry_new service account).

(** [Vault::store]. *)
Definition vault_store (r : R) (service account secret : string) : R * result VaultError unit :=
  match vault_entry service account with
  | Err e => (r, Err e)
  | Ok _ => let '(r', x) := set_password r service account secret in (r', map_err VaultBackend x)
  end.

(** [Vault::load]. *)
Definition vault_load (r : R) (service account : string) : result VaultError string :=
  _ ← vault_entry service account;
  match get_password r service account with
  | Ok s => Ok s
  | Err NoEntry => Err (NotFound service account)
  | Err e => Err (VaultBackend e)
  end.

(** [Vault::delete]. *)
Definition vault_delete (r : R) (service account : string) : R * result VaultError unit :=
  match vault_entry service account with
  | Err e => (r, Err e)
  | Ok _ =>
      let '(r', x) := delete_credential r service account in
      (r', match x with
           | Ok _ => Ok tt
           | Err NoEntry => Err (NotFound service account)
           | Err e => Err (VaultBackend e)
           end)
  end.

Definition KEY_STORE_SERVICE : string := "heiwa-mesh".

Definition absent_is_none (r : result VaultError string) : result KeyStoreError (option string) :=
  match r with
  | Ok secret => Ok (Some secret)
  | Err (NotFound _ _) => Ok None
  | Err e => Err (Backend (vault_error_text e))
  end.

Definition backend_error {A} (r : result VaultError A) : result KeyStoreError A :=
  map_err (λ e, Backend (vault_error_text e)) r.

(** [impl KeyStore for VaultKeyStore]. *)
Definition vault_ks_store (r : R) (account secret : string) : R * result KeyStoreError unit :=
  let '(r', x) := vault_store r KEY_STORE_SERVICE account secret in (r', backend_error x).

Definition vault_ks_load (r : R) (account : string) : result KeyStoreError (option string) :=
  absent_is_none (vault_load r KEY_STORE_SERVICE account).

Definition vault_ks_delete (r : R) (account : string) : R * result KeyStoreError unit :=
  let '(r', x) := vault_delete r KEY_STORE_SERVICE account in
  (r', match x with
       | Ok _ | Err (NotFound _ _) => Ok tt
       | Err e => Err (Backend (vault_error_text e))
       end).
End vault.

(** A [VaultKeyStore] is the OS store under its service name. *)
Record VaultKeyStore (R : Type) : Type := mkVault { vault_state : R }.
Arguments mkVault {R} _.
Arguments vault_state {R} _.

#[export] Instance vault_key_store `{Keyring R} : KeyStore (VaultKeyStore R) := {|
  ks_store k a s := prod_map mkVault id (vault_ks_store (vault_state k) a s);
  ks_load k a := vault_ks_load (vault_state k) a;
  ks_delete k a := prod_map mkVault id (vault_ks_delete (vault_state k) a);
|}.

(** A vault operation that succeeded went through to the keyring. *)
Lemma vault_ks_store_ok `{Keyring R} (r r' : R) a s :
  vault_ks_store r a s = (r', Ok tt) →
  entry_new KEY_STORE_SERVICE a = Ok tt ∧ set_password r KEY_STORE_SERVICE a s = (r', Ok tt).
Proof.
  unfold vault_ks_store, vault_store, vault_entry.
  destruct (entry_new _ _) as [[]|]; simpl; [|done].
  destruct (set_password _ _ _ _) as [r2 [[]|]]; simpl; [|done]. by intros [= ->].
Qed.

Lemma vault_ks_delete_ok `{Keyring R} (r r' : R) a :
  vault_ks_delete r a = (r', Ok tt) →
  entry_new KEY_STORE_SERVICE a = Ok tt ∧
  ∃ x, delete_credential r KEY_STORE_SERVICE a = (r', x) ∧ (x = Ok tt ∨ x = Err NoEntry).
Proof.
  unfold vault_ks_delete, vault_delete, vault_entry.
  destruct (entry_new _ _) as [[]|]; simpl; [|done].
  destruct (delete_credential _ _ _) as [r2 [[]|[]]]; simpl; [..|done];
    intros [= ->]; eauto.
Qed.

Lemma vault_ks_load_get `{Keyring R} (r : R) a :
  entry_new KEY_STORE_SERVICE a = Ok tt →
  vault_ks_load r a =
    match get_password r KEY_STORE_SERVICE a with
    | Ok s => Ok (Some s)
    | Err NoEntry => Ok None
    | Err e => Err (Backend (vault_error_text (VaultBackend e)))
    end.
Proof.
  unfold vault_ks_load, vault_load, vault_entry. intros ->. simpl.
  by destruct (get_password _ _ _) as [|[]].
Qed.

#[export] Instance vault_key_store_laws `{KeyringLaws R} : KeyStoreLaws (VaultKeyStore R).
Proof.
  split; simpl.
  - intros [r] a s [r'] Hs. simpl in *.
    destruct (vault_ks_store _ _ _) as [r2 x] eqn:E; simpl in Hs. simplify_eq.
    apply vault_ks_store_ok in E as [Hn Hs].
    by rewrite vault_ks_load_get, (get_set _ _ _ _ _ Hs).
  - intros [r] a b s [r'] Hne Hs. simpl in *.
    destruct (vault_ks_store _ _ _) as [r2 x] eqn:E; simpl in Hs. simplify_eq.
    apply vault_ks_store_ok in E as [Hn Hs].
    unfold vault_ks_load, vault_load. by rewrite (get_set_other _ _ _ _ _ _ Hne Hs).
  - intros [r] a [r'] Hs. simpl in *.
    destruct (vault_ks_delete _ _) as [r2 x] eqn:E; simpl in Hs. simplify_eq.
    apply vault_ks_delete_ok in E as (Hn & x & Hd & Hx).
    by rewrite vault_ks_load_get, (get_delete _ _ _ _ _ Hd Hx).
Qed.

(** ** The node record *)

Definition SCHEMA_VERSION : Z := 1.

Inductive Platform : Type := MacOS | Windows | Linux | Ios | Android.
Inductive NodeClass : Type := FullNode | MobileNode.
Inductive BackgroundReliability : Type := Continuous | ForegroundOnly.

#[export] Instance platform_eq_dec : EqDecision Platform.
Proof. solve_decision. Defined.
#[export] Instance class_eq_dec : EqDecision NodeClass.
Proof. solve_decision. Defined.
#[export] Instance reliability_eq_dec : EqDecision BackgroundReliability.
Proof. solve_decision. Defined.

(** The serde names of the variants. *)
Definition platform_text (p : Platform) : string :=
  match p with
  | MacOS => "macos" | Windows => "windows" | Linux => "linux"
  | Ios => "ios" | Android => "android"
  end.
Definition class_text (c : NodeClass) : string :=
  match c with FullNode => "full_node" | MobileNode => "mobile_node" end.
Definition reliability_text (r : BackgroundReliability) : string :=
  match r with Continuous => "continuous" | ForegroundOnly => "foreground_only" end.

(** [BackgroundReliability::for_class]. *)
Definition for_class (class : NodeClass) : BackgroundReliability :=
  match class with FullNode => Continuous | MobileNode => ForegroundOnly end.

Record MeshNode : Type := mkNode {
  mn_version : Z;
  mn_node_id : NodeId;
  mn_installation_id : string;
  mn_public_key : string;
  mn_display_name : string;
  mn_platform : Platform;
  mn_class : NodeClass;
  mn_enrolled_at : string;
  mn_background_reliability : BackgroundReliability;
}.

Record NodeEnrolment : Type := mkEnrolment {
  ne_installation_id : string;
  ne_display_name : string;
  ne_platform : Platform;
  ne_class : NodeClass;
  ne_enrolled_at : string;
}.

(** The derived [Serialize] and [Deserialize] of [MeshNode]. *)
Definition encode_node (n : MeshNode) : json :=
  JObject [("version", JNumber (PosInt (mn_version n)));
           ("node_id", JString (mn_node_id n));
           ("installation_id", JString (mn_installation_id n));
           ("public_key", JString (mn_public_key n));
           ("display_name", JString (mn_display_name n));
           ("platform", JString (platform_text (mn_platform n)));
           ("class", JString (class_text (mn_class n)));
           ("enrolled_at", JString (mn_enrolled_at n));
           ("background_reliability",
            JString (reliability_text (mn_background_reliability n)))].

Definition decode_node (doc : json) : option MeshNode :=
  m ← struct_view ["version"; "node_id"; "installation_id"; "public_key"; "display_name";
                   "platform"; "class"; "enrolled_at"; "background_reliability"] doc;
  version ← obj_get "version" m ≫= as_uint u32_max;
  node_id ← field_string m "node_id";
  installation_id ← field_string m "installation_id";
  public_key ← field_string m "public_key";
  display_name ← field_string m "display_name";
  platform ← obj_get "platform" m ≫=
    decode_variant platform_text [MacOS; Windows; Linux; Ios; Android];
  class ← obj_get "class" m ≫= decode_variant class_text [FullNode; MobileNode];
  enrolled_at ← field_string m "enrolled_at";
  reliability ← obj_get "background_reliability" m ≫=
    decode_variant reliability_text [Continuous; ForegroundOnly];
  Some (mkNode version node_id installation_id public_key display_name platform class
          enrolled_at reliability).

(** ** The record on disk *)

(** How a write can fail: before the file is touched, or after its first bytes
    are written over the old content. *)
Inductive WriteFault : Type := Refused | Torn (written : nat).

(** The file system below a root, and what fails of it. *)
Record Disk : Type := mkDisk {
  files : gmap (list string) string;
  read_fails : bool;
  write_fault : option WriteFault;
}.

(** [std::fs::read_to_string] of a file that exists. *)
Definition read_to_string (d : Disk) (raw : string) : result MeshError string :=
  if read_fails d then Err Io else Ok raw.

(** [create_dir_all] of the parent, then [std::fs::write]. *)
Definition write_file (d : Disk) (path : list string) (body : string) : Disk * result MeshError unit :=
  match write_fault d with
  | None => (mkDisk (<[path := body]> (files d)) (read_fails d) (write_fault d), Ok tt)
  | Some Refused => (d, Err Io)
  | Some (Torn n) =>
      (mkDisk (<[path := String.substring 0 n body]> (files d)) (read_fails d) (write_fault d),
       Err Io)
  end.

Definition node_path_in (runtime_root : list string) : list string :=
  runtime_root ++ ["mesh-node.json"].

Section node.
Context `{JsonText, Crypto, KeyStore K}.

Definition load_from (d : Disk) (runtime_root : list string)
    : result MeshError (option MeshNode) :=
  match files d !! node_path_in runtime_root with
  | None => Ok None
  | Some content =>
      raw ← read_to_string d content;
      probe ← ok_or (Malformed "record is not JSON") (from_str_value raw);
      _ ← match get_u64 probe "version" with
          | Some version =>
              if bool_decide (version > SCHEMA_VERSION)
              then Err (UnknownVersion (version mod 2 ^ 32)) else Ok tt
          | None => Err (Malformed "record has no version")
          end;
      node ← ok_or (Malformed "record is not a node") (parse_json raw ≫= decode_node);
      Ok (Some node)
  end.

Definition write_to (d : Disk) (runtime_root : list string) (node : MeshNode)
    : Disk * result MeshError unit :=
  write_file d (node_path_in runtime_root) (print_json_pretty (encode_node node)).

(** The record [establish_in] builds from a seed. *)
Definition new_node (enrolment : NodeEnrolment) (seed : bytes) : MeshNode :=
  let public := ed_public seed in
  mkNode SCHEMA_VERSION (from_public_key public) (ne_installation_id enrolment)
    (to_hex public) (trim (ne_display_name enrolment)) (ne_platform enrolment)
    (ne_class enrolment) (ne_enrolled_at enrolment) (for_class (ne_class enrolment)).

Definition establish_in (d : Disk) (keys : K) (runtime_root : list string)
    (enrolment : NodeEnrolment) (seed : bytes) : Disk * K * result MeshError MeshNode :=
  match load_from d runtime_root with
  | Err e => (d, keys, Err e)
  | Ok (Some existing) => (d, keys, Ok existing)
  | Ok None =>
      let node := new_node enrolment seed in
      match ks_store keys (mn_node_id node) (to_hex seed) with
      | (keys', Err (Backend reason)) => (d, keys', Err (KeyStoreFailed reason))
      | (keys', Ok _) =>
          match write_to d runtime_root node with
          | (d', Err e) => (d', keys', Err e)
          | (d', Ok _) => (d', keys', Ok node)
          end
      end
  end.

Definition signing_key_in (d : Disk) (keys : K) (runtime_root : list string)
    : outcome (result MeshError bytes) :=
  match load_from d runtime_root with
  | Err e => Return (Err e)
  | Ok None => Return (Err NotEstablished)
  | Ok (Some node) =>
      match ks_load keys (mn_node_id node) with
      | Err (Backend reason) => Return (Err (KeyStoreFailed reason))
      | Ok None => Return (Err (MissingSigningKey (mn_node_id node)))
      | Ok (Some stored) =>
          decoded ← from_hex 32 stored "signing key";
          Return (signing ← decoded;
                  if bool_decide (from_public_key (ed_public signing) ≠ mn_node_id node)
                  then Err (Malformed "stored signing key does not belong to this node record")
                  else Ok signing)
      end
  end.

(** [verifying_key]: the public half, from the record alone. *)
Definition verifying_key (node : MeshNode) : outcome (result MeshError bytes) :=
  decoded ← from_hex 32 (mn_public_key node) "public key";
  Return (key ← decoded;
          if ed_valid_public key then Ok key else Err (Malformed "public key")).
End node.

(** ** Lemmas *)

Lemma decode_encode_node n :
  0 ≤ mn_version n ≤ u32_max → decode_node (encode_node n) = Some n.
Proof.
  intros Hv. unfold decode_node, encode_node. simpl. unfold as_uint. simpl.
  rewrite bool_decide_true by lia. destruct n as [? ? ? ? ? [] [] ? []]; reflexivity.
Qed.

Lemma encode_node_exact n :
  0 ≤ mn_version n ≤ u32_max → json_exact (encode_node n) = true.
Proof.
  intros Hv. unfold json_exact. simpl. rewrite bool_decide_true by (widths; lia). done.
Qed.

Lemma load_written `{JsonTextLaws} d root n :
  read_fails d = false → mn_version n = SCHEMA_VERSION →
  files d !! node_path_in root = Some (print_json_pretty (encode_node n)) →
  load_from d root = Ok (Some n).
Proof.
  intros Hr Hv Hf. assert (0 ≤ mn_version n ≤ u32_max) by (rewrite Hv; vm_compute; split; congruence).
  unfold load_from, read_to_string, from_str_value. rewrite Hf, Hr. cbn [mbind result_bind].
  rewrite parse_print_pretty by by apply encode_node_exact.
  cbn [mbind result_bind option_bind fmap option_fmap option_map ok_or].
  change (get_u64 (value_of (encode_node n)) "version") with (Some (mn_version n)).
  rewrite Hv, decode_encode_node by done. done.
Qed.

Lemma load_absent `{JsonText} d root :
  load_from d root = Ok None → files d !! node_path_in root = None.
Proof.
  unfold load_from. destruct (files d !! _) as [c|]; [|done].
  unfold read_to_string, mbind, result_bind, ok_or. intros; break.
Qed.

(**  Enrolment: on a machine with no record, where the store and the file
    system work, [establish_in] returns the record of the seed; from then on the
    record loads, its private key is the seed, its public key is the one the
    node is named after, and establishing again, with any seed and enrolment,
    returns the same record and changes neither the disk nor the store. *)
Theorem enrolment_is_stable `{JsonTextLaws, CryptoLaws, KeyStoreLaws K}
    (d : Disk) (keys keys' : K) (root : list string) (enrolment : NodeEnrolment) (seed : bytes) :
  load_from d root = Ok None → length seed = 32%nat →
  read_fails d = false → write_fault d = None →
  ks_store keys (from_public_key (ed_public seed)) (to_hex seed) = (keys', Ok tt) →
  let node := new_node enrolment seed in
  ∃ d', establish_in d keys root enrolment seed = (d', keys', Ok node) ∧
    load_from d' root = Ok (Some node) ∧
    signing_key_in d' keys' root = Return (Ok seed) ∧
    verifying_key node = Return (Ok (ed_public seed)) ∧
    ∀ enrolment' seed', establish_in d' keys' root enrolment' seed' = (d', keys', Ok node).
Proof.
  intros Habs Hlen Hr Hw Hks node.
  set (d' := mkDisk (<[node_path_in root := print_json_pretty (encode_node node)]> (files d))
               (read_fails d) (write_fault d)).
  assert (load_from d' root = Ok (Some node)) as Hl.
  { apply load_written; [done..|]. simpl. by rewrite lookup_insert_eq. }
  exists d'. split_and!; [|done| | |].
  - unfold establish_in, write_to, write_file. rewrite Habs. simpl.
    rewrite Hks. unfold d'. by rewrite Hw.
  - unfold signing_key_in. rewrite Hl. simpl. rewrite (load_stored _ _ _ _ Hks). simpl.
    rewrite <- Hlen, from_hex_to_hex. simpl. by rewrite bool_decide_false by auto.
  - unfold verifying_key. simpl. rewrite <- (ed_public_length seed), from_hex_to_hex. simpl.
    by rewrite ed_public_valid.
  - intros. unfold establish_in. by rewrite Hl.
Qed.

(**  The key goes to the store first: whatever fails, [establish_in] never
    changes the disk unless the store holds the new node's key, and a refused
    store leaves the disk untouched and is reported. *)
Theorem no_record_without_key `{JsonText, Crypto, KeyStoreLaws K}
    (d : Disk) (keys : K) (root : list string) (enrolment : NodeEnrolment) (seed : bytes) :
  let '(d', keys', r) := establish_in d keys root enrolment seed in
  (d' ≠ d → ks_load keys' (from_public_key (ed_public seed)) = Ok (Some (to_hex seed))) ∧
  (∀ keys'' reason,
     load_from d root = Ok None →
     ks_store keys (from_public_key (ed_public seed)) (to_hex seed)
       = (keys'', Err (Backend reason)) →
     d' = d ∧ keys' = keys'' ∧ r = Err (KeyStoreFailed reason)).
Proof.
  unfold establish_in. destruct (load_from d root) as [[n|]|e]; [by split..| |by split].
  destruct (ks_store _ _ _) as [keys' [[]|[reason]]] eqn:Hks; [|naive_solver].
  destruct (write_to _ _ _) as [d' [[]|e]]; (split; [|congruence]);
    intros _; by apply load_stored in Hks.
Qed.

(** ** Peers (peers.rs) *)

Record Peer : Type := mkPeer {
  peer_node_id : NodeId;
  peer_display_name : string;
  peer_public_key : string;
  peer_enrolled_at : string;
  peer_revoked_at : option string;
}.

Record PeerRegistry : Type := mkRegistry {
  pr_version : Z;
  pr_peers : list Peer;
}.

Definition decode_peer (doc : json) : option Peer :=
  m ← struct_view ["node_id"; "display_name"; "public_key"; "enrolled_at"; "revoked_at"] doc;
  node_id ← field_string m "node_id";
  display_name ← field_string m "display_name";
  public_key ← field_string m "public_key";
  enrolled_at ← field_string m "enrolled_at";
  revoked_at ← field_option as_str m "revoked_at";
  Some (mkPeer node_id display_name public_key enrolled_at revoked_at).

Definition decode_registry (doc : json) : option PeerRegistry :=
  m ← struct_view ["version"; "peers"] doc;
  version ← obj_get "version" m ≫= as_uint u32_max;
  peers ← obj_get "peers" m ≫= as_list decode_peer;
  Some (mkRegistry version peers).

Definition is_none {A} (o : option A) : bool := match o with None => true | Some _ => false end.

Definition active_peer_ids (self : PeerRegistry) : list string :=
  map peer_node_id (filter (λ peer, is_none (peer_revoked_at peer)) (pr_peers self)).

Definition is_active (self : PeerRegistry) (node_id : string) : bool :=
  existsb (λ peer, bool_decide (peer_node_id peer = node_id) && is_none (peer_revoked_at peer))
    (pr_peers self).

Definition registry_path_in (runtime_root : list string) : list string :=
  runtime_root ++ ["mesh-peers.json"].

(** [peers::load_from]. *)
Definition load_registry `{JsonText} (d : Disk) (runtime_root : list string)
    : result MeshError PeerRegistry :=
  match files d !! registry_path_in runtime_root with
  | None => Ok (mkRegistry SCHEMA_VERSION [])
  | Some content =>
      raw ← read_to_string d content;
      registry ← ok_or (Malformed "peer registry") (parse_json raw ≫= decode_registry);
      if bool_decide (pr_version registry > SCHEMA_VERSION)
      then Err (UnknownVersion (pr_version registry)) else Ok registry
  end.

(** ** Advertisements (advertisement.rs) *)

Record ModelEndpointRef : Type := mkEndpoint {
  me_node_id : NodeId;
  me_provider : string;
  me_model : string;
  me_account_id : option string;
  me_session_ref : option string;
}.

Inductive PowerState : Type := OnMains | Battery (percent : Z) | UnknownPower.

Record LoadSnapshot : Type := mkLoad {
  cpu_percent : Z;
  memory_percent : Z;
  gpu_percent : option Z;
}.

Record CapabilityAdvertisement : Type := mkAdvertisement {
  ca_node_id : NodeId;
  ca_published_at_ms : Z;
  ca_expires_at_ms : Z;
  ca_model_endpoints : list ModelEndpointRef;
  ca_tools : list string;
  ca_surfaces : list string;
  ca_resources : list string;
  ca_load : LoadSnapshot;
  ca_power : PowerState;
}.

#[export] Instance endpoint_eq_dec : EqDecision ModelEndpointRef.
Proof. solve_decision. Defined.
#[export] Instance power_eq_dec : EqDecision PowerState.
Proof. solve_decision. Defined.
#[export] Instance load_eq_dec : EqDecision LoadSnapshot.
Proof. solve_decision. Defined.

Definition is_fresh_at (self : CapabilityAdvertisement) (now_ms : Z) : bool :=
  bool_decide (now_ms < ca_expires_at_ms self).

Definition differs_from (self previous : CapabilityAdvertisement) : bool :=
  bool_decide (ca_node_id self ≠ ca_node_id previous) ||
  bool_decide (ca_model_endpoints self ≠ ca_model_endpoints previous) ||
  bool_decide (ca_tools self ≠ ca_tools previous) ||
  bool_decide (ca_surfaces self ≠ ca_surfaces previous) ||
  bool_decide (ca_resources self ≠ ca_resources previous) ||
  bool_decide (ca_load self ≠ ca_load previous) ||
  bool_decide (ca_power self ≠ ca_power previous).

(**  The registry on disk: a machine that never paired has no active peer;
    a registry newer than this build is refused; and for one that loads, the
    membership test and the published list of active peers agree, and a peer
    whose every entry is revoked is in neither. *)
Theorem peer_registry_reads `{JsonText} (d : Disk) (root : list string) :
  (files d !! registry_path_in root = None →
     ∃ reg, load_registry d root = Ok reg ∧ active_peer_ids reg = []) ∧
  (∀ reg, load_registry d root = Ok reg →
     pr_version reg ≤ SCHEMA_VERSION ∧
     ∀ id, (is_active reg id = true ↔ id ∈ active_peer_ids reg) ∧
       (Forall (λ p, peer_node_id p = id → is_Some (peer_revoked_at p)) (pr_peers reg) ↔
        id ∉ active_peer_ids reg)).
Proof.
  unfold load_registry. split.
  { intros ->. by eexists. }
  intros reg Hl. split.
  { destruct (files d !! _); [|by simplify_eq/=].
    unfold mbind, result_bind, ok_or, read_to_string in Hl. break; lia. }
  clear Hl. destruct reg as [v ps]; unfold is_active, active_peer_ids; simpl. intros id.
  induction ps as [|p ps [IH1 IH2]]; simpl; [set_solver|].
  rewrite filter_cons. destruct (peer_revoked_at p) as [t|] eqn:E; simpl.
  - rewrite andb_false_r, Forall_cons_iff, E. simpl. rewrite IH1, <- IH2. split; [done|].
    split; [tauto|]. intros; split; [eauto|done].
  - rewrite andb_true_r, orb_true_iff, bool_decide_eq_true, elem_of_cons, Forall_cons_iff, E, IH1, IH2.
    split; [naive_solver|]. split.
    + intros [Hp ?] [->|?]; [|done]. by destruct (Hp eq_refl).
    + intros Hn. split; [|tauto]. intros Heq. by destruct Hn; left.
Qed.

(** An advertisement is republished exactly when something besides its
    timestamps changed. *)
Lemma differs_from_spec a b :
  differs_from a b = false ↔
  a = mkAdvertisement (ca_node_id b) (ca_published_at_ms a) (ca_expires_at_ms a)
        (ca_model_endpoints b) (ca_tools b) (ca_surfaces b) (ca_resources b) (ca_load b)
        (ca_power b).
Proof.
  unfold differs_from. rewrite !orb_false_iff, !bool_decide_eq_false.
  destruct a, b; simpl. split.
  - intros H. destruct_and?. repeat match goal with H : ¬ _ ≠ _ |- _ => apply dec_stable in H end.
    by subst.
  - intros [= -> -> -> -> -> -> ->]. split_and!; intros Hn; by apply Hn.
Qed.
