(* ===== verification/ReferenceText.v ===== *)
(** * A reference text codec and reference cryptography

    Concrete functions with which the named hypotheses of the development hold
    at once: [JsonText] with [JsonTextLaws] and [CanonicalTextLaws], and
    [Crypto] with [CryptoLaws].  They are not serde_json or Ed25519; they show
    that the laws the theorems assume are consistent, and the witnesses evaluate
    the model with them. *)

From stdpp Require Import base sets list strings numbers sorting countable gmap.
From Stdlib Require Import Ascii.
From S2P Require Import Prelude Json CanonicalJson Hex Clock Envelope MeshNode.
#[local] Open Scope Z_scope.
#[local] Arguments String.append : simpl nomatch.

(** ** Text *)

(** Every byte behind a marker, closed by a quote. *)
Fixpoint marked (s : string) : string :=
  match s with
  | "" => String quote_char ""
  | String c s' => String "x" (String c (marked s'))
  end.

Definition ref_string_text (s : string) : string := String quote_char (marked s).

Lemma marked_prefix s : ∀ s' r r', marked s +:+ r = marked s' +:+ r' → s = s' ∧ r = r'.
Proof.
  induction s as [|c s IH]; intros [|c' s'] r r'; simpl; intros H; try discriminate.
  - by injection H.
  - injection H as -> H. by apply IH in H as [-> ->].
Qed.

(** A tag digit and eight bytes. *)
Definition ref_number_text (n : number) : string :=
  let '(tag, z) := match n with PosInt u => ("0"%char, u) | NegInt i => ("1"%char, - i)
                   | Float b => ("2"%char, b) end in
  String tag (String.string_of_list_ascii (le_bytes 8 z)).

Lemma string_of_bytes_app (l : bytes) r :
  as_bytes (String.string_of_list_ascii l +:+ r) = l ++ as_bytes r.
Proof.
  rewrite as_bytes_app. unfold as_bytes at 1. by rewrite String.list_ascii_of_string_of_list_ascii.
Qed.

Lemma string_cons_app_inj a b s t r r' :
  String a s +:+ r = String b t +:+ r' → a = b ∧ s +:+ r = t +:+ r'.
Proof. by intros [= -> ?]. Qed.

Lemma ref_number_prefix n n' r r' : number_valid n → number_valid n' →
  ref_number_text n +:+ r = ref_number_text n' +:+ r' → n = n' ∧ r = r'.
Proof.
  assert (∀ a b, 0 ≤ a < 2 ^ 64 → 0 ≤ b < 2 ^ 64 →
    String.string_of_list_ascii (le_bytes 8 a) +:+ r =
    String.string_of_list_ascii (le_bytes 8 b) +:+ r' → a = b ∧ r = r') as Hle.
  { intros a b Ha Hb H. apply (f_equal as_bytes) in H. rewrite !string_of_bytes_app in H.
    apply app_inj_length in H as [Hz Hr]; [|by rewrite !le_bytes_length].
    split; [|by apply as_bytes_inj].
    apply le_bytes_inj in Hz; [done|by change (256 ^ Z.of_nat 8) with (2 ^ 64)..]. }
  unfold number_valid, is_u64, u64_max, ref_number_text.
  destruct n, n'; intros Hv Hv' H; apply string_cons_app_inj in H as [Ht H];
    try discriminate; apply Hle in H as [He ->]; try lia; split; try done; f_equal; lia.
Qed.

(** Values as trees, for a text that parses back. *)
Fixpoint to_tree (v : json) : gen_tree (option bool + (Z * Z) + string) :=
  match v with
  | JNull => GenLeaf (inl (inl None))
  | JBool b => GenLeaf (inl (inl (Some b)))
  | JNumber (PosInt z) => GenLeaf (inl (inr (0, z)))
  | JNumber (NegInt z) => GenLeaf (inl (inr (1, z)))
  | JNumber (Float z) => GenLeaf (inl (inr (2, z)))
  | JString s => GenLeaf (inr s)
  | JArray l => GenNode 0 (map to_tree l)
  | JObject m => GenNode 1 (map (λ kv, GenNode 2 [GenLeaf (inr kv.1); to_tree kv.2]) m)
  end.

Fixpoint of_tree (t : gen_tree (option bool + (Z * Z) + string)) : json :=
  match t with
  | GenLeaf (inl (inl None)) => JNull
  | GenLeaf (inl (inl (Some b))) => JBool b
  | GenLeaf (inl (inr (0, z))) => JNumber (PosInt z)
  | GenLeaf (inl (inr (1, z))) => JNumber (NegInt z)
  | GenLeaf (inl (inr (_, z))) => JNumber (Float z)
  | GenLeaf (inr s) => JString s
  | GenNode 0 ts => JArray (map of_tree ts)
  | GenNode _ ts =>
      JObject (map (λ t, match t with
                         | GenNode _ [GenLeaf (inr k); t'] => (k, of_tree t')
                         | _ => ("", JNull)
                         end) ts)
  end.

Lemma of_to_tree v : of_tree (to_tree v) = v.
Proof.
  induction v as [|b|[]|s|l IH|m IH] using json_ind_strong; simpl; try done.
  - f_equal. rewrite map_map. induction IH as [|x l Hx Hl IHl]; simpl; [done|]. by f_equal.
  - f_equal. rewrite map_map. induction IH as [|[k x] l Hx Hl IHl]; simpl in *; [done|].
    rewrite Hx. by f_equal.
Qed.

#[export] Instance to_tree_inj : Inj (=) (=) to_tree.
Proof. intros v w H. by rewrite <- (of_to_tree v), H, of_to_tree. Qed.
#[export] Instance json_eq_dec : EqDecision json := inj_eq_dec to_tree.
#[export] Instance json_countable : Countable json.
Proof. exact (inj_countable' to_tree of_tree of_to_tree). Defined.

Fixpoint positive_text (p : positive) : string :=
  match p with
  | xH => ""
  | xO p => String "0" (positive_text p)
  | xI p => String "1" (positive_text p)
  end.

Fixpoint text_positive (s : string) : positive :=
  match s with
  | "" => xH
  | String c s' => if bool_decide (c = "0"%char) then xO (text_positive s')
                   else xI (text_positive s')
  end.

Lemma text_positive_text p : text_positive (positive_text p) = p.
Proof. induction p; simpl; [..|done]; by rewrite IHp. Qed.

Lemma positive_text_no_newline p : newline ∉ as_bytes (positive_text p).
Proof.
  induction p; simpl; unfold as_bytes in *; simpl; [..|set_solver];
    rewrite elem_of_cons; intros [H|H]; done.
Qed.

(** The text of a value: its code between an equals sign and a full stop. *)
Definition ref_print (v : json) : string := String "=" (positive_text (encode v) +:+ ".").

Fixpoint text_code (s : string) : option positive :=
  match s with
  | String c s' =>
      if bool_decide (c = "."%char) then if bool_decide (s' = "") then Some xH else None
      else if bool_decide (c = "0"%char) then xO <$> text_code s'
      else if bool_decide (c = "1"%char) then xI <$> text_code s'
      else None
  | "" => None
  end.

Definition ref_parse (s : string) : option json :=
  match s with
  | String c s' => if bool_decide (c = "="%char) then text_code s' ≫= decode else None
  | "" => None
  end.

Lemma text_code_text p : text_code (positive_text p +:+ ".") = Some p.
Proof. induction p; simpl; [..|done]; by rewrite IHp. Qed.

#[export] Instance ref_text : JsonText := {|
  number_text := ref_number_text;
  string_text := ref_string_text;
  print_json := ref_print;
  print_json_pretty := ref_print;
  parse_json := ref_parse;
|}.

Lemma ref_parse_print v : ref_parse (ref_print v) = Some v.
Proof. unfold ref_parse, ref_print. rewrite bool_decide_true, text_code_text by done. apply decode_encode. Qed.

#[export] Instance ref_text_laws : JsonTextLaws.
Proof.
  split.
  - intros v _. apply ref_parse_print.
  - intros v _. apply ref_parse_print.
  - intros v. simpl. unfold ref_print, as_bytes. simpl. rewrite not_elem_of_cons. split; [done|].
    change (newline ∉ as_bytes (positive_text (encode v) +:+ ".")). rewrite as_bytes_app, not_elem_of_app.
    split; [apply positive_text_no_newline|]. apply (bool_decide_unpack _). vm_compute. exact I.
  - done.
Qed.

#[export] Instance ref_canonical_laws : CanonicalTextLaws.
Proof.
  split.
  - intros s. by exists (marked s).
  - intros s s' r r' H. injection H as H. by apply marked_prefix in H.
  - intros n. destruct n; (eexists _, _; split; [done|right]); vm_compute; split; congruence.
  - intros n n' r r' Hn Hn' _ _ H. by apply ref_number_prefix.
Qed.

(** ** Cryptography *)

(** The first [n] bytes of [l], padded with zeros. *)
Definition pad (n : nat) (l : bytes) : bytes := take n (l ++ replicate n (byte_of 0)).

Lemma pad_length n l : length (pad n l) = n.
Proof. unfold pad. rewrite length_take, length_app, length_replicate. lia. Qed.

(** A byte-wise running sum, enough to tell the test messages apart. *)
Definition ref_sum (m : bytes) : Z :=
  foldl (λ acc c, (acc * 31 + byte_val c + 1) mod 2 ^ 32) 7 m.

#[export] Instance ref_crypto : Crypto := {|
  sha256 m := le_bytes 32 (ref_sum m);
  ed_public sk := pad 32 sk;
  ed_sign sk m := pad 64 (le_bytes 32 (ref_sum (pad 32 sk ++ m)));
  ed_verify pk m s := bool_decide (s = pad 64 (le_bytes 32 (ref_sum (pk ++ m))));
  ed_valid_public pk := bool_decide (length pk = 32%nat);
|}.

#[export] Instance ref_crypto_laws : CryptoLaws.
Proof.
  split; simpl; intros; rewrite ?bool_decide_eq_true; auto using le_bytes_length, pad_length.
Qed.

(** ** Witnesses *)

(** The two values differ in the order of two keys. *)
Lemma canonical_json_exact_witness :
  canonical_json (JObject [("b", JNull); ("a", JArray [JBool true])]) =
  canonical_json (JObject [("a", JArray [JBool true]); ("b", JNull)]).
Proof.
  assert (∀ x y : string * json, x.1 ≠ y.1 → json_valid x.2 → json_valid y.2 →
    json_valid (JObject [x; y])) as Hv.
  { intros x y Hne Hx Hy. repeat constructor; simpl; set_solver. }
  apply canonical_json_exact.
  - apply Hv; [done|by repeat constructor..].
  - apply Hv; [done|by repeat constructor..].
  - eapply (je_object _ _ [("b", JNull); ("a", JArray [JBool true])]).
    + constructor.
    + repeat constructor.
Defined.

(** A key, its node, a draft and the envelope it seals to. *)
Definition ref_key : bytes := le_bytes 32 11.
Definition ref_node : NodeId := from_public_key (ed_public ref_key).
Definition ref_draft : EnvelopeDraft :=
  mkDraft "evt-1" 1 (mkHLC 1000 0) [] (Some "work-1") None "work.created"
    (JObject [("title", JString "t")]) Standard None.
Definition ref_sealed : MeshEnvelope :=
  match seal ref_node ref_key ref_draft with
  | Ok e => e
  | Err _ => mkEnvelope 0 "" "" 0 (mkHLC 0 0) [] None None "" JNull Standard None ""
  end.

Lemma ref_sealed_typed : envelope_typed ref_sealed.
Proof.
  constructor; lazymatch goal with
  | |- Forall _ _ => replace (me_causal_parents ref_sealed) with (@nil string)
                       by (vm_compute; reflexivity); constructor
  | _ => vm_compute; try reflexivity; try exact I; repeat split; congruence
  end.
Qed.

Lemma open_is_tamper_evident_witness :
  same_content ref_sealed ref_sealed ∨
  (∃ signature, from_hex 64 (me_signature ref_sealed) "signature" = Return (Ok signature) ∧
     signing_digest ref_sealed ≠ signing_digest ref_sealed ∧
     ed_verify (ed_public ref_key) (signing_digest ref_sealed) signature = true ∧
     (me_signature ref_sealed = me_signature ref_sealed →
      signature = ed_sign ref_key (signing_digest ref_sealed))) ∨
  digests_collide (signing_preimage ref_sealed) (signing_preimage ref_sealed).
Proof.
  apply (open_is_tamper_evident ref_node ref_key ref_draft);
    [vm_compute; reflexivity|exact ref_sealed_typed..|vm_compute; reflexivity].
Defined.

Lemma chain_tip_commits_witness :
  Forall2 same_envelope [ref_sealed] [ref_sealed] ∨
  (∃ e e', e ∈ [ref_sealed] ∧ e' ∈ [ref_sealed] ∧ envelopes_collide e e').
Proof.
  apply chain_tip_commits;
    [done|done|apply Forall_singleton, ref_sealed_typed..|reflexivity].
Defined.

Definition ref_enrolment : NodeEnrolment :=
  mkEnrolment "inst-1" " Laptop " Linux FullNode "2026-01-01T00:00:00Z".

Lemma enrolment_is_stable_witness :
  ∃ d', establish_in (mkDisk ∅ false None) (mkMemory ∅ false) ["home"] ref_enrolment ref_key =
      (d', mkMemory (<[from_public_key (ed_public ref_key) := to_hex ref_key]> ∅) false, Ok (new_node ref_enrolment ref_key)) ∧
    load_from d' ["home"] = Ok (Some (new_node ref_enrolment ref_key)).
Proof.
  destruct (enrolment_is_stable (mkDisk ∅ false None) (mkMemory ∅ false)
    (mkMemory (<[from_public_key (ed_public ref_key) := to_hex ref_key]> ∅) false) ["home"] ref_enrolment ref_key)
    as (d' & H1 & H2 & _); [reflexivity|vm_compute; reflexivity|reflexivity|reflexivity|vm_compute; reflexivity|]. exists d'. split; [exact H1|exact H2].
Defined.

Example ref_display_name : mn_display_name (new_node ref_enrolment ref_key) = "Laptop".
Proof. vm_compute. reflexivity. Qed.

Lemma seal_opens_witness :
  ∃ e, seal ref_node ref_key ref_draft = Ok e ∧
    open_envelope e ref_node (ed_public ref_key) = Return (Ok tt).
Proof.
  pose proof (seal_opens ref_node ref_key ref_draft) as Hs. revert Hs.
  generalize (seal ref_node ref_key ref_draft). intros [e|e] Hs.
  - exists e. split; [reflexivity|exact (proj1 (proj2 Hs))].
  - destruct Hs as [Hne _]. destruct (Hne eq_refl).
Defined.

(** A write torn after five bytes: the record is damaged, the key is stored. *)
Lemma no_record_without_key_witness :
  ∃ d' keys' r,
    establish_in (mkDisk ∅ false (Some (Torn 5))) (mkMemory ∅ false)
      ["home"] ref_enrolment ref_key = (d', keys', r) ∧
    (d' ≠ mkDisk ∅ false (Some (Torn 5)) →
     ks_load keys' (from_public_key (ed_public ref_key)) = Ok (Some (to_hex ref_key))).
Proof.
  pose proof (no_record_without_key (mkDisk ∅ false (Some (Torn 5))) (mkMemory ∅ false)
                ["home"] ref_enrolment ref_key) as Hk. revert Hk.
  generalize (establish_in (mkDisk ∅ false (Some (Torn 5))) (mkMemory ∅ false)
                ["home"] ref_enrolment ref_key). intros [[d' keys'] r] Hk.
  exists d', keys', r. split; [reflexivity|exact (proj1 Hk)].
Defined.
