(* ===== verification/Framing.v ===== *)
(** * Newline framing of stream files

    Every stream of the evidence root is a file of newline-terminated lines,
    possibly followed by an unterminated tail.  [frames] takes a file apart into
    its complete lines and its tail, [unframe] puts it together again. *)

From stdpp Require Import base sets strings numbers list.
From Stdlib Require Import Ascii.
From S2P Require Import Prelude.
#[local] Open Scope nat_scope.

Fixpoint frames (s : bytes) : list bytes * bytes :=
  match s with
  | [] => ([], [])
  | a :: s' =>
      let '(ls, t) := frames s' in
      if bool_decide (a = newline) then ([] :: ls, t)
      else match ls with [] => ([], a :: t) | l :: ls' => ((a :: l) :: ls', t) end
  end.

Definition terminated (l : bytes) : bytes := l ++ [newline].

Definition unframe (ls : list bytes) (t : bytes) : bytes := concat (map terminated ls) ++ t.

(** A line has no newline of its own. *)
Definition line_ok (l : bytes) : Prop := newline ∉ l.

Lemma unframe_nil t : unframe [] t = t.
Proof. done. Qed.

Lemma unframe_cons l ls t : unframe (l :: ls) t = l ++ newline :: unframe ls t.
Proof. unfold unframe, terminated. simpl. by rewrite <- !app_assoc. Qed.

Lemma unframe_app ls ls' t : unframe (ls ++ ls') t = unframe ls [] ++ unframe ls' t.
Proof. unfold unframe. by rewrite map_app, concat_app, app_nil_r, app_assoc. Qed.

Lemma unframe_snoc ls l t : unframe (ls ++ [l]) t = unframe ls [] ++ l ++ newline :: t.
Proof. by rewrite unframe_app, unframe_cons, unframe_nil. Qed.

Lemma unframe_tail ls t : unframe ls t = unframe ls [] ++ t.
Proof. unfold unframe. by rewrite app_nil_r. Qed.

Lemma unframe_frames s : unframe (frames s).1 (frames s).2 = s.
Proof.
  induction s as [|a s IH]; [done|]. simpl. destruct (frames s) as [ls t]. simpl in IH.
  case_bool_decide as Ha.
  - subst a. simpl. by rewrite unframe_cons, IH.
  - destruct ls as [|l ls]; simpl; [by rewrite unframe_nil in *; subst|].
    rewrite unframe_cons in *. simpl. by rewrite IH.
Qed.

Lemma frames_ok s : Forall line_ok (frames s).1 ∧ line_ok (frames s).2.
Proof.
  unfold line_ok. induction s as [|a s [IH1 IH2]]; simpl; [split; [constructor|set_solver]|].
  destruct (frames s) as [ls t]. simpl in *. case_bool_decide; simpl.
  - split; [|done]. constructor; [set_solver|done].
  - destruct ls as [|l ls]; simpl; [split; [done|set_solver]|].
    apply Forall_cons_iff in IH1 as [? ?]. split; [|done]. constructor; [set_solver|done].
Qed.

Lemma frames_tail t : line_ok t → frames t = ([], t).
Proof.
  unfold line_ok. induction t as [|a t IH]; intros Ht; [done|]. simpl.
  rewrite IH by set_solver. by rewrite bool_decide_false by set_solver.
Qed.

Lemma frames_line l s : line_ok l → frames (l ++ newline :: s) = (l :: (frames s).1, (frames s).2).
Proof.
  unfold line_ok. induction l as [|a l IH]; intros Hl; simpl.
  - by destruct (frames s).
  - rewrite IH by set_solver. by rewrite bool_decide_false by set_solver.
Qed.

Lemma frames_unframe ls t : Forall line_ok ls → line_ok t → frames (unframe ls t) = (ls, t).
Proof.
  induction 1 as [|l ls Hl _ IH]; intros Ht; [by apply frames_tail|].
  by rewrite unframe_cons, frames_line, IH.
Qed.

Lemma unframe_inj ls t ls' t' :
  Forall line_ok ls → line_ok t → Forall line_ok ls' → line_ok t' →
  unframe ls t = unframe ls' t' → ls = ls' ∧ t = t'.
Proof.
  intros ? ? ? ? Heq. apply (f_equal frames) in Heq. rewrite !frames_unframe in Heq by done.
  by simplify_eq.
Qed.

(** Every file is some lines and a tail. *)
Lemma file_framed s : ∃ ls t, s = unframe ls t ∧ Forall line_ok ls ∧ line_ok t.
Proof.
  destruct (frames_ok s) as [? ?]. exists (frames s).1, (frames s).2. by rewrite unframe_frames.
Qed.

Lemma unframe_length ls t :
  length (unframe ls t) = length (unframe ls []) + length t.
Proof. by rewrite unframe_tail, length_app. Qed.

Lemma unframe_length_ge ls t : length ls ≤ length (unframe ls t).
Proof.
  induction ls as [|l ls IH]; [simpl; lia|]. rewrite unframe_cons, length_app. simpl. lia.
Qed.

(** ** Positions of newlines *)

(** [iter().position(|b| *b == b'\n')]. *)
Fixpoint position_newline (s : bytes) : option nat :=
  match s with
  | [] => None
  | a :: s' => if bool_decide (a = newline) then Some 0 else S <$> position_newline s'
  end.

(** [iter().rposition(|b| *b == b'\n')]. *)
Fixpoint rposition_newline (s : bytes) : option nat :=
  match s with
  | [] => None
  | a :: s' =>
      match rposition_newline s' with
      | Some i => Some (S i)
      | None => if bool_decide (a = newline) then Some 0 else None
      end
  end.

Lemma position_newline_None s : position_newline s = None ↔ newline ∉ s.
Proof.
  induction s as [|a s IH]; simpl; [set_solver|].
  case_bool_decide; [split; [done|set_solver]|].
  rewrite fmap_None, IH. set_solver.
Qed.

Lemma position_newline_line l s : line_ok l → position_newline (l ++ newline :: s) = Some (length l).
Proof.
  unfold line_ok. induction l as [|a l IH]; intros Hl; simpl; [done|].
  rewrite bool_decide_false by set_solver. by rewrite IH by set_solver.
Qed.

Lemma rposition_newline_None s : rposition_newline s = None ↔ newline ∉ s.
Proof.
  induction s as [|a s IH]; simpl; [set_solver|].
  destruct (rposition_newline s) as [i|]; [split; [done|set_solver]|].
  case_bool_decide; [split; [done|set_solver]|]. set_solver.
Qed.

Lemma rposition_newline_Some s i :
  rposition_newline s = Some i ↔ ∃ a b, s = a ++ newline :: b ∧ length a = i ∧ newline ∉ b.
Proof.
  split.
  - revert i. induction s as [|a s IH]; intros i; simpl; [done|].
    destruct (rposition_newline s) as [k|] eqn:E.
    + intros [= <-]. destruct (IH k eq_refl) as (x & y & -> & <- & ?). by exists (a :: x), y.
    + case_bool_decide; [|done]. intros [= <-]. subst a. exists [], s. split_and!; [done..|].
      by apply rposition_newline_None.
  - intros (a & b & -> & <- & Hb). induction a as [|x a IH]; simpl.
    + rewrite (proj2 (rposition_newline_None b)) by done. done.
    + by rewrite IH.
Qed.

Lemma rposition_newline_app a b :
  rposition_newline (a ++ b) =
  match rposition_newline b with
  | Some i => Some (length a + i)
  | None => rposition_newline a
  end.
Proof.
  induction a as [|x a IH]; simpl; [by destruct (rposition_newline b)|].
  rewrite IH. by destruct (rposition_newline b).
Qed.

(** The end of the line before an unterminated one. *)
Lemma rposition_unframe ls l :
  line_ok l →
  rposition_newline (unframe ls l) =
    match length (unframe ls []) with O => None | S k => Some k end.
Proof.
  intros Hl. rewrite unframe_tail, rposition_newline_app, (proj2 (rposition_newline_None l)) by done.
  destruct ls as [|l0 ls _] using rev_ind; [done|].
  rewrite unframe_snoc, app_assoc, rposition_newline_app, !length_app. simpl.
  by rewrite Nat.add_0_r, Nat.add_1_r.
Qed.
