(* ===== verification/OperatorEvent.v ===== *)
(** * The operator event contract (crates/heiwa_evidence/src/operator.rs)

    The record type every operator-facing change is appended as, with its
    derived serialization. *)

From stdpp Require Import base gmap sets strings numbers list.
From Stdlib Require Import Ascii.
From S2P Require Import Prelude Json.
#[local] Open Scope Z_scope.

Definition OPERATOR_EVENT_SCHEMA_VERSION : Z := 1.

Record OperatorActor : Type := mkActor { actor_kind : string; actor_id : string }.

Inductive OperatorRisk : Type := RiskLow | RiskMedium | RiskHigh | RiskCritical.
Inductive OperatorSensitivity : Type := PublicSafe | LocalPrivate | Restricted.

Inductive OperatorEventType : Type :=
| ThreadCreated
| ProjectCreated
| ProjectMetadataUpdated
| ThreadMetadataUpdated
| TurnStarted
| UserMessage
| RoutePlanned
| RouteAttempted
| RouteCompleted
| RouteFailed
| AssistantStarted
| AssistantCompleted
| ToolCallStarted
| ToolCallCompleted
| ApprovalRequested
| ApprovalDecided
| ArtifactCreated
| TestResult
| ReceiptLinked
| Blocker
| TurnCompleted
| TurnCancelRequested
| TurnInterrupted
| LegacySessionImported
| WorkCreated
| WorkLinked
| WorkspacePrepared
| WorkspaceReleased
| WorkerLaunched
| WorkerHeartbeat
| WorkerExited
| WorkerStale
| PaneOpened
| PaneClosed.

#[export] Instance actor_eq_dec : EqDecision OperatorActor.
Proof. solve_decision. Defined.
#[export] Instance risk_eq_dec : EqDecision OperatorRisk.
Proof. solve_decision. Defined.
#[export] Instance sensitivity_eq_dec : EqDecision OperatorSensitivity.
Proof. solve_decision. Defined.
#[export] Instance event_type_eq_dec : EqDecision OperatorEventType.
Proof. solve_decision. Defined.

Record OperatorEvent : Type := mkEvent {
  schema_version : Z;
  event_id : string;
  thread_id : string;
  turn_id : option string;
  run_id : option string;
  call_id : option string;
  work_id : option string;
  event_type : OperatorEventType;
  occurred_at : string;
  actor : OperatorActor;
  risk_class : OperatorRisk;
  sensitivity : OperatorSensitivity;
  parent_event_id : option string;
  correlation_id : option string;
  source_refs : list string;
  evidence_refs : list string;
  payload : json;
}.

(** ** Serialization *)

Definition risk_text (r : OperatorRisk) : string :=
  match r with
  | RiskLow => "low" | RiskMedium => "medium" | RiskHigh => "high" | RiskCritical => "critical"
  end.

Definition sensitivity_text (s : OperatorSensitivity) : string :=
  match s with
  | PublicSafe => "public_safe" | LocalPrivate => "local_private" | Restricted => "restricted"
  end.

Definition event_type_text (t : OperatorEventType) : string :=
  match t with
  | ThreadCreated => "thread_created"
  | ProjectCreated => "project_created"
  | ProjectMetadataUpdated => "project_metadata_updated"
  | ThreadMetadataUpdated => "thread_metadata_updated"
  | TurnStarted => "turn_started"
  | UserMessage => "user_message"
  | RoutePlanned => "route_planned"
  | RouteAttempted => "route_attempted"
  | RouteCompleted => "route_completed"
  | RouteFailed => "route_failed"
  | AssistantStarted => "assistant_started"
  | AssistantCompleted => "assistant_completed"
  | ToolCallStarted => "tool_call_started"
  | ToolCallCompleted => "tool_call_completed"
  | ApprovalRequested => "approval_requested"
  | ApprovalDecided => "approval_decided"
  | ArtifactCreated => "artifact_created"
  | TestResult => "test_result"
  | ReceiptLinked => "receipt_linked"
  | Blocker => "blocker"
  | TurnCompleted => "turn_completed"
  | TurnCancelRequested => "turn_cancel_requested"
  | TurnInterrupted => "turn_interrupted"
  | LegacySessionImported => "legacy_session_imported"
  | WorkCreated => "work_created"
  | WorkLinked => "work_linked"
  | WorkspacePrepared => "workspace_prepared"
  | WorkspaceReleased => "workspace_released"
  | WorkerLaunched => "worker_launched"
  | WorkerHeartbeat => "worker_heartbeat"
  | WorkerExited => "worker_exited"
  | WorkerStale => "worker_stale"
  | PaneOpened => "pane_opened"
  | PaneClosed => "pane_closed"
  end.

Definition all_event_types : list OperatorEventType :=
  [ThreadCreated; ProjectCreated; ProjectMetadataUpdated; ThreadMetadataUpdated; TurnStarted;
   UserMessage; RoutePlanned; RouteAttempted; RouteCompleted; RouteFailed; AssistantStarted;
   AssistantCompleted; ToolCallStarted; ToolCallCompleted; ApprovalRequested; ApprovalDecided;
   ArtifactCreated; TestResult; ReceiptLinked; Blocker; TurnCompleted; TurnCancelRequested;
   TurnInterrupted; LegacySessionImported; WorkCreated; WorkLinked; WorkspacePrepared;
   WorkspaceReleased; WorkerLaunched; WorkerHeartbeat; WorkerExited; WorkerStale; PaneOpened;
   PaneClosed].

Definition encode_actor (a : OperatorActor) : json :=
  JObject [("kind", JString (actor_kind a)); ("id", JString (actor_id a))].

Definition encode_event (e : OperatorEvent) : json :=
  JObject
    ([("schema_version", JNumber (PosInt (schema_version e)));
      ("event_id", JString (event_id e));
      ("thread_id", JString (thread_id e));
      ("turn_id", json_opt_str (turn_id e));
      ("run_id", json_opt_str (run_id e));
      ("call_id", json_opt_str (call_id e))] ++
     match work_id e with Some w => [("work_id", JString w)] | None => [] end ++
     [("event_type", JString (event_type_text (event_type e)));
      ("occurred_at", JString (occurred_at e));
      ("actor", encode_actor (actor e));
      ("risk_class", JString (risk_text (risk_class e)));
      ("sensitivity", JString (sensitivity_text (sensitivity e)));
      ("parent_event_id", json_opt_str (parent_event_id e));
      ("correlation_id", json_opt_str (correlation_id e));
      ("source_refs", JArray (map JString (source_refs e)));
      ("evidence_refs", JArray (map JString (evidence_refs e)));
      ("payload", payload e)]).

Definition decode_actor (doc : json) : option OperatorActor :=
  m ← struct_view ["kind"; "id"] doc;
  kind ← field_string m "kind";
  id ← field_string m "id";
  Some (mkActor kind id).

Definition event_fields : list string :=
  ["schema_version"; "event_id"; "thread_id"; "turn_id"; "run_id"; "call_id"; "work_id";
   "event_type"; "occurred_at"; "actor"; "risk_class"; "sensitivity"; "parent_event_id";
   "correlation_id"; "source_refs"; "evidence_refs"; "payload"].

Definition decode_event (doc : json) : option OperatorEvent :=
  m ← struct_view event_fields doc;
  v ← obj_get "schema_version" m ≫= as_uint u32_max;
  eid ← field_string m "event_id";
  tid ← field_string m "thread_id";
  turn ← field_option as_str m "turn_id";
  run ← field_option as_str m "run_id";
  call ← field_option as_str m "call_id";
  work ← field_option as_str m "work_id";
  ty ← obj_get "event_type" m ≫= decode_variant event_type_text all_event_types;
  at_ ← field_string m "occurred_at";
  act ← obj_get "actor" m ≫= decode_actor;
  risk ← obj_get "risk_class" m ≫=
    decode_variant risk_text [RiskLow; RiskMedium; RiskHigh; RiskCritical];
  sens ← obj_get "sensitivity" m ≫=
    decode_variant sensitivity_text [PublicSafe; LocalPrivate; Restricted];
  parent ← field_option as_str m "parent_event_id";
  corr ← field_option as_str m "correlation_id";
  srcs ← obj_get "source_refs" m ≫= as_list as_str;
  evs ← obj_get "evidence_refs" m ≫= as_list as_str;
  pay ← value_of <$> obj_get "payload" m;
  Some (mkEvent v eid tid turn run call work ty at_ act risk sens parent corr srcs evs pay).

(** ** Lemmas *)

(** Every variant is found by its own name, so decoding inverts the rename. *)
Lemma decode_event_type t :
  decode_variant event_type_text all_event_types (JString (event_type_text t)) = Some t.
Proof. by destruct t. Qed.

Lemma mapM_as_str l : mapM as_str (map JString l) = Some l.
Proof. induction l as [|s l IH]; simpl; [done|]. by rewrite IH. Qed.

Lemma field_option_str m k o :
  obj_get k m = Some (json_opt_str o) → field_option as_str m k = Some o.
Proof. unfold field_option. intros ->. by destruct o. Qed.

Lemma decode_risk r :
  decode_variant risk_text [RiskLow; RiskMedium; RiskHigh; RiskCritical]
    (JString (risk_text r)) = Some r.
Proof. by destruct r. Qed.

Lemma decode_sensitivity r :
  decode_variant sensitivity_text [PublicSafe; LocalPrivate; Restricted]
    (JString (sensitivity_text r)) = Some r.
Proof. by destruct r. Qed.

(** The members of an encoded event, as the decoder reads them. *)
Record event_members (e : OperatorEvent) (m : list (string * json)) : Prop := {
  em_version : obj_get "schema_version" m = Some (JNumber (PosInt (schema_version e)));
  em_event_id : obj_get "event_id" m = Some (JString (event_id e));
  em_thread_id : obj_get "thread_id" m = Some (JString (thread_id e));
  em_turn_id : obj_get "turn_id" m = Some (json_opt_str (turn_id e));
  em_run_id : obj_get "run_id" m = Some (json_opt_str (run_id e));
  em_call_id : obj_get "call_id" m = Some (json_opt_str (call_id e));
  em_work_id : obj_get "work_id" m = JString <$> work_id e;
  em_type : obj_get "event_type" m = Some (JString (event_type_text (event_type e)));
  em_at : obj_get "occurred_at" m = Some (JString (occurred_at e));
  em_actor : obj_get "actor" m ≫= decode_actor = Some (actor e);
  em_risk : obj_get "risk_class" m = Some (JString (risk_text (risk_class e)));
  em_sens : obj_get "sensitivity" m = Some (JString (sensitivity_text (sensitivity e)));
  em_parent : obj_get "parent_event_id" m = Some (json_opt_str (parent_event_id e));
  em_corr : obj_get "correlation_id" m = Some (json_opt_str (correlation_id e));
  em_srcs : obj_get "source_refs" m = Some (JArray (map JString (source_refs e)));
  em_evs : obj_get "evidence_refs" m = Some (JArray (map JString (evidence_refs e)));
  em_payload : obj_get "payload" m = Some (payload e);
}.

Lemma decode_event_members e doc m :
  struct_view event_fields doc = Some m → event_members e m →
  0 ≤ schema_version e ≤ u32_max → value_of (payload e) = payload e →
  decode_event doc = Some e.
Proof.
  intros Hs [] Hv Hp. unfold decode_event, field_string. rewrite Hs. simpl.
  rewrite em_version0, em_event_id0, em_thread_id0. simpl. unfold as_uint. simpl.
  rewrite bool_decide_true by lia. simpl.
  rewrite (field_option_str _ _ _ em_turn_id0), (field_option_str _ _ _ em_run_id0),
    (field_option_str _ _ _ em_call_id0). simpl.
  assert (field_option as_str m "work_id" = Some (work_id e)) as ->
    by (unfold field_option; rewrite em_work_id0; by destruct (work_id e)).
  simpl. rewrite em_type0. cbn [mbind option_bind]. rewrite decode_event_type. simpl.
  rewrite em_at0. simpl. rewrite em_actor0. simpl. rewrite em_risk0, em_sens0. simpl.
  rewrite decode_risk, decode_sensitivity. simpl.
  rewrite (field_option_str _ _ _ em_parent0), (field_option_str _ _ _ em_corr0). simpl.
  rewrite em_srcs0, em_evs0, em_payload0. simpl. rewrite !mapM_as_str. simpl. rewrite Hp.
  by destruct e.
Qed.

(** The [Value] of an encoded event, as [serde_json::to_value] builds it. *)
Definition event_value (e : OperatorEvent) : json := value_of (encode_event e).

Definition event_doc_fields (e : OperatorEvent) : list (string * json) :=
  match encode_event e with JObject m => m | _ => [] end.

Lemma event_doc_fields_eq e : encode_event e = JObject (event_doc_fields e).
Proof. done. Qed.

Lemma event_doc_members e : event_members e (event_doc_fields e).
Proof.
  unfold event_doc_fields, encode_event.
  destruct e as [v eid tid turn run call work ty at_ act risk sens par cor srcs evs pay].
  destruct work, act; split; reflexivity.
Qed.

Lemma event_doc_actor e : obj_get "actor" (event_doc_fields e) = Some (encode_actor (actor e)).
Proof. unfold event_doc_fields, encode_event. by destruct (work_id e). Qed.

Lemma event_doc_keys e : NoDup (event_doc_fields e).*1.
Proof.
  unfold event_doc_fields, encode_event. destruct (work_id e);
    (eapply bool_decide_unpack; vm_compute; exact I).
Qed.

(** Decoding inverts the derived encoding, for a payload that is a [Value]. *)
Lemma decode_encode_event e :
  0 ≤ schema_version e ≤ u32_max → value_of (payload e) = payload e →
  decode_event (encode_event e) = Some e.
Proof.
  intros Hv Hp. rewrite event_doc_fields_eq.
  eapply decode_event_members; [apply struct_view_NoDup, event_doc_keys|..]; try done.
  apply event_doc_members.
Qed.

Lemma value_of_json_opt_str o : value_of (json_opt_str o) = json_opt_str o.
Proof. by destruct o. Qed.

Lemma value_of_strings l : value_of (JArray (map JString l)) = JArray (map JString l).
Proof. simpl. f_equal. rewrite map_map. by apply map_ext. Qed.

Lemma event_value_members e :
  value_of (payload e) = payload e →
  ∃ m, event_value e = JObject m ∧ NoDup m.*1 ∧ event_members e m.
Proof.
  intros Hp. set (fs := map (λ kv, (kv.1, value_of kv.2)) (event_doc_fields e)).
  assert (fs.*1 = (event_doc_fields e).*1) as Hk.
  { unfold fs. rewrite <- list_fmap_compose. done. }
  assert (NoDup fs.*1) as Hnd by (rewrite Hk; apply event_doc_keys).
  exists (object_fields fs). split; [done|]. split.
  { by rewrite object_fields_perm. }
  assert (∀ k, obj_get k (object_fields fs) = value_of <$> obj_get k (event_doc_fields e)) as Hg.
  { intros k. rewrite obj_get_object_fields by done. apply obj_get_map. }
  destruct (event_doc_members e). split; rewrite Hg.
  all: repeat match goal with
       | H : obj_get ?k (event_doc_fields ?x) = _ |- context [obj_get ?k (event_doc_fields ?x)] =>
           rewrite H
       end.
  all: try rewrite event_doc_actor; cbn [fmap option_fmap option_map];
    rewrite ?value_of_json_opt_str, ?value_of_strings, ?Hp; try done.
  - by destruct (work_id e).
  - by destruct (actor e).
Qed.

Lemma decode_event_value e :
  0 ≤ schema_version e ≤ u32_max → value_of (payload e) = payload e →
  decode_event (event_value e) = Some e.
Proof.
  intros Hv Hp. destruct (event_value_members e Hp) as (m & -> & Hnd & Hm).
  by eapply decode_event_members; [apply struct_view_NoDup|..].
Qed.
