(* ===== verification/RoutePolicy.v ===== *)
(** * Turn routing constraints (crates/heiwa_session/src/operator.rs)

    [TurnRoutePolicy] with its normalization and derived serialization.  A
    64-bit float is kept as its IEEE 754 bits. *)

From stdpp Require Import base gmap sets strings numbers sorting list.
From Stdlib Require Import Ascii.
From S2P Require Import Prelude Json OperatorEvent.
#[local] Open Scope Z_scope.

(** ** Policies *)

Inductive RouteMode : Type := RouteAuto | RouteLocalOnly | RouteRemoteOnly | RouteExplicit.

#[export] Instance route_mode_eq_dec : EqDecision RouteMode.
Proof. solve_decision. Defined.

Definition route_mode_text (m : RouteMode) : string :=
  match m with
  | RouteAuto => "auto" | RouteLocalOnly => "local_only"
  | RouteRemoteOnly => "remote_only" | RouteExplicit => "explicit"
  end.

Record TurnRoutePolicy : Type := mkPolicy {
  rp_mode : RouteMode;
  rp_preferred_provider : option string;
  rp_preferred_model : option string;
  rp_allowed_models : list string;
  rp_excluded_models : list string;
  rp_minimum_quality_class : Z;
  rp_maximum_marginal_cost_usd : option Z;
  rp_turn_budget_usd : option Z;
  rp_privacy : string;
}.

(** [Vec::dedup]: of each run of equal neighbours, the first. *)
Fixpoint dedup (l : list string) : list string :=
  match l with
  | [] => []
  | x :: l' =>
      match dedup l' with
      | [] => [x]
      | y :: r => if bool_decide (x = y) then y :: r else x :: y :: r
      end
  end.

Definition normalized_optional (value : option string) : option string :=
  match value with
  | Some v => let t := trim v in if bool_decide (t = "") then None else Some t
  | None => None
  end.

Definition normalized_models (values : list string) : list string :=
  dedup (merge_sort String.le (filter (λ v, v ≠ "") (map trim values))).

Definition normalized_zero (b : Z) : Z := if f64_is_zero b then 0 else b.

(** [str::to_ascii_lowercase]. *)
Definition ascii_lower (a : ascii) : ascii :=
  let v := byte_val a in if bool_decide (65 ≤ v ∧ v ≤ 90) then byte_of (v + 32) else a.

Definition to_ascii_lowercase (s : string) : string :=
  String.string_of_list_ascii (map ascii_lower (as_bytes s)).

(** [TurnRoutePolicy::normalized]. *)
Definition normalized (self : TurnRoutePolicy) : TurnRoutePolicy :=
  mkPolicy (rp_mode self)
    (normalized_optional (rp_preferred_provider self))
    (normalized_optional (rp_preferred_model self))
    (normalized_models (rp_allowed_models self))
    (normalized_models (rp_excluded_models self))
    (rp_minimum_quality_class self)
    (normalized_zero <$> rp_maximum_marginal_cost_usd self)
    (normalized_zero <$> rp_turn_budget_usd self)
    (to_ascii_lowercase (trim (rp_privacy self))).

Definition opt_f64_eqb (a b : option Z) : bool :=
  match a, b with
  | None, None => true
  | Some a, Some b => f64_eqb a b
  | _, _ => false
  end.

(** The derived [PartialEq] of [TurnRoutePolicy]. *)
Definition policy_eqb (a b : TurnRoutePolicy) : bool :=
  bool_decide (rp_mode a = rp_mode b) &&
  bool_decide (rp_preferred_provider a = rp_preferred_provider b) &&
  bool_decide (rp_preferred_model a = rp_preferred_model b) &&
  bool_decide (rp_allowed_models a = rp_allowed_models b) &&
  bool_decide (rp_excluded_models a = rp_excluded_models b) &&
  bool_decide (rp_minimum_quality_class a = rp_minimum_quality_class b) &&
  opt_f64_eqb (rp_maximum_marginal_cost_usd a) (rp_maximum_marginal_cost_usd b) &&
  opt_f64_eqb (rp_turn_budget_usd a) (rp_turn_budget_usd b) &&
  bool_decide (rp_privacy a = rp_privacy b).

Definition encode_policy (p : TurnRoutePolicy) : json :=
  JObject [("mode", JString (route_mode_text (rp_mode p)));
           ("preferred_provider", json_opt_str (rp_preferred_provider p));
           ("preferred_model", json_opt_str (rp_preferred_model p));
           ("allowed_models", JArray (map JString (rp_allowed_models p)));
           ("excluded_models", JArray (map JString (rp_excluded_models p)));
           ("minimum_quality_class", JNumber (PosInt (rp_minimum_quality_class p)));
           ("maximum_marginal_cost_usd",
            default JNull (f64_json <$> rp_maximum_marginal_cost_usd p));
           ("turn_budget_usd", default JNull (f64_json <$> rp_turn_budget_usd p));
           ("privacy", JString (rp_privacy p))].

Definition decode_policy (doc : json) : option TurnRoutePolicy :=
  m ← struct_view ["mode"; "preferred_provider"; "preferred_model"; "allowed_models";
                   "excluded_models"; "minimum_quality_class"; "maximum_marginal_cost_usd";
                   "turn_budget_usd"; "privacy"] doc;
  mode ← obj_get "mode" m ≫=
    decode_variant route_mode_text [RouteAuto; RouteLocalOnly; RouteRemoteOnly; RouteExplicit];
  provider ← field_option as_str m "preferred_provider";
  model ← field_option as_str m "preferred_model";
  allowed ← obj_get "allowed_models" m ≫= as_list as_str;
  excluded ← obj_get "excluded_models" m ≫= as_list as_str;
  quality ← obj_get "minimum_quality_class" m ≫= as_uint 255;
  cost ← field_option as_f64 m "maximum_marginal_cost_usd";
  budget ← field_option as_f64 m "turn_budget_usd";
  privacy ← field_string m "privacy";
  Some (mkPolicy mode provider model allowed excluded quality cost budget privacy).

(** [StartTurnRequest]. *)
Record StartTurnRequest : Type := mkRequest {
  st_client_request_id : string;
  st_prompt : string;
  st_route_policy : TurnRoutePolicy;
  st_work_id : option string;
}.

(** [StartTurnRequest::auto]. *)
Definition request_auto (client_request_id prompt : string) : StartTurnRequest :=
  mkRequest client_request_id prompt
    (mkPolicy RouteAuto None None [] [] 1 None None "standard") None.

(** ** Lemmas *)

Lemma normalized_optional_idem o :
  normalized_optional (normalized_optional o) = normalized_optional o.
Proof.
  destruct o as [v|]; simpl; [|done]. case_bool_decide as Ht; simpl; [done|].
  by rewrite trim_idem, bool_decide_false.
Qed.

Lemma dedup_head l : head (dedup l) = head l.
Proof.
  induction l as [|x l IH]; simpl; [done|].
  destruct (dedup l) as [|y r]; [done|]. by case_bool_decide; subst.
Qed.

Lemma dedup_subseteq l x : x ∈ dedup l → x ∈ l.
Proof.
  induction l as [|y l IH]; simpl; [done|].
  destruct (dedup l) as [|z r]; [set_solver|]. case_bool_decide; subst; set_solver.
Qed.

Lemma dedup_sorted l : StronglySorted String.le l → StronglySorted String.le (dedup l).
Proof.
  induction 1 as [|x l Hs IH Hall]; simpl; [constructor|].
  destruct (dedup l) as [|y r] eqn:E; [by repeat constructor|].
  case_bool_decide; [done|]. constructor; [done|]. rewrite <- E.
  rewrite Forall_forall in *. intros z Hz. apply Hall. by apply dedup_subseteq.
Qed.

Lemma dedup_idem l : dedup (dedup l) = dedup l.
Proof.
  induction l as [|x l IH]; simpl; [done|].
  destruct (dedup l) as [|y r] eqn:E; [done|]. case_bool_decide as Hxy; [done|].
  cbn [dedup]. cbn [dedup] in IH. rewrite IH. by rewrite bool_decide_false.
Qed.

(** The values that trimming leaves alone. *)
Definition trimmed (v : string) : Prop := trim v = v ∧ v ≠ "".

Lemma filter_trimmed l : Forall trimmed l → filter (λ v, v ≠ "") (map trim l) = l.
Proof.
  induction 1 as [|v l [Ht Hne] Hl IH]; simpl; [done|].
  rewrite Ht, filter_cons_True by done. by rewrite IH.
Qed.

Lemma normalized_models_trimmed l : Forall trimmed (normalized_models l).
Proof.
  apply Forall_forall. intros v Hv%dedup_subseteq. rewrite merge_sort_Permutation in Hv.
  apply list_elem_of_filter in Hv as [Hne Hv]. change (map trim l) with (trim <$> l) in Hv.
  apply list_elem_of_fmap in Hv as (w & -> & _). split; [apply trim_idem|done].
Qed.

Lemma normalized_models_idem l : normalized_models (normalized_models l) = normalized_models l.
Proof.
  unfold normalized_models at 1. rewrite filter_trimmed by apply normalized_models_trimmed.
  rewrite merge_sort_sorted; [apply dedup_idem|].
  apply dedup_sorted, (StronglySorted_merge_sort String.le).
Qed.

Lemma normalized_models_perm l l' : l ≡ₚ l' → normalized_models l = normalized_models l'.
Proof.
  intros Hp. unfold normalized_models. f_equal. apply merge_sort_perm.
  by rewrite (Permutation_map trim Hp).
Qed.

Lemma normalized_zero_idem b : normalized_zero (normalized_zero b) = normalized_zero b.
Proof. unfold normalized_zero. destruct (f64_is_zero b) eqn:E; [done|]. by rewrite E. Qed.

(** Lower-casing moves no whitespace byte, so it commutes with being trimmed. *)
Definition ws_byte (c : ascii) : bool :=
  negb (bool_decide (65 ≤ byte_val c ∧ byte_val c ≤ 90)) &&
  negb (bool_decide (97 ≤ byte_val c ∧ byte_val c ≤ 122)).

Lemma whitespace_bytes :
  Forall (Forall (λ c, ws_byte c = true)) whitespace ∧
  Forall (Forall (λ c, ws_byte c = true)) (map reverse whitespace).
Proof. split; apply (bool_decide_unpack _); vm_compute; exact I. Qed.

Lemma ascii_lower_ws a c : ws_byte c = true → ascii_lower a = c → a = c.
Proof.
  unfold ws_byte, ascii_lower. intros Hc Hl. case_bool_decide as Ha; [|done]. exfalso. subst.
  rewrite byte_val_of, Z.mod_small in Hc by lia.
  apply andb_true_iff in Hc as [_ Hc]. rewrite bool_decide_true in Hc by lia. done.
Qed.

Lemma ascii_lower_idem a : ascii_lower (ascii_lower a) = ascii_lower a.
Proof.
  unfold ascii_lower at 2 3. case_bool_decide as Ha; unfold ascii_lower.
  - rewrite byte_val_of, Z.mod_small by lia. by rewrite bool_decide_false by lia.
  - by rewrite bool_decide_false.
Qed.

Lemma map_lower_prefix p s r :
  Forall (λ c, ws_byte c = true) p → map ascii_lower s = p ++ r → ∃ r', s = p ++ r'.
Proof.
  intros Hp. revert s. induction Hp as [|c p Hc Hp IH]; intros s Hs; [by exists s|].
  destruct s as [|a s]; [done|]. simpl in Hs. injection Hs as Ha Hs.
  apply ascii_lower_ws in Ha as ->; [|done]. destruct (IH s Hs) as [r' ->]. by exists r'.
Qed.

Lemma strip_first_lower ps s :
  Forall (Forall (λ c, ws_byte c = true)) ps →
  strip_first ps s = None → strip_first ps (map ascii_lower s) = None.
Proof.
  rewrite !strip_first_None. intros Hps Hs p r Hp Heq.
  rewrite Forall_forall in Hps. apply map_lower_prefix in Heq as [r' ->]; [|by apply Hps].
  by eapply Hs.
Qed.

Lemma trim_lower s : trim (to_ascii_lowercase (trim s)) = to_ascii_lowercase (trim s).
Proof.
  unfold trim at 1, to_ascii_lowercase, as_bytes at 1.
  rewrite String.list_ascii_of_string_of_list_ascii. f_equal.
  destruct whitespace_bytes as [H1 H2].
  unfold trim, as_bytes. rewrite String.list_ascii_of_string_of_list_ascii.
  destruct (trim_bytes_done (String.list_ascii_of_string s)) as [D1 D2].
  apply trim_bytes_fixed; [by apply strip_first_lower|].
  change (map ascii_lower) with (fmap (M := list) ascii_lower). rewrite <- fmap_reverse.
  by apply strip_first_lower.
Qed.

Lemma to_ascii_lowercase_idem s :
  to_ascii_lowercase (to_ascii_lowercase s) = to_ascii_lowercase s.
Proof.
  unfold to_ascii_lowercase at 1 2. unfold as_bytes at 1.
  rewrite String.list_ascii_of_string_of_list_ascii, map_map.
  unfold to_ascii_lowercase. f_equal. apply map_ext, ascii_lower_idem.
Qed.

Lemma normalized_idem p : normalized (normalized p) = normalized p.
Proof.
  unfold normalized; simpl. f_equal;
    auto using normalized_optional_idem, normalized_models_idem.
  - destruct (rp_maximum_marginal_cost_usd p); simpl; by rewrite ?normalized_zero_idem.
  - destruct (rp_turn_budget_usd p); simpl; by rewrite ?normalized_zero_idem.
  - by rewrite trim_lower, to_ascii_lowercase_idem.
Qed.

(** A policy with no NaN among its amounts. *)
Definition no_nan (p : TurnRoutePolicy) : Prop :=
  ∀ b, rp_maximum_marginal_cost_usd p = Some b ∨ rp_turn_budget_usd p = Some b →
    f64_is_nan b = false.

Lemma opt_f64_eqb_normalized o :
  (∀ b, o = Some b → f64_is_nan b = false) →
  opt_f64_eqb (normalized_zero <$> o) (normalized_zero <$> o) = true.
Proof.
  destruct o as [b|]; intros Hb; [|done]. simpl. unfold f64_eqb, normalized_zero.
  destruct (f64_is_zero b); [done|]. by rewrite (Hb b), bool_decide_true.
Qed.

Lemma policy_eqb_normalized p : no_nan p → policy_eqb (normalized p) (normalized p) = true.
Proof.
  intros Hn. unfold policy_eqb. rewrite !bool_decide_true by done. simpl.
  rewrite !opt_f64_eqb_normalized; naive_solver.
Qed.

(** *** Encoding *)

(** The policies JSON represents: a [u8] quality class, finite amounts. *)
Definition policy_representable (p : TurnRoutePolicy) : Prop :=
  0 ≤ rp_minimum_quality_class p ≤ 255 ∧
  (∀ b, rp_maximum_marginal_cost_usd p = Some b ∨ rp_turn_budget_usd p = Some b →
     f64_is_finite b = true).

Lemma representable_no_nan p : policy_representable p → no_nan p.
Proof. intros [_ Hf] b Hb. by apply f64_finite_not_nan, Hf. Qed.

Lemma representable_normalized p : policy_representable p → policy_representable (normalized p).
Proof.
  intros [Hq Hf]. split; [done|]. intros b.
  assert (∀ o, (∀ b, o = Some b → f64_is_finite b = true) →
    ∀ b, normalized_zero <$> o = Some b → f64_is_finite b = true) as Ho.
  { intros [c|] Hc b' E; simplify_eq/=. unfold normalized_zero.
    destruct (f64_is_zero c); [done|auto]. }
  simpl. intros [E|E]; (eapply Ho; [|exact E]); naive_solver.
Qed.

Definition policy_doc_fields (p : TurnRoutePolicy) : list (string * json) :=
  match encode_policy p with JObject m => m | _ => [] end.

Lemma field_option_f64 m k o :
  obj_get k m = Some (default JNull (f64_json <$> o)) →
  (∀ b, o = Some b → f64_is_finite b = true) → field_option as_f64 m k = Some o.
Proof.
  unfold field_option. intros -> Hf. destruct o as [b|]; [|done]. simpl. unfold f64_json.
  by rewrite (Hf b).
Qed.

Lemma value_of_f64 o : value_of (default JNull (f64_json <$> o)) = default JNull (f64_json <$> o).
Proof. destruct o as [b|]; [|done]. simpl. unfold f64_json. by destruct (f64_is_finite b). Qed.

(** Reading back the [Value] of a policy, as [json!] and [from_value] do. *)
Lemma decode_policy_value p :
  policy_representable p → decode_policy (value_of (encode_policy p)) = Some p.
Proof.
  intros [Hq Hf]. set (fs := map (λ kv, (kv.1, value_of kv.2)) (policy_doc_fields p)).
  assert (NoDup fs.*1) as Hnd by (eapply bool_decide_unpack; vm_compute; exact I).
  assert (∀ k, obj_get k (object_fields fs) = value_of <$> obj_get k (policy_doc_fields p)) as Hg.
  { intros k. rewrite obj_get_object_fields by done. apply obj_get_map. }
  change (value_of (encode_policy p)) with (JObject (object_fields fs)).
  unfold decode_policy, field_string.
  rewrite struct_view_NoDup by (by rewrite object_fields_perm). cbn [mbind option_bind].
  rewrite (field_option_str _ "preferred_provider" (rp_preferred_provider p))
    by (rewrite Hg; exact (f_equal Some (value_of_json_opt_str (rp_preferred_provider p)))).
  rewrite (field_option_str _ "preferred_model" (rp_preferred_model p))
    by (rewrite Hg; exact (f_equal Some (value_of_json_opt_str (rp_preferred_model p)))).
  rewrite (field_option_f64 _ "maximum_marginal_cost_usd" (rp_maximum_marginal_cost_usd p));
    [|rewrite Hg; exact (f_equal Some (value_of_f64 (rp_maximum_marginal_cost_usd p)))|naive_solver].
  rewrite (field_option_f64 _ "turn_budget_usd" (rp_turn_budget_usd p));
    [|rewrite Hg; exact (f_equal Some (value_of_f64 (rp_turn_budget_usd p)))|naive_solver].
  assert (∀ k v, value_of <$> obj_get k (policy_doc_fields p) = Some v →
            obj_get k (object_fields fs) = Some v) as Hv by (intros k v; by rewrite Hg).
  rewrite (Hv "mode" (JString (route_mode_text (rp_mode p))) eq_refl).
  rewrite (Hv "allowed_models" _ (f_equal Some (value_of_strings (rp_allowed_models p)))).
  rewrite (Hv "excluded_models" _ (f_equal Some (value_of_strings (rp_excluded_models p)))).
  rewrite (Hv "minimum_quality_class" (JNumber (PosInt (rp_minimum_quality_class p))) eq_refl).
  rewrite (Hv "privacy" (JString (rp_privacy p)) eq_refl). cbn -[mapM].
  rewrite !mapM_as_str. unfold as_uint. cbn. rewrite bool_decide_true by lia. cbn.
  destruct p as [[] ? ? ? ? ? ? ? ?]; done.
Qed.

(**  Normalization is a canonical form: it is idempotent, insensitive to
    the order of the model lists, and the
    normal form of a policy with no NaN equals itself, so that a retry with the
    same policy always compares equal to the stored one. *)
Theorem normalization_is_canonical (p : TurnRoutePolicy) :
  normalized (normalized p) = normalized p ∧
  (∀ allowed excluded,
     allowed ≡ₚ rp_allowed_models p → excluded ≡ₚ rp_excluded_models p →
     normalized (mkPolicy (rp_mode p) (rp_preferred_provider p) (rp_preferred_model p)
                   allowed excluded (rp_minimum_quality_class p)
                   (rp_maximum_marginal_cost_usd p) (rp_turn_budget_usd p) (rp_privacy p))
       = normalized p) ∧
  ((∀ b, rp_maximum_marginal_cost_usd p = Some b ∨ rp_turn_budget_usd p = Some b →
      f64_is_nan b = false) →
   policy_eqb (normalized p) (normalized p) = true).
Proof.
  split_and!; [apply normalized_idem|..].
  - intros allowed excluded Ha He. unfold normalized; simpl.
    by rewrite (normalized_models_perm _ _ Ha), (normalized_models_perm _ _ He).
  - apply policy_eqb_normalized.
Qed.
