(* ===== verification/Turns.v ===== *)
(** * Turns: write-side validation and replay (crates/heiwa_session/src/operator.rs)

    The state an operator thread is folded into, [validate_event], which a
    writer applies before an append, and [apply_event], which every reader folds
    over the journal.  A [HashMap] is a [gmap], a [HashSet] a [gset]; the apply
    functions return [None] where the source returns [false], which it does
    before it has changed anything. *)

From stdpp Require Import base gmap sets strings numbers list.
From Stdlib Require Import Ascii.
From S2P Require Import Prelude Json OperatorEvent RoutePolicy.
#[local] Open Scope Z_scope.

(** ** Folded state *)

Record ApprovalKey : Type := mkApprovalKey {
  ak_call_id : string;
  ak_request_id : string;
  ak_tool : string;
}.

Record ToolKey : Type := mkToolKey { tk_call_id : string; tk_name : string }.

#[export] Instance approval_key_eq_dec : EqDecision ApprovalKey.
Proof. solve_decision. Defined.
#[export] Instance tool_key_eq_dec : EqDecision ToolKey.
Proof. solve_decision. Defined.
#[export] Instance approval_key_countable : Countable ApprovalKey.
Proof.
  refine (inj_countable' (λ k, (ak_call_id k, ak_request_id k, ak_tool k))
    (λ '(a, b, c), mkApprovalKey a b c) _). by intros [].
Defined.
#[export] Instance tool_key_countable : Countable ToolKey.
Proof.
  refine (inj_countable' (λ k, (tk_call_id k, tk_name k)) (λ '(a, b), mkToolKey a b) _).
  by intros [].
Defined.

Record FoldedTurn : Type := mkTurn {
  ft_turn_id : string;
  ft_client_request_id : option string;
  ft_work_id : option string;
  ft_prompt_fingerprint : option string;
  ft_status : string;
  ft_cancel_requested : bool;
  ft_prompt : option string;
  ft_user_message_cursor : option string;
  ft_started_at : string;
  ft_route_policy : option TurnRoutePolicy;
  ft_pending_approvals : gset ApprovalKey;
  ft_pending_tools : gset ToolKey;
}.

Record FoldedThread : Type := mkThread {
  th_thread_id : string;
  th_turns : list FoldedTurn;
  th_skipped_events : nat;
  th_last_order : Z;
  th_title : option string;
  th_project_id : option string;
  th_archived : bool;
}.

(** [FoldedThread::new]. *)
Definition new_thread (thread_id : string) : FoldedThread :=
  mkThread thread_id [] 0 0 None None false.

Record FoldedProject : Type := mkProject {
  fp_project_id : string;
  fp_title : string;
  fp_archived : bool;
  fp_last_order : Z;
}.

(** One replayed row: [CursorEvent]. *)
Record CursorEvent : Type := mkRow { ce_cursor : string; ce_event : OperatorEvent }.

(** [MaterializedJournal], less the provider-execution view, which nothing here
    reads: ProviderEvidence.v keeps it beside this state. *)
Record MaterializedJournal : Type := mkJournal {
  mj_threads : gmap string FoldedThread;
  mj_projects : gmap string FoldedProject;
  mj_work_threads : gmap string (gset string);
  mj_unsupported_schema_events : gmap string nat;
  mj_rejected_current_schema_events : gmap string nat;
  mj_seen_event_ids : gset string;
  mj_cursor : option string;
  mj_order : Z;
  mj_committed_skipped_lines : Z;
  mj_tail_skipped_lines : Z;
  mj_applied_event_rows : Z;
}.

Definition default_journal : MaterializedJournal :=
  mkJournal ∅ ∅ ∅ ∅ ∅ ∅ None 0 0 0 0.

Inductive EventAdmission : Type := EventAdmitted | Duplicate | UnsupportedSchema | Rejected.

#[export] Instance admission_eq_dec : EqDecision EventAdmission.
Proof. solve_decision. Defined.

(** Field updates. *)
Definition set_turns (ts : list FoldedTurn) (t : FoldedThread) : FoldedThread :=
  mkThread (th_thread_id t) ts (th_skipped_events t) (th_last_order t) (th_title t)
    (th_project_id t) (th_archived t).
Definition set_last_order (o : Z) (t : FoldedThread) : FoldedThread :=
  mkThread (th_thread_id t) (th_turns t) (th_skipped_events t) o (th_title t)
    (th_project_id t) (th_archived t).
Definition bump_skipped (t : FoldedThread) : FoldedThread :=
  mkThread (th_thread_id t) (th_turns t) (S (th_skipped_events t)) (th_last_order t) (th_title t)
    (th_project_id t) (th_archived t).
Definition set_metadata (title project_id : option string) (archived : bool)
    (t : FoldedThread) : FoldedThread :=
  mkThread (th_thread_id t) (th_turns t) (th_skipped_events t) (th_last_order t) title
    project_id archived.

Definition set_status (s : string) (t : FoldedTurn) : FoldedTurn :=
  mkTurn (ft_turn_id t) (ft_client_request_id t) (ft_work_id t) (ft_prompt_fingerprint t) s
    (ft_cancel_requested t) (ft_prompt t) (ft_user_message_cursor t) (ft_started_at t)
    (ft_route_policy t) (ft_pending_approvals t) (ft_pending_tools t).
Definition set_cancel_requested (t : FoldedTurn) : FoldedTurn :=
  mkTurn (ft_turn_id t) (ft_client_request_id t) (ft_work_id t) (ft_prompt_fingerprint t)
    (ft_status t) true (ft_prompt t) (ft_user_message_cursor t) (ft_started_at t)
    (ft_route_policy t) (ft_pending_approvals t) (ft_pending_tools t).
Definition set_prompt (p : option string) (cursor : string) (t : FoldedTurn) : FoldedTurn :=
  mkTurn (ft_turn_id t) (ft_client_request_id t) (ft_work_id t) (ft_prompt_fingerprint t)
    (ft_status t) (ft_cancel_requested t) p (Some cursor) (ft_started_at t)
    (ft_route_policy t) (ft_pending_approvals t) (ft_pending_tools t).
Definition set_approvals (s : gset ApprovalKey) (t : FoldedTurn) : FoldedTurn :=
  mkTurn (ft_turn_id t) (ft_client_request_id t) (ft_work_id t) (ft_prompt_fingerprint t)
    (ft_status t) (ft_cancel_requested t) (ft_prompt t) (ft_user_message_cursor t)
    (ft_started_at t) (ft_route_policy t) s (ft_pending_tools t).
Definition set_tools (s : gset ToolKey) (t : FoldedTurn) : FoldedTurn :=
  mkTurn (ft_turn_id t) (ft_client_request_id t) (ft_work_id t) (ft_prompt_fingerprint t)
    (ft_status t) (ft_cancel_requested t) (ft_prompt t) (ft_user_message_cursor t)
    (ft_started_at t) (ft_route_policy t) (ft_pending_approvals t) s.

Definition set_threads (m : gmap string FoldedThread) (j : MaterializedJournal) :=
  mkJournal m (mj_projects j) (mj_work_threads j) (mj_unsupported_schema_events j)
    (mj_rejected_current_schema_events j) (mj_seen_event_ids j) (mj_cursor j) (mj_order j)
    (mj_committed_skipped_lines j) (mj_tail_skipped_lines j) (mj_applied_event_rows j).
Definition set_projects (m : gmap string FoldedProject) (j : MaterializedJournal) :=
  mkJournal (mj_threads j) m (mj_work_threads j) (mj_unsupported_schema_events j)
    (mj_rejected_current_schema_events j) (mj_seen_event_ids j) (mj_cursor j) (mj_order j)
    (mj_committed_skipped_lines j) (mj_tail_skipped_lines j) (mj_applied_event_rows j).
Definition set_work_threads (m : gmap string (gset string)) (j : MaterializedJournal) :=
  mkJournal (mj_threads j) (mj_projects j) m (mj_unsupported_schema_events j)
    (mj_rejected_current_schema_events j) (mj_seen_event_ids j) (mj_cursor j) (mj_order j)
    (mj_committed_skipped_lines j) (mj_tail_skipped_lines j) (mj_applied_event_rows j).
Definition set_unsupported (m : gmap string nat) (j : MaterializedJournal) :=
  mkJournal (mj_threads j) (mj_projects j) (mj_work_threads j) m
    (mj_rejected_current_schema_events j) (mj_seen_event_ids j) (mj_cursor j) (mj_order j)
    (mj_committed_skipped_lines j) (mj_tail_skipped_lines j) (mj_applied_event_rows j).
Definition set_rejected (m : gmap string nat) (j : MaterializedJournal) :=
  mkJournal (mj_threads j) (mj_projects j) (mj_work_threads j) (mj_unsupported_schema_events j)
    m (mj_seen_event_ids j) (mj_cursor j) (mj_order j)
    (mj_committed_skipped_lines j) (mj_tail_skipped_lines j) (mj_applied_event_rows j).
Definition set_seen (s : gset string) (j : MaterializedJournal) :=
  mkJournal (mj_threads j) (mj_projects j) (mj_work_threads j) (mj_unsupported_schema_events j)
    (mj_rejected_current_schema_events j) s (mj_cursor j) (mj_order j)
    (mj_committed_skipped_lines j) (mj_tail_skipped_lines j) (mj_applied_event_rows j).

(** [*map.entry(k).or_default() += 1]. *)
Definition bump (k : string) (m : gmap string nat) : gmap string nat :=
  <[k := S (default 0%nat (m !! k))]> m.

(** ** Event classification *)

Definition requires_turn_id (t : OperatorEventType) : bool :=
  match t with
  | TurnStarted | TurnCompleted | TurnCancelRequested | TurnInterrupted | UserMessage
  | RoutePlanned | RouteAttempted | RouteCompleted | RouteFailed | AssistantStarted
  | AssistantCompleted | ToolCallStarted | ToolCallCompleted => true
  | _ => false
  end.

Definition requires_work_id (t : OperatorEventType) : bool :=
  match t with
  | WorkCreated | WorkLinked | WorkspacePrepared | WorkspaceReleased => true
  | _ => false
  end.

Definition requires_call_id (t : OperatorEventType) : bool :=
  match t with
  | RoutePlanned | RouteAttempted | RouteCompleted | RouteFailed | ToolCallStarted
  | ToolCallCompleted => true
  | _ => false
  end.

Definition is_turn_terminal (status : string) : bool :=
  bool_decide (status = "completed" ∨ status = "interrupted" ∨ status = "blocked").

Definition interruption_reason (event : OperatorEvent) : option string :=
  get_str (payload event) "reason".

Definition approval_key (event : OperatorEvent) : option ApprovalKey :=
  c ← call_id event;
  c' ← get_str (payload event) "call_id";
  if bool_decide (c' ≠ c) then None
  else
    request_id ← get_str (payload event) "request_id";
    tool ← get_str (payload event) "tool";
    Some (mkApprovalKey c request_id tool).

Definition tool_key (event : OperatorEvent) : option ToolKey :=
  c ← call_id event;
  name ← get_str (payload event) "name";
  Some (mkToolKey c name).

Definition is_cancellation_approval_audit (turn : FoldedTurn) (event : OperatorEvent) : bool :=
  bool_decide (event_type event = ApprovalDecided) &&
  bool_decide (get_str (payload event) "outcome" = Some "cancelled") &&
  bool_decide (get_str (payload event) "reason" = Some "OPERATOR_CANCELLED") &&
  match approval_key event with
  | None => false
  | Some key =>
      negb (bool_decide (ak_request_id key = "")) &&
      negb (bool_decide (ak_tool key = "")) &&
      bool_decide (get_str (payload event) "call_id" = Some (ak_call_id key)) &&
      bool_decide (key ∈ ft_pending_approvals turn)
  end.

Definition is_cancellation_tool_audit (turn : FoldedTurn) (event : OperatorEvent) : bool :=
  bool_decide (event_type event = ToolCallCompleted) &&
  bool_decide (get_str (payload event) "status" = Some "uncertain") &&
  bool_decide (get_str (payload event) "reason" = Some "OPERATOR_CANCELLED") &&
  match tool_key event with
  | None => false
  | Some key => bool_decide (key ∈ ft_pending_tools turn)
  end.

(** [turns.iter().find(|turn| turn.turn_id == turn_id)]. *)
Definition find_turn (turn_id : string) (turns : list FoldedTurn) : option FoldedTurn :=
  List.find (λ turn, bool_decide (ft_turn_id turn = turn_id)) turns.

(** [turns.iter().any(|turn| turn.turn_id == turn_id)]. *)
Definition has_turn (turn_id : string) (turns : list FoldedTurn) : bool :=
  existsb (λ turn, bool_decide (ft_turn_id turn = turn_id)) turns.

Definition has_client_request (client_request_id : string) (turns : list FoldedTurn) : bool :=
  existsb (λ turn, bool_decide (ft_client_request_id turn = Some client_request_id)) turns.

(** ** Validation (write-side, strict) *)

(** Why a writer refuses an event, one constructor per [bail!]. *)
Inductive Rejection : Type :=
| BadSchemaVersion
| NeedsTurnId
| NeedsCallId
| NeedsWorkId
| WorkNotLinked
| UnknownTurn
| WorkScopeMismatch
| TurnIsTerminal
| NoPendingApproval
| NoPendingTool
| CancellationPending
| NoCancellation
| AlreadyCancelling
| TurnExists
| ClientRequestExists.

Definition validate_turn_started (threads : gmap string FoldedThread) (event : OperatorEvent)
    : outcome (result Rejection unit) :=
  match turn_id event with
  | None => Panic
  | Some turn_id =>
      Return
        match threads !! thread_id event with
        | None => Ok tt
        | Some thread =>
            _ ← bail_if (has_turn turn_id (th_turns thread)) TurnExists;
            match get_str (payload event) "client_request_id" with
            | None => Ok tt
            | Some client_request_id =>
                bail_if (has_client_request client_request_id (th_turns thread))
                  ClientRequestExists
            end
        end
  end.

(** The approval clause of [validate_event]. *)
Definition validate_approval_decided (turn : FoldedTurn) (event : OperatorEvent)
    : result Rejection unit :=
  match approval_key event with
  | Some key => bail_if (negb (bool_decide (key ∈ ft_pending_approvals turn))) NoPendingApproval
  | None =>
      bail_if (bool_decide (get_str (payload event) "outcome" ≠ Some "auto_approved"))
        NoPendingApproval
  end.

(** The cancellation clause of [validate_event]. *)
Definition validate_cancellation (turn : FoldedTurn) (event : OperatorEvent)
    : result Rejection unit :=
  if ft_cancel_requested turn then
    bail_if (negb (is_cancellation_approval_audit turn event) &&
             negb (is_cancellation_tool_audit turn event) &&
             (bool_decide (event_type event ≠ TurnInterrupted) ||
              bool_decide (interruption_reason event ≠ Some "OPERATOR_CANCELLED")))
      CancellationPending
  else if bool_decide (event_type event = TurnInterrupted) &&
          bool_decide (interruption_reason event = Some "OPERATOR_CANCELLED")
  then Err NoCancellation
  else bail_if (bool_decide (event_type event = TurnCancelRequested) && ft_cancel_requested turn)
         AlreadyCancelling.

(** The clauses of [validate_event] for an event on an existing turn. *)
Definition validate_on_turn (turn : FoldedTurn) (event : OperatorEvent) : result Rejection unit :=
  _ ← bail_if (bool_decide (work_id event ≠ ft_work_id turn)) WorkScopeMismatch;
  _ ← bail_if (is_turn_terminal (ft_status turn)) TurnIsTerminal;
  _ ← (if bool_decide (event_type event = ApprovalDecided)
       then validate_approval_decided turn event else Ok tt);
  _ ← bail_if (bool_decide (event_type event = ToolCallCompleted) &&
               negb match tool_key event with
                    | Some key => bool_decide (key ∈ ft_pending_tools turn)
                    | None => false
                    end) NoPendingTool;
  validate_cancellation turn event.

Definition work_linked (work_threads : gmap string (gset string)) (work thread : string) : bool :=
  match work_threads !! work with
  | Some linked_threads => bool_decide (thread ∈ linked_threads)
  | None => false
  end.

(** The identifiers an event type requires. *)
Definition validate_identifiers (event : OperatorEvent) : result Rejection unit :=
  _ ← bail_if (bool_decide (schema_version event ≠ OPERATOR_EVENT_SCHEMA_VERSION))
        BadSchemaVersion;
  _ ← bail_if (requires_turn_id (event_type event) && bool_decide (turn_id event = None))
        NeedsTurnId;
  _ ← bail_if (requires_call_id (event_type event) && bool_decide (call_id event = None))
        NeedsCallId;
  bail_if (requires_work_id (event_type event) && bool_decide (work_id event = None)) NeedsWorkId.

Definition validate_event (threads : gmap string FoldedThread)
    (work_threads : gmap string (gset string)) (event : OperatorEvent)
    : outcome (result Rejection unit) :=
  match validate_identifiers event with
  | Err e => Return (Err e)
  | Ok _ =>
      if bool_decide (event_type event = TurnStarted) then
        match work_id event with
        | Some w =>
            if work_linked work_threads w (thread_id event)
            then validate_turn_started threads event else Return (Err WorkNotLinked)
        | None => validate_turn_started threads event
        end
      else
        Return
          match turn_id event with
          | None => Ok tt
          | Some turn_id =>
              turn ← ok_or UnknownTurn
                       (folded ← threads !! thread_id event; find_turn turn_id (th_turns folded));
              validate_on_turn turn event
          end
  end.

(** ** Replay (read-side, tolerant) *)

(** [turns.iter_mut().find(..)] and a change of that turn; [None] when there is
    no such turn or the change is refused. *)
Fixpoint update_turn (turn_id : string) (f : FoldedTurn → option FoldedTurn)
    (turns : list FoldedTurn) : option (list FoldedTurn) :=
  match turns with
  | [] => None
  | turn :: turns' =>
      if bool_decide (ft_turn_id turn = turn_id) then (λ t, t :: turns') <$> f turn
      else cons turn <$> update_turn turn_id f turns'
  end.

(** The turn-scoped apply functions: look the event's turn up, apply [f]. *)
Definition on_turn (entry : FoldedThread) (event : OperatorEvent)
    (f : FoldedTurn → option FoldedTurn) : option FoldedThread :=
  turn_id ← turn_id event;
  turns ← update_turn turn_id f (th_turns entry);
  Some (set_turns turns entry).

Definition apply_turn_started (entry : FoldedThread) (event : OperatorEvent)
    : option FoldedThread :=
  turn_id ← turn_id event;
  let client_request_id := get_str (payload event) "client_request_id" in
  let prompt_fingerprint := get_str (payload event) "prompt_fingerprint" in
  if has_turn turn_id (th_turns entry) ||
     match client_request_id with
     | Some c => has_client_request c (th_turns entry)
     | None => false
     end
  then None
  else
    let route_policy := json_get "route_policy" (payload event) ≫= decode_policy in
    Some (set_turns
            (th_turns entry ++
             [mkTurn turn_id client_request_id (work_id event) prompt_fingerprint "open" false
                None None (occurred_at event) route_policy ∅ ∅]) entry).

Definition apply_user_message (entry : FoldedThread) (row : CursorEvent) : option FoldedThread :=
  let event := ce_event row in
  on_turn entry event (λ turn,
    if is_turn_terminal (ft_status turn) || ft_cancel_requested turn then None
    else Some (set_prompt (get_str (payload event) "text") (ce_cursor row) turn)).

Definition apply_terminal (entry : FoldedThread) (event : OperatorEvent) (status : string)
    : option FoldedThread :=
  match turn_id event with
  | None => if bool_decide (event_type event = Blocker) then Some entry else None
  | Some _ =>
      on_turn entry event (λ turn,
        if is_turn_terminal (ft_status turn) then None
        else if ft_cancel_requested turn &&
                (bool_decide (status ≠ "interrupted") ||
                 bool_decide (interruption_reason event ≠ Some "OPERATOR_CANCELLED"))
        then None
        else if negb (ft_cancel_requested turn) &&
                bool_decide (event_type event = TurnInterrupted) &&
                bool_decide (interruption_reason event = Some "OPERATOR_CANCELLED")
        then None
        else Some (set_status status turn))
  end.

Definition apply_turn_cancel_requested (entry : FoldedThread) (event : OperatorEvent)
    : option FoldedThread :=
  on_turn entry event (λ turn,
    if is_turn_terminal (ft_status turn) || ft_cancel_requested turn then None
    else Some (set_cancel_requested turn)).

Definition apply_tool_started (entry : FoldedThread) (event : OperatorEvent)
    : option FoldedThread :=
  on_turn entry event (λ turn,
    if is_turn_terminal (ft_status turn) || ft_cancel_requested turn then None
    else
      key ← tool_key event;
      if bool_decide (key ∈ ft_pending_tools turn) then None
      else Some (set_tools ({[key]} ∪ ft_pending_tools turn) turn)).

Definition apply_tool_completed (entry : FoldedThread) (event : OperatorEvent)
    : option FoldedThread :=
  on_turn entry event (λ turn,
    if is_turn_terminal (ft_status turn) ||
       (ft_cancel_requested turn && negb (is_cancellation_tool_audit turn event)) then None
    else
      key ← tool_key event;
      if bool_decide (key ∈ ft_pending_tools turn)
      then Some (set_tools (ft_pending_tools turn ∖ {[key]}) turn) else None).

Definition apply_approval_requested (entry : FoldedThread) (event : OperatorEvent)
    : option FoldedThread :=
  on_turn entry event (λ turn,
    if is_turn_terminal (ft_status turn) || ft_cancel_requested turn then None
    else
      match approval_key event with
      | Some key =>
          if bool_decide (key ∈ ft_pending_approvals turn) then None
          else Some (set_approvals ({[key]} ∪ ft_pending_approvals turn) turn)
      | None => Some turn
      end).

Definition apply_approval_decided (entry : FoldedThread) (event : OperatorEvent)
    : option FoldedThread :=
  on_turn entry event (λ turn,
    if is_turn_terminal (ft_status turn) then None
    else if ft_cancel_requested turn && negb (is_cancellation_approval_audit turn event) then None
    else
      match approval_key event with
      | Some key =>
          if bool_decide (key ∈ ft_pending_approvals turn)
          then Some (set_approvals (ft_pending_approvals turn ∖ {[key]}) turn) else None
      | None =>
          if bool_decide (get_str (payload event) "outcome" = Some "auto_approved")
          then Some turn else None
      end).

Definition apply_nonterminal_touch (entry : FoldedThread) (event : OperatorEvent)
    : option FoldedThread :=
  match turn_id event with
  | None => Some entry
  | Some turn_id =>
      turn ← find_turn turn_id (th_turns entry);
      if is_turn_terminal (ft_status turn) ||
         (ft_cancel_requested turn && negb (is_cancellation_approval_audit turn event))
      then None else Some entry
  end.

Definition apply_metadata_updated (entry : FoldedThread) (event : OperatorEvent) : FoldedThread :=
  set_metadata
    (match get_str (payload event) "title" with Some t => Some t | None => th_title entry end)
    (match json_get "project_id" (payload event) with
     | Some project_id => as_str project_id
     | None => th_project_id entry
     end)
    (default (th_archived entry) (get_bool (payload event) "archived")) entry.

Definition apply_to_existing_thread (entry : FoldedThread) (row : CursorEvent)
    : option FoldedThread :=
  let event := ce_event row in
  match event_type event with
  | ThreadCreated => None
  | ThreadMetadataUpdated => Some (apply_metadata_updated entry event)
  | TurnStarted => apply_turn_started entry event
  | UserMessage => apply_user_message entry row
  | TurnCompleted => apply_terminal entry event "completed"
  | TurnInterrupted => apply_terminal entry event "interrupted"
  | Blocker => apply_terminal entry event "blocked"
  | TurnCancelRequested => apply_turn_cancel_requested entry event
  | ToolCallStarted => apply_tool_started entry event
  | ToolCallCompleted => apply_tool_completed entry event
  | ApprovalRequested => apply_approval_requested entry event
  | ApprovalDecided => apply_approval_decided entry event
  | ProjectCreated | ProjectMetadataUpdated => None
  | _ => apply_nonterminal_touch entry event
  end.

Definition apply_work_membership (work_threads : gmap string (gset string))
    (event : OperatorEvent) : gmap string (gset string) :=
  match work_id event with
  | None => work_threads
  | Some work_id =>
      match event_type event with
      | WorkCreated =>
          if bool_decide (get_str (payload event) "primary_thread_id" = Some (thread_id event)) &&
             bool_decide (work_threads !! work_id = None)
          then <[work_id := {[thread_id event]}]> work_threads else work_threads
      | WorkLinked =>
          match work_threads !! work_id with
          | Some linked =>
              if bool_decide (get_str (payload event) "thread_id" = Some (thread_id event))
              then <[work_id := {[thread_id event]} ∪ linked]> work_threads else work_threads
          | None => work_threads
          end
      | _ => work_threads
      end
  end.

Definition project_subject (project_id : string) : string := "project:" +:+ project_id.

(** The two project arms of [apply_event]. *)
Definition apply_project_created (j : MaterializedJournal) (event : OperatorEvent) (order : Z)
    : MaterializedJournal * EventAdmission :=
  match get_str (payload event) "project_id", get_str (payload event) "title" with
  | Some project_id, Some title =>
      if bool_decide (thread_id event ≠ project_subject project_id) ||
         bool_decide (is_Some (mj_projects j !! project_id))
      then (j, Rejected)
      else (set_projects (<[project_id := mkProject project_id title false order]> (mj_projects j)) j,
            EventAdmitted)
  | _, _ => (j, Rejected)
  end.

Definition apply_project_updated (j : MaterializedJournal) (event : OperatorEvent) (order : Z)
    : MaterializedJournal * EventAdmission :=
  match get_str (payload event) "project_id" with
  | None => (j, Rejected)
  | Some project_id =>
      match mj_projects j !! project_id with
      | None => (j, Rejected)
      | Some project =>
          if bool_decide (thread_id event ≠ project_subject project_id) then (j, Rejected)
          else
            let project' :=
              mkProject (fp_project_id project)
                (default (fp_title project) (get_str (payload event) "title"))
                (default (fp_archived project) (get_bool (payload event) "archived")) order in
            (set_projects (<[project_id := project']> (mj_projects j)) j, EventAdmitted)
      end
  end.

(** The thread a row on an unknown thread establishes, if it may. *)
Definition new_thread_from (event : OperatorEvent) : option FoldedThread :=
  match event_type event with
  | ThreadCreated =>
      Some (set_metadata (get_str (payload event) "title") (get_str (payload event) "project_id")
              (default false (get_bool (payload event) "archived"))
              (new_thread (thread_id event)))
  | TurnStarted => apply_turn_started (new_thread (thread_id event)) event
  | _ => None
  end.

(** The thread part of [apply_event]. *)
Definition apply_thread_event (j : MaterializedJournal) (row : CursorEvent) (order : Z)
    : MaterializedJournal * EventAdmission :=
  let event := ce_event row in
  let admitted_as entry :=
    (set_work_threads (apply_work_membership (mj_work_threads j) event)
       (set_threads (<[thread_id event := set_last_order order entry]> (mj_threads j)) j),
     EventAdmitted) in
  match mj_threads j !! thread_id event with
  | Some entry =>
      match apply_to_existing_thread entry row with
      | Some entry' => admitted_as entry'
      | None => (set_threads (<[thread_id event := bump_skipped entry]> (mj_threads j)) j, Rejected)
      end
  | None =>
      match new_thread_from event with
      | Some candidate => admitted_as candidate
      | None =>
          (set_rejected (bump (thread_id event) (mj_rejected_current_schema_events j)) j, Rejected)
      end
  end.

Definition apply_event (j : MaterializedJournal) (row : CursorEvent) (order : Z)
    : MaterializedJournal * EventAdmission :=
  let event := ce_event row in
  if bool_decide (event_id event ∈ mj_seen_event_ids j) then (j, Duplicate)
  else
    let j := set_seen ({[event_id event]} ∪ mj_seen_event_ids j) j in
    if bool_decide (schema_version event ≠ OPERATOR_EVENT_SCHEMA_VERSION)
    then (set_unsupported (bump (thread_id event) (mj_unsupported_schema_events j)) j,
          UnsupportedSchema)
    else
      match event_type event with
      | ProjectCreated => apply_project_created j event order
      | ProjectMetadataUpdated => apply_project_updated j event order
      | _ => apply_thread_event j row order
      end.

Definition set_progress (order applied : Z) (j : MaterializedJournal) : MaterializedJournal :=
  mkJournal (mj_threads j) (mj_projects j) (mj_work_threads j) (mj_unsupported_schema_events j)
    (mj_rejected_current_schema_events j) (mj_seen_event_ids j) (mj_cursor j) order
    (mj_committed_skipped_lines j) (mj_tail_skipped_lines j) applied.

(** The row loop of [sync_materialized_observing]. *)
Definition apply_row (j : MaterializedJournal) (row : CursorEvent)
    : MaterializedJournal * EventAdmission :=
  let order := saturating_add u64_max (mj_order j) 1 in
  let applied := saturating_add u64_max (mj_applied_event_rows j) 1 in
  apply_event (set_progress order applied j) row order.

Definition replay (j : MaterializedJournal) (rows : list CursorEvent) : MaterializedJournal :=
  foldl (λ j row, (apply_row j row).1) j rows.
