(* ===== verification/TurnProtocol.v ===== *)
(** * The turn protocol: what replay promises of a turn

    An abstract machine for one turn, [phase_step], and the theorem that every
    row the replay of [Turns] admits moves its turn by one step of it.  The
    invariants of reachable journals, the permanence of terminal turns and the
    agreement of writer and reader follow from it. *)

From stdpp Require Import base gmap sets strings numbers list.
From Stdlib Require Import Ascii.
From S2P Require Import Prelude Json OperatorEvent RoutePolicy Turns.
#[local] Open Scope Z_scope.

(** ** The abstract machine *)

Inductive TurnPhase : Type := Open | Cancelling | Closed (status : string).

Definition phase (t : FoldedTurn) : TurnPhase :=
  if is_turn_terminal (ft_status t) then Closed (ft_status t)
  else if ft_cancel_requested t then Cancelling else Open.

(** The event types that move a turn from one phase to another. *)
Definition changes_phase (t : OperatorEventType) : bool :=
  match t with
  | TurnStarted | TurnCompleted | TurnInterrupted | Blocker | TurnCancelRequested => true
  | _ => false
  end.

(** The records of a cancelled turn's unfinished business. *)
Definition cancellation_audit (e : OperatorEvent) : Prop :=
  get_str (payload e) "reason" = Some "OPERATOR_CANCELLED" ∧
  ((event_type e = ToolCallCompleted ∧ get_str (payload e) "status" = Some "uncertain") ∨
   (event_type e = ApprovalDecided ∧ get_str (payload e) "outcome" = Some "cancelled")).

(** A turn is open until it completes, blocks or is interrupted; a cancellation
    request leaves it waiting for the interruption that names the operator, and
    nothing else but the audit records of that cancellation may follow. *)
Inductive phase_step (e : OperatorEvent) : TurnPhase → TurnPhase → Prop :=
| ps_work : changes_phase (event_type e) = false → phase_step e Open Open
| ps_complete : event_type e = TurnCompleted → phase_step e Open (Closed "completed")
| ps_block : event_type e = Blocker → phase_step e Open (Closed "blocked")
| ps_interrupt :
    event_type e = TurnInterrupted → interruption_reason e ≠ Some "OPERATOR_CANCELLED" →
    phase_step e Open (Closed "interrupted")
| ps_request : event_type e = TurnCancelRequested → phase_step e Open Cancelling
| ps_audit : cancellation_audit e → phase_step e Cancelling Cancelling
| ps_cancelled :
    event_type e = TurnInterrupted → interruption_reason e = Some "OPERATOR_CANCELLED" →
    phase_step e Cancelling (Closed "interrupted").

(** What no event changes of a turn. *)
Definition same_identity (t t' : FoldedTurn) : Prop :=
  ft_turn_id t = ft_turn_id t' ∧ ft_client_request_id t = ft_client_request_id t' ∧
  ft_work_id t = ft_work_id t' ∧ ft_prompt_fingerprint t = ft_prompt_fingerprint t' ∧
  ft_started_at t = ft_started_at t' ∧ ft_route_policy t = ft_route_policy t'.

(** One event on its turn: a step of the machine that keeps the identity, the
    status unless it closes the turn, and the cursor of the user message unless
    it is one. *)
Definition turn_change (e : OperatorEvent) (t t' : FoldedTurn) : Prop :=
  same_identity t t' ∧ phase_step e (phase t) (phase t') ∧
  (ft_status t = ft_status t' ∨ is_turn_terminal (ft_status t') = true) ∧
  (event_type e ≠ UserMessage → ft_user_message_cursor t = ft_user_message_cursor t').

(** One admitted row on the turns of its thread. *)
Inductive turns_step (e : OperatorEvent) : list FoldedTurn → list FoldedTurn → Prop :=
| ts_same ts :
    turn_id e = None ∨ changes_phase (event_type e) = false → turns_step e ts ts
| ts_change pre t t' post :
    turn_id e = Some (ft_turn_id t) →
    Forall (λ u, ft_turn_id u ≠ ft_turn_id t) pre →
    turn_change e t t' →
    turns_step e (pre ++ t :: post) (pre ++ t' :: post)
| ts_new ts t :
    turn_id e = Some (ft_turn_id t) → event_type e = TurnStarted → phase t = Open →
    ft_status t = "open" → ft_work_id t = work_id e →
    has_turn (ft_turn_id t) ts = false →
    (∀ c, ft_client_request_id t = Some c → has_client_request c ts = false) →
    turns_step e ts (ts ++ [t]).

(** ** Lookup and update *)

Lemma update_turn_Some id f ts ts' :
  update_turn id f ts = Some ts' ↔
  ∃ pre t t' post, ts = pre ++ t :: post ∧ ts' = pre ++ t' :: post ∧ ft_turn_id t = id ∧
    Forall (λ u, ft_turn_id u ≠ id) pre ∧ f t = Some t'.
Proof.
  revert ts'. induction ts as [|u ts IH]; intros ts'; simpl.
  { split; [done|]. intros (pre & t & t' & post & Heq & _). by destruct pre. }
  case_bool_decide as Hu.
  - split.
    + destruct (f u) as [t'|] eqn:E; [|done]. intros [= <-].
      exists [], u, t', ts. by split_and!.
    + intros ([|p pre] & t & t' & post & Heq & -> & Ht & Hpre & Hf); simplify_eq/=.
      * by rewrite Hf.
      * apply Forall_inv in Hpre. done.
  - split.
    + destruct (update_turn id f ts) as [r|] eqn:E; [|done]. intros [= <-].
      destruct (proj1 (IH r) eq_refl) as (pre & t & t' & post & -> & -> & ? & ? & ?).
      exists (u :: pre), t, t', post. split_and!; auto.
    + intros ([|p pre] & t & t' & post & Heq & -> & Ht & Hpre & Hf); simplify_eq/=.
      apply Forall_cons_iff in Hpre as [_ Hpre].
      assert (update_turn (ft_turn_id t) f (pre ++ t :: post) = Some (pre ++ t' :: post)) as ->
        by (apply IH; naive_solver). done.
Qed.

Lemma find_turn_Some id ts t :
  find_turn id ts = Some t ↔
  ∃ pre post, ts = pre ++ t :: post ∧ ft_turn_id t = id ∧ Forall (λ u, ft_turn_id u ≠ id) pre.
Proof.
  unfold find_turn. induction ts as [|u ts IH]; simpl.
  { split; [done|]. intros (pre & post & Heq & _). by destruct pre. }
  case_bool_decide as Hu.
  - split.
    + intros [= ->]. exists [], ts. by split_and!.
    + intros ([|p pre] & post & Heq & Ht & Hpre); simplify_eq/=; [done|].
      by apply Forall_inv in Hpre.
  - rewrite IH. split.
    + intros (pre & post & -> & ? & ?). exists (u :: pre), post. split_and!; auto.
    + intros ([|p pre] & post & Heq & Ht & Hpre); simplify_eq/=.
      apply Forall_cons_iff in Hpre as [_ Hpre]. eauto.
Qed.

(** The update succeeds exactly when the turn is there and takes the change. *)
Lemma update_turn_is_Some id f ts :
  is_Some (update_turn id f ts) ↔ ∃ t, find_turn id ts = Some t ∧ is_Some (f t).
Proof.
  split.
  - intros [ts' (pre & t & t' & post & -> & _ & Hid & Hpre & Hf)%update_turn_Some].
    exists t. split; [|by eexists]. apply find_turn_Some. eauto.
  - intros (t & (pre & post & -> & Hid & Hpre)%find_turn_Some & t' & Hf).
    exists (pre ++ t' :: post). apply update_turn_Some. naive_solver.
Qed.

Lemma has_turn_spec id ts : has_turn id ts = true ↔ id ∈ map ft_turn_id ts.
Proof.
  unfold has_turn. induction ts as [|u ts IH]; simpl; [set_solver|].
  rewrite orb_true_iff, bool_decide_eq_true, elem_of_cons, IH. naive_solver.
Qed.

Lemma has_client_request_spec c ts :
  has_client_request c ts = true ↔ Some c ∈ map ft_client_request_id ts.
Proof.
  unfold has_client_request. induction ts as [|u ts IH]; simpl; [set_solver|].
  rewrite orb_true_iff, bool_decide_eq_true, elem_of_cons, IH. naive_solver.
Qed.

(** ** Replay refines the machine *)

(** The change [f] makes to its turn is a step of the machine. *)
Definition change_ok (e : OperatorEvent) (f : FoldedTurn → option FoldedTurn) : Prop :=
  ∀ t t', f t = Some t' → turn_change e t t'.

Lemma on_turn_step entry e f entry' :
  change_ok e f → on_turn entry e f = Some entry' →
  turns_step e (th_turns entry) (th_turns entry').
Proof.
  unfold on_turn. intros Hf.
  destruct (turn_id e) as [id|] eqn:Hid; simpl; [|done].
  destruct (update_turn id f (th_turns entry)) as [ts|] eqn:E; simpl; [|done].
  intros [= <-]. simpl.
  apply update_turn_Some in E as (pre & t & t' & post & -> & -> & <- & Hpre & Ht).
  constructor; auto.
Qed.

Lemma tool_audit_spec t e :
  is_cancellation_tool_audit t e = true → cancellation_audit e.
Proof.
  unfold is_cancellation_tool_audit, cancellation_audit.
  rewrite !andb_true_iff, !bool_decide_eq_true. naive_solver.
Qed.

Lemma approval_audit_spec t e :
  is_cancellation_approval_audit t e = true → cancellation_audit e.
Proof.
  unfold is_cancellation_approval_audit, cancellation_audit.
  rewrite !andb_true_iff, !bool_decide_eq_true. naive_solver.
Qed.

(** A change that leaves the phase alone, on an open turn or as an audit of a
    cancelling one. *)
Lemma phase_stays e t t' audit :
  is_turn_terminal (ft_status t) || (ft_cancel_requested t && negb audit) = false →
  changes_phase (event_type e) = false → (audit = true → cancellation_audit e) →
  ft_status t = ft_status t' → ft_cancel_requested t = ft_cancel_requested t' →
  phase_step e (phase t) (phase t').
Proof.
  unfold phase. intros Hb Hc Ha <- <-. apply orb_false_iff in Hb as [-> Hb].
  destruct (ft_cancel_requested t); [|by constructor].
  constructor. apply Ha. by destruct audit.
Qed.

Lemma identity_refl t : same_identity t t.
Proof. by split_and!. Qed.
#[local] Hint Resolve identity_refl : heiwa.

(** Split an apply function at its guard and at the changes it makes. *)
Ltac guarded :=
  intros t t' Hf; simpl in Hf;
  match type of Hf with
  | (if ?g then None else _) = Some _ => destruct g eqn:Hg; [discriminate Hf|]
  end.

Lemma user_message_ok e cursor :
  event_type e = UserMessage →
  change_ok e (λ turn,
    if is_turn_terminal (ft_status turn) || ft_cancel_requested turn then None
    else Some (set_prompt (get_str (payload e) "text") cursor turn)).
Proof.
  intros Hty. guarded. simplify_eq. split; [done|split; [|split; [by left|done]]].
  apply (phase_stays e t _ false); try done; [|by rewrite Hty]. by rewrite andb_true_r.
Qed.

Lemma cancel_requested_ok e :
  event_type e = TurnCancelRequested →
  change_ok e (λ turn,
    if is_turn_terminal (ft_status turn) || ft_cancel_requested turn then None
    else Some (set_cancel_requested turn)).
Proof.
  intros Hty. guarded. simplify_eq. split; [done|split; [|split; [by left|done]]].
  apply orb_false_iff in Hg as [Hs Hc]. unfold phase; simpl. rewrite Hs, Hc. by constructor.
Qed.

Lemma tool_started_ok e :
  event_type e = ToolCallStarted →
  change_ok e (λ turn,
    if is_turn_terminal (ft_status turn) || ft_cancel_requested turn then None
    else
      key ← tool_key e;
      if bool_decide (key ∈ ft_pending_tools turn) then None
      else Some (set_tools ({[key]} ∪ ft_pending_tools turn) turn)).
Proof.
  intros Hty. guarded. destruct (tool_key e); simpl in Hf; [|done].
  case_bool_decide; simplify_eq. split; [done|split; [|split; [by left|done]]].
  apply (phase_stays e t _ false); try done; [|by rewrite Hty]. by rewrite andb_true_r.
Qed.

Lemma tool_completed_ok e :
  event_type e = ToolCallCompleted →
  change_ok e (λ turn,
    if is_turn_terminal (ft_status turn) ||
       (ft_cancel_requested turn && negb (is_cancellation_tool_audit turn e)) then None
    else
      key ← tool_key e;
      if bool_decide (key ∈ ft_pending_tools turn)
      then Some (set_tools (ft_pending_tools turn ∖ {[key]}) turn) else None).
Proof.
  intros Hty. guarded. destruct (tool_key e); simpl in Hf; [|done].
  case_bool_decide; simplify_eq. split; [done|split; [|split; [by left|done]]].
  eapply phase_stays; [done|by rewrite Hty|apply tool_audit_spec|done..].
Qed.

Lemma approval_requested_ok e :
  event_type e = ApprovalRequested →
  change_ok e (λ turn,
    if is_turn_terminal (ft_status turn) || ft_cancel_requested turn then None
    else
      match approval_key e with
      | Some key =>
          if bool_decide (key ∈ ft_pending_approvals turn) then None
          else Some (set_approvals ({[key]} ∪ ft_pending_approvals turn) turn)
      | None => Some turn
      end).
Proof.
  intros Hty. guarded.
  assert (∀ u, ft_status t = ft_status u → ft_cancel_requested t = ft_cancel_requested u →
            phase_step e (phase t) (phase u)) as Hph.
  { intros u ? ?. apply (phase_stays e t u false); try done; [|by rewrite Hty].
    by rewrite andb_true_r. }
  destruct (approval_key e); [case_bool_decide|]; simplify_eq; (split; [done|split; [by apply Hph|split; [by left|done]]]).
Qed.

Lemma approval_decided_ok e :
  event_type e = ApprovalDecided →
  change_ok e (λ turn,
    if is_turn_terminal (ft_status turn) then None
    else if ft_cancel_requested turn && negb (is_cancellation_approval_audit turn e) then None
    else
      match approval_key e with
      | Some key =>
          if bool_decide (key ∈ ft_pending_approvals turn)
          then Some (set_approvals (ft_pending_approvals turn ∖ {[key]}) turn) else None
      | None =>
          if bool_decide (get_str (payload e) "outcome" = Some "auto_approved")
          then Some turn else None
      end).
Proof.
  intros Hty t t' Hf.
  assert (∀ u, is_turn_terminal (ft_status t) = false →
            ft_cancel_requested t && negb (is_cancellation_approval_audit t e) = false →
            ft_status t = ft_status u → ft_cancel_requested t = ft_cancel_requested u →
            phase_step e (phase t) (phase u)) as Hph.
  { intros u Hs Hg ? ?. eapply phase_stays; [by rewrite Hs|by rewrite Hty|
      apply approval_audit_spec|done..]. }
  destruct (is_turn_terminal (ft_status t)); [done|].
  destruct (_ && _); [done|].
  destruct (approval_key e); case_bool_decide; simplify_eq; (split; [done|split; [by apply Hph|split; [by left|done]]]).
Qed.

Lemma terminal_ok e status :
  (event_type e, status) ∈ [(TurnCompleted, "completed"); (TurnInterrupted, "interrupted");
                            (Blocker, "blocked")] →
  change_ok e (λ turn,
    if is_turn_terminal (ft_status turn) then None
    else if ft_cancel_requested turn &&
            (bool_decide (status ≠ "interrupted") ||
             bool_decide (interruption_reason e ≠ Some "OPERATOR_CANCELLED"))
    then None
    else if negb (ft_cancel_requested turn) && bool_decide (event_type e = TurnInterrupted) &&
            bool_decide (interruption_reason e = Some "OPERATOR_CANCELLED")
    then None
    else Some (set_status status turn)).
Proof.
  intros Hin t t' Hf. destruct (is_turn_terminal (ft_status t)) eqn:Hs; [done|].
  destruct (ft_cancel_requested t && _) eqn:Hg1; [done|].
  destruct (negb _ && _ && _) eqn:Hg2; [done|]. simplify_eq.
  rewrite !elem_of_cons, elem_of_nil in Hin.
  assert (is_turn_terminal status = true) as Ht.
  { apply bool_decide_eq_true. destruct Hin as [|[|[|[]]]]; simplify_eq; tauto. }
  split; [done|split; [|split; [by right|done]]]. unfold phase; simpl. rewrite Hs, Ht.
  destruct (ft_cancel_requested t).
  - apply orb_false_iff in Hg1 as [H1%bool_decide_eq_false H2%bool_decide_eq_false].
    apply dec_stable in H1, H2. destruct Hin as [|[|[|[]]]]; simplify_eq. by constructor.
  - clear Hg1. destruct Hin as [|[|[|[]]]]; simplify_eq; constructor; try congruence.
    intros Hr. rewrite bool_decide_true, bool_decide_true in Hg2 by congruence. done.
Qed.

Lemma turn_started_step entry e entry' :
  event_type e = TurnStarted → apply_turn_started entry e = Some entry' →
  th_thread_id entry' = th_thread_id entry ∧ turns_step e (th_turns entry) (th_turns entry').
Proof.
  intros Hty. unfold apply_turn_started. destruct (turn_id e) as [id|] eqn:Hid; simpl; [|done].
  destruct (has_turn id (th_turns entry)) eqn:Hh; simpl; [done|].
  destruct (match _ with Some _ => _ | None => _ end) eqn:Hc; [done|].
  intros [= <-]. split; [done|]. simpl. constructor; simpl; try done.
  intros c Heq. by rewrite Heq in Hc.
Qed.

Lemma touch_step entry e entry' :
  changes_phase (event_type e) = false → apply_nonterminal_touch entry e = Some entry' →
  th_thread_id entry' = th_thread_id entry ∧ turns_step e (th_turns entry) (th_turns entry').
Proof.
  intros Hty. unfold apply_nonterminal_touch.
  destruct (turn_id e) as [id|] eqn:Hid; [|intros [= <-]; split; [done|constructor; auto]].
  destruct (find_turn _ _); simpl; [|done].
  destruct (_ || _); [done|]. intros [= <-]. split; [done|]. constructor. auto.
Qed.

Lemma on_turn_thread entry e f entry' :
  change_ok e f → on_turn entry e f = Some entry' →
  th_thread_id entry' = th_thread_id entry ∧ turns_step e (th_turns entry) (th_turns entry').
Proof.
  intros Hf Ho. split; [|by eapply on_turn_step]. unfold on_turn in Ho.
  destruct (turn_id e); simpl in Ho; [|done].
  destruct (update_turn _ _ _); simpl in Ho; [|done]. by simplify_eq.
Qed.

Lemma terminal_step entry e status entry' :
  (event_type e, status) ∈ [(TurnCompleted, "completed"); (TurnInterrupted, "interrupted");
                            (Blocker, "blocked")] →
  apply_terminal entry e status = Some entry' →
  th_thread_id entry' = th_thread_id entry ∧ turns_step e (th_turns entry) (th_turns entry').
Proof.
  intros Hty. unfold apply_terminal. destruct (turn_id e) as [id|] eqn:Hid.
  - by apply on_turn_thread, terminal_ok.
  - case_bool_decide; [|done]. intros [= <-]. split; [done|]. constructor. auto.
Qed.

Ltac in_table := set_solver.

(** Every row an existing thread admits is a step of its turns. *)
Lemma existing_thread_step entry row entry' :
  apply_to_existing_thread entry row = Some entry' →
  th_thread_id entry' = th_thread_id entry ∧
  turns_step (ce_event row) (th_turns entry) (th_turns entry').
Proof.
  unfold apply_to_existing_thread. destruct (event_type (ce_event row)) eqn:Hty; intros Ha;
    try discriminate Ha;
    first [ by apply touch_step in Ha; [|by rewrite Hty]
          | by apply turn_started_step in Ha
          | idtac ].
  - injection Ha as <-. split; [done|]. constructor. right. by rewrite Hty.
  - by eapply on_turn_thread; [apply user_message_ok|].
  - by eapply on_turn_thread; [apply tool_started_ok|].
  - by eapply on_turn_thread; [apply tool_completed_ok|].
  - by eapply on_turn_thread; [apply approval_requested_ok|].
  - by eapply on_turn_thread; [apply approval_decided_ok|].
  - eapply terminal_step; [|done]. rewrite Hty. in_table.
  - eapply terminal_step; [|done]. rewrite Hty. in_table.
  - by eapply on_turn_thread; [apply cancel_requested_ok|].
  - eapply terminal_step; [|done]. rewrite Hty. in_table.
Qed.

Lemma new_thread_step e entry :
  new_thread_from e = Some entry →
  th_thread_id entry = thread_id e ∧
  (turn_id e = None ∨ event_type e = ThreadCreated ∨ event_type e = TurnStarted) ∧
  turns_step e [] (th_turns entry).
Proof.
  unfold new_thread_from. destruct (event_type e) eqn:Hty; try done.
  - intros [= <-]. simpl. split_and!; auto. constructor. right. by rewrite Hty.
  - intros Ha. apply turn_started_step in Ha as [-> Ht]; auto.
Qed.

(** *** One row on the whole journal *)

(** The turns of a thread; an unknown thread has none. *)
Definition turns_of (j : MaterializedJournal) (thread : string) : list FoldedTurn :=
  match mj_threads j !! thread with Some entry => th_turns entry | None => [] end.

Lemma turns_of_set_rejected m j thread : turns_of (set_rejected m j) thread = turns_of j thread.
Proof. done. Qed.

(** The thread part of [apply_event], seen from the turns. *)
Lemma thread_event_turns j row order j' a :
  apply_thread_event j row order = (j', a) →
  (a = EventAdmitted → turns_step (ce_event row) (turns_of j (thread_id (ce_event row)))
                         (turns_of j' (thread_id (ce_event row)))) ∧
  (a ≠ EventAdmitted → ∀ thread, turns_of j' thread = turns_of j thread) ∧
  (∀ thread, thread ≠ thread_id (ce_event row) → turns_of j' thread = turns_of j thread).
Proof.
  unfold apply_thread_event, turns_of. intros Ha.
  destruct (mj_threads j !! thread_id (ce_event row)) as [entry|] eqn:El.
  - destruct (apply_to_existing_thread entry row) as [entry'|] eqn:Ea; simplify_eq/=.
    + apply existing_thread_step in Ea as [_ Hs]. split_and!; [|done|].
      * intros _. by rewrite lookup_insert_eq.
      * intros thread Hne. by rewrite lookup_insert_ne by congruence.
    + split_and!; [done|..].
      * intros _ thread. destruct (decide (thread = thread_id (ce_event row))) as [->|].
        -- by rewrite lookup_insert_eq, El.
        -- by rewrite lookup_insert_ne by congruence.
      * intros thread Hne. by rewrite lookup_insert_ne by congruence.
  - destruct (new_thread_from (ce_event row)) as [entry|] eqn:En; simplify_eq/=; [|done].
    apply new_thread_step in En as (_ & _ & Hs). split_and!; [|done|].
    + intros _. by rewrite lookup_insert_eq.
    + intros thread Hne. by rewrite lookup_insert_ne by congruence.
Qed.

Definition is_project_event (t : OperatorEventType) : bool :=
  match t with ProjectCreated | ProjectMetadataUpdated => true | _ => false end.

Lemma project_event_threads j row order j' a :
  is_project_event (event_type (ce_event row)) = true →
  apply_event j row order = (j', a) → mj_threads j' = mj_threads j.
Proof.
  unfold apply_event. intros Hp. case_bool_decide; [by intros [= <- _]|].
  case_bool_decide; [by intros [= <- _]|].
  destruct (event_type (ce_event row)); try done;
    unfold apply_project_created, apply_project_updated; intros Ha;
    repeat case_match; by simplify_eq/=.
Qed.

Lemma apply_event_cases j row order j' a :
  apply_event j row order = (j', a) →
  (mj_threads j' = mj_threads j ∧
   (a ≠ EventAdmitted ∨ is_project_event (event_type (ce_event row)) = true)) ∨
  (is_project_event (event_type (ce_event row)) = false ∧
   schema_version (ce_event row) = OPERATOR_EVENT_SCHEMA_VERSION ∧
   event_id (ce_event row) ∉ mj_seen_event_ids j ∧
   ∃ j0, mj_threads j0 = mj_threads j ∧ apply_thread_event j0 row order = (j', a)).
Proof.
  intros Ha. destruct (is_project_event (event_type (ce_event row))) eqn:Hp.
  { left. split; [by eapply project_event_threads|by right]. }
  unfold apply_event in Ha. case_bool_decide as Hd; [simplify_eq; auto|].
  case_bool_decide as Hv; [simplify_eq; auto|].
  right. split_and!; [done..|]. eexists. split; [|by destruct (event_type (ce_event row))]. done.
Qed.

(** C5.  Replay refines the turn protocol: a row that is admitted moves the
    turns of its own thread by one step of the abstract machine, in which a
    closed turn takes no further step and a cancelling one only audits and the
    operator's interruption; a row that is not admitted changes no turn; and no
    row touches the turns of another thread. *)
Theorem replay_refines_turn_protocol (j j' : MaterializedJournal) (row : CursorEvent)
    (order : Z) (a : EventAdmission) :
  apply_event j row order = (j', a) →
  (a = EventAdmitted →
     is_project_event (event_type (ce_event row)) = true ∨
     turns_step (ce_event row) (turns_of j (thread_id (ce_event row)))
       (turns_of j' (thread_id (ce_event row)))) ∧
  (a ≠ EventAdmitted → ∀ thread, turns_of j' thread = turns_of j thread) ∧
  (∀ thread, thread ≠ thread_id (ce_event row) → turns_of j' thread = turns_of j thread).
Proof.
  intros Ha. apply apply_event_cases in Ha as [[Ht Hc]|(Hp & _ & _ & j0 & Ht & Ha)].
  - unfold turns_of. rewrite Ht. split_and!; try done. intros ->. by destruct Hc; [|left].
  - apply thread_event_turns in Ha as (H1 & H2 & H3).
    unfold turns_of in *. rewrite Ht in *. split_and!; [by right; auto|done|done].
Qed.

(** ** Reachable journals *)

Lemma apply_row_step j row :
  (∀ thread, thread ≠ thread_id (ce_event row) →
     turns_of (apply_row j row).1 thread = turns_of j thread) ∧
  (turns_of (apply_row j row).1 (thread_id (ce_event row)) = turns_of j (thread_id (ce_event row)) ∨
   turns_step (ce_event row) (turns_of j (thread_id (ce_event row)))
     (turns_of (apply_row j row).1 (thread_id (ce_event row)))).
Proof.
  unfold apply_row. destruct (apply_event _ row _) as [j' a] eqn:Ha. simpl.
  apply apply_event_cases in Ha as [[Ht Hc]|(Hp & _ & _ & j0 & Ht & Ha)].
  - unfold turns_of. rewrite Ht. auto.
  - apply thread_event_turns in Ha as (H1 & H2 & H3). unfold turns_of in *. rewrite Ht in *.
    simpl in *. split; [done|]. destruct (decide (a = EventAdmitted)); auto.
Qed.

Definition known_status (s : string) : Prop :=
  s = "open" ∨ s = "completed" ∨ s = "interrupted" ∨ s = "blocked".

Record turns_wf (ts : list FoldedTurn) : Prop := mkTurnsWf {
  tw_ids : NoDup (map ft_turn_id ts);
  tw_requests : NoDup (omap ft_client_request_id ts);
  tw_status : Forall (λ t, known_status (ft_status t)) ts;
}.

Lemma terminal_known s : is_turn_terminal s = true → known_status s.
Proof. unfold is_turn_terminal, known_status. rewrite bool_decide_eq_true. tauto. Qed.

Lemma elem_of_requests c ts :
  c ∈ omap ft_client_request_id ts ↔ has_client_request c ts = true.
Proof.
  rewrite has_client_request_spec, list_elem_of_omap. change (map ft_client_request_id ts)
    with (ft_client_request_id <$> ts). rewrite list_elem_of_fmap. naive_solver.
Qed.

Lemma turns_step_wf e ts ts' : turns_step e ts ts' → turns_wf ts → turns_wf ts'.
Proof.
  intros [ts0 _|pre t t' post _ _ ((Hid & Hreq & _) & _ & Hst & _)|ts0 t _ _ _ Hst _ Hnew Hreq] [H1 H2 H3].
  - done.
  - rewrite !map_app in H1. rewrite !omap_app in H2. split.
    + rewrite !map_app. simpl in *. by rewrite <- Hid.
    + rewrite !omap_app. simpl in *. by rewrite <- Hreq.
    + rewrite Forall_app, Forall_cons_iff in *. destruct H3 as (? & ? & ?). split_and!; try done.
      destruct Hst as [<-|?]; [done|by apply terminal_known].
  - split.
    + rewrite map_app. simpl. apply list.NoDup_app. split_and!; [done| |apply NoDup_singleton].
      intros x Hx ->%list_elem_of_singleton. apply has_turn_spec in Hx. congruence.
    + rewrite omap_app. simpl. destruct (ft_client_request_id t) as [c|]; [|by rewrite app_nil_r].
      apply list.NoDup_app. split_and!; [done| |apply NoDup_singleton].
      intros x Hx ->%list_elem_of_singleton. apply elem_of_requests in Hx.
      rewrite (Hreq c) in Hx; done.
    + apply Forall_app. split; [done|]. apply Forall_singleton. left. done.
Qed.

Lemma replay_app j rows rows' : replay j (rows ++ rows') = replay (replay j rows) rows'.
Proof. unfold replay. by rewrite foldl_app. Qed.

Lemma replay_cons j row rows : replay j (row :: rows) = replay (apply_row j row).1 rows.
Proof. done. Qed.

Lemma replay_wf rows : ∀ j thread,
  (∀ thread, turns_wf (turns_of j thread)) → turns_wf (turns_of (replay j rows) thread).
Proof.
  induction rows as [|row rows IH]; intros j thread Hwf; [done|].
  rewrite replay_cons. apply IH. clear thread. intros thread.
  destruct (apply_row_step j row) as [Ho Hs].
  destruct (decide (thread = thread_id (ce_event row))) as [->|Hne]; [|by rewrite Ho].
  destruct Hs as [->|Hs]; [done|by eapply turns_step_wf].
Qed.

(**  In every journal replayed from scratch, whatever rows it holds, the
    turns of a thread have distinct turn ids, no client request id belongs to
    two of them, and each has one of the four statuses. *)
Theorem replay_turns_wf (rows : list CursorEvent) (thread : string) (entry : FoldedThread) :
  mj_threads (replay default_journal rows) !! thread = Some entry →
  NoDup (map ft_turn_id (th_turns entry)) ∧
  NoDup (omap ft_client_request_id (th_turns entry)) ∧
  Forall (λ t, known_status (ft_status t)) (th_turns entry).
Proof.
  intros He. assert (turns_wf (turns_of (replay default_journal rows) thread)) as [? ? ?].
  { apply replay_wf. intros. unfold turns_of. simpl. rewrite lookup_empty.
    split; [apply NoDup_nil_2..|constructor]. }
  unfold turns_of in *. by rewrite He in *.
Qed.

(** ** What becomes of a turn *)

Lemma turns_step_lookup e ts ts' i t :
  turns_step e ts ts' → ts !! i = Some t →
  ∃ t', ts' !! i = Some t' ∧
    (t' = t ∨ (turn_id e = Some (ft_turn_id t) ∧ turn_change e t t')).
Proof.
  intros [ts0 _|pre u u' post Hid _ Hc|ts0 u _ _ _ _ _ _ _] Hi.
  - eauto.
  - destruct (decide (i = length pre)) as [->|Hne].
    + rewrite list_lookup_middle in Hi by done. simplify_eq. exists u'.
      rewrite list_lookup_middle by done. auto.
    + exists t. split; [|auto]. destruct (decide (i < length pre)%nat) as [Hlt|Hge].
      * rewrite lookup_app_l in * by done. done.
      * rewrite lookup_app_r in * by lia.
        destruct (i - length pre)%nat eqn:E; [lia|done].
  - exists t. split; [|auto]. by apply lookup_app_l_Some.
Qed.

Lemma apply_row_lookup j row thread i t :
  turns_of j thread !! i = Some t →
  ∃ t', turns_of (apply_row j row).1 thread !! i = Some t' ∧
    (t' = t ∨ (thread_id (ce_event row) = thread ∧
               turn_id (ce_event row) = Some (ft_turn_id t) ∧ turn_change (ce_event row) t t')).
Proof.
  intros Hi. destruct (apply_row_step j row) as [Ho Hs].
  destruct (decide (thread = thread_id (ce_event row))) as [->|Hne].
  - destruct Hs as [->|Hs]; [eauto|].
    destruct (turns_step_lookup _ _ _ _ _ Hs Hi) as (t' & ? & ?). exists t'. naive_solver.
  - rewrite Ho by done. eauto.
Qed.

Lemma closed_no_step e s p : ¬ phase_step e (Closed s) p.
Proof. inversion 1. Qed.

Lemma terminal_phase t : is_turn_terminal (ft_status t) = true → phase t = Closed (ft_status t).
Proof. unfold phase. by intros ->. Qed.

Lemma identity_trans t u v : same_identity t u → same_identity u v → same_identity t v.
Proof. unfold same_identity. intuition congruence. Qed.

Lemma replay_lookup (j : MaterializedJournal) (rows : list CursorEvent)
    (thread : string) (i : nat) (t : FoldedTurn) :
  turns_of j thread !! i = Some t →
  ∃ t', turns_of (replay j rows) thread !! i = Some t' ∧ same_identity t t' ∧
    (is_turn_terminal (ft_status t) = true → t' = t).
Proof.
  revert j t. induction rows as [|row rows IH]; intros j t Hi.
  { exists t. by split_and!. }
  rewrite replay_cons. destruct (apply_row_lookup j row thread i t Hi) as (u & Hu & Hc).
  destruct (IH _ _ Hu) as (t' & Ht' & Hid & Hterm). exists t'.
  destruct Hc as [->|(_ & _ & (Hs & Hp & _))]; [done|]. split_and!; [done|by eapply identity_trans|].
  intros Hcl. rewrite (terminal_phase _ Hcl) in Hp. by apply closed_no_step in Hp.
Qed.

(** C4.  Turns are permanent: whatever rows follow, every turn of a thread
    keeps its position and its identity (turn id, client request id, Work,
    prompt fingerprint, start, routing policy), and a turn that is completed,
    interrupted or blocked is never changed again in any field. *)
Theorem turns_are_permanent (j : MaterializedJournal) (rows : list CursorEvent)
    (thread : string) (i : nat) (t : FoldedTurn) :
  turns_of j thread !! i = Some t →
  ∃ t', turns_of (replay j rows) thread !! i = Some t' ∧ same_identity t t' ∧
    (is_turn_terminal (ft_status t) = true → t' = t).
Proof. apply replay_lookup. Qed.

(**  The cancellation contract: a turn whose cancellation was requested
    stays so until a [turn_interrupted] row for that turn names
    OPERATOR_CANCELLED, and then it is interrupted; no other row closes it. *)
Theorem cancellation_contract (j : MaterializedJournal) (rows : list CursorEvent)
    (thread : string) (i : nat) (t : FoldedTurn) :
  turns_of j thread !! i = Some t → phase t = Cancelling →
  ∃ t', turns_of (replay j rows) thread !! i = Some t' ∧
    (phase t' = Cancelling ∨
     (phase t' = Closed "interrupted" ∧
      Exists (λ row, thread_id (ce_event row) = thread ∧
                turn_id (ce_event row) = Some (ft_turn_id t) ∧
                event_type (ce_event row) = TurnInterrupted ∧
                interruption_reason (ce_event row) = Some "OPERATOR_CANCELLED") rows)).
Proof.
  revert j t. induction rows as [|row rows IH]; intros j t Hi Hph; [eauto|].
  rewrite replay_cons. destruct (apply_row_lookup j row thread i t Hi) as (u & Hu & Hc).
  destruct Hc as [->|(Hth & Hid & (Hs & Hp & _))].
  - destruct (IH _ _ Hu Hph) as (t' & ? & [?|[? ?]]); exists t'; auto.
  - rewrite Hph in Hp. inversion Hp as [| | | | |Ha Hq1 Hq2|Ht Hr Hq1 Hq2].
    + destruct (IH _ _ Hu (eq_sym Hq2)) as (t' & ? & [?|[? He]]); exists t'; auto.
      split; [done|]. right. split; [done|]. right.
      destruct Hs as [Hsid _]. rewrite Hsid. exact He.
    + assert (is_turn_terminal (ft_status u) = true) as Hcl.
      { unfold phase in Hq2. by destruct (is_turn_terminal _), (ft_cancel_requested u). }
      destruct (replay_lookup _ rows _ _ _ Hu) as (t' & Ht' & _ & Hsame).
      exists t'. split; [done|]. right. rewrite (Hsame Hcl). split; [done|]. left. done.
Qed.

(** ** Writers and readers *)

(** The rows a writer may append that no reader admits, for current-schema
    thread events: a second [thread_created], a row on a thread that does not
    exist, an approval row without a turn, a tool call that cannot be matched
    to a completion, and a request that is already pending. *)
Definition reader_refuses (j : MaterializedJournal) (e : OperatorEvent) : bool :=
  match mj_threads j !! thread_id e with
  | None => negb (bool_decide (event_type e = ThreadCreated ∨ event_type e = TurnStarted))
  | Some entry =>
      let turn := id ← turn_id e; find_turn id (th_turns entry) in
      match event_type e with
      | ThreadCreated => true
      | ApprovalDecided => bool_decide (turn_id e = None)
      | ApprovalRequested =>
          match turn, approval_key e with
          | Some turn, Some key => bool_decide (key ∈ ft_pending_approvals turn)
          | Some _, None => false
          | None, _ => true
          end
      | ToolCallStarted =>
          match turn, tool_key e with
          | Some turn, Some key => bool_decide (key ∈ ft_pending_tools turn)
          | _, _ => true
          end
      | _ => false
      end
  end.

(** The same for project rows: one that names no project or is not on the
    project's own subject, a creation without a title or of a project that
    exists, and an update of one that does not. *)
Definition project_refuses (j : MaterializedJournal) (e : OperatorEvent) : bool :=
  match get_str (payload e) "project_id" with
  | None => true
  | Some id =>
      negb (bool_decide (thread_id e = project_subject id)) ||
      match event_type e with
      | ProjectCreated =>
          bool_decide (get_str (payload e) "title" = None ∨ is_Some (mj_projects j !! id))
      | _ => bool_decide (mj_projects j !! id = None)
      end
  end.

(** Every row a writer may append under a fresh id that no reader admits. *)
Definition row_refused (j : MaterializedJournal) (e : OperatorEvent) : bool :=
  if is_project_event (event_type e) then project_refuses j e else reader_refuses j e.

Lemma project_event_admission j row order :
  event_id (ce_event row) ∉ mj_seen_event_ids j →
  schema_version (ce_event row) = OPERATOR_EVENT_SCHEMA_VERSION →
  is_project_event (event_type (ce_event row)) = true →
  (apply_event j row order).2 =
    if project_refuses j (ce_event row) then Rejected else EventAdmitted.
Proof.
  intros Hf Hs Hp. unfold apply_event, project_refuses.
  rewrite bool_decide_false, bool_decide_false by auto.
  destruct (event_type (ce_event row)); try done;
    unfold apply_project_created, apply_project_updated;
    destruct (get_str (payload (ce_event row)) "project_id") as [id|]; try done; cbn [mj_projects set_seen];
    destruct (get_str (payload (ce_event row)) "title"), (mj_projects j !! id);
    repeat case_bool_decide; simpl; try done; naive_solver.
Qed.

Lemma bail_if_Ok {E} b (e : E) : bail_if b e = Ok tt ↔ b = false.
Proof. destruct b; simpl; split; congruence. Qed.

Lemma bail_bind_Ok {E A} b (e : E) (k : unit → result E A) a :
  (x ← bail_if b e; k x) = Ok a ↔ b = false ∧ k tt = Ok a.
Proof. destruct b; simpl; split; naive_solver. Qed.

(** What validation has established of an accepted event on its turn. *)
Lemma validate_on_turn_Ok turn e :
  validate_on_turn turn e = Ok tt →
  is_turn_terminal (ft_status turn) = false ∧
  (event_type e = ApprovalDecided → validate_approval_decided turn e = Ok tt) ∧
  (event_type e = ToolCallCompleted →
     ∃ key, tool_key e = Some key ∧ key ∈ ft_pending_tools turn) ∧
  validate_cancellation turn e = Ok tt.
Proof.
  unfold validate_on_turn. rewrite !bail_bind_Ok. intros (_ & Hs & Hr).
  apply result_bind_Ok in Hr as ([] & Ha & [Ht Hc]%bail_bind_Ok). split_and!; [done|..|done].
  - intros Hty. by rewrite bool_decide_true in Ha.
  - intros Hty. rewrite bool_decide_true in Ht by done. simpl in Ht.
    destruct (tool_key e) as [key|]; simpl in Ht; [|done]. exists key. split; [done|].
    by apply negb_false_iff, bool_decide_eq_true in Ht.
Qed.

Lemma validate_cancellation_Ok turn e :
  validate_cancellation turn e = Ok tt →
  (ft_cancel_requested turn = true →
     is_cancellation_approval_audit turn e = true ∨ is_cancellation_tool_audit turn e = true ∨
     (event_type e = TurnInterrupted ∧ interruption_reason e = Some "OPERATOR_CANCELLED")) ∧
  (ft_cancel_requested turn = false →
     ¬ (event_type e = TurnInterrupted ∧ interruption_reason e = Some "OPERATOR_CANCELLED")).
Proof.
  unfold validate_cancellation. destruct (ft_cancel_requested turn).
  - rewrite bail_if_Ok. intros Hb. split; [|done]. intros _.
    destruct (is_cancellation_approval_audit turn e); [by left|].
    destruct (is_cancellation_tool_audit turn e); [by right; left|]. right; right. simpl in Hb.
    apply orb_false_iff in Hb as [H1%bool_decide_eq_false H2%bool_decide_eq_false].
    split; by apply dec_stable.
  - intros Hv. split; [done|]. intros _ [H1 H2].
    rewrite bool_decide_true, bool_decide_true in Hv by done. done.
Qed.

Lemma approval_audit_type turn e :
  is_cancellation_approval_audit turn e = true → event_type e = ApprovalDecided.
Proof. unfold is_cancellation_approval_audit. rewrite !andb_true_iff, !bool_decide_eq_true. tauto. Qed.

Lemma tool_audit_type turn e :
  is_cancellation_tool_audit turn e = true → event_type e = ToolCallCompleted.
Proof. unfold is_cancellation_tool_audit. rewrite !andb_true_iff, !bool_decide_eq_true. tauto. Qed.

(** A turn event the replay applies through [on_turn] succeeds when its change
    accepts the turn that validation looked up. *)
Lemma on_turn_is_Some entry e f id turn :
  turn_id e = Some id → find_turn id (th_turns entry) = Some turn →
  is_Some (on_turn entry e f) ↔ is_Some (f turn).
Proof.
  intros Hid Hf. unfold on_turn. rewrite Hid. simpl.
  assert (is_Some (update_turn id f (th_turns entry)) ↔ is_Some (f turn)) as <-.
  { rewrite update_turn_is_Some, Hf. naive_solver. }
  destruct (update_turn _ _ _); simpl; split; intros [? ?]; eauto; done.
Qed.

Section accepted.
Context (entry : FoldedThread) (row : CursorEvent) (id : string) (turn : FoldedTurn).
Let e := ce_event row.
Hypothesis Hid : turn_id e = Some id.
Hypothesis Hfind : find_turn id (th_turns entry) = Some turn.
Hypothesis Hvalid : validate_on_turn turn e = Ok tt.

(** An accepted event on a cancelling turn that is no audit is the
    interruption. *)
Lemma accepted_guard audit :
  (is_cancellation_approval_audit turn e = true → audit = true) →
  (is_cancellation_tool_audit turn e = true → audit = true) →
  event_type e ≠ TurnInterrupted →
  is_turn_terminal (ft_status turn) || (ft_cancel_requested turn && negb audit) = false.
Proof.
  intros Ha Ht Hne. apply validate_on_turn_Ok in Hvalid as (-> & _ & _ & Hc).
  apply validate_cancellation_Ok in Hc as [Hc _]. simpl.
  destruct (ft_cancel_requested turn); [|done]. simpl.
  destruct (Hc eq_refl) as [?|[?|[? _]]]; [by rewrite Ha|by rewrite Ht|done].
Qed.

Lemma accepted_plain_guard :
  event_type e ∉ [ApprovalDecided; ToolCallCompleted; TurnInterrupted] →
  is_turn_terminal (ft_status turn) || ft_cancel_requested turn = false.
Proof.
  intros Hne. rewrite <- (andb_true_r (ft_cancel_requested turn)).
  apply (accepted_guard false); [intros Ha%approval_audit_type|intros Ha%tool_audit_type|];
    set_solver.
Qed.

Lemma accepted_touch :
  event_type e ∉ [ApprovalDecided; ToolCallCompleted; TurnInterrupted] →
  apply_nonterminal_touch entry e = Some entry.
Proof.
  intros Hne. unfold apply_nonterminal_touch. rewrite Hid, Hfind. simpl.
  rewrite accepted_guard; [done| |intros Ha%tool_audit_type; set_solver|set_solver].
  done.
Qed.

Lemma accepted_terminal status :
  (event_type e, status) ∈ [(TurnCompleted, "completed"); (TurnInterrupted, "interrupted");
                            (Blocker, "blocked")] →
  is_Some (apply_terminal entry e status).
Proof.
  intros Hin. unfold apply_terminal. rewrite Hid.
  apply (on_turn_is_Some _ _ _ id turn Hid Hfind).
  pose proof Hvalid as (Hs & _ & _ & [Hc Hn]%validate_cancellation_Ok)%validate_on_turn_Ok.
  rewrite Hs. rewrite !elem_of_cons, elem_of_nil in Hin.
  destruct (ft_cancel_requested turn) eqn:Hcr; simpl.
  - destruct (Hc eq_refl) as [Ha%approval_audit_type|[Ha%tool_audit_type|[Ht Hr]]];
      destruct Hin as [[= Hq ->]|[[= Hq ->]|[[= Hq ->]|[]]]]; try congruence.
    rewrite !bool_decide_false by auto. eauto.
  - destruct (bool_decide (event_type e = TurnInterrupted) && _) eqn:Hb; [|eauto].
    apply andb_true_iff in Hb as [H1%bool_decide_eq_true H2%bool_decide_eq_true].
    by destruct (Hn eq_refl).
Qed.
End accepted.

Lemma validate_event_Ok threads work_threads e :
  validate_event threads work_threads e = Return (Ok tt) →
  schema_version e = OPERATOR_EVENT_SCHEMA_VERSION ∧
  (requires_turn_id (event_type e) = true → is_Some (turn_id e)) ∧
  (event_type e = TurnStarted → validate_turn_started threads e = Return (Ok tt)) ∧
  (event_type e ≠ TurnStarted → ∀ id, turn_id e = Some id →
     ∃ entry turn, threads !! thread_id e = Some entry ∧
       find_turn id (th_turns entry) = Some turn ∧ validate_on_turn turn e = Ok tt).
Proof.
  unfold validate_event. destruct (validate_identifiers e) as [[]|] eqn:Hi; [|done].
  unfold validate_identifiers in Hi. rewrite !bail_bind_Ok in Hi.
  destruct Hi as (Hv & Ht & _). apply bool_decide_eq_false, dec_stable in Hv. intros Hval.
  split_and!; [done|..].
  - intros Hr. rewrite Hr in Ht. simpl in Ht. apply bool_decide_eq_false in Ht.
    destruct (turn_id e); [eauto|done].
  - intros Hty. rewrite bool_decide_true in Hval by done.
    destruct (work_id e); [|done]. by destruct (work_linked _ _ _).
  - intros Hty id Hid. rewrite bool_decide_false, Hid in Hval by done.
    injection Hval as Hval. apply result_bind_Ok in Hval as (turn & Hf & Hv').
    destruct (threads !! thread_id e) as [entry|]; simpl in Hf; [|done].
    destruct (find_turn id (th_turns entry)) as [turn'|] eqn:Hft; simpl in Hf; [|done].
    injection Hf as ->. by exists entry, turn.
Qed.

Lemma validate_turn_started_Ok threads e :
  validate_turn_started threads e = Return (Ok tt) →
  match threads !! thread_id e with
  | Some entry => is_Some (apply_turn_started entry e)
  | None => is_Some (apply_turn_started (new_thread (thread_id e)) e)
  end.
Proof.
  unfold validate_turn_started, apply_turn_started.
  destruct (turn_id e) as [id|]; [|done]. simpl.
  destruct (threads !! thread_id e) as [entry|]; simpl.
  - intros [= Hv]. apply bail_bind_Ok in Hv as [-> Hv].
    destruct (get_str (payload e) "client_request_id") as [c|]; [|eauto].
    apply bail_if_Ok in Hv as ->. eauto.
  - intros _. destruct (get_str (payload e) "client_request_id"); eauto.
Qed.

Ltac some_iff := split; intros Hx; first [done | by eauto | by destruct Hx].

(** An accepted event on an existing turn is admitted unless it is refused. *)
Lemma accepted_on_turn (j : MaterializedJournal) entry row id turn :
  let e := ce_event row in
  mj_threads j !! thread_id e = Some entry →
  turn_id e = Some id → find_turn id (th_turns entry) = Some turn →
  validate_on_turn turn e = Ok tt →
  is_project_event (event_type e) = false → event_type e ≠ TurnStarted →
  is_Some (apply_to_existing_thread entry row) ↔ reader_refuses j e = false.
Proof.
  intros e He Hid Hfind Hv Hp Hns. unfold reader_refuses, apply_to_existing_thread. fold e.
  rewrite He, Hid. simpl. rewrite Hfind.
  pose proof (accepted_plain_guard entry row id turn Hid Hfind Hv) as Hg.
  pose proof (accepted_touch entry row id turn Hid Hfind Hv) as Htouch.
  pose proof (accepted_terminal entry row id turn Hid Hfind Hv) as Hterm.
  pose proof (on_turn_is_Some entry e) as Hon.
  pose proof (validate_on_turn_Ok turn e Hv) as (Hs & Happ & Htool & _).
  fold e in Hg, Htouch, Hterm.
  destruct (event_type e) eqn:Hty; try done;
    try (rewrite Htouch by set_solver; split; [done|eauto]);
    try (split; [done|intros _; apply Hterm; set_solver]).
  - unfold apply_user_message. fold e. rewrite (Hon _ _ _ Hid Hfind), Hg by set_solver.
    split; [done|eauto].
  - unfold apply_tool_started. rewrite (Hon _ _ _ Hid Hfind), Hg by set_solver.
    destruct (tool_key e) as [key|]; simpl; [|some_iff].
    case_bool_decide; some_iff.
  - unfold apply_tool_completed. rewrite (Hon _ _ _ Hid Hfind).
    pose proof (accepted_guard row turn Hv (is_cancellation_tool_audit turn e)) as Hgt.
    fold e in Hgt. rewrite Hty in Hgt.
    rewrite Hgt; [|intros Ha%approval_audit_type; congruence|done..].
    destruct (Htool eq_refl) as (key & -> & Hk). simpl. rewrite bool_decide_true by done.
    split; [done|eauto].
  - unfold apply_approval_requested. rewrite (Hon _ _ _ Hid Hfind), Hg by set_solver.
    destruct (approval_key e) as [key|]; [|split; [done|eauto]].
    case_bool_decide; some_iff.
  - unfold apply_approval_decided. rewrite (Hon _ _ _ Hid Hfind).
    pose proof (accepted_guard row turn Hv (is_cancellation_approval_audit turn e)) as Hga.
    fold e in Hga. rewrite Hty in Hga.
    apply orb_false_iff in Hga as [-> ->]; [|done|intros Ha%tool_audit_type; congruence|done].
    split; [done|intros _].
    specialize (Happ eq_refl). unfold validate_approval_decided in Happ.
    destruct (approval_key e) as [key|]; apply bail_if_Ok in Happ.
    + apply negb_false_iff in Happ. rewrite Happ. by eexists.
    + apply bool_decide_eq_false, dec_stable in Happ. rewrite bool_decide_true by done. by eexists.
  - unfold apply_turn_cancel_requested. rewrite (Hon _ _ _ Hid Hfind), Hg by set_solver.
    split; [done|eauto].
Qed.

(** An accepted event without a turn. *)
Lemma accepted_without_turn j entry row :
  let e := ce_event row in
  mj_threads j !! thread_id e = Some entry → turn_id e = None →
  requires_turn_id (event_type e) = false → is_project_event (event_type e) = false →
  is_Some (apply_to_existing_thread entry row) ↔ reader_refuses j e = false.
Proof.
  intros e He Hid Hr Hp. unfold reader_refuses, apply_to_existing_thread. fold e.
  rewrite He, Hid. simpl.
  unfold apply_nonterminal_touch, apply_terminal, apply_approval_requested,
    apply_approval_decided, on_turn. rewrite Hid.
  destruct (event_type e) eqn:Hty; try done; simpl; some_iff.
Qed.

Lemma accepted_thread_event j row order :
  let e := ce_event row in
  validate_event (mj_threads j) (mj_work_threads j) e = Return (Ok tt) →
  is_project_event (event_type e) = false →
  (apply_thread_event j row order).2 =
    if reader_refuses j e then Rejected else EventAdmitted.
Proof.
  intros e Hv Hp. apply validate_event_Ok in Hv as (_ & Hreq & Hstart & Hturn).
  assert (∀ entry, mj_threads j !! thread_id e = Some entry →
    is_Some (apply_to_existing_thread entry row) ↔ reader_refuses j e = false) as Hex.
  { intros entry He. destruct (decide (event_type e = TurnStarted)) as [Hty|Hty].
    - specialize (Hstart Hty). apply validate_turn_started_Ok in Hstart. rewrite He in Hstart.
      unfold reader_refuses, apply_to_existing_thread. fold e. rewrite He, Hty. done.
    - destruct (turn_id e) as [id|] eqn:Hid.
      + destruct (Hturn Hty id eq_refl) as (entry' & turn & He' & Hf & Hvt).
        simplify_eq. by eapply accepted_on_turn.
      + apply accepted_without_turn; try done.
        destruct (requires_turn_id (event_type e)) eqn:Hr; [|done].
        by destruct (Hreq eq_refl). }
  unfold apply_thread_event. fold e.
  destruct (mj_threads j !! thread_id e) as [entry|] eqn:He.
  - destruct (Hex entry eq_refl) as [H1 H2].
    destruct (apply_to_existing_thread entry row), (reader_refuses j e); simpl; try done.
    + by discriminate H1.
    + by destruct (H2 eq_refl).
  - unfold reader_refuses, new_thread_from. rewrite He.
    destruct (event_type e) eqn:Hty; try done.
    specialize (Hstart eq_refl). apply validate_turn_started_Ok in Hstart. rewrite He in Hstart.
    destruct Hstart as [entry ->]. done.
Qed.

(** C26.  Writer and reader: validation never panics, and what it accepts, under
    an event id the journal has not seen, replay admits, except for exactly the
    rows that [row_refused] lists; those are appended and then counted as
    skipped. *)
Theorem writer_and_reader_agree (j : MaterializedJournal) (row : CursorEvent) (order : Z) :
  (∃ r, validate_event (mj_threads j) (mj_work_threads j) (ce_event row) = Return r) ∧
  (validate_event (mj_threads j) (mj_work_threads j) (ce_event row) = Return (Ok tt) →
   event_id (ce_event row) ∉ mj_seen_event_ids j →
   (apply_event j row order).2 =
     if row_refused j (ce_event row) then Rejected else EventAdmitted).
Proof.
  split.
  - unfold validate_event. destruct (validate_identifiers _) as [[]|] eqn:Hi; [|by eexists].
    case_bool_decide as Hty; [|by eexists].
    unfold validate_identifiers in Hi. rewrite !bail_bind_Ok in Hi. destruct Hi as (_ & Ht & _).
    rewrite Hty in Ht. simpl in Ht. apply bool_decide_eq_false in Ht.
    unfold validate_turn_started. destruct (turn_id _); [|done].
    destruct (work_id _); [destruct (work_linked _ _ _)|]; by eexists.
  - intros Hv Hf. pose proof Hv as (Hs & _)%validate_event_Ok. unfold row_refused.
    destruct (is_project_event (event_type (ce_event row))) eqn:Hp;
      [by apply project_event_admission|].
    unfold apply_event. rewrite bool_decide_false, bool_decide_false by auto.
    set (j0 := set_seen _ j).
    transitivity (apply_thread_event j0 row order).2.
    { by destruct (event_type (ce_event row)). }
    by apply (accepted_thread_event j0).
Qed.

(** ** Witnesses *)

Definition sample (id : string) (ty : OperatorEventType) (turn : option string) (p : json)
    : CursorEvent :=
  mkRow ("c-" +:+ id)
    (mkEvent OPERATOR_EVENT_SCHEMA_VERSION id "thread-1" turn None None None ty
       "2026-01-01T00:00:00Z" (mkActor "operator" "local-operator") RiskLow LocalPrivate
       None None [] [] p).

Definition sample_start : CursorEvent := sample "e1" TurnStarted (Some "turn-1") (json_object []).
Definition sample_cancel : CursorEvent :=
  sample "e2" TurnCancelRequested (Some "turn-1") (json_object []).
Definition sample_interrupted : CursorEvent :=
  sample "e3" TurnInterrupted (Some "turn-1")
    (json_object [("reason", JString "OPERATOR_CANCELLED")]).
Definition sample_turn : FoldedTurn :=
  mkTurn "turn-1" None None None "open" false None None "2026-01-01T00:00:00Z" None ∅ ∅.

(** A row that opens a turn is accepted and admitted; a second [thread_created]
    on its thread is accepted and refused. *)
Definition sample_thread : CursorEvent := sample "e9" ThreadCreated None (json_object []).

Lemma writer_and_reader_agree_witness :
  let j := (apply_event default_journal sample_start 1).1 in
  validate_event (mj_threads j) (mj_work_threads j) (ce_event sample_cancel) = Return (Ok tt) ∧
  (apply_event j sample_cancel 2).2 = EventAdmitted ∧
  validate_event (mj_threads j) (mj_work_threads j) (ce_event sample_thread) = Return (Ok tt) ∧
  (apply_event j sample_thread 2).2 = Rejected.
Proof.
  intros j. split; [vm_compute; reflexivity|]. split.
  { rewrite (proj2 (writer_and_reader_agree j sample_cancel 2)); [vm_compute; reflexivity..|].
    apply (bool_decide_unpack _). vm_compute. exact I. }
  split; [vm_compute; reflexivity|].
  rewrite (proj2 (writer_and_reader_agree j sample_thread 2)); [vm_compute; reflexivity..|].
  apply (bool_decide_unpack _). vm_compute. exact I.
Defined.

Lemma replay_refines_turn_protocol_witness :
  is_project_event (event_type (ce_event sample_start)) = true ∨
  turns_step (ce_event sample_start)
    (turns_of default_journal (thread_id (ce_event sample_start)))
    (turns_of (apply_event default_journal sample_start 1).1 (thread_id (ce_event sample_start))).
Proof.
  exact (proj1 (replay_refines_turn_protocol default_journal
    (apply_event default_journal sample_start 1).1 sample_start 1 EventAdmitted
    ltac:(vm_compute; reflexivity)) eq_refl).
Defined.

Lemma replay_turns_wf_witness :
  ∃ entry, mj_threads (replay default_journal [sample_start]) !! "thread-1" = Some entry ∧
    NoDup (map ft_turn_id (th_turns entry)).
Proof.
  eexists. split; [vm_compute; reflexivity|].
  eapply (proj1 (replay_turns_wf [sample_start] "thread-1" _ ltac:(vm_compute; reflexivity))).
Defined.

Lemma turns_are_permanent_witness :
  ∃ t', turns_of (replay (replay default_journal [sample_start]) [sample_cancel; sample_interrupted])
          "thread-1" !! 0%nat = Some t' ∧ same_identity sample_turn t' ∧
    (is_turn_terminal (ft_status sample_turn) = true → t' = sample_turn).
Proof.
  exact (turns_are_permanent (replay default_journal [sample_start])
    [sample_cancel; sample_interrupted] "thread-1" 0 sample_turn
    ltac:(vm_compute; reflexivity)).
Defined.

Lemma cancellation_contract_witness :
  ∃ t', turns_of (replay (replay default_journal [sample_start; sample_cancel])
                    [sample_interrupted]) "thread-1" !! 0%nat = Some t' ∧
    (phase t' = Cancelling ∨
     (phase t' = Closed "interrupted" ∧
      Exists (λ row, thread_id (ce_event row) = "thread-1" ∧
                turn_id (ce_event row) = Some "turn-1" ∧
                event_type (ce_event row) = TurnInterrupted ∧
                interruption_reason (ce_event row) = Some "OPERATOR_CANCELLED")
        [sample_interrupted])).
Proof.
  exact (cancellation_contract (replay default_journal [sample_start; sample_cancel])
    [sample_interrupted] "thread-1" 0 (set_cancel_requested sample_turn)
    ltac:(vm_compute; reflexivity) ltac:(reflexivity)).
Defined.

(** A tool call without a name is accepted by the writer and refused by every
    reader. *)
Example unnamed_tool_call :
  let e := sample "e4" ToolCallStarted (Some "turn-1") (json_object []) in
  let row := mkRow "c-e4" (mkEvent 1 "e4" "thread-1" (Some "turn-1") None (Some "call-1") None
               ToolCallStarted (occurred_at (ce_event e)) (actor (ce_event e)) RiskLow LocalPrivate
               None None [] [] (json_object [])) in
  let j := replay default_journal [sample_start] in
  validate_event (mj_threads j) (mj_work_threads j) (ce_event row) = Return (Ok tt) ∧
  (apply_event j row 2).2 = Rejected.
Proof. vm_compute. auto. Qed.

(** The whole cancellation, from the request to the closing record. *)
Example cancelled_turn :
  map ft_status (turns_of (replay default_journal
    [sample_start; sample_cancel; sample_interrupted]) "thread-1") = ["interrupted"].
Proof. vm_compute. reflexivity. Qed.
