(* ===== verification/EventLog.v ===== *)
(** * The event log interface

    What the session service asks of the operator journal
    (crates/heiwa_evidence/src/operator.rs): an append, and a cursor-based page
    read.  [EventLogLaws] is the contract the service's theorems are proved
    against. *)

From stdpp Require Import base gmap sets strings numbers list.
From S2P Require Import Prelude Json OperatorEvent Turns.
#[local] Open Scope Z_scope.

Inductive CursorError : Type :=
| InvalidCursor (reason : string)
| UnstableLineage (attempts : Z)
| Storage (error : string).

Record OperatorPage : Type := mkPage {
  op_events : list CursorEvent;
  op_next_cursor : option string;
  op_skipped_lines : Z;
}.

(** The cursor after the last row, or the one given when there is none. *)
Definition cursor_after (cursor : option string) (rows : list CursorEvent) : option string :=
  match last rows with Some row => Some (ce_cursor row) | None => cursor end.

Class EventLog (L : Type) : Type := {
  log_append : L → OperatorEvent → L * result string CursorEvent;
  log_read_after : L → option string → nat → result CursorError OperatorPage;
}.

(** [log_rows] are the events a reader sees, in append order; a [log_readable]
    log answers every read at a cursor of its own; an event that [log_encodes]
    reads back as it was written. *)
Class EventLogLaws (L : Type) `{EventLog L} : Type := {
  log_rows : L → list CursorEvent;
  log_readable : L → Prop;
  log_encodes : OperatorEvent → Prop;
  (** A row's cursor names its place. *)
  log_cursors : ∀ l, NoDup (map ce_cursor (log_rows l));
  log_read : ∀ l pre post cursor limit page,
    log_rows l = pre ++ post → cursor = cursor_after None pre →
    log_read_after l cursor limit = Ok page →
    op_events page = take limit post ∧
    op_next_cursor page = cursor_after cursor (take limit post);
  log_read_ok : ∀ l pre post limit,
    log_readable l → log_rows l = pre ++ post →
    ∃ page, log_read_after l (cursor_after None pre) limit = Ok page;
  (** An append that succeeded added its event and nothing else. *)
  log_append_ok : ∀ l e l' row, log_encodes e → log_append l e = (l', Ok row) →
    ce_event row = e ∧ log_rows l' = log_rows l ++ [row];
  (** Whatever came of an append, the rows before it are where they were. *)
  log_append_extends : ∀ l e l' r, log_append l e = (l', r) →
    ∃ rows, log_rows l' = log_rows l ++ rows ∧ (length rows ≤ 1)%nat;
}.

Lemma cursor_after_app c a b : cursor_after (cursor_after c a) b = cursor_after c (a ++ b).
Proof.
  unfold cursor_after. destruct b as [|x b] using rev_ind; [by rewrite app_nil_r|].
  by rewrite app_assoc, !last_snoc.
Qed.
