(* ===== verification/EvidenceRecords.v ===== *)
(** * Persisted evidence records (crates/heiwa_evidence/src/records.rs)

    The rows of the evidence streams with their derived serialization, and the
    derived deserialization of the two the worker view reads back. *)

From stdpp Require Import base strings numbers list.
From S2P Require Import Prelude Json OperatorEvent.
#[local] Open Scope Z_scope.

(** A signed 64-bit integer in a [Value], and read from one. *)
Definition i64_json (i : Z) : json := JNumber (if bool_decide (0 ≤ i) then PosInt i else NegInt i).

Definition as_i64 (v : json) : option Z :=
  match v with
  | JNumber (PosInt u) => if bool_decide (0 ≤ u < 2 ^ 63) then Some u else None
  | JNumber (NegInt i) => if bool_decide (- 2 ^ 63 ≤ i < 0) then Some i else None
  | _ => None
  end.

Record PersistedDrexDecision : Type := mkDecision {
  dd_drex_decision_id : string;
  dd_request_id : string;
  dd_task_id : string;
  dd_active_tier : string;
  dd_route_runtime : string;
  dd_route_model : string;
  dd_scope : Z;
  dd_abstraction : Z;
  dd_context_span : Z;
  dd_execution_proximity : Z;
  dd_blast_radius : Z;
  dd_coordination_load : Z;
  dd_latency_pressure : Z;
  dd_macro_score : Z;
  dd_meso_score : Z;
  dd_micro_score : Z;
  dd_score_confidence : Z;
  dd_authority_required : string;
  dd_requires_approval : bool;
  dd_reasons_json : string;
  dd_vector_json : string;
  dd_scorecard_json : string;
  dd_gate_json : string;
  dd_policy_version : string;
  dd_created_at_ms : Z;
}.

Definition encode_decision (r : PersistedDrexDecision) : json :=
  JObject [("drex_decision_id", JString (dd_drex_decision_id r));
           ("request_id", JString (dd_request_id r));
           ("task_id", JString (dd_task_id r));
           ("active_tier", JString (dd_active_tier r));
           ("route_runtime", JString (dd_route_runtime r));
           ("route_model", JString (dd_route_model r));
           ("scope", f64_json (dd_scope r));
           ("abstraction", f64_json (dd_abstraction r));
           ("context_span", f64_json (dd_context_span r));
           ("execution_proximity", f64_json (dd_execution_proximity r));
           ("blast_radius", f64_json (dd_blast_radius r));
           ("coordination_load", f64_json (dd_coordination_load r));
           ("latency_pressure", f64_json (dd_latency_pressure r));
           ("macro_score", f64_json (dd_macro_score r));
           ("meso_score", f64_json (dd_meso_score r));
           ("micro_score", f64_json (dd_micro_score r));
           ("score_confidence", f64_json (dd_score_confidence r));
           ("authority_required", JString (dd_authority_required r));
           ("requires_approval", JBool (dd_requires_approval r));
           ("reasons_json", JString (dd_reasons_json r));
           ("vector_json", JString (dd_vector_json r));
           ("scorecard_json", JString (dd_scorecard_json r));
           ("gate_json", JString (dd_gate_json r));
           ("policy_version", JString (dd_policy_version r));
           ("created_at_ms", JNumber (PosInt (dd_created_at_ms r)))].

Record PersistedDrexFailure : Type := mkDrexFailure {
  df_drex_decision_id : string;
  df_request_id : string;
  df_failure_mode : string;
  df_stage : string;
  df_details_json : string;
  df_recovered : bool;
  df_created_at_ms : Z;
}.

Definition encode_drex_failure (r : PersistedDrexFailure) : json :=
  JObject [("drex_decision_id", JString (df_drex_decision_id r));
           ("request_id", JString (df_request_id r));
           ("failure_mode", JString (df_failure_mode r));
           ("stage", JString (df_stage r));
           ("details_json", JString (df_details_json r));
           ("recovered", JBool (df_recovered r));
           ("created_at_ms", JNumber (PosInt (df_created_at_ms r)))].

Record PersistedArtifact : Type := mkArtifact {
  ar_artifact_id : string;
  ar_run_id : option string;
  ar_lease_id : option string;
  ar_session_id : option string;
  ar_user_id : string;
  ar_mission_id : string;
  ar_cell_run_id : option string;
  ar_artifact_type : string;
  ar_title : string;
  ar_uri : option string;
  ar_path : option string;
  ar_content_json : string;
  ar_created_at : string;
  ar_owner_id : option string;
  ar_principal_id : option string;
}.

Definition encode_artifact (r : PersistedArtifact) : json :=
  JObject [("artifact_id", JString (ar_artifact_id r));
           ("run_id", json_opt_str (ar_run_id r));
           ("lease_id", json_opt_str (ar_lease_id r));
           ("session_id", json_opt_str (ar_session_id r));
           ("user_id", JString (ar_user_id r));
           ("mission_id", JString (ar_mission_id r));
           ("cell_run_id", json_opt_str (ar_cell_run_id r));
           ("artifact_type", JString (ar_artifact_type r));
           ("title", JString (ar_title r));
           ("uri", json_opt_str (ar_uri r));
           ("path", json_opt_str (ar_path r));
           ("content_json", JString (ar_content_json r));
           ("created_at", JString (ar_created_at r));
           ("owner_id", json_opt_str (ar_owner_id r));
           ("principal_id", json_opt_str (ar_principal_id r))].

Record PersistedWorkerSession : Type := mkSession {
  ws_session_id : string;
  ws_node_id : string;
  ws_instance_id : string;
  ws_runtime : string;
  ws_runtime_version : string;
  ws_worker_version : string;
  ws_protocol : string;
  ws_capabilities_json : string;
  ws_metadata_json : string;
  ws_max_concurrency : Z;
  ws_active_tasks : Z;
  ws_status : string;
  ws_load : Z;
  ws_created_at : string;
  ws_updated_at : string;
  ws_expires_at : string;
  ws_last_seen_at : string;
  ws_closed_at : option string;
  ws_current_task_id : option string;
  ws_lease_id : option string;
}.

Definition encode_session (r : PersistedWorkerSession) : json :=
  JObject [("session_id", JString (ws_session_id r));
           ("node_id", JString (ws_node_id r));
           ("instance_id", JString (ws_instance_id r));
           ("runtime", JString (ws_runtime r));
           ("runtime_version", JString (ws_runtime_version r));
           ("worker_version", JString (ws_worker_version r));
           ("protocol", JString (ws_protocol r));
           ("capabilities_json", JString (ws_capabilities_json r));
           ("metadata_json", JString (ws_metadata_json r));
           ("max_concurrency", i64_json (ws_max_concurrency r));
           ("active_tasks", JNumber (PosInt (ws_active_tasks r)));
           ("status", JString (ws_status r));
           ("load", f64_json (ws_load r));
           ("created_at", JString (ws_created_at r));
           ("updated_at", JString (ws_updated_at r));
           ("expires_at", JString (ws_expires_at r));
           ("last_seen_at", JString (ws_last_seen_at r));
           ("closed_at", json_opt_str (ws_closed_at r));
           ("current_task_id", json_opt_str (ws_current_task_id r));
           ("lease_id", json_opt_str (ws_lease_id r))].

Definition session_fields : list string :=
  ["session_id"; "node_id"; "instance_id"; "runtime"; "runtime_version"; "worker_version";
   "protocol"; "capabilities_json"; "metadata_json"; "max_concurrency"; "active_tasks";
   "status"; "load"; "created_at"; "updated_at"; "expires_at"; "last_seen_at"; "closed_at";
   "current_task_id"; "lease_id"].

Definition decode_session (doc : json) : option PersistedWorkerSession :=
  m ← struct_view session_fields doc;
  session_id_ ← field_string m "session_id";
  node_id_ ← field_string m "node_id";
  instance_id_ ← field_string m "instance_id";
  runtime_ ← field_string m "runtime";
  runtime_version_ ← field_string m "runtime_version";
  worker_version_ ← field_string m "worker_version";
  protocol_ ← field_string m "protocol";
  capabilities_json_ ← field_string m "capabilities_json";
  metadata_json_ ← field_string m "metadata_json";
  max_concurrency_ ← obj_get "max_concurrency" m ≫= as_i64;
  active_tasks_ ← obj_get "active_tasks" m ≫= as_uint u32_max;
  status_ ← field_string m "status";
  load_ ← obj_get "load" m ≫= as_f64;
  created_at_ ← field_string m "created_at";
  updated_at_ ← field_string m "updated_at";
  expires_at_ ← field_string m "expires_at";
  last_seen_at_ ← field_string m "last_seen_at";
  closed_at_ ← field_option as_str m "closed_at";
  current_task_id_ ← field_option as_str m "current_task_id";
  lease_id_ ← field_option as_str m "lease_id";
  Some (mkSession session_id_ node_id_ instance_id_ runtime_ runtime_version_ worker_version_
              protocol_ capabilities_json_ metadata_json_ max_concurrency_ active_tasks_
              status_ load_ created_at_ updated_at_ expires_at_ last_seen_at_ closed_at_
              current_task_id_ lease_id_).

Record PersistedWorkerLease : Type := mkLease {
  wl_lease_id : string;
  wl_task_id : string;
  wl_session_id : string;
  wl_node_id : string;
  wl_capability : string;
  wl_status : string;
  wl_issued_at : string;
  wl_updated_at : string;
  wl_expires_at : string;
  wl_acked_at : option string;
  wl_completed_at : option string;
  wl_failure_code : option string;
  wl_reason : option string;
}.

Definition encode_lease (r : PersistedWorkerLease) : json :=
  JObject [("lease_id", JString (wl_lease_id r));
           ("task_id", JString (wl_task_id r));
           ("session_id", JString (wl_session_id r));
           ("node_id", JString (wl_node_id r));
           ("capability", JString (wl_capability r));
           ("status", JString (wl_status r));
           ("issued_at", JString (wl_issued_at r));
           ("updated_at", JString (wl_updated_at r));
           ("expires_at", JString (wl_expires_at r));
           ("acked_at", json_opt_str (wl_acked_at r));
           ("completed_at", json_opt_str (wl_completed_at r));
           ("failure_code", json_opt_str (wl_failure_code r));
           ("reason", json_opt_str (wl_reason r))].

Definition lease_fields : list string :=
  ["lease_id"; "task_id"; "session_id"; "node_id"; "capability"; "status"; "issued_at";
   "updated_at"; "expires_at"; "acked_at"; "completed_at"; "failure_code"; "reason"].

Definition decode_lease (doc : json) : option PersistedWorkerLease :=
  m ← struct_view lease_fields doc;
  lease_id_ ← field_string m "lease_id";
  task_id_ ← field_string m "task_id";
  session_id_ ← field_string m "session_id";
  node_id_ ← field_string m "node_id";
  capability_ ← field_string m "capability";
  status_ ← field_string m "status";
  issued_at_ ← field_string m "issued_at";
  updated_at_ ← field_string m "updated_at";
  expires_at_ ← field_string m "expires_at";
  acked_at_ ← field_option as_str m "acked_at";
  completed_at_ ← field_option as_str m "completed_at";
  failure_code_ ← field_option as_str m "failure_code";
  reason_ ← field_option as_str m "reason";
  Some (mkLease lease_id_ task_id_ session_id_ node_id_ capability_ status_ issued_at_
              updated_at_ expires_at_ acked_at_ completed_at_ failure_code_ reason_).

Record PersistedDispatchAck : Type := mkAck {
  da_ack_id : string;
  da_lease_id : string;
  da_session_id : string;
  da_task_id : string;
  da_node_id : string;
  da_status : string;
  da_decided_at : string;
  da_detail : option string;
}.

Definition encode_ack (r : PersistedDispatchAck) : json :=
  JObject [("ack_id", JString (da_ack_id r));
           ("lease_id", JString (da_lease_id r));
           ("session_id", JString (da_session_id r));
           ("task_id", JString (da_task_id r));
           ("node_id", JString (da_node_id r));
           ("status", JString (da_status r));
           ("decided_at", JString (da_decided_at r));
           ("detail", json_opt_str (da_detail r))].

Record PersistedRunReceipt : Type := mkReceipt {
  rr_run_id : string;
  rr_user_id : string;
  rr_proposal_id : string;
  rr_lease_id : string;
  rr_session_id : option string;
  rr_started_at : string;
  rr_ended_at : string;
  rr_status : string;
  rr_chain_result_json : string;
  rr_signals_json : string;
  rr_artifact_index_json : string;
  rr_node_id : string;
  rr_replay_receipt_json : string;
  rr_mode : string;
  rr_model_id : string;
  rr_tokens_input : Z;
  rr_tokens_output : Z;
  rr_tokens_total : Z;
  rr_cost : Z;
  rr_owner_id : option string;
  rr_principal_id : option string;
  rr_failure_code : option string;
  rr_failure_message : option string;
}.

Definition encode_receipt (r : PersistedRunReceipt) : json :=
  JObject [("run_id", JString (rr_run_id r));
           ("user_id", JString (rr_user_id r));
           ("proposal_id", JString (rr_proposal_id r));
           ("lease_id", JString (rr_lease_id r));
           ("session_id", json_opt_str (rr_session_id r));
           ("started_at", JString (rr_started_at r));
           ("ended_at", JString (rr_ended_at r));
           ("status", JString (rr_status r));
           ("chain_result_json", JString (rr_chain_result_json r));
           ("signals_json", JString (rr_signals_json r));
           ("artifact_index_json", JString (rr_artifact_index_json r));
           ("node_id", JString (rr_node_id r));
           ("replay_receipt_json", JString (rr_replay_receipt_json r));
           ("mode", JString (rr_mode r));
           ("model_id", JString (rr_model_id r));
           ("tokens_input", i64_json (rr_tokens_input r));
           ("tokens_output", i64_json (rr_tokens_output r));
           ("tokens_total", i64_json (rr_tokens_total r));
           ("cost", f64_json (rr_cost r));
           ("owner_id", json_opt_str (rr_owner_id r));
           ("principal_id", json_opt_str (rr_principal_id r));
           ("failure_code", json_opt_str (rr_failure_code r));
           ("failure_message", json_opt_str (rr_failure_message r))].

Record PersistedRunFailure : Type := mkRunFailure {
  rf_failure_id : string;
  rf_run_id : string;
  rf_lease_id : string;
  rf_session_id : string;
  rf_failure_code : string;
  rf_failure_message : string;
  rf_failure_type : string;
  rf_retryable : bool;
  rf_details_json : string;
}.

Definition encode_run_failure (r : PersistedRunFailure) : json :=
  JObject [("failure_id", JString (rf_failure_id r));
           ("run_id", JString (rf_run_id r));
           ("lease_id", JString (rf_lease_id r));
           ("session_id", JString (rf_session_id r));
           ("failure_code", JString (rf_failure_code r));
           ("failure_message", JString (rf_failure_message r));
           ("failure_type", JString (rf_failure_type r));
           ("retryable", JBool (rf_retryable r));
           ("details_json", JString (rf_details_json r))].

(** ** Lemmas *)

Lemma as_i64_json i : - 2 ^ 63 ≤ i < 2 ^ 63 → as_i64 (i64_json i) = Some i.
Proof. intros Hi. unfold i64_json. case_bool_decide; simpl; by rewrite bool_decide_true by lia. Qed.

(** Integers at their width, a load that is a number. *)
Record session_typed (s : PersistedWorkerSession) : Prop := {
  st_active : 0 ≤ ws_active_tasks s ≤ u32_max;
  st_concurrency : - 2 ^ 63 ≤ ws_max_concurrency s < 2 ^ 63;
  st_load : f64_is_finite (ws_load s) = true;
}.

(** The [Value] of a record, as [to_value] builds it. *)
Definition session_value (s : PersistedWorkerSession) : json := value_of (encode_session s).
Definition lease_value (l : PersistedWorkerLease) : json := value_of (encode_lease l).

Lemma decode_lease_value l : decode_lease (lease_value l) = Some l.
Proof.
  unfold lease_value. destruct (value_members (match encode_lease l with JObject m => m | _ => [] end))
    as (m & Hm & Hnd & Hg); [apply (bool_decide_unpack _); vm_compute; exact I|].
  change (value_of (encode_lease l) = JObject m) in Hm. rewrite Hm.
  unfold decode_lease, field_string. rewrite struct_view_NoDup by done. cbn [mbind option_bind].
  rewrite !Hg. simpl.
  repeat match goal with |- context [field_option as_str m ?k] =>
    rewrite (field_option_str m k _ ltac:(rewrite Hg; simpl; rewrite value_of_json_opt_str; reflexivity)) end.
  by destruct l.
Qed.

Lemma decode_session_value s : session_typed s → decode_session (session_value s) = Some s.
Proof.
  intros [Ha Hc Hl]. unfold session_value.
  destruct (value_members (match encode_session s with JObject m => m | _ => [] end))
    as (m & Hm & Hnd & Hg); [apply (bool_decide_unpack _); vm_compute; exact I|].
  change (value_of (encode_session s) = JObject m) in Hm. rewrite Hm.
  unfold decode_session, field_string. rewrite struct_view_NoDup by done. cbn [mbind option_bind].
  rewrite (field_f64 m "load" (ws_load s)) by (done || rewrite Hg; simpl; by rewrite value_of_f64_json).
  assert (obj_get "max_concurrency" m ≫= as_i64 = Some (ws_max_concurrency s)) as Hmc.
  { rewrite Hg. exact (as_i64_json _ Hc). }
  rewrite Hmc. clear Hmc. rewrite !Hg. simpl.
  unfold as_uint. simpl. rewrite bool_decide_true by done. simpl.
  repeat match goal with |- context [field_option as_str m ?k] =>
    rewrite (field_option_str m k _ ltac:(rewrite Hg; simpl; rewrite value_of_json_opt_str; reflexivity)) end.
  by destruct s.
Qed.
