(* ===== verification/OperatorJournal.v ===== *)
(** * The operator journal (crates/heiwa_evidence/src/operator.rs)

    The append-only event file, at the level of its bytes: capped line reading,
    the corrupt-scan budget, the lineage fingerprint, opaque cursors, the append
    with its gate and tail repair, and the lock-free readers.  Offsets and
    lengths are [Z]; a file is [None] when it does not exist. *)

From stdpp Require Import base gmap sets strings numbers list.
From Stdlib Require Import Ascii.
From S2P Require Import Prelude Json Hex Envelope Framing OperatorEvent Sensitive Turns EventLog.
#[local] Open Scope Z_scope.

Definition EVIDENCE_SCHEMA_VERSION : Z := 1.
Definition OPERATOR_CURSOR_VERSION : Z := 1.
Definition OPERATOR_STREAM_KIND : string := "operator_events".
Definition MAX_OPERATOR_ENVELOPE_BYTES : Z := 16 * 1024 * 1024.
Definition MAX_OPERATOR_CORRUPT_LINES_PER_READ : Z := 1024.
Definition MAX_OPERATOR_CORRUPT_BYTES_PER_READ : Z := 64 * 1024 * 1024.
Definition MAX_OPERATOR_LINEAGE_READ_ATTEMPTS : nat := 3.

Definition zlen (s : bytes) : Z := Z.of_nat (length s).

(** Why a scan of the file stops with an error. *)
Inductive ScanError : Type :=
| LineTooLong
| CorruptBudgetExceeded
| TornTailTooLong
| UnexpectedEof
| ScanOutOfFuel.

Definition scan_error_text (e : ScanError) : string :=
  match e with
  | LineTooLong => "operator journal line exceeds maximum operator envelope"
  | CorruptBudgetExceeded => "operator journal corrupt scan budget exceeded"
  | TornTailTooLong => "operator journal torn tail exceeds maximum operator envelope"
  | UnexpectedEof => "failed to fill whole buffer"
  | ScanOutOfFuel => "out of fuel"
  end.

(** ** Capped lines *)

Inductive CappedLine : Type := Eof | Complete | Torn.

(** How much [fill_buf] has at once. *)
Definition READER_BUFFER : nat := Z.to_nat 8192.

(** The loop of [read_capped_line]: [line] read so far, [s] still to read; the
    line and the rest of the input.  Each round takes a byte, so [fuel] beyond
    the length is enough. *)
Fixpoint read_capped_loop (fuel : nat) (line s : bytes) : result ScanError (CappedLine * bytes * bytes) :=
  match fuel with
  | O => Err ScanOutOfFuel
  | S fuel' =>
      let available := take READER_BUFFER s in
      match available with
      | [] => Ok (if bool_decide (line = []) then Eof else Torn, line, s)
      | _ =>
          let taken := match position_newline available with
                       | Some position => S position
                       | None => length available
                       end in
          if bool_decide (zlen line + Z.of_nat taken > MAX_OPERATOR_ENVELOPE_BYTES)
          then Err LineTooLong
          else
            let line' := line ++ take taken available in
            if bool_decide (last (take taken available) = Some newline)
            then Ok (Complete, line', drop taken s)
            else read_capped_loop fuel' line' (drop taken s)
      end
  end.

Definition read_capped_line (s : bytes) : result ScanError (CappedLine * bytes * bytes) :=
  read_capped_loop (S (length s)) [] s.

Record CorruptScanBudget : Type := mkBudget { cb_lines : Z; cb_bytes : Z }.

Definition default_budget : CorruptScanBudget := mkBudget 0 0.

(** [CorruptScanBudget::record]. *)
Definition record_corrupt (b : CorruptScanBudget) (n : Z) : result ScanError CorruptScanBudget :=
  let b' := mkBudget (saturating_add u64_max (cb_lines b) 1) (saturating_add u64_max (cb_bytes b) n) in
  if bool_decide (cb_lines b' > MAX_OPERATOR_CORRUPT_LINES_PER_READ) ||
     bool_decide (cb_bytes b' > MAX_OPERATOR_CORRUPT_BYTES_PER_READ)
  then Err CorruptBudgetExceeded else Ok b'.

(** ** Envelopes *)

Section text.
Context `{JsonText, Crypto}.

(** [parse_operator_line], of a line without its newline. *)
Definition parse_operator_line (line : bytes) : option OperatorEvent :=
  doc ← parse_json (String.string_of_list_ascii line);
  m ← struct_view ["v"; "at_ms"; "kind"; "record"] doc;
  v ← obj_get "v" m ≫= as_uint u32_max;
  _ ← obj_get "at_ms" m ≫= as_uint u64_max;
  kind ← field_string m "kind";
  record ← obj_get "record" m ≫= decode_event;
  if bool_decide (v ≠ EVIDENCE_SCHEMA_VERSION) || bool_decide (kind ≠ OPERATOR_STREAM_KIND)
  then None else Some record.

(** The envelope an append writes, and its line without the newline. *)
Definition operator_envelope (at_ms : Z) (event : OperatorEvent) : json :=
  json_object [("v", JNumber (PosInt EVIDENCE_SCHEMA_VERSION));
               ("at_ms", JNumber (PosInt at_ms));
               ("kind", JString OPERATOR_STREAM_KIND);
               ("record", event_value event)].

Definition envelope_line (at_ms : Z) (event : OperatorEvent) : bytes :=
  as_bytes (print_json (operator_envelope at_ms event)).

Definition sha256_hex (bs : bytes) : string := to_hex (sha256 bs).

(** ** Lineage *)

(** The loop of [first_line_fingerprint]; each round reads a line. *)
Fixpoint fingerprint_loop (fuel : nat) (budget : CorruptScanBudget) (s : bytes)
    : result ScanError string :=
  match fuel with
  | O => Err ScanOutOfFuel
  | S fuel' =>
      match read_capped_line s with
      | Err e => Err e
      | Ok (Eof, _, _) => Ok "empty"
      | Ok (Torn, line, _) => _ ← record_corrupt budget (zlen line); Ok "empty"
      | Ok (Complete, line, s') =>
          let content := removelast line in
          match parse_operator_line content with
          | Some _ => Ok (sha256_hex content)
          | None =>
              budget' ← record_corrupt budget (zlen line);
              fingerprint_loop fuel' budget' s'
          end
      end
  end.

Definition first_line_fingerprint (file : option bytes) : result ScanError string :=
  match file with
  | None => Ok "empty"
  | Some s => fingerprint_loop (S (length s)) default_budget s
  end.
End text.

(** ** Cursors *)

Record OperatorCursor : Type := mkCursor { oc_version : Z; oc_fingerprint : string; oc_offset : Z }.

Definition encode_operator_cursor (c : OperatorCursor) : json :=
  JObject [("version", JNumber (PosInt (oc_version c)));
           ("fingerprint", JString (oc_fingerprint c));
           ("offset", JNumber (PosInt (oc_offset c)))].

Definition decode_operator_cursor (doc : json) : option OperatorCursor :=
  m ← struct_view ["version"; "fingerprint"; "offset"] doc;
  v ← obj_get "version" m ≫= as_uint 255;
  f ← field_string m "fingerprint";
  o ← obj_get "offset" m ≫= as_uint u64_max;
  Some (mkCursor v f o).

(** [URL_SAFE_NO_PAD] of the base64 crate. *)
Class Base64 : Type := {
  b64_encode : bytes → string;
  b64_decode : string → option bytes;
}.

(** Documented behaviour: decoding inverts encoding. *)
Class Base64Laws `{Base64} : Prop := {
  b64_decode_encode : ∀ s, b64_decode (b64_encode s) = Some s;
}.

Section cursors.
Context `{JsonText, Base64}.

Definition encode_cursor (c : OperatorCursor) : string :=
  b64_encode (as_bytes (print_json (encode_operator_cursor c))).

Definition decode_cursor (raw : string) : result CursorError OperatorCursor :=
  bs ← ok_or (InvalidCursor "cursor is not valid base64") (b64_decode raw);
  ok_or (InvalidCursor "cursor payload is malformed")
    (doc ← parse_json (String.string_of_list_ascii bs); decode_operator_cursor doc).
End cursors.

(** ** Backward searches *)

Definition BACKWARD_CHUNK : nat := Z.to_nat 8192.

(** The chunked search both [repair_unterminated_tail] and
    [offset_follows_valid_operator_event] make for the end of the previous line:
    the position after the last newline before [stop], looking no further back
    than one byte before [oldest]; [None] when there is none there.  Each round
    moves [stop] back, so [fuel] beyond it is enough. *)
Fixpoint previous_line_end (fuel : nat) (s : bytes) (oldest stop : nat) : option nat :=
  match fuel with
  | O => None
  | S fuel' =>
      let start := Nat.max (stop - BACKWARD_CHUNK) oldest in
      match rposition_newline (take (stop - start) (drop start s)) with
      | Some index => Some (start + index + 1)%nat
      | None =>
          if bool_decide (start = 0%nat) then Some 0%nat
          else if bool_decide (start = oldest) then
            if bool_decide (s !! (start - 1)%nat = Some newline) then Some start else None
          else previous_line_end fuel' s oldest start
      end
  end.

(** [repair_unterminated_tail]. *)
Definition repair_unterminated_tail (s : bytes) : result ScanError bytes :=
  match last s with
  | None => Ok s
  | Some final_byte =>
      if bool_decide (final_byte = newline) then Ok s
      else
        let len := length s in
        let oldest := Z.to_nat (saturating_sub (Z.of_nat len) (MAX_OPERATOR_ENVELOPE_BYTES - 1)) in
        match previous_line_end (S len) s oldest len with
        | Some complete_len => Ok (take complete_len s)
        | None => Err TornTailTooLong
        end
  end.

Section readers.
Context `{JsonText, Crypto, Base64}.

(** [offset_follows_valid_operator_event], on an existing file. *)
Definition offset_follows (s : bytes) (offset : Z) : result ScanError bool :=
  if bool_decide (offset = 0) then Ok true
  else
    match s !! Z.to_nat (offset - 1) with
    | None => Err UnexpectedEof
    | Some byte =>
        if bool_decide (byte ≠ newline) || bool_decide (offset = 1) then Ok false
        else
          let line_end := Z.to_nat (offset - 1) in
          let oldest := Z.to_nat (saturating_sub (offset - 1) (MAX_OPERATOR_ENVELOPE_BYTES - 1)) in
          match previous_line_end (S line_end) s oldest line_end with
          | None => Ok false
          | Some line_start =>
              if bool_decide (line_start = line_end) then Ok false
              else
                let line := take (line_end - line_start) (drop line_start s) in
                Ok (bool_decide (is_Some (parse_operator_line line)))
          end
    end.

(** ** Reading a page *)

(** The line loop of [read_after]. *)
Fixpoint scan_rows (fuel limit : nat) (fingerprint : string) (offset : Z)
    (budget : CorruptScanBudget) (events : list CursorEvent) (skipped : Z) (s : bytes)
    : result ScanError (list CursorEvent * Z) :=
  match fuel with
  | O => Err ScanOutOfFuel
  | S fuel' =>
      if (length events <? limit)%nat then
        match read_capped_line s with
        | Err e => Err e
        | Ok (Eof, _, _) => Ok (events, skipped)
        | Ok (Torn, line, _) =>
            _ ← record_corrupt budget (zlen line); Ok (events, skipped + 1)
        | Ok (Complete, line, s') =>
            let offset' := offset + zlen line in
            match parse_operator_line (removelast line) with
            | Some event =>
                let cursor := encode_cursor (mkCursor OPERATOR_CURSOR_VERSION fingerprint offset') in
                scan_rows fuel' limit fingerprint offset' budget (events ++ [mkRow cursor event])
                  skipped s'
            | None =>
                budget' ← record_corrupt budget (zlen line);
                scan_rows fuel' limit fingerprint offset' budget' events (skipped + 1) s'
            end
        end
      else Ok (events, skipped)
  end.

(** The file as a lock-free reader meets it at the times it looks: its length,
    the fingerprint, the boundary check, the read, and the fingerprint again. *)
Record FileViews : Type := mkViews {
  fv_len : option bytes;
  fv_snapshot : option bytes;
  fv_boundary : option bytes;
  fv_read : option bytes;
  fv_end : option bytes;
}.

Definition storage {A} (r : result ScanError A) : result CursorError A :=
  map_err (λ e, Storage (scan_error_text e)) r.

(** The page of one attempt. *)
Definition attempt_page (views : FileViews) (raw : option string) (decoded : option OperatorCursor)
    (snapshot : string) (limit : nat) : result CursorError OperatorPage :=
  let file_len := zlen (default [] (fv_len views)) in
  start ←
    match decoded with
    | None => Ok 0
    | Some c =>
        _ ← bail_if (bool_decide (oc_fingerprint c ≠ snapshot))
              (InvalidCursor "cursor fingerprint does not match the current stream");
        _ ← bail_if (bool_decide (oc_offset c > file_len))
              (InvalidCursor "cursor offset is beyond the end of the stream");
        follows ← (if bool_decide (oc_offset c = 0) then Ok true
                   else match fv_boundary views with
                        | None => Err (Storage "not found")
                        | Some s => storage (offset_follows s (oc_offset c))
                        end);
        _ ← bail_if (negb follows)
              (InvalidCursor "cursor offset does not fall on a valid event boundary");
        Ok (oc_offset c)
    end;
  found ←
    match fv_read views with
    | None => Ok ([], 0)
    | Some s =>
        let ceiling := saturating_sub file_len start in
        let input := take (Z.to_nat ceiling) (drop (Z.to_nat start) s) in
        storage (scan_rows (S (length input)) limit snapshot start default_budget [] 0 input)
    end;
  Ok (mkPage found.1 (cursor_after raw found.1) found.2).

(** The retry loop of [read_after], with [remaining] attempts left. *)
Fixpoint read_attempts (remaining attempt : nat) (views : nat → FileViews) (raw : option string)
    (decoded : option OperatorCursor) (limit : nat) : result CursorError OperatorPage :=
  match remaining with
  | O => Err (UnstableLineage (Z.of_nat MAX_OPERATOR_LINEAGE_READ_ATTEMPTS))
  | S remaining' =>
      snapshot ← storage (first_line_fingerprint (fv_snapshot (views attempt)));
      let page := attempt_page (views attempt) raw decoded snapshot limit in
      end_fingerprint ← storage (first_line_fingerprint (fv_end (views attempt)));
      if bool_decide (end_fingerprint ≠ snapshot) then
        if bool_decide (is_Some decoded)
        then Err (InvalidCursor "stream lineage changed while reading the cursor")
        else read_attempts remaining' (S attempt) views raw decoded limit
      else page
  end.

(** [read_after]. *)
Definition read_after (views : nat → FileViews) (cursor : option string) (limit : nat)
    : result CursorError OperatorPage :=
  decoded ←
    match cursor with
    | None => Ok None
    | Some raw =>
        c ← decode_cursor raw;
        _ ← bail_if (bool_decide (oc_version c ≠ OPERATOR_CURSOR_VERSION))
              (InvalidCursor "unsupported cursor version");
        Ok (Some c)
    end;
  read_attempts MAX_OPERATOR_LINEAGE_READ_ATTEMPTS 1 views cursor decoded limit.

(** The views of a file nobody writes. *)
Definition quiet (file : option bytes) : nat → FileViews := λ _, mkViews file file file file file.
End readers.

(** ** Reading the tail *)

Record OperatorTail : Type := mkTail {
  ot_events : list CursorEvent;
  ot_stream_present : bool;
  ot_starts_mid_stream : bool;
  ot_dropped_events : Z;
  ot_skipped_lines : Z;
  ot_window_bytes : Z;
}.

(** [OperatorTail::is_complete]. *)
Definition is_complete (t : OperatorTail) : bool :=
  negb (ot_starts_mid_stream t) && bool_decide (ot_dropped_events t = 0) &&
  bool_decide (ot_skipped_lines t = 0).

Definition no_stream : OperatorTail := mkTail [] false false 0 0 0.

(** [now_ms]: the milliseconds since the epoch as a [u64]. *)
Definition now_ms (millis : Z) : Z := millis mod 2 ^ 64.

Section tail.
Context `{JsonText, Crypto, Base64}.

(** The line loop of [read_tail_window]. *)
Fixpoint tail_loop (fuel max_events : nat) (fingerprint : string) (offset : Z)
    (budget : CorruptScanBudget) (events : list CursorEvent) (dropped skipped : Z) (s : bytes)
    : result ScanError (list CursorEvent * Z * Z) :=
  match fuel with
  | O => Err ScanOutOfFuel
  | S fuel' =>
      match read_capped_line s with
      | Err e => Err e
      | Ok (Eof, _, _) => Ok (events, dropped, skipped)
      | Ok (Torn, line, _) =>
          _ ← record_corrupt budget (zlen line); Ok (events, dropped, skipped + 1)
      | Ok (Complete, line, s') =>
          let offset' := offset + zlen line in
          match parse_operator_line (removelast line) with
          | Some event =>
              let row := mkRow (encode_cursor (mkCursor OPERATOR_CURSOR_VERSION fingerprint offset'))
                           event in
              if bool_decide (length events = max_events) then
                if bool_decide (max_events = 0%nat)
                then tail_loop fuel' max_events fingerprint offset' budget events (dropped + 1)
                       skipped s'
                else tail_loop fuel' max_events fingerprint offset' budget (tl events ++ [row])
                       (dropped + 1) skipped s'
              else tail_loop fuel' max_events fingerprint offset' budget (events ++ [row]) dropped
                     skipped s'
          | None =>
              budget' ← record_corrupt budget (zlen line);
              tail_loop fuel' max_events fingerprint offset' budget' events dropped (skipped + 1) s'
          end
      end
  end.

(** [read_tail_window]. *)
Definition read_tail_window (file : option bytes) (file_len max_bytes : Z) (max_events : nat)
    (fingerprint : string) : result ScanError OperatorTail :=
  match file with
  | None => Ok no_stream
  | Some s =>
      let start := saturating_sub file_len max_bytes in
      aligned ←
        (if bool_decide (start = 0) then Ok true
         else match s !! Z.to_nat (start - 1) with
              | None => Err UnexpectedEof
              | Some byte => Ok (bool_decide (byte = newline))
              end);
      let input := take (Z.to_nat (file_len - start)) (drop (Z.to_nat start) s) in
      let window offset rest :=
        (found ← tail_loop (S (length rest)) max_events fingerprint offset default_budget [] 0 0 rest;
         let '(events, dropped, skipped) := found in
         Ok (mkTail events true (bool_decide (start > 0)) dropped skipped (file_len - start))) in
      if (aligned : bool) then window start input
      else
        match read_capped_line input with
        | Err e => Err e
        | Ok (Complete, line, rest) => window (start + zlen line) rest
        | Ok _ => Ok (mkTail [] true true 0 0 (file_len - start))
        end
  end.

(** The retry loop of [read_tail]. *)
Fixpoint tail_attempts (remaining attempt : nat) (views : nat → FileViews) (max_bytes : Z)
    (max_events : nat) : result CursorError OperatorTail :=
  match remaining with
  | O => Err (UnstableLineage (Z.of_nat MAX_OPERATOR_LINEAGE_READ_ATTEMPTS))
  | S remaining' =>
      match fv_len (views attempt) with
      | None => Ok no_stream
      | Some s =>
          fingerprint ← storage (first_line_fingerprint (fv_snapshot (views attempt)));
          tail ← storage (read_tail_window (fv_read (views attempt)) (zlen s) max_bytes max_events
                            fingerprint);
          again ← storage (first_line_fingerprint (fv_end (views attempt)));
          if bool_decide (again = fingerprint) then Ok tail
          else tail_attempts remaining' (S attempt) views max_bytes max_events
      end
  end.

(** [read_tail]. *)
Definition read_tail (views : nat → FileViews) (max_bytes : Z) (max_events : nat)
    : result CursorError OperatorTail :=
  tail_attempts MAX_OPERATOR_LINEAGE_READ_ATTEMPTS 1 views max_bytes max_events.

(** ** Appending *)

(** What the operating system does to one append: nothing, no lock, a write
    that stops after some bytes, or a write whose sync fails. *)
Inductive AppendFault : Type :=
| NoFault
| LockFault
| WriteFault (written : nat)
| SyncFault.

Record AppendStep : Type := mkStep { as_millis : Z; as_fault : AppendFault }.

(** [append]: the file it leaves, and the result. *)
Definition append_file (step : AppendStep) (file : option bytes) (event : OperatorEvent)
    : option bytes * result string CursorEvent :=
  match find_sensitive (event_value event) with
  | Some _ => (file, Err "refused to append operator event: event contains sensitive material")
  | None =>
      let payload := terminated (envelope_line (now_ms (as_millis step)) event) in
      if bool_decide (zlen payload > MAX_OPERATOR_ENVELOPE_BYTES)
      then (file, Err "refused to append operator event: envelope is too large")
      else if (match as_fault step with LockFault => true | _ => false end)
      then (file, Err "stream lock")
      else
        match first_line_fingerprint file with
        | Err e => (file, Err (scan_error_text e))
        | Ok fingerprint_before =>
            let s := default [] file in
            match repair_unterminated_tail s with
            | Err e => (Some s, Err (scan_error_text e))
            | Ok repaired =>
                match as_fault step with
                | WriteFault written =>
                    (Some (repaired ++ take written payload), Err "write failed")
                | SyncFault => (Some (repaired ++ payload), Err "sync failed")
                | _ =>
                    let s' := repaired ++ payload in
                    match (if bool_decide (fingerprint_before = "empty")
                           then first_line_fingerprint (Some s') else Ok fingerprint_before) with
                    | Err e => (Some s', Err (scan_error_text e))
                    | Ok fingerprint =>
                        (Some s',
                         Ok (mkRow (encode_cursor (mkCursor OPERATOR_CURSOR_VERSION fingerprint
                                                     (zlen s'))) event))
                    end
                end
            end
        end
  end.
End tail.
