(* ===== verification/JournalLog.v ===== *)
(** * The operator journal's bytes as an event log

    What the reading loops of OperatorJournal.v compute on a file given as lines
    and a tail: the buffered line reader reads lines, the chunked backward search
    finds the end of the previous line, and the scan yields the rows.  With that
    the journal discharges the interface EventLog. *)

From stdpp Require Import base gmap sets strings numbers list.
From Stdlib Require Import Ascii.
From S2P Require Import Prelude Json Hex Envelope Framing OperatorEvent Sensitive Turns EventLog.
From S2P Require Import OperatorJournal.
#[local] Open Scope Z_scope.

Lemma reader_buffer_pos : (0 < READER_BUFFER)%nat.
Proof. unfold READER_BUFFER. lia. Qed.

Lemma backward_chunk_pos : (0 < BACKWARD_CHUNK)%nat.
Proof. unfold BACKWARD_CHUNK. lia. Qed.

#[local] Opaque READER_BUFFER BACKWARD_CHUNK.

Lemma zlen_app a b : zlen (a ++ b) = zlen a + zlen b.
Proof. unfold zlen. rewrite length_app. lia. Qed.

Lemma zlen_cons a s : zlen (a :: s) = 1 + zlen s.
Proof. unfold zlen. simpl. lia. Qed.

Lemma zlen_nonneg s : 0 ≤ zlen s.
Proof. unfold zlen. lia. Qed.

(** ** Capped lines *)

Lemma read_capped_loop_line fuel : ∀ line l s,
  line_ok l → (length l < fuel)%nat →
  read_capped_loop fuel line (l ++ newline :: s) =
    if bool_decide (zlen line + zlen l + 1 > MAX_OPERATOR_ENVELOPE_BYTES) then Err LineTooLong
    else Ok (Complete, line ++ terminated l, s).
Proof.
  pose proof reader_buffer_pos as HB.
  induction fuel as [|fuel IH]; intros line l s Hl Hf; [lia|]. cbn [read_capped_loop].
  destruct (decide (length l < READER_BUFFER)%nat) as [Hlt|Hge].
  - rewrite take_app_ge by lia.
    destruct (READER_BUFFER - length l)%nat as [|n] eqn:En; [lia|]. rewrite firstn_cons.
    rewrite position_newline_line by done.
    assert (take (S (length l)) (l ++ newline :: take n s) = terminated l) as ->.
    { unfold terminated. rewrite cons_middle, app_assoc. apply take_app_length'.
      rewrite length_app. simpl. lia. }
    assert (drop (S (length l)) (l ++ newline :: s) = s) as ->.
    { rewrite cons_middle, app_assoc. apply drop_app_length'. rewrite length_app. simpl. lia. }
    assert (last (terminated l) = Some newline) as -> by apply last_snoc.
    rewrite (bool_decide_true (Some newline = Some newline)) by done.
    assert (zlen line + Z.of_nat (S (length l)) = zlen line + zlen l + 1) as -> by (unfold zlen; lia).
    by destruct l.
  - rewrite take_app_le by lia. assert (take READER_BUFFER l ≠ []) as Hne.
    { intros E. apply (f_equal length) in E. rewrite length_take in E. simpl in E. lia. }
    assert (newline ∉ take READER_BUFFER l) as Hno.
    { intros Hin. apply Hl. by eapply subseteq_take. }
    rewrite (proj2 (position_newline_None _) Hno), length_take, (Nat.min_l READER_BUFFER) by lia.
    rewrite take_take, Nat.min_id, drop_app_le by lia.
    assert (last (take READER_BUFFER l) ≠ Some newline) as Hlast.
    { intros E. apply Hno. apply last_Some in E as [r ->]. set_solver. }
    rewrite (bool_decide_false (last _ = _)) by done.
    assert (zlen l = Z.of_nat READER_BUFFER + zlen (drop READER_BUFFER l)) as Hz.
    { unfold zlen. rewrite length_drop. lia. }
    pose proof (zlen_nonneg (drop READER_BUFFER l)).
    destruct (take READER_BUFFER l) as [|a r] eqn:Et; [done|]. rewrite <- Et.
    case_bool_decide.
    + by rewrite bool_decide_true by lia.
    + rewrite IH; [|intros Hin; apply Hl; by eapply subseteq_drop|rewrite length_drop; lia].
      assert (zlen (line ++ take READER_BUFFER l) + zlen (drop READER_BUFFER l) = zlen line + zlen l) as ->.
      { rewrite zlen_app. unfold zlen. rewrite length_take, length_drop. lia. }
      case_bool_decide; [done|]. do 3 f_equal. unfold terminated.
      by rewrite <- app_assoc, (app_assoc (take _ _)), take_drop.
Qed.

Lemma read_capped_loop_tail fuel : ∀ line t,
  line_ok t → (length t < fuel)%nat → zlen line ≤ MAX_OPERATOR_ENVELOPE_BYTES →
  read_capped_loop fuel line t =
    if bool_decide (zlen line + zlen t > MAX_OPERATOR_ENVELOPE_BYTES) then Err LineTooLong
    else Ok (if bool_decide (line ++ t = []) then Eof else Torn, line ++ t, []).
Proof.
  pose proof reader_buffer_pos as HB.
  induction fuel as [|fuel IH]; intros line t Ht Hf Hmax; [lia|]. cbn [read_capped_loop].
  destruct (take READER_BUFFER t) as [|a r] eqn:Et.
  - assert (t = []) as ->.
    { destruct t as [|x t]; [done|]. destruct READER_BUFFER; [lia|done]. }
    rewrite app_nil_r, (bool_decide_false (_ > _)); [done|]. unfold zlen at 2. simpl. lia.
  - rewrite <- Et. assert (newline ∉ take READER_BUFFER t) as Hno.
    { intros Hin. apply Ht. by eapply subseteq_take. }
    rewrite (proj2 (position_newline_None _) Hno), length_take, take_take.
    rewrite (Nat.min_l (READER_BUFFER `min` length t)) by lia.
    assert (take (READER_BUFFER `min` length t) t = take READER_BUFFER t) as Htk.
    { destruct (decide (READER_BUFFER ≤ length t)%nat); [by rewrite Nat.min_l by lia|].
      rewrite Nat.min_r by lia. by rewrite firstn_all, take_ge by lia. }
    assert (last (take (READER_BUFFER `min` length t) t) ≠ Some newline) as Hlast.
    { rewrite Htk. intros E. apply Hno. apply last_Some in E as [x ->]. set_solver. }
    rewrite (bool_decide_false (last _ = _)) by done.
    set (n := (READER_BUFFER `min` length t)%nat) in *.
    assert (0 < n ≤ length t)%nat as Hn.
    { assert (length t ≠ 0%nat); [|lia]. destruct t; [by rewrite take_nil in Et|done]. }
    assert (zlen t = Z.of_nat n + zlen (drop n t)) as Hz.
    { unfold zlen. rewrite length_drop. lia. }
    pose proof (zlen_nonneg (drop n t)). case_bool_decide as Hbig.
    + by rewrite bool_decide_true by lia.
    + assert (zlen (line ++ take n t) = zlen line + Z.of_nat n) as Hz'.
      { rewrite zlen_app. unfold zlen. rewrite length_take. lia. }
      rewrite IH; [|intros Hin; apply Ht; by eapply subseteq_drop|rewrite length_drop; lia|lia].
      rewrite <- app_assoc, take_drop, Hz'.
      assert (zlen line + Z.of_nat n + zlen (drop n t) = zlen line + zlen t) as -> by lia. done.
Qed.

(** [read_capped_line] reads a line: the buffering does not show. *)
Lemma read_capped_line_complete l s :
  line_ok l → read_capped_line (l ++ newline :: s) =
    if bool_decide (zlen l + 1 > MAX_OPERATOR_ENVELOPE_BYTES) then Err LineTooLong
    else Ok (Complete, terminated l, s).
Proof.
  intros Hl. unfold read_capped_line. rewrite read_capped_loop_line; [|done|].
  - done.
  - rewrite length_app. simpl. lia.
Qed.

Lemma read_capped_line_tail t :
  line_ok t → read_capped_line t =
    if bool_decide (zlen t > MAX_OPERATOR_ENVELOPE_BYTES) then Err LineTooLong
    else Ok (if bool_decide (t = []) then Eof else Torn, t, []).
Proof.
  intros Ht. unfold read_capped_line. rewrite read_capped_loop_tail; [done|done|lia|].
  unfold MAX_OPERATOR_ENVELOPE_BYTES, zlen. simpl. lia.
Qed.

Lemma zlen_terminated l : zlen (terminated l) = zlen l + 1.
Proof. unfold terminated. by rewrite zlen_app. Qed.

Lemma removelast_terminated l : removelast (terminated l) = l.
Proof. unfold terminated. by rewrite removelast_app, app_nil_r. Qed.

(** ** The backward search *)

Lemma take_chunk (s : bytes) (start stop : nat) :
  (start ≤ stop)%nat → take stop s = take start s ++ take (stop - start) (drop start s).
Proof.
  intros Hle. rewrite <- (take_drop start s) at 1. rewrite take_app, take_take, Nat.min_r by lia.
  f_equal. rewrite length_take. destruct (decide (start ≤ length s)%nat).
  - by rewrite Nat.min_l by lia.
  - rewrite drop_ge by lia. by rewrite !take_nil.
Qed.

Lemma rposition_lt s i : rposition_newline s = Some i → (i < length s)%nat ∧ s !! i = Some newline.
Proof.
  intros (a & b & -> & <- & _)%rposition_newline_Some. rewrite length_app. simpl.
  split; [lia|]. by rewrite list_lookup_middle.
Qed.

Lemma rposition_at s i :
  (i < length s)%nat → s !! i = Some newline → newline ∉ drop (S i) s → rposition_newline s = Some i.
Proof.
  intros Hlt Hi Hno. apply rposition_newline_Some. exists (take i s), (drop (S i) s).
  split_and!; [by rewrite take_drop_middle|rewrite length_take; lia|done].
Qed.

(** The chunked search finds what one look over everything before [stop] would,
    unless that is out of reach of [oldest]. *)
Lemma previous_line_end_spec fuel s oldest : ∀ stop,
  (oldest ≤ stop ≤ length s)%nat → (stop - oldest < fuel)%nat →
  previous_line_end fuel s oldest stop =
    match rposition_newline (take stop s) with
    | Some k => if decide (oldest ≤ S k)%nat then Some (S k) else None
    | None => if decide (oldest = 0)%nat then Some 0%nat else None
    end.
Proof.
  pose proof backward_chunk_pos as HC.
  induction fuel as [|fuel IH]; intros stop Hs Hf; [lia|]. cbn [previous_line_end].
  set (start := Nat.max (stop - BACKWARD_CHUNK) oldest).
  assert (start ≤ stop)%nat as Hle by lia.
  rewrite (take_chunk s start stop Hle), rposition_newline_app.
  destruct (rposition_newline (take (stop - start) (drop start s))) as [i|].
  { rewrite length_take, Nat.min_l by lia. rewrite decide_True by lia. f_equal. lia. }
  case_bool_decide as H0.
  { rewrite H0. simpl. by rewrite decide_True by lia. }
  case_bool_decide as Hold.
  - case_bool_decide as Hnl.
    + rewrite (rposition_at (take start s) (start - 1)).
      * rewrite decide_True by lia. f_equal. lia.
      * rewrite length_take. lia.
      * rewrite lookup_take_lt by lia. done.
      * rewrite drop_ge; [set_solver|]. rewrite length_take. lia.
    + destruct (rposition_newline (take start s)) as [k|] eqn:Ek.
      * apply rposition_lt in Ek as [Hk Hk']. rewrite length_take in Hk.
        rewrite lookup_take_lt in Hk' by lia. rewrite decide_False; [done|].
        intros Hbad. assert (k = start - 1)%nat as -> by lia. done.
      * by rewrite decide_False by lia.
  - rewrite IH by lia. done.
Qed.

(** Repair cuts the tail off, unless it is as long as an envelope may be. *)
Lemma repair_framed ls t :
  Forall line_ok ls → line_ok t →
  repair_unterminated_tail (unframe ls t) =
    if bool_decide (zlen t ≤ MAX_OPERATOR_ENVELOPE_BYTES - 1) then Ok (unframe ls [])
    else Err TornTailTooLong.
Proof.
  intros Hls Ht. unfold repair_unterminated_tail. destruct t as [|a t _] using rev_ind.
  { rewrite bool_decide_true by (unfold zlen, MAX_OPERATOR_ENVELOPE_BYTES; simpl; lia).
    destruct ls as [|l ls _] using rev_ind; [done|].
    rewrite unframe_snoc, app_assoc, last_snoc. by rewrite bool_decide_true. }
  assert (a ≠ newline) as Ha by (intros ->; apply Ht; set_solver).
  rewrite unframe_tail, app_assoc, last_snoc, bool_decide_false by done.
  rewrite <- app_assoc. set (tl := t ++ [a]) in *. set (s := unframe ls [] ++ tl).
  assert (0 < length tl)%nat as Hpos by (unfold tl; rewrite length_app; simpl; lia).
  assert (length s = length (unframe ls []) + length tl)%nat as Hlen by (unfold s; apply length_app).
  rewrite previous_line_end_spec by (unfold saturating_sub, MAX_OPERATOR_ENVELOPE_BYTES; lia).
  rewrite firstn_all. unfold s at 1. rewrite rposition_newline_app.
  rewrite (proj2 (rposition_newline_None tl)) by done. unfold zlen.
  destruct ls as [|l ls _] using rev_ind.
  - simpl. simpl in Hlen. case_bool_decide; case_decide; unfold saturating_sub in *;
      [done|lia|unfold MAX_OPERATOR_ENVELOPE_BYTES in *; lia|done].
  - rewrite unframe_snoc, app_assoc.
    rewrite rposition_newline_app. simpl rposition_newline at 1.
    rewrite unframe_snoc, app_assoc, length_app in Hlen. simpl in Hlen.
    case_bool_decide; case_decide; unfold saturating_sub in *; try lia; [|done].
    f_equal. unfold s. rewrite unframe_snoc, app_assoc. apply take_app_length'.
    rewrite !length_app. simpl. lia.
Qed.

(** ** Rows *)

Section rows.
Context `{JsonText, Crypto, Base64}.

Definition row_at (fingerprint : string) (offset : Z) (event : OperatorEvent) : CursorEvent :=
  mkRow (encode_cursor (mkCursor OPERATOR_CURSOR_VERSION fingerprint offset)) event.

(** The rows of a run of lines that starts at [offset]. *)
Fixpoint rows_from (fingerprint : string) (offset : Z) (ls : list bytes) : list CursorEvent :=
  match ls with
  | [] => []
  | l :: ls' =>
      let offset' := offset + zlen (terminated l) in
      match parse_operator_line l with
      | Some e => row_at fingerprint offset' e :: rows_from fingerprint offset' ls'
      | None => rows_from fingerprint offset' ls'
      end
  end.

Lemma rows_from_app fp offset ls ls' :
  rows_from fp offset (ls ++ ls') =
  rows_from fp offset ls ++ rows_from fp (offset + zlen (unframe ls [])) ls'.
Proof.
  revert offset. induction ls as [|l ls IH]; intros offset; simpl.
  { f_equal. unfold zlen. simpl. lia. }
  assert (zlen (unframe (l :: ls) []) = zlen (terminated l) + zlen (unframe ls [])) as ->.
  { rewrite unframe_cons. rewrite !zlen_app, zlen_cons, zlen_terminated. lia. }
  rewrite IH, Z.add_assoc. by destruct (parse_operator_line l).
Qed.

Lemma line_offset offset l ls1 x :
  offset + zlen (unframe ((l :: ls1) ++ [x]) []) =
  offset + zlen (terminated l) + zlen (unframe (ls1 ++ [x]) []).
Proof.
  rewrite <- app_comm_cons, unframe_cons, !zlen_app, zlen_cons, zlen_terminated. lia.
Qed.

(** A row of a run of lines is one of the lines, at its place. *)
Lemma rows_from_split fp ls : ∀ offset pre row post,
  rows_from fp offset ls = pre ++ row :: post →
  ∃ ls1 l ls2, ls = ls1 ++ l :: ls2 ∧ rows_from fp offset ls1 = pre ∧
    is_Some (parse_operator_line l) ∧
    ce_cursor row = encode_cursor (mkCursor OPERATOR_CURSOR_VERSION fp
                                     (offset + zlen (unframe (ls1 ++ [l]) []))) ∧
    rows_from fp (offset + zlen (unframe (ls1 ++ [l]) [])) ls2 = post.
Proof.
  induction ls as [|l ls IH]; intros offset pre row post Hr; simpl in Hr; [by destruct pre|].
  set (offset' := offset + zlen (terminated l)) in *.
  destruct (parse_operator_line l) as [e|] eqn:Hp.
  - destruct pre as [|p pre]; simplify_eq/=.
    + exists [], l, ls. simpl. assert (offset + zlen (unframe [l] []) = offset') as ->
        by (unfold offset', unframe; simpl; by rewrite !app_nil_r).
      by split_and!.
    + match goal with E : rows_from _ _ ls = _ |- _ => rename E into Hr end.
      destruct (IH _ _ _ _ Hr) as (ls1 & x & ls2 & -> & <- & ? & ? & ?).
      exists (l :: ls1), x, ls2. rewrite line_offset. simpl. rewrite Hp. by split_and!.
  - destruct (IH _ _ _ _ Hr) as (ls1 & x & ls2 & -> & <- & ? & ? & ?).
    exists (l :: ls1), x, ls2. rewrite line_offset. simpl. rewrite Hp. by split_and!.
Qed.

(** *** The line loop *)

Lemma scan_rows_rows limit fp t : line_ok t → ∀ ls fuel offset budget events skipped out sk,
  Forall line_ok ls →
  scan_rows fuel limit fp offset budget events skipped (unframe ls t) = Ok (out, sk) →
  out = events ++ take (limit - length events) (rows_from fp offset ls).
Proof.
  intros Ht. induction ls as [|l ls IH]; intros [|fuel] offset budget events skipped out sk Hls Hs;
    simpl in Hs; try done.
  - cbn [rows_from]. rewrite take_nil, app_nil_r.
    destruct (_ <? _)%nat; [|by injection Hs as <- _].
    rewrite unframe_nil, read_capped_line_tail in Hs by done.
    case_bool_decide; [done|]. case_bool_decide; [by simplify_eq|].
    destruct (record_corrupt _ _); by simplify_eq/=.
  - destruct (Nat.ltb_spec (length events) limit) as [Hlt|Hge].
    2: { injection Hs as <- _. replace (limit - length events)%nat with 0%nat by lia.
         by rewrite take_0, app_nil_r. }
    apply Forall_cons_iff in Hls as [Hl Hls].
    rewrite unframe_cons, read_capped_line_complete in Hs by done. case_bool_decide; [done|].
    rewrite removelast_terminated in Hs. simpl.
    destruct (parse_operator_line l) as [e|].
    + apply IH in Hs as ->; [|done]. rewrite <- app_assoc. f_equal.
      destruct (limit - length events)%nat as [|n] eqn:En; [lia|]. simpl. f_equal. f_equal.
      rewrite length_app. simpl. lia.
    + destruct (record_corrupt _ _) as [b|]; [|done]. simpl in Hs. by apply IH in Hs as ->.
Qed.

(** What the lines cost a corrupt-scan budget. *)
Definition corrupt_lines (ls : list bytes) (t : bytes) : Z :=
  Z.of_nat (length (filter (λ l, parse_operator_line l = None) ls)) +
  (if decide (t = []) then 0 else 1).

Fixpoint corrupt_bytes (ls : list bytes) (t : bytes) : Z :=
  match ls with
  | [] => zlen t
  | l :: ls' => (if parse_operator_line l then 0 else zlen (terminated l)) + corrupt_bytes ls' t
  end.

(** A file the readers accept: no line over the ceiling, no more damage than
    one budget covers. *)
Record readable (ls : list bytes) (t : bytes) : Prop := mkReadable {
  rd_lines : Forall (λ l, zlen l + 1 ≤ MAX_OPERATOR_ENVELOPE_BYTES) ls;
  rd_tail : zlen t ≤ MAX_OPERATOR_ENVELOPE_BYTES;
  rd_corrupt_lines : corrupt_lines ls t ≤ MAX_OPERATOR_CORRUPT_LINES_PER_READ;
  rd_corrupt_bytes : corrupt_bytes ls t ≤ MAX_OPERATOR_CORRUPT_BYTES_PER_READ;
}.

Lemma corrupt_bytes_nonneg ls t : 0 ≤ corrupt_bytes ls t.
Proof.
  induction ls as [|l ls IH]; simpl; [apply zlen_nonneg|].
  destruct (parse_operator_line l); [lia|]. pose proof (zlen_nonneg (terminated l)). lia.
Qed.

Lemma corrupt_lines_nonneg ls t : 0 ≤ corrupt_lines ls t.
Proof. unfold corrupt_lines. case_decide; lia. Qed.

Lemma corrupt_lines_cons l ls t :
  corrupt_lines (l :: ls) t = (if parse_operator_line l then 0 else 1) + corrupt_lines ls t.
Proof.
  unfold corrupt_lines. rewrite filter_cons. destruct (parse_operator_line l); simpl; case_decide; simpl; lia.
Qed.

(** The budget a scan has left is enough for the lines it has left. *)
Definition covers (b : CorruptScanBudget) (ls : list bytes) (t : bytes) : Prop :=
  0 ≤ cb_lines b ∧ 0 ≤ cb_bytes b ∧
  cb_lines b + corrupt_lines ls t ≤ MAX_OPERATOR_CORRUPT_LINES_PER_READ ∧
  cb_bytes b + corrupt_bytes ls t ≤ MAX_OPERATOR_CORRUPT_BYTES_PER_READ.

Lemma record_covered b n :
  0 ≤ cb_lines b → 0 ≤ cb_bytes b → 0 ≤ n →
  cb_lines b + 1 ≤ MAX_OPERATOR_CORRUPT_LINES_PER_READ →
  cb_bytes b + n ≤ MAX_OPERATOR_CORRUPT_BYTES_PER_READ →
  record_corrupt b n = Ok (mkBudget (cb_lines b + 1) (cb_bytes b + n)).
Proof.
  unfold record_corrupt, saturating_add, u64_max, MAX_OPERATOR_CORRUPT_LINES_PER_READ,
    MAX_OPERATOR_CORRUPT_BYTES_PER_READ. intros. simpl cb_lines. simpl cb_bytes.
  rewrite !Z.min_l by lia. rewrite !bool_decide_false by lia. done.
Qed.

(** One line or tail of a covered scan. *)
Lemma covers_line b l ls t :
  covers b (l :: ls) t →
  match parse_operator_line l with
  | Some _ => covers b ls t
  | None => ∃ b', record_corrupt b (zlen (terminated l)) = Ok b' ∧ covers b' ls t
  end.
Proof.
  unfold covers. rewrite corrupt_lines_cons. simpl. intros (H1l & H2b & Hl & Hb).
  pose proof (corrupt_lines_nonneg ls t). pose proof (corrupt_bytes_nonneg ls t).
  pose proof (zlen_nonneg (terminated l)). destruct (parse_operator_line l); [by split_and!; lia|].
  eexists. split; [apply record_covered; lia|]. simpl. lia.
Qed.

Lemma covers_tail b t : covers b [] t → t ≠ [] → ∃ b', record_corrupt b (zlen t) = Ok b'.
Proof.
  unfold covers, corrupt_lines. simpl. intros (Hl0 & Hb0 & Hl & Hb) Ht.
  rewrite decide_False in Hl by done. pose proof (zlen_nonneg t).
  eexists. apply record_covered; lia.
Qed.

Lemma covers_default ls t : readable ls t → covers default_budget ls t.
Proof. intros []. unfold covers. simpl. lia. Qed.

Lemma scan_rows_total limit fp t : line_ok t → zlen t ≤ MAX_OPERATOR_ENVELOPE_BYTES →
  ∀ ls fuel offset budget events skipped,
  Forall line_ok ls → Forall (λ l, zlen l + 1 ≤ MAX_OPERATOR_ENVELOPE_BYTES) ls →
  covers budget ls t → (length ls < fuel)%nat →
  ∃ out sk, scan_rows fuel limit fp offset budget events skipped (unframe ls t) = Ok (out, sk).
Proof.
  intros Ht Hmt. induction ls as [|l ls IH]; intros [|fuel] offset budget events skipped Hls Hm Hc Hf;
    simpl in Hf; try lia; cbn [scan_rows]; (destruct (_ <? _)%nat; [|by eexists _, _]).
  - rewrite unframe_nil, read_capped_line_tail, bool_decide_false by (done || lia).
    case_bool_decide as E; [by eexists _, _|].
    destruct (covers_tail _ _ Hc E) as [b' ->]. by eexists _, _.
  - apply Forall_cons_iff in Hls as [Hl Hls]. apply Forall_cons_iff in Hm as [Hml Hm].
    rewrite unframe_cons, read_capped_line_complete, bool_decide_false by (done || lia).
    rewrite removelast_terminated. apply covers_line in Hc.
    destruct (parse_operator_line l) as [e|]; [apply IH; [done..|lia]|].
    destruct Hc as (b' & -> & Hc). simpl. apply IH; [done..|lia].
Qed.

(** *** Lineage *)

(** The fingerprint of a file's lines. *)
Fixpoint lineage (ls : list bytes) : string :=
  match ls with
  | [] => "empty"
  | l :: ls' => if parse_operator_line l then sha256_hex l else lineage ls'
  end.

Lemma fingerprint_loop_lineage t : line_ok t → ∀ ls fuel budget fp,
  Forall line_ok ls → fingerprint_loop fuel budget (unframe ls t) = Ok fp → fp = lineage ls.
Proof.
  intros Ht. induction ls as [|l ls IH]; intros [|fuel] budget fp Hls Hs; simpl in Hs; try done.
  - rewrite unframe_nil, read_capped_line_tail in Hs by done. case_bool_decide; [done|].
    case_bool_decide; [by simplify_eq|]. destruct (record_corrupt _ _); by simplify_eq/=.
  - apply Forall_cons_iff in Hls as [Hl Hls].
    rewrite unframe_cons, read_capped_line_complete in Hs by done. case_bool_decide; [done|].
    rewrite removelast_terminated in Hs. simpl.
    destruct (parse_operator_line l); [by simplify_eq|].
    destruct (record_corrupt _ _); [|done]. simpl in Hs. by eapply IH.
Qed.

Lemma fingerprint_loop_total t : line_ok t → zlen t ≤ MAX_OPERATOR_ENVELOPE_BYTES →
  ∀ ls fuel budget,
  Forall line_ok ls → Forall (λ l, zlen l + 1 ≤ MAX_OPERATOR_ENVELOPE_BYTES) ls →
  covers budget ls t → (length ls < fuel)%nat →
  fingerprint_loop fuel budget (unframe ls t) = Ok (lineage ls).
Proof.
  intros Ht Hmt. induction ls as [|l ls IH]; intros [|fuel] budget Hls Hm Hc Hf;
    simpl in Hf; try lia; cbn [fingerprint_loop lineage].
  - rewrite unframe_nil, read_capped_line_tail, bool_decide_false by (done || lia).
    case_bool_decide as E; [done|]. by destruct (covers_tail _ _ Hc E) as [b' ->].
  - apply Forall_cons_iff in Hls as [Hl Hls]. apply Forall_cons_iff in Hm as [Hml Hm].
    rewrite unframe_cons, read_capped_line_complete, bool_decide_false by (done || lia).
    rewrite removelast_terminated. apply covers_line in Hc.
    destruct (parse_operator_line l) as [e|]; [done|].
    destruct Hc as (b' & -> & Hc). simpl. apply IH; [done..|lia].
Qed.

Lemma to_hex_not_empty bs : to_hex bs ≠ "empty".
Proof.
  intros Hbad. apply (f_equal String.length) in Hbad. rewrite to_hex_length in Hbad. simpl in Hbad.
  lia.
Qed.

Lemma lineage_empty ls fp offset : lineage ls = "empty" → rows_from fp offset ls = [].
Proof.
  revert offset. induction ls as [|l ls IH]; intros offset; simpl; [done|].
  destruct (parse_operator_line l); [|apply IH]. intros Hbad. by apply to_hex_not_empty in Hbad.
Qed.

Lemma lineage_app ls ls' : lineage ls ≠ "empty" → lineage (ls ++ ls') = lineage ls.
Proof.
  induction ls as [|l ls IH]; simpl; [done|]. by destruct (parse_operator_line l).
Qed.
End rows.

(** ** The operator journal is an event log

    The bytes of OperatorJournal.v discharge the contract of EventLog.v: an
    append that succeeds adds its event at the end and nothing else, whatever
    the state of the tail, a failed or interrupted one leaves every earlier row
    where it was, and a page read at a row's cursor returns the rows after it. *)

#[local] Opaque READER_BUFFER BACKWARD_CHUNK.

Section encoding.
Context `{JsonTextLaws, Crypto, Base64Laws}.

(** ** Cursors *)

Definition cursor_typed (c : OperatorCursor) : Prop :=
  0 ≤ oc_version c ≤ 255 ∧ is_u64 (oc_offset c).

Lemma string_of_as_bytes s : String.string_of_list_ascii (as_bytes s) = s.
Proof. apply String.string_of_list_ascii_of_string. Qed.

Lemma decode_encode_cursor c : cursor_typed c → decode_cursor (encode_cursor c) = Ok c.
Proof.
  intros [Hv Ho]. unfold is_u64, u64_max in Ho. unfold decode_cursor, encode_cursor.
  rewrite b64_decode_encode. simpl. rewrite string_of_as_bytes, parse_print.
  - unfold decode_operator_cursor, as_uint, u64_max. simpl.
    rewrite !bool_decide_true by lia. by destruct c.
  - unfold json_exact, u64_max. simpl. rewrite !bool_decide_true by (unfold u64_max; lia). done.
Qed.

Lemma encode_cursor_inj c c' :
  cursor_typed c → cursor_typed c' → encode_cursor c = encode_cursor c' → c = c'.
Proof.
  intros Hc Hc' He. apply decode_encode_cursor in Hc, Hc'. rewrite He in Hc. congruence.
Qed.

(** ** Envelopes *)

(** An event whose JSON text reads back as it was written: integers and no
    floats, at most 126 levels, a payload that is a [Value]. *)
Record event_encodes (e : OperatorEvent) : Prop := mkEncodes {
  ee_version : 0 ≤ schema_version e ≤ u32_max;
  ee_payload : value_of (payload e) = payload e;
  ee_numbers : exact_numbers (event_value e) = true;
  ee_depth : (json_depth (event_value e) ≤ 126)%nat;
}.

Lemma operator_envelope_eq at_ms e :
  operator_envelope at_ms e =
    JObject [("at_ms", JNumber (PosInt at_ms)); ("kind", JString OPERATOR_STREAM_KIND);
             ("record", event_value e); ("v", JNumber (PosInt EVIDENCE_SCHEMA_VERSION))].
Proof. reflexivity. Qed.

Lemma envelope_exact at_ms e :
  is_u64 at_ms → event_encodes e → json_exact (operator_envelope at_ms e) = true.
Proof.
  intros Ha [_ _ Hn Hd]. rewrite operator_envelope_eq. unfold json_exact.
  apply andb_true_iff. split.
  - cbn [exact_numbers forallb snd fst]. rewrite Hn, !bool_decide_true; [done|..].
    + unfold EVIDENCE_SCHEMA_VERSION, u64_max. lia.
    + exact Ha.
  - apply Nat.leb_le. cbn [json_depth max_list_with snd fst]. lia.
Qed.

Lemma as_uint_ok mx u : 0 ≤ u ≤ mx → as_uint mx (JNumber (PosInt u)) = Some u.
Proof. intros Hle. unfold as_uint. simpl. by rewrite bool_decide_true. Qed.

Lemma parse_envelope_line at_ms e :
  is_u64 at_ms → event_encodes e → parse_operator_line (envelope_line at_ms e) = Some e.
Proof.
  intros Ha He. unfold parse_operator_line, envelope_line.
  rewrite string_of_as_bytes, parse_print by (by apply envelope_exact).
  rewrite operator_envelope_eq. destruct He as [Hv Hp _ _]. destruct Ha as [Ha1 Ha2].
  pose proof (decode_event_value e Hv Hp) as Hdec. unfold field_string.
  cbn [mbind option_bind]. rewrite struct_view_NoDup by (eapply bool_decide_unpack; vm_compute; exact I).
  cbn [mbind option_bind].
  match goal with |- context [obj_get "v" ?fields] => set (m := fields) end.
  assert (obj_get "v" m = Some (JNumber (PosInt EVIDENCE_SCHEMA_VERSION))) as -> by reflexivity.
  assert (obj_get "at_ms" m = Some (JNumber (PosInt at_ms))) as -> by reflexivity.
  assert (obj_get "kind" m = Some (JString OPERATOR_STREAM_KIND)) as -> by reflexivity.
  assert (obj_get "record" m = Some (event_value e)) as -> by reflexivity.
  cbn [mbind option_bind].
  rewrite !as_uint_ok by (done || (unfold u32_max, EVIDENCE_SCHEMA_VERSION; lia)).
  cbn [mbind option_bind]. rewrite Hdec. done.
Qed.

Lemma envelope_line_ok at_ms e : line_ok (envelope_line at_ms e).
Proof. apply print_no_newline. Qed.

Lemma parse_empty_line : parse_operator_line [] = None.
Proof. unfold parse_operator_line. simpl. by rewrite parse_empty. Qed.

Lemma now_ms_typed millis : is_u64 (now_ms millis).
Proof.
  unfold now_ms, is_u64, u64_max. pose proof (Z.mod_pos_bound millis (2 ^ 64)). lia.
Qed.

(** ** Cursor boundaries *)

(** The position after a line that holds an event is a cursor boundary. *)
Lemma offset_follows_line ls l rest :
  Forall line_ok ls → line_ok l → is_Some (parse_operator_line l) →
  zlen l + 1 ≤ MAX_OPERATOR_ENVELOPE_BYTES →
  offset_follows (unframe (ls ++ [l]) [] ++ rest) (zlen (unframe (ls ++ [l]) [])) = Ok true.
Proof.
  intros Hls Hl Hp Hmax. unfold offset_follows.
  assert (l ≠ []) as Hne by (intros ->; rewrite parse_empty_line in Hp; by destruct Hp).
  assert (0 < length l)%nat as Hpos by (destruct l; [done|simpl; lia]).
  set (pre := unframe ls [] ++ l).
  assert (unframe (ls ++ [l]) [] = pre ++ [newline]) as Hu.
  { unfold pre. by rewrite unframe_snoc, app_assoc. }
  assert (zlen (unframe (ls ++ [l]) []) = Z.of_nat (S (length pre))) as ->.
  { rewrite Hu. unfold zlen. rewrite length_app. simpl. lia. }
  rewrite Hu, <- app_assoc. simpl ([newline] ++ rest).
  assert (length pre = length (unframe ls []) + length l)%nat as Hlp by apply length_app.
  rewrite bool_decide_false by lia.
  assert (Z.to_nat (Z.of_nat (S (length pre)) - 1) = length pre) as -> by lia.
  rewrite list_lookup_middle by done.
  rewrite (bool_decide_false (newline ≠ newline)) by (intros []; done).
  rewrite bool_decide_false by lia. simpl orb. cbv iota.
  rewrite previous_line_end_spec.
  2: { unfold saturating_sub, MAX_OPERATOR_ENVELOPE_BYTES. rewrite length_app. simpl. lia. }
  2: { lia. }
  rewrite take_app_length. unfold pre at 1. rewrite rposition_newline_app.
  rewrite (proj2 (rposition_newline_None l)) by done.
  assert (∀ start, start = length (unframe ls []) →
    (if bool_decide (start = length pre) then Ok false
     else Ok (bool_decide (is_Some (parse_operator_line
            (take (length pre - start) (drop start (pre ++ newline :: rest)))))))
    = @Ok ScanError bool true) as Hend.
  { intros start ->. rewrite bool_decide_false by lia.
    assert (take (length pre - length (unframe ls [])) (drop (length (unframe ls []))
              (pre ++ newline :: rest)) = l) as ->.
    { rewrite Hlp. unfold pre. rewrite <- app_assoc, drop_app_length. apply take_app_length'. lia. }
    by rewrite bool_decide_true. }
  unfold zlen in Hmax.
  destruct ls as [|l0 ls _] using rev_ind.
  - simpl rposition_newline. cbv iota. rewrite decide_True; [by apply Hend|].
    unfold saturating_sub. simpl in Hlp. lia.
  - rewrite unframe_snoc, app_assoc, rposition_newline_app. simpl rposition_newline at 1. cbv iota.
    rewrite unframe_snoc, app_assoc, length_app in Hlp. simpl in Hlp.
    rewrite decide_True; [|unfold saturating_sub; lia].
    apply Hend. rewrite unframe_snoc, app_assoc, !length_app. simpl. lia.
Qed.

(** ** The rows of a file *)

Definition content (file : option bytes) : bytes := default [] file.

Definition file_lines (file : option bytes) : list bytes := (frames (content file)).1.

Definition file_rows (file : option bytes) : list CursorEvent :=
  rows_from (lineage (file_lines file)) 0 (file_lines file).

Lemma file_rows_framed s ls t :
  Forall line_ok ls → line_ok t → s = unframe ls t → file_rows (Some s) = rows_from (lineage ls) 0 ls.
Proof. intros ? ? ->. unfold file_rows, file_lines. simpl. by rewrite frames_unframe. Qed.

(** One more line adds its row, if it has one, after the others. *)
Lemma rows_snoc ls l :
  rows_from (lineage (ls ++ [l])) 0 (ls ++ [l]) =
  rows_from (lineage ls) 0 ls ++
    match parse_operator_line l with
    | Some e => [row_at (lineage (ls ++ [l])) (zlen (unframe (ls ++ [l]) [])) e]
    | None => []
    end.
Proof.
  rewrite rows_from_app. f_equal.
  - destruct (decide (lineage ls = "empty")) as [He|He]; [|by rewrite lineage_app].
    by rewrite (lineage_empty ls (lineage (ls ++ [l])) 0 He), (lineage_empty ls _ 0 He).
  - simpl. rewrite unframe_snoc, zlen_terminated.
    assert (zlen (unframe ls [] ++ l ++ [newline]) = zlen (unframe ls []) + (zlen l + 1)) as ->
      by (by rewrite !zlen_app).
    by destruct (parse_operator_line l).
Qed.

(** What is left of an interrupted write adds at most a row. *)
Lemma rows_partial ls l n :
  Forall line_ok ls → line_ok l →
  ∃ rows, file_rows (Some (unframe ls [] ++ take n (terminated l))) =
    rows_from (lineage ls) 0 ls ++ rows ∧ (length rows ≤ 1)%nat.
Proof.
  intros Hls Hl. unfold terminated. destruct (decide (n ≤ length l)%nat).
  - exists []. rewrite take_app_le, app_nil_r by done. split; [|simpl; lia].
    apply (file_rows_framed _ ls (take n l)); [done| |by rewrite <- unframe_tail].
    intros Hin. apply Hl. by eapply subseteq_take.
  - rewrite take_ge by (rewrite length_app; simpl; lia).
    eexists. split.
    + rewrite (file_rows_framed _ (ls ++ [l]) []); [apply rows_snoc| |apply not_elem_of_nil|].
      * apply Forall_app. split; [done|by constructor].
      * by rewrite unframe_snoc.
    + destruct (parse_operator_line l); simpl; lia.
Qed.

Lemma fingerprint_is_lineage file fp :
  first_line_fingerprint file = Ok fp → fp = lineage (file_lines file).
Proof.
  unfold first_line_fingerprint, file_lines, content. destruct file as [s|]; [|by intros [= <-]].
  change (default [] (Some s)) with s. destruct (frames_ok s) as [Hls Ht]. intros Hfp.
  eapply fingerprint_loop_lineage; [exact Ht|exact Hls|]. rewrite unframe_frames. exact Hfp.
Qed.

(** The cases of an append. *)
Lemma append_file_cases step file e :
  let payload := terminated (envelope_line (now_ms (as_millis step)) e) in
  (∃ x f', append_file step file e = (f', Err x) ∧ content f' = content file) ∨
  (∃ ls t, content file = unframe ls t ∧ Forall line_ok ls ∧ line_ok t ∧
     ((∃ n x, append_file step file e = (Some (unframe ls [] ++ take n payload), Err x)) ∨
      (∃ row, append_file step file e = (Some (unframe ls [] ++ payload), Ok row) ∧
         row = row_at (lineage (ls ++ [envelope_line (now_ms (as_millis step)) e]))
                 (zlen (unframe ls [] ++ payload)) e))).
Proof.
  intros payload. unfold append_file. fold payload.
  destruct (find_sensitive (event_value e)); [left; by eexists _, _|].
  case_bool_decide; [left; by eexists _, _|].
  destruct (match as_fault step with LockFault => true | _ => false end) eqn:Elock;
    [left; by eexists _, _|].
  destruct (first_line_fingerprint file) as [fp|] eqn:Efp; [|left; by eexists _, _].
  apply fingerprint_is_lineage in Efp.
  destruct (frames_ok (content file)) as [Hls Ht].
  set (ls := (frames (content file)).1) in *. set (t := (frames (content file)).2) in *.
  assert (content file = unframe ls t) as Hc by (symmetry; apply unframe_frames).
  change (default [] file) with (content file). change (file_lines file) with ls in Efp. clearbody ls t. rewrite Hc.
  rewrite repair_framed by done. case_bool_decide; [|left; by eexists _, _].
  right. exists ls, t. split_and!; [done..|].
  assert (∀ y, bool_decide (fp = "empty") = true →
    first_line_fingerprint (Some (unframe ls [] ++ payload)) = Ok y →
    y = lineage (ls ++ [envelope_line (now_ms (as_millis step)) e])) as Hempty.
  { intros y _ Hy. apply fingerprint_is_lineage in Hy. rewrite Hy. f_equal.
    unfold file_lines, content. simpl. unfold payload, terminated.
    rewrite <- unframe_snoc, frames_unframe; [done| |apply not_elem_of_nil].
    apply Forall_app. split; [done|]. constructor; [apply envelope_line_ok|done]. }
  destruct (as_fault step); [|done|left; by eexists _, _|].
  2: { left. exists (length payload). rewrite firstn_all. by eexists. }
  case_bool_decide as Hfp.
  - destruct (first_line_fingerprint (Some _)) as [fp'|x] eqn:E'.
    + right. eexists. split; [done|]. unfold row_at. by rewrite (Hempty fp').
    + left. exists (length payload). rewrite firstn_all. by eexists.
  - right. eexists. split; [done|]. unfold row_at. rewrite lineage_app; [by rewrite Efp|].
    by rewrite Efp in Hfp.
Qed.

Lemma append_file_extends step file e f' r :
  append_file step file e = (f', r) →
  ∃ rows, file_rows f' = file_rows file ++ rows ∧ (length rows ≤ 1)%nat.
Proof.
  intros Ha. destruct (append_file_cases step file e)
    as [(x & f0 & Hf & Hc)|(ls & t & Hc & Hls & Ht & [(n & x & Hf)|(row & Hf & _)])];
    rewrite Hf in Ha; simplify_eq.
  - exists []. unfold file_rows, file_lines. rewrite Hc, app_nil_r. split; [done|simpl; lia].
  - assert (file_rows file = rows_from (lineage ls) 0 ls) as ->.
    { unfold file_rows, file_lines. by rewrite Hc, frames_unframe. }
    apply rows_partial; [done|apply envelope_line_ok].
  - assert (file_rows file = rows_from (lineage ls) 0 ls) as ->.
    { unfold file_rows, file_lines. by rewrite Hc, frames_unframe. }
    set (payload := terminated _). rewrite <- (firstn_all payload).
    apply rows_partial; [done|apply envelope_line_ok].
Qed.

Lemma append_file_ok step file e f' row :
  event_encodes e → append_file step file e = (f', Ok row) →
  ce_event row = e ∧ file_rows f' = file_rows file ++ [row].
Proof.
  intros He Ha. destruct (append_file_cases step file e)
    as [(x & f0 & Hf & _)|(ls & t & Hc & Hls & Ht & [(n & x & Hf)|(row' & Hf & Hrow)])];
    rewrite Hf in Ha; simplify_eq.
  split; [done|].
  set (l := envelope_line (now_ms (as_millis step)) e) in *.
  assert (file_rows file = rows_from (lineage ls) 0 ls) as ->.
  { unfold file_rows, file_lines. by rewrite Hc, frames_unframe. }
  assert (unframe ls [] ++ terminated l = unframe (ls ++ [l]) []) as -> by (by rewrite unframe_snoc).
  rewrite (file_rows_framed _ (ls ++ [l]) []); [|..|done].
  - rewrite rows_snoc.
    assert (parse_operator_line l = Some e) as -> by (by apply parse_envelope_line; [apply now_ms_typed|]).
    done.
  - apply Forall_app. split; [done|]. constructor; [apply envelope_line_ok|done].
  - apply not_elem_of_nil.
Qed.

(** ** Reading a quiet file *)

(** Where a first part of the rows ends in the file. *)
Lemma resume_point fp ls pre post :
  rows_from fp 0 ls = pre ++ post →
  ∃ ls1 ls2, ls = ls1 ++ ls2 ∧ rows_from fp (zlen (unframe ls1 [])) ls2 = post ∧
    ((pre = [] ∧ ls1 = []) ∨
     (cursor_after None pre =
        Some (encode_cursor (mkCursor OPERATOR_CURSOR_VERSION fp (zlen (unframe ls1 [])))) ∧
      ∃ ls0 l, ls1 = ls0 ++ [l] ∧ is_Some (parse_operator_line l))).
Proof.
  intros Hr. destruct pre as [|row pre _] using rev_ind.
  - exists [], ls. split_and!; [done|done|by left].
  - rewrite <- app_assoc in Hr.
    destruct (rows_from_split _ _ _ _ _ _ Hr) as (ls0 & l & ls2 & -> & _ & Hl & Hc & Hpost).
    exists (ls0 ++ [l]), ls2. rewrite <- app_assoc. split_and!; [done|exact Hpost|]. right.
    unfold cursor_after. rewrite last_snoc, Hc. split; [done|eauto].
Qed.

(** A file of a size the system allows. *)
Definition file_fits (file : option bytes) : Prop := zlen (content file) ≤ 2 ^ 63 - 1.

Lemma drop_lines ls1 ls2 t :
  drop (Z.to_nat (zlen (unframe ls1 []))) (unframe (ls1 ++ ls2) t) = unframe ls2 t.
Proof. unfold zlen. rewrite unframe_app. apply drop_app_length'. lia. Qed.

Lemma take_rest (s : bytes) (start : Z) :
  0 ≤ start ≤ zlen s →
  take (Z.to_nat (saturating_sub (zlen s) start)) (drop (Z.to_nat start) s) = drop (Z.to_nat start) s.
Proof. intros Hs. unfold zlen, saturating_sub in *. apply take_ge. rewrite length_drop. lia. Qed.

(** The offset a cursor resumes at, as the attempt computes it. *)
Definition resume_offset (decoded : option OperatorCursor) : Z :=
  match decoded with Some c => oc_offset c | None => 0 end.

(** A page of a quiet existing file from a boundary of its lines. *)
Lemma attempt_scan ls1 ls2 t raw decoded fp limit page :
  Forall line_ok ls2 → line_ok t → resume_offset decoded = zlen (unframe ls1 []) →
  attempt_page (quiet (Some (unframe (ls1 ++ ls2) t)) 1%nat) raw decoded fp limit = Ok page →
  op_events page = take limit (rows_from fp (zlen (unframe ls1 [])) ls2) ∧
  op_next_cursor page = cursor_after raw (op_events page).
Proof.
  intros Hls Ht Hstart Hp. unfold attempt_page in Hp. simpl fv_len in Hp. simpl fv_read in Hp.
  apply result_bind_Ok in Hp as (start & Hs & Hp).
  assert (start = zlen (unframe ls1 [])) as ->.
  { destruct decoded as [c|]; simpl in Hstart; [|by simplify_eq].
    repeat (apply result_bind_Ok in Hs as (? & _ & Hs)). by simplify_eq. }
  apply result_bind_Ok in Hp as ([found sk] & Hfound & Hp).
  injection Hp as <-. cbn [op_events op_next_cursor fst]. split; [|done].
  rewrite take_rest in Hfound.
  2: { change (default [] (Some ?x)) with x. rewrite unframe_app, zlen_app.
       pose proof (zlen_nonneg (unframe ls2 t)). pose proof (zlen_nonneg (unframe ls1 [])). lia. }
  rewrite drop_lines in Hfound. unfold storage in Hfound.
  destruct (scan_rows _ _ _ _ _ _ _ _) as [[out sk']|] eqn:Hscan; [|done].
  injection Hfound as <- <-.
  apply scan_rows_rows in Hscan as ->; [|done..]. by rewrite Nat.sub_0_r.
Qed.

Lemma read_attempts_quiet file raw decoded limit :
  read_attempts MAX_OPERATOR_LINEAGE_READ_ATTEMPTS 1 (quiet file) raw decoded limit =
  (fp ← storage (first_line_fingerprint file); attempt_page (quiet file 1%nat) raw decoded fp limit).
Proof.
  unfold MAX_OPERATOR_LINEAGE_READ_ATTEMPTS. cbn [read_attempts].
  change (fv_snapshot (quiet file 1%nat)) with file. change (fv_end (quiet file 1%nat)) with file.
  destruct (first_line_fingerprint file) as [fp|e]; [|done].
  cbn [storage map_err mbind result_bind]. by rewrite bool_decide_false by (intros []; done).
Qed.

(** The decoded form of the cursor after a first part of the rows. *)
Lemma decode_resume fp offset :
  is_u64 offset →
  (c ← decode_cursor (encode_cursor (mkCursor OPERATOR_CURSOR_VERSION fp offset));
   _ ← bail_if (bool_decide (oc_version c ≠ OPERATOR_CURSOR_VERSION))
         (InvalidCursor "unsupported cursor version");
   Ok (Some c)) = Ok (Some (mkCursor OPERATOR_CURSOR_VERSION fp offset)).
Proof.
  intros Ho. rewrite decode_encode_cursor by (split; simpl; [unfold OPERATOR_CURSOR_VERSION; lia|done]).
  cbn [mbind result_bind oc_version]. by rewrite bool_decide_false by (intros []; done).
Qed.

Lemma read_after_resume file raw cursor decoded limit :
  (match cursor with
   | None => Ok None
   | Some raw =>
       c ← decode_cursor raw;
       _ ← bail_if (bool_decide (oc_version c ≠ OPERATOR_CURSOR_VERSION))
             (InvalidCursor "unsupported cursor version");
       Ok (Some c)
   end) = Ok decoded → raw = cursor →
  read_after (quiet file) cursor limit =
  (fp ← storage (first_line_fingerprint file); attempt_page (quiet file 1%nat) raw decoded fp limit).
Proof. intros Hd ->. unfold read_after. rewrite Hd. cbn [mbind result_bind]. apply read_attempts_quiet. Qed.

(** What a reader at the end of a first part of the rows works from. *)
Lemma resume_quiet s pre post limit :
  file_fits (Some s) → file_rows (Some s) = pre ++ post →
  ∃ ls1 ls2 t decoded, s = unframe (ls1 ++ ls2) t ∧ Forall line_ok (ls1 ++ ls2) ∧ line_ok t ∧
    rows_from (lineage (ls1 ++ ls2)) (zlen (unframe ls1 [])) ls2 = post ∧
    resume_offset decoded = zlen (unframe ls1 []) ∧
    (decoded = None ∨ (decoded = Some (mkCursor OPERATOR_CURSOR_VERSION (lineage (ls1 ++ ls2))
                                         (zlen (unframe ls1 []))) ∧
                       ∃ ls0 l, ls1 = ls0 ++ [l] ∧ is_Some (parse_operator_line l))) ∧
    read_after (quiet (Some s)) (cursor_after None pre) limit =
      (fp ← storage (first_line_fingerprint (Some s));
       attempt_page (quiet (Some s) 1%nat) (cursor_after None pre) decoded fp limit).
Proof.
  intros Hfit Hr. destruct (file_framed s) as (ls & t & -> & Hls & Ht).
  rewrite (file_rows_framed _ ls t) in Hr by done.
  destruct (resume_point _ _ _ _ Hr) as (ls1 & ls2 & -> & Hpost & [[-> ->]|[Hc Hl]]).
  - exists [], ls2, t, None.
    split_and!; [done|exact Hls|exact Ht|exact Hpost|reflexivity|by left|].
    by apply read_after_resume.
  - eexists ls1, ls2, t, (Some _). rewrite Hc.
    split_and!; [done|exact Hls|exact Ht|exact Hpost| |right; by split|]; [done|].
    apply read_after_resume; [|done]. apply decode_resume.
    unfold file_fits, content, is_u64, u64_max in *. simpl in Hfit. rewrite unframe_app, zlen_app in Hfit.
    pose proof (zlen_nonneg (unframe ls1 [])). pose proof (zlen_nonneg (unframe ls2 t)). lia.
Qed.

Lemma file_lines_framed ls t : Forall line_ok ls → line_ok t → file_lines (Some (unframe ls t)) = ls.
Proof. intros ? ?. unfold file_lines, content. simpl. by rewrite frames_unframe. Qed.

Lemma read_quiet file pre post limit page :
  file_fits file → file_rows file = pre ++ post →
  read_after (quiet file) (cursor_after None pre) limit = Ok page →
  op_events page = take limit post ∧
  op_next_cursor page = cursor_after (cursor_after None pre) (take limit post).
Proof.
  intros Hfit Hr Hp. destruct file as [s|].
  - destruct (resume_quiet s pre post limit Hfit Hr)
      as (ls1 & ls2 & t & decoded & -> & Hls & Ht & Hpost & Hoff & _ & Heq).
    rewrite Heq in Hp. apply result_bind_Ok in Hp as (fp & Hfp & Hp).
    unfold storage in Hfp. destruct (first_line_fingerprint _) as [fp'|] eqn:Efp; [|done].
    injection Hfp as ->. apply fingerprint_is_lineage in Efp. rewrite file_lines_framed in Efp by done.
    apply Forall_app in Hls as [_ Hls].
    destruct (attempt_scan _ _ _ _ _ _ _ _ Hls Ht Hoff Hp) as [He Hn].
    rewrite Efp, Hpost in He. by rewrite Hn, He.
  - destruct pre; [|done]. destruct post; [|done]. rewrite take_nil.
    unfold read_after in Hp. cbn [cursor_after last mbind result_bind] in Hp.
    rewrite read_attempts_quiet in Hp. by injection Hp as <-.
Qed.

(** ** Readable files *)

Definition file_readable (file : option bytes) : Prop :=
  readable (frames (content file)).1 (frames (content file)).2.

Lemma readable_suffix ls1 ls2 t : readable (ls1 ++ ls2) t → readable ls2 t.
Proof.
  induction ls1 as [|l ls1 IH]; [done|]. intros [Hl Ht Hc Hb]. apply IH.
  simpl in *. apply Forall_cons_iff in Hl as [_ Hl]. rewrite corrupt_lines_cons in Hc.
  pose proof (zlen_nonneg (terminated l)). destruct (parse_operator_line l); split; (done || lia).
Qed.

Lemma fingerprint_total ls t :
  Forall line_ok ls → line_ok t → readable ls t →
  first_line_fingerprint (Some (unframe ls t)) = Ok (lineage ls).
Proof.
  intros Hls Ht Hrd. unfold first_line_fingerprint. pose proof (covers_default _ _ Hrd).
  destruct Hrd as [Hm Hmt _ _]. apply fingerprint_loop_total; [done..|].
  pose proof (unframe_length_ge ls t). lia.
Qed.

Lemma attempt_total ls1 ls2 t raw decoded limit :
  Forall line_ok (ls1 ++ ls2) → line_ok t → readable (ls1 ++ ls2) t →
  resume_offset decoded = zlen (unframe ls1 []) →
  (decoded = None ∨ (decoded = Some (mkCursor OPERATOR_CURSOR_VERSION (lineage (ls1 ++ ls2))
                                       (zlen (unframe ls1 []))) ∧
                     ∃ ls0 l, ls1 = ls0 ++ [l] ∧ is_Some (parse_operator_line l))) →
  ∃ page, attempt_page (quiet (Some (unframe (ls1 ++ ls2) t)) 1%nat) raw decoded
            (lineage (ls1 ++ ls2)) limit = Ok page.
Proof.
  intros Hls Ht Hrd Hoff Hdec.
  assert (zlen (unframe (ls1 ++ ls2) t) = zlen (unframe ls1 []) + zlen (unframe ls2 t)) as Hz
    by (by rewrite unframe_app, zlen_app).
  pose proof (zlen_nonneg (unframe ls1 [])) as Hz1. pose proof (zlen_nonneg (unframe ls2 t)) as Hz2.
  unfold attempt_page. cbn [quiet fv_len fv_read fv_boundary].
  change (default [] (Some ?x)) with x.
  match goal with |- context [mbind _ ?m] =>
    assert (m = Ok (zlen (unframe ls1 []))) as -> end.
  { destruct Hdec as [->|[-> (ls0 & l & -> & Hl)]]; simpl in Hoff; [by rewrite Hoff|].
    cbn [oc_fingerprint oc_offset].
    rewrite (bool_decide_false (lineage _ ≠ _)) by (intros []; done). cbn [bail_if mbind result_bind].
    rewrite (bool_decide_false (_ > _)) by lia. cbn [bail_if mbind result_bind].
    case_bool_decide as H0off; [done|].
    rewrite (unframe_app (ls0 ++ [l]) ls2 t), offset_follows_line.
    - done.
    - apply Forall_app in Hls as [[? _]%Forall_app _]. done.
    - apply Forall_app in Hls as [[_ [? _]%Forall_cons_iff]%Forall_app _]. done.
    - done.
    - destruct Hrd as [Hm _ _ _]. apply Forall_app in Hm as [[_ [? _]%Forall_cons_iff]%Forall_app _].
      done. }
  cbn [mbind result_bind]. rewrite take_rest, drop_lines by lia.
  apply readable_suffix in Hrd. pose proof (covers_default _ _ Hrd). destruct Hrd as [Hm Hmt _ _].
  apply Forall_app in Hls as [_ Hls].
  destruct (scan_rows_total limit (lineage (ls1 ++ ls2)) t Ht Hmt ls2 (S (length (unframe ls2 t)))
              (zlen (unframe ls1 [])) default_budget [] 0) as (out & sk & ->); [done..| |by eexists].
  pose proof (unframe_length_ge ls2 t). lia.
Qed.

Lemma read_quiet_total file pre post limit :
  file_fits file → file_readable file → file_rows file = pre ++ post →
  ∃ page, read_after (quiet file) (cursor_after None pre) limit = Ok page.
Proof.
  intros Hfit Hrd Hr. destruct file as [s|].
  - destruct (resume_quiet s pre post limit Hfit Hr)
      as (ls1 & ls2 & t & decoded & -> & Hls & Ht & Hpost & Hoff & Hdec & ->).
    unfold file_readable, content in Hrd. simpl in Hrd. rewrite frames_unframe in Hrd by done.
    simpl in Hrd. rewrite fingerprint_total by done. by apply attempt_total.
  - destruct pre; [|done]. unfold read_after. cbn [cursor_after last mbind result_bind].
    rewrite read_attempts_quiet. by eexists.
Qed.

(** Rows of one file have distinct cursors. *)
Lemma rows_from_cursors fp ls : ∀ offset,
  0 ≤ offset → offset + zlen (unframe ls []) ≤ 2 ^ 63 - 1 →
  NoDup (map ce_cursor (rows_from fp offset ls)) ∧
  Forall (λ row, ∃ o, offset < o ≤ 2 ^ 63 - 1 ∧
            ce_cursor row = encode_cursor (mkCursor OPERATOR_CURSOR_VERSION fp o))
    (rows_from fp offset ls).
Proof.
  induction ls as [|l ls IH]; intros offset H0off Hmax; simpl; [by split; constructor|].
  rewrite unframe_cons, zlen_app, zlen_cons in Hmax. rewrite zlen_terminated.
  pose proof (zlen_nonneg l). pose proof (zlen_nonneg (unframe ls [])).
  destruct (IH (offset + (zlen l + 1))) as [Hnd Hall]; [lia..|].
  assert (Forall (λ row, ∃ o, offset < o ≤ 2 ^ 63 - 1 ∧
            ce_cursor row = encode_cursor (mkCursor OPERATOR_CURSOR_VERSION fp o))
            (rows_from fp (offset + (zlen l + 1)) ls)) as Hall'.
  { eapply Forall_impl; [exact Hall|]. intros row (o & ? & ?). exists o. split; [lia|done]. }
  destruct (parse_operator_line l) as [e|]; [|done]. simpl. split.
  - apply NoDup_cons. split; [|done]. intros Hin. apply list_elem_of_fmap in Hin as (row & Heq & Hin).
    eapply Forall_forall in Hall as (o & Ho & Hc); [|exact Hin]. rewrite Hc in Heq.
    apply encode_cursor_inj in Heq; [simplify_eq; lia|..];
      split; unfold OPERATOR_CURSOR_VERSION, is_u64, u64_max; simpl; lia.
  - constructor; [|done]. exists (offset + (zlen l + 1)). split; [lia|done].
Qed.
End encoding.
