(* ===== verification/JournalContract.v ===== *)
(** * What the operator journal promises

    The byte-level journal as an instance of the event log interface, so that
    every theorem about the session service holds over it, and the guarantees
    of its own: durable appends, exact resumption, and cursors that cannot point
    between events. *)

From stdpp Require Import base gmap sets strings numbers list.
From Stdlib Require Import Ascii.
From S2P Require Import Prelude Json Hex Envelope Framing OperatorEvent Sensitive Turns EventLog.
From S2P Require Import OperatorJournal JournalLog.
#[local] Open Scope Z_scope.

#[local] Opaque READER_BUFFER BACKWARD_CHUNK.

#[export] Instance file_fits_dec file : Decision (file_fits file).
Proof. unfold file_fits. apply _. Defined.

(** The journal's file, of a size the system allows, and what the system will
    do to each of the appends to come. *)
Record JournalStore : Type := mkStore {
  js_file : option bytes;
  js_fits : file_fits js_file;
  js_steps : nat → AppendStep;
  js_next : nat;
}.

Section contract.
Context `{JsonTextLaws, Crypto, Base64Laws}.

(** An append to the store; one that would grow the file past the largest file
    size is refused by the system. *)
Definition store_append (j : JournalStore) (event : OperatorEvent)
    : JournalStore * result string CursorEvent :=
  let '(f, r) := append_file (js_steps j (js_next j)) (js_file j) event in
  match decide (file_fits f) with
  | left Hfits => (mkStore f Hfits (js_steps j) (S (js_next j)), r)
  | right _ => (mkStore (js_file j) (js_fits j) (js_steps j) (S (js_next j)), Err "file too large")
  end.

#[export] Instance journal_log : EventLog JournalStore := {|
  log_append := store_append;
  log_read_after j := read_after (quiet (js_file j));
|}.

#[export] Instance journal_log_laws : EventLogLaws JournalStore.
Proof.
  refine {| log_rows j := file_rows (js_file j); log_readable j := file_readable (js_file j);
            log_encodes := event_encodes |}.
  - intros [file Hfits steps n]. simpl. unfold file_fits in Hfits. unfold file_rows, file_lines.
    apply rows_from_cursors; [lia|]. rewrite <- (unframe_frames (content file)) in Hfits.
    rewrite unframe_tail, zlen_app in Hfits. pose proof (zlen_nonneg (frames (content file)).2). lia.
  - intros j pre post cursor limit page Hr -> Hp. exact (read_quiet _ _ _ _ _ (js_fits j) Hr Hp).
  - intros j pre post limit Hrd Hr. exact (read_quiet_total _ _ _ limit (js_fits j) Hrd Hr).
  - intros j e j' row He Ha. simpl in Ha. unfold store_append in Ha.
    destruct (append_file _ _ _) as [f r] eqn:Hf. destruct (decide (file_fits f)); [|done].
    injection Ha as <- ->. by eapply append_file_ok.
  - intros j e j' r Ha. simpl in Ha. unfold store_append in Ha.
    destruct (append_file _ _ _) as [f r'] eqn:Hf. destruct (decide (file_fits f)).
    + injection Ha as <- _. by eapply append_file_extends.
    + injection Ha as <- _. exists []. rewrite app_nil_r. split; [done|simpl; lia].
Defined.

(** C1.  Appends are durable and all or nothing to a reader.  Whatever the file
    (absent, or with a tail an earlier crash tore) and whatever the system does
    to the write: the rows that were there stay, in place and in order, and at
    most one row is added; an append that reports success of an event JSON can
    represent added exactly that event, under the cursor it returned; and one
    refused for sensitive material or size changed not a byte. *)
Theorem append_is_durable (step : AppendStep) (file f' : option bytes) (event : OperatorEvent)
    (r : result string CursorEvent) :
  append_file step file event = (f', r) →
  (∃ rows, file_rows f' = file_rows file ++ rows ∧ (length rows ≤ 1)%nat) ∧
  (∀ row, r = Ok row → event_encodes event →
     ce_event row = event ∧ file_rows f' = file_rows file ++ [row] ∧
     find_sensitive (event_value event) = None) ∧
  (is_Some (find_sensitive (event_value event)) ∨
   zlen (terminated (envelope_line (now_ms (as_millis step)) event)) > MAX_OPERATOR_ENVELOPE_BYTES →
   f' = file ∧ ∃ reason, r = Err reason).
Proof.
  intros Ha. split_and!; [by eapply append_file_extends|..].
  - intros row -> He. destruct (append_file_ok _ _ _ _ _ He Ha). split_and!; [done..|].
    unfold append_file in Ha. by destruct (find_sensitive (event_value event)).
  - unfold append_file in Ha. intros Hbad.
    destruct (find_sensitive (event_value event)); [simplify_eq; eauto|].
    destruct Hbad as [[? ?]|Hbad]; [done|]. rewrite bool_decide_true in Ha by done.
    simplify_eq. eauto.
Qed.

(**  Resumption is exact: over a file of any state, a read from the start,
    or from the cursor of any of its rows, that succeeds returns the next rows,
    at most [limit] of them, with the cursor after the last; and over a file
    whose lines are within the ceiling and whose damage is within the scan
    budget it always succeeds, so that damage never hides an event. *)
Theorem read_after_resumes (file : option bytes) (pre post : list CursorEvent) (limit : nat) :
  file_fits file → file_rows file = pre ++ post →
  (∀ page, read_after (quiet file) (cursor_after None pre) limit = Ok page →
     op_events page = take limit post ∧
     op_next_cursor page = cursor_after None (pre ++ take limit post)) ∧
  (file_readable file →
     is_Some (result_ok (read_after (quiet file) (cursor_after None pre) limit))).
Proof.
  intros Hfit Hr. split.
  - intros page Hp. destruct (read_quiet _ _ _ _ _ Hfit Hr Hp) as [He Hn].
    by rewrite <- cursor_after_app.
  - intros Hrd. destruct (read_quiet_total _ _ _ limit Hfit Hrd Hr) as [page ->]. by eexists.
Qed.

(** An offset the boundary check accepts is the start or the end of an event's
    line. *)
Lemma offset_follows_inv s offset :
  0 ≤ offset → offset_follows s offset = Ok true →
  offset = 0 ∨
  ∃ ls0 l rest, s = unframe (ls0 ++ [l]) rest ∧ Forall line_ok (ls0 ++ [l]) ∧
    offset = zlen (unframe (ls0 ++ [l]) []) ∧ is_Some (parse_operator_line l).
Proof.
  intros Hpos Hp. unfold offset_follows in Hp. case_bool_decide as H0off; [by left|]. right.
  destruct (s !! Z.to_nat (offset - 1)) as [byte|] eqn:Hbyte; [|done].
  destruct (bool_decide (byte ≠ newline)) eqn:Hnl; [done|].
  assert (byte = newline) as ->.
  { apply bool_decide_eq_false in Hnl. by apply dec_stable. }
  destruct (bool_decide (offset = 1)) eqn:H1off; [done|]. cbn [orb] in Hp.
  apply bool_decide_eq_false in H1off. set (n := Z.to_nat (offset - 1)) in *.
  assert (s = take n s ++ newline :: drop (S n) s) as Hs by (symmetry; by apply take_drop_middle).
  assert (n < length s)%nat as Hn by (by eapply lookup_lt_Some).
  destruct (file_framed (take n s)) as (ls0 & l & Ha & Hls & Hl).
  assert (n = length (unframe ls0 l)) as Hlen by (rewrite <- Ha, length_take; lia).
  rewrite previous_line_end_spec in Hp by (unfold saturating_sub, MAX_OPERATOR_ENVELOPE_BYTES; lia).
  rewrite Ha, rposition_unframe in Hp by done. set (D := drop (S n) s) in *. clearbody D. exists ls0, l, D.
  rewrite Ha in Hs. rewrite unframe_length in Hlen.
  assert (∀ start, start = length (unframe ls0 []) →
            take (n - start) (drop start s) = l) as Hline.
  { intros start ->. rewrite Hs, (unframe_tail ls0 l), <- app_assoc, drop_app_length.
    apply take_app_length'. lia. }
  split_and!.
  - rewrite Hs. by rewrite unframe_snoc, (unframe_tail ls0 l), <- app_assoc.
  - apply Forall_app. split; [done|by constructor].
  - rewrite unframe_snoc, !zlen_app. unfold zlen. simpl. lia.
  - destruct (length (unframe ls0 [])) as [|k] eqn:Ek.
    + destruct (decide _); [|done]. destruct (bool_decide (0%nat = n)); [done|]. injection Hp as Hp.
      rewrite (Hline 0%nat) in Hp by lia. by apply bool_decide_eq_true in Hp.
    + destruct (decide _); [|done]. destruct (bool_decide (S k = n)); [done|]. injection Hp as Hp.
      rewrite (Hline (S k)) in Hp by lia. by apply bool_decide_eq_true in Hp.
Qed.

(** The lines on both sides of a boundary the check accepts. *)
Lemma boundary_lines s offset :
  0 ≤ offset →
  (if bool_decide (offset = 0) then Ok true else storage (offset_follows s offset)) = Ok true →
  ∃ ls1 ls2 t, s = unframe (ls1 ++ ls2) t ∧ Forall line_ok (ls1 ++ ls2) ∧ line_ok t ∧
    offset = zlen (unframe ls1 []) ∧
    (ls1 = [] ∨ ∃ ls0 l, ls1 = ls0 ++ [l] ∧ is_Some (parse_operator_line l)).
Proof.
  intros Hpos Hb. destruct (bool_decide (offset = 0)) eqn:E0.
  { apply bool_decide_eq_true in E0 as ->. destruct (file_framed s) as (ls & t & -> & ? & ?).
    exists [], ls, t. split_and!; [done..|by left]. }
  unfold storage in Hb. destruct (offset_follows s offset) as [b|] eqn:Hf; [|done].
  injection Hb as ->.
  apply offset_follows_inv in Hf as [->|(ls0 & l & rest & -> & Hls & Hoff & Hl)]; [done| |done].
  destruct (file_framed rest) as (ls2 & t & -> & Hls2 & Ht).
  exists (ls0 ++ [l]), ls2, t. split_and!; [|by apply Forall_app|done|done|eauto].
  by rewrite (unframe_app (ls0 ++ [l]) ls2 t), (unframe_tail (ls0 ++ [l]) (unframe ls2 t)).
Qed.

Lemma decoded_offset raw c : decode_cursor raw = Ok c → 0 ≤ oc_offset c.
Proof.
  unfold decode_cursor, decode_operator_cursor. intros Hd.
  apply result_bind_Ok in Hd as (bs & _ & Hd). unfold ok_or in Hd.
  repeat match type of Hd with context [match (?m ≫= _) with _ => _ end] =>
    destruct m as [?|] eqn:?; cbn [mbind option_bind] in Hd; [|done] end.
  injection Hd as <-. simpl.
  match goal with E : _ ≫= as_uint u64_max = Some ?z |- 0 ≤ ?z =>
    apply bind_Some in E as (v & _ & E); unfold as_uint in E;
    apply bind_Some in E as (u & _ & E) end.
  case_bool_decide; [simplify_eq; lia|done].
Qed.

(**  A cursor cannot point between events.  Whatever text a caller presents
    as a cursor: if a quiet journal answers it with a page, the text decodes to
    a position of this lineage that is the start of the stream or the end of an
    event's line, and the page holds the rows after that position; so no text
    makes a reader skip part of an event or a damaged line unnoticed. *)
Theorem cursor_is_a_boundary (s : bytes) (raw : string) (limit : nat) (page : OperatorPage) :
  read_after (quiet (Some s)) (Some raw) limit = Ok page →
  ∃ c ls1 ls2 t,
    decode_cursor raw = Ok c ∧ s = unframe (ls1 ++ ls2) t ∧
    oc_version c = OPERATOR_CURSOR_VERSION ∧ oc_fingerprint c = lineage (ls1 ++ ls2) ∧
    oc_offset c = zlen (unframe ls1 []) ∧
    (ls1 = [] ∨ ∃ ls0 l, ls1 = ls0 ++ [l] ∧ is_Some (parse_operator_line l)) ∧
    file_rows (Some s) = rows_from (lineage (ls1 ++ ls2)) 0 ls1 ++
                         rows_from (lineage (ls1 ++ ls2)) (oc_offset c) ls2 ∧
    op_events page = take limit (rows_from (lineage (ls1 ++ ls2)) (oc_offset c) ls2).
Proof.
  intros Hp. unfold read_after in Hp. apply result_bind_Ok in Hp as (decoded & Hd & Hp).
  apply result_bind_Ok in Hd as (c & Hc & Hd). apply result_bind_Ok in Hd as ([] & Hv & Hd).
  injection Hd as <-. rewrite read_attempts_quiet in Hp. apply result_bind_Ok in Hp as (fp & Hfp & Hp).
  unfold storage in Hfp. destruct (first_line_fingerprint _) as [fp'|] eqn:Efp; [|done].
  injection Hfp as ->. apply fingerprint_is_lineage in Efp.
  pose proof (decoded_offset raw c Hc) as Hoff0. pose proof Hp as Hpage. unfold attempt_page in Hp.
  apply result_bind_Ok in Hp as (start & Hs & _).
  apply result_bind_Ok in Hs as ([] & Hf & Hs). apply result_bind_Ok in Hs as ([] & _ & Hs).
  apply result_bind_Ok in Hs as (follows & Hfol & Hs). apply result_bind_Ok in Hs as ([] & Hb & Hs).
  clear Hs start. destruct follows; [|done].
  assert (oc_version c = OPERATOR_CURSOR_VERSION) as Hver.
  { destruct (bool_decide _) eqn:E in Hv; [done|]. apply bool_decide_eq_false in E. by apply dec_stable. }
  assert (oc_fingerprint c = fp) as Hfc.
  { destruct (bool_decide _) eqn:E in Hf; [done|]. apply bool_decide_eq_false in E. by apply dec_stable. }
  assert (∃ ls1 ls2 t, s = unframe (ls1 ++ ls2) t ∧ Forall line_ok (ls1 ++ ls2) ∧ line_ok t ∧
            oc_offset c = zlen (unframe ls1 []) ∧
            (ls1 = [] ∨ ∃ ls0 l, ls1 = ls0 ++ [l] ∧ is_Some (parse_operator_line l)))
    as (ls1 & ls2 & t & -> & Hls & Ht & Hoff & Hend) by (by eapply boundary_lines).
  rewrite file_lines_framed in Efp by done. exists c, ls1, ls2, t. rewrite <- Efp.
  split_and!; try done.
  - rewrite (file_rows_framed _ (ls1 ++ ls2) t), <- Efp, rows_from_app by done. by rewrite Hoff.
  - apply Forall_app in Hls as [_ Hls].
    destruct (attempt_scan ls1 ls2 t (Some raw) (Some c) fp limit page Hls Ht Hoff Hpage) as [-> _].
    by rewrite Hoff.
Qed.
End contract.
