(* ===== verification/JournalConcurrent.v ===== *)
(** * Lock-free reads

    [read_after] takes no lock: the file may grow, and its torn tail may change,
    between any two of its looks at it.  As long as writers only append, the
    page it returns is one a reader alone with some state of the file during the
    read would have been given. *)

From stdpp Require Import base gmap sets strings numbers list.
From Stdlib Require Import Ascii.
From S2P Require Import Prelude Json Hex Envelope Framing OperatorEvent Sensitive Turns EventLog.
From S2P Require Import OperatorJournal JournalLog.
#[local] Open Scope Z_scope.

#[local] Opaque READER_BUFFER BACKWARD_CHUNK.

(** ** Cutting a file *)

Lemma frames_lines ls s :
  Forall line_ok ls → frames (unframe ls s) = (ls ++ (frames s).1, (frames s).2).
Proof.
  induction 1 as [|l ls Hl _ IH]; [rewrite unframe_nil; by destruct (frames s)|].
  by rewrite unframe_cons, frames_line, IH.
Qed.

(** The lines of a cut file are a first part of its lines. *)
Lemma take_framed n ls t :
  Forall line_ok ls → line_ok t →
  ∃ ls1 ls2 t', ls = ls1 ++ ls2 ∧ take n (unframe ls t) = unframe ls1 t' ∧ line_ok t'.
Proof.
  intros Hls Ht. destruct (file_framed (take n (unframe ls t))) as (ls1 & t' & Htk & Hls1 & Ht').
  exists ls1, (frames (t' ++ drop n (unframe ls t))).1, t'. split_and!; [|done|done].
  assert (unframe ls1 (t' ++ drop n (unframe ls t)) = unframe ls t) as Heq.
  { rewrite unframe_tail, app_assoc, <- unframe_tail, <- Htk. apply take_drop. }
  apply (f_equal frames) in Heq. rewrite frames_lines, frames_unframe in Heq by done.
  by simplify_eq.
Qed.

(** Cutting after some of the lines keeps them. *)
Lemma take_keeps n ls1 ls2 t ls t' :
  Forall line_ok (ls1 ++ ls2) → Forall line_ok ls → line_ok t' →
  (length (unframe ls1 []) ≤ n)%nat → take n (unframe (ls1 ++ ls2) t) = unframe ls t' →
  ls1 `prefix_of` ls.
Proof.
  intros [Hls1 Hls2]%Forall_app Hls Ht' Hn Htk. rewrite unframe_app, take_app_ge in Htk by done.
  apply (f_equal frames) in Htk. rewrite <- unframe_tail, frames_lines, frames_unframe in Htk by done.
  injection Htk as <- _. by eexists.
Qed.

Section concurrent.
Context `{JsonTextLaws, Crypto, Base64Laws}.

(** Lines are only ever added; the tail is free. *)
Definition grows (before after : option bytes) : Prop := file_lines before `prefix_of` file_lines after.

#[export] Instance grows_preorder : PreOrder grows.
Proof.
  split; [intros f; unfold grows; done|]. intros f g h. unfold grows. apply transitivity.
Qed.

(** The file during a read: it grows from look to look, and from attempt to
    attempt. *)
Definition appended_only (views : nat → FileViews) : Prop :=
  ∀ k, grows (fv_len (views k)) (fv_snapshot (views k)) ∧
    grows (fv_snapshot (views k)) (fv_boundary (views k)) ∧
    grows (fv_boundary (views k)) (fv_read (views k)) ∧
    grows (fv_read (views k)) (fv_end (views k)) ∧
    grows (fv_end (views k)) (fv_len (views (S k))).

Lemma lineage_prefix_empty ls ls' : lineage (ls ++ ls') = "empty" → lineage ls = "empty".
Proof.
  induction ls as [|l ls IH]; simpl; [done|].
  destruct (parse_operator_line l); [|done]. intros Hbad. by apply to_hex_not_empty in Hbad.
Qed.

(** A lineage that is the same before and after is the same in between. *)
Lemma lineage_between a b c :
  a `prefix_of` b → b `prefix_of` c → lineage a = lineage c → lineage b = lineage a.
Proof.
  intros [x ->] [y ->] Heq. destruct (decide (lineage a = "empty")) as [He|He].
  - rewrite He in *. by eapply lineage_prefix_empty.
  - by apply lineage_app.
Qed.

Lemma rows_from_prefix fp offset ls ls' :
  ls `prefix_of` ls' → rows_from fp offset ls `prefix_of` rows_from fp offset ls'.
Proof. intros [x ->]. rewrite rows_from_app. by eexists. Qed.

Lemma content_framed file :
  ∃ t, content file = unframe (file_lines file) t ∧ Forall line_ok (file_lines file) ∧ line_ok t.
Proof.
  exists (frames (content file)).2. unfold file_lines. destruct (frames_ok (content file)).
  by rewrite unframe_frames.
Qed.

(** What an attempt that answers has scanned: the file it read, cut at the
    length it saw first, from where the cursor stands. *)
Lemma attempt_views_scan v raw decoded fp limit page :
  attempt_page v raw decoded fp limit = Ok page →
  ∃ sk, let input := take (Z.to_nat (saturating_sub (zlen (content (fv_len v))) (resume_offset decoded)))
                       (drop (Z.to_nat (resume_offset decoded)) (content (fv_read v))) in
    scan_rows (S (length input)) limit fp (resume_offset decoded) default_budget [] 0 input =
      Ok (op_events page, sk).
Proof.
  unfold attempt_page. intros Hp. apply result_bind_Ok in Hp as (start & Hs & Hp).
  assert (start = resume_offset decoded) as ->.
  { destruct decoded as [c|]; [|by injection Hs].
    repeat (apply result_bind_Ok in Hs as (? & _ & Hs)). by injection Hs. }
  apply result_bind_Ok in Hp as ([found sk] & Hf & Hp). injection Hp as <-. cbn [op_events fst].
  exists sk. unfold content. destruct (fv_read v) as [s|].
  - unfold storage in Hf. cbn [default]. fold (content (fv_len v)) in Hf.
    change (default [] (fv_len v)) with (content (fv_len v)) in *.
    change (default [] (Some s)) with s. destruct (scan_rows _ _ _ _ _ _ _ _) as [[out sk']|] eqn:E; [|done].
    by injection Hf as <- <-.
  - injection Hf as <- <-. change (default [] None) with ([] : bytes). rewrite drop_nil, take_nil.
    cbn [scan_rows length]. destruct (_ <? _)%nat; [|done].
    rewrite read_capped_line_tail by apply not_elem_of_nil. done.
Qed.

(** One attempt of a growing file, from the end of the lines [ls1] of the file
    as it was at first. *)
Lemma attempt_grown v raw decoded ls1 ls2 fp limit page :
  grows (fv_len v) (fv_read v) → ls1 ++ ls2 `prefix_of` file_lines (fv_len v) →
  resume_offset decoded = zlen (unframe ls1 []) → lineage (file_lines (fv_read v)) = fp →
  attempt_page v raw decoded fp limit = Ok page →
  ∃ mid rest,
    file_rows (fv_read v) = rows_from fp 0 ls1 ++ mid ++ rest ∧
    rows_from fp (zlen (unframe ls1 [])) ls2 `prefix_of` mid ∧
    op_events page = take limit mid.
Proof.
  intros [more Hmore] [l2 Hl2] Hoff Hfp Hp.
  destruct (attempt_views_scan _ _ _ _ _ _ Hp) as (sk & Hscan). rewrite Hoff in Hscan.
  destruct (content_framed (fv_len v)) as (tl & Hcl & Hlsl & Htl).
  destruct (content_framed (fv_read v)) as (tr & Hcr & Hlsr & Htr).
  rewrite Hcl, Hcr, Hmore, Hl2, <- !app_assoc, drop_lines in Hscan.
  assert (file_lines (fv_read v) = ls1 ++ (ls2 ++ l2) ++ more) as Hlines.
  { by rewrite Hmore, Hl2, <- !app_assoc. }
  rewrite Hlines in Hlsr. apply Forall_app in Hlsr as [_ Hok]. rewrite (app_assoc ls2) in Hscan.
  set (n := Z.to_nat _) in Hscan.
  destruct (take_framed n ((ls2 ++ l2) ++ more) tr Hok Htr) as (la & lb & t' & Hsplit & Htk & Ht').
  assert (ls2 ++ l2 `prefix_of` la) as Hpre.
  { assert (Forall line_ok la) by (rewrite Hsplit in Hok; by apply Forall_app in Hok as [? _]).
    eapply (take_keeps n (ls2 ++ l2) more tr la t'); [done..| |done].
    assert (zlen (unframe (ls1 ++ ls2 ++ l2) tl) =
            zlen (unframe ls1 []) + zlen (unframe (ls2 ++ l2) []) + zlen tl) as Hz.
    { rewrite (unframe_app ls1), zlen_app, (unframe_tail (ls2 ++ l2)), zlen_app. lia. }
    unfold n. rewrite Hz. unfold zlen, saturating_sub. lia. }
  rewrite Htk in Hscan. apply scan_rows_rows in Hscan as Hev; [|done|].
  2: { rewrite Hsplit in Hok. by apply Forall_app in Hok as [? _]. }
  simpl in Hev. rewrite Nat.sub_0_r in Hev.
  exists (rows_from fp (zlen (unframe ls1 [])) la).
  exists (rows_from fp (zlen (unframe ls1 []) + zlen (unframe la [])) lb). split_and!; [|..|exact Hev].
  - unfold file_rows. by rewrite Hfp, Hlines, Hsplit, !rows_from_app.
  - etrans; [|by apply rows_from_prefix]. apply rows_from_prefix. by eexists.
Qed.

(** The attempt a successful read answers from. *)
Lemma read_attempts_Ok remaining : ∀ attempt views raw decoded limit page,
  read_attempts remaining attempt views raw decoded limit = Ok page →
  ∃ k fp, (attempt ≤ k)%nat ∧ lineage (file_lines (fv_snapshot (views k))) = fp ∧
    lineage (file_lines (fv_end (views k))) = fp ∧
    attempt_page (views k) raw decoded fp limit = Ok page.
Proof.
  induction remaining as [|remaining IH]; intros attempt views raw decoded limit page Hp; [done|].
  cbn [read_attempts] in Hp. apply result_bind_Ok in Hp as (fp & Hfp & Hp).
  apply result_bind_Ok in Hp as (fe & Hfe & Hp). unfold storage in Hfp, Hfe.
  destruct (first_line_fingerprint (fv_snapshot _)) as [fp'|] eqn:Es; [|done].
  destruct (first_line_fingerprint (fv_end _)) as [fe'|] eqn:Ee; [|done].
  injection Hfp as ->. injection Hfe as ->.
  apply fingerprint_is_lineage in Es. apply fingerprint_is_lineage in Ee.
  destruct (bool_decide (fe ≠ fp)) eqn:Eb.
  - destruct (bool_decide (is_Some decoded)); [done|].
    destruct (IH _ _ _ _ _ _ Hp) as (k & fp0 & ? & ? & ? & ?). exists k, fp0. split_and!; [lia|done..].
  - apply bool_decide_eq_false in Eb. apply dec_stable in Eb. subst fe.
    exists attempt, fp. split_and!; [lia|done..].
Qed.

Lemma grown_len views k : appended_only views → (1 ≤ k)%nat → grows (fv_len (views 1%nat)) (fv_len (views k)).
Proof.
  intros Hg Hk. induction Hk as [|k _ IH]; [done|]. etrans; [exact IH|].
  destruct (Hg k) as (? & ? & ? & ? & ?). repeat (etrans; [eassumption|]). done.
Qed.

(** The rows of the lines seen first, under the lineage of the file read. *)
Lemma rows_later_lineage ls1 ls2 more pre post :
  rows_from (lineage (ls1 ++ ls2)) 0 (ls1 ++ ls2) = pre ++ post →
  rows_from (lineage (ls1 ++ ls2)) (zlen (unframe ls1 [])) ls2 = post →
  rows_from (lineage ((ls1 ++ ls2) ++ more)) 0 ls1 = pre ∧
  rows_from (lineage ((ls1 ++ ls2) ++ more)) (zlen (unframe ls1 [])) ls2 = post.
Proof.
  intros Hr Hpost. destruct (decide (lineage (ls1 ++ ls2) = "empty")) as [He|He].
  - rewrite (lineage_empty _ _ _ He) in Hr. destruct pre; [|done]. destruct post; [|done].
    rewrite (lineage_empty ls1) by (by eapply lineage_prefix_empty). split; [done|].
    pose proof (lineage_empty _ (lineage ((ls1 ++ ls2) ++ more)) 0 He) as Hnil.
    rewrite rows_from_app in Hnil. by apply app_eq_nil in Hnil as [_ ?].
  - rewrite lineage_app by done. split; [|done]. rewrite rows_from_app in Hr.
    apply app_inv_tail_iff with (l := post). rewrite <- Hpost at 1. done.
Qed.

(** C24.  Lock-free reads are consistent under concurrent appends.  While
    writers only add lines (tearing, repairing and completing the tail as they
    like) between any two of the looks a read takes at the file, over all of its
    attempts, a read that returns a page from the start or from the cursor after
    a row that was there returns a page of the file as it was during one of its
    attempts: the rows after that cursor in their order, at least all those that
    were complete when the read began, with nothing repeated and nothing torn. *)
Theorem lock_free_read_is_consistent (views : nat → FileViews) (pre post : list CursorEvent)
    (limit : nat) (page : OperatorPage) :
  appended_only views → file_fits (fv_len (views 1%nat)) →
  file_rows (fv_len (views 1%nat)) = pre ++ post →
  read_after views (cursor_after None pre) limit = Ok page →
  ∃ k mid rest,
    file_rows (fv_read (views k)) = pre ++ mid ++ rest ∧ post `prefix_of` mid ∧
    op_events page = take limit mid ∧
    op_next_cursor page = cursor_after (cursor_after None pre) (op_events page).
Proof.
  intros Hg Hfit Hr Hp. unfold file_rows in Hr.
  destruct (resume_point _ _ _ _ Hr) as (ls1 & ls2 & Hls & Hpost & Hcur). rewrite Hls in *.
  assert (∃ decoded, resume_offset decoded = zlen (unframe ls1 []) ∧
    read_attempts MAX_OPERATOR_LINEAGE_READ_ATTEMPTS 1 views (cursor_after None pre) decoded limit =
      Ok page) as (decoded & Hoff & Hread).
  { destruct Hcur as [[-> ->]|[Hc _]]; [by exists None|].
    rewrite Hc in Hp. unfold read_after in Hp.
    rewrite decode_resume in Hp.
    { rewrite Hc. exists (Some (mkCursor OPERATOR_CURSOR_VERSION (lineage (ls1 ++ ls2))
                                  (zlen (unframe ls1 [])))). split; [reflexivity|exact Hp]. }
    destruct (content_framed (fv_len (views 1%nat))) as (t & Hcf & _). unfold file_fits in Hfit.
    rewrite Hcf, Hls, unframe_app, zlen_app in Hfit. unfold is_u64, u64_max.
    pose proof (zlen_nonneg (unframe ls1 [])). pose proof (zlen_nonneg (unframe ls2 t)). lia. }
  destruct (read_attempts_Ok _ _ _ _ _ _ _ Hread) as (k & fp & Hk & Hsnap & Hend & Hpage).
  destruct (Hg k) as (G1 & G2 & G3 & G4 & _).
  assert (grows (fv_snapshot (views k)) (fv_read (views k))) as G23 by (by etrans).
  assert (grows (fv_len (views k)) (fv_read (views k))) as G13 by (by etrans).
  assert (lineage (file_lines (fv_read (views k))) = fp) as Hfp.
  { rewrite <- Hsnap. eapply lineage_between; [exact G23|exact G4|congruence]. }
  assert (ls1 ++ ls2 `prefix_of` file_lines (fv_len (views k))) as Hin.
  { rewrite <- Hls. by apply grown_len. }
  destruct (attempt_grown (views k) _ decoded ls1 ls2 fp limit page G13 Hin Hoff Hfp Hpage)
    as (mid & rest & Hrows & Hmid & He).
  assert (∃ more, file_lines (fv_read (views k)) = (ls1 ++ ls2) ++ more) as [more Hmore]
    by (by destruct (transitivity Hin G13) as [more ?]; exists more).
  destruct (rows_later_lineage ls1 ls2 more pre post Hr Hpost) as [Hpre Hpost'].
  rewrite <- Hmore, Hfp in Hpre, Hpost'. rewrite Hpre in Hrows. rewrite Hpost' in Hmid.
  exists k, mid, rest. split_and!; [done..|].
  unfold attempt_page in Hpage. apply result_bind_Ok in Hpage as (start & _ & Hpage).
  apply result_bind_Ok in Hpage as (found & _ & Hpage). by injection Hpage as <-.
Qed.
End concurrent.
