(* ===== verification/JournalTail.v ===== *)
(** * Reading the tail

    [read_tail] against the rows of the whole file: what it returns is the end
    of the stream, what it dropped and did not inspect comes before, and a tail
    it calls complete is the whole stream with no damage.  Then the termination
    of every loop of the journal. *)

From stdpp Require Import base gmap sets strings numbers list.
From Stdlib Require Import Ascii.
From S2P Require Import Prelude Json Hex Envelope Framing OperatorEvent Sensitive Turns EventLog.
From S2P Require Import OperatorJournal JournalLog JournalConcurrent.
#[local] Open Scope Z_scope.

#[local] Opaque READER_BUFFER BACKWARD_CHUNK.

Section tail.
Context `{JsonTextLaws, Crypto, Base64Laws}.

(** The loop keeps the last rows and counts what it leaves out. *)
Lemma tail_loop_rows mx fp t : line_ok t → ∀ ls fuel offset budget events dropped skipped out d sk,
  Forall line_ok ls → (length events ≤ mx)%nat →
  tail_loop fuel mx fp offset budget events dropped skipped (unframe ls t) = Ok (out, d, sk) →
  (∃ cut, events ++ rows_from fp offset ls = cut ++ out ∧ d = dropped + Z.of_nat (length cut) ∧
     (length out ≤ mx)%nat ∧ (cut ≠ [] → length out = mx)) ∧
  sk = skipped + corrupt_lines ls t.
Proof.
  intros Ht. induction ls as [|l ls IH]; intros [|fuel] offset budget events dropped skipped out d sk
    Hls Hlen Hs; try done; cbn [tail_loop] in Hs; cbn [rows_from].
  - rewrite unframe_nil, read_capped_line_tail in Hs by done. rewrite app_nil_r.
    unfold corrupt_lines. rewrite filter_nil. simpl length.
    destruct (bool_decide (zlen t > _)); [done|].
    assert ((out, d) = (events, dropped) ∧ sk = skipped + (if decide (t = []) then 0 else 1)) as [[= -> ->] ->].
    { case_bool_decide; [rewrite decide_True by done; by simplify_eq; rewrite Z.add_0_r|].
      rewrite decide_False by done. destruct (record_corrupt _ _); by simplify_eq/=. }
    split; [|lia]. exists []. simpl. split_and!; [done|lia|done|done].
  - apply Forall_cons_iff in Hls as [Hl Hls].
    rewrite unframe_cons, read_capped_line_complete in Hs by done.
    destruct (bool_decide (zlen l + 1 > _)); [done|]. rewrite removelast_terminated in Hs.
    rewrite corrupt_lines_cons. set (offset' := offset + zlen (terminated l)) in *.
    destruct (parse_operator_line l) as [e|].
    + set (row := row_at fp offset' e).
      assert (∀ ev' dr', (length ev' ≤ mx)%nat →
        tail_loop fuel mx fp offset' budget ev' dr' skipped (unframe ls t) = Ok (out, d, sk) →
        (∃ first, events ++ [row] = first ++ ev' ∧ dr' = dropped + Z.of_nat (length first) ∧
           (first ≠ [] → length ev' = mx)) →
        (∃ cut, events ++ row :: rows_from fp offset' ls = cut ++ out ∧
           d = dropped + Z.of_nat (length cut) ∧ (length out ≤ mx)%nat ∧
           (cut ≠ [] → length out = mx)) ∧ sk = skipped + (0 + corrupt_lines ls t)) as Hstep.
      { intros ev' dr' Hle Hrun (first & Hf & -> & Hfull). apply IH in Hrun as [(cut & Hc & -> & Hm & Hn) ->];
          [|done..]. split; [|lia]. exists (first ++ cut).
        split_and!; [|rewrite length_app; lia|done|].
        - by rewrite cons_middle, app_assoc, Hf, <- !app_assoc, Hc.
        - intros Hne. destruct cut as [|c cut]; [|by apply Hn]. rewrite app_nil_r in Hne.
          specialize (Hfull Hne). simpl in Hc. apply (f_equal length) in Hc.
          rewrite length_app in Hc. lia. }
      destruct (bool_decide (length events = mx)) eqn:Efull.
      * apply bool_decide_eq_true in Efull.
        destruct (bool_decide (mx = 0%nat)) eqn:E0.
        -- apply bool_decide_eq_true in E0. assert (events = []) as ->
             by (apply length_zero_iff_nil; congruence).
           eapply Hstep; [exact Hlen|exact Hs|]. exists [row]. simpl. split_and!; [done|lia|done].
        -- apply bool_decide_eq_false in E0. destruct events as [|x events]; [done|].
           simpl in Efull, Hs. eapply Hstep; [|exact Hs|].
           ++ rewrite length_app. simpl. lia.
           ++ exists [x]. simpl. split_and!; [done|lia|]. rewrite length_app. simpl. lia.
      * apply bool_decide_eq_false in Efull. eapply Hstep; [|exact Hs|].
        -- rewrite length_app. simpl. lia.
        -- exists []. simpl. split_and!; [done|lia|done].
    + destruct (record_corrupt _ _) as [b|]; [|done]. cbn [mbind result_bind] in Hs.
      apply IH in Hs as [Hcut ->]; [|done..]. split; [done|lia].
Qed.

(** Cutting a file anywhere: at the end of a line, or inside a line or the
    tail. *)
Lemma cut_file s n :
  (n ≤ length s)%nat →
  ∃ la ta, take n s = unframe la ta ∧ Forall line_ok la ∧ line_ok ta ∧
    ∃ lb tb, drop n s = unframe lb tb ∧ Forall line_ok lb ∧ line_ok tb ∧
      match lb with
      | [] => frames s = (la, ta ++ tb)
      | l :: lb' => frames s = (la ++ (ta ++ l) :: lb', tb)
      end.
Proof.
  intros Hn. destruct (file_framed (take n s)) as (la & ta & Ha & Hla & Hta).
  destruct (file_framed (drop n s)) as (lb & tb & Hb & Hlb & Htb).
  exists la, ta. split_and!; [done..|]. exists lb, tb. split_and!; [done..|].
  rewrite <- (take_drop n s), Ha, Hb, unframe_tail, <- app_assoc, <- unframe_tail.
  rewrite frames_lines by done. destruct lb as [|l lb].
  - rewrite unframe_nil, frames_tail; [by rewrite app_nil_r|].
    intros [?|?]%elem_of_app; contradiction.
  - apply Forall_cons_iff in Hlb as [Hl Hlb].
    rewrite unframe_cons, app_assoc, frames_line, frames_unframe by
      (done || (intros [?|?]%elem_of_app; contradiction)). done.
Qed.

(** A cut is aligned when it falls on the end of a line. *)
Lemma aligned_cut s n la ta :
  (0 < n ≤ length s)%nat → take n s = unframe la ta → line_ok ta →
  s !! (n - 1)%nat = Some newline ↔ ta = [].
Proof.
  intros Hn Htk Hta.
  assert (s !! (n - 1)%nat = last (take n s)) as ->.
  { rewrite last_lookup, length_take, Nat.min_l by lia.
    rewrite lookup_take_lt by lia. f_equal. lia. }
  rewrite Htk. destruct ta as [|a ta _] using rev_ind.
  - split; [done|]. intros _. destruct la as [|l la _] using rev_ind.
    + apply (f_equal length) in Htk. rewrite length_take in Htk. simpl in Htk. lia.
    + rewrite unframe_snoc, app_assoc. apply last_snoc.
  - rewrite unframe_tail, app_assoc, last_snoc. split.
    + intros [= ->]. destruct Hta. set_solver.
    + intros Hbad. by destruct ta.
Qed.
(** How a window relates to the lines of the file: the lines before it, those
    in it whole, and what its first bytes are. *)
Inductive window_split (s : bytes) (n : nat) : list bytes → list bytes → bytes → option bytes → Prop :=
| split_aligned ls1 ls2 t :
    take n s = unframe ls1 [] → drop n s = unframe ls2 t →
    window_split s n ls1 ls2 t None
| split_inside la ta l ls2 t :
    ta ≠ [] → take n s = unframe la ta → drop n s = unframe (l :: ls2) t →
    window_split s n (la ++ [ta ++ l]) ls2 t (Some (terminated l))
| split_last la ta tb :
    ta ≠ [] → take n s = unframe la ta → drop n s = tb → line_ok tb →
    window_split s n la [] (ta ++ tb) (Some tb).

Lemma window_splits s n :
  (n ≤ length s)%nat →
  ∃ ls1 ls2 t first, window_split s n ls1 ls2 t first ∧
    frames s = (ls1 ++ ls2, t) ∧ Forall line_ok (ls1 ++ ls2) ∧ line_ok t ∧
    (first = None ↔ n = 0%nat ∨ s !! (n - 1)%nat = Some newline).
Proof.
  intros Hn. destruct (cut_file s n Hn) as (la & ta & Ha & Hla & Hta & lb & tb & Hb & Hlb & Htb & Hfr).
  destruct (frames_ok s) as [Hok Hokt].
  assert (ta = [] ↔ n = 0%nat ∨ s !! (n - 1)%nat = Some newline) as Hal.
  { destruct (decide (n = 0%nat)) as [->|Hn0].
    - rewrite take_0 in Ha. destruct la as [|l la]; [|by destruct l]. rewrite unframe_nil in Ha.
      split; [by left|done].
    - rewrite (aligned_cut s n la ta) by (done || lia). split; [by right|]. intros [?|?]; done. }
  destruct (decide (ta = [])) as [->|Hne].
  - exists la, lb, tb, None. split_and!.
    + by constructor.
    + destruct lb; rewrite Hfr; [by rewrite app_nil_r|done].
    + by apply Forall_app.
    + done.
    + by rewrite <- Hal.
  - destruct lb as [|l lb]; rewrite Hfr in Hok, Hokt; simpl in Hok, Hokt.
    + exists la, [], (ta ++ tb), (Some tb). rewrite app_nil_r. split_and!; [by constructor|done..|].
      rewrite <- Hal. split; [done|]. intros; contradiction.
    + exists (la ++ [ta ++ l]), lb, tb, (Some (terminated l)). rewrite <- app_assoc. simpl.
      split_and!; [by eapply split_inside|done..|]. rewrite <- Hal. split; [done|]. intros; contradiction.
Qed.

(** What [read_tail_window] computes, by how its window falls. *)
Lemma window_run s n ls1 ls2 t first max_bytes mx fp tail :
  n = Z.to_nat (saturating_sub (zlen s) max_bytes) → 0 ≤ max_bytes →
  window_split s n ls1 ls2 t first → Forall line_ok (ls1 ++ ls2) → line_ok t →
  (first = None ↔ n = 0%nat ∨ s !! (n - 1)%nat = Some newline) →
  read_tail_window (Some s) (zlen s) max_bytes mx fp = Ok tail →
  ot_starts_mid_stream tail = bool_decide (n ≠ 0%nat) ∧
  ((∃ sk fuel, tail_loop fuel mx fp (zlen (unframe ls1 [])) default_budget [] 0 0 (unframe ls2 t) =
      Ok (ot_events tail, ot_dropped_events tail, sk) ∧ ot_skipped_lines tail = sk) ∨
   (n ≠ 0%nat ∧ ls2 = [] ∧ ot_events tail = [] ∧ ot_dropped_events tail = 0)).
Proof.
  intros Hn Hmax Hw Hok Ht Hfirst Hp. unfold read_tail_window in Hp.
  set (start := saturating_sub (zlen s) max_bytes) in *.
  assert (0 ≤ start ≤ zlen s) as Hstart.
  { unfold start, saturating_sub. pose proof (zlen_nonneg s). lia. }
  assert (n ≤ length s)%nat as Hle by (unfold zlen in Hstart; lia).
  assert (bool_decide (start > 0) = bool_decide (n ≠ 0%nat)) as Hmid by (apply bool_decide_ext; lia).
  rewrite Hmid in Hp. apply result_bind_Ok in Hp as (aligned & Hal & Hp).
  assert (aligned = bool_decide (first = None)) as ->.
  { destruct (bool_decide (start = 0)) eqn:E.
    - apply bool_decide_eq_true in E. injection Hal as <-. symmetry. apply bool_decide_eq_true, Hfirst. left. lia.
    - apply bool_decide_eq_false in E.
      assert (Z.to_nat (start - 1) = (n - 1)%nat) as Hn1 by lia. rewrite Hn1 in Hal.
      destruct (s !! (n - 1)%nat) as [byte|] eqn:Hb; [|done]. injection Hal as <-.
      apply bool_decide_ext. rewrite Hfirst. split; [intros ->; by right|].
      intros [?|[= ->]]; [lia|done]. }
  assert (take (Z.to_nat (zlen s - start)) (drop (Z.to_nat start) s) = drop n s) as Hin.
  { rewrite <- Hn. apply take_ge. rewrite length_drop. unfold zlen in *. lia. }
  rewrite Hin in Hp. clear Hin.
  destruct Hw as [ls1 ls2 t Htk Hdr|la ta l ls2 t Hne Htk Hdr|la ta tb Hne Htk Hdr Htb].
  - rewrite bool_decide_true in Hp by done.
    apply result_bind_Ok in Hp as ([[ev dr] sk] & Hrun & Hp). injection Hp as <-.
    split; [done|]. left. exists sk, (S (length (drop n s))). split; [|done].
    rewrite <- Hdr, <- Htk. unfold zlen. rewrite length_take, Nat.min_l by lia.
    rewrite Hn, Z2Nat.id by lia. rewrite <- Hn. exact Hrun.
  - rewrite bool_decide_false, Hdr, unframe_cons in Hp by done.
    apply Forall_app in Hok as [[_ [Hl _]%Forall_cons_iff]%Forall_app _].
    assert (line_ok l) as Hlok by (intros ?; apply Hl, elem_of_app; by right).
    rewrite read_capped_line_complete in Hp by done.
    destruct (bool_decide (_ > _)) in Hp; [done|].
    apply result_bind_Ok in Hp as ([[ev dr] sk] & Hrun & Hp). injection Hp as <-.
    split; [done|]. left. exists sk, (S (length (unframe ls2 t))). split; [|done].
    assert (zlen (unframe (la ++ [ta ++ l]) []) = start + zlen (terminated l)) as ->; [|exact Hrun].
    apply (f_equal zlen) in Htk. unfold zlen in Htk at 1. rewrite length_take, Nat.min_l in Htk by lia.
    rewrite unframe_snoc, zlen_terminated, !zlen_app, zlen_cons. rewrite unframe_tail, zlen_app in Htk.
    change (zlen []) with 0. lia.
  - rewrite bool_decide_false, Hdr in Hp by done. rewrite read_capped_line_tail in Hp by done.
    destruct (bool_decide (_ > _)) in Hp; [done|].
    assert (n ≠ 0%nat) as Hn0.
    { intros ->. rewrite take_0 in Htk. by destruct la as [|x la], ta; try destruct x. }
    destruct (bool_decide (tb = [])); injection Hp as <-;
      (split; [simpl; by rewrite bool_decide_true|]); right; done.
Qed.

Lemma tail_attempts_quiet s max_bytes mx :
  read_tail (quiet (Some s)) max_bytes mx =
  (fp ← storage (first_line_fingerprint (Some s));
   storage (read_tail_window (Some s) (zlen s) max_bytes mx fp)).
Proof.
  unfold read_tail, MAX_OPERATOR_LINEAGE_READ_ATTEMPTS. cbn [tail_attempts quiet fv_len fv_snapshot fv_read fv_end].
  destruct (first_line_fingerprint (Some s)) as [fp|e]; [|done].
  cbn [storage map_err mbind result_bind].
  destruct (read_tail_window _ _ _ _ _) as [tail|e]; [|done].
  cbn [map_err mbind result_bind]. by rewrite bool_decide_true.
Qed.

(** The window begins where the lines before it end, or inside the last of
    them. *)
Lemma window_before s n ls1 ls2 t first :
  window_split s n ls1 ls2 t first → (n ≤ length s)%nat →
  ls1 = [] ∨ zlen (unframe (removelast ls1) []) < Z.of_nat n.
Proof.
  intros [ls1' ls2' t' Htk Hdr|la ta l ls2' t' Hne Htk Hdr|la ta tb Hne Htk Hdr Htb] Hn;
    apply (f_equal zlen) in Htk; unfold zlen in Htk at 1; rewrite length_take, Nat.min_l in Htk by done;
    rewrite Htk.
  - destruct ls1' as [|l ls1' _] using rev_ind; [by left|right].
    rewrite removelast_last, unframe_snoc, !zlen_app, zlen_cons. pose proof (zlen_nonneg l).
    change (zlen []) with 0. lia.
  - right. rewrite removelast_last, (unframe_tail la ta), zlen_app.
    destruct ta as [|a ta]; [done|]. rewrite zlen_cons. pose proof (zlen_nonneg ta). lia.
  - destruct la as [|l la _] using rev_ind; [by left|right].
    rewrite removelast_last, (unframe_tail (la ++ [l]) ta), unframe_snoc, !zlen_app, zlen_cons.
    pose proof (zlen_nonneg l). pose proof (zlen_nonneg ta). change (zlen []) with 0. lia.
Qed.

(** Damage within the scan budget never stops a tail. *)
Lemma tail_loop_total mx fp t : line_ok t → zlen t ≤ MAX_OPERATOR_ENVELOPE_BYTES →
  ∀ ls fuel offset budget events dropped skipped,
  Forall line_ok ls → Forall (λ l, zlen l + 1 ≤ MAX_OPERATOR_ENVELOPE_BYTES) ls →
  covers budget ls t → (length ls < fuel)%nat →
  ∃ found, tail_loop fuel mx fp offset budget events dropped skipped (unframe ls t) = Ok found.
Proof.
  intros Ht Hmt. induction ls as [|l ls IH]; intros [|fuel] offset budget events dropped skipped Hls Hm Hc Hf;
    simpl in Hf; try lia; cbn [tail_loop].
  - rewrite unframe_nil, read_capped_line_tail, bool_decide_false by (done || lia).
    case_bool_decide as E; [by eexists|].
    destruct (covers_tail _ _ Hc E) as [b' ->]. by eexists.
  - apply Forall_cons_iff in Hls as [Hl Hls]. apply Forall_cons_iff in Hm as [Hml Hm].
    rewrite unframe_cons, read_capped_line_complete, bool_decide_false by (done || lia).
    rewrite removelast_terminated. apply covers_line in Hc.
    destruct (parse_operator_line l) as [e|].
    + destruct (bool_decide (length events = mx)); [destruct (bool_decide (mx = 0%nat))|];
        (apply IH; [done..|lia]).
    + destruct Hc as (b' & -> & Hc). simpl. apply IH; [done..|lia].
Qed.

(** What is left of a readable file after a cut: the first line may be the end
    of one, the others are whole. *)
Lemma readable_cut s n :
  (n ≤ length s)%nat → file_readable (Some s) →
  ∃ ls t, drop n s = unframe ls t ∧ Forall line_ok ls ∧ line_ok t ∧
    Forall (λ l, zlen l + 1 ≤ MAX_OPERATOR_ENVELOPE_BYTES) ls ∧ zlen t ≤ MAX_OPERATOR_ENVELOPE_BYTES ∧
    (ls ≠ [] → readable (tl ls) t) ∧
    (n = 0%nat ∨ s !! (n - 1)%nat = Some newline → readable ls t).
Proof.
  intros Hn Hrd. unfold file_readable, content in Hrd. simpl in Hrd.
  destruct (cut_file s n Hn) as (la & ta & Ha & Hla & Hta & ls & t & Hb & Hls & Ht & Hfr).
  exists ls, t. pose proof (zlen_nonneg ta).
  assert (n = 0%nat ∨ s !! (n - 1)%nat = Some newline → ta = []) as Hal.
  { destruct (decide (n = 0%nat)) as [->|Hn0]; intros Hor.
    - rewrite take_0 in Ha. destruct la as [|l la]; [done|by destruct l].
    - rewrite <- (aligned_cut s n la ta) by (done || lia). destruct Hor; done. }
  destruct ls as [|l ls]; rewrite Hfr in Hrd; simpl in Hrd.
  - pose proof (rd_tail _ _ Hrd) as Hm. rewrite zlen_app in Hm. split_and!; [done..|constructor|lia|done|].
    intros Hor. rewrite (Hal Hor), <- (app_nil_r la) in Hrd. by apply readable_suffix in Hrd.
  - pose proof (readable_suffix la ((ta ++ l) :: ls) t Hrd) as Hrd'.
    pose proof (readable_suffix [ta ++ l] ls t Hrd') as Hrd2.
    pose proof (rd_lines _ _ Hrd') as [Hm _]%Forall_cons_iff. rewrite zlen_app in Hm.
    split_and!; [done..| | |done|].
    + constructor; [lia|]. apply Hrd2.
    + apply Hrd2.
    + intros Hor. by rewrite (Hal Hor) in Hrd'.
Qed.

Lemma window_total s max_bytes mx fp :
  0 ≤ max_bytes → file_readable (Some s) →
  ∃ tail, read_tail_window (Some s) (zlen s) max_bytes mx fp = Ok tail.
Proof.
  intros Hmax Hrd. unfold read_tail_window. set (start := saturating_sub (zlen s) max_bytes).
  assert (0 ≤ start ≤ zlen s) as Hstart.
  { unfold start, saturating_sub. pose proof (zlen_nonneg s). lia. }
  rewrite (take_ge (drop _ s)) by (rewrite length_drop; unfold zlen in *; lia).
  destruct (readable_cut s (Z.to_nat start)) as (ls & t & -> & Hls & Ht & Hm & Hmt & Hrest & Hal);
    [unfold zlen in Hstart; lia|done|].
  assert (∀ offset ls, Forall line_ok ls → readable ls t → ∃ found,
    tail_loop (S (length (unframe ls t))) mx fp offset default_budget [] 0 0 (unframe ls t) = Ok found)
    as Hloop.
  { intros offset ls' Hls' Hrd'. pose proof (covers_default _ _ Hrd'). destruct Hrd'.
    pose proof (unframe_length_ge ls' t). apply tail_loop_total; [done..|lia]. }
  match goal with |- context [mbind _ ?m] =>
    assert (∃ a : bool, m = Ok a ∧ (a = true → readable ls t)) as (a & -> & Ha) end.
  { destruct (bool_decide (start = 0)) eqn:E.
    - apply bool_decide_eq_true in E. exists true. split; [done|]. intros _. apply Hal. left. lia.
    - apply bool_decide_eq_false in E.
      destruct (lookup_lt_is_Some_2 s (Z.to_nat (start - 1))) as [byte Hb]; [unfold zlen in *; lia|].
      rewrite Hb. eexists. split; [done|]. intros ->%bool_decide_eq_true. apply Hal. right.
      by rewrite <- Hb; f_equal; lia. }
  cbn [mbind result_bind]. destruct a.
  - destruct (Hloop start ls Hls (Ha eq_refl)) as [[[ev dr] sk] ->]. by eexists.
  - destruct ls as [|l ls].
    + rewrite unframe_nil, read_capped_line_tail, bool_decide_false by (done || lia).
      destruct (bool_decide (t = [])); by eexists.
    + apply Forall_cons_iff in Hls as [Hl Hls]. apply Forall_cons_iff in Hm as [Hml _].
      rewrite unframe_cons, read_capped_line_complete, bool_decide_false by (done || lia).
      destruct (Hloop (start + zlen (terminated l)) ls) as [[[ev dr] sk] ->]; [done|by apply Hrest|].
      by eexists.
Qed.

Lemma tail_total s max_bytes mx :
  0 ≤ max_bytes → file_readable (Some s) →
  is_Some (result_ok (read_tail (quiet (Some s)) max_bytes mx)).
Proof.
  intros Hmax Hrd. rewrite tail_attempts_quiet. pose proof Hrd as Hrd'. unfold file_readable, content in Hrd'.
  simpl in Hrd'. destruct (file_framed s) as (ls & t & Hs & Hls & Ht).
  rewrite Hs, frames_unframe in Hrd' by done. simpl in Hrd'.
  rewrite Hs at 1. rewrite fingerprint_total by done. cbn [storage map_err mbind result_bind].
  destruct (window_total s max_bytes mx (lineage ls) Hmax Hrd) as [tail ->]. by eexists.
Qed.

(** C18.  A tail read tells the truth about what it left out.  Over a file of
    any state, for any byte window and any bound on the events: the lines split
    into those before the window, the last of which begins before it, and those
    in it; the rows of the second part are the events returned, at most the
    bound, preceded by exactly the number of rows reported as dropped, and rows
    are dropped only when the bound is reached.  A tail that does not say it
    starts mid-stream left no line out, and one that says it is complete is the
    whole stream, every row of it under the cursor a page would give, of a file
    with no damaged line and no torn tail.  And a readable file always has a
    tail. *)
Theorem tail_is_honest (s : bytes) (max_bytes : Z) (max_events : nat) :
  0 ≤ max_bytes →
  (file_readable (Some s) → is_Some (result_ok (read_tail (quiet (Some s)) max_bytes max_events))) ∧
  ∀ tail, read_tail (quiet (Some s)) max_bytes max_events = Ok tail →
  ∃ before inside dropped,
    file_lines (Some s) = before ++ inside ∧
    (before = [] ∨ zlen (unframe (removelast before) []) < zlen s - max_bytes) ∧
    file_rows (Some s) =
      rows_from (lineage (before ++ inside)) 0 before ++ dropped ++ ot_events tail ∧
    Z.of_nat (length dropped) = ot_dropped_events tail ∧
    (length (ot_events tail) ≤ max_events)%nat ∧
    (dropped ≠ [] → length (ot_events tail) = max_events) ∧
    (ot_starts_mid_stream tail = false → before = []) ∧
    (is_complete tail = true →
       ot_events tail = file_rows (Some s) ∧ corrupt_lines inside (frames s).2 = 0).
Proof.
  intros Hmax. split.
  { by apply tail_total. }
  intros tail Hp. rewrite tail_attempts_quiet in Hp. apply result_bind_Ok in Hp as (fp & Hfp & Hp).
  unfold storage in Hfp, Hp. destruct (first_line_fingerprint _) as [fp'|] eqn:Efp; [|done].
  injection Hfp as ->. apply fingerprint_is_lineage in Efp.
  destruct (read_tail_window _ _ _ _ _) as [tail'|] eqn:Hw; [|done]. injection Hp as ->.
  set (n := Z.to_nat (saturating_sub (zlen s) max_bytes)).
  assert (Z.of_nat n = Z.max 0 (zlen s - max_bytes)) as Hnz by (unfold n, saturating_sub; lia).
  assert (n ≤ length s)%nat as Hn by (unfold zlen in Hnz; lia).
  destruct (window_splits s n Hn) as (ls1 & ls2 & t & first & Hsp & Hfr & Hok & Ht & Hfirst).
  destruct (window_run s n ls1 ls2 t first max_bytes max_events fp tail) as [Hmid Hrun]; [done..|].
  assert (file_lines (Some s) = ls1 ++ ls2) as Hlines by (unfold file_lines, content; simpl; by rewrite Hfr).
  rewrite Hlines in Efp. subst fp.
  assert (ot_starts_mid_stream tail = false → n = 0%nat) as Hstart.
  { rewrite Hmid. intros Hf. apply bool_decide_eq_false in Hf. lia. }
  assert (ot_starts_mid_stream tail = false → ls1 = []) as Hnil.
  { intros Hf. apply Hstart in Hf. destruct (window_before _ _ _ _ _ _ Hsp Hn) as [|Hbad]; [done|].
    rewrite Hf in Hbad. pose proof (zlen_nonneg (unframe (removelast ls1) [])). lia. }
  assert (∃ dropped, rows_from (lineage (ls1 ++ ls2)) (zlen (unframe ls1 [])) ls2 = dropped ++ ot_events tail ∧
    Z.of_nat (length dropped) = ot_dropped_events tail ∧ (length (ot_events tail) ≤ max_events)%nat ∧
    (dropped ≠ [] → length (ot_events tail) = max_events) ∧
    (n = 0%nat → ot_skipped_lines tail = corrupt_lines ls2 t)) as (dropped & Hrows & Hd & Hle & Hfull & Hsk).
  { destruct Hrun as [(sk & fuel & Hrun & Hskip)|(Hn0 & -> & -> & ->)].
    - apply tail_loop_rows in Hrun as [(cut & Hc & Hdr & Hm & Hf) Hsk']; [|done| |simpl; lia].
      + exists cut. simpl in Hc. split_and!; [done|lia|done|done|lia].
      + by apply Forall_app in Hok as [_ ?].
    - exists []. split_and!; [done|done|simpl; lia|done|done]. }
  assert (file_rows (Some s) = rows_from (lineage (ls1 ++ ls2)) 0 ls1 ++ dropped ++ ot_events tail) as Hall
    by (by unfold file_rows; rewrite Hlines, rows_from_app, Z.add_0_l, Hrows).
  exists ls1, ls2, dropped. split_and!; [done| |done..|].
  - destruct (window_before _ _ _ _ _ _ Hsp Hn) as [|Hlt]; [by left|right].
    pose proof (zlen_nonneg (unframe (removelast ls1) [])). lia.
  - unfold is_complete. intros [[Hm%negb_true_iff Hd0%bool_decide_eq_true]%andb_true_iff
      Hs0%bool_decide_eq_true]%andb_true_iff.
    rewrite Hall, (Hnil Hm), Hfr. rewrite Hsk in Hs0 by auto. simpl. split; [|done].
    destruct dropped; [done|simpl in Hd; lia].
Qed.
End tail.

(** ** The scans of the journal terminate

    Every loop of the journal consumes input or gives up, so the fuel the model
    gives it is never what stops it, whatever bytes the file holds. *)

Section termination.
Context `{JsonText, Crypto, Base64}.

(** A result that is not the model's fuel running out. *)
Definition finishes {A} (r : result ScanError A) : Prop := r ≠ Err ScanOutOfFuel.

Lemma finishes_bind {A B} (r : result ScanError A) (f : A → result ScanError B) :
  finishes r → (∀ a, r = Ok a → finishes (f a)) → finishes (a ← r; f a).
Proof. unfold finishes. intros Hr Hf. destruct r as [a|e]; simpl; [by apply Hf|]. congruence. Qed.

Lemma finishes_Ok {A} (a : A) : finishes (Ok a).
Proof. done. Qed.

Lemma record_finishes b n : finishes (record_corrupt b n).
Proof. unfold record_corrupt, finishes. by destruct (_ || _). Qed.

Hint Resolve finishes_Ok record_finishes : core.

Lemma capped_line_finishes s : finishes (read_capped_line s).
Proof.
  destruct (file_framed s) as ([|l ls] & t & -> & Hls & Ht).
  - rewrite unframe_nil, read_capped_line_tail by done. by case_bool_decide.
  - apply Forall_cons_iff in Hls as [Hl _].
    rewrite unframe_cons, read_capped_line_complete by done. by case_bool_decide.
Qed.

Lemma fingerprint_finishes t : line_ok t → ∀ ls fuel budget,
  Forall line_ok ls → (length ls < fuel)%nat → finishes (fingerprint_loop fuel budget (unframe ls t)).
Proof.
  intros Ht. induction ls as [|l ls IH]; intros [|fuel] budget Hls Hf; simpl in Hf; try lia;
    cbn [fingerprint_loop].
  - rewrite unframe_nil, read_capped_line_tail by done. case_bool_decide; [done|]. case_bool_decide; [done|].
    apply finishes_bind; auto.
  - apply Forall_cons_iff in Hls as [Hl Hls].
    rewrite unframe_cons, read_capped_line_complete by done. case_bool_decide; [done|].
    destruct (parse_operator_line _); [done|]. apply finishes_bind; [done|].
    intros b _. apply IH; [done|lia].
Qed.

Lemma scan_finishes limit fp t : line_ok t → ∀ ls fuel offset budget events skipped,
  Forall line_ok ls → (length ls < fuel)%nat →
  finishes (scan_rows fuel limit fp offset budget events skipped (unframe ls t)).
Proof.
  intros Ht. induction ls as [|l ls IH]; intros [|fuel] offset budget events skipped Hls Hf;
    simpl in Hf; try lia; cbn [scan_rows]; (destruct (_ <? _)%nat; [|done]).
  - rewrite unframe_nil, read_capped_line_tail by done. case_bool_decide; [done|]. case_bool_decide; [done|].
    apply finishes_bind; auto.
  - apply Forall_cons_iff in Hls as [Hl Hls].
    rewrite unframe_cons, read_capped_line_complete by done. case_bool_decide; [done|].
    destruct (parse_operator_line _); [apply IH; [done|lia]|]. apply finishes_bind; [done|].
    intros b _. apply IH; [done|lia].
Qed.

Lemma tail_loop_finishes mx fp t : line_ok t → ∀ ls fuel offset budget events dropped skipped,
  Forall line_ok ls → (length ls < fuel)%nat →
  finishes (tail_loop fuel mx fp offset budget events dropped skipped (unframe ls t)).
Proof.
  intros Ht. induction ls as [|l ls IH]; intros [|fuel] offset budget events dropped skipped Hls Hf;
    simpl in Hf; try lia; cbn [tail_loop].
  - rewrite unframe_nil, read_capped_line_tail by done. case_bool_decide; [done|]. case_bool_decide; [done|].
    apply finishes_bind; auto.
  - apply Forall_cons_iff in Hls as [Hl Hls].
    rewrite unframe_cons, read_capped_line_complete by done. case_bool_decide; [done|].
    destruct (parse_operator_line _).
    + repeat case_bool_decide; (apply IH; [done|lia]).
    + apply finishes_bind; [done|]. intros b _. apply IH; [done|lia].
Qed.

(** The loops on a whole input with the fuel they are given. *)
Lemma fingerprint_terminates file : finishes (first_line_fingerprint file).
Proof.
  destruct file as [s|]; [|done]. destruct (file_framed s) as (ls & t & -> & Hls & Ht).
  pose proof (unframe_length_ge ls t). apply fingerprint_finishes; [done..|lia].
Qed.

Lemma scan_terminates s limit fp offset :
  finishes (scan_rows (S (length s)) limit fp offset default_budget [] 0 s).
Proof.
  destruct (file_framed s) as (ls & t & -> & Hls & Ht).
  pose proof (unframe_length_ge ls t). apply scan_finishes; [done..|lia].
Qed.

Lemma tail_loop_terminates s mx fp offset :
  finishes (tail_loop (S (length s)) mx fp offset default_budget [] 0 0 s).
Proof.
  destruct (file_framed s) as (ls & t & -> & Hls & Ht).
  pose proof (unframe_length_ge ls t). apply tail_loop_finishes; [done..|lia].
Qed.

Lemma tail_window_terminates file len max_bytes mx fp :
  finishes (read_tail_window file len max_bytes mx fp).
Proof.
  destruct file as [s|]; [|done]. unfold read_tail_window. set (start := saturating_sub _ _).
  set (input := take _ _).
  assert (∀ offset rest, finishes (found ← tail_loop (S (length rest)) mx fp offset default_budget [] 0 0 rest;
            let '(events, dropped, skipped) := found in
            Ok (mkTail events true (bool_decide (start > 0)) dropped skipped (len - start)))) as Hw.
  { intros offset rest. apply finishes_bind; [apply tail_loop_terminates|]. by intros [[? ?] ?] _. }
  apply finishes_bind.
  { destruct (bool_decide (start = 0)); [done|]. by destruct (_ !! _). }
  intros [] _; [apply Hw|].
  pose proof (capped_line_finishes input) as Hc. destruct (read_capped_line input) as [[[[] line] rest]|e];
    [done|apply Hw|done|]. unfold finishes in *. congruence.
Qed.

Lemma offset_follows_terminates s offset : finishes (offset_follows s offset).
Proof.
  unfold offset_follows. destruct (bool_decide (offset = 0)); [done|]. destruct (_ !! _); [|done].
  destruct (_ || _); [done|]. destruct (previous_line_end _ _ _ _); [|done]. by destruct (bool_decide _).
Qed.

Lemma repair_terminates s : finishes (repair_unterminated_tail s).
Proof.
  unfold repair_unterminated_tail. destruct (last s); [|done]. destruct (bool_decide _); [done|].
  by destruct (previous_line_end _ _ _ _).
Qed.

Lemma scan_error_text_fuel e : scan_error_text e = "out of fuel" → e = ScanOutOfFuel.
Proof. by destruct e. Qed.

(** The same of the readers' results. *)
Definition answers {A} (r : result CursorError A) : Prop := r ≠ Err (Storage "out of fuel").

Lemma answers_bind {A B} (r : result CursorError A) (f : A → result CursorError B) :
  answers r → (∀ a, r = Ok a → answers (f a)) → answers (a ← r; f a).
Proof. unfold answers. intros Hr Hf. destruct r as [a|e]; simpl; [by apply Hf|]. congruence. Qed.

Lemma storage_answers {A} (r : result ScanError A) : finishes r → answers (storage r).
Proof.
  unfold finishes, answers, storage. destruct r as [a|e]; simpl; [done|]. intros Hr [= He].
  apply scan_error_text_fuel in He as ->. done.
Qed.

Lemma bail_answers b reason : answers (bail_if b (InvalidCursor reason)).
Proof. by destruct b. Qed.

Lemma attempt_answers v raw decoded fp limit : answers (attempt_page v raw decoded fp limit).
Proof.
  unfold attempt_page. apply answers_bind.
  - destruct decoded as [c|]; [|done]. repeat (apply answers_bind; [apply bail_answers|intros ? _]).
    apply answers_bind.
    + destruct (bool_decide _); [done|]. destruct (fv_boundary v); [|done].
      apply storage_answers, offset_follows_terminates.
    + intros ? _. by apply answers_bind; [apply bail_answers|].
  - intros start _. apply answers_bind; [|done]. destruct (fv_read v); [|done].
    apply storage_answers, scan_terminates.
Qed.

Lemma attempts_answer remaining : ∀ attempt views raw decoded limit,
  answers (read_attempts remaining attempt views raw decoded limit).
Proof.
  induction remaining as [|remaining IH]; intros attempt views raw decoded limit; [done|].
  cbn [read_attempts]. apply answers_bind; [apply storage_answers, fingerprint_terminates|intros fp _].
  apply answers_bind; [apply storage_answers, fingerprint_terminates|intros fp' _].
  destruct (bool_decide _); [|apply attempt_answers]. destruct (bool_decide _); [done|apply IH].
Qed.

Lemma tail_attempts_answer remaining : ∀ attempt views max_bytes mx,
  answers (tail_attempts remaining attempt views max_bytes mx).
Proof.
  induction remaining as [|remaining IH]; intros attempt views max_bytes mx; [done|].
  cbn [tail_attempts]. destruct (fv_len _) as [s|]; [|done].
  apply answers_bind; [apply storage_answers, fingerprint_terminates|intros fp _].
  apply answers_bind; [apply storage_answers, tail_window_terminates|intros tail _].
  apply answers_bind; [apply storage_answers, fingerprint_terminates|intros fp' _].
  destruct (bool_decide _); [done|apply IH].
Qed.

Lemma append_answers step file event : (append_file step file event).2 ≠ Err "out of fuel".
Proof.
  unfold append_file. destruct (find_sensitive _); [done|]. destruct (bool_decide _); [done|].
  destruct (match as_fault step with LockFault => true | _ => false end); [done|].
  assert (∀ {A} (r : result ScanError A) e, finishes r → r = Err e → scan_error_text e ≠ "out of fuel")
    as Herr by (intros A r e Hr -> Ht; apply scan_error_text_fuel in Ht as ->; done).
  destruct (first_line_fingerprint file) as [fp|e] eqn:Hfp.
  2: { intros [= Ht]. by eapply Herr; [apply fingerprint_terminates|exact Hfp|]. }
  destruct (repair_unterminated_tail _) as [s|e] eqn:Hs.
  2: { intros [= Ht]. by eapply Herr; [apply repair_terminates|exact Hs|]. }
  set (s' := s ++ _). destruct (as_fault step); try done.
  all: destruct (bool_decide (fp = "empty")); [|done].
  all: destruct (first_line_fingerprint (Some s')) as [fp'|e] eqn:Hfp'; [done|].
  all: intros [= Ht]; by eapply Herr; [apply fingerprint_terminates|exact Hfp'|].
Qed.

(** C40.  The journal's loops terminate.  On every file, every cursor text,
    every sequence of views a concurrent writer leaves and every fault of a
    write, the readers and the append give an answer of the code's own: no scan
    is cut short by the fuel the model gives it.  The backward search, which
    has no error to report that with, gives the same answer with any more
    fuel. *)
Theorem journal_terminates :
  (∀ views cursor limit, read_after views cursor limit ≠ Err (Storage "out of fuel")) ∧
  (∀ views max_bytes max_events, read_tail views max_bytes max_events ≠ Err (Storage "out of fuel")) ∧
  (∀ step file event, (append_file step file event).2 ≠ Err "out of fuel") ∧
  (∀ s oldest stop more, (oldest ≤ stop ≤ length s)%nat →
     previous_line_end (S stop + more) s oldest stop = previous_line_end (S stop) s oldest stop).
Proof.
  split_and!.
  - intros views cursor limit. unfold read_after. apply answers_bind; [|intros ? _; apply attempts_answer].
    destruct cursor as [raw|]; [|done]. unfold decode_cursor.
    apply answers_bind.
    + unfold ok_or. apply answers_bind; [by destruct (b64_decode raw)|]. intros bs _.
      by destruct (parse_json _ ≫= decode_operator_cursor).
    + intros c _. by apply answers_bind; [apply bail_answers|].
  - intros views max_bytes mx. apply tail_attempts_answer.
  - apply append_answers.
  - intros s oldest stop more Hle. by rewrite !previous_line_end_spec by lia.
Qed.
End termination.
