(* ===== verification/EvidenceStream.v ===== *)
(** * Evidence streams (crates/heiwa_evidence/src/journal.rs, replay.rs)

    The shared append-only streams of the evidence root: the envelope an append
    writes, the append under its lock with the faults of the system, and the
    corruption-tolerant replay; then what an append adds to a replay. *)

From stdpp Require Import base gmap sets strings numbers list.
From Stdlib Require Import Ascii.
From S2P Require Import Prelude Utf8 Json Hex Envelope Framing OperatorEvent Sensitive EventLog.
From S2P Require Import EvidenceRecords OperatorJournal.
#[local] Open Scope Z_scope.

(** ** Replay *)

Record EvidenceEvent : Type := mkEvidence {
  ev_v : Z;
  ev_at_ms : Z;
  ev_kind : string;
  ev_record : json;
}.

Record ReplayedStream : Type := mkReplayed {
  rs_events : list EvidenceEvent;
  rs_skipped_lines : nat;
}.

(** [parse_event]; the version is truncated to 32 bits. *)
Definition parse_event (value : json) : option EvidenceEvent :=
  match value with
  | JObject object =>
      kind ← obj_get "kind" object ≫= as_str;
      record ← obj_get "record" object;
      let v := default 0 (obj_get "v" object ≫= as_u64) mod 2 ^ 32 in
      let at_ms := default 0 (obj_get "at_ms" object ≫= as_u64) in
      Some (mkEvidence v at_ms kind record)
  | _ => None
  end.

(** [raw.split(|byte| *byte == b'\n')]: the lines, and what follows the last
    newline. *)
Definition split_newline (raw : bytes) : list bytes := (frames raw).1 ++ [(frames raw).2].

Section text.
Context `{JsonText}.

(** What replay makes of one chunk of the file. *)
Definition parse_chunk (chunk : bytes) : option EvidenceEvent :=
  from_str_value (String.string_of_list_ascii (utf8_lossy chunk)) ≫= parse_event.

(** The loop of [read_stream_unlocked]. *)
Fixpoint read_chunks (chunks : list bytes) (stream : ReplayedStream) : ReplayedStream :=
  match chunks with
  | [] => stream
  | chunk :: chunks' =>
      if bool_decide (chunk = []) then read_chunks chunks' stream
      else match parse_chunk chunk with
           | Some event =>
               read_chunks chunks' (mkReplayed (rs_events stream ++ [event]) (rs_skipped_lines stream))
           | None => read_chunks chunks' (mkReplayed (rs_events stream) (S (rs_skipped_lines stream)))
           end
  end.

(** [read_stream_unlocked], of a stream's file. *)
Definition read_stream_unlocked (file : option bytes) : ReplayedStream :=
  match file with
  | None => mkReplayed [] 0
  | Some raw => read_chunks (split_newline raw) (mkReplayed [] 0)
  end.
End text.

(** ** Append *)

(** The evidence directory: the file of each stream, and what the system will
    do to each of the writes to come. *)
Record EvidenceDir : Type := mkDir {
  dir_streams : gmap string bytes;
  dir_steps : nat → AppendStep;
  dir_next : nat;
}.

Definition dir_step (d : EvidenceDir) : AppendStep := dir_steps d (dir_next d).

(** The directory with one stream's file written and a step taken. *)
Definition dir_write (d : EvidenceDir) (kind : string) (file : bytes) : EvidenceDir :=
  mkDir (<[kind := file]> (dir_streams d)) (dir_steps d) (S (dir_next d)).

Definition dir_skip (d : EvidenceDir) : EvidenceDir :=
  mkDir (dir_streams d) (dir_steps d) (S (dir_next d)).

Section transport.
Context `{JsonText}.

(** The envelope of a record. *)
Definition record_envelope (kind : string) (at_ms : Z) (record : json) : json :=
  json_object [("v", JNumber (PosInt EVIDENCE_SCHEMA_VERSION));
               ("at_ms", JNumber (PosInt at_ms));
               ("kind", JString kind);
               ("record", record)].

(** [encoded_record]. *)
Definition encoded_record (kind : string) (at_ms : Z) (record : json) : bytes :=
  terminated (as_bytes (print_json (record_envelope kind at_ms record))).

(** [append_locked]: open for append (creating the file), write, sync.  The
    record is its [Value]. *)
Definition append_locked (kind : string) (record : json) (d : EvidenceDir)
    : EvidenceDir * result string unit :=
  let step := dir_step d in
  let payload := encoded_record kind (now_ms (as_millis step)) record in
  let file := default [] (dir_streams d !! kind) in
  match as_fault step with
  | LockFault => (dir_skip d, Err "open failed")
  | WriteFault written => (dir_write d kind (file ++ take written payload), Err "write failed")
  | SyncFault => (dir_write d kind (file ++ payload), Err "sync failed")
  | NoFault => (dir_write d kind (file ++ payload), Ok tt)
  end.

(** [append]: the same under the stream's lock, which fails with the step. *)
Definition append_record (kind : string) (record : json) (d : EvidenceDir)
    : EvidenceDir * result string unit :=
  match as_fault (dir_step d) with
  | LockFault => (dir_skip d, Err "stream lock")
  | _ => append_locked kind record d
  end.

(** [read_stream]. *)
Definition read_stream (d : EvidenceDir) (kind : string) : ReplayedStream :=
  read_stream_unlocked (dir_streams d !! kind).
End transport.

(** ** The transport's streams *)

Section streams.
Context `{JsonText}.

Definition upsert_drex_decision (r : PersistedDrexDecision) :=
  append_record "drex_decisions" (value_of (encode_decision r)).

Definition insert_drex_failure (r : PersistedDrexFailure) :=
  append_record "drex_failures" (value_of (encode_drex_failure r)).

Definition attach_drex_decision_to_route (request_id drex_decision_id : string) :=
  append_record "route_links"
    (json_object [("request_id", JString request_id); ("drex_decision_id", JString drex_decision_id)]).

Definition upsert_worker_session (s : PersistedWorkerSession) :=
  append_record "worker_sessions" (session_value s).

Definition close_session (session_id : string) :=
  append_record "session_closes" (json_object [("session_id", JString session_id)]).

Definition upsert_worker_lease (l : PersistedWorkerLease) :=
  append_record "worker_leases" (lease_value l).

Definition record_dispatch_ack (a : PersistedDispatchAck) :=
  append_record "dispatch_acks" (value_of (encode_ack a)).

Definition register_artifact (a : PersistedArtifact) :=
  append_record "artifacts" (value_of (encode_artifact a)).

Definition record_run_receipt (r : PersistedRunReceipt) :=
  append_record "runs" (value_of (encode_receipt r)).

Definition record_run_failure (r : PersistedRunFailure) :=
  append_record "run_failures" (value_of (encode_run_failure r)).

Definition journal (kind : string) (payload : json) := append_record kind payload.

(** [EvidenceRuntime::record_receipt_bundle]: every artifact, then the receipt
    that refers to them. *)
Fixpoint register_artifacts (artifacts : list PersistedArtifact) (d : EvidenceDir)
    : EvidenceDir * result string unit :=
  match artifacts with
  | [] => (d, Ok tt)
  | a :: artifacts' =>
      match register_artifact a d with
      | (d', Ok _) => register_artifacts artifacts' d'
      | (d', Err e) => (d', Err e)
      end
  end.

Definition record_receipt_bundle (receipt : PersistedRunReceipt) (artifacts : list PersistedArtifact)
    (d : EvidenceDir) : EvidenceDir * result string PersistedRunReceipt :=
  if bool_decide (artifacts = []) then (d, Err "run receipt requires at least one artifact")
  else match register_artifacts artifacts d with
       | (d', Err e) => (d', Err e)
       | (d', Ok _) =>
           match record_run_receipt receipt d' with
           | (d'', Ok _) => (d'', Ok receipt)
           | (d'', Err e) => (d'', Err e)
           end
       end.

(** [EvidenceRuntime::record_drex_decision]: a link that cannot be attached is
    not an error. *)
Definition record_drex_decision (r : PersistedDrexDecision) (d : EvidenceDir)
    : EvidenceDir * result string PersistedDrexDecision :=
  match upsert_drex_decision r d with
  | (d', Err e) => (d', Err e)
  | (d', Ok _) =>
      ((attach_drex_decision_to_route (dd_request_id r) (dd_drex_decision_id r) d').1, Ok r)
  end.

(** [journal_summary], of the streams whose name does not start with a dot. *)
Record StreamSummary : Type := mkSummary {
  ss_kind : string;
  ss_events : nat;
  ss_skipped_lines : nat;
}.

Definition hidden (kind : string) : bool := String.prefix "." kind.

Definition journal_summary (d : EvidenceDir) : list StreamSummary :=
  map (λ kind, let stream := read_stream d kind in
               mkSummary kind (length (rs_events stream)) (rs_skipped_lines stream))
    (sorting.merge_sort String.le
       (filter (λ kind, hidden kind = false) (elements (dom (dir_streams d))))).
End streams.

(** ** What an append adds to a replay

    The streams against their replay: the exact effect of every append, a torn
    one included, on what a reader sees. *)

Section pieces.
Context `{JsonText}.

(** The text of an envelope, and what a write that stops early leaves of one. *)
Definition envelope_text (kind : string) (at_ms : Z) (record : json) : bytes :=
  as_bytes (print_json (record_envelope kind at_ms record)).

Definition torn_piece (p : bytes) : Prop :=
  p ≠ [] ∧ ∃ kind at_ms record, p `prefix_of` envelope_text kind at_ms record.

(** Documented behaviour of serde_json: a text put together from beginnings of
    envelope texts is a document only when it is one whole envelope (a beginning
    of an object leaves a brace or a string open, and what follows a complete
    one is an error); no envelope begins another; no value prints as nothing,
    and what is printed is a [String], so UTF-8. *)
Class JsonTornLaws : Prop := {
  print_utf8 : ∀ v, utf8_lossy (as_bytes (print_json v)) = as_bytes (print_json v);
  envelope_prefix_free : ∀ kind at_ms record kind' at_ms' record',
    envelope_text kind at_ms record `prefix_of` envelope_text kind' at_ms' record' →
    envelope_text kind at_ms record = envelope_text kind' at_ms' record';
  envelope_nonempty : ∀ kind at_ms record, envelope_text kind at_ms record ≠ [];
  torn_pieces : ∀ ps, Forall torn_piece ps →
    is_Some (from_str_value (String.string_of_list_ascii (utf8_lossy (concat ps)))) →
    ∃ kind at_ms record, ps = [envelope_text kind at_ms record];
}.

(** A record whose envelope reads back as it was written. *)
Record faithful (kind : string) (at_ms : Z) (record : json) : Prop := mkFaithful {
  ff_parse : parse_json (print_json (record_envelope kind at_ms record)) =
             Some (record_envelope kind at_ms record);
  ff_value : value_of record = record;
}.
End pieces.

Section replay.
Context `{JsonTextLaws}.

(** ** Replay as a filter *)

Definition unreadable (chunk : bytes) : Prop := chunk ≠ [] ∧ parse_chunk chunk = None.

#[export] Instance unreadable_dec chunk : Decision (unreadable chunk).
Proof. unfold unreadable. destruct (parse_chunk chunk); apply _. Defined.

Lemma parse_chunk_nil : parse_chunk [] = None.
Proof. unfold parse_chunk, from_str_value, utf8_lossy. simpl. by rewrite parse_empty. Qed.

Lemma read_chunks_spec chunks : ∀ stream,
  read_chunks chunks stream =
    mkReplayed (rs_events stream ++ omap parse_chunk chunks)
      (rs_skipped_lines stream + length (filter unreadable chunks)).
Proof.
  induction chunks as [|c chunks IH]; intros [es n]; cbn [read_chunks].
  - by rewrite filter_nil, app_nil_r, Nat.add_0_r.
  - rewrite filter_cons. case_bool_decide as Hc.
    + subst c. rewrite (decide_False (P := unreadable [])) by (intros [E _]; by destruct E). rewrite IH. simpl. by rewrite parse_chunk_nil.
    + destruct (parse_chunk c) as [e|] eqn:E; rewrite IH; cbn [rs_events rs_skipped_lines].
      * rewrite decide_False by (intros []; congruence). simpl. by rewrite E, <- app_assoc.
      * rewrite decide_True by done. simpl. rewrite E. f_equal. lia.
Qed.

(** The events and the damage of lines and a tail. *)
Definition events_of (ls : list bytes) (t : bytes) : list EvidenceEvent := omap parse_chunk (ls ++ [t]).
Definition damage_of (ls : list bytes) (t : bytes) : nat := length (filter unreadable (ls ++ [t])).

Lemma read_framed ls t :
  Forall line_ok ls → line_ok t →
  read_stream_unlocked (Some (unframe ls t)) = mkReplayed (events_of ls t) (damage_of ls t).
Proof.
  intros Hls Ht. unfold read_stream_unlocked, split_newline. rewrite frames_unframe by done.
  by rewrite read_chunks_spec.
Qed.

Lemma read_absent : read_stream_unlocked None = mkReplayed (events_of [] []) (damage_of [] []).
Proof.
  unfold events_of, damage_of. cbn [app]. rewrite filter_cons, filter_nil.
  rewrite decide_False by (intros [E _]; by destruct E). simpl. by rewrite parse_chunk_nil.
Qed.

Lemma read_file file ls t :
  default [] file = unframe ls t → Forall line_ok ls → line_ok t →
  read_stream_unlocked file = mkReplayed (events_of ls t) (damage_of ls t).
Proof.
  intros Hf Hls Ht. destruct file as [s|]; simpl in Hf; [subst s; by apply read_framed|].
  apply (f_equal frames) in Hf. rewrite frames_unframe in Hf by done. injection Hf as <- <-.
  apply read_absent.
Qed.

Lemma events_of_snoc ls l t : events_of (ls ++ [l]) t = events_of ls l ++ option_list (parse_chunk t).
Proof. unfold events_of. rewrite omap_app. simpl. by destruct (parse_chunk t). Qed.

Lemma damage_of_snoc ls l t :
  damage_of (ls ++ [l]) t = (damage_of ls l + if decide (unreadable t) then 1 else 0)%nat.
Proof.
  unfold damage_of. rewrite (filter_app _ (ls ++ [l])), length_app, filter_cons, filter_nil.
  by case_decide.
Qed.

(** The last chunk alone. *)
Lemma events_of_tail ls t : events_of ls t = events_of ls [] ++ option_list (parse_chunk t).
Proof.
  unfold events_of. rewrite !omap_app. simpl. rewrite parse_chunk_nil. simpl.
  rewrite app_nil_r. by destruct (parse_chunk t).
Qed.

Lemma damage_of_tail ls t : damage_of ls t = (damage_of ls [] + if decide (unreadable t) then 1 else 0)%nat.
Proof.
  unfold damage_of. rewrite !filter_app, !length_app, !filter_cons, !filter_nil.
  rewrite (decide_False (P := unreadable [])) by (intros [E _]; by destruct E). case_decide; simpl; lia.
Qed.

Lemma envelope_text_ok kind at_ms record : line_ok (envelope_text kind at_ms record).
Proof. apply print_no_newline. Qed.

Lemma prefix_line_ok p l : p `prefix_of` l → line_ok l → line_ok p.
Proof. intros [k ->] Hl Hin. apply Hl, elem_of_app. by left. Qed.
End replay.

Section appends.
Context `{JsonTextLaws}.
Context {torn_laws : JsonTornLaws}.

Lemma parse_faithful kind at_ms record :
  faithful kind at_ms record →
  parse_chunk (envelope_text kind at_ms record) =
    Some (mkEvidence EVIDENCE_SCHEMA_VERSION at_ms kind record).
Proof.
  intros [Hp Hv]. unfold parse_chunk, from_str_value, envelope_text. rewrite print_utf8.
  unfold as_bytes. rewrite String.string_of_list_ascii_of_string, Hp. simpl. by rewrite Hv.
Qed.

(** ** Streams this code writes *)

(** Every line, and the tail, is put together from beginnings of envelopes; an
    undamaged line is one of them, whole. *)
Definition chunk_written (c : bytes) : Prop := ∃ ps, c = concat ps ∧ Forall torn_piece ps.

Definition stream_written (file : bytes) : Prop :=
  ∃ ls t, file = unframe ls t ∧ Forall chunk_written ls ∧ chunk_written t.

Lemma torn_piece_ok p : torn_piece p → line_ok p.
Proof. intros [_ (? & ? & ? & Hp)]. eapply prefix_line_ok; [exact Hp|apply envelope_text_ok]. Qed.

Lemma chunk_written_ok c : chunk_written c → line_ok c.
Proof.
  intros (ps & -> & Hps). induction Hps as [|p ps Hp _ IH]; simpl; [apply not_elem_of_nil|].
  intros [?|?]%elem_of_app; [by eapply torn_piece_ok|done].
Qed.

Lemma chunks_written_ok ls : Forall chunk_written ls → Forall line_ok ls.
Proof. intros Hls. eapply Forall_impl; [exact Hls|]. intros c. apply chunk_written_ok. Qed.

Lemma chunk_written_nil : chunk_written [].
Proof. exists []. split; [done|constructor]. Qed.

Lemma chunk_written_app c p : chunk_written c → torn_piece p → chunk_written (c ++ p).
Proof.
  intros (ps & -> & Hps) Hp. exists (ps ++ [p]). split; [by rewrite concat_app; simpl; rewrite app_nil_r|].
  apply Forall_app. by split; [|constructor].
Qed.

(** What is appended to a torn chunk cannot be read. *)
Lemma joined_unreadable c p : chunk_written c → c ≠ [] → torn_piece p → parse_chunk (c ++ p) = None.
Proof.
  intros (ps & -> & Hps) Hc Hp. destruct (parse_chunk (concat ps ++ p)) as [e|] eqn:E; [|done].
  exfalso. unfold parse_chunk in E. apply bind_Some in E as (v & Hv & _).
  destruct (torn_pieces (ps ++ [p])) as (k & a & r & Heq).
  - apply Forall_app. by split; [|constructor].
  - rewrite concat_app. simpl. rewrite app_nil_r. by eexists.
  - destruct ps as [|q [|? ?]]; [done|discriminate Heq..].
Qed.

(** A beginning of an envelope cannot be read unless it is all of it. *)
Lemma piece_unreadable p :
  torn_piece p → is_Some (parse_chunk p) → ∃ kind at_ms record, p = envelope_text kind at_ms record.
Proof.
  intros Hp [e He]. unfold parse_chunk in He. apply bind_Some in He as (v & Hv & _).
  destruct (torn_pieces [p]) as (k & a & r & Heq).
  - by constructor.
  - simpl. rewrite app_nil_r. by eexists.
  - injection Heq as ->. eauto.
Qed.

Lemma take_torn n kind at_ms record :
  take n (envelope_text kind at_ms record) ≠ [] → torn_piece (take n (envelope_text kind at_ms record)).
Proof. intros Hn. split; [done|]. exists kind, at_ms, record. apply prefix_take. Qed.

Lemma envelope_torn kind at_ms record : torn_piece (envelope_text kind at_ms record).
Proof. split; [apply envelope_nonempty|]. by exists kind, at_ms, record. Qed.

(** ** The shape of an append *)

(** The three things a write can leave: nothing, a beginning of the envelope, or
    its whole line. *)
Inductive written_shape (ls : list bytes) (t text : bytes) : bytes → Prop :=
| wrote_nothing : written_shape ls t text (unframe ls t)
| wrote_part p : p `prefix_of` text → p ≠ [] → written_shape ls t text (unframe ls (t ++ p))
| wrote_line : written_shape ls t text (unframe (ls ++ [t ++ text]) []).

Lemma unframe_finish ls t text : unframe ls t ++ terminated text = unframe (ls ++ [t ++ text]) [].
Proof. by rewrite unframe_snoc, (unframe_tail ls t), <- !app_assoc. Qed.

Lemma written_part ls t text n :
  written_shape ls t text (unframe ls t ++ take n (terminated text)).
Proof.
  destruct (decide (length (terminated text) ≤ n)%nat) as [Hn|Hn].
  - rewrite take_ge by done. rewrite unframe_finish. apply wrote_line.
  - assert (take n (terminated text) = take n text) as ->.
    { unfold terminated in *. rewrite length_app in Hn. simpl in Hn. rewrite take_app_le; [done|lia]. }
    destruct (decide (take n text = [])) as [->|Hne]; [rewrite app_nil_r; apply wrote_nothing|].
    rewrite (unframe_tail ls t), <- app_assoc, <- unframe_tail.
    apply wrote_part; [apply prefix_take|done].
Qed.

Lemma append_locked_shape kind record d d' r ls t :
  append_locked kind record d = (d', r) → default [] (dir_streams d !! kind) = unframe ls t →
  dir_steps d' = dir_steps d ∧ dir_next d' = S (dir_next d) ∧
  (∀ k, k ≠ kind → dir_streams d' !! k = dir_streams d !! k) ∧
  let text := envelope_text kind (now_ms (as_millis (dir_step d))) record in
  written_shape ls t text (default [] (dir_streams d' !! kind)) ∧
  (r = Ok tt → default [] (dir_streams d' !! kind) = unframe (ls ++ [t ++ text]) []).
Proof.
  intros Ha Hf. unfold append_locked in Ha. rewrite Hf in Ha.
  destruct (as_fault (dir_step d)) as [| |n|]; injection Ha as <- <-; simpl;
    (split_and!; [done|done|intros k Hk; rewrite ?lookup_insert_ne by done; done|..]);
    rewrite ?lookup_insert_eq; cbn [default].
  - unfold encoded_record. rewrite unframe_finish. apply wrote_line.
  - intros _. unfold encoded_record. by rewrite unframe_finish.
  - rewrite Hf. apply wrote_nothing.
  - done.
  - apply written_part.
  - done.
  - unfold encoded_record. rewrite unframe_finish. apply wrote_line.
  - done.
Qed.

(** Under the lock the same holds. *)
Lemma append_record_locked kind record d :
  append_record kind record d = append_locked kind record d ∨
  ∃ reason, append_record kind record d = (dir_skip d, Err reason).
Proof. unfold append_record. destruct (as_fault (dir_step d)); eauto. Qed.
(** A stream stays one this code writes. *)
Lemma shape_written ls t kind at_ms record file :
  Forall chunk_written ls → chunk_written t →
  written_shape ls t (envelope_text kind at_ms record) file → stream_written file.
Proof.
  intros Hls Ht [|p Hp Hne|].
  - by exists ls, t.
  - exists ls, (t ++ p). split_and!; [done|done|]. apply chunk_written_app; [done|]. split; [done|eauto].
  - exists (ls ++ [t ++ envelope_text kind at_ms record]), []. split; [done|].
    split; [|apply chunk_written_nil]. apply Forall_app. split; [done|]. constructor; [|done].
    apply chunk_written_app; [done|]. apply envelope_torn.
Qed.

(** What a reader sees of each shape. *)
Lemma shape_read ls t kind at_ms record file :
  Forall chunk_written ls → chunk_written t →
  written_shape ls t (envelope_text kind at_ms record) file →
  (t = [] → ∃ es, rs_events (read_stream_unlocked (Some file)) = events_of ls t ++ es ∧
                  (length es ≤ 1)%nat ∧
                  (damage_of ls t ≤ rs_skipped_lines (read_stream_unlocked (Some file)) ≤
                   damage_of ls t + 1)%nat) ∧
  (t ≠ [] → file ≠ unframe ls t →
     rs_events (read_stream_unlocked (Some file)) = events_of ls [] ∧
     rs_skipped_lines (read_stream_unlocked (Some file)) = S (damage_of ls [])).
Proof.
  intros Hls Ht Hshape.
  assert (∀ ls' t', Forall chunk_written ls' → chunk_written t' →
    read_stream_unlocked (Some (unframe ls' t')) = mkReplayed (events_of ls' t') (damage_of ls' t')) as Hread.
  { intros ls' t' Hls' Ht'. apply read_framed; [by apply chunks_written_ok|by apply chunk_written_ok]. }
  assert (∀ p, torn_piece p → t ≠ [] → parse_chunk (t ++ p) = None) as Hjoin
    by (intros p Hp Hne; by apply joined_unreadable).
  assert (∀ p, torn_piece p → t ≠ [] → unreadable (t ++ p)) as Hunread.
  { intros p Hp Hne. split; [by destruct t|by apply Hjoin]. }
  destruct Hshape as [|p Hp Hne|].
  - rewrite Hread by done. split; [|done]. intros _. exists []. rewrite app_nil_r. simpl. split; [done|lia].
  - assert (torn_piece p) as Htp by (split; [done|eauto]).
    rewrite Hread by (done || by apply chunk_written_app). cbn [rs_events rs_skipped_lines].
    rewrite (events_of_tail ls (t ++ p)), (damage_of_tail ls (t ++ p)). split.
    + intros ->. exists (option_list (parse_chunk p)). split; [done|]. split; [by destruct (parse_chunk p); simpl; lia|].
      case_decide; lia.
    + intros Htn _. rewrite Hjoin by done. rewrite decide_True by auto. simpl.
      rewrite app_nil_r. split; [done|lia].
  - set (text := envelope_text kind at_ms record) in *. pose proof (envelope_torn kind at_ms record) as Htp.
    rewrite Hread; [|apply Forall_app; split; [done|]; constructor; [by apply chunk_written_app|done]
                    |apply chunk_written_nil].
    cbn [rs_events rs_skipped_lines]. rewrite events_of_snoc, damage_of_snoc, parse_chunk_nil.
    rewrite (decide_False (P := unreadable [])) by (intros [E _]; by destruct E).
    rewrite (events_of_tail ls (t ++ text)), (damage_of_tail ls (t ++ text)). simpl. rewrite app_nil_r.
    split.
    + intros ->. exists (option_list (parse_chunk text)). split; [done|].
      split; [by destruct (parse_chunk text); simpl; lia|]. case_decide; lia.
    + intros Htn _. rewrite Hjoin by done. rewrite decide_True by auto. simpl. rewrite app_nil_r.
      split; [done|lia].
Qed.

(** The file of a stream, empty when there is none. *)
Definition stream_file (d : EvidenceDir) (kind : string) : bytes := default [] (dir_streams d !! kind).

Lemma read_stream_file d kind : read_stream d kind = read_stream_unlocked (Some (stream_file d kind)).
Proof.
  unfold read_stream, stream_file. destruct (dir_streams d !! kind) as [s|]; [done|].
  rewrite read_absent. symmetry. apply (read_framed [] []); [constructor|apply not_elem_of_nil].
Qed.

Lemma written_frames s :
  stream_written s → Forall chunk_written (frames s).1 ∧ chunk_written (frames s).2.
Proof.
  intros (ls & t & -> & Hls & Ht).
  rewrite frames_unframe; [done|by apply chunks_written_ok|by apply chunk_written_ok].
Qed.

(** What an append does to its directory, in the shapes above. *)
Lemma append_record_shape kind record d d' r :
  append_record kind record d = (d', r) →
  dir_steps d' = dir_steps d ∧ dir_next d' = S (dir_next d) ∧
  (∀ k, k ≠ kind → dir_streams d' !! k = dir_streams d !! k) ∧
  let '(ls, t) := frames (stream_file d kind) in
  let text := envelope_text kind (now_ms (as_millis (dir_step d))) record in
  written_shape ls t text (stream_file d' kind) ∧
  (r = Ok tt → stream_file d' kind = unframe (ls ++ [t ++ text]) []).
Proof.
  intros Ha. destruct (frames (stream_file d kind)) as [ls t] eqn:Hf.
  assert (stream_file d kind = unframe ls t) as Hu by (rewrite <- (unframe_frames (stream_file d kind)), Hf; done).
  destruct (append_record_locked kind record d) as [Heq|(reason & Heq)]; rewrite Heq in Ha.
  - by eapply append_locked_shape.
  - injection Ha as <- <-. unfold stream_file in *. simpl. rewrite Hu. split_and!; try done.
    apply wrote_nothing.
Qed.

(** A whole line after the last newline is read as its envelope. *)
Lemma read_line_added ls kind at_ms record :
  Forall chunk_written ls → faithful kind at_ms record →
  read_stream_unlocked (Some (unframe (ls ++ [envelope_text kind at_ms record]) [])) =
    mkReplayed (events_of ls [] ++ [mkEvidence EVIDENCE_SCHEMA_VERSION at_ms kind record])
      (damage_of ls []).
Proof.
  intros Hls Hfaith. rewrite read_framed; [|apply Forall_app; split; [by apply chunks_written_ok|];
    constructor; [apply envelope_text_ok|done]|apply not_elem_of_nil].
  rewrite events_of_snoc, parse_chunk_nil, damage_of_snoc, events_of_tail, damage_of_tail.
  rewrite (parse_faithful _ _ _ Hfaith), !decide_False.
  - simpl. rewrite app_nil_r. f_equal. lia.
  - intros [E _]. by destruct E.
  - intros [_ Hbad]. by rewrite (parse_faithful _ _ _ Hfaith) in Hbad.
Qed.

Lemma joined_differs ls t kind at_ms record :
  Forall chunk_written ls → chunk_written t →
  unframe (ls ++ [t ++ envelope_text kind at_ms record]) [] ≠ unframe ls t.
Proof.
  intros Hls Ht Hbad. apply (f_equal (λ s, length (frames s).1)) in Hbad.
  rewrite !frames_unframe in Hbad; [|by apply chunks_written_ok|by apply chunk_written_ok| |apply not_elem_of_nil].
  - simpl in Hbad. rewrite length_app in Hbad. simpl in Hbad. lia.
  - apply Forall_app. split; [by apply chunks_written_ok|]. constructor; [|done].
    apply chunk_written_ok, chunk_written_app; [done|apply envelope_torn].
Qed.

(** A faithful append changes nothing, damages the stream for good, or adds its
    event. *)
Lemma shape_trichotomy ls t kind at_ms record file :
  Forall chunk_written ls → chunk_written t → faithful kind at_ms record →
  written_shape ls t (envelope_text kind at_ms record) file →
  file = unframe ls t ∨
  (0 < rs_skipped_lines (read_stream_unlocked (Some file)))%nat ∨
  read_stream_unlocked (Some file) =
    mkReplayed (events_of ls t ++ [mkEvidence EVIDENCE_SCHEMA_VERSION at_ms kind record]) (damage_of ls t).
Proof.
  intros Hls Ht Hfaith Hshape. destruct (decide (file = unframe ls t)) as [|Hfile]; [by left|right].
  destruct (shape_read _ _ _ _ _ _ Hls Ht Hshape) as [_ Htorn].
  destruct (decide (t = [])) as [->|Htn].
  2: { left. destruct (Htorn Htn Hfile) as [_ ->]. lia. }
  destruct Hshape as [|p Hp Hne|]; [done| |right; by apply read_line_added].
  assert (torn_piece p) as Htp by (split; [done|eauto]). rewrite app_nil_l.
  rewrite read_framed by (apply chunks_written_ok || apply torn_piece_ok; done). cbn [rs_skipped_lines].
  rewrite (damage_of_tail ls p), (events_of_tail ls p).
  destruct (parse_chunk p) as [e|] eqn:Hpc.
  - right. destruct (piece_unreadable p Htp ltac:(eauto)) as (k & a & rec & ->).
    apply envelope_prefix_free in Hp. rewrite Hp in Hpc |- *.
    rewrite (parse_faithful _ _ _ Hfaith) in Hpc. injection Hpc as <-. rewrite decide_False.
    + simpl. f_equal. lia.
    + intros [_ Hbad]. by rewrite (parse_faithful _ _ _ Hfaith) in Hbad.
  - left. rewrite decide_True by done. lia.
Qed.

(**  What an append adds to a replay, exactly.  On a stream this code wrote,
    whole or torn by earlier crashes, an append touches no other stream and
    leaves one this code could have written.  When the stream ends with its last
    newline, the events before stay, at most one is added and at most one line
    is damaged, and an append that reports success of a record that JSON
    represents added exactly its envelope; but when a torn tail was there (which
    nothing repairs), an append that reports success is lost: the tail and the
    record are one unreadable line. *)
Theorem append_is_exact (kind : string) (record : json) (d d' : EvidenceDir) (r : result string unit) :
  stream_written (stream_file d kind) → append_record kind record d = (d', r) →
  let at_ms := now_ms (as_millis (dir_step d)) in
  let '(ls, tail) := frames (stream_file d kind) in
  (∀ k, k ≠ kind → read_stream d' k = read_stream d k) ∧
  stream_written (stream_file d' kind) ∧
  (tail = [] →
     (∃ es, rs_events (read_stream d' kind) = rs_events (read_stream d kind) ++ es ∧ (length es ≤ 1)%nat) ∧
     (rs_skipped_lines (read_stream d' kind) ≤ rs_skipped_lines (read_stream d kind) + 1)%nat ∧
     (r = Ok tt → faithful kind at_ms record →
        read_stream d' kind =
          mkReplayed (rs_events (read_stream d kind) ++
                        [mkEvidence EVIDENCE_SCHEMA_VERSION at_ms kind record])
            (rs_skipped_lines (read_stream d kind)))) ∧
  (tail ≠ [] → r = Ok tt →
     rs_events (read_stream d' kind) = omap parse_chunk ls ∧
     (rs_skipped_lines (read_stream d' kind) > length (filter unreadable ls))%nat).
Proof.
  intros Hw Ha at_ms. pose proof (append_record_shape _ _ _ _ _ Ha) as (_ & _ & Hother & Hshape).
  destruct (written_frames _ Hw) as [Hls Ht].
  destruct (frames (stream_file d kind)) as [ls t] eqn:Hf. simpl in Hls, Ht. destruct Hshape as [Hshape Hok].
  assert (stream_file d kind = unframe ls t) as Hu by (rewrite <- (unframe_frames (stream_file d kind)), Hf; done).
  assert (read_stream d kind = mkReplayed (events_of ls t) (damage_of ls t)) as Hbefore.
  { rewrite read_stream_file, Hu. apply read_framed; [by apply chunks_written_ok|by apply chunk_written_ok]. }
  destruct (shape_read ls t _ _ _ _ Hls Ht Hshape) as [Hclean Htorn].
  rewrite !(read_stream_file d' kind), Hbefore. cbn [rs_events rs_skipped_lines]. split_and!.
  - intros k Hk. unfold read_stream. by rewrite Hother.
  - by eapply shape_written.
  - intros Htn. destruct (Hclean Htn) as (es & He & Hlen & Hsk). split_and!; [by exists es|lia|].
    intros Hr Hfaith. rewrite (Hok Hr), Htn. by apply read_line_added.
  - intros Htn Hr. destruct Htorn as [He Hsk]; [done| |].
    { rewrite (Hok Hr). by apply joined_differs. }
    rewrite He, Hsk. unfold events_of, damage_of. rewrite omap_app. simpl. rewrite parse_chunk_nil, app_nil_r.
    split; [done|]. rewrite filter_app, length_app. lia.
Qed.
End appends.
