(* ===== verification/WorkerLease.v ===== *)
(** * Worker leases (crates/heiwa_evidence/src/journal.rs)

    [try_acquire_worker_lease]: replay and append in one transaction of the
    stream's lock, so that a capability has one live lease at a time. *)

From stdpp Require Import base gmap sets strings numbers list.
From Stdlib Require Import Ascii.
From S2P Require Import Prelude Utf8 Json Hex Envelope Framing OperatorEvent Sensitive EventLog.
From S2P Require Import OperatorJournal JournalLog EvidenceRecords EvidenceStream.
#[local] Open Scope Z_scope.

Definition worker_leases : string := "worker_leases".

(** [OffsetDateTime::parse] of the time crate, as an instant. *)
Class Rfc3339 : Type := { parse_rfc3339 : string → option Z }.

(** [HashMap::into_values]: the values in some order. *)
Class HashOrder : Type := {
  hash_values : ∀ {A}, gmap string A → list A;
  hash_values_perm : ∀ {A} (m : gmap string A), hash_values m ≡ₚ (map_to_list m).*2;
}.

Definition lease_live (l : PersistedWorkerLease) : bool :=
  bool_decide (wl_status l = "issued" ∨ wl_status l = "acked").

(** Last write wins, by lease id; a record that is no lease is passed over. *)
Definition insert_lease (m : gmap string PersistedWorkerLease) (e : EvidenceEvent)
    : gmap string PersistedWorkerLease :=
  match decode_lease (ev_record e) with
  | Some l => <[wl_lease_id l := l]> m
  | None => m
  end.

Definition latest_leases (events : list EvidenceEvent) : gmap string PersistedWorkerLease :=
  foldl insert_lease ∅ events.

Definition mark_expired (issued_at : string) (l : PersistedWorkerLease) : PersistedWorkerLease :=
  mkLease (wl_lease_id l) (wl_task_id l) (wl_session_id l) (wl_node_id l) (wl_capability l) "expired"
    (wl_issued_at l) issued_at (wl_expires_at l) (wl_acked_at l) (Some issued_at)
    (Some "LEASE_EXPIRED") (Some "lease expired before successor acquisition").

Section acquire.
Context `{JsonText, Rfc3339, HashOrder}.

(** The loop over the live leases of the capability: the first that has not
    expired at [acquired_at], or those that have. *)
Fixpoint scan_candidates (acquired_at : Z) (candidates expired : list PersistedWorkerLease)
    : result string (option PersistedWorkerLease * list PersistedWorkerLease) :=
  match candidates with
  | [] => Ok (None, expired)
  | candidate :: candidates' =>
      match parse_rfc3339 (wl_expires_at candidate) with
      | None => Err "invalid expires_at on live worker lease"
      | Some expires_at =>
          if bool_decide (expires_at > acquired_at) then Ok (Some candidate, expired)
          else scan_candidates acquired_at candidates' (expired ++ [candidate])
      end
  end.

Fixpoint append_leases (leases : list PersistedWorkerLease) (d : EvidenceDir)
    : EvidenceDir * result string unit :=
  match leases with
  | [] => (d, Ok tt)
  | l :: leases' =>
      match append_locked worker_leases (lease_value l) d with
      | (d', Ok _) => append_leases leases' d'
      | (d', Err e) => (d', Err e)
      end
  end.

(** The live leases of a capability, in the map's order. *)
Definition live_candidates (capability : string) (events : list EvidenceEvent)
    : list PersistedWorkerLease :=
  filter (λ c, wl_capability c = capability ∧ lease_live c = true) (hash_values (latest_leases events)).

(** [JsonlTransport::try_acquire_worker_lease]. *)
Definition try_acquire_worker_lease (lease : PersistedWorkerLease) (d : EvidenceDir)
    : EvidenceDir * result string (option PersistedWorkerLease) :=
  if negb (lease_live lease) then (d, Err "worker lease acquisition requires issued or acked status")
  else
    match parse_rfc3339 (wl_issued_at lease) with
    | None => (d, Err "invalid worker lease issued_at")
    | Some acquired_at =>
        match parse_rfc3339 (wl_expires_at lease) with
        | None => (d, Err "invalid worker lease expires_at")
        | Some candidate_expires_at =>
            if bool_decide (candidate_expires_at ≤ acquired_at)
            then (d, Err "worker lease expires_at must be later than issued_at")
            else if (match as_fault (dir_step d) with LockFault => true | _ => false end)
            then (dir_skip d, Err "stream lock")
            else
              let replay := read_stream d worker_leases in
              if (0 <? rs_skipped_lines replay)%nat
              then (d, Err "worker lease stream is damaged; refusing acquisition")
              else
                match scan_candidates acquired_at
                        (live_candidates (wl_capability lease) (rs_events replay)) [] with
                | Err e => (d, Err e)
                | Ok (Some holder, _) => (d, Ok (Some holder))
                | Ok (None, expired) =>
                    match append_leases (map (mark_expired (wl_issued_at lease)) expired) d with
                    | (d', Err e) => (d', Err e)
                    | (d', Ok _) =>
                        match append_locked worker_leases (lease_value lease) d' with
                        | (d'', Ok _) => (d'', Ok None)
                        | (d'', Err e) => (d'', Err e)
                        end
                    end
                end
        end
    end.

(** What happens to the lease stream over time: acquisitions, and updates of
    leases by their holders or a recovery. *)
Inductive LeaseOp : Type :=
| Acquire (l : PersistedWorkerLease)
| Upsert (l : PersistedWorkerLease).

Definition op_lease (op : LeaseOp) : PersistedWorkerLease :=
  match op with Acquire l | Upsert l => l end.

Definition run_op (d : EvidenceDir) (op : LeaseOp) : EvidenceDir :=
  match op with
  | Acquire l => (try_acquire_worker_lease l d).1
  | Upsert l => (upsert_worker_lease l d).1
  end.

Definition run_ops (ops : list LeaseOp) (d : EvidenceDir) : EvidenceDir := foldl run_op d ops.
End acquire.

(** ** The view of the stream *)

Section view.
Context `{JsonTextLaws}.
Context {torn_laws : JsonTornLaws}.

Definition lease_view (d : EvidenceDir) : gmap string PersistedWorkerLease :=
  latest_leases (rs_events (read_stream d worker_leases)).

Definition lease_damaged (d : EvidenceDir) : Prop :=
  (0 < rs_skipped_lines (read_stream d worker_leases))%nat.

Lemma latest_leases_app es es' :
  latest_leases (es ++ es') = foldl insert_lease (latest_leases es) es'.
Proof. apply foldl_app. Qed.

(** Every entry is under its own id. *)
Lemma latest_leases_keys es k l : latest_leases es !! k = Some l → wl_lease_id l = k.
Proof.
  induction es as [|e es IH] using rev_ind; [done|]. rewrite latest_leases_app. simpl. unfold insert_lease.
  destruct (decode_lease (ev_record e)) as [l'|]; [|exact IH].
  rewrite lookup_insert_Some. intros [[<- <-]|[_ Hl]]; [done|by apply IH].
Qed.

Lemma lease_row_faithful at_ms l :
  is_u64 at_ms → faithful worker_leases at_ms (lease_value l).
Proof.
  intros Ha. split.
  - apply parse_print. unfold json_exact. apply andb_true_iff. destruct Ha as [Ha0 Ha1].
    assert (exact_numbers (lease_value l) = true ∧ (json_depth (lease_value l) = 1)%nat) as [He Hd].
    { destruct l as [? ? ? ? ? ? ? ? ? [?|] [?|] [?|] [?|]]; split; reflexivity. }
    assert (record_envelope worker_leases at_ms (lease_value l) =
      JObject [("at_ms", JNumber (PosInt at_ms)); ("kind", JString worker_leases);
               ("record", lease_value l); ("v", JNumber (PosInt EVIDENCE_SCHEMA_VERSION))]) as ->
      by reflexivity.
    cbn [exact_numbers forallb snd fst json_depth max_list_with]. rewrite He, Hd.
    rewrite !bool_decide_true by (unfold EVIDENCE_SCHEMA_VERSION, u64_max in *; lia). done.
  - by destruct l as [? ? ? ? ? ? ? ? ? [?|] [?|] [?|] [?|]].
Qed.

(** What the append of a row does to the view. *)
Lemma lease_append_effect l d d' r :
  stream_written (stream_file d worker_leases) →
  append_locked worker_leases (lease_value l) d = (d', r) →
  stream_written (stream_file d' worker_leases) ∧
  (lease_damaged d' ∨
   (¬ lease_damaged d ∧ ((r ≠ Ok tt ∧ lease_view d' = lease_view d) ∨
                         lease_view d' = <[wl_lease_id l := l]> (lease_view d)))).
Proof.
  intros Hw Ha. destruct (written_frames _ Hw) as [Hls Ht].
  destruct (frames (stream_file d worker_leases)) as [ls t] eqn:Hf. simpl in Hls, Ht.
  assert (stream_file d worker_leases = unframe ls t) as Hu
    by (rewrite <- (unframe_frames (stream_file d worker_leases)), Hf; done).
  destruct (append_locked_shape _ _ _ _ _ _ _ Ha Hu) as (_ & _ & _ & Hshape & Hok).
  set (at_ms := now_ms _) in *. fold (stream_file d' worker_leases) in Hshape, Hok.
  assert (faithful worker_leases at_ms (lease_value l)) as Hfaith by (apply lease_row_faithful, now_ms_typed).
  split; [by eapply shape_written|].
  assert (read_stream d worker_leases = mkReplayed (events_of ls t) (damage_of ls t)) as Hbefore.
  { rewrite read_stream_file, Hu. apply read_framed; [by apply chunks_written_ok|by apply chunk_written_ok]. }
  unfold lease_damaged, lease_view. rewrite (read_stream_file d').
  destruct (decide (0 < rs_skipped_lines (read_stream d worker_leases))%nat) as [Hdam|Hdam].
  - left. destruct (shape_trichotomy _ _ _ _ _ _ Hls Ht Hfaith Hshape) as [Hsame|[?|Hadd]]; [|done|].
    + by rewrite Hsame, <- Hu, <- read_stream_file.
    + rewrite Hbefore in Hdam. by rewrite Hadd.
  - destruct (shape_trichotomy _ _ _ _ _ _ Hls Ht Hfaith Hshape) as [Hsame|[?|Hadd]]; [|by left|]; right;
      (split; [done|]).
    + left. split; [|by rewrite Hsame, <- Hu, <- read_stream_file].
      intros Hr. apply Hok in Hr. rewrite Hsame in Hr. symmetry in Hr. by apply joined_differs in Hr.
    + right. rewrite Hadd, Hbefore. cbn [rs_events]. rewrite latest_leases_app. simpl.
      unfold insert_lease. simpl. by rewrite decode_lease_value.
Qed.
End view.

(** ** Exclusion *)

Section exclusion.
Context `{JsonTextLaws, Rfc3339, HashOrder}.
Context {torn_laws : JsonTornLaws}.

(** [l] stands in the stream as a live row with its capability and expiry, or
    the stream is damaged and grants nothing any more. *)
Definition standing (l0 : PersistedWorkerLease) (d : EvidenceDir) : Prop :=
  stream_written (stream_file d worker_leases) ∧
  (lease_damaged d ∨
   ∃ l, lease_view d !! wl_lease_id l0 = Some l ∧ lease_live l = true ∧
        wl_capability l = wl_capability l0 ∧ wl_expires_at l = wl_expires_at l0).

(** The expiry of [l0] is at or before the acquisition time of [l]. *)
Definition expired_by (l0 l : PersistedWorkerLease) : Prop :=
  ∃ e a, parse_rfc3339 (wl_expires_at l0) = Some e ∧ parse_rfc3339 (wl_issued_at l) = Some a ∧ e ≤ a.

(** An operation that ends the claim of [l0]: a row of its id, or an acquisition
    of its capability after its expiry. *)
Definition releases (l0 : PersistedWorkerLease) (op : LeaseOp) : Prop :=
  wl_lease_id (op_lease op) = wl_lease_id l0 ∨
  ∃ l, op = Acquire l ∧ wl_capability l = wl_capability l0 ∧ expired_by l0 l.

#[export] Instance expired_by_dec l0 l : Decision (expired_by l0 l).
Proof.
  destruct (parse_rfc3339 (wl_expires_at l0)) as [e|] eqn:He;
    [destruct (parse_rfc3339 (wl_issued_at l)) as [a|] eqn:Ha; [destruct (decide (e ≤ a))|]|].
  - left. by exists e, a.
  - right. intros (? & ? & ? & ? & ?). simplify_eq. done.
  - right. intros (? & ? & ? & ? & ?). simplify_eq.
  - right. intros (? & ? & ? & ? & ?). simplify_eq.
Defined.

#[export] Instance releases_dec l0 op : Decision (releases l0 op).
Proof.
  destruct (decide (wl_lease_id (op_lease op) = wl_lease_id l0)); [by left; left|].
  destruct op as [l|l].
  - destruct (decide (wl_capability l = wl_capability l0 ∧ expired_by l0 l)) as [?|Hno].
    + left. right. by exists l.
    + right. intros [?|(l' & [= <-] & ?)]; [done|]. by apply Hno.
  - right. by intros [?|(l' & ? & _)].
Defined.

Lemma live_candidates_elem capability es c :
  c ∈ live_candidates capability es ↔
  latest_leases es !! wl_lease_id c = Some c ∧ wl_capability c = capability ∧ lease_live c = true.
Proof.
  unfold live_candidates. rewrite list_elem_of_filter, hash_values_perm, list_elem_of_fmap. split.
  - intros ([? ?] & [k c'] & -> & Hin%elem_of_map_to_list). simpl in *.
    by rewrite (latest_leases_keys _ _ _ Hin).
  - intros (Hl & ? & ?). split; [done|]. exists (wl_lease_id c, c). split; [done|].
    by apply elem_of_map_to_list.
Qed.

(** Every candidate was passed as expired when none is returned. *)
Lemma scan_candidates_expired a cs : ∀ expired expired',
  scan_candidates a cs expired = Ok (None, expired') →
  expired' = expired ++ cs ∧
  Forall (λ c, ∃ e, parse_rfc3339 (wl_expires_at c) = Some e ∧ e ≤ a) cs.
Proof.
  induction cs as [|c cs IH]; intros expired expired' Hs; simpl in Hs.
  - injection Hs as <-. by rewrite app_nil_r.
  - destruct (parse_rfc3339 (wl_expires_at c)) as [e|] eqn:He; [|done]. case_bool_decide; [done|].
    apply IH in Hs as [-> Hall]. split; [by rewrite <- app_assoc|]. constructor; [|done].
    exists e. split; [done|lia].
Qed.

(** A row of another id leaves [l0] standing. *)
Lemma standing_row l0 l d d' r :
  standing l0 d → wl_lease_id l ≠ wl_lease_id l0 →
  append_locked worker_leases (lease_value l) d = (d', r) → standing l0 d'.
Proof.
  intros [Hw Hst] Hid Ha. destruct (lease_append_effect _ _ _ _ Hw Ha) as [Hw' Heff].
  split; [done|]. destruct Heff as [Hdam|[Hnd [[_ Hv]|Hv]]]; [by left|..];
    (destruct Hst as [?|(l' & Hl & Hrest)]; [done|]); right; exists l'; rewrite Hv.
  - done.
  - by rewrite lookup_insert_ne.
Qed.

Lemma standing_rows l0 ls : ∀ d d' r,
  standing l0 d → Forall (λ l, wl_lease_id l ≠ wl_lease_id l0) ls →
  append_leases ls d = (d', r) → standing l0 d'.
Proof.
  induction ls as [|l ls IH]; intros d d' r Hst Hids Ha; simpl in Ha; [by injection Ha as <- <-|].
  apply Forall_cons_iff in Hids as [Hid Hids].
  destruct (append_locked _ _ _) as [d1 [[]|e]] eqn:Ha1; pose proof (standing_row _ _ _ _ _ Hst Hid Ha1).
  - by eapply IH.
  - by injection Ha as <- <-.
Qed.

Lemma rows_written ls : ∀ d d' r,
  stream_written (stream_file d worker_leases) → append_leases ls d = (d', r) →
  stream_written (stream_file d' worker_leases).
Proof.
  induction ls as [|l ls IH]; intros d d' r Hw Ha; simpl in Ha; [by injection Ha as <- <-|].
  destruct (append_locked _ _ _) as [d1 [[]|e]] eqn:Ha1; destruct (lease_append_effect _ _ _ _ Hw Ha1) as [Hw1 _].
  - by eapply IH.
  - by injection Ha as <- <-.
Qed.

(** What is known of an acquisition that got as far as writing. *)
Lemma try_acquire_cases lease d d' r :
  try_acquire_worker_lease lease d = (d', r) →
  (stream_file d' worker_leases = stream_file d worker_leases ∧ r ≠ Ok None) ∨
  (¬ lease_damaged d ∧ ∃ a expired d1 r1 r2,
     parse_rfc3339 (wl_issued_at lease) = Some a ∧
     expired = live_candidates (wl_capability lease) (rs_events (read_stream d worker_leases)) ∧
     Forall (λ c, ∃ e, parse_rfc3339 (wl_expires_at c) = Some e ∧ e ≤ a) expired ∧
     append_leases (map (mark_expired (wl_issued_at lease)) expired) d = (d1, r1) ∧
     ((d' = d1 ∧ r ≠ Ok None) ∨
      (append_locked worker_leases (lease_value lease) d1 = (d', r2) ∧ (r = Ok None → r2 = Ok tt)))).
Proof.
  intros Ht. unfold try_acquire_worker_lease in Ht.
  destruct (negb (lease_live lease)); [left; by injection Ht as <- <-|].
  destruct (parse_rfc3339 (wl_issued_at lease)) as [a|] eqn:Ha; [|left; by injection Ht as <- <-].
  destruct (parse_rfc3339 (wl_expires_at lease)) as [e|]; [|left; by injection Ht as <- <-].
  destruct (bool_decide (e ≤ a)); [left; by injection Ht as <- <-|].
  destruct (match as_fault (dir_step d) with LockFault => true | _ => false end);
    [left; by injection Ht as <- <-|].
  destruct (0 <? rs_skipped_lines (read_stream d worker_leases))%nat eqn:Hsk; [left; by injection Ht as <- <-|].
  apply Nat.ltb_ge in Hsk.
  destruct (scan_candidates _ _ _) as [[[holder|] expired]|err] eqn:Hscan;
    [left; by injection Ht as <- <-| |left; by injection Ht as <- <-].
  apply scan_candidates_expired in Hscan as [-> Hall]. rewrite app_nil_l in Ht.
  right. split; [unfold lease_damaged; lia|].
  destruct (append_leases _ _) as [d1 r1] eqn:Hrows.
  destruct r1 as [[]|err].
  - destruct (append_locked _ _ _) as [d2 r2] eqn:Hlast. exists a, (live_candidates (wl_capability lease)
      (rs_events (read_stream d worker_leases))), d1, (Ok tt), r2.
    split_and!; [done|done|done|done|right]. destruct r2 as [[]|]; injection Ht as <- <-; done.
  - injection Ht as <- <-. eexists a, _, d1, (Err err), (Ok tt). split_and!; [done|done|done|done|by left].
Qed.

(** Only a release takes a standing lease down. *)
Lemma standing_acquire l0 lease d d' r :
  standing l0 d → ¬ releases l0 (Acquire lease) →
  try_acquire_worker_lease lease d = (d', r) → standing l0 d'.
Proof.
  intros Hst Hrel Ht. destruct (try_acquire_cases _ _ _ _ Ht)
    as [[Hf _]|(Hnd & a & expired & d1 & r1 & r2 & Ha & -> & Hall & Hrows & Hlast)].
  - destruct Hst as [Hw Hst]. unfold standing, lease_damaged, lease_view in *.
    by rewrite !read_stream_file, Hf in *.
  - assert (wl_lease_id lease ≠ wl_lease_id l0) as Hid by (intros ?; apply Hrel; by left).
    assert (standing l0 d1) as Hst1.
    { eapply standing_rows; [exact Hst| |exact Hrows]. apply Forall_map, Forall_forall. intros c Hc.
      simpl. intros Hcid. pose proof Hc as Hc'. apply live_candidates_elem in Hc' as (Hl & Hcap & Hlive).
      destruct Hst as [_ [?|(l & Hview & _ & Hcap0 & Hexp)]]; [done|].
      unfold lease_view in Hview. rewrite <- Hcid, Hl in Hview. injection Hview as <-.
      apply Hrel. right. exists lease. split_and!; [done|congruence|].
      eapply Forall_forall in Hall as (e & He & Hle); [|exact Hc]. exists e, a. by rewrite <- Hexp. }
    destruct Hlast as [[-> _]|[Hlast _]]; [done|]. by eapply standing_row.
Qed.

Lemma upsert_is_row l d d' r :
  upsert_worker_lease l d = (d', r) →
  append_locked worker_leases (lease_value l) d = (d', r) ∨ stream_file d' worker_leases = stream_file d worker_leases.
Proof.
  unfold upsert_worker_lease. destruct (append_record_locked worker_leases (lease_value l) d) as [Heq|(e & Heq)];
    unfold worker_leases in *; rewrite Heq; [by left|]. intros [= <- <-]. by right.
Qed.

Lemma standing_run l0 ops : ∀ d,
  standing l0 d → Forall (λ op, ¬ releases l0 op) ops → standing l0 (run_ops ops d).
Proof.
  induction ops as [|op ops IH]; intros d Hst Hrel; [done|]. apply Forall_cons_iff in Hrel as [Hr Hrel].
  simpl. apply IH; [|done]. destruct op as [l|l]; simpl.
  - destruct (try_acquire_worker_lease l d) as [d' r] eqn:Ht. by eapply standing_acquire.
  - destruct (upsert_worker_lease l d) as [d' r] eqn:Hu. simpl.
    destruct (upsert_is_row _ _ _ _ Hu) as [Ha|Hf].
    + eapply standing_row; [exact Hst| |exact Ha]. intros ?. apply Hr. by left.
    + destruct Hst as [Hw Hst]. unfold standing, lease_damaged, lease_view in *.
      by rewrite !read_stream_file, Hf in *.
Qed.

(** A granted lease stands. *)
Lemma granted_stands l0 d d' :
  stream_written (stream_file d worker_leases) →
  try_acquire_worker_lease l0 d = (d', Ok None) → standing l0 d'.
Proof.
  intros Hw Ht.
  assert (lease_live l0 = true) as Hlive.
  { unfold try_acquire_worker_lease in Ht. by destruct (lease_live l0). }
  destruct (try_acquire_cases _ _ _ _ Ht) as [[_ ?]|(_ & a & expired & d1 & r1 & r2 & _ & _ & _ & Hrows & Hlast)];
    [done|].
  destruct Hlast as [[_ ?]|[Hlast Hr]]; [done|]. specialize (Hr eq_refl). subst r2.
  assert (stream_written (stream_file d1 worker_leases)) as Hw1 by (by eapply rows_written).
  destruct (lease_append_effect _ _ _ _ Hw1 Hlast) as [Hw' Heff].
  split; [done|]. destruct Heff as [?|[_ [[? _]|Hv]]]; [by left|done|right].
  exists l0. by rewrite Hv, lookup_insert_eq.
Qed.

(** While a lease stands, its capability is granted only after its expiry. *)
Lemma standing_blocks l0 l d d' :
  standing l0 d → try_acquire_worker_lease l d = (d', Ok None) →
  wl_capability l = wl_capability l0 → expired_by l0 l.
Proof.
  intros [_ Hst] Ht Hcap.
  destruct (try_acquire_cases _ _ _ _ Ht) as [[_ ?]|(Hnd & a & expired & _ & _ & _ & Ha & -> & Hall & _)];
    [done|].
  destruct Hst as [?|(l' & Hview & Hlive & Hcap0 & Hexp)]; [done|].
  assert (l' ∈ live_candidates (wl_capability l) (rs_events (read_stream d worker_leases))) as Hin.
  { apply live_candidates_elem. split_and!; [|congruence|done].
    unfold lease_view in Hview. by rewrite (latest_leases_keys _ _ _ Hview). }
  eapply Forall_forall in Hall as (e & He & Hle); [|exact Hin]. exists e, a. by rewrite <- Hexp.
Qed.

(** C2.  A capability is leased to one worker at a time, across crashes.  On a
    lease stream this code wrote, torn or not, once an acquisition has granted
    [l0] nothing else is granted its capability, whatever acquisitions, updates
    of other leases and failing or partial writes come between, until its claim
    is ended: by a row of its own id, or by an acquisition at or after its
    expiry. *)
Theorem lease_exclusion (l0 l : PersistedWorkerLease) (ops : list LeaseOp) (d d1 d2 : EvidenceDir) :
  stream_written (stream_file d worker_leases) →
  try_acquire_worker_lease l0 d = (d1, Ok None) →
  try_acquire_worker_lease l (run_ops ops d1) = (d2, Ok None) →
  wl_capability l = wl_capability l0 →
  ∃ op, op ∈ ops ++ [Acquire l] ∧ releases l0 op.
Proof.
  intros Hw Hfirst Hsecond Hcap.
  destruct (decide (Exists (releases l0) (ops ++ [Acquire l]))) as [Hex|Hno]; [by apply Exists_exists in Hex|].
  exfalso. apply Forall_Exists_neg, Forall_app in Hno as [Hno [Hl _]%Forall_cons_iff].
  apply Hl. right. exists l. split_and!; [done|done|].
  eapply standing_blocks; [|exact Hsecond|done]. apply standing_run; [by eapply granted_stands|done].
Qed.
End exclusion.
