(* ===== verification/Compaction.v ===== *)
(** * Stream compaction (crates/heiwa_evidence/src/state.rs, compact_stream)

    Rewriting a keyed stream with only the newest line of each key, and why a
    last-write-wins view of it does not change. *)

From stdpp Require Import base gmap sets strings numbers list.
From Stdlib Require Import Ascii.
From S2P Require Import Prelude Utf8 Json Hex Envelope Framing OperatorEvent Sensitive EventLog.
From S2P Require Import OperatorJournal EvidenceRecords EvidenceStream.
#[local] Open Scope Z_scope.

Record CompactionReport : Type := mkCompaction {
  records_before : nat;
  records_after : nat;
  corrupt_lines_dropped : nat;
}.

(** A line and the value of its key field, if it has one. *)
Definition KeyedLine : Type := bytes * option string.

(** The index of the last line of each key. *)
Definition note_index (acc : gmap string nat * nat) (line : KeyedLine) : gmap string nat * nat :=
  let '(m, index) := acc in
  (match line.2 with Some key => <[key := index]> m | None => m end, S index).

Definition last_index_per_key (lines : list KeyedLine) : gmap string nat :=
  (foldl note_index (∅, 0%nat) lines).1.

(** Is the line at an index kept?  One without the key always is. *)
Definition keeps (last_index : gmap string nat) (index : nat) (line : KeyedLine) : bool :=
  match line.2 with
  | Some key => bool_decide (last_index !! key = Some index)
  | None => true
  end.

Fixpoint kept_lines (last_index : gmap string nat) (index : nat) (lines : list KeyedLine)
    : list KeyedLine :=
  match lines with
  | [] => []
  | line :: lines' =>
      (if keeps last_index index line then [line] else []) ++ kept_lines last_index (S index) lines'
  end.

Section compact.
Context `{JsonText}.

(** What compaction makes of one chunk: [None] when it is no JSON with a
    record. *)
Definition keyed_chunk (key_field : string) (chunk : bytes) : option KeyedLine :=
  value ← from_str_value (String.string_of_list_ascii chunk);
  record ← json_get "record" value;
  Some (chunk, json_get key_field record ≫= as_str).

(** The loop over the chunks of the file. *)
Fixpoint keyed_lines (key_field : string) (chunks : list bytes) (lines : list KeyedLine)
    (dropped : nat) : list KeyedLine * nat :=
  match chunks with
  | [] => (lines, dropped)
  | chunk :: chunks' =>
      if bool_decide (chunk = []) then keyed_lines key_field chunks' lines dropped
      else match keyed_chunk key_field chunk with
           | Some line => keyed_lines key_field chunks' (lines ++ [line]) dropped
           | None => keyed_lines key_field chunks' lines (S dropped)
           end
  end.

(** The rewritten file. *)
Definition compact_file (key_field : string) (raw : bytes) : bytes * CompactionReport :=
  let '(lines, dropped) := keyed_lines key_field (split_newline raw) [] 0 in
  let kept := kept_lines (last_index_per_key lines) 0 lines in
  (concat (map (λ line, line.1 ++ [newline]) kept), mkCompaction (length lines) (length kept) dropped).

(** [compact_stream]: the rewrite goes to a temporary file, which a rename swaps
    in whole; a fault leaves the stream as it was. *)
Definition compact_stream (kind key_field : string) (d : EvidenceDir)
    : EvidenceDir * result string CompactionReport :=
  match dir_streams d !! kind with
  | None => (d, Ok (mkCompaction 0 0 0))
  | Some raw =>
      match as_fault (dir_step d) with
      | LockFault => (dir_skip d, Err "stream lock")
      | WriteFault _ | SyncFault => (dir_skip d, Err "write failed")
      | NoFault => let '(file, report) := compact_file key_field raw in (dir_write d kind file, Ok report)
      end
  end.
End compact.

(** ** Keeping the last line of each key *)

Definition keys_of (lines : list KeyedLine) : list string := omap snd lines.

(** The lines no later line supersedes. *)
Fixpoint keep_last (lines : list KeyedLine) : list KeyedLine :=
  match lines with
  | [] => []
  | line :: lines' =>
      match line.2 with
      | Some key => if bool_decide (key ∈ keys_of lines') then keep_last lines' else line :: keep_last lines'
      | None => line :: keep_last lines'
      end
  end.

Lemma last_index_snoc lines line :
  last_index_per_key (lines ++ [line]) =
    match line.2 with
    | Some key => <[key := length lines]> (last_index_per_key lines)
    | None => last_index_per_key lines
    end.
Proof.
  unfold last_index_per_key. rewrite foldl_app. simpl.
  assert (∀ acc, (foldl note_index acc lines).2 = (acc.2 + length lines)%nat) as Hlen.
  { induction lines as [|l ls IH]; intros [m i]; simpl; [lia|]. rewrite IH. simpl. lia. }
  specialize (Hlen (∅, 0%nat)). destruct (foldl note_index _ lines) as [m i]. simpl in *. by subst i.
Qed.

Lemma last_index_spec lines : ∀ i line key,
  lines !! i = Some line → line.2 = Some key →
  last_index_per_key lines !! key = Some i ↔ key ∉ keys_of (drop (S i) lines).
Proof.
  induction lines as [|x lines IH] using rev_ind; intros i line key Hi Hk; [done|].
  rewrite last_index_snoc. destruct (decide (i < length lines)%nat) as [Hlt|Hge].
  - rewrite lookup_app_l in Hi by done. rewrite drop_app_le by lia. unfold keys_of. rewrite omap_app.
    specialize (IH i line key Hi Hk). unfold keys_of in IH. simpl.
    destruct x as [l [k|]]; simpl; [|by rewrite app_nil_r].
    destruct (decide (k = key)) as [->|Hne].
    + rewrite lookup_insert_eq, not_elem_of_app. split; [intros [= ?]; lia|]. intros [_ []]. by left.
    + rewrite lookup_insert_ne by done. rewrite IH, not_elem_of_app, list_elem_of_singleton. naive_solver.
  - assert (i = length lines) as -> by (apply lookup_lt_Some in Hi; rewrite length_app in Hi; simpl in Hi; lia).
    rewrite list_lookup_middle in Hi by done. injection Hi as ->. rewrite Hk, lookup_insert_eq.
    rewrite drop_ge by (rewrite length_app; simpl; lia). split; [intros _; apply not_elem_of_nil|done].
Qed.

Lemma kept_is_last lines : ∀ pre post,
  lines = pre ++ post → kept_lines (last_index_per_key lines) (length pre) post = keep_last post.
Proof.
  intros pre post. revert pre. induction post as [|line post IH]; intros pre Heq; [done|]. simpl.
  assert (kept_lines (last_index_per_key lines) (S (length pre)) post = keep_last post) as ->.
  { rewrite <- (IH (pre ++ [line])); [|by rewrite <- app_assoc]. rewrite length_app. simpl. f_equal. lia. }
  unfold keeps. destruct (line.2) as [key|] eqn:Hk; [|done].
  pose proof (last_index_spec lines (length pre) line key) as Hs.
  rewrite Heq, list_lookup_middle in Hs by done. specialize (Hs eq_refl Hk).
  rewrite drop_app_ge in Hs by lia.
  assert (drop (S (length pre) - length pre) (line :: post) = post) as Hd
    by (by replace (S (length pre) - length pre)%nat with 1%nat by lia).
  rewrite Hd, <- Heq in Hs.
  repeat case_bool_decide; try done; tauto.
Qed.

(** *** Keys after keeping *)

Lemma keep_last_keys lines key : key ∈ keys_of (keep_last lines) ↔ key ∈ keys_of lines.
Proof.
  induction lines as [|[l [k|]] lines IH]; simpl; [done| |exact IH].
  case_bool_decide; cbn [keys_of omap list_omap snd]; rewrite ?elem_of_cons; unfold keys_of in *; simpl;
    rewrite ?elem_of_cons, IH; naive_solver.
Qed.

Lemma keep_last_fixed lines : keep_last (keep_last lines) = keep_last lines.
Proof.
  induction lines as [|[l [k|]] lines IH]; simpl; [done| |by rewrite IH].
  case_bool_decide as Hk; [done|]. simpl. rewrite bool_decide_false by (by rewrite keep_last_keys).
  by rewrite IH.
Qed.

Lemma keep_last_length lines : (length (keep_last lines) ≤ length lines)%nat.
Proof. induction lines as [|[l [k|]] lines IH]; simpl; [lia|case_bool_decide; simpl; lia|lia]. Qed.

Lemma keep_last_elem line lines : line ∈ keep_last lines → line ∈ lines.
Proof.
  induction lines as [|[l [k|]] lines IH]; simpl; [done| |rewrite !elem_of_cons; naive_solver].
  case_bool_decide; rewrite ?elem_of_cons; naive_solver.
Qed.

(** *** Last write wins *)

Definition lww_insert {A} (m : gmap string A) (kv : string * A) : gmap string A := <[kv.1 := kv.2]> m.

Definition lww {A} (kvs : list (string * A)) : gmap string A := foldl lww_insert ∅ kvs.

Lemma lww_fold_agree {A} (kvs : list (string * A)) : ∀ m m' : gmap string A,
  (∀ k, k ∉ kvs.*1 → m !! k = m' !! k) → foldl lww_insert m kvs = foldl lww_insert m' kvs.
Proof.
  induction kvs as [|[k v] kvs IH]; intros m m' Hm; simpl.
  - apply map_eq. intros k. apply Hm, not_elem_of_nil.
  - apply IH. intros k' Hk'. unfold lww_insert. simpl. destruct (decide (k' = k)) as [->|Hne].
    + by rewrite !lookup_insert_eq.
    + rewrite !lookup_insert_ne by done. apply Hm. simpl. rewrite not_elem_of_cons. done.
Qed.

(** A line replay reads under the key compaction read. *)
Definition agrees {A} (read : bytes → option (string * A)) (line : KeyedLine) : Prop :=
  fst <$> read line.1 = line.2.

Lemma read_keys {A} (read : bytes → option (string * A)) lines :
  Forall (agrees read) lines → (omap (λ line, read line.1) lines).*1 = keys_of lines.
Proof.
  unfold keys_of, agrees. induction 1 as [|[l k] lines Hl _ IH]; simpl in *; [done|].
  destruct (read l) as [[k' v]|]; simpl in Hl; subst k; simpl; [f_equal; exact IH|exact IH].
Qed.

Lemma keep_last_lww {A} (read : bytes → option (string * A)) lines : ∀ m,
  Forall (agrees read) lines →
  foldl lww_insert m (omap (λ line, read line.1) (keep_last lines)) =
  foldl lww_insert m (omap (λ line, read line.1) lines).
Proof.
  induction lines as [|[l k] lines IH]; intros m Hl; [done|].
  apply Forall_cons_iff in Hl as [Ha Hl]. pose proof Ha as Ha'. unfold agrees in Ha'. simpl in *.
  destruct (read l) as [[k' v]|] eqn:Er; simpl in Ha'; subst k; simpl.
  - case_bool_decide as Hk; simpl; rewrite ?Er; simpl; rewrite IH by done; [|done].
    apply lww_fold_agree. intros k'' Hk''. rewrite read_keys in Hk'' by done.
    unfold lww_insert. simpl. rewrite lookup_insert_ne; [done|]. intros ->. done.
  - by rewrite Er, IH.
Qed.

Section preserved.
Context `{JsonTextLaws}.

Lemma keyed_chunk_nil key_field : keyed_chunk key_field [] = None.
Proof. unfold keyed_chunk, from_str_value. simpl. by rewrite parse_empty. Qed.

Lemma keyed_lines_spec key_field chunks : ∀ lines dropped,
  ∃ n, keyed_lines key_field chunks lines dropped = (lines ++ omap (keyed_chunk key_field) chunks, n) ∧
    (Forall (λ c, is_Some (keyed_chunk key_field c) ∨ c = []) chunks → n = dropped).
Proof.
  induction chunks as [|c chunks IH]; intros lines dropped; cbn [keyed_lines].
  - exists dropped. rewrite app_nil_r. done.
  - case_bool_decide as Hc; [subst c|destruct (keyed_chunk key_field c) as [line|] eqn:E].
    + destruct (IH lines dropped) as (n & -> & Hn). exists n. simpl. rewrite keyed_chunk_nil.
      split; [done|]. intros [_ Hall]%Forall_cons_iff. by apply Hn.
    + destruct (IH (lines ++ [line]) dropped) as (n & -> & Hn). exists n. simpl. rewrite E, <- app_assoc.
      split; [done|]. intros [_ Hall]%Forall_cons_iff. by apply Hn.
    + destruct (IH lines (S dropped)) as (n & -> & Hn). exists n. simpl. rewrite E. split; [done|].
      intros [[[? ?]|?] _]%Forall_cons_iff; congruence.
Qed.

Lemma keyed_chunk_line key_field c line : keyed_chunk key_field c = Some line → line.1 = c.
Proof.
  unfold keyed_chunk. intros Hk. apply bind_Some in Hk as (v & _ & Hk).
  apply bind_Some in Hk as (rec & _ & Hk). by injection Hk as <-.
Qed.

(** The lines of a file compaction works from. *)
Definition file_keyed (key_field : string) (raw : bytes) : list KeyedLine :=
  omap (keyed_chunk key_field) (split_newline raw).

Lemma file_keyed_elem key_field raw line :
  line ∈ file_keyed key_field raw → keyed_chunk key_field line.1 = Some line ∧ line_ok line.1.
Proof.
  unfold file_keyed. intros Hin. apply list_elem_of_omap in Hin as (c & Hc & Hk).
  rewrite (keyed_chunk_line _ _ _ Hk). split; [done|].
  unfold split_newline in Hc. destruct (frames_ok raw) as [Hls Ht].
  apply elem_of_app in Hc as [Hc|Hc]; [by eapply Forall_forall in Hls|by apply list_elem_of_singleton in Hc as ->].
Qed.

Lemma compact_file_eq key_field raw :
  ∃ n, compact_file key_field raw =
    (unframe (map fst (keep_last (file_keyed key_field raw))) [],
     mkCompaction (length (file_keyed key_field raw)) (length (keep_last (file_keyed key_field raw))) n) ∧
    (Forall (λ c, is_Some (keyed_chunk key_field c) ∨ c = []) (split_newline raw) → n = 0%nat).
Proof.
  unfold compact_file. destruct (keyed_lines_spec key_field (split_newline raw) [] 0) as (n & -> & Hn).
  exists n. fold (file_keyed key_field raw). rewrite app_nil_l.
  rewrite (kept_is_last _ [] (file_keyed key_field raw)) by done. split; [|exact Hn]. f_equal.
  unfold unframe, terminated. by rewrite app_nil_r, map_map.
Qed.

(** The chunks of a compacted file. *)
Lemma compacted_chunks key_field raw :
  split_newline (unframe (map fst (keep_last (file_keyed key_field raw))) []) =
    map fst (keep_last (file_keyed key_field raw)) ++ [[]].
Proof.
  unfold split_newline. rewrite frames_unframe; [done| |apply not_elem_of_nil].
  apply Forall_map, Forall_forall. intros line Hin. by eapply file_keyed_elem, keep_last_elem.
Qed.

Lemma compacted_keyed key_field raw :
  file_keyed key_field (unframe (map fst (keep_last (file_keyed key_field raw))) []) =
    keep_last (file_keyed key_field raw).
Proof.
  unfold file_keyed at 1. rewrite compacted_chunks, omap_app. simpl.
  rewrite keyed_chunk_nil, app_nil_r.
  assert (Forall (λ line, keyed_chunk key_field line.1 = Some line) (keep_last (file_keyed key_field raw))) as Hall.
  { apply Forall_forall. intros line Hin. by eapply file_keyed_elem, keep_last_elem. }
  induction Hall as [|line lines Hl _ IH]; simpl; [done|]. rewrite Hl. f_equal. exact IH.
Qed.

Lemma compact_compacted key_field raw :
  compact_file key_field (unframe (map fst (keep_last (file_keyed key_field raw))) []) =
    (unframe (map fst (keep_last (file_keyed key_field raw))) [],
     mkCompaction (length (keep_last (file_keyed key_field raw)))
       (length (keep_last (file_keyed key_field raw))) 0).
Proof.
  destruct (compact_file_eq key_field (unframe (map fst (keep_last (file_keyed key_field raw))) []))
    as (n & -> & Hn).
  rewrite compacted_keyed, keep_last_fixed. rewrite Hn; [done|].
  rewrite compacted_chunks. apply Forall_app. split; [|constructor; [by right|done]].
  apply Forall_map, Forall_forall. intros line Hin. left.
  exists line. by eapply file_keyed_elem, keep_last_elem.
Qed.

(** The entries a replay reads from chunks. *)
Lemma replay_entries {A} (dec : EvidenceEvent → option A) raw :
  omap dec (rs_events (read_stream_unlocked (Some raw))) =
    omap (λ c, parse_chunk c ≫= dec) (split_newline raw).
Proof.
  unfold read_stream_unlocked. rewrite read_chunks_spec. simpl.
  induction (split_newline raw) as [|c cs IH]; simpl; [done|].
  destruct (parse_chunk c) as [e|]; simpl; [|exact IH]. destruct (dec e); [f_equal|]; exact IH.
Qed.

(** Chunks compaction does not take are ones the view does not use. *)
Lemma unkeyed_unused {A} (read : bytes → option (string * A)) key_field chunks :
  Forall (λ c, fst <$> read c = keyed_chunk key_field c ≫= snd) chunks →
  omap read chunks = omap (λ line, read line.1) (omap (keyed_chunk key_field) chunks) ∧
  Forall (agrees read) (omap (keyed_chunk key_field) chunks).
Proof.
  induction 1 as [|c chunks Hc _ [IH1 IH2]]; simpl; [done|].
  destruct (keyed_chunk key_field c) as [line|] eqn:E; simpl in *.
  - pose proof (keyed_chunk_line _ _ _ E) as <-. split; [|by constructor].
    destruct (read line.1); [by f_equal|done].
  - destruct (read c); [done|]. done.
Qed.

Lemma compaction_view {A} (dec : EvidenceEvent → option (string * A)) key_field raw :
  Forall (λ c, fst <$> (parse_chunk c ≫= dec) = keyed_chunk key_field c ≫= snd) (split_newline raw) →
  lww (omap dec (rs_events (read_stream_unlocked (Some (compact_file key_field raw).1)))) =
    lww (omap dec (rs_events (read_stream_unlocked (Some raw)))).
Proof.
  intros Hall. destruct (compact_file_eq key_field raw) as (n & -> & _). cbn [fst].
  rewrite !replay_entries, compacted_chunks, omap_app. simpl. rewrite parse_chunk_nil. simpl.
  rewrite app_nil_r. destruct (unkeyed_unused _ _ _ Hall) as [-> Hag].
  fold (file_keyed key_field raw) in *. unfold lww. rewrite <- (keep_last_lww _ _ _ Hag). f_equal.
  induction (keep_last (file_keyed key_field raw)) as [|line lines IH]; simpl; [done|].
  destruct (parse_chunk line.1 ≫= dec); [f_equal|]; exact IH.
Qed.

(** C17.  Compaction is invisible to last-write-wins readers.  Where replay and
    compaction read each chunk of the stream under the same key, a compaction,
    completed or failed, leaves the latest value of every key as it was and
    touches no other stream; a completed one keeps at most what it read, and
    doing it again changes no byte and drops nothing; a failed one leaves every
    stream, the one it was to rewrite included, byte for byte as it was. *)
Theorem compaction_preserves_replay {A} (dec : EvidenceEvent → option (string * A))
    (kind key_field : string) (d d' : EvidenceDir) (r : result string CompactionReport) :
  Forall (λ c, fst <$> (parse_chunk c ≫= dec) = keyed_chunk key_field c ≫= snd)
    (split_newline (stream_file d kind)) →
  compact_stream kind key_field d = (d', r) →
  lww (omap dec (rs_events (read_stream d' kind))) = lww (omap dec (rs_events (read_stream d kind))) ∧
  (∀ k, k ≠ kind → dir_streams d' !! k = dir_streams d !! k) ∧
  (∀ report, r = Ok report →
     (records_after report ≤ records_before report)%nat ∧
     compact_file key_field (stream_file d' kind) =
       (stream_file d' kind, mkCompaction (records_after report) (records_after report) 0)) ∧
  (∀ e, r = Err e → dir_streams d' = dir_streams d).
Proof.
  intros Hall Hc. unfold compact_stream in Hc. unfold read_stream, stream_file in *.
  destruct (dir_streams d !! kind) as [raw|] eqn:Hraw.
  2: { injection Hc as <- <-. rewrite Hraw. split_and!; [done|done| |done]. intros report [= <-]. simpl.
       split; [lia|]. pose proof (compact_compacted key_field []) as Hcc. unfold file_keyed in Hcc.
       simpl in Hcc. by rewrite keyed_chunk_nil in Hcc. }
  assert (∀ e, (d', r) = (dir_skip d, Err e) → d' = dir_skip d ∧ ∀ report, r ≠ Ok report) as Hskip
    by (intros e [= -> ->]; done).
  destruct (as_fault (dir_step d)) eqn:Hfault; try
    (symmetry in Hc; apply Hskip in Hc as [-> Hr]; simpl; rewrite Hraw;
     split_and!; [done|done|intros report ->; by destruct (Hr report)|done]).
  destruct (compact_file key_field raw) as [file report] eqn:Hfile. injection Hc as <- <-. simpl.
  rewrite lookup_insert_eq. simpl.
  pose proof (compaction_view dec key_field raw Hall) as Hview. rewrite Hfile in Hview.
  destruct (compact_file_eq key_field raw) as (n & Heq & _). rewrite Hfile in Heq. injection Heq as -> ->.
  split_and!; [exact Hview|intros k Hk; by rewrite lookup_insert_ne| |done].
  intros report [= <-]. simpl. split; [apply keep_last_length|apply compact_compacted].
Qed.
End preserved.
