(* ===== verification/WorkerState.v ===== *)
(** * Worker state and restart recovery (crates/heiwa_evidence/src/state.rs)

    The read model over the worker streams, and the recovery that closes what a
    stopped runtime left in flight; then the proof that a recovery settles the
    view. *)

From stdpp Require Import base gmap sets strings numbers list.
From Stdlib Require Import Ascii.
From S2P Require Import Prelude Utf8 Json Hex Envelope Framing OperatorEvent Sensitive EventLog.
From S2P Require Import EvidenceRecords OperatorJournal JournalLog EvidenceStream WorkerLease Compaction.
#[local] Open Scope Z_scope.

Definition worker_sessions : string := "worker_sessions".
Definition session_closes : string := "session_closes".

(** ** The view *)

Record WorkerStateView : Type := mkView {
  wv_sessions : gmap string PersistedWorkerSession;
  wv_leases : gmap string PersistedWorkerLease;
  wv_skipped_lines : nat;
}.

(** The snapshots of the sessions with the time of each. *)
Definition session_entry (e : EvidenceEvent) : option (string * (PersistedWorkerSession * Z)) :=
  s ← decode_session (ev_record e); Some (ws_session_id s, (s, ev_at_ms e)).

Definition lease_entry (e : EvidenceEvent) : option (string * PersistedWorkerLease) :=
  l ← decode_lease (ev_record e); Some (wl_lease_id l, l).

(** The loop over one stream of snapshots: [HashMap::insert] of each record that
    decodes, the others counted. *)
Fixpoint fold_entries {A} (entry : EvidenceEvent → option (string * A)) (events : list EvidenceEvent)
    (m : gmap string A) (skipped : nat) : gmap string A * nat :=
  match events with
  | [] => (m, skipped)
  | e :: events' =>
      match entry e with
      | Some kv => fold_entries entry events' (lww_insert m kv) skipped
      | None => fold_entries entry events' m (S skipped)
      end
  end.

Definition closed_by_tombstone (s : PersistedWorkerSession) : PersistedWorkerSession :=
  mkSession (ws_session_id s) (ws_node_id s) (ws_instance_id s) (ws_runtime s) (ws_runtime_version s)
    (ws_worker_version s) (ws_protocol s) (ws_capabilities_json s) (ws_metadata_json s)
    (ws_max_concurrency s) (ws_active_tasks s) "closed" (ws_load s) (ws_created_at s) (ws_updated_at s)
    (ws_expires_at s) (ws_last_seen_at s)
    (match ws_closed_at s with None => Some (ws_last_seen_at s) | Some c => Some c end)
    (ws_current_task_id s) (ws_lease_id s).

(** The session a close is for. *)
Definition close_target (e : EvidenceEvent) : option string := json_get "session_id" (ev_record e) ≫= as_str.

(** The loop over the closes: one older than the session's last snapshot is
    passed over. *)
Fixpoint apply_closes (closes : list EvidenceEvent) (m : gmap string (PersistedWorkerSession * Z))
    (skipped : nat) : gmap string (PersistedWorkerSession * Z) * nat :=
  match closes with
  | [] => (m, skipped)
  | e :: closes' =>
      match close_target e with
      | None => apply_closes closes' m (S skipped)
      | Some id =>
          if bool_decide (ev_at_ms e < default 0 (snd <$> m !! id)) then apply_closes closes' m skipped
          else apply_closes closes' (alter (λ st, (closed_by_tombstone st.1, st.2)) id m) skipped
      end
  end.

Section state.
Context `{JsonText}.

(** [WorkerStateView::replay].  The two maps the code keeps of the sessions, the
    snapshots and their times, have the same keys and are one map here. *)
Definition replay_view (d : EvidenceDir) : WorkerStateView :=
  let sessions := read_stream d worker_sessions in
  let '(m, skipped) := fold_entries session_entry (rs_events sessions) ∅ (rs_skipped_lines sessions) in
  let leases := read_stream d worker_leases in
  let '(ls, skipped) := fold_entries lease_entry (rs_events leases) ∅ (skipped + rs_skipped_lines leases) in
  let closes := read_stream d session_closes in
  let '(m, skipped) := apply_closes (rs_events closes) m (skipped + rs_skipped_lines closes) in
  mkView (fst <$> m) ls skipped.
End state.

(** ** Recovery *)

Record RecoveryReport : Type := mkRecovery { sessions_closed : nat; leases_revoked : nat }.

Definition session_over (s : PersistedWorkerSession) : bool :=
  bool_decide (ws_status s = "closed" ∨ ws_status s = "expired").

(** The row a recovery at [now] writes for a session in flight, and for a live
    lease. *)
Definition close_row (now : string) (s : PersistedWorkerSession) : PersistedWorkerSession :=
  mkSession (ws_session_id s) (ws_node_id s) (ws_instance_id s) (ws_runtime s) (ws_runtime_version s)
    (ws_worker_version s) (ws_protocol s) (ws_capabilities_json s) (ws_metadata_json s)
    (ws_max_concurrency s) (ws_active_tasks s) "closed" (ws_load s) (ws_created_at s) now
    (ws_expires_at s) (ws_last_seen_at s) (Some now) (ws_current_task_id s) (ws_lease_id s).

Definition revoke_row (now : string) (l : PersistedWorkerLease) : PersistedWorkerLease :=
  mkLease (wl_lease_id l) (wl_task_id l) (wl_session_id l) (wl_node_id l) (wl_capability l) "revoked"
    (wl_issued_at l) now (wl_expires_at l) (wl_acked_at l) (Some now) (Some "RUNTIME_RESTART")
    (Some "runtime restarted before lease completion").

Section recovery.
Context `{JsonText, HashOrder}.

Fixpoint close_sessions (now : string) (sessions : list PersistedWorkerSession) (n : nat) (d : EvidenceDir)
    : EvidenceDir * result string nat :=
  match sessions with
  | [] => (d, Ok n)
  | s :: sessions' =>
      if session_over s then close_sessions now sessions' n d
      else match upsert_worker_session (close_row now s) d with
           | (d1, Err e) => (d1, Err e)
           | (d1, Ok _) =>
               match close_session (ws_session_id s) d1 with
               | (d2, Err e) => (d2, Err e)
               | (d2, Ok _) => close_sessions now sessions' (S n) d2
               end
           end
  end.

Fixpoint revoke_leases (now : string) (leases : list PersistedWorkerLease) (n : nat) (d : EvidenceDir)
    : EvidenceDir * result string nat :=
  match leases with
  | [] => (d, Ok n)
  | l :: leases' =>
      if lease_live l then
        match upsert_worker_lease (revoke_row now l) d with
        | (d1, Err e) => (d1, Err e)
        | (d1, Ok _) => revoke_leases now leases' (S n) d1
        end
      else revoke_leases now leases' n d
  end.

(** [recover_interrupted], at the time [now_iso] reads. *)
Definition recover_workers (now : string) (d : EvidenceDir) : EvidenceDir * result string RecoveryReport :=
  let view := replay_view d in
  match close_sessions now (hash_values (wv_sessions view)) 0 d with
  | (d1, Err e) => (d1, Err e)
  | (d1, Ok closed) =>
      match revoke_leases now (hash_values (wv_leases view)) 0 d1 with
      | (d2, Err e) => (d2, Err e)
      | (d2, Ok revoked) => (d2, Ok (mkRecovery closed revoked))
      end
  end.
End recovery.

(** ** Folds as maps *)

Lemma fold_entries_spec {A} (entry : EvidenceEvent → option (string * A)) events : ∀ m skipped,
  fold_entries entry events m skipped =
    (foldl lww_insert m (omap entry events), (skipped + length (filter (λ e, entry e = None) events))%nat).
Proof.
  induction events as [|e events IH]; intros m skipped; cbn [fold_entries].
  - rewrite filter_nil. simpl. by rewrite Nat.add_0_r.
  - rewrite filter_cons. simpl. destruct (entry e) as [kv|] eqn:E; rewrite IH.
    + by rewrite decide_False by congruence.
    + rewrite decide_True by done. simpl. f_equal. lia.
Qed.

Lemma insert_lease_lww es : ∀ m,
  foldl insert_lease m es = foldl lww_insert m (omap lease_entry es).
Proof.
  induction es as [|e es IH]; intros m; [done|]. simpl. unfold insert_lease at 2, lease_entry at 1.
  destruct (decode_lease (ev_record e)); apply IH.
Qed.

(** Would a close of this list be applied to a session last seen at [last]? *)
Definition closes_apply (closes : list EvidenceEvent) (id : string) (last : Z) : bool :=
  existsb (λ e, bool_decide (close_target e = Some id) && negb (bool_decide (ev_at_ms e < last))) closes.

Lemma tombstone_idem s : closed_by_tombstone (closed_by_tombstone s) = closed_by_tombstone s.
Proof. by destruct s as [? ? ? ? ? ? ? ? ? ? ? ? ? ? ? ? ? [?|] ? ?]. Qed.

Lemma apply_closes_lookup closes : ∀ m skipped id,
  (apply_closes closes m skipped).1 !! id =
    (λ st, (if closes_apply closes id st.2 then closed_by_tombstone st.1 else st.1, st.2)) <$> m !! id.
Proof.
  induction closes as [|e closes IH]; intros m skipped id; cbn [apply_closes].
  - unfold closes_apply. simpl. by destruct (m !! id) as [[s last]|].
  - unfold closes_apply in *. cbn [existsb]. destruct (close_target e) as [id'|] eqn:Et.
    + destruct (decide (id' = id)) as [->|Hne].
      * rewrite (bool_decide_true (Some id = Some id)) by done. cbn [andb].
        destruct (m !! id) as [[s last]|] eqn:Em; simpl.
        -- case_bool_decide as Ht; rewrite IH.
           ++ by rewrite Em.
           ++ rewrite lookup_alter_eq, Em. simpl. by destruct (existsb _ _); rewrite ?tombstone_idem.
        -- case_bool_decide; rewrite IH; [by rewrite Em|]. by rewrite lookup_alter_eq, Em.
      * rewrite (bool_decide_false (Some id' = Some id)) by congruence. cbn [andb orb].
        case_bool_decide; rewrite IH; [done|]. by rewrite lookup_alter_ne.
    + rewrite IH. by rewrite (bool_decide_false (None = Some id)) by done.
Qed.

Lemma apply_closes_skipped closes : ∀ m skipped,
  (apply_closes closes m skipped).2 = (skipped + length (filter (λ e, close_target e = None) closes))%nat.
Proof.
  induction closes as [|e closes IH]; intros m skipped; cbn [apply_closes].
  - rewrite filter_nil. simpl. lia.
  - rewrite filter_cons. destruct (close_target e) as [id|] eqn:Et.
    + rewrite decide_False by done. case_bool_decide; apply IH.
    + rewrite decide_True by done. rewrite IH. simpl. lia.
Qed.

(** ** Restart recovery settles the worker view

    On streams with no torn tail, a recovery that completes closes exactly the
    sessions and revokes exactly the leases that were in flight, and a second
    one finds nothing. *)

Section appends.
Context `{JsonTextLaws}.
Context {torn_laws : JsonTornLaws}.

(** A stream this code wrote that ends with its last newline. *)
Definition clean (d : EvidenceDir) (kind : string) : Prop :=
  ∃ ls, stream_file d kind = unframe ls [] ∧ Forall chunk_written ls.

(** Everything [d'] adds to [d] on one stream, and nothing else there. *)
Definition adds (d d' : EvidenceDir) (kind : string) (es : list EvidenceEvent) : Prop :=
  clean d' kind ∧
  read_stream d' kind =
    mkReplayed (rs_events (read_stream d kind) ++ es) (rs_skipped_lines (read_stream d kind)).

Definition untouched (d d' : EvidenceDir) (kinds : list string) : Prop :=
  ∀ k, k ∉ kinds → dir_streams d' !! k = dir_streams d !! k.

Lemma adds_nil d kind : clean d kind → adds d d kind [].
Proof. intros Hc. split; [done|]. rewrite app_nil_r. by destruct (read_stream d kind). Qed.

Lemma adds_app d d1 d2 kind es es' : adds d d1 kind es → adds d1 d2 kind es' → adds d d2 kind (es ++ es').
Proof. intros [_ H1] [Hc H2]. split; [done|]. rewrite H2, H1. simpl. by rewrite app_assoc. Qed.

Lemma untouched_adds d d' kinds kind : untouched d d' kinds → kind ∉ kinds → clean d kind → adds d d' kind [].
Proof.
  intros Hu Hk [ls [Hf Hls]]. split.
  - exists ls. unfold stream_file in *. by rewrite Hu.
  - unfold read_stream. rewrite Hu by done. rewrite app_nil_r. by destruct (read_stream_unlocked _).
Qed.

Lemma untouched_trans d d1 d2 kinds : untouched d d1 kinds → untouched d1 d2 kinds → untouched d d2 kinds.
Proof. intros Ha Hb k Hk. by rewrite Hb, Ha. Qed.

(** A successful append of a faithful record to a clean stream. *)
Lemma append_clean kind record d d' :
  clean d kind → (∀ at_ms, is_u64 at_ms → faithful kind at_ms record) →
  append_record kind record d = (d', Ok tt) →
  untouched d d' [kind] ∧ ∃ at_ms, adds d d' kind [mkEvidence EVIDENCE_SCHEMA_VERSION at_ms kind record].
Proof.
  intros (ls & Hf & Hls) Hfaith Ha. pose proof (append_record_shape _ _ _ _ _ Ha) as (_ & _ & Hother & Hshape).
  assert (line_ok []) as Hnil by apply not_elem_of_nil.
  rewrite Hf, frames_unframe in Hshape by (done || by apply chunks_written_ok).
  destruct Hshape as [_ Hok]. specialize (Hok eq_refl). rewrite app_nil_l in Hok.
  set (at_ms := now_ms (as_millis (dir_step d))) in *.
  split; [intros k Hk; apply Hother; set_solver|]. exists at_ms. split.
  - exists (ls ++ [envelope_text kind at_ms record]). split; [done|]. apply Forall_app. split; [done|].
    constructor; [|done]. apply (chunk_written_app [] _ chunk_written_nil), envelope_torn.
  - rewrite (read_stream_file d'), Hok, read_line_added by (done || apply Hfaith, now_ms_typed).
    rewrite (read_stream_file d), Hf, read_framed by (done || by apply chunks_written_ok). done.
Qed.

(** ** The rows a recovery writes *)

Definition close_record (id : string) : json := json_object [("session_id", JString id)].

Lemma close_record_faithful at_ms id : is_u64 at_ms → faithful session_closes at_ms (close_record id).
Proof.
  intros [Ha0 Ha1]. split; [|done]. apply parse_print. unfold json_exact. apply andb_true_iff.
  assert (record_envelope session_closes at_ms (close_record id) =
    JObject [("at_ms", JNumber (PosInt at_ms)); ("kind", JString session_closes);
             ("record", close_record id); ("v", JNumber (PosInt EVIDENCE_SCHEMA_VERSION))]) as ->
    by reflexivity.
  cbn [exact_numbers forallb snd fst]. rewrite !bool_decide_true by (unfold EVIDENCE_SCHEMA_VERSION, u64_max in *; lia).
  done.
Qed.

(** The sessions a recovery closes, and what it appends for each. *)
Definition in_flight (ss : list PersistedWorkerSession) : list PersistedWorkerSession :=
  filter (λ s, session_over s = false) ss.

Definition live_leases (ls : list PersistedWorkerLease) : list PersistedWorkerLease :=
  filter (λ l, lease_live l = true) ls.

Lemma close_sessions_effect now ss : ∀ n d d' n',
  clean d worker_sessions → clean d session_closes →
  Forall (λ s, ∀ at_ms, is_u64 at_ms → faithful worker_sessions at_ms (session_value (close_row now s)))
    (in_flight ss) →
  close_sessions now ss n d = (d', Ok n') →
  n' = (n + length (in_flight ss))%nat ∧ untouched d d' [worker_sessions; session_closes] ∧
  ∃ es cs, adds d d' worker_sessions es ∧ adds d d' session_closes cs ∧
    Forall2 (λ s e, ev_record e = session_value (close_row now s)) (in_flight ss) es ∧
    Forall2 (λ s e, ev_record e = close_record (ws_session_id s)) (in_flight ss) cs.
Proof.
  induction ss as [|s ss IH]; intros n d d' n' Hcs Hcc Hfaith Hrun; cbn [close_sessions] in Hrun.
  - injection Hrun as <- <-. unfold in_flight. rewrite filter_nil. simpl. split; [lia|]. split; [done|].
    exists [], []. split_and!; [by apply adds_nil..|constructor|constructor].
  - unfold in_flight in *. rewrite filter_cons in *. destruct (session_over s) eqn:Hover.
    { rewrite decide_False in * by done. by apply IH. }
    rewrite decide_True in * by done. apply Forall_cons_iff in Hfaith as [Hs Hfaith].
    destruct (upsert_worker_session _ _) as [d1 [[]|e]] eqn:H1; [|done].
    destruct (close_session _ _) as [d2 [[]|e]] eqn:H2; [|done].
    destruct (append_clean worker_sessions _ _ _ Hcs Hs H1) as [Hu1 [at1 Ha1]].
    assert (adds d d1 session_closes []) as Hc1 by (eapply untouched_adds; [exact Hu1|set_solver|done]).
    destruct (append_clean session_closes _ _ _ (proj1 Hc1)
                (λ a Ha, close_record_faithful a (ws_session_id s) Ha) H2) as [Hu2 [at2 Ha2]].
    assert (adds d1 d2 worker_sessions []) as Hs2
      by (eapply untouched_adds; [exact Hu2|set_solver|exact (proj1 Ha1)]).
    destruct (IH _ _ _ _ (proj1 Hs2) (proj1 Ha2) Hfaith Hrun) as (-> & Hu & es & cs & Hes & Hcs' & HF & HG).
    split; [simpl; lia|]. split.
    { intros k Hk. rewrite Hu, Hu2, Hu1 by set_solver. done. }
    eexists _, _. split; [exact (adds_app _ _ _ _ _ _ (adds_app _ _ _ _ _ _ Ha1 Hs2) Hes)|].
    split; [exact (adds_app _ _ _ _ _ _ (adds_app _ _ _ _ _ _ Hc1 Ha2) Hcs')|].
    split; simpl; by constructor.
Qed.

Lemma revoke_leases_effect now ls : ∀ n d d' n',
  clean d worker_leases → revoke_leases now ls n d = (d', Ok n') →
  n' = (n + length (live_leases ls))%nat ∧ untouched d d' [worker_leases] ∧
  ∃ es, adds d d' worker_leases es ∧
    Forall2 (λ l e, ev_record e = lease_value (revoke_row now l)) (live_leases ls) es.
Proof.
  induction ls as [|l ls IH]; intros n d d' n' Hc Hrun; cbn [revoke_leases] in Hrun.
  - injection Hrun as <- <-. unfold live_leases. rewrite filter_nil. simpl. split; [lia|]. split; [done|].
    exists []. split; [by apply adds_nil|constructor].
  - unfold live_leases in *. rewrite filter_cons. destruct (lease_live l) eqn:Hlive.
    2: { rewrite decide_False by done. by apply IH. }
    rewrite decide_True by done. destruct (upsert_worker_lease _ _) as [d1 [[]|e]] eqn:H1; [|done].
    destruct (append_clean worker_leases _ _ _ Hc
                (λ a Ha, lease_row_faithful a (revoke_row now l) Ha) H1) as [Hu1 [at1 Ha1]].
    destruct (IH _ _ _ _ (proj1 Ha1) Hrun) as (-> & Hu & es & Hes & HF).
    split; [simpl; lia|]. split; [by eapply untouched_trans|].
    eexists. split; [exact (adds_app _ _ _ _ _ _ Ha1 Hes)|]. simpl. by constructor.
Qed.
End appends.

(** ** The view as maps *)

Section view.
Context `{JsonTextLaws}.

Definition session_map (d : EvidenceDir) : gmap string (PersistedWorkerSession * Z) :=
  lww (omap session_entry (rs_events (read_stream d worker_sessions))).

Lemma view_sessions d id :
  wv_sessions (replay_view d) !! id =
    (λ st : PersistedWorkerSession * Z,
       if closes_apply (rs_events (read_stream d session_closes)) id st.2
       then closed_by_tombstone st.1 else st.1) <$> session_map d !! id.
Proof.
  unfold replay_view. rewrite !fold_entries_spec. fold (session_map d).
  destruct (apply_closes _ _ _) as [m sk] eqn:Hc. simpl.
  apply (f_equal fst) in Hc. simpl in Hc. rewrite <- Hc, lookup_fmap, apply_closes_lookup.
  change (foldl lww_insert ∅ _) with (session_map d). destruct (session_map d !! id) as [[s last]|]; reflexivity.
Qed.

Lemma view_leases d :
  wv_leases (replay_view d) = lww (omap lease_entry (rs_events (read_stream d worker_leases))).
Proof. unfold replay_view. rewrite !fold_entries_spec. by destruct (apply_closes _ _ _). Qed.

Definition unread {A} (entry : EvidenceEvent → option A) (stream : ReplayedStream) : nat :=
  rs_skipped_lines stream + length (filter (λ e, entry e = None) (rs_events stream)).

Lemma view_skipped d :
  wv_skipped_lines (replay_view d) =
    (unread session_entry (read_stream d worker_sessions) + unread lease_entry (read_stream d worker_leases) +
     unread close_target (read_stream d session_closes))%nat.
Proof.
  unfold replay_view. rewrite !fold_entries_spec. destruct (apply_closes _ _ _) as [m sk] eqn:Hc.
  apply (f_equal snd) in Hc. rewrite apply_closes_skipped in Hc. simpl in *. unfold unread. lia.
Qed.

Lemma unread_adds {A} (entry : EvidenceEvent → option A) d d' kind es :
  adds d d' kind es → Forall (λ e, is_Some (entry e)) es →
  unread entry (read_stream d' kind) = unread entry (read_stream d kind).
Proof.
  intros [_ Hr] Hes. unfold unread. rewrite Hr. simpl. rewrite filter_app, length_app.
  assert (filter (λ e, entry e = None) es = []) as ->; [|simpl; lia].
  clear Hr. induction Hes as [|e es [v Hv] _ IH]; [done|]. rewrite filter_cons, decide_False by congruence. exact IH.
Qed.

(** Rows with distinct keys written over a map. *)
Lemma rows_lookup {S A} (id : S → string) (row : S → A → Prop) ss kvs :
  Forall2 (λ s kv, kv.1 = id s ∧ row s kv.2) ss kvs → NoDup (map id ss) →
  (∀ s, s ∈ ss → ∃ v, row s v ∧ ∀ m, foldl lww_insert m kvs !! id s = Some v) ∧
  (∀ k m, k ∉ map id ss → foldl lww_insert m kvs !! k = m !! k).
Proof.
  induction 1 as [|s [k v] ss kvs [Hk Hv] _ IH]; simpl in *.
  - intros _. split; [intros s Hs; by apply elem_of_nil in Hs|done].
  - intros [Hnin Hnd]%NoDup_cons. destruct (IH Hnd) as [Hin Hout]. subst k. split.
    + intros s' [->|Hs']%elem_of_cons; [|by destruct (Hin s' Hs') as (v' & ? & ?); eauto].
      exists v. split; [done|]. intros m. rewrite Hout by done. unfold lww_insert. apply lookup_insert_eq.
    + intros k m Hk. rewrite not_elem_of_cons in Hk. destruct Hk as [Hne Hk]. rewrite Hout by done.
      unfold lww_insert. by rewrite lookup_insert_ne.
Qed.

Lemma session_entries now live es :
  Forall session_typed live →
  Forall2 (λ s e, ev_record e = session_value (close_row now s)) live es →
  Forall2 (λ s kv, kv.1 = ws_session_id s ∧ kv.2.1 = close_row now s) live (omap session_entry es) ∧
  Forall (λ e, is_Some (session_entry e)) es.
Proof.
  intros Ht HF. induction HF as [|s e live es He _ IH]; simpl; [by split; constructor|].
  apply Forall_cons_iff in Ht as [[Ha Hc Hl] Ht]. destruct (IH Ht) as [IH1 IH2].
  assert (session_entry e = Some (ws_session_id s, (close_row now s, ev_at_ms e))) as Hen.
  { unfold session_entry. rewrite He, decode_session_value; [done|by split]. }
  rewrite Hen. split; (constructor; [first [split; reflexivity|rewrite Hen; by eexists]|assumption]).
Qed.

Lemma lease_entries now live es :
  Forall2 (λ l e, ev_record e = lease_value (revoke_row now l)) live es →
  Forall2 (λ l kv, kv.1 = wl_lease_id l ∧ kv.2 = revoke_row now l) live (omap lease_entry es) ∧
  Forall (λ e, is_Some (lease_entry e)) es.
Proof.
  induction 1 as [|l e live es He _ [IH1 IH2]]; simpl; [by split; constructor|].
  assert (lease_entry e = Some (wl_lease_id l, revoke_row now l)) as Hen.
  { unfold lease_entry. by rewrite He, decode_lease_value. }
  rewrite Hen. split; (constructor; [first [split; reflexivity|rewrite Hen; by eexists]|assumption]).
Qed.

(** Closes of other sessions. *)
Lemma closes_apply_app closes cs id last :
  closes_apply (closes ++ cs) id last = closes_apply closes id last || closes_apply cs id last.
Proof. apply existsb_app. Qed.

Lemma closes_targets live cs :
  Forall2 (λ s e, ev_record e = close_record (ws_session_id s)) live cs →
  Forall (λ e, is_Some (close_target e)) cs ∧
  ∀ id last, id ∉ map ws_session_id live → closes_apply cs id last = false.
Proof.
  induction 1 as [|s e live cs He _ [IH1 IH2]]; [by split; [constructor|]|].
  assert (close_target e = Some (ws_session_id s)) as Ht by (unfold close_target; by rewrite He).
  split; [constructor; [by eexists|done]|].
  intros id last Hid. simpl in Hid. rewrite not_elem_of_cons in Hid. destruct Hid as [Hne Hid].
  unfold closes_apply in *. simpl. rewrite Ht, bool_decide_false by congruence. by apply IH2.
Qed.

(** ** Settling *)

Definition settle_session (now : string) (s : PersistedWorkerSession) : PersistedWorkerSession :=
  if session_over s then s else close_row now s.

Definition settle_lease (now : string) (l : PersistedWorkerLease) : PersistedWorkerLease :=
  if lease_live l then revoke_row now l else l.

Lemma settled_over now s : session_over (settle_session now s) = true.
Proof. unfold settle_session. by destruct (session_over s) eqn:E. Qed.

Lemma settled_dead now l : lease_live (settle_lease now l) = false.
Proof. unfold settle_lease. by destruct (lease_live l) eqn:E. Qed.

Lemma view_session_id d k s : wv_sessions (replay_view d) !! k = Some s → ws_session_id s = k.
Proof.
  rewrite view_sessions. intros ([s0 last] & Hm & ->)%fmap_Some.
  assert (ws_session_id s0 = k) as Hk; [|by destruct (closes_apply _ _ _)].
  revert Hm. unfold session_map, lww.
  assert (∀ m, (∀ s last, m !! k = Some (s, last) → ws_session_id s = k) →
    foldl lww_insert m (omap session_entry (rs_events (read_stream d worker_sessions))) !! k = Some (s0, last) →
    ws_session_id s0 = k) as Hg; [|by apply Hg].
  induction (rs_events (read_stream d worker_sessions)) as [|e es IH]; intros m Hm; simpl; [apply Hm|].
  unfold session_entry at 1. destruct (decode_session (ev_record e)) as [s1|]; simpl; [|by apply IH].
  apply IH. unfold lww_insert. simpl. intros s last'. rewrite lookup_insert_Some.
  intros [[Hk [= -> _]]|[_ Hl]]; [done|by eapply Hm].
Qed.
End view.

Section settling.
Context `{JsonTextLaws, HashOrder}.
Context {torn_laws : JsonTornLaws}.

(** The keys of the rows a recovery writes are distinct. *)
Lemma values_keys {A} (id : A → string) (P : A → Prop) `{∀ a, Decision (P a)} (m : gmap string A) :
  (∀ k a, m !! k = Some a → id a = k) →
  NoDup (map id (filter P (hash_values m))) ∧
  ∀ a, a ∈ filter P (hash_values m) ↔ m !! id a = Some a ∧ P a.
Proof.
  intros Hid.
  assert (∀ a, a ∈ hash_values m ↔ m !! id a = Some a) as Hin.
  { intros a. rewrite hash_values_perm, list_elem_of_fmap. split.
    - intros ([k a'] & -> & Hel%elem_of_map_to_list). simpl. by rewrite (Hid _ _ Hel).
    - intros Hm. exists (id a, a). split; [done|]. by apply elem_of_map_to_list. }
  split; [|intros a; rewrite list_elem_of_filter, Hin; tauto].
  assert (NoDup (map id (hash_values m))) as Hnd.
  { assert (map id (hash_values m) ≡ₚ (map_to_list m).*1) as ->; [|apply NoDup_fst_map_to_list].
    change (map id ?l) with (id <$> l). rewrite hash_values_perm, <- list_fmap_compose.
    assert (∀ k a, (k, a) ∈ map_to_list m → id a = k) as Hk by
      (intros k a Hel%elem_of_map_to_list; by apply Hid).
    induction (map_to_list m) as [|[k a] l IH]; simpl; [done|]. rewrite (Hk k a) by (by left).
    rewrite IH; [done|]. intros k' a' Hel. apply Hk. by right. }
  eapply sublist_NoDup; [exact Hnd|]. change (map id ?l) with (id <$> l).
  by apply fmap_sublist, sublist_filter.
Qed.

Lemma sessions_settled now d d' live es cs :
  live = in_flight (hash_values (wv_sessions (replay_view d))) → Forall session_typed live →
  adds d d' worker_sessions es → adds d d' session_closes cs →
  Forall2 (λ s e, ev_record e = session_value (close_row now s)) live es →
  Forall2 (λ s e, ev_record e = close_record (ws_session_id s)) live cs →
  wv_sessions (replay_view d') = settle_session now <$> wv_sessions (replay_view d).
Proof.
  intros Hlive Ht [_ Hes] [_ Hcs] HF HG. apply map_eq. intros k. rewrite lookup_fmap.
  destruct (session_entries now live es Ht HF) as [Hrows _]. destruct (closes_targets live cs HG) as [_ Hother].
  destruct (values_keys ws_session_id (λ s, session_over s = false) (wv_sessions (replay_view d)))
    as [Hnd Hin]; [intros k' a; apply view_session_id|].
  fold (in_flight (hash_values (wv_sessions (replay_view d)))) in Hnd, Hin. rewrite <- Hlive in Hnd, Hin.
  destruct (rows_lookup ws_session_id (λ s v, v.1 = close_row now s) _ _ Hrows Hnd) as [Hl Hn].
  assert (session_map d' = foldl lww_insert (session_map d) (omap session_entry es)) as Hmap.
  { unfold session_map. rewrite Hes. unfold lww. simpl. by rewrite omap_app, foldl_app. }
  destruct (decide (k ∈ map ws_session_id live)) as [Hk|Hk].
  - apply list_elem_of_fmap in Hk as (s & -> & Hs). destruct (Hl s Hs) as ([s' last] & Hv & Hlook).
    simpl in Hv. subst s'. apply Hin in Hs as [Hview Hover].
    rewrite view_sessions, Hmap, Hlook, Hview. simpl. unfold settle_session. rewrite Hover.
    by destruct (closes_apply _ _ _).
  - assert (∀ s, wv_sessions (replay_view d) !! k = Some s → settle_session now s = s) as Hsame.
    { intros s Hs. unfold settle_session. destruct (session_over s) eqn:Hover; [done|]. exfalso. apply Hk.
      pose proof (view_session_id _ _ _ Hs) as <-. apply list_elem_of_fmap. exists s. split; [done|].
      by apply Hin. }
    assert (wv_sessions (replay_view d') !! k = wv_sessions (replay_view d) !! k) as ->.
    { rewrite !view_sessions, Hmap, Hn by done. destruct (session_map d !! k) as [[s last]|]; [|done].
      simpl. rewrite Hcs. cbn [rs_events].
      by rewrite closes_apply_app, (Hother k last Hk), orb_false_r. }
    destruct (wv_sessions (replay_view d) !! k) as [s|]; [|done]. simpl. by rewrite Hsame.
Qed.

Lemma leases_settled now d d' live es :
  live = live_leases (hash_values (wv_leases (replay_view d))) →
  adds d d' worker_leases es →
  Forall2 (λ l e, ev_record e = lease_value (revoke_row now l)) live es →
  wv_leases (replay_view d') = settle_lease now <$> wv_leases (replay_view d).
Proof.
  intros Hlive [_ Hes] HF. apply map_eq. intros k. rewrite lookup_fmap.
  assert (∀ k l, wv_leases (replay_view d) !! k = Some l → wl_lease_id l = k) as Hid.
  { intros k' l Hl. rewrite view_leases in Hl. unfold lww in Hl. rewrite <- insert_lease_lww in Hl.
    by apply latest_leases_keys in Hl. }
  destruct (lease_entries now live es HF) as [Hrows _].
  destruct (values_keys wl_lease_id (λ l, lease_live l = true) (wv_leases (replay_view d)) Hid) as [Hnd Hin].
  fold (live_leases (hash_values (wv_leases (replay_view d)))) in Hnd, Hin. rewrite <- Hlive in Hnd, Hin.
  destruct (rows_lookup wl_lease_id (λ l v, v = revoke_row now l) _ _ Hrows Hnd) as [Hl Hn].
  assert (wv_leases (replay_view d') = foldl lww_insert (wv_leases (replay_view d)) (omap lease_entry es)) as Hmap.
  { rewrite !view_leases, Hes. unfold lww. simpl. by rewrite omap_app, foldl_app. }
  rewrite Hmap. destruct (decide (k ∈ map wl_lease_id live)) as [Hk|Hk].
  - apply list_elem_of_fmap in Hk as (l & -> & Hs). destruct (Hl l Hs) as (v & -> & Hlook).
    apply Hin in Hs as [Hview Hlv]. rewrite Hlook, Hview. simpl. unfold settle_lease. by rewrite Hlv.
  - rewrite Hn by done. destruct (wv_leases (replay_view d) !! k) as [l|] eqn:Hview; [|done]. simpl.
    unfold settle_lease. destruct (lease_live l) eqn:Hlv; [|done]. exfalso. apply Hk.
    pose proof (Hid _ _ Hview) as <-. apply list_elem_of_fmap. exists l. split; [done|]. by apply Hin.
Qed.

(** A view at rest is left alone. *)
Lemma close_sessions_rest now ss n d :
  Forall (λ s, session_over s = true) ss → close_sessions now ss n d = (d, Ok n).
Proof. induction 1 as [|s ss Hs _ IH]; simpl; [done|]. by rewrite Hs. Qed.

Lemma revoke_leases_rest now ls n d :
  Forall (λ l, lease_live l = false) ls → revoke_leases now ls n d = (d, Ok n).
Proof. induction 1 as [|l ls Hl _ IH]; simpl; [done|]. by rewrite Hl. Qed.

Lemma values_settled {A} (P : A → Prop) (m : gmap string A) :
  (∀ k a, m !! k = Some a → P a) → Forall P (hash_values m).
Proof.
  intros Hm. rewrite hash_values_perm. apply Forall_forall. intros a Ha.
  apply list_elem_of_fmap in Ha as ([k a'] & -> & Hel%elem_of_map_to_list). by eapply Hm.
Qed.

Lemma recover_at_rest now d :
  (∀ k s, wv_sessions (replay_view d) !! k = Some s → session_over s = true) →
  (∀ k l, wv_leases (replay_view d) !! k = Some l → lease_live l = false) →
  recover_workers now d = (d, Ok (mkRecovery 0 0)).
Proof.
  intros Hs Hl. unfold recover_workers.
  rewrite close_sessions_rest, revoke_leases_rest by (by apply values_settled). done.
Qed.

(** C7.  Recovery settles the worker state, once.  On worker streams that end
    with their last newline (no torn tail: one loses the row written after it),
    and where the numbers of the sessions in flight fit their widths and the
    closing rows, printed, parse back to themselves, a
    recovery that completes closes every session and
    revokes every lease that was in flight, changes no other session or lease
    and no other stream, loses no record, and reports the numbers it closed; and
    a second recovery, at any later time, finds nothing and writes nothing. *)
Theorem recovery_settles (now : string) (d d' : EvidenceDir) (report : RecoveryReport) :
  clean d worker_sessions → clean d worker_leases → clean d session_closes →
  Forall (λ s, session_typed s ∧
     ∀ at_ms, is_u64 at_ms → faithful worker_sessions at_ms (session_value (close_row now s)))
    (in_flight (hash_values (wv_sessions (replay_view d)))) →
  recover_workers now d = (d', Ok report) →
  wv_sessions (replay_view d') = settle_session now <$> wv_sessions (replay_view d) ∧
  wv_leases (replay_view d') = settle_lease now <$> wv_leases (replay_view d) ∧
  wv_skipped_lines (replay_view d') = wv_skipped_lines (replay_view d) ∧
  untouched d d' [worker_sessions; session_closes; worker_leases] ∧
  sessions_closed report = length (in_flight (hash_values (wv_sessions (replay_view d)))) ∧
  leases_revoked report = length (live_leases (hash_values (wv_leases (replay_view d)))) ∧
  ∀ later, recover_workers later d' = (d', Ok (mkRecovery 0 0)).
Proof.
  intros Hcs Hcl Hcc Hss Hrec. apply Forall_and in Hss as [Htyped Hfaith]. unfold recover_workers in Hrec.
  destruct (close_sessions _ _ _ _) as [d1 [n|e]] eqn:Hrun1; [|done].
  destruct (revoke_leases _ _ _ _) as [d2 [n2|e]] eqn:Hrun2; [|done]. injection Hrec as <- <-.
  destruct (close_sessions_effect _ _ _ _ _ _ Hcs Hcc Hfaith Hrun1) as (-> & Hu1 & es & cs & Hes & Hts & HF & HG).
  assert (adds d d1 worker_leases []) as Hl1 by (eapply untouched_adds; [exact Hu1|set_solver|done]).
  destruct (revoke_leases_effect _ _ _ _ _ _ (proj1 Hl1) Hrun2) as (-> & Hu2 & ls & Hls & HL).
  assert (adds d d2 worker_sessions es) as Hs2.
  { rewrite <- (app_nil_r es). eapply adds_app; [exact Hes|].
    eapply untouched_adds; [exact Hu2|set_solver|exact (proj1 Hes)]. }
  assert (adds d d2 session_closes cs) as Hc2.
  { rewrite <- (app_nil_r cs). eapply adds_app; [exact Hts|].
    eapply untouched_adds; [exact Hu2|set_solver|exact (proj1 Hts)]. }
  assert (adds d d2 worker_leases ls) as Hl2 by exact (adds_app _ _ _ _ _ _ Hl1 Hls).
  assert (wv_sessions (replay_view d2) = settle_session now <$> wv_sessions (replay_view d)) as Hsess
    by (by eapply sessions_settled).
  assert (wv_leases (replay_view d2) = settle_lease now <$> wv_leases (replay_view d)) as Hleases
    by (by eapply leases_settled).
  split_and!; [done|done| | |done|done|].
  - rewrite !view_skipped. destruct (session_entries _ _ _ Htyped HF) as [_ Hu].
    destruct (lease_entries _ _ _ HL) as [_ Hv]. destruct (closes_targets _ _ HG) as [Hw _].
    by rewrite (unread_adds _ _ _ _ _ Hs2 Hu), (unread_adds _ _ _ _ _ Hl2 Hv), (unread_adds _ _ _ _ _ Hc2 Hw).
  - intros k Hk. rewrite Hu2, Hu1 by set_solver. done.
  - intros later. apply recover_at_rest; intros k x; rewrite ?Hsess, ?Hleases, lookup_fmap;
      intros (y & _ & ->)%fmap_Some; [apply settled_over|apply settled_dead].
Qed.
End settling.
