(* ===== verification/Session.v ===== *)
(** * The operator session service (crates/heiwa_session/src/operator.rs)

    [OperatorSessionService] over any event log: incremental materialization,
    turn submission, thread and project metadata, event append, paged replay and
    restart recovery.  A service operation is a function of the service's state;
    what the operating system supplies (event ids, the clock, whether the locks
    were obtained) is in [Env]. *)

From stdpp Require Import base gmap sets strings numbers sorting list.
From Stdlib Require Import Ascii.
From S2P Require Import Prelude Json Hex Envelope OperatorEvent RoutePolicy Sensitive Turns EventLog.
#[local] Open Scope Z_scope.

(** ** Errors *)

Inductive SessionError : Type :=
| LockFailed (error : string)
| LineageChanged
| SyncFailed (e : CursorError)
| SyncOutOfFuel
| AppendFailed (error : string)
| InvalidMetadata
| InvalidMetadataIdentifier
| EmptyMetadataUpdate
| UnknownProject (project_id : string)
| UnknownThread (thread_id : string)
| UnknownTurnInThread (turn_id thread_id : string)
| EventRejected (r : Rejection)
| ValidationPanicked
| PlanFailed (error : string).

Inductive TurnSubmissionError : Type :=
| IdempotencyConflict (turn_id : string) (reason : string)
| SensitiveMaterial (context : string)
| InvalidWorkScope (work_id thread_id : string)
| Runtime (e : SessionError).

(** ** Environment and state *)

(** What one operation is given: the ids [Uuid::new_v4] draws in turn, the time
    [now_iso] reads, and the outcome of taking the locks. *)
Record Env : Type := mkEnv {
  env_ids : nat → string;
  env_now : string;
  env_locks : result string unit;
}.

(** [Uuid::new_v5] of the uuid crate. *)
Class UuidV5 : Type := { uuid_v5 : bytes → bytes → string }.

Record Service (L : Type) : Type := mkService {
  sv_journal : L;
  sv_projection : MaterializedJournal;
}.
Arguments mkService {L} _ _.
Arguments sv_journal {L} _.
Arguments sv_projection {L} _.

(** ** Materialization *)

Definition set_cursor (c : option string) (j : MaterializedJournal) : MaterializedJournal :=
  mkJournal (mj_threads j) (mj_projects j) (mj_work_threads j) (mj_unsupported_schema_events j)
    (mj_rejected_current_schema_events j) (mj_seen_event_ids j) c (mj_order j)
    (mj_committed_skipped_lines j) (mj_tail_skipped_lines j) (mj_applied_event_rows j).

Definition set_skipped (committed tail : Z) (j : MaterializedJournal) : MaterializedJournal :=
  mkJournal (mj_threads j) (mj_projects j) (mj_work_threads j) (mj_unsupported_schema_events j)
    (mj_rejected_current_schema_events j) (mj_seen_event_ids j) (mj_cursor j) (mj_order j)
    committed tail (mj_applied_event_rows j).

(** [MaterializedJournal::skipped_lines]. *)
Definition skipped_lines (j : MaterializedJournal) : Z :=
  saturating_add u64_max (mj_committed_skipped_lines j) (mj_tail_skipped_lines j).

(** The rows of a page with the admission each gets. *)
Fixpoint observe_rows (j : MaterializedJournal) (rows : list CursorEvent)
    : list (CursorEvent * EventAdmission) :=
  match rows with
  | [] => []
  | row :: rows' => (row, (apply_row j row).2) :: observe_rows (apply_row j row).1 rows'
  end.

Definition PAGE_SIZE : nat := 256.

Section service.
Context `{EventLog L}.

(** The probe of a short page: the damaged lines after its last event, when
    that event is the last of the stream. *)
Definition probe_tail (journal : L) (page : OperatorPage) : result CursorError (option Z) :=
  if (length (op_events page) <? PAGE_SIZE)%nat then
    probe ← log_read_after journal (op_next_cursor page) 1;
    match op_events probe with
    | [] => Ok (Some (op_skipped_lines probe))
    | _ => Ok None
    end
  else Ok None.

(** A page folded into the projection. *)
Definition apply_page (j : MaterializedJournal) (page : OperatorPage) (stable_tail : option Z)
    : MaterializedJournal :=
  let trailing := default 0 stable_tail in
  let j := set_skipped
             (saturating_add u64_max (mj_committed_skipped_lines j)
                (saturating_sub (op_skipped_lines page) trailing)) trailing j in
  set_cursor (op_next_cursor page) (replay j (op_events page)).

(** [sync_materialized_observing]: the projection as far as it got, the rows
    reported to the observer, and the result.  Each round reads a page, so
    [fuel] bounds the number of pages. *)
Fixpoint sync_materialized_observing (fuel : nat) (journal : L) (rebuild_on_reset : bool)
    (j : MaterializedJournal)
    : MaterializedJournal * list (CursorEvent * EventAdmission) * result SessionError unit :=
  match fuel with
  | O => (j, [], Err SyncOutOfFuel)
  | S fuel' =>
      match log_read_after journal (mj_cursor j) PAGE_SIZE with
      | Err (InvalidCursor reason) =>
          if bool_decide (is_Some (mj_cursor j)) then
            if rebuild_on_reset
            then sync_materialized_observing fuel' journal rebuild_on_reset default_journal
            else (j, [], Err LineageChanged)
          else (j, [], Err (SyncFailed (InvalidCursor reason)))
      | Err e => (j, [], Err (SyncFailed e))
      | Ok page =>
          match op_events page with
          | [] => (set_skipped (mj_committed_skipped_lines j) (op_skipped_lines page) j, [], Ok tt)
          | _ =>
              match probe_tail journal page with
              | Err e => (j, [], Err (SyncFailed e))
              | Ok stable_tail =>
                  let j' := apply_page j page stable_tail in
                  let seen := observe_rows j (op_events page) in
                  match stable_tail with
                  | Some _ => (j', seen, Ok tt)
                  | None =>
                      let '(j'', seen', r) :=
                        sync_materialized_observing fuel' journal rebuild_on_reset j' in
                      (j'', seen ++ seen', r)
                  end
              end
          end
      end
  end.

Definition sync_materialized (fuel : nat) (journal : L) (j : MaterializedJournal)
    : MaterializedJournal * result SessionError unit :=
  let '(j', _, r) := sync_materialized_observing fuel journal true j in (j', r).

(** ** Operations as state transformers *)

Definition op (E A : Type) : Type := Service L → Service L * result E A.

Definition ret {E A} (a : A) : op E A := λ s, (s, Ok a).
Definition fail {E A} (e : E) : op E A := λ s, (s, Err e).
Definition bind {E A B} (m : op E A) (k : A → op E B) : op E B := λ s,
  match m s with
  | (s', Ok a) => k a s'
  | (s', Err e) => (s', Err e)
  end.
Definition lift {E A} (r : result E A) : op E A := λ s, (s, r).
Definition as_runtime {A} (m : op SessionError A) : op TurnSubmissionError A := λ s,
  let '(s', r) := m s in (s', map_err Runtime r).

(** [lock_writer_transaction]. *)
Definition lock_writer_transaction (env : Env) : op SessionError unit :=
  lift (map_err LockFailed (env_locks env)).

(** [materialized]. *)
Definition materialized (fuel : nat) : op SessionError MaterializedJournal := λ s,
  let '(j, r) := sync_materialized fuel (sv_journal s) (sv_projection s) in
  (mkService (sv_journal s) j, match r with Ok _ => Ok j | Err e => Err e end).

(** [self.journal.append(&event)?]. *)
Definition append (event : OperatorEvent) : op SessionError CursorEvent := λ s,
  let '(l, r) := log_append (sv_journal s) event in
  (mkService l (sv_projection s), map_err AppendFailed r).
End service.

Notation "x <- m ;; k" := (bind m (λ x, k)) (at level 100, m at next level, right associativity).
Notation "m ;;; k" := (bind m (λ _, k)) (at level 100, right associativity).

(** ** Event construction *)

Definition operator_actor : OperatorActor := mkActor "operator" "local-operator".
Definition runtime_actor : OperatorActor := mkActor "runtime" "heiwa-core".
Definition recovery_actor : OperatorActor := mkActor "runtime" "operator-session-recovery".

(** [new_event], with the id it draws. *)
Definition new_event (id thread : string) (turn call : option string) (ty : OperatorEventType)
    (at_ : string) (act : OperatorActor) (p : json) : OperatorEvent :=
  mkEvent OPERATOR_EVENT_SCHEMA_VERSION id thread turn None call None ty at_ act RiskLow
    LocalPrivate None None [] [] p.

Definition with_work_id (w : option string) (e : OperatorEvent) : OperatorEvent :=
  mkEvent (schema_version e) (event_id e) (thread_id e) (turn_id e) (run_id e) (call_id e) w
    (event_type e) (occurred_at e) (actor e) (risk_class e) (sensitivity e)
    (parent_event_id e) (correlation_id e) (source_refs e) (evidence_refs e) (payload e).

Section construction.
Context `{Crypto, UuidV5}.

(** [operator_turn_namespace]: the first 16 bytes of a digest. *)
Definition operator_turn_namespace : bytes := take 16 (sha256 (as_bytes "heiwa.operator.turn.v1")).

Definition deterministic_turn_id (thread client_request_id : string) : string :=
  uuid_v5 operator_turn_namespace
    (as_bytes thread ++ [byte_of 31] ++ as_bytes client_request_id).

Definition prompt_fingerprint (prompt : string) : string := to_hex (sha256 (as_bytes prompt)).
End construction.

(** ** Metadata validation *)

Definition is_sensitive (v : json) : bool :=
  match find_sensitive v with Some _ => true | None => false end.

Definition metadata_text_ok (value : string) : bool :=
  negb (is_blank value) && bool_decide (str_len value ≤ 256) &&
  negb (is_sensitive (JString value)).

(** [char::is_control]: the characters of category Cc, in UTF-8. *)
Fixpoint has_control (s : bytes) : bool :=
  match s with
  | [] => false
  | a :: s' =>
      bool_decide (byte_val a < 32 ∨ byte_val a = 127) ||
      (bool_decide (byte_val a = 194) &&
       match s' with b :: _ => bool_decide (128 ≤ byte_val b < 160) | [] => false end) ||
      has_control s'
  end.

Definition metadata_identifier_ok (value : string) : bool :=
  negb (is_blank value) && bool_decide (str_len value ≤ 128) &&
  negb (contains (as_bytes "..") (as_bytes value)) &&
  negb (bool_decide ("/"%char ∈ as_bytes value)) &&
  negb (bool_decide (byte_of 92 ∈ as_bytes value)) &&
  negb (has_control (as_bytes value)) &&
  negb (is_sensitive (JString value)).

Definition validate_metadata_text (value : string) : result SessionError unit :=
  bail_if (negb (metadata_text_ok value)) InvalidMetadata.

Definition validate_metadata_identifier (value : string) : result SessionError unit :=
  bail_if (negb (metadata_identifier_ok value)) InvalidMetadataIdentifier.

Definition validate_optional {A} (f : A → result SessionError unit) (o : option A)
    : result SessionError unit :=
  match o with Some a => f a | None => Ok tt end.

Definition validate_thread_metadata (thread : string) (title project_id : option string)
    : result SessionError unit :=
  _ ← validate_metadata_identifier thread;
  _ ← validate_optional validate_metadata_text title;
  validate_optional validate_metadata_identifier project_id.

Definition validate_project_metadata (project_id : string) (title : option string)
    : result SessionError unit :=
  _ ← validate_metadata_identifier project_id;
  validate_optional validate_metadata_text title.

(** ** Views *)

Record OperatorTurnView : Type := mkTurnView {
  tv_turn_id : string;
  tv_client_request_id : option string;
  tv_work_id : option string;
  tv_status : string;
  tv_prompt : option string;
  tv_user_message_cursor : option string;
  tv_started_at : string;
  tv_route_policy : option TurnRoutePolicy;
}.

Record OperatorThreadView : Type := mkThreadView {
  ov_thread_id : string;
  ov_title : option string;
  ov_project_id : option string;
  ov_archived : bool;
  ov_work_ids : list string;
  ov_turns : list OperatorTurnView;
  ov_skipped_events : Z;
  ov_skipped_lines : Z;
}.

Record OperatorThreadSummary : Type := mkSummary {
  os_thread_id : string;
  os_turn_count : nat;
  os_latest_turn_id : option string;
  os_latest_status : option string;
  os_title : option string;
  os_project_id : option string;
  os_archived : bool;
}.

Record OperatorProjectSummary : Type := mkProjectSummary {
  ps_project_id : string;
  ps_title : string;
  ps_archived : bool;
}.

Record OperatorCatalog : Type := mkCatalog {
  oc_threads : list OperatorThreadSummary;
  oc_projects : list OperatorProjectSummary;
  oc_truncated : bool;
}.

(** [str::chars] as the byte offsets where characters start. *)
Definition char_count (s : bytes) : nat := length (List.filter (λ a, negb (is_continuation a)) s).

(** The first [n] characters. *)
Fixpoint take_chars (n : nat) (s : bytes) : bytes :=
  match s with
  | [] => []
  | a :: s' =>
      if is_continuation a then a :: take_chars n s'
      else match n with O => [] | S n' => a :: take_chars n' s' end
  end.

Definition ellipsis : bytes := [byte_of 226; byte_of 128; byte_of 166].

Definition fallback_thread_title (prompt : string) : string :=
  let trimmed := trim_bytes (as_bytes prompt) in
  String.string_of_list_ascii
    (take_chars 120 trimmed ++ if (120 <? char_count trimmed)%nat then ellipsis else []).

(** The title, or the first prompt of the thread. *)
Definition title_or_prompt (t : FoldedThread) : option string :=
  match th_title t with
  | Some title => Some title
  | None => find_map (λ turn, fallback_thread_title <$> ft_prompt turn) (th_turns t)
  end.

Definition turn_view (t : FoldedTurn) : OperatorTurnView :=
  mkTurnView (ft_turn_id t) (ft_client_request_id t) (ft_work_id t) (ft_status t) (ft_prompt t)
    (ft_user_message_cursor t) (ft_started_at t) (ft_route_policy t).

(** [FoldedThread::to_view]. *)
Definition to_view (t : FoldedThread) (skipped unsupported : Z) : OperatorThreadView :=
  mkThreadView (th_thread_id t) (title_or_prompt t) (th_project_id t) (th_archived t) []
    (map turn_view (th_turns t)) (Z.of_nat (th_skipped_events t) + unsupported) skipped.

(** [FoldedThread::to_summary]. *)
Definition to_summary (t : FoldedThread) : OperatorThreadSummary :=
  mkSummary (th_thread_id t) (length (th_turns t)) (ft_turn_id <$> last (th_turns t))
    (ft_status <$> last (th_turns t)) (title_or_prompt t) (th_project_id t) (th_archived t).

(** [FoldedProject::to_summary]. *)
Definition project_summary (p : FoldedProject) : OperatorProjectSummary :=
  mkProjectSummary (fp_project_id p) (fp_title p) (fp_archived p).

(** The diagnostics of a thread: rows of unsupported schemas and rejected rows. *)
Definition thread_diagnostics (j : MaterializedJournal) (thread : string) : Z :=
  Z.of_nat (default 0%nat (mj_unsupported_schema_events j !! thread)) +
  Z.of_nat (default 0%nat (mj_rejected_current_schema_events j !! thread)).

(** [sort_by_key(Reverse(last_order))] is stable: a merge sort by non-increasing
    order. *)
Definition later_first {A} (order : A → Z) (a b : A) : Prop := order b ≤ order a.
#[export] Instance later_first_dec {A} (order : A → Z) a b : Decision (later_first order a b).
Proof. unfold later_first. apply _. Defined.

(** ** Metadata updates *)

Record ThreadMetadataUpdate : Type := mkThreadUpdate {
  tu_title : option string;
  tu_project_id : option (option string);
  tu_archived : option bool;
}.

Record ProjectMetadataUpdate : Type := mkProjectUpdate {
  pu_title : option string;
  pu_archived : option bool;
}.

Definition json_opt_bool (o : option bool) : json :=
  match o with Some b => JBool b | None => JNull end.

(** The payload of [update_thread_metadata]: the fields the update names. *)
Definition thread_update_payload (u : ThreadMetadataUpdate) : json :=
  json_object
    (match tu_title u with Some t => [("title", JString t)] | None => [] end ++
     match tu_project_id u with Some p => [("project_id", json_opt_str p)] | None => [] end ++
     match tu_archived u with Some b => [("archived", JBool b)] | None => [] end).

(** ** The service *)

Record TurnSubmission : Type := mkSubmission {
  sub_thread_id : string;
  sub_turn_id : string;
  sub_work_id : option string;
  sub_cursor : string;
  sub_duplicate : bool;
}.

Section operations.
Context `{EventLog L, Crypto, UuidV5}.

(** [create_thread]. *)
Definition create_thread (fuel : nat) (env : Env) (thread : string)
    (title project_id : option string) : op (L := L) SessionError bool :=
  lift (validate_thread_metadata thread title project_id) ;;;
  lock_writer_transaction env ;;;
  projection <- materialized fuel ;;
  if bool_decide (is_Some (mj_threads projection !! thread)) then ret false
  else
    match project_id with
    | Some p =>
        if bool_decide (mj_projects projection !! p = None) then fail (UnknownProject p)
        else ret tt
    | None => ret tt
    end ;;;
    append (new_event (env_ids env 0) thread None None ThreadCreated (env_now env) operator_actor
              (json_object [("title", json_opt_str title);
                            ("project_id", json_opt_str project_id)])) ;;;
    ret true.

(** [ensure_thread]. *)
Definition ensure_thread (fuel : nat) (env : Env) (thread : string) : op (L := L) SessionError bool :=
  create_thread fuel env thread None None.

(** [create_project]. *)
Definition create_project (fuel : nat) (env : Env) (project_id title : string)
    : op (L := L) SessionError OperatorProjectSummary :=
  lift (validate_project_metadata project_id (Some title)) ;;;
  lock_writer_transaction env ;;;
  projection <- materialized fuel ;;
  match mj_projects projection !! project_id with
  | Some project => ret (project_summary project)
  | None =>
      append (new_event (env_ids env 0) (project_subject project_id) None None ProjectCreated
                (env_now env) operator_actor
                (json_object [("project_id", JString project_id); ("title", JString title)])) ;;;
      ret (mkProjectSummary project_id title false)
  end.

(** [update_project_metadata]. *)
Definition update_project_metadata (fuel : nat) (env : Env) (project_id : string)
    (update : ProjectMetadataUpdate) : op (L := L) SessionError OperatorProjectSummary :=
  lift (bail_if (bool_decide (pu_title update = None) && bool_decide (pu_archived update = None))
          EmptyMetadataUpdate) ;;;
  lift (validate_project_metadata project_id (pu_title update)) ;;;
  lock_writer_transaction env ;;;
  projection <- materialized fuel ;;
  current <- lift (ok_or (UnknownProject project_id) (mj_projects projection !! project_id)) ;;
  append (new_event (env_ids env 0) (project_subject project_id) None None ProjectMetadataUpdated
            (env_now env) operator_actor
            (json_object [("project_id", JString project_id);
                          ("title", json_opt_str (pu_title update));
                          ("archived", json_opt_bool (pu_archived update))])) ;;;
  ret (mkProjectSummary project_id (default (fp_title current) (pu_title update))
         (default (fp_archived current) (pu_archived update))).

(** [update_thread_metadata]. *)
Definition update_thread_metadata (fuel : nat) (env : Env) (thread : string)
    (update : ThreadMetadataUpdate) : op (L := L) SessionError OperatorThreadSummary :=
  lift (bail_if (bool_decide (tu_title update = None) && bool_decide (tu_project_id update = None) &&
                 bool_decide (tu_archived update = None)) EmptyMetadataUpdate) ;;;
  lift (validate_thread_metadata thread (tu_title update) (tu_project_id update ≫= id)) ;;;
  lock_writer_transaction env ;;;
  projection <- materialized fuel ;;
  current <- lift (ok_or (UnknownThread thread) (mj_threads projection !! thread)) ;;
  match tu_project_id update with
  | Some (Some p) =>
      if bool_decide (mj_projects projection !! p = None) then fail (UnknownProject p) else ret tt
  | _ => ret tt
  end ;;;
  append (new_event (env_ids env 0) thread None None ThreadMetadataUpdated (env_now env)
            operator_actor (thread_update_payload update)) ;;;
  let summary := to_summary current in
  ret (mkSummary (os_thread_id summary) (os_turn_count summary) (os_latest_turn_id summary)
         (os_latest_status summary)
         (match tu_title update with Some t => Some t | None => os_title summary end)
         (match tu_project_id update with Some p => p | None => os_project_id summary end)
         (default (os_archived summary) (tu_archived update))).

(** [validate_retry_binding]. *)
Definition validate_retry_binding (turn : FoldedTurn) (retry_fingerprint : string)
    (retry_route_policy : TurnRoutePolicy) (retry_work_id : option string)
    : result TurnSubmissionError unit :=
  let conflict := IdempotencyConflict (ft_turn_id turn) in
  let stored := match ft_prompt_fingerprint turn with
                | Some f => Some f
                | None => prompt_fingerprint <$> ft_prompt turn
                end in
  stored ← ok_or (conflict "no durable prompt binding is available") stored;
  _ ← bail_if (bool_decide (stored ≠ retry_fingerprint))
        (conflict "client_request_id was previously submitted with a different prompt");
  policy ← ok_or (conflict "no durable route policy binding is available") (ft_route_policy turn);
  _ ← bail_if (negb (policy_eqb (normalized policy) retry_route_policy))
        (conflict "client_request_id was previously submitted with a different route policy");
  bail_if (bool_decide (ft_work_id turn ≠ retry_work_id))
    (conflict "client_request_id was previously submitted for a different Work").

(** The payloads of a submission, and the screen they pass before any write. *)
Definition user_message_payload (request : StartTurnRequest) : json :=
  json_object [("text", JString (st_prompt request))].

Definition turn_started_payload (request : StartTurnRequest) : json :=
  json_object [("client_request_id", JString (st_client_request_id request));
               ("prompt_fingerprint", JString (prompt_fingerprint (st_prompt request)));
               ("route_policy", value_of (encode_policy (normalized (st_route_policy request))))].

Definition screen_submission (request : StartTurnRequest) : result TurnSubmissionError unit :=
  _ ← bail_if (is_sensitive (json_object [])) (SensitiveMaterial "thread_created");
  _ ← bail_if (is_sensitive (turn_started_payload request)) (SensitiveMaterial "turn_started");
  bail_if (is_sensitive (user_message_payload request)) (SensitiveMaterial "user_message").

(** The retry arm of [start_turn]: [turn] already has the request's id. *)
Definition resubmit (env : Env) (thread : string) (request : StartTurnRequest) (turn : FoldedTurn)
    : op (L := L) TurnSubmissionError TurnSubmission :=
  lift (validate_retry_binding turn (prompt_fingerprint (st_prompt request))
          (normalized (st_route_policy request)) (st_work_id request)) ;;;
  match ft_user_message_cursor turn with
  | Some cursor =>
      ret (mkSubmission thread (ft_turn_id turn) (ft_work_id turn) cursor true)
  | None =>
      if bool_decide (ft_status turn ≠ "open") || ft_cancel_requested turn
      then fail (IdempotencyConflict (ft_turn_id turn)
                   "turn is no longer accepting a recovered user message")
      else
        appended <- as_runtime (append (with_work_id (ft_work_id turn)
          (new_event (env_ids env 0) thread (Some (ft_turn_id turn)) None UserMessage
             (env_now env) operator_actor (user_message_payload request)))) ;;
        ret (mkSubmission thread (ft_turn_id turn) (ft_work_id turn) (ce_cursor appended) true)
  end.

(** The first submission: the thread if it is new, the turn, its message. *)
Definition submit (env : Env) (thread : string) (request : StartTurnRequest) (thread_exists : bool)
    : op (L := L) SessionError TurnSubmission :=
  let turn_id := deterministic_turn_id thread (st_client_request_id request) in
  (if thread_exists then ret tt
   else
     append (new_event (env_ids env 0) thread None None ThreadCreated (env_now env) operator_actor
               (json_object [])) ;;;
     ret tt) ;;;
  append (with_work_id (st_work_id request)
    (new_event (env_ids env 1) thread (Some turn_id) None TurnStarted (env_now env) operator_actor
       (turn_started_payload request))) ;;;
  appended <- append (with_work_id (st_work_id request)
    (new_event (env_ids env 2) thread (Some turn_id) None UserMessage (env_now env) operator_actor
       (user_message_payload request))) ;;
  ret (mkSubmission thread turn_id (st_work_id request) (ce_cursor appended) false).

(** The turn of a thread that a client request id belongs to. *)
Definition find_request (c : string) (turns : list FoldedTurn) : option FoldedTurn :=
  List.find (λ turn, bool_decide (ft_client_request_id turn = Some c)) turns.

(** [start_turn]. *)
Definition start_turn (fuel : nat) (env : Env) (thread : string) (request : StartTurnRequest)
    : op (L := L) TurnSubmissionError TurnSubmission :=
  lift (screen_submission request) ;;;
  as_runtime (lock_writer_transaction env) ;;;
  projection <- as_runtime (materialized fuel) ;;
  match (folded ← mj_threads projection !! thread;
         find_request (st_client_request_id request) (th_turns folded)) with
  | Some turn => resubmit env thread request turn
  | None =>
      match st_work_id request with
      | Some w =>
          if work_linked (mj_work_threads projection) w thread then ret tt
          else fail (InvalidWorkScope w thread)
      | None => ret tt
      end ;;;
      as_runtime (submit env thread request
                    (bool_decide (is_Some (mj_threads projection !! thread))))
  end.

(** [append_event]. *)
Definition append_event (fuel : nat) (env : Env) (event : OperatorEvent)
    : op (L := L) SessionError CursorEvent :=
  lock_writer_transaction env ;;;
  projection <- materialized fuel ;;
  match validate_event (mj_threads projection) (mj_work_threads projection) event with
  | Panic => fail ValidationPanicked
  | Return (Err r) => fail (EventRejected r)
  | Return (Ok _) => append event
  end.

(** [thread]. *)
Definition thread_view (fuel : nat) (thread : string) : op (L := L) SessionError OperatorThreadView :=
  j <- materialized fuel ;;
  let view :=
    match mj_threads j !! thread with
    | Some folded => to_view folded (skipped_lines j) (thread_diagnostics j thread)
    | None => mkThreadView thread None None false [] [] (thread_diagnostics j thread) (skipped_lines j)
    end in
  let work_ids := merge_sort String.le
    (map fst (filter (λ kv : string * gset string, thread ∈ kv.2) (map_to_list (mj_work_threads j)))) in
  ret (mkThreadView (ov_thread_id view) (ov_title view) (ov_project_id view) (ov_archived view)
         work_ids (ov_turns view) (ov_skipped_events view) (ov_skipped_lines view)).

(** The threads and projects of a journal, most recent first. *)
Definition threads_by_recency (j : MaterializedJournal) : list FoldedThread :=
  merge_sort (later_first th_last_order) (map snd (map_to_list (mj_threads j))).

Definition projects_by_recency (j : MaterializedJournal) : list FoldedProject :=
  merge_sort (later_first fp_last_order) (map snd (map_to_list (mj_projects j))).

(** [list_threads]. *)
Definition list_threads (fuel limit : nat) : op (L := L) SessionError (list OperatorThreadSummary) :=
  j <- materialized fuel ;;
  ret (map to_summary (take limit (threads_by_recency j))).

(** [catalog]. *)
Definition catalog (fuel limit : nat) : op (L := L) SessionError OperatorCatalog :=
  j <- materialized fuel ;;
  let threads := threads_by_recency j in
  let projects := projects_by_recency j in
  ret (mkCatalog (map to_summary (take limit threads)) (map project_summary (take limit projects))
         ((limit <? length threads)%nat || (limit <? length projects)%nat)).
End operations.

(** ** Replay by thread *)

Section paging.
Context `{EventLog L}.

(** The rows of a page up to the one that fills [limit]: the matches collected,
    and the index of the last of them when the limit was reached. *)
Fixpoint collect_page (thread : string) (limit : nat) (collected : list CursorEvent)
    (index : nat) (rows : list CursorEvent) : list CursorEvent * option nat :=
  match rows with
  | [] => (collected, None)
  | row :: rows' =>
      if bool_decide (thread_id (ce_event row) = thread) then
        let collected' := collected ++ [row] in
        if bool_decide (length collected' = limit) then (collected', Some index)
        else collect_page thread limit collected' (S index) rows'
      else collect_page thread limit collected (S index) rows'
  end.

(** The page loop of [events_after]; [fuel] bounds the pages read. *)
Fixpoint events_loop (fuel : nat) (journal : L) (thread : string) (limit : nat)
    (collected : list CursorEvent) (skipped : Z) (raw_cursor : option string)
    : option (result CursorError OperatorPage) :=
  match fuel with
  | O => None
  | S fuel' =>
      match log_read_after journal raw_cursor PAGE_SIZE with
      | Err e => Some (Err e)
      | Ok page =>
          match op_events page with
          | [] => Some (Ok (mkPage collected (op_next_cursor page) (skipped + op_skipped_lines page)))
          | _ =>
              match collect_page thread limit collected 0 (op_events page) with
              | (collected', Some index) =>
                  let skipped' :=
                    if bool_decide (index = length (op_events page) - 1)%nat
                    then skipped + op_skipped_lines page else skipped in
                  Some (Ok (mkPage collected' (ce_cursor <$> op_events page !! index) skipped'))
              | (collected', None) =>
                  events_loop fuel' journal thread limit collected'
                    (skipped + op_skipped_lines page) (op_next_cursor page)
              end
          end
      end
  end.

(** [events_after]. *)
Definition events_after (fuel : nat) (journal : L) (thread : string) (cursor : option string)
    (limit : nat) : option (result CursorError OperatorPage) :=
  if bool_decide (limit = 0%nat) then Some (Ok (mkPage [] cursor 0))
  else events_loop fuel journal thread limit [] 0 cursor.

(** The link a row records, if it is an artifact row. *)
Definition artifact_link (row : CursorEvent) : option (string * string) :=
  if bool_decide (event_type (ce_event row) = ArtifactCreated) then
    artifact_id ← get_str (payload (ce_event row)) "artifact_id";
    Some (thread_id (ce_event row), artifact_id)
  else None.

(** The page loop of [artifact_links]. *)
Fixpoint artifact_loop (fuel : nat) (journal : L) (links : gset (string * string))
    (cursor : option string) : option (result CursorError (gset (string * string))) :=
  match fuel with
  | O => None
  | S fuel' =>
      match log_read_after journal cursor PAGE_SIZE with
      | Err e => Some (Err e)
      | Ok page =>
          let links' := list_to_set (omap artifact_link (op_events page)) ∪ links in
          match op_next_cursor page with
          | None => Some (Ok links')
          | Some next =>
              if bool_decide (op_events page = []) || bool_decide (cursor = Some next)
              then Some (Ok links')
              else artifact_loop fuel' journal links' (Some next)
          end
      end
  end.

Definition artifact_links (fuel : nat) (journal : L) := artifact_loop fuel journal ∅ None.

(** [has_artifact_link]. *)
Definition has_artifact_link (fuel : nat) (journal : L) (thread artifact_id : string)
    : option (result CursorError bool) :=
  links ← artifact_links fuel journal;
  Some (match links with
        | Ok links => Ok (bool_decide ((thread, artifact_id) ∈ links))
        | Err e => Err e
        end).
End paging.

(** ** Recovery *)

(** [RecoveryPlanner]: what it observes of each row, and what it plans. *)
Class RecoveryPlanner (P R : Type) : Type := {
  plan_observe : P → OperatorEvent → EventAdmission → P;
  plan_events : P → Z → result string (list OperatorEvent * R);
}.

(** [NoFurtherRecovery]. *)
#[export] Instance no_further_recovery : RecoveryPlanner unit unit := {|
  plan_observe p _ _ := p;
  plan_events _ _ := Ok ([], tt);
|}.

Record RecoveryOutcome (R : Type) : Type := mkOutcome {
  ro_interrupted_turns : nat;
  ro_appended : list OperatorEvent;
  ro_report : R;
}.
Arguments mkOutcome {R} _ _ _.
Arguments ro_interrupted_turns {R} _.
Arguments ro_appended {R} _.
Arguments ro_report {R} _.

(** The reason a turn found open at recovery is closed with. *)
Definition closing_reason (turn : FoldedTurn) : json :=
  json_object [("reason", JString (if ft_cancel_requested turn then "OPERATOR_CANCELLED"
                                   else "RUNTIME_RESTART"))].

(** The open turns of a journal with their threads, in the order the threads
    are enumerated. *)
Definition open_turns (threads : list (string * FoldedThread)) : list (string * FoldedTurn) :=
  t ← threads;
  map (pair t.1) (filter (λ turn, is_turn_terminal (ft_status turn) = false) (th_turns t.2)).

Section recovery.
Context `{EventLog L}.

(** Append events in order, stopping at the first failure. *)
Fixpoint append_all (events : list OperatorEvent) : op (L := L) SessionError unit :=
  match events with
  | [] => ret tt
  | e :: events' => append e ;;; append_all events'
  end.

(** The closing events, each under the next id. *)
Definition closing_events (env : Env) (act : OperatorActor) (turns : list (string * FoldedTurn))
    : list OperatorEvent :=
  imap (λ i '(thread, turn),
          new_event (env_ids env i) thread (Some (ft_turn_id turn)) None TurnInterrupted
            (env_now env) act (closing_reason turn)) turns.

(** The observing replay of the recovered stream, from its start. *)
Definition observing_replay (fuel : nat)
    : op (L := L) SessionError (MaterializedJournal * list (CursorEvent * EventAdmission)) := λ s,
  let '(j, seen, r) := sync_materialized_observing fuel (sv_journal s) false default_journal in
  (s, match r with Ok _ => Ok (j, seen) | Err e => Err e end).

(** [recover_interrupted_with], inside the exclusive section; [env_locks] is
    the outcome of taking its locks. *)
Definition recover_interrupted_with `{RecoveryPlanner P R} (fuel : nat) (env : Env) (planner : P)
    : op (L := L) SessionError (RecoveryOutcome R) :=
  lock_writer_transaction env ;;;
  projection <- materialized fuel ;;
  let turns := open_turns (map_to_list (mj_threads projection)) in
  append_all (closing_events env runtime_actor turns) ;;;
  replayed <- observing_replay fuel ;;
  let planner := foldl (λ p '(row, a), plan_observe p (ce_event row) a) planner replayed.2 in
  plan <- lift (map_err PlanFailed (plan_events planner (skipped_lines replayed.1))) ;;
  append_all plan.1 ;;;
  ret (mkOutcome (length turns) plan.1 plan.2).

(** [recover_interrupted]. *)
Definition recover_interrupted (fuel : nat) (env : Env) : op (L := L) SessionError nat :=
  outcome <- recover_interrupted_with fuel env tt ;;
  ret (ro_interrupted_turns outcome).

(** [recover_proven_orphan]. *)
Definition recover_proven_orphan (fuel : nat) (env : Env) (thread turn : string)
    : op (L := L) SessionError (option CursorEvent) :=
  lock_writer_transaction env ;;;
  projection <- materialized fuel ;;
  match (folded ← mj_threads projection !! thread; find_turn turn (th_turns folded)) with
  | None => fail (UnknownTurnInThread turn thread)
  | Some t =>
      if is_turn_terminal (ft_status t) then ret None
      else
        row <- append (new_event (env_ids env 0) thread (Some turn) None TurnInterrupted
                         (env_now env) recovery_actor (closing_reason t)) ;;
        ret (Some row)
  end.
End recovery.
