(* ===== verification/SessionSync.v ===== *)
(** * Materialization is replay

    [sync_materialized] catches a projection up page by page; the theorems here
    show that it always equals the replay of the whole stream from its start,
    and that a service's operations only ever append. *)

From stdpp Require Import base gmap sets strings numbers sorting list.
From Stdlib Require Import Ascii.
From S2P Require Import Prelude Json Hex Envelope OperatorEvent RoutePolicy Sensitive Turns.
From S2P Require Import TurnProtocol EventLog Session.
#[local] Open Scope Z_scope.

(** ** The replayed part of a projection *)

(** A projection less its cursor and its damage counters, which replay neither
    reads nor writes. *)
Definition core (j : MaterializedJournal) : MaterializedJournal :=
  set_cursor None (set_skipped 0 0 j).

Lemma apply_event_meta c a b j row order :
  apply_event (set_cursor c (set_skipped a b j)) row order =
  (set_cursor c (set_skipped a b (apply_event j row order).1), (apply_event j row order).2).
Proof.
  unfold apply_event, apply_project_created, apply_project_updated, apply_thread_event.
  destruct j; simpl. case_bool_decide; [done|]. case_bool_decide; [done|].
  destruct (event_type (ce_event row)); repeat case_match; done.
Qed.

Lemma apply_row_core j row : core (apply_row j row).1 = (apply_row (core j) row).1.
Proof.
  unfold apply_row, core.
  change (set_progress ?o ?n (set_cursor ?c (set_skipped ?a ?b j)))
    with (set_cursor c (set_skipped a b (set_progress o n j))).
  by rewrite apply_event_meta.
Qed.

Lemma replay_core rows : ∀ j, core (replay j rows) = replay (core j) rows.
Proof.
  induction rows as [|row rows IH]; intros j; [done|].
  by rewrite !replay_cons, IH, apply_row_core.
Qed.

Lemma core_default : core default_journal = default_journal.
Proof. done. Qed.

Lemma core_set_cursor c j : core (set_cursor c j) = core j.
Proof. done. Qed.

Lemma core_set_skipped a b j : core (set_skipped a b j) = core j.
Proof. done. Qed.

Lemma core_threads j j' : core j = core j' → mj_threads j = mj_threads j'.
Proof. intros H. exact (f_equal mj_threads H). Qed.

(** The projection of the first rows of a stream, positioned after them. *)
Definition synced (rows : list CursorEvent) (j : MaterializedJournal) : Prop :=
  core j = replay default_journal rows ∧ mj_cursor j = cursor_after None rows.

Lemma synced_nil : synced [] default_journal.
Proof. done. Qed.

Section log.
Context `{EventLogLaws L}.

(** A projection of some first part of a log. *)
Definition coherent (l : L) (j : MaterializedJournal) : Prop :=
  ∃ pre post, log_rows l = pre ++ post ∧ synced pre j.

Lemma coherent_default l : coherent l default_journal.
Proof. by exists [], (log_rows l). Qed.

Lemma coherent_extend l l' rows j :
  log_rows l' = log_rows l ++ rows → coherent l j → coherent l' j.
Proof.
  intros Hl (pre & post & Hr & Hs). exists pre, (post ++ rows).
  by rewrite Hl, Hr, app_assoc.
Qed.

Lemma synced_page pre page_rows page j tail :
  synced pre j → op_events page = page_rows →
  op_next_cursor page = cursor_after (mj_cursor j) page_rows →
  synced (pre ++ page_rows) (apply_page j page tail).
Proof.
  intros [Hc Hcur] He Hn. unfold apply_page. split.
  - rewrite core_set_cursor, replay_core, core_set_skipped, Hc, He. by rewrite replay_app.
  - change (op_next_cursor page = cursor_after None (pre ++ page_rows)).
    by rewrite Hn, Hcur, cursor_after_app.
Qed.

Lemma observe_rows_core rows : ∀ j c a b,
  observe_rows (set_cursor c (set_skipped a b j)) rows = observe_rows j rows.
Proof.
  induction rows as [|row rows IH]; intros j c a b; simpl; [done|].
  unfold apply_row at 1 2.
  change (set_progress ?o ?n (set_cursor ?c (set_skipped ?a ?b j)))
    with (set_cursor c (set_skipped a b (set_progress o n j))).
  rewrite apply_event_meta. cbn [fst snd]. by rewrite IH.
Qed.

Lemma observe_rows_app rows rows' : ∀ j,
  observe_rows j (rows ++ rows') = observe_rows j rows ++ observe_rows (replay j rows) rows'.
Proof.
  induction rows as [|row rows IH]; intros j; [done|].
  by rewrite <- app_comm_cons, replay_cons; simpl; rewrite IH.
Qed.

(** One page read at the position of a synced projection. *)
Lemma read_page l pre post j limit page :
  log_rows l = pre ++ post → synced pre j →
  log_read_after l (mj_cursor j) limit = Ok page →
  op_events page = take limit post ∧
  op_next_cursor page = cursor_after (mj_cursor j) (take limit post).
Proof. intros Hr [_ Hc] Hp. by eapply log_read. Qed.

(** The probe of a page: a short page ends the stream. *)
Lemma probe_page l pre post j page r :
  log_rows l = pre ++ post → synced pre j →
  log_read_after l (mj_cursor j) PAGE_SIZE = Ok page → probe_tail l page = Ok r →
  (r = None → (length (op_events page) = PAGE_SIZE)%nat) ∧
  (is_Some r → op_events page = post).
Proof.
  intros Hr Hs Hp Hq. pose proof (read_page _ _ _ _ _ _ Hr Hs Hp) as [He Hn].
  assert (length (op_events page) ≤ PAGE_SIZE)%nat as Hle.
  { rewrite He, length_take. lia. }
  unfold probe_tail in Hq. destruct (Nat.ltb_spec (length (op_events page)) PAGE_SIZE) as [Hlt|].
  - assert (take PAGE_SIZE post = post) as Ht.
    { apply take_ge. rewrite He, length_take in Hlt. lia. }
    rewrite Ht in He, Hn. apply result_bind_Ok in Hq as (probe & Hprobe & Hq).
    destruct Hs as [_ Hc]. rewrite Hn, Hc, cursor_after_app in Hprobe.
    eapply (log_read l (pre ++ post) []) in Hprobe as [Hpe _];
      [|by rewrite app_nil_r|done]. rewrite Hpe in Hq. simpl in Hq.
    split; [intros ->; done|auto].
  - injection Hq as <-. split; [intros _; lia|by intros [? ?]].
Qed.

Lemma core_meta j :
  j = set_cursor (mj_cursor j)
        (set_skipped (mj_committed_skipped_lines j) (mj_tail_skipped_lines j) (core j)).
Proof. by destruct j. Qed.

Lemma observe_core j rows : observe_rows j rows = observe_rows (core j) rows.
Proof. rewrite (core_meta j) at 1. apply observe_rows_core. Qed.

(** What one round of the loop does to a synced projection. *)
Lemma sync_round_cases fuel l b j pre post :
  log_rows l = pre ++ post → synced pre j →
  (∃ page, log_read_after l (mj_cursor j) PAGE_SIZE = Ok page ∧
     ((op_events page = [] ∧ post = []) ∨
      (∃ e, probe_tail l page = Err e ∧
         sync_materialized_observing (S fuel) l b j = (j, [], Err (SyncFailed e))) ∨
      (∃ n, probe_tail l page = Ok (Some n) ∧ op_events page = post ∧
         synced (pre ++ post) (apply_page j page (Some n)) ∧
         sync_materialized_observing (S fuel) l b j =
           (apply_page j page (Some n), observe_rows j post, Ok tt)) ∨
      (probe_tail l page = Ok None ∧ (PAGE_SIZE ≤ length post)%nat ∧
       op_events page = take PAGE_SIZE post ∧
       synced (pre ++ take PAGE_SIZE post) (apply_page j page None) ∧
       sync_materialized_observing (S fuel) l b j =
         let '(j'', seen', r) := sync_materialized_observing fuel l b (apply_page j page None) in
         (j'', observe_rows j (take PAGE_SIZE post) ++ seen', r)))) ∨
  (∃ e, log_read_after l (mj_cursor j) PAGE_SIZE = Err e).
Proof.
  intros Hr Hs. destruct (log_read_after l (mj_cursor j) PAGE_SIZE) as [page|e] eqn:Hp; [|eauto].
  left. exists page. split; [done|].
  pose proof (read_page _ _ _ _ _ _ Hr Hs Hp) as [He Hn].
  cbn [sync_materialized_observing]. rewrite Hp.
  destruct (op_events page) as [|row rows] eqn:Hev.
  { left. split; [done|]. destruct post; [done|]. unfold PAGE_SIZE in He. discriminate. }
  right. destruct (probe_tail l page) as [t|e] eqn:Hq; [|left; eauto]. right.
  pose proof (probe_page _ _ _ _ _ _ Hr Hs Hp Hq) as [Hnone Hsome].
  pose proof (synced_page pre (op_events page) page j t Hs eq_refl) as Hsync.
  rewrite Hev in *. rewrite <- He in Hn. specialize (Hsync Hn).
  destruct t as [n|].
  - left. rewrite Hsome in * by eauto. by exists n.
  - right. rewrite <- He. split_and!; try done.
    specialize (Hnone eq_refl). rewrite He, length_take in Hnone. lia.
Qed.

(** The loop, on a readable log: it returns, at the whole stream. *)
Lemma sync_loop_ok l b : log_readable l → ∀ fuel pre post j,
  log_rows l = pre ++ post → synced pre j → (length post < fuel)%nat →
  ∃ j', sync_materialized_observing fuel l b j = (j', observe_rows (core j) post, Ok tt) ∧
    synced (log_rows l) j'.
Proof.
  intros Hl. induction fuel as [|fuel IH]; intros pre post j Hr Hs Hf; [lia|].
  destruct (sync_round_cases fuel l b j pre post Hr Hs)
    as [(page & Hp & [[He ->]|[(e & Hq & _)|[(n & Hq & He & Hs' & ->)|(Hq & Hlen & He & Hs' & ->)]]])
       |(e & Hp)].
  - rewrite app_nil_r in Hr. cbn [sync_materialized_observing]. rewrite Hp, He.
    eexists. split; [reflexivity|]. rewrite Hr. exact Hs.
  - exfalso. unfold probe_tail in Hq. destruct (length _ <? _)%nat; [|done].
    pose proof (read_page _ _ _ _ _ _ Hr Hs Hp) as [He Hn].
    destruct (log_read_ok l (pre ++ take PAGE_SIZE post) (drop PAGE_SIZE post) 1 Hl) as [probe Hpr].
    { by rewrite <- app_assoc, take_drop. }
    destruct Hs as [_ Hc]. rewrite Hn, Hc, cursor_after_app, Hpr in Hq. simpl in Hq.
    by destruct (op_events probe).
  - rewrite observe_core. eexists. split; [reflexivity|]. by rewrite Hr.
  - destruct (IH (pre ++ take PAGE_SIZE post) (drop PAGE_SIZE post) (apply_page j page None))
      as (j' & -> & Hj'); [by rewrite <- app_assoc, take_drop|done|
        rewrite length_drop; unfold PAGE_SIZE in *; lia|].
    exists j'. split; [|done]. rewrite observe_core.
    assert (core (apply_page j page None) = replay (core j) (take PAGE_SIZE post)) as ->.
    { unfold apply_page. by rewrite core_set_cursor, replay_core, core_set_skipped, He. }
    rewrite <- observe_rows_app, take_drop. done.
  - exfalso. destruct (log_read_ok l pre post PAGE_SIZE Hl Hr) as [page Hok].
    destruct Hs as [_ Hc]. rewrite Hc in Hp. congruence.
Qed.

(** The loop, whatever the log answers: the projection stays one of a first part
    of the stream, and a success means the whole of it. *)
Lemma sync_loop_any l b : ∀ fuel pre post j,
  log_rows l = pre ++ post → synced pre j →
  let '(j', _, r) := sync_materialized_observing fuel l b j in
  coherent l j' ∧ (r = Ok tt → synced (log_rows l) j').
Proof.
  induction fuel as [|fuel IH]; intros pre post j Hr Hs.
  { simpl. split; [by exists pre, post|done]. }
  assert (coherent l j) as Hcoh by by exists pre, post.
  destruct (sync_round_cases fuel l b j pre post Hr Hs)
    as [(page & Hp & [[He ->]|[(e & Hq & ->)|[(n & Hq & He & Hs' & ->)|(Hq & Hlen & He & Hs' & ->)]]])
       |(e & Hp)].
  - rewrite app_nil_r in Hr. cbn [sync_materialized_observing]. rewrite Hp, He.
    assert (synced (log_rows l) (set_skipped (mj_committed_skipped_lines j)
              (op_skipped_lines page) j)) as Hj by by rewrite Hr.
    split; [|done]. exists (log_rows l), []. by rewrite app_nil_r.
  - done.
  - split; [|intros _; by rewrite Hr]. exists (pre ++ post), []. by rewrite app_nil_r.
  - assert (log_rows l = (pre ++ take PAGE_SIZE post) ++ drop PAGE_SIZE post) as Hr'
      by by rewrite <- app_assoc, take_drop.
    specialize (IH _ _ _ Hr' Hs').
    by destruct (sync_materialized_observing fuel l b (apply_page j page None)) as [[j' seen] r].
  - cbn [sync_materialized_observing]. rewrite Hp.
    assert (∀ x : SessionError, coherent l j ∧ (Err x = Ok tt → synced (log_rows l) j)) as Herr by done.
    destruct e as [reason| |]; [|apply Herr..]. case_bool_decide; [|apply Herr].
    destruct b; [|apply Herr]. apply (IH [] (log_rows l)); [done|apply synced_nil].
Qed.

(** ** The service *)

Definition service_coherent (s : Service L) : Prop := coherent (sv_journal s) (sv_projection s).

(** C6.  Materialization is replay from scratch: for a service whose projection
    was built from any first part of the stream, over a readable log, catching
    up returns (as many rounds as there are rows, and one, are enough) and gives
    exactly the state and the position that replaying every row from the start
    gives; if a read fails, what is kept is still the replay of a first part. *)
Theorem sync_is_replay_from_scratch (s : Service L) (fuel : nat) :
  service_coherent s →
  (log_readable (sv_journal s) → (length (log_rows (sv_journal s)) < fuel)%nat →
   ∃ j, materialized fuel s = (mkService (sv_journal s) j, Ok j) ∧
     core j = replay default_journal (log_rows (sv_journal s)) ∧
     mj_cursor j = cursor_after None (log_rows (sv_journal s))) ∧
  service_coherent (materialized fuel s).1.
Proof.
  intros (pre & post & Hr & Hs). unfold materialized, sync_materialized. split.
  - intros Hl Hf. destruct (sync_loop_ok _ true Hl fuel pre post _ Hr Hs) as (j & -> & Hj).
    { rewrite Hr, length_app in Hf. lia. }
    by exists j.
  - pose proof (sync_loop_any (sv_journal s) true fuel _ _ _ Hr Hs) as Hany.
    by destruct (sync_materialized_observing _ _ _ _) as [[j seen] r]; destruct Hany.
Qed.
End log.

(** ** Operations only append *)

Section append_only.
Context `{EventLogLaws L, Crypto, UuidV5}.

(** The log of [s'] is the log of [s] with rows added at its end. *)
Definition extends (s s' : Service L) : Prop :=
  ∃ rows, log_rows (sv_journal s') = log_rows (sv_journal s) ++ rows.

#[export] Instance extends_preorder : PreOrder extends.
Proof.
  split.
  - intros s. exists []. by rewrite app_nil_r.
  - intros s1 s2 s3 [r Hr] [r' Hr']. exists (r ++ r'). by rewrite Hr', Hr, app_assoc.
Qed.

(** An operation that keeps the service coherent and only appends. *)
Definition append_only {E A} (m : op (L := L) E A) : Prop :=
  ∀ s, service_coherent s → service_coherent (m s).1 ∧ extends s (m s).1.

Lemma append_only_pure {E A} (r : result E A) : append_only (lift r).
Proof. intros s Hs. by split. Qed.

Lemma append_only_ret {E A} (a : A) : append_only (E := E) (ret a).
Proof. intros s Hs. by split. Qed.

Lemma append_only_fail {E A} (e : E) : append_only (A := A) (fail e).
Proof. intros s Hs. by split. Qed.

Lemma append_only_bind {E A B} (m : op E A) (k : A → op E B) :
  append_only m → (∀ a, append_only (k a)) → append_only (bind m k).
Proof.
  intros Hm Hk s Hs. unfold bind. specialize (Hm s Hs).
  destruct (m s) as [s1 [a|e]]; simpl in *; [|done]. destruct Hm as [Hc He].
  destruct (Hk a s1 Hc). split; [done|by trans s1].
Qed.

Lemma append_only_as_runtime {A} (m : op SessionError A) :
  append_only m → append_only (as_runtime m).
Proof. intros Hm s Hs. specialize (Hm s Hs). revert Hm. unfold as_runtime. destruct (m s). exact (λ x, x). Qed.

Lemma append_only_materialized fuel : append_only (materialized fuel).
Proof.
  intros s (pre & post & Hr & Hs). unfold materialized, sync_materialized, service_coherent.
  pose proof (sync_loop_any (sv_journal s) true fuel _ _ _ Hr Hs) as Hany.
  destruct (sync_materialized_observing _ _ _ _) as [[j seen] r]. destruct Hany.
  split; [done|]. exists []. by rewrite app_nil_r.
Qed.

Lemma append_only_append e : append_only (append e).
Proof.
  intros s Hs. unfold append, service_coherent, extends.
  destruct (log_append (sv_journal s) e) as [l r] eqn:Ha. simpl.
  apply log_append_extends in Ha as (rows & Hrows & _).
  split; [by eapply coherent_extend|eauto].
Qed.

Lemma append_only_append_all es : append_only (append_all es).
Proof.
  induction es as [|e es IH]; simpl; [apply append_only_ret|].
  apply append_only_bind; [apply append_only_append|done].
Qed.

Lemma append_only_observing_replay fuel : append_only (observing_replay fuel).
Proof.
  intros s Hs. unfold observing_replay.
  destruct (sync_materialized_observing _ _ _ _) as [[j seen] r]. by split.
Qed.

Create HintDb ops.
#[local] Hint Resolve append_only_pure append_only_ret append_only_fail append_only_as_runtime
  append_only_materialized append_only_append append_only_append_all
  append_only_observing_replay : ops.

(** Take an operation apart into its steps. *)
Ltac ops_tac :=
  repeat first
    [ solve [auto with ops]
    | apply append_only_bind; [|intros ?]
    | apply append_only_as_runtime
    | match goal with |- append_only (let _ := _ in _) => intro end
    | match goal with |- append_only (match ?x with _ => _ end) => destruct x end
    | match goal with |- append_only (if ?b then _ else _) => destruct b end ].

Lemma append_only_create_thread fuel env t title p : append_only (create_thread fuel env t title p).
Proof. unfold create_thread, lock_writer_transaction. ops_tac. Qed.

Lemma append_only_append_event fuel env e : append_only (append_event fuel env e).
Proof. unfold append_event, lock_writer_transaction. ops_tac. Qed.

Lemma append_only_start_turn fuel env t request : append_only (start_turn fuel env t request).
Proof. unfold start_turn, resubmit, submit, lock_writer_transaction. ops_tac. Qed.

(**  The service is append-only and keeps its projection sound: whatever an
    operation does, succeed or fail at any point, the rows that were in the
    stream stay there, in order, and the projection it leaves is the replay of
    a first part of the stream. *)
Theorem service_is_append_only `{RecoveryPlanner P R} (fuel : nat) (env : Env) :
  (∀ t title p, append_only (create_thread fuel env t title p)) ∧
  (∀ t, append_only (ensure_thread fuel env t)) ∧
  (∀ p title, append_only (create_project fuel env p title)) ∧
  (∀ p u, append_only (update_project_metadata fuel env p u)) ∧
  (∀ t u, append_only (update_thread_metadata fuel env t u)) ∧
  (∀ t request, append_only (start_turn fuel env t request)) ∧
  (∀ e, append_only (append_event fuel env e)) ∧
  (∀ t, append_only (thread_view fuel t)) ∧
  (∀ n, append_only (list_threads fuel n)) ∧
  (∀ n, append_only (catalog fuel n)) ∧
  (∀ planner : P, append_only (recover_interrupted_with (R := R) fuel env planner)) ∧
  append_only (recover_interrupted fuel env) ∧
  (∀ t turn, append_only (recover_proven_orphan fuel env t turn)).
Proof.
  split_and!; intros; try apply append_only_create_thread; try apply append_only_start_turn;
    try apply append_only_append_event;
    unfold create_project, update_project_metadata, update_thread_metadata, thread_view, list_threads, catalog, recover_interrupted,
      recover_interrupted_with, recover_proven_orphan, lock_writer_transaction;
    ops_tac.
Qed.
End append_only.
