(* ===== verification/SessionTurns.v ===== *)
(** * Turn submission

    [start_turn] is exactly-once: after a submission went through, every retry
    with the same request, whatever happened to the stream in between, gets the
    turn that exists and writes nothing; a retry that asks for something else
    under the same client request id is refused and writes nothing. *)

From stdpp Require Import base gmap sets strings numbers sorting list.
From Stdlib Require Import Ascii.
From S2P Require Import Prelude Json Hex Envelope OperatorEvent RoutePolicy Sensitive Turns.
From S2P Require Import TurnProtocol EventLog Session SessionSync.
#[local] Open Scope Z_scope.

(** ** Replay of the rows of a submission *)

Lemma apply_thread_event_seen j row order :
  mj_seen_event_ids (apply_thread_event j row order).1 = mj_seen_event_ids j.
Proof. unfold apply_thread_event. repeat case_match; done. Qed.

Lemma apply_row_seen j row :
  mj_seen_event_ids (apply_row j row).1 = {[event_id (ce_event row)]} ∪ mj_seen_event_ids j.
Proof.
  unfold apply_row, apply_event. simpl. case_bool_decide; simpl; [set_solver|].
  case_bool_decide; [done|].
  destruct (event_type (ce_event row)); try apply apply_thread_event_seen;
    unfold apply_project_created, apply_project_updated; repeat case_match; done.
Qed.

(** The ids a journal has seen are those of the rows it replayed. *)
Lemma replay_seen rows : ∀ j id,
  id ∈ mj_seen_event_ids (replay j rows) ↔
  id ∈ mj_seen_event_ids j ∨ id ∈ map (λ row, event_id (ce_event row)) rows.
Proof.
  induction rows as [|row rows IH]; intros j id; [set_solver|].
  rewrite replay_cons, IH, apply_row_seen. set_solver.
Qed.

(** A row whose id is new, of this schema, that is not about a project. *)
Definition plain_row (j : MaterializedJournal) (row : CursorEvent) : Prop :=
  event_id (ce_event row) ∉ mj_seen_event_ids j ∧
  schema_version (ce_event row) = OPERATOR_EVENT_SCHEMA_VERSION ∧
  is_project_event (event_type (ce_event row)) = false.

Lemma plain_row_applied j row :
  plain_row j row →
  ∃ j0 order, mj_threads j0 = mj_threads j ∧ (apply_row j row).1 = (apply_thread_event j0 row order).1.
Proof.
  intros (Hid & Hv & Hp). unfold apply_row, apply_event. simpl.
  rewrite bool_decide_false by done. rewrite bool_decide_false by (intros Hn; congruence).
  eexists _, _. split; [|by destruct (event_type (ce_event row))]. done.
Qed.

(** A thread that is created has no turns yet. *)
Lemma created_row j row :
  plain_row j row → event_type (ce_event row) = ThreadCreated →
  mj_threads j !! thread_id (ce_event row) = None →
  turns_of (apply_row j row).1 (thread_id (ce_event row)) = [].
Proof.
  intros Hp Hty Hnone. destruct (plain_row_applied j row Hp) as (j0 & order & Ht & ->).
  unfold apply_thread_event, new_thread_from. rewrite Ht, Hnone, Hty. simpl.
  unfold turns_of. simpl. by rewrite lookup_insert_eq.
Qed.

(** The turn a [turn_started] event starts. *)
Definition started_turn (event : OperatorEvent) (id : string) : FoldedTurn :=
  mkTurn id (get_str (payload event) "client_request_id") (work_id event)
    (get_str (payload event) "prompt_fingerprint") "open" false None None (occurred_at event)
    (json_get "route_policy" (payload event) ≫= decode_policy) ∅ ∅.

Lemma started_row j row id c :
  plain_row j row → event_type (ce_event row) = TurnStarted →
  turn_id (ce_event row) = Some id →
  get_str (payload (ce_event row)) "client_request_id" = Some c →
  has_turn id (turns_of j (thread_id (ce_event row))) = false →
  has_client_request c (turns_of j (thread_id (ce_event row))) = false →
  turns_of (apply_row j row).1 (thread_id (ce_event row)) =
  turns_of j (thread_id (ce_event row)) ++ [started_turn (ce_event row) id].
Proof.
  intros Hp Hty Hid Hc Hnew Hreq.
  destruct (plain_row_applied j row Hp) as (j0 & order & Ht & ->).
  unfold apply_thread_event, new_thread_from, apply_to_existing_thread, turns_of in *.
  rewrite Ht, Hty. destruct (mj_threads j !! _) as [entry|] eqn:El; simpl.
  - unfold apply_turn_started. rewrite Hid. simpl. rewrite Hnew, Hc, Hreq. simpl.
    rewrite lookup_insert_eq. simpl. unfold started_turn. by rewrite Hc.
  - unfold apply_turn_started. rewrite Hid. simpl. rewrite Hc. simpl.
    rewrite lookup_insert_eq. simpl. unfold started_turn. by rewrite Hc.
Qed.

Lemma message_row j row id ts t :
  plain_row j row → event_type (ce_event row) = UserMessage →
  turn_id (ce_event row) = Some id →
  turns_of j (thread_id (ce_event row)) = ts ++ [t] →
  ft_turn_id t = id → has_turn id ts = false → phase t = Open →
  turns_of (apply_row j row).1 (thread_id (ce_event row)) =
  ts ++ [set_prompt (get_str (payload (ce_event row)) "text") (ce_cursor row) t].
Proof.
  intros Hp Hty Hid Hts Hft Hnew Hopen.
  destruct (plain_row_applied j row Hp) as (j0 & order & Ht & ->).
  unfold apply_thread_event, apply_to_existing_thread, turns_of in *.
  rewrite Ht, Hty. destruct (mj_threads j !! _) as [entry|] eqn:El; [|by destruct ts]. simpl.
  unfold apply_user_message, on_turn. rewrite Hid, Hts. cbn [mbind option_bind].
  match goal with |- context [update_turn id ?g _] => set (f := g) end.
  assert (update_turn id f (ts ++ [t]) =
          Some (ts ++ [set_prompt (get_str (payload (ce_event row)) "text") (ce_cursor row) t])) as ->.
  { apply update_turn_Some. exists ts, t, (set_prompt (get_str (payload (ce_event row)) "text")
      (ce_cursor row) t), []. split_and!; try done.
    - apply Forall_forall. intros u Hu Heq.
      assert (has_turn id ts = true); [|congruence].
      apply has_turn_spec. apply list_elem_of_fmap. eauto.
    - unfold f. unfold phase in Hopen.
      destruct (is_turn_terminal _), (ft_cancel_requested t); done. }
  simpl. by rewrite lookup_insert_eq.
Qed.

Lemma find_request_unique c ts i t :
  turns_wf ts → ts !! i = Some t → ft_client_request_id t = Some c → find_request c ts = Some t.
Proof.
  intros [_ Hreq _]. revert i. unfold find_request.
  induction ts as [|u ts IH]; intros [|i] Hi Hc; simplify_eq/=.
  - by rewrite bool_decide_true.
  - case_bool_decide as Hu.
    + rewrite Hu in Hreq. apply NoDup_cons in Hreq as [Hn _]. destruct Hn.
      apply list_elem_of_omap. exists t. split; [by eapply list_elem_of_lookup_2|done].
    + eapply IH; [|done..]. destruct (ft_client_request_id u); [|done].
      by apply NoDup_cons in Hreq as [_ ?].
Qed.

Lemma find_request_None c ts : find_request c ts = None ↔ has_client_request c ts = false.
Proof.
  unfold find_request, has_client_request.
  induction ts as [|u ts IH]; simpl; [done|]. by case_bool_decide.
Qed.

Lemma default_turns_wf thread : turns_wf (turns_of default_journal thread).
Proof.
  unfold turns_of. simpl. rewrite lookup_empty. split; [apply NoDup_nil_2..|constructor].
Qed.

(** A turn keeps the cursor of its message under rows that bring it no message. *)
Definition no_message_for (thread id : string) (row : CursorEvent) : Prop :=
  ¬ (thread_id (ce_event row) = thread ∧ turn_id (ce_event row) = Some id ∧
     event_type (ce_event row) = UserMessage).

Lemma replay_keeps_message rows : ∀ j thread i t,
  turns_of j thread !! i = Some t → Forall (no_message_for thread (ft_turn_id t)) rows →
  ∃ t', turns_of (replay j rows) thread !! i = Some t' ∧ same_identity t t' ∧
    ft_user_message_cursor t' = ft_user_message_cursor t.
Proof.
  induction rows as [|row rows IH]; intros j thread i t Hi Hq.
  { exists t. by split_and!. }
  apply Forall_cons_iff in Hq as [Hrow Hq]. rewrite replay_cons.
  destruct (apply_row_lookup j row thread i t Hi) as (u & Hu & Hc).
  destruct Hc as [->|(Hth & Hid & (Hs & _ & _ & Hm))]; [by apply IH|].
  assert (ft_user_message_cursor t = ft_user_message_cursor u) as -> by (apply Hm; naive_solver).
  assert (ft_turn_id t = ft_turn_id u) as Heq by apply Hs. rewrite Heq in Hq.
  destruct (IH _ _ _ _ Hu Hq) as (t' & ? & ? & ?). exists t'.
  split_and!; [done|by eapply identity_trans|done].
Qed.

(** ** Operations taken apart *)

Section operations.
Context `{EventLogLaws L, Crypto, UuidV5}.

Lemma bind_Ok {E A B} (m : op (L := L) E A) (k : A → op E B) s s' b :
  bind m k s = (s', Ok b) ↔ ∃ s1 a, m s = (s1, Ok a) ∧ k a s1 = (s', Ok b).
Proof.
  unfold bind. destruct (m s) as [s1 [a|e]]; split; naive_solver.
Qed.

Lemma as_runtime_Ok {A} (m : op (L := L) SessionError A) s s' a :
  as_runtime m s = (s', Ok a) ↔ m s = (s', Ok a).
Proof. unfold as_runtime. destruct (m s) as [s1 [b|e]]; split; intros; simplify_eq/=; done. Qed.

Lemma append_Ok e (s s' : Service L) row :
  log_encodes e → append e s = (s', Ok row) →
  ce_event row = e ∧ log_rows (sv_journal s') = log_rows (sv_journal s) ++ [row] ∧
  sv_projection s' = sv_projection s.
Proof.
  unfold append. intros He. destruct (log_append (sv_journal s) e) as [l r] eqn:Ha.
  destruct r as [row'|x]; intros [= <- <-]. by apply log_append_ok in Ha as [? ?].
Qed.

Lemma materialized_Ok fuel (s s' : Service L) j :
  service_coherent s → materialized fuel s = (s', Ok j) →
  sv_journal s' = sv_journal s ∧ service_coherent s' ∧
  core j = replay default_journal (log_rows (sv_journal s)).
Proof.
  intros Hs Hm. pose proof (append_only_materialized fuel s Hs) as [Hc _].
  rewrite Hm in Hc. destruct Hs as (pre & post & Hr & Hs).
  unfold materialized, sync_materialized in Hm.
  pose proof (sync_loop_any (sv_journal s) true fuel _ _ _ Hr Hs) as Hany.
  destruct (sync_materialized_observing _ _ _ _) as [[j' seen] [[]|e]]; simplify_eq/=.
  destruct Hany as [_ Hsync]. by destruct (Hsync eq_refl).
Qed.

Lemma lift_Ok {E A} (r : result E A) (s s' : Service L) a :
  lift r s = (s', Ok a) ↔ s' = s ∧ r = Ok a.
Proof. unfold lift. split; [by intros [= -> ->]|by intros [-> ->]]. Qed.

(** What a first submission writes: the thread if it is new, the turn, and the
    message, whose cursor it returns. *)
Definition submission_events (env : Env) (thread : string) (request : StartTurnRequest)
    (thread_exists : bool) : list OperatorEvent :=
  let id := deterministic_turn_id thread (st_client_request_id request) in
  (if thread_exists then []
   else [new_event (env_ids env 0) thread None None ThreadCreated (env_now env) operator_actor
           (json_object [])]) ++
  [with_work_id (st_work_id request)
     (new_event (env_ids env 1) thread (Some id) None TurnStarted (env_now env) operator_actor
        (turn_started_payload request));
   with_work_id (st_work_id request)
     (new_event (env_ids env 2) thread (Some id) None UserMessage (env_now env) operator_actor
        (user_message_payload request))].

Lemma submit_Ok env thread request b (s s' : Service L) sub :
  Forall log_encodes (submission_events env thread request b) →
  submit env thread request b s = (s', Ok sub) →
  ∃ rows row, log_rows (sv_journal s') = log_rows (sv_journal s) ++ rows ++ [row] ∧
    map ce_event (rows ++ [row]) = submission_events env thread request b ∧
    sub = mkSubmission thread (deterministic_turn_id thread (st_client_request_id request))
            (st_work_id request) (ce_cursor row) false.
Proof.
  unfold submit, submission_events. intros Henc Hs.
  apply Forall_app in Henc as [Henc0 Henc]. apply Forall_cons_iff in Henc as [Henc1 Henc].
  apply Forall_cons_iff in Henc as [Henc2 _].
  apply bind_Ok in Hs as (s1 & u & Hc & Hs).
  apply bind_Ok in Hs as (s2 & row1 & (E1 & R1 & _)%(append_Ok _ _ _ _ Henc1) & Hs).
  apply bind_Ok in Hs as (s3 & row2 & (E2 & R2 & _)%(append_Ok _ _ _ _ Henc2) & Hs).
  injection Hs as <- <-. destruct b.
  - injection Hc as <- <-. exists [row1], row2. simpl. rewrite R2, R1, <- app_assoc, E1, E2. done.
  - apply Forall_cons_iff in Henc0 as [Henc0 _].
    apply bind_Ok in Hc as (s0 & row0 & (E0 & R0 & _)%(append_Ok _ _ _ _ Henc0) & Hc).
    injection Hc as <- <-. exists [row0; row1], row2. simpl.
    rewrite R2, R1, R0, <- !app_assoc, E0, E1, E2. done.
Qed.

(** The turn as replay sees it once the submission is in the stream. *)
Definition submitted_turn (env : Env) (thread : string) (request : StartTurnRequest)
    (cursor : string) : FoldedTurn :=
  let id := deterministic_turn_id thread (st_client_request_id request) in
  set_prompt (Some (st_prompt request)) cursor
    (mkTurn id (Some (st_client_request_id request)) (st_work_id request)
       (Some (prompt_fingerprint (st_prompt request))) "open" false None None (env_now env)
       (Some (normalized (st_route_policy request))) ∅ ∅).

Lemma started_payload_turn env thread request :
  policy_representable (st_route_policy request) →
  let e := with_work_id (st_work_id request)
     (new_event (env_ids env 1) thread
        (Some (deterministic_turn_id thread (st_client_request_id request))) None TurnStarted
        (env_now env) operator_actor (turn_started_payload request)) in
  started_turn e (deterministic_turn_id thread (st_client_request_id request)) =
  mkTurn (deterministic_turn_id thread (st_client_request_id request))
    (Some (st_client_request_id request)) (st_work_id request)
    (Some (prompt_fingerprint (st_prompt request))) "open" false None None (env_now env)
    (Some (normalized (st_route_policy request))) ∅ ∅.
Proof.
  intros Hp. unfold started_turn, get_str, turn_started_payload. cbn [payload with_work_id new_event].
  rewrite !json_get_object. cbn -[decode_policy encode_policy value_of].
  f_equal. by apply decode_policy_value, representable_normalized.
Qed.

(** The ids a submission draws are new and distinct, and its turn id is new. *)
Definition fresh_submission (env : Env) (thread : string) (request : StartTurnRequest)
    (j : MaterializedJournal) : Prop :=
  NoDup [env_ids env 0; env_ids env 1; env_ids env 2] ∧
  Forall (λ id, id ∉ mj_seen_event_ids j) [env_ids env 0; env_ids env 1; env_ids env 2] ∧
  has_turn (deterministic_turn_id thread (st_client_request_id request)) (turns_of j thread) = false.

Lemma turn_rows env thread request j row1 row2 :
  map ce_event [row1; row2] = submission_events env thread request true →
  env_ids env 1 ≠ env_ids env 2 →
  env_ids env 1 ∉ mj_seen_event_ids j → env_ids env 2 ∉ mj_seen_event_ids j →
  has_turn (deterministic_turn_id thread (st_client_request_id request)) (turns_of j thread) = false →
  has_client_request (st_client_request_id request) (turns_of j thread) = false →
  policy_representable (st_route_policy request) →
  turns_of (replay j [row1; row2]) thread =
  turns_of j thread ++ [submitted_turn env thread request (ce_cursor row2)].
Proof.
  intros Hrows Hne Hf1 Hf2 Hnew Hreq Hpol. injection Hrows as E1 E2.
  set (id := deterministic_turn_id thread (st_client_request_id request)) in *.
  assert (plain_row j row1) as Hp1 by (unfold plain_row; by rewrite E1).
  pose proof (started_row j row1 id (st_client_request_id request) Hp1) as Hs.
  rewrite E1 in Hs. specialize (Hs eq_refl eq_refl eq_refl Hnew Hreq).
  unfold id in Hs. rewrite (started_payload_turn env thread request Hpol) in Hs.
  cbn [thread_id with_work_id new_event] in Hs.
  assert (plain_row (apply_row j row1).1 row2) as Hp2.
  { unfold plain_row. rewrite apply_row_seen, E1, E2. split_and!; try done. simpl. set_solver. }
  pose proof (message_row _ row2 id (turns_of j thread)
    (mkTurn id (Some (st_client_request_id request)) (st_work_id request)
       (Some (prompt_fingerprint (st_prompt request))) "open" false None None (env_now env)
       (Some (normalized (st_route_policy request))) ∅ ∅) Hp2) as Hm.
  rewrite E2 in Hm. rewrite !replay_cons. exact (Hm eq_refl eq_refl Hs eq_refl Hnew eq_refl).
Qed.

Lemma fresh_submission_ids env thread request j :
  fresh_submission env thread request j →
  env_ids env 0 ≠ env_ids env 1 ∧ env_ids env 0 ≠ env_ids env 2 ∧ env_ids env 1 ≠ env_ids env 2 ∧
  env_ids env 0 ∉ mj_seen_event_ids j ∧ env_ids env 1 ∉ mj_seen_event_ids j ∧
  env_ids env 2 ∉ mj_seen_event_ids j ∧
  has_turn (deterministic_turn_id thread (st_client_request_id request)) (turns_of j thread) = false.
Proof.
  intros (Hnd & Hf & Hn). rewrite !NoDup_cons, !not_elem_of_cons in Hnd.
  rewrite !Forall_cons_iff in Hf. naive_solver.
Qed.

Lemma row_keeps_fresh j row e id :
  ce_event row = e → event_id e ≠ id → id ∉ mj_seen_event_ids j →
  id ∉ mj_seen_event_ids (apply_row j row).1.
Proof. intros <- Hne Hn. rewrite apply_row_seen. set_solver. Qed.

Lemma submission_turns env thread request j rows row b :
  map ce_event (rows ++ [row]) = submission_events env thread request b →
  b = bool_decide (is_Some (mj_threads j !! thread)) →
  fresh_submission env thread request j → policy_representable (st_route_policy request) →
  has_client_request (st_client_request_id request) (turns_of j thread) = false →
  turns_of (replay j (rows ++ [row])) thread =
  turns_of j thread ++ [submitted_turn env thread request (ce_cursor row)].
Proof.
  intros Hrows Hb (Hn01 & Hn02 & Hn12 & Hf0 & Hf1 & Hf2 & Hnew)%fresh_submission_ids Hpol Hreq.
  pose proof (f_equal length Hrows) as Hlen. rewrite length_map, length_app in Hlen.
  destruct b.
  - destruct rows as [|row1 [|]]; [simpl in Hlen; lia| |simpl in Hlen; lia].
    by apply turn_rows.
  - destruct rows as [|row0 [|row1 [|]]]; [simpl in Hlen; lia..| |simpl in Hlen; lia].
    injection Hrows as E0 E1 E2. symmetry in Hb. apply bool_decide_eq_false in Hb.
    apply eq_None_not_Some in Hb.
    assert (turns_of j thread = []) as Hnil by (unfold turns_of; by rewrite Hb).
    assert (plain_row j row0) as Hp0 by (unfold plain_row; by rewrite E0).
    pose proof (created_row j row0 Hp0) as Hcr. rewrite E0 in Hcr.
    specialize (Hcr eq_refl Hb). cbn [thread_id new_event] in Hcr.
    pose proof (turn_rows env thread request (apply_row j row0).1 row1 row) as Ht.
    rewrite Hcr in Ht. rewrite Hnil. change ([row0; row1] ++ [row]) with (row0 :: [row1; row]).
    rewrite replay_cons. apply Ht; [|done|by apply (row_keeps_fresh _ _ _ _ E0)|by apply (row_keeps_fresh _ _ _ _ E0)|done..].
    simpl. by rewrite E1, E2.
Qed.

(** ** Submission and retry *)

Lemma resubmit_duplicate env thread request turn (s s' : Service L) sub :
  resubmit env thread request turn s = (s', Ok sub) → sub_duplicate sub = true.
Proof.
  unfold resubmit. intros Hs. apply bind_Ok in Hs as (s1 & u & _ & Hs).
  destruct (ft_user_message_cursor turn); [by injection Hs as _ <-|].
  destruct (_ || _); [done|]. apply bind_Ok in Hs as (s2 & row & _ & Hs). by injection Hs as _ <-.
Qed.

(** A submission that is not a duplicate appended the turn. *)
Lemma start_turn_first fuel env thread request (s s1 : Service L) sub :
  service_coherent s → start_turn fuel env thread request s = (s1, Ok sub) →
  sub_duplicate sub = false →
  let j := replay default_journal (log_rows (sv_journal s)) in
  (∀ b, Forall log_encodes (submission_events env thread request b)) →
  has_client_request (st_client_request_id request) (turns_of j thread) = false ∧
  ∃ rows row, log_rows (sv_journal s1) = log_rows (sv_journal s) ++ rows ++ [row] ∧
    map ce_event (rows ++ [row]) =
      submission_events env thread request (bool_decide (is_Some (mj_threads j !! thread))) ∧
    sub = mkSubmission thread (deterministic_turn_id thread (st_client_request_id request))
            (st_work_id request) (ce_cursor row) false.
Proof.
  intros Hs Hst Hdup j Henc. unfold start_turn in Hst.
  apply bind_Ok in Hst as (sa & [] & (-> & _)%lift_Ok & Hst).
  apply bind_Ok in Hst as (sb & [] & Hlock%as_runtime_Ok & Hst).
  apply lift_Ok in Hlock as [-> _].
  apply bind_Ok in Hst as (sc & proj & Hm%as_runtime_Ok & Hst).
  destruct (materialized_Ok _ _ _ _ Hs Hm) as (Hj & _ & Hcore).
  assert (mj_threads proj = mj_threads j) as Hth by exact (f_equal mj_threads Hcore).
  rewrite Hth in Hst. unfold turns_of.
  destruct (mj_threads j !! thread) as [folded|] eqn:El; cbn [mbind option_bind] in Hst.
  - destruct (find_request _ (th_turns folded)) as [turn|] eqn:Ef.
    { apply resubmit_duplicate in Hst. congruence. }
    apply find_request_None in Ef. split; [done|].
    apply bind_Ok in Hst as (sd & [] & Hw & Hst). apply as_runtime_Ok, submit_Ok in Hst; [|apply Henc].
    assert (sd = sc) as -> by (unfold ret, fail in Hw; repeat case_match; by simplify_eq). by rewrite Hj in Hst.
  - split; [done|].
    apply bind_Ok in Hst as (sd & [] & Hw & Hst). apply as_runtime_Ok, submit_Ok in Hst; [|apply Henc].
    assert (sd = sc) as -> by (unfold ret, fail in Hw; repeat case_match; by simplify_eq). by rewrite Hj in Hst.
Qed.

(** What a retry must repeat of the request: the prompt (by fingerprint), the
    routing policy up to normalization, and the Work. *)
Definition request_agrees (retry request : StartTurnRequest) : Prop :=
  prompt_fingerprint (st_prompt request) = prompt_fingerprint (st_prompt retry) ∧
  policy_eqb (normalized (st_route_policy request)) (normalized (st_route_policy retry)) = true ∧
  st_work_id request = st_work_id retry.

Lemma agrees_refl request :
  policy_representable (st_route_policy request) → request_agrees request request.
Proof. intros Hp. split_and!; [done| |done]. by apply policy_eqb_normalized, representable_no_nan. Qed.

Lemma retry_binding env thread request cursor t retry :
  same_identity (submitted_turn env thread request cursor) t →
  (request_agrees retry request →
   validate_retry_binding t (prompt_fingerprint (st_prompt retry))
     (normalized (st_route_policy retry)) (st_work_id retry) = Ok tt) ∧
  (¬ request_agrees retry request →
   ∃ reason, validate_retry_binding t (prompt_fingerprint (st_prompt retry))
     (normalized (st_route_policy retry)) (st_work_id retry) =
       Err (IdempotencyConflict
              (deterministic_turn_id thread (st_client_request_id request)) reason)).
Proof.
  intros (Hid & _ & Hw & Hf & _ & Hp). simpl in *. unfold validate_retry_binding, request_agrees.
  rewrite <- Hid, <- Hw, <- Hf, <- Hp. simpl. rewrite normalized_idem.
  destruct (decide (prompt_fingerprint (st_prompt request) = prompt_fingerprint (st_prompt retry)))
    as [E|E].
  2: { split; [tauto|]. intros _.
       rewrite (bool_decide_true (prompt_fingerprint _ ≠ _)) by done. by eexists. }
  rewrite (bool_decide_false (prompt_fingerprint _ ≠ _)) by (by intros []). simpl.
  destruct (policy_eqb _ _); [|split; [naive_solver|by eexists]]. simpl.
  destruct (decide (st_work_id request = st_work_id retry)) as [E'|E'].
  - rewrite (bool_decide_false (st_work_id _ ≠ _)) by (by intros []). split; [done|tauto].
  - split; [tauto|]. intros _. rewrite (bool_decide_true (st_work_id _ ≠ _)) by done. by eexists.
Qed.

(** Catching up and taking the retry arm. *)
Lemma retry_arm fuel env thread retry (s : Service L) i t cursor :
  service_coherent s → log_readable (sv_journal s) →
  (length (log_rows (sv_journal s)) < fuel)%nat → env_locks env = Ok tt →
  screen_submission retry = Ok tt →
  turns_of (replay default_journal (log_rows (sv_journal s))) thread !! i = Some t →
  ft_client_request_id t = Some (st_client_request_id retry) →
  ft_user_message_cursor t = Some cursor →
  ∃ s', sv_journal s' = sv_journal s ∧
    start_turn fuel env thread retry s =
    (s', _ ← validate_retry_binding t (prompt_fingerprint (st_prompt retry))
               (normalized (st_route_policy retry)) (st_work_id retry);
         Ok (mkSubmission thread (ft_turn_id t) (ft_work_id t) cursor true)).
Proof.
  intros (pre & post & Hr & Hs) Hl Hf Hlock Hscreen Hi Hc Hcur.
  destruct (sync_loop_ok (sv_journal s) true Hl fuel pre post _ Hr Hs) as (j & Hsync & [Hcore _]).
  { rewrite Hr, length_app in Hf. lia. }
  assert (materialized fuel s = (mkService (sv_journal s) j, Ok j)) as Hm.
  { unfold materialized, sync_materialized. by rewrite Hsync. }
  assert (find_request (st_client_request_id retry)
            (turns_of (replay default_journal (log_rows (sv_journal s))) thread) = Some t) as Hfind.
  { eapply find_request_unique; [|done..]. apply replay_wf, default_turns_wf. }
  exists (mkService (sv_journal s) j). split; [done|].
  unfold start_turn, bind, lift, as_runtime, lock_writer_transaction.
  rewrite Hscreen, Hlock. simpl. rewrite Hm. cbn [map_err].
  assert (mj_threads j = mj_threads (replay default_journal (log_rows (sv_journal s)))) as ->
    by exact (f_equal mj_threads Hcore).
  unfold turns_of in *. destruct (mj_threads (replay _ _) !! thread) as [folded|]; [|done].
  simpl. rewrite Hfind. unfold resubmit, bind, lift. rewrite Hcur.
  by destruct (validate_retry_binding _ _ _ _) as [[]|].
Qed.

(** A submission that went through is found by every later one of its id. *)
Lemma submitted_once (s s1 : Service L) (fuel : nat) (env : Env) (thread : string)
    (request : StartTurnRequest) (sub : TurnSubmission) :
  service_coherent s →
  start_turn fuel env thread request s = (s1, Ok sub) → sub_duplicate sub = false →
  fresh_submission env thread request (replay default_journal (log_rows (sv_journal s))) →
  policy_representable (st_route_policy request) →
  (∀ b, Forall log_encodes (submission_events env thread request b)) →
  ∀ (s2 : Service L) rows fuel' env' retry,
    service_coherent s2 → log_rows (sv_journal s2) = log_rows (sv_journal s1) ++ rows →
    Forall (no_message_for thread (sub_turn_id sub)) rows →
    log_readable (sv_journal s2) → (length (log_rows (sv_journal s2)) < fuel')%nat →
    env_locks env' = Ok tt → screen_submission retry = Ok tt →
    st_client_request_id retry = st_client_request_id request →
    ∃ s3, sv_journal s3 = sv_journal s2 ∧
      (request_agrees retry request →
       start_turn fuel' env' thread retry s2 =
         (s3, Ok (mkSubmission thread (sub_turn_id sub) (st_work_id request) (sub_cursor sub) true))) ∧
      (¬ request_agrees retry request →
       ∃ reason, start_turn fuel' env' thread retry s2 =
         (s3, Err (IdempotencyConflict (sub_turn_id sub) reason))).
Proof.
  intros Hs Hst Hdup Hfresh Hpol Henc s2 rows fuel' env' retry Hs2 Hl2 Hq Hread Hfuel Hlock Hscreen Hcid.
  destruct (start_turn_first _ _ _ _ _ _ _ Hs Hst Hdup Henc) as (Hreq & rows1 & row & Hl1 & Hev & ->).
  simpl in *. set (j := replay default_journal (log_rows (sv_journal s))) in *.
  pose proof (submission_turns env thread request j rows1 row _ Hev eq_refl Hfresh Hpol Hreq) as Ht.
  assert (turns_of (replay j (rows1 ++ [row])) thread !! length (turns_of j thread) =
          Some (submitted_turn env thread request (ce_cursor row))) as Hi.
  { rewrite Ht. by apply list_lookup_middle. }
  destruct (replay_keeps_message rows _ _ _ _ Hi Hq) as (t & Hi2 & Hid & Hcur).
  unfold j in Hi2.
  rewrite <- (replay_app default_journal), <- Hl1, <- replay_app, <- Hl2 in Hi2.
  assert (ft_client_request_id t = Some (st_client_request_id retry)) as Hc.
  { destruct Hid as (_ & <- & _). by rewrite Hcid. }
  destruct (retry_arm fuel' env' thread retry s2 _ t (ce_cursor row) Hs2 Hread Hfuel Hlock Hscreen
              Hi2 Hc Hcur) as (s3 & Hj & ->).
  exists s3. split; [done|].
  destruct (retry_binding env thread request (ce_cursor row) t retry Hid) as [Hok Hno].
  destruct Hid as (Hid & _ & Hw & _). simpl in Hid, Hw. split.
  - intros Ha. rewrite (Hok Ha). simpl. by rewrite <- Hid, <- Hw.
  - intros Ha. destruct (Hno Ha) as [reason ->]. by exists reason.
Qed.

(** C3.  Submission is exactly-once.  After a first submission went through
    (with fresh event ids and a fresh turn id, and events the log
    reads back as they were written), and whatever rows other writers append afterwards as long as
    none is another message for that turn, every later submission under the same
    client request id finds the turn: if it agrees on prompt, routing policy and
    Work it is answered with the same turn, Work and message cursor, marked as a
    duplicate; if not it is refused as an idempotency conflict.  In both cases
    the journal is left as it is.  The request itself always agrees. *)
Theorem start_turn_exactly_once (s s1 : Service L) (fuel : nat) (env : Env) (thread : string)
    (request : StartTurnRequest) (sub : TurnSubmission) :
  service_coherent s →
  start_turn fuel env thread request s = (s1, Ok sub) → sub_duplicate sub = false →
  fresh_submission env thread request (replay default_journal (log_rows (sv_journal s))) →
  policy_representable (st_route_policy request) →
  (∀ b, Forall log_encodes (submission_events env thread request b)) →
  request_agrees request request ∧
  ∀ (s2 : Service L) rows fuel' env' retry,
    service_coherent s2 → log_rows (sv_journal s2) = log_rows (sv_journal s1) ++ rows →
    Forall (no_message_for thread (sub_turn_id sub)) rows →
    log_readable (sv_journal s2) → (length (log_rows (sv_journal s2)) < fuel')%nat →
    env_locks env' = Ok tt → screen_submission retry = Ok tt →
    st_client_request_id retry = st_client_request_id request →
    ∃ s3, sv_journal s3 = sv_journal s2 ∧
      (request_agrees retry request →
       start_turn fuel' env' thread retry s2 =
         (s3, Ok (mkSubmission thread (sub_turn_id sub) (st_work_id request) (sub_cursor sub) true))) ∧
      (¬ request_agrees retry request →
       ∃ reason, start_turn fuel' env' thread retry s2 =
         (s3, Err (IdempotencyConflict (sub_turn_id sub) reason))).
Proof.
  intros Hs Hst Hdup Hfresh Hpol Henc. split; [by apply agrees_refl|]. by eapply submitted_once.
Qed.
End operations.
