(* ===== verification/SessionRecovery.v ===== *)
(** * Restart recovery, and the paging of a thread

    [recover_interrupted] closes every open turn of the stream, each with the
    reason its state calls for, and is idempotent.  Then reading the stream back
    page by page, and artifact links. *)

From stdpp Require Import base gmap sets strings numbers sorting list.
From Stdlib Require Import Ascii.
From S2P Require Import Prelude Json Hex Envelope OperatorEvent RoutePolicy Sensitive Turns TurnProtocol.
From S2P Require Import EventLog Session SessionSync SessionTurns.
#[local] Open Scope Z_scope.
#[local] Open Scope nat_scope.

(** ** Closing one turn *)

(** What recovery makes of a turn. *)
Definition close_turn (t : FoldedTurn) : FoldedTurn :=
  if is_turn_terminal (ft_status t) then t else set_status "interrupted" t.

Lemma close_turn_terminal t : is_turn_terminal (ft_status (close_turn t)) = true.
Proof. unfold close_turn. by destruct (is_turn_terminal (ft_status t)) eqn:E. Qed.

Lemma close_turn_idem t : close_turn (close_turn t) = close_turn t.
Proof. unfold close_turn at 1. by rewrite close_turn_terminal. Qed.

(** The row that closes a turn of a thread. *)
Definition closes (pair : string * FoldedTurn) (row : CursorEvent) : Prop :=
  ∃ id now act, ce_event row =
    new_event id pair.1 (Some (ft_turn_id pair.2)) None TurnInterrupted now act
      (closing_reason pair.2).

Lemma closing_reason_of t :
  get_str (closing_reason t) "reason" =
    Some (if ft_cancel_requested t then "OPERATOR_CANCELLED" else "RUNTIME_RESTART").
Proof. unfold closing_reason, get_str. rewrite json_get_object. by destruct (ft_cancel_requested t). Qed.

Lemma turn_index_unique ts i i' t t' :
  turns_wf ts → ts !! i = Some t → ts !! i' = Some t' → ft_turn_id t = ft_turn_id t' → i = i'.
Proof.
  intros [Hids _ _] Hi Hi' Heq. eapply NoDup_lookup; [exact Hids|..];
    change (map ft_turn_id ts) with (ft_turn_id <$> ts); rewrite list_lookup_fmap.
  - by rewrite Hi.
  - by rewrite Hi', Heq.
Qed.

Lemma update_turn_at id f ts i t t' :
  turns_wf ts → ts !! i = Some t → ft_turn_id t = id → f t = Some t' →
  update_turn id f ts = Some (<[i := t']> ts).
Proof.
  intros Hwf Hi Hid Hf. apply update_turn_Some.
  exists (take i ts), t, t', (drop (S i) ts). split_and!; try done.
  - by rewrite take_drop_middle.
  - rewrite insert_take_drop; [done|by eapply lookup_lt_Some].
  - apply Forall_forall. intros u Hu Heq. apply list_elem_of_lookup in Hu as [k Hk].
    apply lookup_take_Some in Hk as [Hk Hlt].
    rewrite (turn_index_unique ts k i u t) in Hlt by (done || congruence). lia.
Qed.

(** A closing row closes its turn and leaves the rest of the thread alone. *)
Lemma closing_row j thread t row i :
  closes (thread, t) row → event_id (ce_event row) ∉ mj_seen_event_ids j →
  turns_wf (turns_of j thread) → turns_of j thread !! i = Some t →
  is_turn_terminal (ft_status t) = false →
  turns_of (apply_row j row).1 thread = <[i := set_status "interrupted" t]> (turns_of j thread).
Proof.
  intros (id & now & act & He) Hid Hwf Hi Hopen.
  destruct (plain_row_applied j row) as (j0 & order & Ht & ->).
  { unfold plain_row. split_and!; [done|by rewrite He..]. }
  unfold apply_thread_event, apply_to_existing_thread, turns_of in *.
  rewrite Ht, He. cbn [thread_id new_event event_type fst].
  destruct (mj_threads j !! thread) as [entry|] eqn:El; [|done].
  unfold apply_terminal, on_turn. cbn [turn_id new_event snd mbind option_bind].
  match goal with |- context [update_turn _ ?g _] => set (f := g) end.
  rewrite (update_turn_at _ f _ i t (set_status "interrupted" t)); [|done..|].
  - simpl. by rewrite lookup_insert_eq.
  - unfold f, interruption_reason. cbn [payload new_event]. rewrite closing_reason_of, Hopen.
    by destruct (ft_cancel_requested t).
Qed.

(** ** Closing all of them *)

(** [todo] lists, once each, the open turns of a journal. *)
Record open_list (j : MaterializedJournal) (todo : list (string * FoldedTurn)) : Prop := mkOpenList {
  ol_nodup : NoDup todo;
  ol_spec : ∀ thread t, (thread, t) ∈ todo ↔
    t ∈ turns_of j thread ∧ is_turn_terminal (ft_status t) = false;
}.

Lemma close_open_list j thread t todo row i :
  (∀ th, turns_wf (turns_of j th)) → open_list j ((thread, t) :: todo) →
  turns_of j thread !! i = Some t →
  turns_of (apply_row j row).1 thread = <[i := set_status "interrupted" t]> (turns_of j thread) →
  (∀ th, th ≠ thread → turns_of (apply_row j row).1 th = turns_of j th) →
  open_list (apply_row j row).1 todo.
Proof.
  intros Hwf [Hnd Hspec] Hi Hthis Hother. apply NoDup_cons in Hnd as [Hn Hnd]. split; [done|].
  intros th u. destruct (decide (th = thread)) as [->|Hne].
  2: { rewrite Hother, <- Hspec, elem_of_cons by done. naive_solver. }
  rewrite Hthis. split.
  - intros Hu. assert (u ∈ turns_of j thread ∧ is_turn_terminal (ft_status u) = false) as [Hin Ho]
      by (apply Hspec; set_solver).
    split; [|done]. apply list_elem_of_lookup in Hin as [k Hk]. apply list_elem_of_lookup.
    exists k. rewrite list_lookup_insert_ne; [done|]. intros ->. simplify_eq; done.
  - intros [Hin Ho]. apply list_elem_of_lookup in Hin as [k Hk].
    destruct (decide (k = i)) as [->|Hki].
    { rewrite list_lookup_insert_eq in Hk by (by eapply lookup_lt_Some). by simplify_eq. }
    rewrite list_lookup_insert_ne in Hk by done.
    assert ((thread, u) ∈ (thread, t) :: todo) as [Heq|]%elem_of_cons; [|simplify_eq|done].
    + apply Hspec. split; [by eapply list_elem_of_lookup_2|done].
    + destruct Hki. by eapply turn_index_unique.
Qed.

Lemma map_close_insert ts i t :
  ts !! i = Some t → is_turn_terminal (ft_status t) = false →
  map close_turn (<[i := set_status "interrupted" t]> ts) = map close_turn ts.
Proof.
  intros Hi Ho. change (map close_turn ?l) with (close_turn <$> l). rewrite list_fmap_insert.
  apply list_insert_id. rewrite list_lookup_fmap, Hi. simpl. f_equal.
  unfold close_turn. by rewrite Ho.
Qed.

Lemma map_close_closed j thread : open_list j [] → map close_turn (turns_of j thread) = turns_of j thread.
Proof.
  intros [_ Hspec]. apply list_eq. intros k. change (map close_turn ?l) with (close_turn <$> l).
  rewrite list_lookup_fmap. destruct (turns_of j thread !! k) as [t|] eqn:Hk; [|done]. simpl.
  unfold close_turn. destruct (is_turn_terminal (ft_status t)) eqn:Ho; [done|].
  assert ((thread, t) ∈ []); [|set_solver]. apply Hspec. split; [by eapply list_elem_of_lookup_2|done].
Qed.

(** Rows that close the open turns one by one close all of them. *)
Lemma closing_rows todo rows : Forall2 closes todo rows → ∀ j,
  (∀ th, turns_wf (turns_of j th)) → open_list j todo →
  NoDup (map (λ row, event_id (ce_event row)) rows) →
  Forall (λ row, event_id (ce_event row) ∉ mj_seen_event_ids j) rows →
  (∀ thread, turns_of (replay j rows) thread = map close_turn (turns_of j thread)) ∧
  open_list (replay j rows) [].
Proof.
  induction 1 as [|[thread t] row todo rows Hc _ IH]; intros j Hwf Hol Hnd Hfresh.
  { split; [|done]. intros thread. symmetry. by apply map_close_closed. }
  simpl in Hnd. apply NoDup_cons in Hnd as [Hn Hnd]. apply Forall_cons_iff in Hfresh as [Hf Hfresh].
  assert (t ∈ turns_of j thread ∧ is_turn_terminal (ft_status t) = false) as [Hin Ho]
    by (apply Hol; set_solver).
  apply list_elem_of_lookup in Hin as [i Hi].
  pose proof (closing_row j thread t row i Hc Hf (Hwf thread) Hi Ho) as Hthis.
  assert (thread_id (ce_event row) = thread) as Hth by (destruct Hc as (?&?&?&He); by rewrite He).
  destruct (apply_row_step j row) as [Hother _]. rewrite Hth in Hother.
  assert (∀ th, turns_wf (turns_of (apply_row j row).1 th)) as Hwf'
    by (intros th; by apply (replay_wf [row])).
  pose proof (close_open_list _ _ _ _ _ _ Hwf Hol Hi Hthis Hother) as Hol'.
  destruct (IH _ Hwf' Hol' Hnd) as [Hall Hend].
  { apply Forall_forall. intros row' Hr. rewrite apply_row_seen, not_elem_of_union. split.
    - rewrite not_elem_of_singleton. intros Heq. apply Hn. rewrite <- Heq.
      apply list_elem_of_fmap. eauto.
    - by eapply Forall_forall in Hfresh. }
  split; [|done]. intros th. rewrite replay_cons, Hall.
  destruct (decide (th = thread)) as [->|Hne]; [|by rewrite Hother].
  rewrite Hthis. by apply map_close_insert.
Qed.

(** The open turns recovery enumerates. *)
Lemma open_turns_list j :
  (∀ th, turns_wf (turns_of j th)) → open_list j (open_turns (map_to_list (mj_threads j))).
Proof.
  intros Hwf. unfold open_turns. split.
  - apply NoDup_bind; [|intros [th entry] Hin|apply NoDup_map_to_list].
    + intros [th entry] [th' entry'] [a u] Hin Hin' Hy Hy'.
      apply list_elem_of_fmap in Hy as (? & Heq & _), Hy' as (? & Heq' & _).
      simpl in Heq, Heq'. simplify_eq.
      apply elem_of_map_to_list in Hin, Hin'. by simplify_eq.
    + apply elem_of_map_to_list in Hin. apply NoDup_fmap; [intros ? ? [= ?]; done|].
      apply NoDup_filter. specialize (Hwf th). unfold turns_of in Hwf. rewrite Hin in Hwf.
      destruct Hwf as [Hids _ _]. by apply NoDup_fmap_1 in Hids.
  - intros thread t. rewrite list_elem_of_bind. unfold turns_of. split.
    + intros ([th entry] & Hin & Hel). simpl in *.
      apply list_elem_of_fmap in Hin as (u & [= -> ->] & Hu). apply list_elem_of_filter in Hu as [? ?].
      apply elem_of_map_to_list in Hel. by rewrite Hel.
    + intros [Hin Ho]. destruct (mj_threads j !! thread) as [entry|] eqn:El; [|set_solver].
      exists (thread, entry). split; [|by apply elem_of_map_to_list]. simpl.
      apply list_elem_of_fmap. exists t. split; [done|]. by apply list_elem_of_filter.
Qed.

Lemma closing_events_close env act todo rows :
  map ce_event rows = closing_events env act todo →
  Forall2 closes todo rows ∧
  map (λ row, event_id (ce_event row)) rows = map (env_ids env) (seq 0 (length todo)).
Proof.
  intros Hev. assert (length rows = length todo) as Hlen.
  { apply (f_equal length) in Hev. unfold closing_events in Hev.
    by rewrite length_map, length_imap in Hev. }
  assert (∀ i row, rows !! i = Some row → ∃ p, todo !! i = Some p ∧ ce_event row =
    new_event (env_ids env i) p.1 (Some (ft_turn_id p.2)) None TurnInterrupted (env_now env) act
      (closing_reason p.2)) as Hat.
  { intros i row Hi. apply (f_equal (λ l, l !! i)) in Hev.
    change (map ce_event rows) with (ce_event <$> rows) in Hev.
    unfold closing_events in Hev. rewrite list_lookup_fmap, list_lookup_imap, Hi in Hev. simpl in Hev.
    destruct (todo !! i) as [[th t]|]; [|done]. simpl in Hev. exists (th, t). split; [done|].
    by injection Hev. }
  split.
  - apply Forall2_same_length_lookup_2; [done|]. intros i p row Hp Hr.
    destruct (Hat i row Hr) as (p' & Hp' & He). simplify_eq. by eexists _, _, _.
  - apply list_eq. intros i. change (map ?f ?l) with (f <$> l). rewrite !list_lookup_fmap.
    destruct (rows !! i) as [row|] eqn:Hr; simpl.
    + destruct (Hat i row Hr) as (p & Hp & He). rewrite lookup_seq_lt by (by eapply lookup_lt_Some).
      simpl. by rewrite He.
    + apply lookup_ge_None in Hr. by rewrite lookup_seq_ge by lia.
Qed.

Section recovery.
Context `{EventLogLaws L}.

(** The log takes these events one after the other, and stays readable. *)
Fixpoint log_accepts (l : L) (events : list OperatorEvent) : Prop :=
  match events with
  | [] => log_readable l
  | e :: events' => log_encodes e ∧ ∃ l' row, log_append l e = (l', Ok row) ∧ log_accepts l' events'
  end.

Lemma append_all_total events : ∀ s : Service L,
  log_accepts (sv_journal s) events →
  ∃ l rows, append_all events s = (mkService l (sv_projection s), Ok tt) ∧
    log_rows l = log_rows (sv_journal s) ++ rows ∧ map ce_event rows = events ∧ log_readable l ∧
    (events = [] → l = sv_journal s).
Proof.
  induction events as [|e events IH]; intros s Ha.
  { exists (sv_journal s), []. rewrite app_nil_r. by destruct s. }
  destruct Ha as (Henc & l' & row & Happ & Ha). simpl. unfold bind, append. rewrite Happ. simpl.
  destruct (IH (mkService l' (sv_projection s)) Ha) as (l & rows & -> & Hl & Hev & Hr & _).
  apply log_append_ok in Happ as [He Hrow]; [|done]. exists l, (row :: rows). split_and!; try done.
  - rewrite Hl. simpl. by rewrite Hrow, <- app_assoc.
  - simpl. by rewrite He, Hev.
Qed.

Definition journal_of (s : Service L) : MaterializedJournal :=
  replay default_journal (log_rows (sv_journal s)).

Definition turns_to_close (s : Service L) : list (string * FoldedTurn) :=
  open_turns (map_to_list (mj_threads (journal_of s))).

Lemma journal_of_wf s th : turns_wf (turns_of (journal_of s) th).
Proof. apply replay_wf, default_turns_wf. Qed.

(** Recovery runs to its end and appends the closing rows. *)
Lemma recover_total fuel env (s : Service L) :
  service_coherent s → env_locks env = Ok tt → log_readable (sv_journal s) →
  log_accepts (sv_journal s) (closing_events env runtime_actor (turns_to_close s)) →
  (length (log_rows (sv_journal s)) + length (turns_to_close s) < fuel)%nat →
  ∃ s1 rows, recover_interrupted fuel env s = (s1, Ok (length (turns_to_close s))) ∧
    log_rows (sv_journal s1) = log_rows (sv_journal s) ++ rows ∧
    map ce_event rows = closing_events env runtime_actor (turns_to_close s) ∧
    log_readable (sv_journal s1) ∧ service_coherent s1 ∧
    (turns_to_close s = [] → sv_journal s1 = sv_journal s).
Proof.
  intros (pre & post & Hr & Hs) Hlock Hl Hacc Hf.
  destruct (sync_loop_ok (sv_journal s) true Hl fuel pre post _ Hr Hs) as (j & Hsync & [Hcore Hcur]).
  { rewrite Hr, length_app in Hf. lia. }
  assert (mj_threads j = mj_threads (journal_of s)) as Hth by exact (f_equal mj_threads Hcore).
  destruct (append_all_total _ (mkService (sv_journal s) j) Hacc)
    as (l & rows & Happ & Hrows & Hev & Hread & Hsame). simpl in *.
  destruct (sync_loop_ok l false Hread fuel [] (log_rows l) default_journal) as (j' & Hobs & _);
    [done|apply synced_nil|..].
  { apply (f_equal length) in Hev. unfold closing_events in Hev. rewrite length_map, length_imap in Hev.
    rewrite Hrows, length_app. lia. }
  exists (mkService l j), rows. unfold recover_interrupted, recover_interrupted_with, bind, lift,
    lock_writer_transaction, materialized, sync_materialized. rewrite Hlock. simpl.
  rewrite Hsync, Hth. fold (turns_to_close s). rewrite Happ. unfold observing_replay. simpl.
  rewrite Hobs. simpl. split_and!; [done..| |].
  - exists (log_rows (sv_journal s)), rows. split; [done|]. by split.
  - intros Hnil. apply Hsame. by rewrite Hnil.
Qed.

(** C25.  Restart recovery: over a readable log that takes the closing events
    under fresh ids, [recover_interrupted] returns (no more rounds than rows are
    needed) the number of turns that were open, having appended one interrupting
    event for each, in order and nothing else: under the turn's own thread and
    id, with the reason [OPERATOR_CANCELLED] when its cancellation had been asked
    for and [RUNTIME_RESTART] when not; in the stream it leaves, every turn that was open is
    interrupted, every turn that had ended is what it was, and a second recovery
    returns 0 and appends nothing. *)
Theorem recovery_closes_every_turn (s : Service L) (fuel : nat) (env : Env) :
  let todo := turns_to_close s in
  service_coherent s → env_locks env = Ok tt → log_readable (sv_journal s) →
  log_accepts (sv_journal s) (closing_events env runtime_actor todo) →
  (length (log_rows (sv_journal s)) + length todo < fuel)%nat →
  NoDup (map (env_ids env) (seq 0 (length todo))) →
  Forall (λ id, id ∉ mj_seen_event_ids (journal_of s)) (map (env_ids env) (seq 0 (length todo))) →
  ∃ s1 rows, recover_interrupted fuel env s = (s1, Ok (length todo)) ∧
    log_rows (sv_journal s1) = log_rows (sv_journal s) ++ rows ∧
    Forall2 (λ open row,
      event_type (ce_event row) = TurnInterrupted ∧ thread_id (ce_event row) = open.1 ∧
      turn_id (ce_event row) = Some (ft_turn_id open.2) ∧
      get_str (payload (ce_event row)) "reason" =
        Some (if ft_cancel_requested open.2 then "OPERATOR_CANCELLED" else "RUNTIME_RESTART")) todo rows ∧
    (∀ thread, turns_of (journal_of s1) thread = map close_turn (turns_of (journal_of s) thread)) ∧
    ∀ fuel' env', env_locks env' = Ok tt → (length (log_rows (sv_journal s1)) < fuel')%nat →
      ∃ s2, recover_interrupted fuel' env' s1 = (s2, Ok 0%nat) ∧ sv_journal s2 = sv_journal s1.
Proof.
  intros todo Hs Hlock Hl Hacc Hf Hnd Hfresh. subst todo.
  destruct (recover_total fuel env s Hs Hlock Hl Hacc Hf)
    as (s1 & rows & Hrec & Hrows & Hev & Hread & Hs1 & _).
  exists s1, rows. do 2 (split; [done|]).
  destruct (closing_events_close _ _ _ _ Hev) as [Hcl Hids].
  split.
  { eapply Forall2_impl; [exact Hcl|]. intros open row (id & now & act & ->).
    split_and!; [done..|apply closing_reason_of]. }
  assert (open_list (journal_of s) (turns_to_close s)) as Hol by (apply open_turns_list, journal_of_wf).
  destruct (closing_rows _ _ Hcl (journal_of s) (journal_of_wf s) Hol) as [Hall [_ Hend]].
  { by rewrite Hids. }
  { rewrite <- Hids in Hfresh. exact (proj1 (Forall_map _ _ _) Hfresh). }
  assert (replay (journal_of s) rows = journal_of s1) as Hj.
  { unfold journal_of. by rewrite <- replay_app, <- Hrows. }
  rewrite Hj in *. split; [done|]. intros fuel' env' Hlock' Hf'.
  assert (turns_to_close s1 = []) as Hnil.
  { destruct (open_turns_list (journal_of s1) (journal_of_wf s1)) as [_ Hspec].
    apply elem_of_nil_inv. intros [th t] Hin.
    apply Hspec in Hin. apply Hend in Hin. set_solver. }
  destruct (recover_total fuel' env' s1 Hs1 Hlock' Hread) as (s2 & rows2 & Hrec2 & _ & _ & _ & _ & Hsame).
  - by rewrite Hnil.
  - rewrite Hnil. simpl. lia.
  - exists s2. rewrite Hnil in Hrec2. auto.
Qed.

(** ** Any planner *)

(** The log takes every event of a class. *)
Definition log_takes (takes : OperatorEvent → Prop) : Prop :=
  ∀ l e, log_readable l → takes e →
    log_encodes e ∧ ∃ l' row, log_append l e = (l', Ok row) ∧ log_readable l'.

Lemma log_takes_accepts takes events : log_takes takes → Forall takes events →
  ∀ l, log_readable l → log_accepts l events.
Proof.
  intros Ht. induction 1 as [|e events He _ IH]; intros l Hl; [done|].
  destruct (Ht l e Hl He) as (Henc & l' & row & Ha & Hl'). split; [done|]. eauto.
Qed.

(** What the planner observes of a list of rows. *)
Definition observe_with `{RecoveryPlanner P R} (planner : P) (rows : list CursorEvent) : P :=
  foldl (λ p '(row, a), plan_observe p (ce_event row) a) planner (observe_rows default_journal rows).

(**  Recovery extended by a planner, over a log that takes the
    closing events and whatever the planner asks for: it returns, having
    appended the closing events and then exactly the planner's events; the
    planner observed every row of the stream as it stood before its own events,
    in append order, each with the admission replay gives it. *)
Theorem recovery_runs_its_planner `{RecoveryPlanner P R} (takes : OperatorEvent → Prop)
    (planner : P) (s : Service L) (fuel : nat) (env : Env) :
  let todo := turns_to_close s in
  service_coherent s → env_locks env = Ok tt → log_readable (sv_journal s) → log_takes takes →
  Forall takes (closing_events env runtime_actor todo) →
  (∀ rows n, ∃ plan, plan_events (observe_with planner rows) n = Ok plan ∧ Forall takes plan.1) →
  (length (log_rows (sv_journal s)) + length todo < fuel)%nat →
  ∃ s1 outcome closed planned n,
    recover_interrupted_with fuel env planner s = (s1, Ok outcome) ∧
    log_rows (sv_journal s1) = log_rows (sv_journal s) ++ closed ++ planned ∧
    map ce_event closed = closing_events env runtime_actor todo ∧
    map ce_event planned = ro_appended outcome ∧
    ro_interrupted_turns outcome = length todo ∧
    plan_events (observe_with planner (log_rows (sv_journal s) ++ closed)) n =
      Ok (ro_appended outcome, ro_report outcome) ∧
    service_coherent s1.
Proof.
  intros todo (pre & post & Hr & Hs) Hlock Hl Ht Hclosing Hplan Hf. subst todo.
  destruct (sync_loop_ok (sv_journal s) true Hl fuel pre post _ Hr Hs) as (j & Hsync & [Hcore Hcur]).
  { rewrite Hr, length_app in Hf. lia. }
  assert (mj_threads j = mj_threads (journal_of s)) as Hth by exact (f_equal mj_threads Hcore).
  destruct (append_all_total _ (mkService (sv_journal s) j)
    (log_takes_accepts _ _ Ht Hclosing _ Hl)) as (l & rows & Happ & Hrows & Hev & Hread & _).
  simpl in *. destruct (sync_loop_ok l false Hread fuel [] (log_rows l) default_journal)
    as (j' & Hobs & _); [done|apply synced_nil|..].
  { apply (f_equal length) in Hev. unfold closing_events in Hev. rewrite length_map, length_imap in Hev.
    rewrite Hrows, length_app. lia. }
  destruct (Hplan (log_rows l) (skipped_lines j')) as ([evs rep] & Hpl & Hevs).
  destruct (append_all_total evs (mkService l j) (log_takes_accepts _ _ Ht Hevs _ Hread))
    as (l2 & rows2 & Happ2 & Hrows2 & Hev2 & _). simpl in *.
  eexists (mkService l2 j), (mkOutcome _ evs rep), rows, rows2, (skipped_lines j').
  simpl. split_and!; [|by rewrite Hrows2, Hrows, app_assoc|done..|by rewrite <- Hrows|].
  - unfold recover_interrupted_with, bind, lift, lock_writer_transaction, materialized, sync_materialized.
    rewrite Hlock. simpl. rewrite Hsync, Hth. fold (turns_to_close s). rewrite Happ.
    unfold observing_replay. simpl. rewrite Hobs. simpl.
    change (observe_rows (core default_journal)) with (observe_rows default_journal).
    fold (observe_with planner (log_rows l)). rewrite Hpl. simpl. by rewrite Happ2.
  - exists (log_rows (sv_journal s)), (rows ++ rows2). split; [|by split].
    simpl. by rewrite Hrows2, Hrows, app_assoc.
Qed.
End recovery.

(** ** Reading the stream back

    [events_after] pages one thread's rows out of the stream without loss or
    repetition; [artifact_links] scans the whole of it. *)

#[local] Open Scope nat_scope.

(** The rows of a thread. *)
Definition on_thread (thread : string) (row : CursorEvent) : Prop :=
  thread_id (ce_event row) = thread.
#[export] Instance on_thread_dec thread row : Decision (on_thread thread row).
Proof. unfold on_thread. apply _. Defined.

Lemma collect_page_spec thread limit rows : ∀ collected index,
  length collected < limit →
  (collect_page thread limit collected index rows =
     (collected ++ filter (on_thread thread) rows, None) ∧
   length (collected ++ filter (on_thread thread) rows) < limit) ∨
  (∃ k, k < length rows ∧
     collect_page thread limit collected index rows =
       (collected ++ filter (on_thread thread) (take (S k) rows), Some (index + k)) ∧
     length (collected ++ filter (on_thread thread) (take (S k) rows)) = limit).
Proof.
  induction rows as [|row rows IH]; intros collected index Hlt.
  { left. by rewrite filter_nil, app_nil_r. }
  simpl. rewrite filter_cons. change (thread_id (ce_event row) = thread) with (on_thread thread row).
  case_bool_decide as Ht.
  - rewrite decide_True by done. case_bool_decide as Hl.
    + right. exists 0. rewrite Nat.add_0_r, take_0, filter_cons_True by done. rewrite filter_nil.
      split_and!; [lia|done|done].
    + destruct (IH (collected ++ [row]) (S index)) as [[-> Hn]|(k & Hk & -> & Hn)].
      { rewrite length_app in *. simpl in *. lia. }
      * left. by rewrite <- app_assoc in *.
      * right. exists (S k). rewrite filter_cons_True by done.
        rewrite <- app_assoc in *. split_and!; [lia|by rewrite Nat.add_succ_r|done].
  - rewrite decide_False by done.
    destruct (IH collected (S index)) as [[-> Hn]|(k & Hk & -> & Hn)]; [done|by left|].
    right. exists (S k). rewrite filter_cons_False by done.
    split_and!; [lia|by rewrite Nat.add_succ_r|done].
Qed.

Section paging.
Context `{EventLogLaws L}.

(** A page that answers a read of one thread: what was scanned, what is left. *)
Definition answers (thread : string) (limit : nat) (cursor : option string)
    (post : list CursorEvent) (page : OperatorPage) : Prop :=
  ∃ scanned rest, post = scanned ++ rest ∧
    op_events page = filter (on_thread thread) scanned ∧
    op_next_cursor page = cursor_after cursor scanned ∧
    length (op_events page) ≤ limit ∧ (length (op_events page) < limit → rest = []).

Lemma cursor_after_take cursor rows k row :
  rows !! k = Some row → cursor_after cursor (take (S k) rows) = Some (ce_cursor row).
Proof. intros Hk. unfold cursor_after. by rewrite (take_S_r _ _ _ Hk), last_snoc. Qed.

Lemma events_loop_spec l thread limit : log_readable l → ∀ fuel pre scanned post collected skipped,
  log_rows l = pre ++ scanned ++ post → length post < fuel →
  collected = filter (on_thread thread) scanned → length collected < limit →
  ∃ page, events_loop fuel l thread limit collected skipped (cursor_after None (pre ++ scanned)) =
      Some (Ok page) ∧
    answers thread limit (cursor_after None pre) (scanned ++ post) page.
Proof.
  intros Hl. induction fuel as [|fuel IH]; intros pre scanned post collected skipped Hr Hf Hc Hlt; [lia|].
  rewrite app_assoc in Hr. destruct (log_read_ok l _ _ PAGE_SIZE Hl Hr) as [page Hp].
  destruct (log_read l _ _ _ _ _ Hr eq_refl Hp) as [He Hn]. simpl. rewrite Hp.
  destruct (op_events page) as [|row rows] eqn:Hev.
  - assert (post = []) as -> by (by destruct post). eexists. split; [done|].
    exists scanned, []. cbn [op_events op_next_cursor].
    split_and!; [done|done|by rewrite Hn, take_nil, !cursor_after_app, app_nil_r|lia|done].
  - rewrite <- Hev in *. destruct (collect_page_spec thread limit (op_events page) collected 0 Hlt)
      as [[-> Hlen]|(k & Hk & -> & Hlen)].
    + rewrite Hn, cursor_after_app, <- app_assoc.
      destruct (IH pre (scanned ++ op_events page) (drop PAGE_SIZE post)
        (collected ++ filter (on_thread thread) (op_events page))
        (skipped + op_skipped_lines page)%Z) as (page' & Hpage' & Hans).
      * by rewrite Hr, He, <- !app_assoc, take_drop.
      * assert (0 < length (op_events page)) by (rewrite Hev; simpl; lia).
        rewrite He, length_take in *. rewrite length_drop. unfold PAGE_SIZE in *. lia.
      * by rewrite filter_app, Hc.
      * done.
      * rewrite <- He. exists page'. split; [exact Hpage'|].
        by rewrite He, <- app_assoc, take_drop in Hans.
    + eexists. split; [done|].
      exists (scanned ++ take (S k) (op_events page)), (drop (S k) post). simpl.
      assert (take (S k) (op_events page) = take (S k) post) as Htk.
      { rewrite He, take_take. f_equal. rewrite He, length_take in Hk. lia. }
      split_and!.
      * by rewrite Htk, <- app_assoc, take_drop.
      * by rewrite filter_app, Hc.
      * destruct (lookup_lt_is_Some_2 (op_events page) k Hk) as [row' Hrow']. rewrite Hrow'. simpl.
        rewrite <- cursor_after_app, (cursor_after_take _ _ _ _ Hrow'). done.
      * lia.
      * lia.
Qed.

(** C8.  Paging loses and repeats nothing: reading a thread from the cursor
    after any first part of a readable log returns (as many rounds as there are
    rows left, and one, are enough) the thread's next rows in stream order, at
    most [limit] of them, together with a cursor that stands exactly after what
    was scanned, so that reading on from it continues where this page ended; a
    page shorter than the limit means the stream was read to its end. *)
Theorem events_after_pages_exactly (l : L) (fuel limit : nat) (thread : string)
    (pre post : list CursorEvent) :
  log_readable l → log_rows l = pre ++ post → length post < fuel →
  ∃ page scanned rest,
    events_after fuel l thread (cursor_after None pre) limit = Some (Ok page) ∧
    post = scanned ++ rest ∧
    op_events page = filter (on_thread thread) scanned ∧
    op_next_cursor page = cursor_after None (pre ++ scanned) ∧
    op_events page ++ filter (on_thread thread) rest = filter (on_thread thread) post ∧
    length (op_events page) ≤ limit ∧ (length (op_events page) < limit → rest = []).
Proof.
  intros Hl Hr Hf. unfold events_after. case_bool_decide as H0lim.
  - eexists _, [], post. rewrite app_nil_r. simpl. split_and!; [done..|simpl; lia|intros ?; simpl in *; lia].
  - destruct (events_loop_spec l thread limit Hl fuel pre [] post [] 0)
      as (page & Hp & scanned & rest & Hpost & He & Hn & Hle & Hlt);
      [done|done|done|simpl; lia|].
    rewrite app_nil_r in Hp. simpl in Hpost. exists page, scanned, rest.
    rewrite cursor_after_app in Hn. split_and!; try done.
    by rewrite He, <- filter_app, <- Hpost.
Qed.

(** ** Artifact links *)

Lemma cursor_after_fresh l pre rows post : log_rows l = pre ++ rows ++ post → rows ≠ [] →
  ∃ next, cursor_after (cursor_after None pre) rows = Some next ∧ cursor_after None pre ≠ Some next.
Proof.
  intros Hr Hne. destruct rows as [|row rows _] using rev_ind; [done|].
  exists (ce_cursor row). rewrite cursor_after_app. unfold cursor_after.
  rewrite app_assoc, last_snoc. split; [done|]. intros Heq.
  destruct pre as [|p pre _] using rev_ind; [done|]. rewrite last_snoc in Heq.
  pose proof (log_cursors l) as Hnd. rewrite Hr, !map_app in Hnd. simpl in Hnd.
  injection Heq as Heq. rewrite Heq in Hnd.
  apply list.NoDup_app in Hnd as (_ & Hd & _). apply (Hd (ce_cursor row)); set_solver.
Qed.

Lemma artifact_loop_spec l : log_readable l → ∀ fuel pre post links,
  log_rows l = pre ++ post → length post < fuel →
  artifact_loop fuel l links (cursor_after None pre) =
    Some (Ok (list_to_set (omap artifact_link post) ∪ links)).
Proof.
  intros Hl. induction fuel as [|fuel IH]; intros pre post links Hr Hf; [lia|].
  destruct (log_read_ok l _ _ PAGE_SIZE Hl Hr) as [page Hp].
  destruct (log_read l _ _ _ _ _ Hr eq_refl Hp) as [He Hn].
  cbn [artifact_loop]. rewrite Hp, He, Hn.
  destruct post as [|row post].
  { simpl. destruct (cursor_after None pre); done. }
  assert (take PAGE_SIZE (row :: post) ≠ []) as Hne by done.
  destruct (cursor_after_fresh l pre (take PAGE_SIZE (row :: post)) (drop PAGE_SIZE (row :: post)))
    as (next & Hnext & Hdiff); [by rewrite take_drop|done|].
  rewrite Hnext, (bool_decide_false (_ = [])), (bool_decide_false (_ = Some next)) by done.
  cbn [orb].
  rewrite <- Hnext, cursor_after_app, (IH _ (drop PAGE_SIZE (row :: post))).
  - assert (omap artifact_link (row :: post) = omap artifact_link (take PAGE_SIZE (row :: post)) ++
              omap artifact_link (drop PAGE_SIZE (row :: post))) as ->
      by by rewrite <- omap_app, take_drop.
    rewrite list_to_set_app_L. do 2 f_equal. set_solver.
  - by rewrite <- app_assoc, take_drop.
  - rewrite length_drop. unfold PAGE_SIZE. simpl in *. lia.
Qed.

(**  The stream decides artifact links: over a readable log the scan
    returns (with as many rounds as rows, and one) and an artifact is linked to
    a thread exactly when some [artifact_created] row of that thread names it. *)
Theorem artifact_link_iff_row (l : L) (fuel : nat) (thread artifact : string) :
  log_readable l → length (log_rows l) < fuel →
  ∃ b, has_artifact_link fuel l thread artifact = Some (Ok b) ∧
    (b = true ↔ ∃ row, row ∈ log_rows l ∧ event_type (ce_event row) = ArtifactCreated ∧
       thread_id (ce_event row) = thread ∧
       get_str (payload (ce_event row)) "artifact_id" = Some artifact).
Proof.
  intros Hl Hf. unfold has_artifact_link, artifact_links.
  rewrite (artifact_loop_spec l Hl fuel [] (log_rows l) ∅) by done. simpl.
  eexists. split; [done|]. rewrite bool_decide_eq_true, elem_of_union, elem_of_list_to_set,
    list_elem_of_omap. split.
  - intros [(row & Hin & Ha)|Hin]; [|set_solver]. exists row. split; [done|].
    unfold artifact_link in Ha. case_bool_decide; [|done].
    destruct (get_str _ _); by simplify_eq/=.
  - intros (row & Hin & Hty & Hth & Ha). left. exists row. split; [done|].
    unfold artifact_link. by rewrite bool_decide_true, Ha, <- Hth by done.
Qed.
End paging.
