(* ===== verification/WorkerEvents.v ===== *)
(** * Workers and panes as operator events (crates/heiwa_worker: model.rs, events.rs)

    The identities of a worker run and of its pane, the payloads of the six
    events about them with their derived encoding and decoding, and the events
    as the crate builds them. *)

From stdpp Require Import base strings numbers list.
From S2P Require Import Prelude Json OperatorEvent EvidenceRecords.
#[local] Open Scope Z_scope.

(** The schema version of worker and pane records. *)
Definition SCHEMA_VERSION : Z := 1.

Inductive WorkerState : Type := Starting | Live | Stale | Exited | Failed | Revoked.
Inductive PaneState : Type := Unverified | Working | PaneDone | PaneFailed | PaneStale.
Inductive ObservedProcess : Type := Alive | Gone | Unknown.

#[export] Instance worker_state_eq_dec : EqDecision WorkerState.
Proof. solve_decision. Defined.
#[export] Instance pane_state_eq_dec : EqDecision PaneState.
Proof. solve_decision. Defined.
#[export] Instance observed_process_eq_dec : EqDecision ObservedProcess.
Proof. solve_decision. Defined.

(** [ObservedProcess::as_str], which is also its serde name. *)
Definition observed_text (p : ObservedProcess) : string :=
  match p with Alive => "alive" | Gone => "gone" | Unknown => "unknown" end.

Definition all_observed : list ObservedProcess := [Alive; Gone; Unknown].

(** [PaneState::for_worker]. *)
Definition for_worker (w : WorkerState) : PaneState :=
  match w with
  | Starting => Unverified
  | Live => Working
  | Exited => PaneDone
  | Failed | Revoked => PaneFailed
  | Stale => PaneStale
  end.

Record WorkerIdentity : Type := mkWorker {
  wi_schema_version : Z;
  wi_worker_id : string;
  wi_work_id : string;
  wi_thread_id : string;
  wi_provider : string;
  wi_provider_session_ref : option string;
  wi_executable_path : string;
  wi_executable_sha256 : string;
  wi_cwd : string;
  wi_repo_root : string;
  wi_branch : string;
  wi_base_commit : string;
  wi_lease_id : string;
  wi_installation_id : string;
  wi_started_at : string;
}.

Record PaneIdentity : Type := mkPane {
  pi_schema_version : Z;
  pi_pane_id : string;
  pi_work_id : string;
  pi_worker_id : string;
  pi_cwd : string;
  pi_repo_root : string;
  pi_branch : string;
  pi_opened_at : string;
}.

(** ** Payloads *)

Record WorkerLaunchedPayload : Type := mkLaunched {
  la_worker_id : string;
  la_provider : string;
  la_provider_session_ref : option string;
  la_executable_path : string;
  la_executable_sha256 : string;
  la_cwd : string;
  la_repo_root : string;
  la_branch : string;
  la_base_commit : string;
  la_lease_id : string;
  la_installation_id : string;
}.

Record WorkerHeartbeatPayload : Type := mkHeartbeat {
  hb_worker_id : string;
  hb_pid : Z;
  hb_process_start_id : option string;
}.

Record WorkerExitedPayload : Type := mkExited {
  ex_worker_id : string;
  ex_exit_code : option Z;
  ex_failure_code : option string;
}.

Record WorkerStalePayload : Type := mkStale {
  sp_worker_id : string;
  sp_reason : string;
  sp_process : ObservedProcess;
  sp_pid : option Z;
}.

Record PaneOpenedPayload : Type := mkPaneOpened {
  po_pane_id : string;
  po_worker_id : string;
  po_cwd : string;
  po_repo_root : string;
  po_branch : string;
}.

Record PaneClosedPayload : Type := mkPaneClosed {
  pc_pane_id : string;
  pc_worker_id : string;
  pc_tail : list string;
  pc_dropped_lines : Z;
}.

Definition OWNER_LOST : string := "owner_lost".

(** ** Serialization *)

(** An [Option] field that is left out when it is [None]. *)
Definition present {A} (k : string) (enc : A → json) (o : option A) : list (string * json) :=
  match o with Some a => [(k, enc a)] | None => [] end.

Definition json_opt {A} (enc : A → json) (o : option A) : json :=
  match o with Some a => enc a | None => JNull end.

Definition u32_json (u : Z) : json := JNumber (PosInt u).

(** A signed 32-bit integer read from a [Value]. *)
Definition as_i32 (v : json) : option Z :=
  i ← as_i64 v; if bool_decide (- 2 ^ 31 ≤ i < 2 ^ 31) then Some i else None.

Definition launched_value (p : WorkerLaunchedPayload) : json :=
  json_object [("worker_id", JString (la_worker_id p));
               ("provider", JString (la_provider p));
               ("provider_session_ref", json_opt_str (la_provider_session_ref p));
               ("executable_path", JString (la_executable_path p));
               ("executable_sha256", JString (la_executable_sha256 p));
               ("cwd", JString (la_cwd p));
               ("repo_root", JString (la_repo_root p));
               ("branch", JString (la_branch p));
               ("base_commit", JString (la_base_commit p));
               ("lease_id", JString (la_lease_id p));
               ("installation_id", JString (la_installation_id p))].

Definition heartbeat_value (p : WorkerHeartbeatPayload) : json :=
  json_object ([("worker_id", JString (hb_worker_id p)); ("pid", u32_json (hb_pid p))] ++
               present "process_start_id" JString (hb_process_start_id p)).

Definition exited_value (p : WorkerExitedPayload) : json :=
  json_object [("worker_id", JString (ex_worker_id p));
               ("exit_code", json_opt i64_json (ex_exit_code p));
               ("failure_code", json_opt_str (ex_failure_code p))].

Definition stale_value (p : WorkerStalePayload) : json :=
  json_object ([("worker_id", JString (sp_worker_id p)); ("reason", JString (sp_reason p));
                ("process", JString (observed_text (sp_process p)))] ++
               present "pid" u32_json (sp_pid p)).

Definition pane_opened_value (p : PaneOpenedPayload) : json :=
  json_object [("pane_id", JString (po_pane_id p)); ("worker_id", JString (po_worker_id p));
               ("cwd", JString (po_cwd p)); ("repo_root", JString (po_repo_root p));
               ("branch", JString (po_branch p))].

Definition pane_closed_value (p : PaneClosedPayload) : json :=
  json_object [("pane_id", JString (pc_pane_id p)); ("worker_id", JString (pc_worker_id p));
               ("tail", JArray (map JString (pc_tail p)));
               ("dropped_lines", JNumber (PosInt (pc_dropped_lines p)))].

(** The members of a struct whose last fields have [#[serde(default)]]: an
    array may stop before them. *)
Definition struct_view_default (names defaulted : list string) (doc : json)
    : option (list (string * json)) :=
  match doc with
  | JArray l =>
      if (length names <=? length l)%nat && (length l <=? length names + length defaulted)%nat
      then Some (zip (names ++ defaulted) l) else None
  | _ => struct_view (names ++ defaulted) doc
  end.

Definition decode_launched (doc : json) : option WorkerLaunchedPayload :=
  m ← struct_view ["worker_id"; "provider"; "provider_session_ref"; "executable_path";
                   "executable_sha256"; "cwd"; "repo_root"; "branch"; "base_commit";
                   "lease_id"; "installation_id"] doc;
  worker ← field_string m "worker_id";
  provider ← field_string m "provider";
  session ← field_option as_str m "provider_session_ref";
  path ← field_string m "executable_path";
  sha ← field_string m "executable_sha256";
  cwd ← field_string m "cwd";
  root ← field_string m "repo_root";
  branch ← field_string m "branch";
  base ← field_string m "base_commit";
  lease ← field_string m "lease_id";
  installation ← field_string m "installation_id";
  Some (mkLaunched worker provider session path sha cwd root branch base lease installation).

Definition decode_heartbeat (doc : json) : option WorkerHeartbeatPayload :=
  m ← struct_view_default ["worker_id"; "pid"] ["process_start_id"] doc;
  worker ← field_string m "worker_id";
  pid ← obj_get "pid" m ≫= as_uint u32_max;
  start ← field_option as_str m "process_start_id";
  Some (mkHeartbeat worker pid start).

Definition decode_exited (doc : json) : option WorkerExitedPayload :=
  m ← struct_view ["worker_id"; "exit_code"; "failure_code"] doc;
  worker ← field_string m "worker_id";
  code ← field_option as_i32 m "exit_code";
  failure ← field_option as_str m "failure_code";
  Some (mkExited worker code failure).

Definition decode_stale (doc : json) : option WorkerStalePayload :=
  m ← struct_view_default ["worker_id"; "reason"; "process"] ["pid"] doc;
  worker ← field_string m "worker_id";
  reason ← field_string m "reason";
  process ← obj_get "process" m ≫= decode_variant observed_text all_observed;
  pid ← field_option (as_uint u32_max) m "pid";
  Some (mkStale worker reason process pid).

Definition decode_pane_opened (doc : json) : option PaneOpenedPayload :=
  m ← struct_view ["pane_id"; "worker_id"; "cwd"; "repo_root"; "branch"] doc;
  pane ← field_string m "pane_id";
  worker ← field_string m "worker_id";
  cwd ← field_string m "cwd";
  root ← field_string m "repo_root";
  branch ← field_string m "branch";
  Some (mkPaneOpened pane worker cwd root branch).

Definition decode_pane_closed (doc : json) : option PaneClosedPayload :=
  m ← struct_view ["pane_id"; "worker_id"; "tail"; "dropped_lines"] doc;
  pane ← field_string m "pane_id";
  worker ← field_string m "worker_id";
  tail ← obj_get "tail" m ≫= as_list as_str;
  dropped ← obj_get "dropped_lines" m ≫= as_uint u64_max;
  Some (mkPaneClosed pane worker tail dropped).

(** The [from_event!] macro: the payload, on an event of its own type. *)
Definition from_event {A} (ty : OperatorEventType) (decode : json → option A) (e : OperatorEvent)
    : option A :=
  if bool_decide (event_type e = ty) then decode (payload e) else None.

Definition launched_from := from_event WorkerLaunched decode_launched.
Definition heartbeat_from := from_event WorkerHeartbeat decode_heartbeat.
Definition exited_from := from_event WorkerExited decode_exited.
Definition stale_from := from_event WorkerStale decode_stale.
Definition pane_opened_from := from_event PaneOpened decode_pane_opened.
Definition pane_closed_from := from_event PaneClosed decode_pane_closed.

(** ** Events *)

Record RunRef : Type := mkRunRef {
  ref_work_id : string;
  ref_thread_id : string;
  ref_run_id : string;
  ref_worker_id : string;
}.

(** [RunRef::of]; [WorkerScope] has the same fields. *)
Definition run_ref_of (w : WorkerIdentity) (run : string) : RunRef :=
  mkRunRef (wi_work_id w) (wi_thread_id w) run (wi_worker_id w).

Definition worker_scoped (scope : RunRef) (ty : OperatorEventType) (at_ : string) (p : json)
    (id : string) : OperatorEvent :=
  mkEvent OPERATOR_EVENT_SCHEMA_VERSION id (ref_thread_id scope) None (Some (ref_run_id scope)) None
    (Some (ref_work_id scope)) ty at_ (mkActor "worker" (ref_worker_id scope)) RiskLow LocalPrivate
    None None [] [] p.

Definition worker_launched_event (w : WorkerIdentity) (run at_ id : string) : OperatorEvent :=
  worker_scoped (run_ref_of w run) WorkerLaunched at_
    (launched_value
       (mkLaunched (wi_worker_id w) (wi_provider w) (wi_provider_session_ref w)
          (wi_executable_path w) (wi_executable_sha256 w) (wi_cwd w) (wi_repo_root w)
          (wi_branch w) (wi_base_commit w) (wi_lease_id w) (wi_installation_id w))) id.

Definition worker_heartbeat_event (w : WorkerIdentity) (run : string) (pid : Z)
    (start : option string) (at_ id : string) : OperatorEvent :=
  worker_scoped (run_ref_of w run) WorkerHeartbeat at_
    (heartbeat_value (mkHeartbeat (wi_worker_id w) pid start)) id.

Definition worker_exited_event (w : WorkerIdentity) (run : string) (code : option Z)
    (failure : option string) (at_ id : string) : OperatorEvent :=
  worker_scoped (run_ref_of w run) WorkerExited at_
    (exited_value (mkExited (wi_worker_id w) code failure)) id.

Definition with_actor (a : OperatorActor) (e : OperatorEvent) : OperatorEvent :=
  mkEvent (schema_version e) (event_id e) (thread_id e) (turn_id e) (run_id e) (call_id e)
    (work_id e) (event_type e) (occurred_at e) a (risk_class e) (sensitivity e)
    (parent_event_id e) (correlation_id e) (source_refs e) (evidence_refs e) (payload e).

Definition worker_stale_event (run : RunRef) (process : ObservedProcess) (pid : option Z)
    (at_ id : string) : OperatorEvent :=
  with_actor (mkActor "runtime" "worker-recovery")
    (worker_scoped run WorkerStale at_
       (stale_value (mkStale (ref_worker_id run) OWNER_LOST process pid)) id).

Definition pane_opened_event (p : PaneIdentity) (run thread at_ id : string) : OperatorEvent :=
  worker_scoped (mkRunRef (pi_work_id p) thread run (pi_worker_id p)) PaneOpened at_
    (pane_opened_value
       (mkPaneOpened (pi_pane_id p) (pi_worker_id p) (pi_cwd p) (pi_repo_root p) (pi_branch p))) id.

Definition pane_closed_event (p : PaneIdentity) (run thread : string) (tail : list string)
    (dropped : Z) (at_ id : string) : OperatorEvent :=
  worker_scoped (mkRunRef (pi_work_id p) thread run (pi_worker_id p)) PaneClosed at_
    (pane_closed_value (mkPaneClosed (pi_pane_id p) (pi_worker_id p) tail dropped)) id.

(** ** Payloads read back *)

(** The members of a struct's [Value], when its keys are distinct. *)
Lemma struct_view_object names fields :
  NoDup fields.*1 → struct_view names (json_object fields) = Some (object_fields fields).
Proof. intros Hnd. apply struct_view_NoDup. by rewrite object_fields_perm. Qed.

Lemma struct_view_default_object names defaulted fields :
  NoDup fields.*1 →
  struct_view_default names defaulted (json_object fields) = Some (object_fields fields).
Proof. apply (struct_view_object (names ++ defaulted)). Qed.

(** Decide that concrete keys are distinct. *)
Ltac distinct_keys := eapply bool_decide_unpack; vm_compute; exact I.

(** Read the fields of a payload's [Value]. *)
Ltac read_payload :=
  simpl app;
  match goal with
  | |- context [struct_view ?names (json_object ?fs)] =>
      rewrite (struct_view_object names fs) by distinct_keys
  | |- context [struct_view_default ?names ?ds (json_object ?fs)] =>
      rewrite (struct_view_default_object names ds fs) by distinct_keys
  end;
  cbn [mbind option_bind]; unfold field_string, field_option;
  rewrite !obj_get_object_fields by distinct_keys; simpl.

Lemma as_uint_u32 u : is_u32 u → as_uint u32_max (u32_json u) = Some u.
Proof. intros Hu. unfold as_uint. simpl. by rewrite bool_decide_true by done. Qed.

Lemma decode_observed p :
  decode_variant observed_text all_observed (JString (observed_text p)) = Some p.
Proof. by destruct p. Qed.

Lemma as_i32_json i : - 2 ^ 31 ≤ i < 2 ^ 31 → as_i32 (i64_json i) = Some i.
Proof.
  intros Hi. unfold as_i32. rewrite as_i64_json by lia. simpl. by rewrite bool_decide_true.
Qed.

Lemma decode_launched_value p : decode_launched (launched_value p) = Some p.
Proof.
  destruct p as [w pr [s|] ep es c r b bc l i]; unfold decode_launched, launched_value; by read_payload.
Qed.

Lemma decode_heartbeat_value p :
  is_u32 (hb_pid p) → decode_heartbeat (heartbeat_value p) = Some p.
Proof.
  destruct p as [w pid [s|]]; simpl; intros Hp; unfold decode_heartbeat, heartbeat_value, present;
    read_payload; cbn [hb_pid]; rewrite as_uint_u32 by done; done.
Qed.

Lemma decode_exited_value p :
  (∀ c, ex_exit_code p = Some c → - 2 ^ 31 ≤ c < 2 ^ 31) →
  decode_exited (exited_value p) = Some p.
Proof.
  destruct p as [w [c|] f]; simpl; intros Hc; unfold decode_exited, exited_value; read_payload.
  - rewrite as_i32_json by auto. by destruct f.
  - by destruct f.
Qed.

Lemma decode_stale_value p :
  (∀ u, sp_pid p = Some u → is_u32 u) → decode_stale (stale_value p) = Some p.
Proof.
  destruct p as [w r pr [u|]]; simpl; intros Hu; unfold decode_stale, stale_value, present;
    read_payload; rewrite decode_observed; simpl; [|done].
  change (as_uint u32_max (JNumber (PosInt u))) with (as_uint u32_max (u32_json u)).
  by rewrite as_uint_u32 by auto.
Qed.

Lemma decode_pane_opened_value p : decode_pane_opened (pane_opened_value p) = Some p.
Proof. destruct p; unfold decode_pane_opened, pane_opened_value; by read_payload. Qed.

Lemma decode_pane_closed_value p :
  is_u64 (pc_dropped_lines p) → decode_pane_closed (pane_closed_value p) = Some p.
Proof.
  destruct p as [i w t d]; simpl; intros Hd; unfold decode_pane_closed, pane_closed_value.
  read_payload. rewrite mapM_as_str. simpl. unfold as_uint. simpl. by rewrite bool_decide_true.
Qed.
