(* ===== verification/RunFold.v ===== *)
(** * The runs read model (crates/heiwa_worker: projector.rs)

    The fold of the operator stream into one row per worker run, and what it
    promises: a row is a function of the events of its own run, a run exists
    exactly when an envelope launched it, and its worker state moves only along
    the lifecycle below. *)

From stdpp Require Import base gmap sets strings numbers relations list.
From S2P Require Import Prelude Json OperatorEvent WorkerEvents.
#[local] Open Scope Z_scope.

Record SupervisionLoss : Type := mkLoss {
  sl_reason : string;
  sl_process : ObservedProcess;
  sl_pid : option Z;
  sl_recorded_at : string;
}.

(** [SupervisionLoss::code]. *)
Definition loss_code (l : SupervisionLoss) : string :=
  sl_reason l +:+ "_process_" +:+ observed_text (sl_process l).

Record RunRow : Type := mkRun {
  rw_run_id : string;
  rw_worker_id : string;
  rw_work_id : string;
  rw_thread_id : string;
  rw_worker_state : WorkerState;
  rw_provider : option string;
  rw_provider_session_ref : option string;
  rw_executable_path : option string;
  rw_executable_sha256 : option string;
  rw_cwd : option string;
  rw_repo_root : option string;
  rw_branch : option string;
  rw_base_commit : option string;
  rw_lease_id : option string;
  rw_started_at : option string;
  rw_ended_at : option string;
  rw_exit_code : option Z;
  rw_failure_code : option string;
  rw_pid : option Z;
  rw_process_start_id : option string;
  rw_supervision : option SupervisionLoss;
  rw_pane_id : option string;
  rw_pane_state : option PaneState;
  rw_pane_tail : list string;
  rw_pane_dropped_lines : Z;
}.

(** [row.started_at = Some(at)]. *)
Definition set_started_at (at_ : string) (r : RunRow) : RunRow :=
  mkRun (rw_run_id r) (rw_worker_id r) (rw_work_id r) (rw_thread_id r) (rw_worker_state r)
    (rw_provider r) (rw_provider_session_ref r) (rw_executable_path r) (rw_executable_sha256 r)
    (rw_cwd r) (rw_repo_root r) (rw_branch r) (rw_base_commit r) (rw_lease_id r) (Some at_)
    (rw_ended_at r) (rw_exit_code r) (rw_failure_code r) (rw_pid r) (rw_process_start_id r)
    (rw_supervision r) (rw_pane_id r) (rw_pane_state r) (rw_pane_tail r) (rw_pane_dropped_lines r).

(** The fields a launch payload carries. *)
Definition set_launch (p : WorkerLaunchedPayload) (r : RunRow) : RunRow :=
  mkRun (rw_run_id r) (la_worker_id p) (rw_work_id r) (rw_thread_id r) (rw_worker_state r)
    (Some (la_provider p)) (la_provider_session_ref p) (Some (la_executable_path p))
    (Some (la_executable_sha256 p)) (Some (la_cwd p)) (Some (la_repo_root p)) (Some (la_branch p))
    (Some (la_base_commit p)) (Some (la_lease_id p)) (rw_started_at r) (rw_ended_at r)
    (rw_exit_code r) (rw_failure_code r) (rw_pid r) (rw_process_start_id r) (rw_supervision r)
    (rw_pane_id r) (rw_pane_state r) (rw_pane_tail r) (rw_pane_dropped_lines r).

(** [row.worker_state = w]. *)
Definition set_worker_state (w : WorkerState) (r : RunRow) : RunRow :=
  mkRun (rw_run_id r) (rw_worker_id r) (rw_work_id r) (rw_thread_id r) w (rw_provider r)
    (rw_provider_session_ref r) (rw_executable_path r) (rw_executable_sha256 r) (rw_cwd r)
    (rw_repo_root r) (rw_branch r) (rw_base_commit r) (rw_lease_id r) (rw_started_at r)
    (rw_ended_at r) (rw_exit_code r) (rw_failure_code r) (rw_pid r) (rw_process_start_id r)
    (rw_supervision r) (rw_pane_id r) (rw_pane_state r) (rw_pane_tail r) (rw_pane_dropped_lines r).

(** The fields the first heartbeat carries. *)
Definition set_process (p : WorkerHeartbeatPayload) (r : RunRow) : RunRow :=
  mkRun (rw_run_id r) (rw_worker_id r) (rw_work_id r) (rw_thread_id r) (rw_worker_state r)
    (rw_provider r) (rw_provider_session_ref r) (rw_executable_path r) (rw_executable_sha256 r)
    (rw_cwd r) (rw_repo_root r) (rw_branch r) (rw_base_commit r) (rw_lease_id r) (rw_started_at r)
    (rw_ended_at r) (rw_exit_code r) (rw_failure_code r) (Some (hb_pid p)) (hb_process_start_id p)
    (rw_supervision r) (rw_pane_id r) (rw_pane_state r) (rw_pane_tail r) (rw_pane_dropped_lines r).

(** [row.ended_at = Some(at)]. *)
Definition set_ended_at (at_ : string) (r : RunRow) : RunRow :=
  mkRun (rw_run_id r) (rw_worker_id r) (rw_work_id r) (rw_thread_id r) (rw_worker_state r)
    (rw_provider r) (rw_provider_session_ref r) (rw_executable_path r) (rw_executable_sha256 r)
    (rw_cwd r) (rw_repo_root r) (rw_branch r) (rw_base_commit r) (rw_lease_id r) (rw_started_at r)
    (Some at_) (rw_exit_code r) (rw_failure_code r) (rw_pid r) (rw_process_start_id r)
    (rw_supervision r) (rw_pane_id r) (rw_pane_state r) (rw_pane_tail r) (rw_pane_dropped_lines r).

(** The fields an exit payload carries. *)
Definition set_exit (p : WorkerExitedPayload) (r : RunRow) : RunRow :=
  mkRun (rw_run_id r) (rw_worker_id r) (rw_work_id r) (rw_thread_id r) (rw_worker_state r)
    (rw_provider r) (rw_provider_session_ref r) (rw_executable_path r) (rw_executable_sha256 r)
    (rw_cwd r) (rw_repo_root r) (rw_branch r) (rw_base_commit r) (rw_lease_id r) (rw_started_at r)
    (rw_ended_at r) (ex_exit_code p) (ex_failure_code p) (rw_pid r) (rw_process_start_id r)
    (rw_supervision r) (rw_pane_id r) (rw_pane_state r) (rw_pane_tail r) (rw_pane_dropped_lines r).

(** [row.supervision = Some(loss)]. *)
Definition set_supervision (loss : SupervisionLoss) (r : RunRow) : RunRow :=
  mkRun (rw_run_id r) (rw_worker_id r) (rw_work_id r) (rw_thread_id r) (rw_worker_state r)
    (rw_provider r) (rw_provider_session_ref r) (rw_executable_path r) (rw_executable_sha256 r)
    (rw_cwd r) (rw_repo_root r) (rw_branch r) (rw_base_commit r) (rw_lease_id r) (rw_started_at r)
    (rw_ended_at r) (rw_exit_code r) (rw_failure_code r) (rw_pid r) (rw_process_start_id r)
    (Some loss) (rw_pane_id r) (rw_pane_state r) (rw_pane_tail r) (rw_pane_dropped_lines r).

(** [row.pane_id = Some(id)]. *)
Definition set_pane_id (id : string) (r : RunRow) : RunRow :=
  mkRun (rw_run_id r) (rw_worker_id r) (rw_work_id r) (rw_thread_id r) (rw_worker_state r)
    (rw_provider r) (rw_provider_session_ref r) (rw_executable_path r) (rw_executable_sha256 r)
    (rw_cwd r) (rw_repo_root r) (rw_branch r) (rw_base_commit r) (rw_lease_id r) (rw_started_at r)
    (rw_ended_at r) (rw_exit_code r) (rw_failure_code r) (rw_pid r) (rw_process_start_id r)
    (rw_supervision r) (Some id) (rw_pane_state r) (rw_pane_tail r) (rw_pane_dropped_lines r).

(** [row.pane_state = Some(s)]. *)
Definition set_pane_state (s : PaneState) (r : RunRow) : RunRow :=
  mkRun (rw_run_id r) (rw_worker_id r) (rw_work_id r) (rw_thread_id r) (rw_worker_state r)
    (rw_provider r) (rw_provider_session_ref r) (rw_executable_path r) (rw_executable_sha256 r)
    (rw_cwd r) (rw_repo_root r) (rw_branch r) (rw_base_commit r) (rw_lease_id r) (rw_started_at r)
    (rw_ended_at r) (rw_exit_code r) (rw_failure_code r) (rw_pid r) (rw_process_start_id r)
    (rw_supervision r) (rw_pane_id r) (Some s) (rw_pane_tail r) (rw_pane_dropped_lines r).

(** The fields a closed pane carries. *)
Definition set_tail (p : PaneClosedPayload) (r : RunRow) : RunRow :=
  mkRun (rw_run_id r) (rw_worker_id r) (rw_work_id r) (rw_thread_id r) (rw_worker_state r)
    (rw_provider r) (rw_provider_session_ref r) (rw_executable_path r) (rw_executable_sha256 r)
    (rw_cwd r) (rw_repo_root r) (rw_branch r) (rw_base_commit r) (rw_lease_id r) (rw_started_at r)
    (rw_ended_at r) (rw_exit_code r) (rw_failure_code r) (rw_pid r) (rw_process_start_id r)
    (rw_supervision r) (rw_pane_id r) (rw_pane_state r) (pc_tail p) (pc_dropped_lines p).

(** [RunRow::new]. *)
Definition new_row (run worker work thread : string) : RunRow :=
  mkRun run worker work thread Starting None None None None None None None None None None None
    None None None None None None None [] 0.

(** ** Handlers on one row *)

Definition on_launched (e : OperatorEvent) (r : RunRow) : RunRow :=
  let r := set_started_at (occurred_at e) r in
  match launched_from e with Some p => set_launch p r | None => r end.

Definition on_heartbeat (e : OperatorEvent) (r : RunRow) : RunRow :=
  let r := if bool_decide (rw_worker_state r = Starting) then set_worker_state Live r else r in
  if bool_decide (rw_pid r = None)
  then match heartbeat_from e with Some p => set_process p r | None => r end
  else r.

(** A bound pane follows its worker. *)
Definition refresh_pane (w : WorkerState) (r : RunRow) : RunRow :=
  if bool_decide (is_Some (rw_pane_id r)) then set_pane_state (for_worker w) r else r.

Definition on_exited (e : OperatorEvent) (r : RunRow) : RunRow :=
  let r := set_ended_at (occurred_at e) r in
  let r := match exited_from e with
           | Some p => set_worker_state (if ex_failure_code p then Failed else Exited) (set_exit p r)
           | None => set_worker_state Exited r
           end in
  refresh_pane (rw_worker_state r) r.

Definition is_unfinished (w : WorkerState) : bool :=
  match w with Starting | Live => true | _ => false end.

(** What a stale marker records; a payload that does not decode is a loss of
    which nothing is known. *)
Definition supervision_loss (e : OperatorEvent) : SupervisionLoss :=
  match stale_from e with
  | Some p => mkLoss (sp_reason p) (sp_process p) (sp_pid p) (occurred_at e)
  | None => mkLoss OWNER_LOST Unknown None (occurred_at e)
  end.

Definition on_stale (e : OperatorEvent) (r : RunRow) : RunRow :=
  if is_unfinished (rw_worker_state r)
  then refresh_pane Stale (set_supervision (supervision_loss e) (set_worker_state Stale r))
  else r.

Definition on_pane_opened (p : PaneOpenedPayload) (r : RunRow) : RunRow :=
  set_pane_state (for_worker (rw_worker_state r)) (set_pane_id (po_pane_id p) r).

Definition on_pane_closed (p : PaneClosedPayload) (r : RunRow) : RunRow :=
  set_pane_state (for_worker (rw_worker_state r)) (set_tail p r).

(** ** The fold *)

Record RunFold : Type := mkFold { rf_rows : gmap string RunRow; rf_order : list string }.

Definition default_fold : RunFold := mkFold ∅ [].

(** [RunFold::row], with what is done to the row it finds. *)
Definition with_row (e : OperatorEvent) (work : string) (g : RunRow → RunRow) (f : RunFold)
    : RunFold :=
  match run_id e with
  | Some run =>
      match rf_rows f !! run with
      | Some row =>
          if bool_decide (rw_work_id row = work)
          then mkFold (<[run := g row]> (rf_rows f)) (rf_order f) else f
      | None => f
      end
  | None => f
  end.

(** [RunFold::apply]. *)
Definition apply_event (e : OperatorEvent) (work : string) (f : RunFold) : RunFold :=
  match event_type e with
  | WorkerLaunched =>
      match run_id e with
      | None => f
      | Some run =>
          let f :=
            match rf_rows f !! run with
            | Some _ => f
            | None =>
                mkFold (<[run := new_row run (actor_id (actor e)) work (thread_id e)]> (rf_rows f))
                  (rf_order f ++ [run])
            end in
          with_row e work (on_launched e) f
      end
  | WorkerHeartbeat => with_row e work (on_heartbeat e) f
  | WorkerExited => with_row e work (on_exited e) f
  | WorkerStale => with_row e work (on_stale e) f
  | PaneOpened =>
      match pane_opened_from e with Some p => with_row e work (on_pane_opened p) f | None => f end
  | PaneClosed =>
      match pane_closed_from e with Some p => with_row e work (on_pane_closed p) f | None => f end
  | _ => f
  end.

(** [RunFold::finish]: each row is removed as its id comes up. *)
Fixpoint take_rows (rows : gmap string RunRow) (order : list string) : list RunRow :=
  match order with
  | [] => []
  | run :: order' =>
      match rows !! run with
      | Some row => row :: take_rows (delete run rows) order'
      | None => take_rows rows order'
      end
  end.

Definition finish (f : RunFold) : list RunRow := take_rows (rf_rows f) (rf_order f).

Definition fold_work (work : string) (f : RunFold) (e : OperatorEvent) : RunFold :=
  if bool_decide (work_id e = Some work) then apply_event e work f else f.

Definition fold_runs (events : list OperatorEvent) (work : string) : list RunRow :=
  finish (foldl (fold_work work) default_fold events).

Definition fold_all (f : RunFold) (e : OperatorEvent) : RunFold :=
  match work_id e with Some work => apply_event e work f | None => f end.

Definition fold_all_runs (events : list OperatorEvent) : list RunRow :=
  finish (foldl fold_all default_fold events).

(** ** The run an event belongs to *)

(** What an event does to the row of its run. *)
Definition handler (e : OperatorEvent) : RunRow → RunRow :=
  match event_type e with
  | WorkerLaunched => on_launched e
  | WorkerHeartbeat => on_heartbeat e
  | WorkerExited => on_exited e
  | WorkerStale => on_stale e
  | PaneOpened => match pane_opened_from e with Some p => on_pane_opened p | None => id end
  | PaneClosed => match pane_closed_from e with Some p => on_pane_closed p | None => id end
  | _ => id
  end.

(** The run an envelope launches. *)
Definition launch_of (e : OperatorEvent) : option string :=
  if bool_decide (event_type e = WorkerLaunched ∧ is_Some (work_id e)) then run_id e else None.

(** A run is its own events, folded: created by the first envelope that
    launches it, then changed by the events that name it under its Work. *)
Definition run_step (run : string) (o : option RunRow) (e : OperatorEvent) : option RunRow :=
  match work_id e with
  | None => o
  | Some work =>
      if bool_decide (run_id e = Some run) then
        match o with
        | Some row => Some (if bool_decide (rw_work_id row = work) then handler e row else row)
        | None =>
            if bool_decide (event_type e = WorkerLaunched)
            then Some (handler e (new_row run (actor_id (actor e)) work (thread_id e)))
            else None
        end
      else o
  end.

Definition run_of (events : list OperatorEvent) (run : string) : option RunRow :=
  foldl (run_step run) None events.

(** The elements of a list without their repetitions, each at its first
    place. *)
Definition add_new (seen : list string) (x : string) : list string :=
  if bool_decide (x ∈ seen) then seen else seen ++ [x].

Definition first_occurrences (l : list string) : list string := foldl add_new [] l.

Definition launch_order (events : list OperatorEvent) : list string :=
  first_occurrences (omap launch_of events).

Lemma first_occurrences_snoc l x : first_occurrences (l ++ [x]) = add_new (first_occurrences l) x.
Proof. apply foldl_snoc. Qed.

Lemma elem_first_occurrences l x : x ∈ first_occurrences l ↔ x ∈ l.
Proof.
  induction l as [|y l IH] using rev_ind; [done|]. rewrite first_occurrences_snoc. unfold add_new.
  case_bool_decide; set_solver.
Qed.

Lemma first_occurrences_NoDup l : NoDup (first_occurrences l).
Proof.
  induction l as [|y l IH] using rev_ind; [constructor|]. rewrite first_occurrences_snoc.
  unfold add_new. case_bool_decide as Hin; [done|].
  apply NoDup_app. split_and!; [done|set_solver|apply NoDup_singleton].
Qed.

(** *** The fold holds the row of each run *)

Lemma handler_ids e r :
  rw_run_id (handler e r) = rw_run_id r ∧ rw_work_id (handler e r) = rw_work_id r ∧
  rw_thread_id (handler e r) = rw_thread_id r.
Proof.
  unfold handler, on_launched, on_heartbeat, on_exited, on_stale, refresh_pane. by break.
Qed.

(** The handlers of [apply_event] are [handler], and a missing row stays missing. *)
Lemma apply_event_eq e work f :
  apply_event e work f =
    match run_id e with
    | None => f
    | Some run =>
        match rf_rows f !! run with
        | Some row =>
            if bool_decide (rw_work_id row = work)
            then mkFold (<[run := handler e row]> (rf_rows f)) (rf_order f) else f
        | None =>
            if bool_decide (event_type e = WorkerLaunched)
            then mkFold (<[run := handler e (new_row run (actor_id (actor e)) work (thread_id e))]>
                           (rf_rows f)) (rf_order f ++ [run])
            else f
        end
    end.
Proof.
  assert (∀ run row, rf_rows f !! run = Some row →
    mkFold (<[run := id row]> (rf_rows f)) (rf_order f) = f) as Hid.
  { intros run row Hrow. rewrite insert_id by done. by destruct f. }
  unfold apply_event, with_row, handler. destruct (run_id e) as [run|]; [|by repeat case_match].
  destruct (rf_rows f !! run) as [row|] eqn:E.
  - destruct (event_type e); rewrite ?E; try (case_match; rewrite ?E); case_bool_decide;
      by rewrite ?(Hid _ _ E).
  - destruct (event_type e); rewrite ?E; try done; try (case_match; by rewrite ?E).
    simpl. rewrite lookup_insert_eq. simpl. rewrite bool_decide_true by done.
    by rewrite insert_insert_eq.
Qed.

Definition fold_inv (events : list OperatorEvent) (f : RunFold) : Prop :=
  (∀ run, rf_rows f !! run = run_of events run) ∧ rf_order f = launch_order events ∧
  (∀ run, is_Some (rf_rows f !! run) ↔ run ∈ rf_order f).

Lemma run_of_snoc events e run : run_of (events ++ [e]) run = run_step run (run_of events run) e.
Proof. apply foldl_snoc. Qed.

Lemma launch_order_snoc events e :
  launch_order (events ++ [e]) =
    match launch_of e with
    | Some run => add_new (launch_order events) run
    | None => launch_order events
    end.
Proof.
  unfold launch_order. rewrite omap_app. simpl. destruct (launch_of e) as [run|].
  - apply first_occurrences_snoc.
  - by rewrite app_nil_r.
Qed.

Lemma run_step_other run o e : run_id e ≠ Some run → run_step run o e = o.
Proof. unfold run_step. intros H. case_match; [by rewrite bool_decide_false|done]. Qed.

Lemma launch_of_eq e :
  launch_of e =
    match work_id e with
    | Some _ => if bool_decide (event_type e = WorkerLaunched) then run_id e else None
    | None => None
    end.
Proof.
  unfold launch_of. destruct (work_id e) as [work|].
  - rewrite (bool_decide_ext _ (event_type e = WorkerLaunched)); [done|].
    split; [by intros []|]. intros Ht. split; [done|by eexists].
  - rewrite bool_decide_false; [done|]. by intros [_ []].
Qed.

(** Adding one row to the fold, or changing one, keeps the invariant. *)
Lemma fold_inv_insert events e f run row :
  fold_inv events f → run_id e = Some run → run_of (events ++ [e]) run = Some row →
  launch_order (events ++ [e]) = add_new (launch_order events) run →
  fold_inv (events ++ [e]) (mkFold (<[run := row]> (rf_rows f)) (add_new (rf_order f) run)).
Proof.
  intros (Hrows & Hord & Hdom) Hr Hrun Hl. unfold fold_inv; simpl. split_and!.
  - intros r. destruct (decide (r = run)) as [->|Hne]; [by rewrite lookup_insert_eq|].
    rewrite lookup_insert_ne, run_of_snoc, run_step_other by congruence. done.
  - by rewrite Hl, Hord.
  - intros r. unfold add_new. destruct (decide (r = run)) as [->|Hne].
    + rewrite lookup_insert_eq. split; [|by eexists]. case_bool_decide; set_solver.
    + rewrite lookup_insert_ne, Hdom by done. case_bool_decide; set_solver.
Qed.

Lemma fold_inv_same events e f :
  fold_inv events f → (∀ run, run_of (events ++ [e]) run = run_of events run) →
  launch_order (events ++ [e]) = launch_order events → fold_inv (events ++ [e]) f.
Proof. intros (Hrows & Hord & Hdom) Hr Hl. split_and!; [|by rewrite Hl|done]. intros r. by rewrite Hr. Qed.

Lemma fold_all_step events f e : fold_inv events f → fold_inv (events ++ [e]) (fold_all f e).
Proof.
  intros Hinv. pose proof Hinv as (Hrows & Hord & Hdom). unfold fold_all.
  destruct (work_id e) as [work|] eqn:Ew; [rewrite apply_event_eq|].
  2: { apply fold_inv_same; [done|..].
       - intros r. rewrite run_of_snoc. unfold run_step. by rewrite Ew.
       - by rewrite launch_order_snoc, launch_of_eq, Ew. }
  destruct (run_id e) as [run|] eqn:Er.
  2: { apply fold_inv_same; [done|..].
       - intros r. by rewrite run_of_snoc, run_step_other by congruence.
       - rewrite launch_order_snoc, launch_of_eq, Ew, Er. by case_bool_decide. }
  assert (run_of (events ++ [e]) run = run_step run (rf_rows f !! run) e) as Hrun
    by (by rewrite run_of_snoc, Hrows).
  unfold run_step in Hrun. rewrite Ew, Er, bool_decide_true in Hrun by done.
  assert (∀ r, r ≠ run → run_of (events ++ [e]) r = run_of events r) as Hother
    by (intros r Hr; by rewrite run_of_snoc, run_step_other by congruence).
  assert (launch_order (events ++ [e]) =
          if bool_decide (event_type e = WorkerLaunched) then add_new (launch_order events) run
          else launch_order events) as Hl.
  { rewrite launch_order_snoc, launch_of_eq, Ew, Er. by case_bool_decide. }
  destruct (rf_rows f !! run) as [row|] eqn:El.
  - assert (add_new (rf_order f) run = rf_order f) as Hadd.
    { unfold add_new. rewrite bool_decide_true; [done|]. apply Hdom. by rewrite El. }
    assert (launch_order (events ++ [e]) = add_new (launch_order events) run) as Hl'.
    { rewrite Hl, <- Hord, Hadd. by case_bool_decide. }
    destruct (bool_decide (rw_work_id row = work)); [rewrite <- Hadd; by apply fold_inv_insert|].
    replace f with (mkFold (<[run := row]> (rf_rows f)) (add_new (rf_order f) run));
      [by apply fold_inv_insert|]. rewrite insert_id, Hadd by done. by destruct f.
  - destruct (bool_decide (event_type e = WorkerLaunched)).
    + replace (rf_order f ++ [run]) with (add_new (rf_order f) run); [by apply fold_inv_insert|].
      unfold add_new. rewrite bool_decide_false; [done|]. rewrite <- Hdom, El. by intros [].
    + apply fold_inv_same; [done| |done]. intros r.
      destruct (decide (r = run)) as [->|Hr]; [by rewrite Hrun, <- Hrows|by rewrite Hother].
Qed.

Lemma fold_all_inv events : fold_inv events (foldl fold_all default_fold events).
Proof.
  induction events as [|e events IH] using rev_ind.
  - split_and!; [done|done|]. intros run. simpl. rewrite lookup_empty. split; [by intros []|set_solver].
  - rewrite foldl_snoc. by apply fold_all_step.
Qed.

Lemma take_rows_omap order : ∀ rows : gmap string RunRow,
  NoDup order → take_rows rows order = omap (λ run, rows !! run) order.
Proof.
  induction order as [|run order IH]; intros rows Hnd; simpl; [done|].
  apply NoDup_cons in Hnd as [Hrun Hnd]. destruct (rows !! run) as [row|]; [|by apply IH].
  rewrite IH by done. f_equal. apply list_omap_ext, Forall2_same_length_lookup_2; [done|].
  intros i x y Hx Hy. simplify_eq. rewrite lookup_delete_ne; [done|].
  intros ->. apply Hrun. by eapply list_elem_of_lookup_2.
Qed.

(** Every run, in the order of the first launches. *)
Lemma fold_all_runs_eq events :
  fold_all_runs events = omap (run_of events) (launch_order events).
Proof.
  unfold fold_all_runs, finish. destruct (fold_all_inv events) as (Hrows & -> & _).
  rewrite take_rows_omap by apply first_occurrences_NoDup.
  apply list_omap_ext, Forall2_same_length_lookup_2; [done|]. intros; simplify_eq. apply Hrows.
Qed.

(** Each launched run has its row. *)
Lemma run_of_launched events run :
  is_Some (run_of events run) ↔ run ∈ launch_order events.
Proof.
  destruct (fold_all_inv events) as (Hrows & Hord & Hdom). by rewrite <- Hrows, <- Hord.
Qed.

Lemma run_of_ids events run row :
  run_of events run = Some row →
  rw_run_id row = run ∧ ∃ e, e ∈ events ∧ launch_of e = Some run ∧ work_id e = Some (rw_work_id row) ∧
    thread_id e = rw_thread_id row.
Proof.
  revert row. induction events as [|e events IH] using rev_ind; intros row; [done|].
  rewrite run_of_snoc. unfold run_step.
  assert (∀ r, run_of events run = Some r → rw_run_id r = run ∧ ∃ e', e' ∈ events ++ [e] ∧
    launch_of e' = Some run ∧ work_id e' = Some (rw_work_id r) ∧ thread_id e' = rw_thread_id r) as Hold.
  { intros r (? & e' & ? & ?)%IH. split; [done|]. exists e'. set_solver. }
  destruct (work_id e) as [work|] eqn:Ew; [|auto]. case_bool_decide as Er; [|auto].
  destruct (run_of events run) as [r|] eqn:E.
  - intros [= <-]. case_bool_decide; [|auto].
    destruct (handler_ids e r) as (-> & -> & ->). auto.
  - case_bool_decide as Ht; [|done]. intros [= <-].
    destruct (handler_ids e (new_row run (actor_id (actor e)) work (thread_id e))) as (-> & -> & ->).
    split; [done|]. exists e. split_and!; [set_solver| |done..].
    unfold launch_of. rewrite bool_decide_true; [done|]. by rewrite Ew.
Qed.

(** ** One Work's runs *)

Lemma fold_work_filter work events : ∀ f,
  foldl (fold_work work) f events =
    foldl fold_all f (filter (λ e, work_id e = Some work) events).
Proof.
  induction events as [|e events IH]; intros f; [done|]. rewrite filter_cons. simpl.
  rewrite IH. unfold fold_work. case_bool_decide as Hw; case_decide; try done.
  simpl. assert (fold_all f e = apply_event e work f) as -> by (unfold fold_all; by rewrite Hw). done.
Qed.

Lemma fold_runs_eq events work :
  fold_runs events work = fold_all_runs (filter (λ e, work_id e = Some work) events).
Proof. unfold fold_runs, fold_all_runs. by rewrite fold_work_filter. Qed.

(** A row, once there, stays and keeps its Work. *)
Lemma run_step_Some run r e :
  ∃ r', run_step run (Some r) e = Some r' ∧ rw_work_id r' = rw_work_id r.
Proof.
  unfold run_step. destruct (work_id e); [|by eexists]. case_bool_decide; [|by eexists].
  case_bool_decide; [|by eexists]. eexists. split; [done|]. apply handler_ids.
Qed.

Lemma run_step_unowned run r e : work_id e ≠ Some (rw_work_id r) → run_step run (Some r) e = Some r.
Proof.
  unfold run_step. intros Hw. destruct (work_id e); [|done]. case_bool_decide; [|done].
  rewrite bool_decide_false; [done|]. congruence.
Qed.

Lemma run_step_fresh run row e :
  run_step run None e = Some row → work_id e = Some (rw_work_id row).
Proof.
  unfold run_step. destruct (work_id e) as [work|]; [|done]. repeat case_bool_decide; try done.
  intros [= <-]. f_equal. symmetry. apply handler_ids.
Qed.

Lemma foldl_owned run events : ∀ r,
  foldl (run_step run) (Some r) (filter (λ e, work_id e = Some (rw_work_id r)) events) =
    foldl (run_step run) (Some r) events ∧
  ∃ r', foldl (run_step run) (Some r) events = Some r' ∧ rw_work_id r' = rw_work_id r.
Proof.
  induction events as [|e events IH]; intros r; [split; [done|by eexists]|].
  rewrite filter_cons. simpl. case_decide as Hw.
  - destruct (run_step_Some run r e) as (r' & E & Hr'). simpl. rewrite E, <- Hr'. apply IH.
  - rewrite run_step_unowned by done. apply IH.
Qed.

Lemma run_of_filter_owned events run row :
  run_of events run = Some row →
  run_of (filter (λ e, work_id e = Some (rw_work_id row)) events) run = Some row.
Proof.
  unfold run_of. induction events as [|e events IH]; [done|]. rewrite filter_cons. simpl.
  destruct (run_step run None e) as [r|] eqn:E.
  - intros Hr. destruct (foldl_owned run events r) as (Hf & r' & Hr' & Hw). simplify_eq.
    rewrite (run_step_fresh _ _ _ E), Hw, decide_True by done. simpl. by rewrite E, Hf.
  - intros Hr. case_decide; simpl; rewrite ?E; by apply IH.
Qed.

Lemma run_of_filter events work run row :
  run_of (filter (λ e, work_id e = Some work) events) run = Some row →
  rw_work_id row = work ∧ is_Some (run_of events run).
Proof.
  intros Hrow. apply run_of_ids in Hrow as (_ & e & [Hw He]%list_elem_of_filter & Hl & Hw' & _).
  split; [congruence|]. apply run_of_launched, elem_first_occurrences, list_elem_of_omap.
  by exists e.
Qed.

(** The Work that launched a run first. *)
Definition owner (events : list OperatorEvent) (run : string) : option string :=
  rw_work_id <$> run_of events run.

Definition owned (events : list OperatorEvent) (work run : string) : Prop :=
  owner events run = Some work.
#[export] Instance owned_dec events work run : Decision (owned events work run).
Proof. unfold owned. apply _. Defined.

Lemma owner_kept events e run :
  is_Some (run_of events run) → owner (events ++ [e]) run = owner events run.
Proof.
  unfold owner. rewrite run_of_snoc. intros [r ->].
  destruct (run_step_Some run r e) as (r' & -> & Hw). simpl. by rewrite Hw.
Qed.

Lemma filter_ext_elem {A} (P Q : A → Prop) `{∀ x, Decision (P x), ∀ x, Decision (Q x)}
    (l : list A) :
  (∀ x, x ∈ l → P x ↔ Q x) → filter P l = filter Q l.
Proof.
  induction l as [|x l IH]; intros Hl; [done|]. rewrite !filter_cons, IH by set_solver.
  destruct (Hl x ltac:(by left)). repeat case_decide; tauto.
Qed.

Lemma launch_order_owned events work :
  filter (owned events work) (launch_order events) =
  filter (owned events work)
    (launch_order (filter (λ e, work_id e = Some work) events)).
Proof.
  induction events as [|e events IH] using rev_ind; [done|].
  assert (∀ l : list string, (∀ run, run ∈ l → is_Some (run_of events run)) →
    filter (owned (events ++ [e]) work) l = filter (owned events work) l) as Hkeep.
  { intros l Hl. apply filter_ext_elem. intros run Hrun. unfold owned. by rewrite owner_kept by auto. }
  assert (∀ run, run ∈ launch_order (filter (λ e, work_id e = Some work) events) →
    is_Some (run_of events run)) as Hsub.
  { intros run [row Hrow]%run_of_launched. by eapply run_of_filter. }
  assert (filter (owned (events ++ [e]) work) (launch_order events) =
    filter (owned (events ++ [e]) work) (launch_order (filter (λ e, work_id e = Some work) events))) as Hsame.
  { rewrite !Hkeep; [done|done|]. intros run. by rewrite run_of_launched. }
  rewrite filter_app, launch_order_snoc. cbn [filter list_filter].
  destruct (launch_of e) as [run|] eqn:El.
  2: { case_decide; rewrite ?app_nil_r; [|done]. by rewrite launch_order_snoc, El. }
  pose proof El as El'. rewrite launch_of_eq in El'.
  destruct (work_id e) as [w|] eqn:Ew; [|done]. case_bool_decide as Ht; [|done].
  assert (∀ seen : list string, ¬ owned (events ++ [e]) work run → filter (owned (events ++ [e]) work) (add_new seen run) = filter (owned (events ++ [e]) work) seen) as Hskip.
  { intros seen Hn. unfold add_new. case_bool_decide; [done|].
    rewrite filter_app, filter_cons_False, filter_nil, app_nil_r; done. }
  assert (launch_order (filter (λ e0, work_id e0 = Some work) events ++
    (if decide (Some w = Some work) then [e] else [])) =
    if decide (Some w = Some work)
    then add_new (launch_order (filter (λ e0, work_id e0 = Some work) events)) run
    else launch_order (filter (λ e0, work_id e0 = Some work) events)) as Hl.
  { case_decide; [by rewrite launch_order_snoc, El|by rewrite app_nil_r]. }
  rewrite Hl. clear Hl. destruct (run_of events run) as [row|] eqn:Er.
  - assert (add_new (launch_order events) run = launch_order events) as ->.
    { unfold add_new. rewrite bool_decide_true; [done|]. apply run_of_launched. by rewrite Er. }
    case_decide as Hw; [|done]. unfold add_new. case_bool_decide as Hin; [done|].
    rewrite filter_app, filter_cons_False, filter_nil, app_nil_r; [done|].
    intros Hown. apply Hin, run_of_launched. unfold owned in Hown.
    rewrite owner_kept in Hown by (rewrite Er; by eexists). unfold owner in Hown.
    rewrite Er in Hown. injection Hown as <-. by rewrite (run_of_filter_owned _ _ row).
  - assert (¬ is_Some (run_of events run)) as Hno by (rewrite Er; by intros []).
    assert (owned (events ++ [e]) work run ↔ w = work) as Hown.
    { unfold owned, owner. rewrite run_of_snoc, Er. unfold run_step. rewrite Ew.
      rewrite !bool_decide_true by congruence. simpl.
      destruct (handler_ids e (new_row run (actor_id (actor e)) w (thread_id e))) as (_ & -> & _).
      split; [by intros [= ->]|by intros ->]. }
    case_decide as Hw; [|rewrite Hskip; [done|rewrite Hown; congruence]].
    unfold add_new. rewrite (bool_decide_false (run ∈ launch_order events)) by (by rewrite <- run_of_launched).
    rewrite bool_decide_false by auto. rewrite !filter_app, Hsame. done.
Qed.

Lemma filter_omap {A B} (f : A → option B) (P : B → Prop) (Q : A → Prop)
    `{∀ x, Decision (P x), ∀ x, Decision (Q x)} (l : list A) :
  (∀ x y, f x = Some y → P y ↔ Q x) → filter P (omap f l) = omap f (filter Q l).
Proof.
  intros HPQ. induction l as [|x l IH]; [done|]. rewrite (filter_cons Q).
  change (omap f (x :: l)) with (match f x with Some y => y :: omap f l | None => omap f l end).
  assert (omap f (x :: filter Q l) =
            match f x with Some y => y :: omap f (filter Q l) | None => omap f (filter Q l) end)
    as Hx by done.
  destruct (f x) as [y|] eqn:E.
  - destruct (HPQ x y E). rewrite filter_cons, IH. repeat case_decide; try tauto. by rewrite Hx.
  - rewrite IH. case_decide; [by rewrite Hx|done].
Qed.

Lemma omap_ext_elem {A B} (f g : A → option B) (l : list A) :
  (∀ x, x ∈ l → f x = g x) → omap f l = omap g l.
Proof.
  induction l as [|x l IH]; intros Hl; [done|]. simpl.
  rewrite (Hl x ltac:(by left)). destruct (g x); [f_equal|]; (apply IH; set_solver).
Qed.

(** The ids of the reported runs. *)
Lemma fold_all_runs_ids events : map rw_run_id (fold_all_runs events) = launch_order events.
Proof.
  rewrite fold_all_runs_eq.
  assert (∀ l : list string, (∀ run, run ∈ l → is_Some (run_of events run)) →
    map rw_run_id (omap (run_of events) l) = l) as Hg.
  { induction l as [|run l IH]; intros Hl; [done|]. simpl.
    destruct (Hl run ltac:(by left)) as [row E]. rewrite E. simpl.
    destruct (run_of_ids _ _ _ E) as [-> _]. f_equal. apply IH. set_solver. }
  apply Hg. intros run. apply run_of_launched.
Qed.

(** ** The read model *)

(**  The runs the fold reports are the launched ids in first-launch order, each
    with the row its own events make; and the fold over one Work agrees with the
    fold over all of them on every run that Work launched first. *)
Theorem runs_are_independent (events : list OperatorEvent) :
  fold_all_runs events = omap (run_of events) (launch_order events) ∧
  map rw_run_id (fold_all_runs events) = launch_order events ∧
  NoDup (map rw_run_id (fold_all_runs events)) ∧
  ∀ work,
    filter (λ row, rw_work_id row = work) (fold_all_runs events) =
    filter (λ row, owned events work (rw_run_id row)) (fold_runs events work).
Proof.
  pose proof (fold_all_runs_ids events) as Hids.
  split_and!; [apply fold_all_runs_eq|done|rewrite Hids; apply first_occurrences_NoDup|]. intros work.
  rewrite fold_runs_eq, !fold_all_runs_eq.
  rewrite (filter_omap _ _ (owned events work)), (filter_omap _ _ (owned events work)).
  - rewrite launch_order_owned. apply omap_ext_elem. intros run [Hown _]%list_elem_of_filter.
    revert Hown. unfold owned, owner. destruct (run_of events run) as [row|] eqn:E; [|done].
    intros [= <-]. symmetry. by apply run_of_filter_owned.
  - intros run row E. by destruct (run_of_ids _ _ _ E) as [-> _].
  - intros run row E. unfold owned, owner. rewrite E. simpl. split; [by intros ->|by intros [= ->]].
Qed.

(** ** The lifecycle of a worker run

    What every row of the runs read model satisfies, and how one more event may
    change it. *)

(** How an event of a run moves its worker state: a heartbeat promotes, a stale
    marker only touches what has not ended, and an exit always decides. *)
Inductive lifecycle : OperatorEventType → WorkerState → WorkerState → Prop :=
| lc_promoted : lifecycle WorkerHeartbeat Starting Live
| lc_lost w : is_unfinished w = true → lifecycle WorkerStale w Stale
| lc_ended w w' : w' = Exited ∨ w' = Failed → lifecycle WorkerExited w w'.

Definition has_ended (w : WorkerState) : bool :=
  match w with Exited | Failed => true | _ => false end.

(** A row records an ending exactly when its worker has ended, a loss of
    supervision before anything may call it stale, and a bound pane that claims
    no more than its worker proved. *)
Record run_wf (r : RunRow) : Prop := {
  wf_not_revoked : rw_worker_state r ≠ Revoked;
  wf_ended : has_ended (rw_worker_state r) = true ↔ is_Some (rw_ended_at r);
  wf_failed : rw_worker_state r = Failed → is_Some (rw_failure_code r);
  wf_stale : rw_worker_state r = Stale → is_Some (rw_supervision r);
  wf_supervised : is_unfinished (rw_worker_state r) = true → rw_supervision r = None;
  wf_pane : is_Some (rw_pane_id r) →
    rw_pane_state r = Some (for_worker (rw_worker_state r)) ∨
    rw_pane_state r = Some Unverified ∧ rw_worker_state r = Live;
}.

(** What an event leaves alone. *)
Record run_kept (e : OperatorEvent) (r r' : RunRow) : Prop := {
  kept_state : rw_worker_state r' = rw_worker_state r ∨
    lifecycle (event_type e) (rw_worker_state r) (rw_worker_state r');
  kept_pid : is_Some (rw_pid r) →
    rw_pid r' = rw_pid r ∧ rw_process_start_id r' = rw_process_start_id r;
  kept_loss : is_Some (rw_supervision r) → rw_supervision r' = rw_supervision r;
  kept_ending : has_ended (rw_worker_state r) = true → event_type e ≠ WorkerExited →
    rw_worker_state r' = rw_worker_state r ∧ rw_ended_at r' = rw_ended_at r ∧
    rw_exit_code r' = rw_exit_code r ∧ rw_failure_code r' = rw_failure_code r ∧
    rw_supervision r' = rw_supervision r;
}.

Lemma new_row_wf run worker work thread : run_wf (new_row run worker work thread).
Proof. split; simpl; try done; try (by intros []). Qed.

(** Close the clauses of the two records once the worker state is concrete. *)
Ltac row_clause :=
  intros; simplify_eq/=; repeat case_bool_decide; simplify_eq/=;
  first [ done | tauto | by left | by right | by eexists | intuition (eauto || congruence) ].

(** Every handler keeps the invariant. *)
Lemma on_launched_wf e r : run_wf r → run_wf (on_launched e r).
Proof. intros [Hr He Hf Hs Hu Hp]. unfold on_launched. case_match; by split. Qed.

Lemma on_heartbeat_wf e r : run_wf r → run_wf (on_heartbeat e r).
Proof.
  intros [Hr He Hf Hs Hu Hp]. unfold on_heartbeat.
  assert (run_wf (if bool_decide (rw_worker_state r = Starting) then set_worker_state Live r else r))
    as Hwf.
  { case_bool_decide as Hst; [|by split]. rewrite Hst in *. split; simpl; row_clause. }
  revert Hwf. generalize (if bool_decide (rw_worker_state r = Starting) then set_worker_state Live r else r).
  intros r0 []. case_bool_decide; [case_match|]; by split.
Qed.

Lemma refresh_pane_wf r :
  rw_worker_state r ≠ Revoked →
  (has_ended (rw_worker_state r) = true ↔ is_Some (rw_ended_at r)) →
  (rw_worker_state r = Failed → is_Some (rw_failure_code r)) →
  (rw_worker_state r = Stale → is_Some (rw_supervision r)) →
  (is_unfinished (rw_worker_state r) = true → rw_supervision r = None) →
  run_wf (refresh_pane (rw_worker_state r) r).
Proof.
  intros. unfold refresh_pane. case_bool_decide; split; simpl; try done. by left.
Qed.

Lemma on_exited_wf e r : run_wf r → run_wf (on_exited e r).
Proof.
  intros [Hr He Hf Hs Hu Hp]. unfold on_exited.
  destruct (exited_from e) as [p|]; [destruct (ex_failure_code p) as [c|] eqn:Ec|];
    apply refresh_pane_wf; simpl; rewrite ?Ec; try done; split; by eauto.
Qed.

Lemma on_stale_wf e r : run_wf r → run_wf (on_stale e r).
Proof.
  intros [Hr He Hf Hs Hu Hp]. unfold on_stale.
  destruct (is_unfinished (rw_worker_state r)) eqn:E; [|by split; rewrite ?E].
  assert (has_ended (rw_worker_state r) = false) as Hne by (by destruct (rw_worker_state r)).
  apply (refresh_pane_wf (set_supervision (supervision_loss e) (set_worker_state Stale r))); simpl; try done.
  rewrite <- He, Hne. done.
Qed.

Lemma handler_wf e r : run_wf r → run_wf (handler e r).
Proof.
  intros Hwf. unfold handler.
  destruct (event_type e); try done;
    eauto using on_launched_wf, on_heartbeat_wf, on_exited_wf, on_stale_wf.
  - case_match; [|done]. destruct Hwf. unfold on_pane_opened. split; simpl; try done. by left.
  - case_match; [|done]. destruct Hwf. unfold on_pane_closed. split; simpl; try done. by left.
Qed.

(** *** What each handler leaves alone *)

Lemma kept_refl e r : run_kept e r r.
Proof. by split; auto. Qed.

Lemma on_heartbeat_kept e r : event_type e = WorkerHeartbeat → run_kept e r (on_heartbeat e r).
Proof.
  intros Et. unfold on_heartbeat.
  destruct (decide (rw_worker_state r = Starting)) as [Hs|Hs];
    [rewrite (bool_decide_true _ Hs)|rewrite (bool_decide_false _ Hs)]; split; rewrite ?Et.
  1: right; rewrite Hs.
  5: left.
  all: try intros [pid Hpid]; rewrite ?Hs; simpl; try done.
  all: repeat (case_match || case_bool_decide); simpl in *; simplify_eq/=; try done; constructor.
Qed.

Lemma on_exited_kept e r : event_type e = WorkerExited → run_kept e r (on_exited e r).
Proof.
  intros Et. unfold on_exited, refresh_pane. split; rewrite ?Et; [right|..].
  - destruct (exited_from e) as [p|]; [destruct (ex_failure_code p)|]; case_bool_decide; simpl;
      constructor; auto.
  - intros _. by repeat case_match.
  - intros _. by repeat case_match.
  - done.
Qed.

Lemma on_stale_kept e r :
  (is_unfinished (rw_worker_state r) = true → rw_supervision r = None) →
  event_type e = WorkerStale → run_kept e r (on_stale e r).
Proof.
  intros Hu Et. unfold on_stale, refresh_pane.
  destruct (is_unfinished (rw_worker_state r)) eqn:E; [|apply kept_refl].
  split; rewrite ?Et.
  - right. case_bool_decide; simpl; by constructor.
  - intros _. by case_bool_decide.
  - rewrite Hu by done. by intros [].
  - intros Hend. by destruct (rw_worker_state r).
Qed.

Lemma handler_kept e r : run_wf r → run_kept e r (handler e r).
Proof.
  intros Hwf. unfold handler. destruct (event_type e) eqn:Et; try apply kept_refl.
  - unfold on_launched. case_match; split; auto.
  - by apply on_heartbeat_kept.
  - by apply on_exited_kept.
  - apply on_stale_kept; [apply Hwf|done].
  - case_match; [|apply kept_refl]. split; auto.
  - case_match; [|apply kept_refl]. split; auto.
Qed.

(** ** Runs of a stream *)

Lemma run_step_wf run r e r' : run_wf r → run_step run (Some r) e = Some r' → run_wf r'.
Proof.
  unfold run_step. intros Hr. repeat case_match; intros; simplify_eq; auto using handler_wf.
Qed.

Lemma run_of_wf events run row : run_of events run = Some row → run_wf row.
Proof.
  revert row. induction events as [|e events IH] using rev_ind; intros row; [done|].
  rewrite run_of_snoc. destruct (run_of events run) as [r|] eqn:E.
  - apply run_step_wf, IH, eq_refl.
  - unfold run_step. repeat case_match; intros; simplify_eq. apply handler_wf, new_row_wf.
Qed.

(** A live run has reported a heartbeat of its own. *)
Lemma live_reported events run row :
  run_of events run = Some row → rw_worker_state row = Live →
  ∃ e, e ∈ events ∧ event_type e = WorkerHeartbeat ∧ run_id e = Some run ∧
    work_id e = Some (rw_work_id row).
Proof.
  revert row. induction events as [|e events IH] using rev_ind; intros row; [done|].
  rewrite run_of_snoc. intros Hrow Hlive.
  assert (∀ r, run_of events run = Some r → rw_worker_state r = Live → rw_work_id row = rw_work_id r →
    ∃ e', e' ∈ events ++ [e] ∧ event_type e' = WorkerHeartbeat ∧ run_id e' = Some run ∧
      work_id e' = Some (rw_work_id row)) as Hold.
  { intros r Hr Hl Hw. destruct (IH r Hr Hl) as (e' & ? & ?). rewrite Hw. exists e'. set_solver. }
  revert Hrow. unfold run_step. destruct (work_id e) as [work|] eqn:Ew; [|by eauto].
  case_bool_decide as Er; [|by eauto]. destruct (run_of events run) as [r|] eqn:E.
  - case_bool_decide as Hw; intros [= <-]; [|by eauto].
    destruct (handler_ids e r) as (_ & Hid & _). rewrite Hid in *.
    destruct (kept_state _ _ _ (handler_kept e r (run_of_wf _ _ _ E))) as [Hs|Hs].
    + apply (Hold r); congruence.
    + rewrite Hlive in Hs. inversion Hs as [Ht| |? ? [?|?] Ht]; subst; try done.
      exists e. split_and!; [set_solver|done|done|congruence].
  - case_bool_decide as Ht; [|done]. intros [= <-]. revert Hlive. unfold handler, on_launched.
    rewrite Ht. by case_match.
Qed.

Lemma fold_all_runs_elem events row :
  row ∈ fold_all_runs events ↔ run_of events (rw_run_id row) = Some row.
Proof.
  rewrite fold_all_runs_eq, list_elem_of_omap. split.
  - intros (run & _ & Hr). by destruct (run_of_ids _ _ _ Hr) as [-> _].
  - intros Hr. exists (rw_run_id row). split; [|done]. apply run_of_launched. by rewrite Hr.
Qed.

(** C29.  Every reported run is well formed and, when it claims to be live or shows a
    working pane, has reported a heartbeat; one more event keeps the run in
    place, leaves it untouched unless it names that run under its Work, and then
    moves it only along the lifecycle: an ending outranks any later marker, the
    first pid and the first loss of supervision stand. *)
Theorem run_lifecycle (events : list OperatorEvent) (row : RunRow)
    (Hrow : row ∈ fold_all_runs events) :
  run_wf row ∧
  (rw_worker_state row = Live ∨ is_Some (rw_pane_id row) ∧ rw_pane_state row = Some Working →
   ∃ e, e ∈ events ∧ event_type e = WorkerHeartbeat ∧ run_id e = Some (rw_run_id row) ∧
     work_id e = Some (rw_work_id row)) ∧
  ∀ e, ∃ row', row' ∈ fold_all_runs (events ++ [e]) ∧
    rw_run_id row' = rw_run_id row ∧ rw_work_id row' = rw_work_id row ∧
    rw_thread_id row' = rw_thread_id row ∧
    (row' = row ∨ run_id e = Some (rw_run_id row) ∧ work_id e = Some (rw_work_id row) ∧
                  run_wf row' ∧ run_kept e row row').
Proof.
  apply fold_all_runs_elem in Hrow. pose proof (run_of_wf _ _ _ Hrow) as Hwf.
  split_and!; [done|..].
  - intros Hlive. apply (live_reported _ _ _ Hrow). destruct Hlive as [?|[Hp Hs]]; [done|].
    destruct (wf_pane _ Hwf Hp) as [Hpane|[Hpane _]]; rewrite Hs in Hpane; [|done].
    by destruct (rw_worker_state row).
  - intros e. destruct (bool_decide (run_id e = Some (rw_run_id row) ∧ work_id e = Some (rw_work_id row)))
      eqn:Hd; [apply bool_decide_eq_true in Hd as [Hr Hw]|apply bool_decide_eq_false in Hd].
    + exists (handler e row). destruct (handler_ids e row) as (Hid & Hwid & Htid).
      split_and!; try done; [|right; auto using handler_wf, handler_kept].
      apply fold_all_runs_elem. rewrite Hid, run_of_snoc, Hrow. unfold run_step.
      by rewrite Hw, Hr, !bool_decide_true.
    + exists row. split_and!; try done; [|by left].
      apply fold_all_runs_elem. rewrite run_of_snoc, Hrow. unfold run_step.
      destruct (work_id e) as [w|]; [|done]. case_bool_decide as Hr; [|done].
      rewrite bool_decide_false; [done|]. intros <-. by apply Hd.
Qed.
