(* ===== verification/RunRecovery.v ===== *)
(** * Restart recovery for worker runs (crates/heiwa_worker/src/recovery.rs,
      apps/heiwa_shell/src/cmd/recover.rs)

    Which runs lost their supervisor, what a sighting of a pid proves about the
    recorded process, and the planner that marks every unfinished run the stream
    lets it vouch for, inside the exclusive recovery section of the operator
    session service. *)

From stdpp Require Import base gmap sets strings numbers list.
From S2P Require Import Prelude Json Hex Envelope OperatorEvent RoutePolicy Sensitive Turns.
From S2P Require Import EventLog Session WorkerEvents RunFold.
#[local] Open Scope Z_scope.

(** ** recovery.rs *)

Inductive ProcessSighting : Type :=
| NotRunning
| Running (start_id : option string)
| Uninspectable.

Definition observe_process (pid : option Z) (recorded_start_id : option string)
    (sighting : Z → ProcessSighting) : ObservedProcess :=
  match pid with
  | None => Unknown
  | Some pid =>
      match sighting pid with
      | NotRunning => Gone
      | Uninspectable => Unknown
      | Running start_id =>
          match recorded_start_id, start_id with
          | Some recorded, Some current => if bool_decide (recorded = current) then Alive else Gone
          | _, _ => Unknown
          end
      end
  end.

Definition unfinished_runs (events : list OperatorEvent) : list RunRow :=
  filter (λ row, is_unfinished (rw_worker_state row) = true) (fold_all_runs events).

Definition stale_marker (row : RunRow) (process : ObservedProcess) (at_ id : string)
    : OperatorEvent :=
  worker_stale_event
    (mkRunRef (rw_work_id row) (rw_thread_id row) (rw_run_id row) (rw_worker_id row))
    process (rw_pid row) at_ id.

(** ** recover.rs *)

Record Doubt : Type := mkDoubt {
  db_run_id : option string;
  db_work_id : option string;
  db_reason : string;
}.

(** [Doubt::of]. *)
Definition doubt_of (e : OperatorEvent) (reason : string) : Doubt :=
  mkDoubt (run_id e) (work_id e) reason.

(** [Doubt::reaches]. *)
Definition reaches (d : Doubt) (row : RunRow) : bool :=
  match db_run_id d, db_work_id d with
  | Some run, _ => bool_decide (run = rw_run_id row)
  | None, Some work => bool_decide (work = rw_work_id row)
  | None, None => true
  end.

Record RunRecoveryReport : Type := mkReport {
  runs_withheld : list Doubt;
  unadmitted_worker_events : list Doubt;
  unreadable_journal_lines : Z;
}.

(** The planner, with the process sightings it makes: the [n]-th marker sees the
    processes as [sight n] reports them. *)
Record RunRecovery : Type := mkRecovery {
  rc_worker_events : list OperatorEvent;
  rc_doubts : list Doubt;
  rc_sight : nat → Z → ProcessSighting;
}.

Definition observing (sight : nat → Z → ProcessSighting) : RunRecovery := mkRecovery [] [] sight.

Definition worker_payload_parses (e : OperatorEvent) : bool :=
  match event_type e with
  | WorkerLaunched => bool_decide (is_Some (launched_from e))
  | WorkerHeartbeat => bool_decide (is_Some (heartbeat_from e))
  | WorkerExited => bool_decide (is_Some (exited_from e))
  | WorkerStale => bool_decide (is_Some (stale_from e))
  | _ => true
  end.

Definition shapes_a_run (t : OperatorEventType) : bool :=
  match t with
  | WorkerLaunched | WorkerHeartbeat | WorkerExited | WorkerStale => true
  | _ => false
  end.

Definition push_event (e : OperatorEvent) (p : RunRecovery) : RunRecovery :=
  mkRecovery (rc_worker_events p ++ [e]) (rc_doubts p) (rc_sight p).
Definition push_doubt (e : OperatorEvent) (reason : string) (p : RunRecovery) : RunRecovery :=
  mkRecovery (rc_worker_events p) (rc_doubts p ++ [doubt_of e reason]) (rc_sight p).

(** [RecoveryPlanner::observe]. *)
Definition observe_row (p : RunRecovery) (e : OperatorEvent) (admission : EventAdmission)
    : RunRecovery :=
  if negb (shapes_a_run (event_type e)) then p
  else
    match admission with
    | EventAdmitted =>
        if negb (worker_payload_parses e) then push_doubt e "malformed_worker_payload" p
        else if bool_decide (is_Some (run_id e)) then push_event e p
        else push_doubt e "worker_row_without_run" p
    | Duplicate => p
    | UnsupportedSchema => push_doubt e "unsupported_schema" p
    | Rejected => push_doubt e "rejected_by_replay" p
    end.

(** The events that name an unfinished run under another Work or thread. *)
Definition scope_mismatch (rows : list RunRow) (e : OperatorEvent) : option Doubt :=
  match head (filter (λ row, run_id e = Some (rw_run_id row)) rows) with
  | None => None
  | Some row =>
      if bool_decide (work_id e ≠ Some (rw_work_id row)) ||
         bool_decide (thread_id e ≠ rw_thread_id row)
      then Some (doubt_of e "scope_mismatch") else None
  end.

(** What keeps recovery from vouching for a run. *)
Definition row_doubt (unreadable_lines : Z) (doubts : list Doubt) (row : RunRow) : option string :=
  if bool_decide (0 < unreadable_lines) then Some "unreadable_journal_lines"
  else db_reason <$> head (filter (λ d, reaches d row = true) doubts).

Section plan.
Context (now : string) (ids : nat → string).

(** The loop over the unfinished rows; [n] counts the markers made. *)
Fixpoint plan_rows (p : RunRecovery) (unreadable_lines : Z) (doubts : list Doubt) (n : nat)
    (rows : list RunRow) : list OperatorEvent * list Doubt :=
  match rows with
  | [] => ([], [])
  | row :: rows' =>
      match row_doubt unreadable_lines doubts row with
      | Some reason =>
          let '(markers, withheld) := plan_rows p unreadable_lines doubts n rows' in
          (markers, mkDoubt (Some (rw_run_id row)) (Some (rw_work_id row)) reason :: withheld)
      | None =>
          let process := observe_process (rw_pid row) (rw_process_start_id row) (rc_sight p n) in
          let '(markers, withheld) := plan_rows p unreadable_lines doubts (S n) rows' in
          (stale_marker row process now (ids n) :: markers, withheld)
      end
  end.

(** [RecoveryPlanner::plan]. *)
Definition plan (p : RunRecovery) (unreadable_lines : Z)
    : list OperatorEvent * RunRecoveryReport :=
  let rows := unfinished_runs (rc_worker_events p) in
  let mismatches := omap (scope_mismatch rows) (rc_worker_events p) in
  let '(markers, withheld) :=
    plan_rows p unreadable_lines (rc_doubts p ++ mismatches) 0 rows in
  (markers, mkReport withheld (rc_doubts p) unreadable_lines).

#[export] Instance run_recovery_planner : RecoveryPlanner RunRecovery RunRecoveryReport := {|
  plan_observe := observe_row;
  plan_events p n := Ok (plan p n);
|}.
End plan.

(** ** What the planner vouches for *)

(** A row the planner could not interpret. *)
Definition doubtful (e : OperatorEvent) (a : EventAdmission) : Prop :=
  a = Rejected ∨ a = UnsupportedSchema ∨
  a = EventAdmitted ∧ (worker_payload_parses e = false ∨ run_id e = None).

(** A row it kept. *)
Definition interpreted (e : OperatorEvent) (a : EventAdmission) : Prop :=
  a = EventAdmitted ∧ worker_payload_parses e = true ∧ is_Some (run_id e).

#[export] Instance doubtful_dec e a : Decision (doubtful e a).
Proof. unfold doubtful. apply _. Defined.
#[export] Instance interpreted_dec e a : Decision (interpreted e a).
Proof. unfold interpreted. apply _. Defined.

Definition known (seen : list (OperatorEvent * EventAdmission)) : list OperatorEvent :=
  map fst (filter (λ ea, shapes_a_run (event_type ea.1) = true ∧ interpreted ea.1 ea.2) seen).

(** An uninterpreted row that may be about a run: it names the run, or names no
    run but its Work, or names neither. *)
Definition touches (e : OperatorEvent) (row : RunRow) : Prop :=
  match run_id e, work_id e with
  | Some run, _ => run = rw_run_id row
  | None, Some work => work = rw_work_id row
  | None, None => True
  end.
#[export] Instance touches_dec e row : Decision (touches e row).
Proof. unfold touches. repeat case_match; apply _. Defined.

(** The evidence about a run that may hold an outcome this build cannot read. *)
Definition casts_doubt (row : RunRow) (ea : OperatorEvent * EventAdmission) : Prop :=
  shapes_a_run (event_type ea.1) = true ∧
  (doubtful ea.1 ea.2 ∧ touches ea.1 row ∨
   interpreted ea.1 ea.2 ∧ run_id ea.1 = Some (rw_run_id row) ∧
   (work_id ea.1 ≠ Some (rw_work_id row) ∨ thread_id ea.1 ≠ rw_thread_id row)).
#[export] Instance casts_doubt_dec row ea : Decision (casts_doubt row ea).
Proof. unfold casts_doubt. apply _. Defined.

Definition uncertain (seen : list (OperatorEvent * EventAdmission)) (unreadable : Z) (row : RunRow)
    : Prop := 0 < unreadable ∨ Exists (casts_doubt row) seen.
#[export] Instance uncertain_dec seen n row : Decision (uncertain seen n row).
Proof. unfold uncertain. apply _. Defined.

(** ** Lemmas *)

Lemma reaches_of e reason row : reaches (doubt_of e reason) row = bool_decide (touches e row).
Proof.
  apply Bool.eq_iff_eq_true. rewrite bool_decide_eq_true. unfold reaches, touches, doubt_of; simpl.
  destruct (run_id e), (work_id e); by rewrite ?bool_decide_eq_true.
Qed.

Lemma known_one e a :
  known [(e, a)] =
    if bool_decide (shapes_a_run (event_type e) = true ∧ interpreted e a) then [e] else [].
Proof. unfold known. rewrite filter_cons, filter_nil. simpl. by case_bool_decide; case_decide. Qed.

(** A row the planner lets pass, keeps, or doubts. *)
Lemma observe_pass p e a :
  (¬ (shapes_a_run (event_type e) = true ∧ interpreted e a)) → observe_row p e a = p →
  (∀ row, ¬ (shapes_a_run (event_type e) = true ∧ doubtful e a ∧ touches e row)) →
  rc_worker_events (observe_row p e a) = rc_worker_events p ++ known [(e, a)] ∧
  rc_sight (observe_row p e a) = rc_sight p ∧
  ∃ ds, rc_doubts (observe_row p e a) = rc_doubts p ++ ds ∧
    ∀ row, Exists (λ d, reaches d row = true) ds ↔
      shapes_a_run (event_type e) = true ∧ doubtful e a ∧ touches e row.
Proof.
  intros Hk -> Hd. rewrite known_one, bool_decide_false, app_nil_r by done. split_and!; [done..|].
  exists []. rewrite app_nil_r. split; [done|]. intros row. rewrite Exists_nil. naive_solver.
Qed.

Lemma observe_doubt p e a reason :
  shapes_a_run (event_type e) = true → doubtful e a → observe_row p e a = push_doubt e reason p →
  rc_worker_events (observe_row p e a) = rc_worker_events p ++ known [(e, a)] ∧
  rc_sight (observe_row p e a) = rc_sight p ∧
  ∃ ds, rc_doubts (observe_row p e a) = rc_doubts p ++ ds ∧
    ∀ row, Exists (λ d, reaches d row = true) ds ↔
      shapes_a_run (event_type e) = true ∧ doubtful e a ∧ touches e row.
Proof.
  intros Hs Hd ->. rewrite known_one, bool_decide_false, app_nil_r.
  2: { intros [_ (Ha & Hp & Hr)]. destruct Hd as [?|[?|[_ [?|Hn]]]]; try congruence.
       rewrite Hn in Hr. by destruct Hr. }
  split_and!; [done..|]. exists [doubt_of e reason]. split; [done|]. intros row.
  rewrite Exists_cons, Exists_nil, reaches_of, bool_decide_eq_true. tauto.
Qed.

(** The planner keeps what it interprets and doubts the rest. *)
Lemma observe_row_eq p e a :
  rc_worker_events (observe_row p e a) = rc_worker_events p ++ known [(e, a)] ∧
  rc_sight (observe_row p e a) = rc_sight p ∧
  ∃ ds, rc_doubts (observe_row p e a) = rc_doubts p ++ ds ∧
    ∀ row, Exists (λ d, reaches d row = true) ds ↔
      shapes_a_run (event_type e) = true ∧ doubtful e a ∧ touches e row.
Proof.
  destruct (decide (shapes_a_run (event_type e) = true)) as [Hs|Hs].
  2: { apply observe_pass; [by intros []| |by intros ? []].
       apply not_true_is_false in Hs. unfold observe_row. by rewrite Hs. }
  destruct a.
  - destruct (worker_payload_parses e) eqn:Hp.
    2: { eapply observe_doubt; [done|unfold doubtful; auto|]. unfold observe_row. by rewrite Hs, Hp. }
    destruct (run_id e) as [run|] eqn:Hr.
    2: { eapply observe_doubt; [done|unfold doubtful; auto|].
         unfold observe_row. rewrite Hs, Hp, Hr. done. }
    rewrite known_one, bool_decide_true.
    2: { split; [done|]. unfold interpreted. rewrite Hr. split_and!; [done..|by eexists]. }
    unfold observe_row. rewrite Hs, Hp, Hr. simpl. split_and!; [done..|].
    exists []. rewrite app_nil_r. split; [done|]. intros row. rewrite Exists_nil.
    split; [done|]. by intros (_ & [?|[?|[_ [?|?]]]] & _); congruence.
  - apply observe_pass; [by intros [_ [? _]]|unfold observe_row; by rewrite Hs|].
    by intros row (_ & [?|[?|[? _]]] & _).
  - eapply observe_doubt; [done|unfold doubtful; auto|]. unfold observe_row. by rewrite Hs.
  - eapply observe_doubt; [done|unfold doubtful; auto|]. unfold observe_row. by rewrite Hs.
Qed.

Definition observe_all (p : RunRecovery) (seen : list (OperatorEvent * EventAdmission))
    : RunRecovery := foldl (λ p '(e, a), observe_row p e a) p seen.

Lemma known_app s1 s2 : known (s1 ++ s2) = known s1 ++ known s2.
Proof. unfold known. by rewrite filter_app, map_app. Qed.

Lemma observe_all_eq seen : ∀ p,
  rc_worker_events (observe_all p seen) = rc_worker_events p ++ known seen ∧
  rc_sight (observe_all p seen) = rc_sight p ∧
  ∃ ds, rc_doubts (observe_all p seen) = rc_doubts p ++ ds ∧
    ∀ row, Exists (λ d, reaches d row = true) ds ↔
      Exists (λ ea, shapes_a_run (event_type ea.1) = true ∧ doubtful ea.1 ea.2 ∧ touches ea.1 row) seen.
Proof.
  induction seen as [|[e a] seen IH]; intros p; simpl.
  { rewrite app_nil_r. split_and!; [done..|]. exists []. rewrite app_nil_r. split; [done|].
    intros row. by rewrite !Exists_nil. }
  destruct (observe_row_eq p e a) as (Hp & Hsi & ds & Hds & Hone).
  destruct (IH (observe_row p e a)) as (He & Hs & ds' & Hds' & Hall).
  unfold observe_all in *. rewrite He, Hs, Hds', Hds. change ((e, a) :: seen) with ([(e, a)] ++ seen).
  rewrite known_app, Hp, Hsi. split_and!; [by rewrite app_assoc|done|].
  exists (ds ++ ds'). split; [by rewrite app_assoc|]. intros row.
  rewrite !Exists_app, Hone, Hall, Exists_cons, Exists_nil. simpl. tauto.
Qed.

Lemma unfinished_runs_elem events row :
  row ∈ unfinished_runs events ↔
    run_of events (rw_run_id row) = Some row ∧ is_unfinished (rw_worker_state row) = true.
Proof. unfold unfinished_runs. rewrite list_elem_of_filter, fold_all_runs_elem. tauto. Qed.

Lemma head_filter_elem {A} (P : A → Prop) `{∀ x, Decision (P x)} (l : list A) x :
  head (filter P l) = Some x → P x ∧ x ∈ l.
Proof. intros Hh. by apply head_Some_elem_of, list_elem_of_filter in Hh. Qed.

Lemma head_filter_is_Some {A} (P : A → Prop) `{∀ x, Decision (P x)} (l : list A) :
  is_Some (head (filter P l)) ↔ Exists P l.
Proof.
  rewrite Exists_exists. split.
  - intros [x Hx]. apply head_filter_elem in Hx as [? ?]. eauto.
  - intros (x & Hx & HP). destruct (filter P l) as [|y k] eqn:E; [|by eexists].
    exfalso. assert (x ∈ filter P l) as Hin by (by apply list_elem_of_filter).
    rewrite E in Hin. set_solver.
Qed.

(** The row an event names, among the unfinished runs. *)
Lemma named_row events row e :
  row ∈ unfinished_runs events → run_id e = Some (rw_run_id row) →
  head (filter (λ r, run_id e = Some (rw_run_id r)) (unfinished_runs events)) = Some row.
Proof.
  intros Hrow Hr. destruct (head_filter_is_Some (λ r, run_id e = Some (rw_run_id r))
    (unfinished_runs events)) as [_ [r Hhead]]; [apply Exists_exists; eauto|].
  rewrite Hhead. apply head_filter_elem in Hhead as [Hid Hin].
  apply unfinished_runs_elem in Hrow as [Hrow _], Hin as [Hin _]. congruence.
Qed.

Lemma scope_mismatch_reaches events row e :
  row ∈ unfinished_runs events →
  (∃ d, scope_mismatch (unfinished_runs events) e = Some d ∧ reaches d row = true ∧
        is_Some (run_id e)) ↔
    run_id e = Some (rw_run_id row) ∧
    (work_id e ≠ Some (rw_work_id row) ∨ thread_id e ≠ rw_thread_id row).
Proof.
  intros Hrow. split.
  - intros (d & Hd & Hr & [run Hrun]). unfold scope_mismatch in Hd.
    assert (run_id e = Some (rw_run_id row)) as Hid.
    { repeat case_match; simplify_eq. rewrite reaches_of, bool_decide_eq_true in Hr.
      unfold touches in Hr. rewrite Hrun in Hr |- *. congruence. }
    rewrite (named_row _ _ _ Hrow Hid) in Hd. split; [done|].
    destruct (bool_decide (work_id e ≠ _)) eqn:Hw; [left; by apply bool_decide_eq_true in Hw|].
    simpl in Hd. case_bool_decide; [by right|done].
  - intros [Hid Hbad]. exists (doubt_of e "scope_mismatch"). unfold scope_mismatch.
    rewrite (named_row _ _ _ Hrow Hid). split_and!; [|..|by eexists].
    + destruct Hbad as [Hb|Hb]; rewrite (bool_decide_true _ Hb), ?orb_true_r; done.
    + rewrite reaches_of. apply bool_decide_eq_true. unfold touches. by rewrite Hid.
Qed.

(** Some doubt keeps a row back exactly when the evidence about it is uncertain. *)
Lemma row_doubt_uncertain sight seen n row :
  let p := observe_all (observing sight) seen in
  let rows := unfinished_runs (rc_worker_events p) in
  row ∈ rows →
  is_Some (row_doubt n (rc_doubts p ++ omap (scope_mismatch rows) (rc_worker_events p)) row) ↔
    uncertain seen n row.
Proof.
  intros p rows Hrow. destruct (observe_all_eq seen (observing sight)) as (He & _ & ds & Hds & Hall).
  fold p in He, Hds. simpl in He, Hds. unfold row_doubt, uncertain.
  case_bool_decide as Hn; [split; [by left|by eexists]|].
  set (doubts := rc_doubts p ++ omap (scope_mismatch rows) (rc_worker_events p)).
  rewrite fmap_is_Some, head_filter_is_Some.
  unfold doubts. rewrite Exists_app, Hds, Hall.
  assert (Exists (λ d, reaches d row = true) (omap (scope_mismatch rows) (rc_worker_events p)) ↔
    Exists (λ ea, shapes_a_run (event_type ea.1) = true ∧ interpreted ea.1 ea.2 ∧
      run_id ea.1 = Some (rw_run_id row) ∧
      (work_id ea.1 ≠ Some (rw_work_id row) ∨ thread_id ea.1 ≠ rw_thread_id row)) seen) as ->.
  2: { rewrite !Exists_exists. unfold casts_doubt. naive_solver. }
  rewrite !Exists_exists. unfold rows in *. rewrite He in *. split.
  - intros (d & Hd & Hr). apply list_elem_of_omap in Hd as (e & Hin & Hm).
    unfold known in Hin. apply list_elem_of_fmap in Hin as (ea & -> & [[Hs Hi] Hin]%list_elem_of_filter).
    exists ea. destruct (proj1 (scope_mismatch_reaches _ _ ea.1 Hrow)) as [? ?]; [|done].
    exists d. split_and!; [done..|apply Hi].
  - intros (ea & Hin & Hs & Hi & Hbad).
    apply (scope_mismatch_reaches _ _ _ Hrow) in Hbad as (d & Hd & Hr & _).
    exists d. split; [|done]. apply list_elem_of_omap. exists ea.1. split; [|done].
    unfold known. apply list_elem_of_fmap. exists ea. split; [done|]. by apply list_elem_of_filter.
Qed.

(** ** The markers *)

(** The markers of a list of rows, from the [n]-th sighting on. *)
Definition markers_of (now : string) (ids : nat → string) (sight : nat → Z → ProcessSighting)
    (n : nat) (rows : list RunRow) : list OperatorEvent :=
  imap (λ i row, stale_marker row
    (observe_process (rw_pid row) (rw_process_start_id row) (sight (n + i)%nat)) now (ids (n + i)%nat))
    rows.

Lemma markers_of_cons now ids sight n row rows :
  markers_of now ids sight n (row :: rows) =
    stale_marker row (observe_process (rw_pid row) (rw_process_start_id row) (sight n)) now (ids n)
      :: markers_of now ids sight (S n) rows.
Proof.
  unfold markers_of. rewrite imap_cons. rewrite Nat.add_0_r. f_equal.
  apply imap_ext. intros i x _. simpl. by rewrite Nat.add_succ_r.
Qed.

(** The loop marks the rows without doubt and withholds the others. *)
Lemma plan_rows_eq now ids p n doubts rows : ∀ k,
  plan_rows now ids p n doubts k rows =
    (markers_of now ids (rc_sight p) k (filter (λ row, row_doubt n doubts row = None) rows),
     omap (λ row, mkDoubt (Some (rw_run_id row)) (Some (rw_work_id row)) <$> row_doubt n doubts row)
       rows).
Proof.
  induction rows as [|row rows IH]; intros k; [done|]. rewrite filter_cons. cbn [plan_rows].
  destruct (row_doubt n doubts row) as [reason|] eqn:E; rewrite IH.
  - rewrite decide_False by done. simpl. by rewrite E.
  - rewrite decide_True, markers_of_cons by done. simpl. by rewrite E.
Qed.

(** A pid was read at 32 bits. *)
Definition pid_wf (r : RunRow) : Prop := ∀ u, rw_pid r = Some u → is_u32 u.

Lemma heartbeat_pid e p : heartbeat_from e = Some p → is_u32 (hb_pid p).
Proof.
  unfold heartbeat_from, from_event, decode_heartbeat. case_bool_decide; [|done].
  intros (m & _ & (w & _ & (pid & Hpid & (st & _ & [= <-])%bind_Some)%bind_Some)%bind_Some)%bind_Some.
  apply bind_Some in Hpid as (v & _ & Hv). unfold as_uint in Hv.
  apply bind_Some in Hv as (u & _ & Hv). case_bool_decide; [|done]. by injection Hv as <-.
Qed.

Lemma run_of_pid events run row : run_of events run = Some row → pid_wf row.
Proof.
  revert row. induction events as [|e events IH] using rev_ind; intros row; [done|].
  rewrite run_of_snoc. assert (∀ r, pid_wf r → pid_wf (handler e r)) as Hh.
  { intros r Hr. unfold handler, on_launched, on_heartbeat, on_exited, on_stale, refresh_pane,
      on_pane_opened, on_pane_closed, pid_wf in *.
    destruct (event_type e); try done.
    2: { destruct (bool_decide (rw_worker_state r = Starting)); simpl;
         (case_bool_decide; [|done]); destruct (heartbeat_from e) eqn:E; simpl; try done;
         intros u [= <-]; by eapply heartbeat_pid. }
    all: by repeat case_match. }
  unfold run_step. destruct (run_of events run) as [r|] eqn:E; repeat case_match; intros;
    simplify_eq; eauto. by apply Hh.
Qed.

Lemma stale_marker_loss row process at_ id :
  pid_wf row →
  supervision_loss (stale_marker row process at_ id) = mkLoss OWNER_LOST process (rw_pid row) at_.
Proof.
  intros Hp. unfold supervision_loss, stale_from, from_event. simpl.
  rewrite decode_stale_value; [done|]. exact Hp.
Qed.

(** A marked run is stale, with what was observed of it. *)
Definition marked (row : RunRow) (process : ObservedProcess) (at_ : string) : RunRow :=
  refresh_pane Stale
    (set_supervision (mkLoss OWNER_LOST process (rw_pid row) at_) (set_worker_state Stale row)).

Lemma run_step_marker row process at_ id :
  pid_wf row → is_unfinished (rw_worker_state row) = true →
  run_step (rw_run_id row) (Some row) (stale_marker row process at_ id) =
    Some (marked row process at_).
Proof.
  intros Hp Hu. unfold run_step. simpl. rewrite !bool_decide_true by done.
  unfold handler. cbn [event_type stale_marker worker_stale_event with_actor worker_scoped].
  unfold on_stale. by rewrite Hu, stale_marker_loss.
Qed.

Lemma run_step_other_marker run row process at_ id o :
  run ≠ rw_run_id row → run_step run o (stale_marker row process at_ id) = o.
Proof. intros Hr. apply run_step_other. simpl. congruence. Qed.

Lemma foldl_markers_other now ids sight run rows : ∀ n o,
  run ∉ map rw_run_id rows → foldl (run_step run) o (markers_of now ids sight n rows) = o.
Proof.
  induction rows as [|row rows IH]; intros n o Hr; [done|]. rewrite markers_of_cons. simpl.
  rewrite run_step_other_marker by set_solver. apply IH. set_solver.
Qed.

(** Each marker changes its own row and no other. *)
Lemma foldl_markers now ids sight rows row : ∀ n,
  NoDup (map rw_run_id rows) → row ∈ rows → pid_wf row →
  is_unfinished (rw_worker_state row) = true →
  ∃ i, foldl (run_step (rw_run_id row)) (Some row) (markers_of now ids sight n rows) =
    Some (marked row (observe_process (rw_pid row) (rw_process_start_id row) (sight i)) now).
Proof.
  induction rows as [|r rows IH]; intros n; [set_solver|]. cbn [map].
  intros [Hr Hnd]%NoDup_cons [->|Hin]%elem_of_cons Hp Hu; rewrite markers_of_cons; simpl.
  - exists n. by rewrite run_step_marker, foldl_markers_other.
  - rewrite run_step_other_marker; [by apply IH|]. intros Heq. apply Hr. rewrite <- Heq.
    apply list_elem_of_fmap. eauto.
Qed.

Lemma launch_order_markers events now ids sight rows : ∀ n,
  launch_order (events ++ markers_of now ids sight n rows) = launch_order events.
Proof.
  induction rows as [|row rows IH] using rev_ind; intros n.
  { simpl. by rewrite app_nil_r. }
  unfold markers_of in *. rewrite imap_app. simpl. rewrite app_assoc, launch_order_snoc.
  rewrite launch_of_eq. apply IH.
Qed.

(** ** Recovery through the planner *)

(** Filters of two reports of the same runs agree when they do run by run. *)
Lemma filter_omap_pointwise {A B} (f g : A → option B) (P Q : B → Prop)
    `{∀ x, Decision (P x), ∀ x, Decision (Q x)} (l : list A) :
  (∀ x, x ∈ l → filter P (option_list (f x)) = filter Q (option_list (g x))) →
  filter P (omap f l) = filter Q (omap g l).
Proof.
  assert (∀ (h : A → option B) x k, omap h (x :: k) = option_list (h x) ++ omap h k) as Hcons.
  { intros h x k. simpl. by destruct (h x). }
  induction l as [|x l IH]; intros Hl; [done|].
  rewrite !Hcons, !filter_app, (Hl x) by (by left). f_equal. apply IH. set_solver.
Qed.

(** The rows of a stream after the markers of some of its unfinished runs. *)
Section marked.
Context (now : string) (ids : nat → string) (sight : nat → Z → ProcessSighting).
Context (events : list OperatorEvent) (keep : RunRow → Prop) `{!∀ row, Decision (keep row)}.

Let rows := unfinished_runs events.
Let markers := markers_of now ids sight 0 (filter keep rows).

Lemma vouched_NoDup : NoDup (map rw_run_id (filter keep rows)).
Proof.
  assert (∀ (P : RunRow → Prop) `{!∀ row, Decision (P row)} l,
    NoDup (map rw_run_id l) → NoDup (map rw_run_id (filter P l))) as Hf.
  { intros P ? l. induction l as [|row l IH]; [done|]. rewrite filter_cons. cbn [map].
    intros [Hn Hnd]%NoDup_cons. case_decide; [|auto]. cbn [map]. apply NoDup_cons. split; [|auto].
    intros (r & Heq & [_ Hr]%list_elem_of_filter)%list_elem_of_fmap. apply Hn.
    rewrite Heq. by apply list_elem_of_fmap_2. }
  apply Hf, Hf. rewrite fold_all_runs_ids. apply first_occurrences_NoDup.
Qed.

Lemma run_of_marked row :
  row ∈ rows → keep row →
  ∃ i, run_of (events ++ markers) (rw_run_id row) =
    Some (marked row (observe_process (rw_pid row) (rw_process_start_id row) (sight i)) now).
Proof.
  intros Hrow Hk. pose proof Hrow as [Hr Hu]%unfinished_runs_elem. unfold run_of.
  rewrite foldl_app. fold (run_of events (rw_run_id row)). rewrite Hr.
  apply foldl_markers; [apply vouched_NoDup|by apply list_elem_of_filter|by eapply run_of_pid|done].
Qed.

Lemma run_of_unmarked run :
  (∀ row, run_of events run = Some row → row ∈ rows → ¬ keep row) →
  run_of (events ++ markers) run = run_of events run.
Proof.
  intros Hno. unfold run_of. rewrite foldl_app. apply foldl_markers_other.
  intros (row & -> & [Hk Hrow]%list_elem_of_filter)%list_elem_of_fmap.
  pose proof Hrow as [Hr _]%unfinished_runs_elem. by eapply Hno.
Qed.

Lemma unfinished_after_markers :
  unfinished_runs (events ++ markers) = filter (λ row, ¬ keep row) rows.
Proof.
  unfold rows, unfinished_runs. rewrite !fold_all_runs_eq. unfold markers.
  rewrite launch_order_markers, list_filter_filter. apply filter_omap_pointwise.
  intros run Hrun. apply run_of_launched in Hrun as [row E].
  pose proof (run_of_ids _ _ _ E) as [Hid _].
  assert (row ∈ rows ↔ is_unfinished (rw_worker_state row) = true) as Hrows.
  { unfold rows. rewrite unfinished_runs_elem, Hid, E. tauto. }
  destruct (decide (is_unfinished (rw_worker_state row) = true ∧ keep row)) as [[Hrow%Hrows Hk]|Hno].
  - destruct (run_of_marked row Hrow Hk) as [i Hm]. rewrite Hid in Hm. unfold markers in Hm.
    rewrite Hm, E. simpl. rewrite !filter_cons, !filter_nil, !decide_False; [done|naive_solver|].
    unfold marked, refresh_pane. by case_bool_decide.
  - pose proof (run_of_unmarked run) as Hm. unfold markers in Hm. rewrite Hm, E.
    2: { intros r Hr. rewrite E in Hr. simplify_eq. tauto. }
    simpl. rewrite !filter_cons, !filter_nil. repeat case_decide; tauto.
Qed.
End marked.

(** The plan, in terms of what is uncertain. *)
Lemma plan_eq now ids sight seen n :
  let rows := unfinished_runs (known seen) in
  ∃ report, plan now ids (observe_all (observing sight) seen) n =
      (markers_of now ids sight 0 (filter (λ row, ¬ uncertain seen n row) rows), report) ∧
    map db_run_id (runs_withheld report) =
      map (λ row, Some (rw_run_id row)) (filter (uncertain seen n) rows).
Proof.
  intros rows. destruct (observe_all_eq seen (observing sight)) as (He & Hs & _).
  pose proof (λ row, row_doubt_uncertain sight seen n row) as Hd. cbv zeta in Hd.
  rewrite He in Hd. simpl in He, Hd. unfold plan. rewrite He. simpl.
  set (doubts := rc_doubts _ ++ _) in *. rewrite plan_rows_eq, Hs. eexists. split.
  - f_equal. f_equal. apply filter_ext_elem. intros row Hrow.
    specialize (Hd row Hrow). rewrite eq_None_not_Some. tauto.
  - simpl. assert (∀ row, row ∈ rows → is_Some (row_doubt n doubts row) ↔ uncertain seen n row) as Hd'
      by exact Hd. clear Hd. fold rows. clearbody doubts. revert Hd'. generalize rows. clear.
    intros l Hd'. induction l as [|row l IH]; [done|].
    rewrite filter_cons. simpl. specialize (IH ltac:(set_solver)).
    destruct (Hd' row ltac:(by left)) as [H1 H2].
    destruct (row_doubt n doubts row) as [reason|] eqn:E; simpl.
    + rewrite decide_True by eauto. simpl. by f_equal.
    + rewrite decide_False; [done|]. intros [? ?]%H2. done.
Qed.

Lemma known_markers now ids sight rows : ∀ n,
  (∀ row, row ∈ rows → pid_wf row) →
  known (map (λ e, (e, EventAdmitted)) (markers_of now ids sight n rows)) =
    markers_of now ids sight n rows.
Proof.
  induction rows as [|row rows IH]; intros n Hp; [done|].
  rewrite markers_of_cons. cbn [map].
  match goal with |- known (?x :: ?l) = _ => change (x :: l) with ([x] ++ l) end.
  rewrite known_app, IH by set_solver. rewrite known_one, bool_decide_true; [done|].
  split; [done|]. split_and!; [done| |by eexists].
  unfold worker_payload_parses, stale_from, from_event. simpl.
  rewrite decode_stale_value; [done|]. apply (Hp row). by left.
Qed.

(**  Recovery of a stream as the planner saw it: every unfinished run is marked
    stale, with what was observed of its process, exactly when nothing about it
    is uncertain; the uncertain ones are withheld, reported, and left as they
    were, and so is every run that had ended; a second pass over the stream the
    first one left marks nothing. *)
Theorem recovery_marks_what_it_can_vouch_for (now : string) (ids : nat → string)
    (sight : nat → Z → ProcessSighting) (seen : list (OperatorEvent * EventAdmission))
    (unreadable : Z) :
  let '(markers, report) := plan now ids (observe_all (observing sight) seen) unreadable in
  let after := known seen ++ markers in
  (∀ row, row ∈ unfinished_runs (known seen) → ¬ uncertain seen unreadable row →
    ∃ i row', row' ∈ fold_all_runs after ∧ rw_run_id row' = rw_run_id row ∧
      rw_worker_state row' = Stale ∧
      rw_supervision row' = Some (mkLoss OWNER_LOST
        (observe_process (rw_pid row) (rw_process_start_id row) (sight i)) (rw_pid row) now)) ∧
  unfinished_runs after = filter (uncertain seen unreadable) (unfinished_runs (known seen)) ∧
  (∀ row, row ∈ fold_all_runs (known seen) →
    is_unfinished (rw_worker_state row) = false ∨ uncertain seen unreadable row →
    row ∈ fold_all_runs after) ∧
  map db_run_id (runs_withheld report) =
    map (λ row, Some (rw_run_id row))
      (filter (uncertain seen unreadable) (unfinished_runs (known seen))) ∧
  ∀ now' ids' sight',
    (plan now' ids' (observe_all (observing sight') (seen ++ map (λ e, (e, EventAdmitted)) markers))
       unreadable).1 = [].
Proof.
  destruct (plan_eq now ids sight seen unreadable) as (report & -> & Hw). cbv zeta.
  set (rows := unfinished_runs (known seen)). set (keep := λ row, ¬ uncertain seen unreadable row).
  set (markers := markers_of _ _ _ _ _).
  assert (unfinished_runs (known seen ++ markers) = filter (uncertain seen unreadable) rows) as Hleft.
  { etrans; [apply (unfinished_after_markers now ids sight (known seen) keep)|].
    apply filter_ext_elem. intros row _. unfold keep. split; [apply dec_stable|tauto]. }
  split_and!; [|done| |done|].
  - intros row Hrow Hk. pose proof Hrow as [_ Hu]%unfinished_runs_elem.
    destruct (run_of_marked now ids sight (known seen) keep row Hrow Hk) as [i Hm].
    eexists i, _. split_and!; [apply fold_all_runs_elem; etrans; [|exact Hm]|..];
      unfold marked, refresh_pane; by case_bool_decide.
  - intros row Hrow%fold_all_runs_elem Hkeep. apply fold_all_runs_elem.
    etrans; [apply (run_of_unmarked now ids sight (known seen) keep)|done].
    intros r Hr [_ Hu]%unfinished_runs_elem Hk. unfold keep in Hk. simplify_eq.
    destruct Hkeep; [congruence|done].
  - intros now' ids' sight'.
    destruct (plan_eq now' ids' sight' (seen ++ map (λ e, (e, EventAdmitted)) markers) unreadable)
      as (report' & -> & _). cbv zeta. cbn [fst]. rewrite known_app.
    assert (known (map (λ e, (e, EventAdmitted)) markers) = markers) as ->.
    { apply known_markers. intros row [_ [Hr _]%unfinished_runs_elem]%list_elem_of_filter.
      by eapply run_of_pid. }
    rewrite Hleft, list_filter_filter.
    match goal with |- markers_of _ _ _ _ (filter ?P rows) = _ =>
      assert (filter P rows = []) as -> end; [|done].
    apply elem_of_nil_inv. intros row [[Hn Hu] _]%list_elem_of_filter. apply Hn. revert Hu.
    unfold uncertain. rewrite Exists_app. tauto.
Qed.
