(* ===== verification/PaneTail.v ===== *)
(** * The tail a pane keeps (crates/heiwa_worker/src/pane.rs)

    A bounded window of a worker's output: the last lines, each cut to a byte
    budget without splitting a character, and a count of what was dropped. *)

From stdpp Require Import base strings numbers list.
From Stdlib Require Import Ascii.
From S2P Require Import Prelude.

Definition PANE_TAIL_LINES : nat := 200.
Definition PANE_LINE_BYTES : nat := Z.to_nat 2000.

Record PaneTail : Type := mkTail {
  pt_lines : list string;
  pt_capacity : nat;
  pt_line_bytes : nat;
  pt_dropped : nat;
}.

(** [PaneTail::new] and [PaneTail::default]. *)
Definition new_tail (capacity line_bytes : nat) : PaneTail :=
  mkTail [] (Nat.max capacity 1) (Nat.max line_bytes 1) 0.
Definition default_tail : PaneTail := new_tail PANE_TAIL_LINES PANE_LINE_BYTES.

(** The loop of [truncate_on_char_boundary]: step back to a boundary. *)
Fixpoint back_to_boundary (value : bytes) (last : nat) : nat :=
  match last with
  | O => O
  | S last' => if is_char_boundary value last then last else back_to_boundary value last'
  end.

Definition truncate_on_char_boundary (value : string) (max_bytes : nat) : outcome string :=
  let bytes := as_bytes value in
  if (length bytes <=? max_bytes)%nat then Return value
  else
    kept ← str_slice bytes 0 (back_to_boundary bytes max_bytes);
    Return (String.string_of_list_ascii kept).

(** The loop of [push]: lines leave at the front until the window holds. *)
Fixpoint pop_over (capacity : nat) (lines : list string) (dropped : nat) : list string * nat :=
  match lines with
  | [] => ([], dropped)
  | line :: rest =>
      if (capacity <? length lines)%nat then pop_over capacity rest (S dropped) else (lines, dropped)
  end.

Definition push (t : PaneTail) (line : string) : outcome PaneTail :=
  cut ← truncate_on_char_boundary line (pt_line_bytes t);
  let '(lines, dropped) := pop_over (pt_capacity t) (pt_lines t ++ [cut]) (pt_dropped t) in
  Return (mkTail lines (pt_capacity t) (pt_line_bytes t) dropped).

(** A worker's output, line by line. *)
Fixpoint push_all (t : PaneTail) (lines : list string) : outcome PaneTail :=
  match lines with
  | [] => Return t
  | line :: lines' => t ← push t line; push_all t lines'
  end.

(** [cut] is the longest prefix of [full] of at most [n] bytes that ends on a
    character boundary. *)
Definition longest_cut (n : nat) (cut full : string) : Prop :=
  ∃ rest, as_bytes full = as_bytes cut ++ rest ∧ (length (as_bytes cut) ≤ n)%nat ∧
    is_char_boundary (as_bytes full) (length (as_bytes cut)) = true ∧
    ∀ k, (k ≤ n)%nat → (k ≤ length (as_bytes full))%nat → is_char_boundary (as_bytes full) k = true →
      (k ≤ length (as_bytes cut))%nat.

(** ** Lemmas *)

Lemma as_bytes_of l : as_bytes (String.string_of_list_ascii l) = l.
Proof. apply String.list_ascii_of_string_of_list_ascii. Qed.

Lemma boundary_0 s : is_char_boundary s 0 = true.
Proof. done. Qed.

Lemma boundary_end s : is_char_boundary s (length s) = true.
Proof. unfold is_char_boundary. rewrite (bool_decide_true (length s = length s)) by done. by rewrite orb_true_r. Qed.

(** Stepping back finds the last boundary at or before the start. *)
Lemma back_to_boundary_spec s last :
  (back_to_boundary s last ≤ last)%nat ∧ is_char_boundary s (back_to_boundary s last) = true ∧
  ∀ k, (k ≤ last)%nat → is_char_boundary s k = true → (k ≤ back_to_boundary s last)%nat.
Proof.
  induction last as [|last (Hle & Hb & Hmax)]; [split_and!; [done..|lia]|].
  cbn [back_to_boundary]. destruct (is_char_boundary s (S last)) eqn:E; [split_and!; auto|].
  split_and!; [lia|done|]. intros k Hk Hkb.
  destruct (decide (k = S last)) as [->|]; [congruence|]. apply Hmax; [lia|done].
Qed.

Lemma truncate_longest value n :
  ∃ cut, truncate_on_char_boundary value n = Return cut ∧ longest_cut n cut value.
Proof.
  unfold truncate_on_char_boundary, longest_cut.
  destruct (Nat.leb_spec (length (as_bytes value)) n) as [Hle|Hgt].
  { exists value. split; [done|]. exists []. rewrite app_nil_r.
    split_and!; [done|done|apply boundary_end|auto]. }
  destruct (back_to_boundary_spec (as_bytes value) n) as (Hle & Hb & Hmax).
  set (stop := back_to_boundary _ _) in *. unfold str_slice.
  rewrite boundary_0, Hb, !(proj2 (Nat.leb_le _ _)) by lia. simpl. rewrite Nat.sub_0_r.
  eexists. split; [done|]. rewrite as_bytes_of. exists (drop stop (as_bytes value)).
  rewrite drop_0, length_take_le, take_drop by lia. split_and!; auto.
Qed.

Lemma pop_over_spec capacity lines : ∀ dropped,
  pop_over capacity lines dropped =
    (drop (length lines - capacity) lines, (dropped + (length lines - capacity))%nat).
Proof.
  induction lines as [|line lines IH]; intros dropped; [simpl; f_equal; lia|].
  cbn [pop_over]. destruct (Nat.ltb_spec capacity (length (line :: lines))) as [Hlt|Hge]; simpl in *.
  - rewrite IH. destruct capacity as [|c]; [f_equal; [by rewrite Nat.sub_0_r|simpl; lia]|].
    replace (S (length lines) - S c)%nat with (S (length lines - S c)) by lia.
    simpl. f_equal. lia.
  - replace (S (length lines) - capacity)%nat with 0%nat by lia. simpl. f_equal. lia.
Qed.

(** The window of a tail that has seen some lines. *)
Definition holds (t : PaneTail) (pushed : list string) : Prop :=
  (0 < pt_capacity t)%nat ∧
  Forall2 (longest_cut (pt_line_bytes t)) (pt_lines t)
    (drop (length pushed - pt_capacity t) pushed) ∧
  pt_dropped t = (length pushed - pt_capacity t)%nat.

Lemma push_holds t pushed line :
  holds t pushed → ∃ t', push t line = Return t' ∧ holds t' (pushed ++ [line]) ∧
    pt_capacity t' = pt_capacity t ∧ pt_line_bytes t' = pt_line_bytes t.
Proof.
  intros (Hc & Hl & Hd). unfold push.
  destruct (truncate_longest line (pt_line_bytes t)) as (cut & -> & Hcut). simpl.
  pose proof (Forall2_length _ _ _ Hl) as Hlen. rewrite length_drop in Hlen.
  rewrite pop_over_spec. eexists. split; [done|]. split; [|done].
  unfold holds; simpl. rewrite !length_app, Hd. simpl. split_and!; [done| |lia].
  replace (length pushed + 1 - pt_capacity t)%nat with
    ((length pushed - pt_capacity t) + (length (pt_lines t) + 1 - pt_capacity t))%nat by lia.
  rewrite <- drop_drop. apply Forall2_drop. rewrite drop_app_le by lia.
  apply Forall2_app; [done|]. by apply Forall2_cons.
Qed.

Lemma push_all_holds lines : ∀ t pushed,
  holds t pushed → ∃ t', push_all t lines = Return t' ∧ holds t' (pushed ++ lines) ∧
    pt_capacity t' = pt_capacity t ∧ pt_line_bytes t' = pt_line_bytes t.
Proof.
  induction lines as [|line lines IH]; intros t pushed Ht; simpl.
  { exists t. by rewrite app_nil_r. }
  destruct (push_holds t pushed line Ht) as (t1 & -> & Ht1 & Hc1 & Hb1). simpl.
  destruct (IH t1 _ Ht1) as (t2 & -> & Ht2 & Hc2 & Hb2). exists t2.
  rewrite <- app_assoc in Ht2. split; [done|]. split; [done|]. split; congruence.
Qed.

(**  Whatever a worker prints, recording it never panics: a tail keeps the last
    lines, as many as its capacity (at least one), each cut to its longest
    prefix within the byte budget that splits no character, and counts exactly
    the lines before them as dropped. *)
Theorem pane_tail_is_the_last_lines (capacity line_bytes : nat) (output : list string) :
  ∃ t, push_all (new_tail capacity line_bytes) output = Return t ∧
    Forall2 (longest_cut (Nat.max line_bytes 1)) (pt_lines t)
      (drop (length output - Nat.max capacity 1) output) ∧
    (length (pt_lines t) ≤ Nat.max capacity 1)%nat ∧
    (pt_dropped t + length (pt_lines t) = length output)%nat.
Proof.
  destruct (push_all_holds output (new_tail capacity line_bytes) []) as (t & Ht & (_ & Hl & Hd) & Hc & Hb).
  { unfold holds; simpl. split_and!; [lia|constructor|done]. }
  simpl in *. rewrite Hc, Hb in *. exists t.
  pose proof (Forall2_length _ _ _ Hl) as Hlen. rewrite length_drop in Hlen.
  split_and!; [done|done|lia|lia].
Qed.
