(* ===== verification/Work.v ===== *)
(** * Work: the coordination aggregate (crates/heiwa_work: model.rs, events.rs,
      projector.rs, migration.rs)

    A Work's identity and record, its two events, the fold of the operator
    stream into every Work it describes, and the rule that gives a thread its
    Work id. *)

From stdpp Require Import base gmap sets strings numbers sorting list.
From Stdlib Require Import Ascii.
From S2P Require Import Prelude Json OperatorEvent WorkerEvents.
#[local] Open Scope Z_scope.

(** ** model.rs *)

(** The schema version of the folded aggregate. *)
Definition SCHEMA_VERSION : Z := 1.
Definition WORK_ID_PREFIX : string := "work-".

(** [u8::is_ascii_alphanumeric], or one of the two other bytes an id may hold. *)
Definition is_id_byte (a : ascii) : bool :=
  let z := byte_val a in
  bool_decide (48 ≤ z ≤ 57 ∨ 65 ≤ z ≤ 90 ∨ 97 ≤ z ≤ 122 ∨ z = 45 ∨ z = 95).

(** [WorkId::generate] and [WorkId::parse]; a [WorkId] is its text. *)
Definition work_id_generate (uuid : string) : string := WORK_ID_PREFIX +:+ uuid.

Definition work_id_parse (value : string) : option string :=
  rest ← strip_prefix (as_bytes WORK_ID_PREFIX) (as_bytes value);
  if bool_decide (rest = []) || (128 <? Z.of_nat (length rest)) || negb (forallb is_id_byte rest)
  then None else Some value.

Inductive WorkStatus : Type := Active | Blocked | Cancelled | WorkFailed | Complete.

Definition work_status_text (s : WorkStatus) : string :=
  match s with
  | Active => "active" | Blocked => "blocked" | Cancelled => "cancelled"
  | WorkFailed => "failed" | Complete => "complete"
  end.

Record Work : Type := mkWork {
  wk_schema_version : Z;
  wk_work_id : string;
  wk_revision : Z;
  wk_intent : string;
  wk_status : WorkStatus;
  wk_origin_installation_id : string;
  wk_origin_node : option string;
  wk_coordinator_node : option string;
  wk_primary_thread_id : string;
  wk_related_thread_ids : list string;
  wk_created_at : string;
  wk_updated_at : string;
}.

(** [Work::is_replicable]. *)
Definition is_replicable (w : Work) : bool := bool_decide (is_Some (wk_origin_node w)).

(** ** events.rs *)

Inductive WorkLinkOrigin : Type := Adopted | Minted.

Definition link_origin_text (o : WorkLinkOrigin) : string :=
  match o with Adopted => "adopted" | Minted => "minted" end.

Record WorkCreatedPayload : Type := mkWorkCreated {
  wc_intent : string;
  wc_origin_installation_id : string;
  wc_primary_thread_id : string;
}.

Record WorkLinkedPayload : Type := mkWorkLinked {
  lk_thread_id : string;
  lk_origin : WorkLinkOrigin;
}.

Definition decode_work_created (doc : json) : option WorkCreatedPayload :=
  m ← struct_view ["intent"; "origin_installation_id"; "primary_thread_id"] doc;
  intent ← field_string m "intent";
  installation ← field_string m "origin_installation_id";
  thread ← field_string m "primary_thread_id";
  Some (mkWorkCreated intent installation thread).

Definition decode_work_linked (doc : json) : option WorkLinkedPayload :=
  m ← struct_view ["thread_id"; "origin"] doc;
  thread ← field_string m "thread_id";
  origin ← obj_get "origin" m ≫= decode_variant link_origin_text [Adopted; Minted];
  Some (mkWorkLinked thread origin).

(** The two [from_event]s: a payload cannot name another thread than its
    envelope. *)
Definition work_created_from (e : OperatorEvent) : option WorkCreatedPayload :=
  p ← from_event WorkCreated decode_work_created e;
  if bool_decide (wc_primary_thread_id p = thread_id e) then Some p else None.

Definition work_linked_from (e : OperatorEvent) : option WorkLinkedPayload :=
  p ← from_event WorkLinked decode_work_linked e;
  if bool_decide (lk_thread_id p = thread_id e) then Some p else None.

Definition local_actor : OperatorActor := mkActor "user" "local".

(** [scoped]. *)
Definition work_scoped (work thread : string) (ty : OperatorEventType) (at_ : string) (p : json)
    (id : string) : OperatorEvent :=
  mkEvent OPERATOR_EVENT_SCHEMA_VERSION id thread None None None (Some work) ty at_ local_actor
    RiskLow LocalPrivate None None [] [] p.

Definition work_created_event (work thread intent installation at_ id : string) : OperatorEvent :=
  work_scoped work thread WorkCreated at_
    (json_object [("intent", JString intent); ("origin_installation_id", JString installation);
                  ("primary_thread_id", JString thread)]) id.

Definition work_linked_event (work thread : string) (origin : WorkLinkOrigin) (at_ id : string)
    : OperatorEvent :=
  work_scoped work thread WorkLinked at_
    (json_object [("thread_id", JString thread); ("origin", JString (link_origin_text origin))]) id.

(** ** projector.rs *)

Record WorkProjection : Type := mkProjection {
  wp_works : gmap string Work;
  wp_skipped_events : nat;
}.

Definition default_projection : WorkProjection := mkProjection ∅ 0.

Definition skip_event (p : WorkProjection) : WorkProjection :=
  mkProjection (wp_works p) (S (wp_skipped_events p)).

(** The Work a creation makes. *)
Definition created_work (id : string) (p : WorkCreatedPayload) (e : OperatorEvent) : Work :=
  mkWork SCHEMA_VERSION id 1 (wc_intent p) Active (wc_origin_installation_id p) None None
    (wc_primary_thread_id p) [] (occurred_at e) (occurred_at e).

(** What a link does to its Work. *)
Definition linked_work (p : WorkLinkedPayload) (e : OperatorEvent) (w : Work) : Work :=
  let related :=
    if bool_decide (lk_thread_id p ≠ wk_primary_thread_id w) &&
       negb (bool_decide (lk_thread_id p ∈ wk_related_thread_ids w))
    then wk_related_thread_ids w ++ [lk_thread_id p] else wk_related_thread_ids w in
  mkWork (wk_schema_version w) (wk_work_id w) (wk_revision w + 1) (wk_intent w) (wk_status w)
    (wk_origin_installation_id w) (wk_origin_node w) (wk_coordinator_node w)
    (wk_primary_thread_id w) related (wk_created_at w) (occurred_at e).

(** One turn of the loop of [fold]. *)
Definition fold_event (p : WorkProjection) (e : OperatorEvent) : WorkProjection :=
  match work_id e with
  | None => p
  | Some raw_id =>
      match work_id_parse raw_id with
      | None => skip_event p
      | Some id =>
          match event_type e with
          | WorkCreated =>
              match work_created_from e with
              | None => skip_event p
              | Some payload =>
                  match wp_works p !! id with
                  | Some _ => skip_event p
                  | None =>
                      mkProjection (<[id := created_work id payload e]> (wp_works p))
                        (wp_skipped_events p)
                  end
              end
          | WorkLinked =>
              match work_linked_from e with
              | None => skip_event p
              | Some payload =>
                  match wp_works p !! id with
                  | None => skip_event p
                  | Some w =>
                      mkProjection (<[id := linked_work payload e w]> (wp_works p))
                        (wp_skipped_events p)
                  end
              end
          | _ => p
          end
      end
  end.

Definition fold_works (events : list OperatorEvent) : WorkProjection :=
  foldl fold_event default_projection events.

(** [WorkProjection::work]. *)
Definition projected_work (p : WorkProjection) (id : string) : option Work := wp_works p !! id.

(** ** migration.rs *)

(** The ids, sorted and without repetition, that cannot be reconciled. *)
Inductive MigrationConflict : Type := AmbiguousWorkId (found : list string).

Record WorkIdResolution : Type := mkResolution {
  wr_work_id : string;
  wr_origin : WorkLinkOrigin;
}.

(** [BTreeSet::from_iter]. *)
Definition btree_set (l : list string) : list string := merge_sort String.le (remove_dups l).

Definition resolve_work_id (existing_ids : list string) (uuid : string)
    : result MigrationConflict WorkIdResolution :=
  let distinct := btree_set existing_ids in
  match distinct with
  | [] => Ok (mkResolution (work_id_generate uuid) Minted)
  | [only] =>
      match work_id_parse only with
      | Some id => Ok (mkResolution id Adopted)
      | None => Err (AmbiguousWorkId distinct)
      end
  | _ => Err (AmbiguousWorkId distinct)
  end.

(** ** The fold, one Work at a time *)

(** What an event does to one Work. *)
Definition work_step (id : string) (o : option Work) (e : OperatorEvent) : option Work :=
  if bool_decide (work_id e ≫= work_id_parse = Some id) then
    match o with
    | None => p ← work_created_from e; Some (created_work id p e)
    | Some w =>
        match work_linked_from e with Some p => Some (linked_work p e w) | None => Some w end
    end
  else o.

Definition work_of (events : list OperatorEvent) (id : string) : option Work :=
  foldl (work_step id) None events.

(** An event that is not this projector's business. *)
Definition ignored (e : OperatorEvent) : Prop :=
  work_id e = None ∨
  is_Some (work_id e ≫= work_id_parse) ∧ event_type e ≠ WorkCreated ∧ event_type e ≠ WorkLinked.
#[export] Instance ignored_dec e : Decision (ignored e).
Proof. unfold ignored. apply _. Defined.

(** A Work owns its identity: its id is well formed, its related threads are
    distinct and do not repeat the primary one, and it starts at revision 1. *)
Record work_wf (id : string) (w : Work) : Prop := {
  ww_id : wk_work_id w = id ∧ work_id_parse id = Some id;
  ww_revision : 1 ≤ wk_revision w;
  ww_related : NoDup (wk_related_thread_ids w) ∧
    wk_primary_thread_id w ∉ wk_related_thread_ids w;
  ww_local : wk_origin_node w = None ∧ wk_status w = Active;
}.

(** What a link never changes. *)
Definition same_work (w w' : Work) : Prop :=
  wk_work_id w' = wk_work_id w ∧ wk_intent w' = wk_intent w ∧ wk_status w' = wk_status w ∧
  wk_origin_installation_id w' = wk_origin_installation_id w ∧
  wk_origin_node w' = wk_origin_node w ∧
  wk_primary_thread_id w' = wk_primary_thread_id w ∧ wk_created_at w' = wk_created_at w ∧
  wk_related_thread_ids w `prefix_of` wk_related_thread_ids w' ∧ wk_revision w ≤ wk_revision w'.

(** *** Lemmas *)

Lemma work_id_parse_Some v id :
  work_id_parse v = Some id →
  id = v ∧ ∃ rest, as_bytes v = as_bytes WORK_ID_PREFIX ++ rest ∧ rest ≠ [] ∧
    (length rest ≤ 128)%nat ∧ Forall (λ a, is_id_byte a = true) rest.
Proof.
  unfold work_id_parse. intros (rest & Hrest & Hc)%bind_Some.
  apply strip_prefix_Some in Hrest. case_bool_decide as Hne; [done|]. simpl in Hc.
  destruct (Z.ltb_spec 128 (Z.of_nat (length rest))) as [|Hl]; [done|]. simpl in Hc.
  destruct (forallb is_id_byte rest) eqn:Hb; [|done]. injection Hc as <-.
  split; [done|]. exists rest. split_and!; [done|done|lia|].
  apply Forall_forall. intros a Ha. apply forallb_forall with (x := a) in Hb; [done|].
  by apply list_elem_of_In.
Qed.

Lemma work_id_parse_value v id : work_id_parse v = Some id → id = v.
Proof. by intros [-> _]%work_id_parse_Some. Qed.

Lemma created_type e p : work_created_from e = Some p → event_type e = WorkCreated.
Proof. unfold work_created_from, from_event. by case_bool_decide. Qed.

Lemma linked_type e p : work_linked_from e = Some p → event_type e = WorkLinked.
Proof. unfold work_linked_from, from_event. by case_bool_decide. Qed.

Lemma fold_event_lookup p e id :
  wp_works (fold_event p e) !! id = work_step id (wp_works p !! id) e.
Proof.
  unfold fold_event, work_step. destruct (work_id e) as [raw|]; [|done]. cbn [mbind option_bind].
  destruct (work_id_parse raw) as [id'|] eqn:Hp; [|done].
  assert (event_type e ≠ WorkCreated → work_created_from e = None) as Hc.
  { intros Ht. destruct (work_created_from e) eqn:E; [|done]. by apply created_type in E. }
  assert (event_type e ≠ WorkLinked → work_linked_from e = None) as Hl.
  { intros Ht. destruct (work_linked_from e) eqn:E; [|done]. by apply linked_type in E. }
  destruct (decide (id' = id)) as [->|Hne].
  - rewrite bool_decide_true by done.
    destruct (event_type e) eqn:Et; try rewrite Hc by done; try rewrite Hl by done; simpl.
    all: destruct (wp_works p !! id) as [w|] eqn:E; simpl; try done.
    all: repeat case_match; simpl; rewrite ?lookup_insert_eq, ?E; simplify_eq; done.
  - rewrite bool_decide_false by congruence.
    repeat case_match; simpl; rewrite ?lookup_insert_ne by done; done.
Qed.

Lemma fold_works_lookup events id : wp_works (fold_works events) !! id = work_of events id.
Proof.
  unfold fold_works, work_of. change (@None Work) with (wp_works default_projection !! id).
  generalize default_projection. induction events as [|e events IH]; intros p; [done|].
  simpl. by rewrite IH, fold_event_lookup.
Qed.

Lemma linked_work_wf id p e w : work_wf id w → work_wf id (linked_work p e w).
Proof.
  intros [Hid Hr [Hnd Hp] Hl]. split; simpl; [done|lia| |done].
  destruct (decide (lk_thread_id p ≠ wk_primary_thread_id w ∧
                    lk_thread_id p ∉ wk_related_thread_ids w)) as [[Hne Hni]|Hno].
  - rewrite bool_decide_true, bool_decide_false by done. simpl. split; [|set_solver].
    apply NoDup_app. split_and!; [done|set_solver|apply NoDup_singleton].
  - assert (bool_decide (lk_thread_id p ≠ wk_primary_thread_id w) &&
            negb (bool_decide (lk_thread_id p ∈ wk_related_thread_ids w)) = false) as ->; [|done].
    repeat case_bool_decide; simpl; tauto.
Qed.

Lemma linked_work_same p e w : same_work w (linked_work p e w).
Proof.
  unfold same_work, linked_work; simpl. split_and!; try done; [|lia].
  case_match; [by apply prefix_app_r|done].
Qed.

Lemma work_step_wf id o e w :
  (∀ w0, o = Some w0 → work_wf id w0) → work_step id o e = Some w → work_wf id w.
Proof.
  intros Ho. unfold work_step. case_bool_decide as Hid; [|apply Ho].
  destruct o as [w0|].
  - specialize (Ho w0 eq_refl). case_match; intros; simplify_eq; [by apply linked_work_wf|done].
  - intros (p & Hp & [= <-])%bind_Some. destruct (work_id e) as [raw|]; [|done]. simpl in Hid.
    pose proof (work_id_parse_value _ _ Hid) as <-.
    split; simpl; [done|lia|split; [constructor|set_solver]|done].
Qed.

Lemma work_step_same id w e w' : work_step id (Some w) e = Some w' → w' = w ∨ same_work w w'.
Proof.
  unfold work_step. repeat case_match; intros; simplify_eq; auto using linked_work_same.
Qed.

(** *** Nothing is lost *)

Definition revisions (m : gmap string Work) : Z :=
  map_fold (λ _ w acc, wk_revision w + acc) 0 m.

Lemma revisions_insert m id w : m !! id = None → revisions (<[id := w]> m) = wk_revision w + revisions m.
Proof. intros H. unfold revisions. rewrite map_fold_insert_L; [done| |done]. intros; lia. Qed.

Lemma revisions_update m id w w' :
  m !! id = Some w → revisions (<[id := w']> m) = revisions m - wk_revision w + wk_revision w'.
Proof.
  intros H. rewrite <- (insert_delete_id m id w H) at 2.
  rewrite <- insert_delete_eq, !revisions_insert by apply lookup_delete_eq. lia.
Qed.

Lemma fold_event_count p e :
  Z.of_nat (wp_skipped_events (fold_event p e)) + revisions (wp_works (fold_event p e)) +
    (if decide (ignored e) then 1 else 0) =
  Z.of_nat (wp_skipped_events p) + revisions (wp_works p) + 1.
Proof.
  destruct (decide (ignored e)) as [Hi|Hi]; unfold ignored in Hi; unfold fold_event;
    (destruct (work_id e) as [raw|]; [cbn [mbind option_bind] in Hi|]).
  - destruct Hi as [|([id ->] & Hc & Hl)]; [done|]. destruct (event_type e); try done; lia.
  - lia.
  - destruct (work_id_parse raw) as [id|]; [|simpl; lia].
    destruct (event_type e); try (exfalso; apply Hi; right; split_and!; [by eexists|done..]).
    + destruct (work_created_from e) as [pl|]; [|simpl; lia].
      destruct (wp_works p !! id) as [w|] eqn:E; [simpl; lia|].
      simpl. rewrite revisions_insert by done. simpl. lia.
    + destruct (work_linked_from e) as [pl|]; [|simpl; lia].
      destruct (wp_works p !! id) as [w|] eqn:E; [|simpl; lia].
      simpl. rewrite (revisions_update _ _ w) by done. simpl. lia.
  - tauto.
Qed.

Lemma fold_works_count events :
  Z.of_nat (wp_skipped_events (fold_works events)) + revisions (wp_works (fold_works events)) +
    Z.of_nat (length (filter ignored events)) = Z.of_nat (length events).
Proof.
  induction events as [|e events IH] using rev_ind; [done|].
  unfold fold_works in *. rewrite foldl_snoc, filter_app, filter_cons, filter_nil, !length_app.
  pose proof (fold_event_count (foldl fold_event default_projection events) e).
  case_decide; simpl; lia.
Qed.

(** The fold of a stream into its Works: each Work is its own events, folded;
    it keeps its identity, intent, origin and primary thread as events arrive,
    with a revision and a list of related threads that only grow; and no
    Work-scoped event is lost silently: the events that were not someone else's
    are as many as the revisions of the Works and the events counted as
    skipped. *)
Theorem work_fold_is_exact (events : list OperatorEvent) :
  (∀ id, projected_work (fold_works events) id = work_of events id) ∧
  (∀ id w, projected_work (fold_works events) id = Some w → work_wf id w ∧
    ∀ e, ∃ w', projected_work (fold_works (events ++ [e])) id = Some w' ∧ (w' = w ∨ same_work w w')) ∧
  Z.of_nat (wp_skipped_events (fold_works events)) + revisions (wp_works (fold_works events)) =
    Z.of_nat (length (filter (λ e, ¬ ignored e) events)).
Proof.
  unfold projected_work. split_and!.
  - apply fold_works_lookup.
  - intros id w Hw. rewrite fold_works_lookup in Hw. split.
    + revert w Hw. unfold work_of. induction events as [|e events IH] using rev_ind; intros w; [done|].
      rewrite foldl_snoc. apply work_step_wf, IH.
    + intros e. rewrite fold_works_lookup. unfold work_of in *. rewrite foldl_snoc, Hw.
      destruct (work_step id (Some w) e) as [w'|] eqn:E.
      * exists w'. split; [done|]. by eapply work_step_same.
      * revert E. unfold work_step. by repeat case_match.
  - pose proof (fold_works_count events) as Hc.
    assert (length (filter ignored events) + length (filter (λ e, ¬ ignored e) events) =
            length events)%nat; [|lia].
    rewrite <- length_app. by rewrite filter_app_complement.
Qed.

(** ** Promoting a thread *)

Lemma btree_set_elem l x : x ∈ btree_set l ↔ x ∈ l.
Proof.
  unfold btree_set. rewrite merge_sort_Permutation. apply elem_of_remove_dups.
Qed.

Lemma btree_set_NoDup l : NoDup (btree_set l).
Proof. unfold btree_set. rewrite merge_sort_Permutation. apply NoDup_remove_dups. Qed.

(** A thread's id is the one its rows all carry, if it is a Work id; a new id is
    minted only when no row carries any, and anything else is a conflict that
    lists the ids found, each once. *)
Theorem resolution_adopts_or_refuses (existing : list string) (uuid : string) :
  match resolve_work_id existing uuid with
  | Ok r =>
      wr_origin r = Adopted ∧ existing ≠ [] ∧ Forall (eq (wr_work_id r)) existing ∧
        work_id_parse (wr_work_id r) = Some (wr_work_id r) ∨
      wr_origin r = Minted ∧ existing = [] ∧ wr_work_id r = work_id_generate uuid
  | Err (AmbiguousWorkId found) =>
      (∀ id, id ∈ found ↔ id ∈ existing) ∧ NoDup found ∧ found ≠ [] ∧
      ∀ id, Forall (eq id) existing → work_id_parse id = None
  end.
Proof.
  unfold resolve_work_id. pose proof (btree_set_elem existing) as Hel.
  pose proof (btree_set_NoDup existing) as Hnd.
  destruct (btree_set existing) as [|x [|y l]].
  - right. split_and!; [done| |done]. apply elem_of_nil_inv. intros x Hx%Hel. set_solver.
  - destruct (work_id_parse x) as [id|] eqn:Hp.
    + pose proof (work_id_parse_value _ _ Hp) as ->. left. split_and!; [done| | |done].
      * intros ->. assert (x ∈ []) as Hx by (apply Hel; by left). set_solver.
      * simpl. apply Forall_forall. intros y Hy%Hel. set_solver.
    + split_and!; [done|done|done|]. intros id Hid.
      assert (x ∈ existing) as Hx by (apply Hel; by left).
      eapply Forall_forall in Hid; [|exact Hx]. by subst.
  - split_and!; [done|done|done|]. intros id Hid. exfalso.
    assert (id = x) by (eapply (Forall_forall (eq id)); [exact Hid|apply Hel; by left]).
    assert (id = y) by (eapply (Forall_forall (eq id)); [exact Hid|apply Hel; right; by left]).
    apply NoDup_cons in Hnd as [Hn _]. apply Hn. subst. by left.
Qed.
