(* ===== verification/WorkSession.v ===== *)
(** * The Work session read model (crates/heiwa_work: session.rs, snapshot.rs,
      surface.rs)

    The bounded snapshot of one Work that the surfaces render, built from the
    operator stream; the views that select from it; and the guard with which a
    client accepts deltas. *)

From stdpp Require Import base gmap sets strings numbers sorting list.
From Stdlib Require Import Ascii.
From S2P Require Import Prelude Json Hex Envelope OperatorEvent Turns EvidenceRecords.
From S2P Require Import WorkerEvents RunFold PaneTail Work.
#[local] Open Scope Z_scope.

(** ** snapshot.rs *)

(** Rows of a collection, by stable id. *)
Definition CollectionRows : Type := gmap string json.

Record WorkSessionSnapshotV1 : Type := mkSnapshot {
  sn_work_id : string;
  sn_work_revision : Z;
  sn_projection_epoch : string;
  sn_projection_revision : Z;
  sn_operator_cursor : option string;
  sn_source_watermarks : gmap string string;
  sn_collections : gmap string CollectionRows;
  sn_truncated_collections : gmap string nat;
}.

Record WorkSessionDeltaV1 : Type := mkDelta {
  de_work_id : string;
  de_projection_epoch : string;
  de_base_projection_revision : Z;
  de_projection_revision : Z;
  de_operator_cursor : option string;
  de_upserts : gmap string CollectionRows;
  de_removals : gmap string (list string);
}.

Inductive ResyncReason : Type := WorkChanged | EpochChanged | RevisionGap.
Inductive DeltaApplyOutcome : Type :=
| Applied (projection_revision : Z)
| ResyncRequired (reason : ResyncReason).

Record ClientProjection : Type := mkClient {
  cl_work_id : string;
  cl_epoch : string;
  cl_projection_revision : Z;
}.

(** [ClientProjection::from_snapshot]. *)
Definition client_from_snapshot (s : WorkSessionSnapshotV1) : ClientProjection :=
  mkClient (sn_work_id s) (sn_projection_epoch s) (sn_projection_revision s).

(** [ClientProjection::accept]. *)
Definition accept_delta (c : ClientProjection) (d : WorkSessionDeltaV1) : DeltaApplyOutcome :=
  if bool_decide (de_work_id d ≠ cl_work_id c) then ResyncRequired WorkChanged
  else if bool_decide (de_projection_epoch d ≠ cl_epoch c) then ResyncRequired EpochChanged
  else if bool_decide (de_base_projection_revision d ≠ cl_projection_revision c) ||
          bool_decide (de_projection_revision d ≤ de_base_projection_revision d)
  then ResyncRequired RevisionGap
  else Applied (de_projection_revision d).

(** ** session.rs *)

Definition COLLECTIONS : list string :=
  ["work"; "threads"; "workspace"; "runs"; "approvals"; "actions"; "artifacts"; "tests";
   "receipts"; "blockers"].

Record WorkSessionBuildOptions : Type := mkOptions {
  bo_epoch_seed : string;
  bo_collection_limit : nat;
}.

(** [WorkSessionBuildOptions::new]. *)
Definition new_options (epoch_seed : string) (limit : nat) : WorkSessionBuildOptions :=
  mkOptions epoch_seed (Nat.max limit 1).

Inductive WorkSessionBuildError : Type := UnknownWork (work_id : string).

(** The two maps a build fills. *)
Definition Collections : Type := gmap string CollectionRows * gmap string nat.

(** [bounded_upsert]: an unknown collection is a panic. *)
Definition bounded_upsert (collection key : string) (value : json) (limit : nat) (c : Collections)
    : outcome Collections :=
  match c.1 !! collection with
  | None => Panic
  | Some rows =>
      if bool_decide (is_Some (rows !! key)) || (size rows <? limit)%nat
      then Return (<[collection := <[key := value]> rows]> c.1, c.2)
      else Return (c.1, <[collection := S (default 0%nat (c.2 !! collection))]> c.2)
  end.

(** [bounded]: cut to [max_bytes], stepping back to a character boundary. *)
Definition bounded (value : string) (max_bytes : nat) : outcome string :=
  let bytes := as_bytes value in
  if (length bytes <=? max_bytes)%nat then Return value
  else
    kept ← str_slice bytes 0 (back_to_boundary bytes max_bytes);
    Return (String.string_of_list_ascii kept).

(** A payload's string, as a member of the row. *)
Definition str_member (e : OperatorEvent) (k : string) : string * json :=
  (k, json_opt_str (get_str (payload e) k)).

(** The row an event upserts, with its collection and its key. *)
Definition event_row (e : OperatorEvent) : outcome (option (string * string * json)) :=
  match event_type e with
  | WorkspacePrepared =>
      Return (repo ← get_str (payload e) "repo_root";
              Some ("workspace", repo,
                json_object [("repo_root", JString repo); str_member e "worktree_path";
                             str_member e "branch"; str_member e "base_commit";
                             ("state", JString "prepared"); ("updated_at", JString (occurred_at e))]))
  | WorkspaceReleased =>
      Return (repo ← get_str (payload e) "repo_root";
              Some ("workspace", repo,
                json_object [("repo_root", JString repo); ("state", JString "released");
                             ("updated_at", JString (occurred_at e))]))
  | ApprovalRequested | ApprovalDecided =>
      let key := match get_str (payload e) "request_id" with
                 | Some id => id | None => default (event_id e) (call_id e) end in
      Return (Some ("approvals", key,
        json_object [str_member e "request_id"; ("call_id", json_opt_str (call_id e));
                     str_member e "tool"; str_member e "risk"; str_member e "outcome";
                     ("updated_at", JString (occurred_at e))]))
  | ToolCallStarted | ToolCallCompleted =>
      let status := if bool_decide (event_type e = ToolCallStarted) then "started"
                    else default "completed" (get_str (payload e) "status") in
      Return (Some ("actions", default (event_id e) (call_id e),
        json_object [("call_id", json_opt_str (call_id e)); str_member e "name";
                     ("status", JString status); str_member e "receipt_id";
                     str_member e "artifact_ref"; ("updated_at", JString (occurred_at e))]))
  | ArtifactCreated =>
      Return (Some ("artifacts", default (event_id e) (get_str (payload e) "artifact_id"),
        json_object [str_member e "artifact_id"; str_member e "artifact_ref"; str_member e "kind";
                     ("byte_len", json_opt u32_json (get_u64 (payload e) "byte_len"));
                     ("created_at", JString (occurred_at e))]))
  | TestResult =>
      Return (Some ("tests", event_id e,
        json_object [("event_id", JString (event_id e)); str_member e "name"; str_member e "status";
                     ("occurred_at", JString (occurred_at e))]))
  | ReceiptLinked =>
      Return (Some ("receipts", event_id e,
        json_object [("event_id", JString (event_id e)); str_member e "kind";
                     str_member e "receipt_ref"; str_member e "provider"; str_member e "model";
                     ("cost_usd", json_opt f64_json (json_get "cost_usd" (payload e) ≫= as_f64));
                     ("occurred_at", JString (occurred_at e))]))
  | Blocker =>
      reason ← match get_str (payload e) "reason" with
               | Some r => r ← bounded r 256; Return (Some r)
               | None => Return None
               end;
      Return (Some ("blockers", event_id e,
        json_object [("event_id", JString (event_id e)); str_member e "code";
                     ("reason", json_opt_str reason); ("occurred_at", JString (occurred_at e))]))
  | _ => Return None
  end.

(** The status of the thread row an event upserts; [current] is the status the
    row has. *)
Definition thread_status (current : option string) (e : OperatorEvent) : option string :=
  match event_type e with
  | TurnStarted => Some "open"
  | TurnCancelRequested => Some "cancelling"
  | TurnCompleted => Some "completed"
  | TurnInterrupted => Some "interrupted"
  | Blocker => if bool_decide (is_Some (turn_id e)) then Some "blocked" else None
  | _ =>
      if bool_decide (is_Some (turn_id e))
      then Some (if bool_decide (current = Some "cancelling") then "cancelling" else "running")
      else None
  end.

(** [project_thread]. *)
Definition project_thread (e : OperatorEvent) (limit : nat) (c : Collections) : outcome Collections :=
  let current := rows ← c.1 !! "threads"; row ← rows !! thread_id e; get_str row "status" in
  match thread_status current e with
  | None => Return c
  | Some status =>
      bounded_upsert "threads" (thread_id e)
        (json_object [("thread_id", JString (thread_id e));
                      ("latest_turn_id", json_opt_str (turn_id e)); ("status", JString status);
                      ("updated_at", JString (occurred_at e))]) limit c
  end.

Definition project_event (e : OperatorEvent) (limit : nat) (c : Collections) : outcome Collections :=
  c ← project_thread e limit c;
  row ← event_row e;
  match row with
  | None => Return c
  | Some (collection, key, value) => bounded_upsert collection key value limit c
  end.

(** ** Serialization of the rows *)

Definition worker_state_text (w : WorkerState) : string :=
  match w with
  | Starting => "starting" | Live => "live" | Stale => "stale" | Exited => "exited"
  | Failed => "failed" | Revoked => "revoked"
  end.

Definition pane_state_text (p : PaneState) : string :=
  match p with
  | Unverified => "unverified" | Working => "working" | PaneDone => "done"
  | PaneFailed => "failed" | PaneStale => "stale"
  end.

Definition loss_value (l : SupervisionLoss) : json :=
  json_object [("reason", JString (sl_reason l)); ("process", JString (observed_text (sl_process l)));
               ("pid", json_opt u32_json (sl_pid l)); ("recorded_at", JString (sl_recorded_at l))].

Definition run_value (r : RunRow) : json :=
  json_object [("run_id", JString (rw_run_id r)); ("worker_id", JString (rw_worker_id r));
               ("work_id", JString (rw_work_id r)); ("thread_id", JString (rw_thread_id r));
               ("worker_state", JString (worker_state_text (rw_worker_state r)));
               ("provider", json_opt_str (rw_provider r));
               ("provider_session_ref", json_opt_str (rw_provider_session_ref r));
               ("executable_path", json_opt_str (rw_executable_path r));
               ("executable_sha256", json_opt_str (rw_executable_sha256 r));
               ("cwd", json_opt_str (rw_cwd r)); ("repo_root", json_opt_str (rw_repo_root r));
               ("branch", json_opt_str (rw_branch r)); ("base_commit", json_opt_str (rw_base_commit r));
               ("lease_id", json_opt_str (rw_lease_id r)); ("started_at", json_opt_str (rw_started_at r));
               ("ended_at", json_opt_str (rw_ended_at r)); ("exit_code", json_opt i64_json (rw_exit_code r));
               ("failure_code", json_opt_str (rw_failure_code r)); ("pid", json_opt u32_json (rw_pid r));
               ("process_start_id", json_opt_str (rw_process_start_id r));
               ("supervision", json_opt loss_value (rw_supervision r));
               ("pane_id", json_opt_str (rw_pane_id r));
               ("pane_state", json_opt (λ p, JString (pane_state_text p)) (rw_pane_state r));
               ("pane_tail", JArray (map JString (rw_pane_tail r)));
               ("pane_dropped_lines", JNumber (PosInt (rw_pane_dropped_lines r)))].

Definition work_value (w : Work) : json :=
  json_object [("work_id", JString (wk_work_id w)); ("intent", JString (wk_intent w));
               ("status", JString (work_status_text (wk_status w)));
               ("revision", JNumber (PosInt (wk_revision w)));
               ("primary_thread_id", JString (wk_primary_thread_id w));
               ("related_thread_ids", JArray (map JString (wk_related_thread_ids w)));
               ("updated_at", JString (wk_updated_at w))].

(** ** The build *)

(** The loop over the rows of the stream, with the count of the Work's events. *)
Fixpoint project_rows (work : string) (limit : nat) (rows : list CursorEvent) (revision : Z)
    (c : Collections) : outcome (Collections * Z) :=
  match rows with
  | [] => Return (c, revision)
  | row :: rows' =>
      if bool_decide (work_id (ce_event row) ≠ Some work) then project_rows work limit rows' revision c
      else
        c ← project_event (ce_event row) limit c;
        project_rows work limit rows' (saturating_add u64_max revision 1) c
  end.

(** The loop over the runs. *)
Fixpoint project_runs (limit : nat) (runs : list RunRow) (c : Collections) : outcome Collections :=
  match runs with
  | [] => Return c
  | run :: runs' =>
      c ← bounded_upsert "runs" (rw_run_id run) (run_value run) limit c;
      project_runs limit runs' c
  end.

Definition empty_collections : Collections :=
  (list_to_map (map (λ name, (name, ∅)) COLLECTIONS), ∅).

Section build.
Context `{Crypto}.

(** [ProjectionEpoch::from_seed]: the first eight bytes of a digest, in hex. *)
Definition epoch_from_seed (seed : string) : string := to_hex (take 8 (sha256 (as_bytes seed))).

Definition build_work_session (rows : list CursorEvent) (work_id : string)
    (options : WorkSessionBuildOptions)
    : outcome (result WorkSessionBuildError WorkSessionSnapshotV1) :=
  let events := map ce_event rows in
  match projected_work (fold_works events) work_id with
  | None => Return (Err (UnknownWork work_id))
  | Some work =>
      let limit := bo_collection_limit options in
      c ← bounded_upsert "work" work_id (work_value work) limit empty_collections;
      projected ← project_rows work_id limit rows 0 c;
      c ← project_runs limit (fold_runs events work_id) projected.1;
      let cursor := ce_cursor <$> last rows in
      Return (Ok (mkSnapshot work_id (wk_revision work) (epoch_from_seed (bo_epoch_seed options))
                    projected.2 cursor
                    (match cursor with Some at_ => {[ "operator" := at_ ]} | None => ∅ end)
                    c.1 c.2))
  end.
End build.

(** ** surface.rs *)

Record SurfaceIdentity : Type := mkIdentity {
  si_work_id : string;
  si_work_revision : Z;
  si_projection_epoch : string;
  si_projection_revision : Z;
  si_operator_cursor : option string;
}.

(** [SurfaceIdentity::of] and [SurfaceIdentity::client]. *)
Definition identity_of (s : WorkSessionSnapshotV1) : SurfaceIdentity :=
  mkIdentity (sn_work_id s) (sn_work_revision s) (sn_projection_epoch s) (sn_projection_revision s)
    (sn_operator_cursor s).

Definition identity_client (i : SurfaceIdentity) : ClientProjection :=
  mkClient (si_work_id i) (si_projection_epoch i) (si_projection_revision i).

Record SurfaceView : Type := mkView {
  sv_surface : string;
  sv_identity : SurfaceIdentity;
  sv_collections : gmap string CollectionRows;
  sv_truncated_collections : gmap string nat;
}.

Definition SURFACES : list string := ["home"; "work"; "agent"].

(** The loop of [select]. *)
Definition select_step (s : WorkSessionSnapshotV1) (v : gmap string CollectionRows * gmap string nat)
    (name : string) : gmap string CollectionRows * gmap string nat :=
  (match sn_collections s !! name with Some rows => <[name := rows]> v.1 | None => v.1 end,
   match sn_truncated_collections s !! name with Some n => <[name := n]> v.2 | None => v.2 end).

Definition select (s : WorkSessionSnapshotV1) (surface : string) (names : list string) : SurfaceView :=
  let v := foldl (select_step s) (∅, ∅) names in mkView surface (identity_of s) v.1 v.2.

Definition home_view (s : WorkSessionSnapshotV1) : SurfaceView :=
  select s "home" ["work"; "blockers"; "approvals"; "runs"; "receipts"].
Definition work_view (s : WorkSessionSnapshotV1) : SurfaceView :=
  select s "work" ["work"; "threads"; "workspace"; "runs"; "actions"; "artifacts"; "tests";
                   "receipts"; "blockers"].
Definition agent_view (s : WorkSessionSnapshotV1) : SurfaceView :=
  select s "agent" ["work"; "runs"; "workspace"; "actions"; "approvals"].

Definition view_for (s : WorkSessionSnapshotV1) (surface : string) : option SurfaceView :=
  if bool_decide (surface = "home") then Some (home_view s)
  else if bool_decide (surface = "work") then Some (work_view s)
  else if bool_decide (surface = "agent") then Some (agent_view s)
  else None.

Definition surfaces (s : WorkSessionSnapshotV1) : list SurfaceView :=
  [home_view s; work_view s; agent_view s].

(** ** Bounds *)

(** The rows at a bound next to the rows at a larger one. *)
Record collection_tracks (l l' : nat) (m m' : CollectionRows) (t t' : option nat) : Prop := {
  ct_size : (size m ≤ l)%nat;
  ct_size' : (size m' ≤ l')%nat;
  ct_sub : m ⊆ m';
  ct_complete : t = None → m = m';
  ct_full : is_Some t → size m = l;
  ct_full' : is_Some t' → size m' = l';
}.

Definition tracks (l l' : nat) (c c' : Collections) : Prop :=
  ∀ name, match c.1 !! name, c'.1 !! name with
          | Some m, Some m' =>
              name ∈ COLLECTIONS ∧ collection_tracks l l' m m' (c.2 !! name) (c'.2 !! name)
          | None, None => name ∉ COLLECTIONS
          | _, _ => False
          end.

Lemma tracks_known l l' c c' name :
  tracks l l' c c' → name ∈ COLLECTIONS →
  ∃ m m', c.1 !! name = Some m ∧ c'.1 !! name = Some m' ∧
    collection_tracks l l' m m' (c.2 !! name) (c'.2 !! name).
Proof.
  intros Ht Hn. specialize (Ht name).
  destruct (c.1 !! name) as [m|], (c'.1 !! name) as [m'|]; try done.
  exists m, m'. by destruct Ht.
Qed.

Lemma tracks_update l l' c c' d d' name m m' :
  tracks l l' c c' → name ∈ COLLECTIONS →
  d.1 !! name = Some m → d'.1 !! name = Some m' →
  collection_tracks l l' m m' (d.2 !! name) (d'.2 !! name) →
  (∀ n, n ≠ name → d.1 !! n = c.1 !! n ∧ d.2 !! n = c.2 !! n ∧ d'.1 !! n = c'.1 !! n ∧
     d'.2 !! n = c'.2 !! n) →
  tracks l l' d d'.
Proof.
  intros Ht Hn Hm Hm' Hct Hother n. destruct (decide (n = name)) as [->|Hne].
  - by rewrite Hm, Hm'.
  - destruct (Hother n Hne) as (-> & -> & -> & ->). apply Ht.
Qed.

Lemma rows_size_insert (m : CollectionRows) (k : string) (v : json) :
  size (<[k := v]> m) = if bool_decide (is_Some (m !! k)) then size m else S (size m).
Proof.
  case_bool_decide as Hk; [by apply map_size_insert_Some|].
  apply map_size_insert_None. by apply eq_None_not_Some.
Qed.

(** Upserting one row at both bounds. *)
Lemma upsert_tracks l l' c c' name key v v' :
  (l ≤ l')%nat → tracks l l' c c' → name ∈ COLLECTIONS →
  (∀ m, c.1 !! name = Some m → is_Some (m !! key) ∨ c.2 !! name = None → v = v') →
  ∃ d d', bounded_upsert name key v l c = Return d ∧ bounded_upsert name key v' l' c' = Return d' ∧
    tracks l l' d d'.
Proof.
  intros Hl Ht Hn Hv. destruct (tracks_known _ _ _ _ _ Ht Hn) as (m & m' & Hm & Hm' & Hct).
  specialize (Hv m Hm). destruct Hct as [Hs Hs' Hsub Hc Hf Hf'].
  unfold bounded_upsert. rewrite Hm, Hm'.
  assert (∀ n, n ≠ name → ∀ (a : CollectionRows) (b : nat),
    <[name := a]> c.1 !! n = c.1 !! n ∧ <[name := b]> c.2 !! n = c.2 !! n ∧
    <[name := a]> c'.1 !! n = c'.1 !! n ∧ <[name := b]> c'.2 !! n = c'.2 !! n) as Hne.
  { intros n Hn' a b. by rewrite !lookup_insert_ne by done. }
  destruct (m !! key) as [old|] eqn:Ek.
  { assert (m' !! key = Some old) as Ek' by (by eapply lookup_weaken). rewrite Ek'. simpl.
    assert (v = v') as <- by (apply Hv; by left).
    eexists _, _. split; [done|]. split; [done|].
    eapply (tracks_update l l' c c' _ _ name (<[key:=v]> m) (<[key:=v]> m')); simpl;
      rewrite ?lookup_insert_eq; try done.
    - assert (size (<[key:=v]> m) = size m) as Sz by (by rewrite rows_size_insert, Ek).
      assert (size (<[key:=v]> m') = size m') as Sz' by (by rewrite rows_size_insert, Ek').
      split; rewrite ?Sz, ?Sz'; try done; [by apply insert_mono|]. by intros ->%Hc.
    - intros n Hn'. by destruct (Hne n Hn' (<[key:=v]> m) 0%nat) as (-> & _),
        (Hne n Hn' (<[key:=v]> m') 0%nat) as (_ & _ & -> & _). }
  rewrite (bool_decide_false (is_Some None)) by (by intros []). simpl.
  destruct (Nat.ltb_spec (size m) l) as [Hlt|Hge].
  - assert (c.2 !! name = None) as Hnone.
    { destruct (c.2 !! name); [|done]. specialize (Hf ltac:(by eexists)). lia. }
    assert (c'.2 !! name = None) as Hnone'.
    { destruct (c'.2 !! name); [|done]. specialize (Hf' ltac:(by eexists)).
      rewrite <- (Hc Hnone) in Hf'. lia. }
    assert (v = v') as <- by (apply Hv; by right).
    pose proof (Hc Hnone) as <-. rewrite Ek, (proj2 (Nat.ltb_lt _ _)), orb_true_r by lia.
    eexists _, _. split; [done|]. split; [done|].
    eapply (tracks_update l l' c c' _ _ name (<[key:=v]> m) (<[key:=v]> m)); simpl;
      rewrite ?lookup_insert_eq; try done.
    + rewrite Hnone, Hnone'. assert (size (<[key:=v]> m) = S (size m)) as Sz
        by (by rewrite rows_size_insert, Ek).
      split; rewrite ?Sz; try done; try lia; by intros [].
    + intros n Hn'. by destruct (Hne n Hn' (<[key:=v]> m) 0%nat) as (-> & _ & -> & _).
  - assert (∀ rows t', (size rows ≤ l')%nat → m ⊆ rows → (is_Some t' → size rows = l') →
      collection_tracks l l' m rows (Some (S (default 0%nat (c.2 !! name)))) t') as Hmiss.
    { intros rows t' H1' H2' H3'. split; try done. intros _. lia. }
    destruct (bool_decide (is_Some (m' !! key)) || (size m' <? l')%nat) eqn:Ed;
      eexists _, _; (split; [done|]; split; [done|]).
    + eapply (tracks_update l l' c c' _ _ name m (<[key:=v']> m')); simpl;
        rewrite ?lookup_insert_eq; try done.
      * apply Hmiss; [|by apply insert_subseteq_r|].
        -- rewrite rows_size_insert. destruct (bool_decide _); [done|]. apply Nat.ltb_lt in Ed. lia.
        -- intros Ht'. specialize (Hf' Ht'). rewrite rows_size_insert.
           destruct (bool_decide _); [done|]. apply Nat.ltb_lt in Ed. lia.
      * intros n Hn'. destruct (Hne n Hn' (<[key:=v']> m') (S (default 0%nat (c.2 !! name))))
          as (_ & -> & -> & _). done.
    + apply orb_false_iff in Ed as [_ Ed%Nat.ltb_ge].
      eapply (tracks_update l l' c c' _ _ name m m'); simpl; rewrite ?lookup_insert_eq; try done.
      * apply Hmiss; [done|done|lia].
      * intros n Hn'. destruct (Hne n Hn' m (S (default 0%nat (c.2 !! name)))) as (_ & -> & _).
        destruct (Hne n Hn' m (S (default 0%nat (c'.2 !! name)))) as (_ & _ & _ & ->). done.
Qed.

(** ** The build *)

(** Two computations that both return, in related states. *)
Definition both (R : Collections → Collections → Prop) (o o' : outcome Collections) : Prop :=
  ∃ d d', o = Return d ∧ o' = Return d' ∧ R d d'.

Lemma both_bind R o o' f f' :
  both R o o' → (∀ d d', R d d' → both R (f d) (f' d')) → both R (d ← o; f d) (d ← o'; f' d).
Proof. intros (d & d' & -> & -> & Hd) Hf. simpl. by apply Hf. Qed.

Lemma bounded_returns value n : ∃ cut, bounded value n = Return cut.
Proof. destruct (truncate_longest value n) as (cut & Hc & _). by exists cut. Qed.

Lemma event_row_returns e :
  ∃ row, event_row e = Return row ∧ ∀ name key v, row = Some (name, key, v) → name ∈ COLLECTIONS.
Proof.
  unfold event_row. destruct (event_type e); try (by eexists).
  all: try (eexists; split; [done|]; intros name key v; try intros [= <- _ _]; try set_solver).
  all: try (destruct (get_str (payload e) "repo_root"); simpl; [|done]; intros [= <- _ _]; set_solver).
  destruct (get_str (payload e) "reason") as [r|]; simpl.
  - destruct (bounded_returns r 256) as [cut ->]. simpl. eexists. split; [done|].
    intros name key v [= <- _ _]. set_solver.
  - eexists. split; [done|]. intros name key v [= <- _ _]. set_solver.
Qed.

Lemma thread_status_current current current' e :
  is_Some (thread_status current e) ↔ is_Some (thread_status current' e).
Proof. unfold thread_status. repeat case_match; simplify_eq; split; by eauto. Qed.

Lemma project_thread_tracks l l' c c' e :
  (l ≤ l')%nat → tracks l l' c c' → both (tracks l l') (project_thread e l c) (project_thread e l' c').
Proof.
  intros Hl Ht. unfold project_thread.
  destruct (tracks_known _ _ _ _ "threads" Ht ltac:(set_solver)) as (m & m' & Hm & Hm' & Hct).
  rewrite Hm, Hm'. simpl.
  set (cur := row ← m !! thread_id e; _). set (cur' := row ← m' !! thread_id e; _).
  destruct (thread_status_current cur cur' e) as [Hs Hs'].
  destruct (thread_status cur e) as [s|] eqn:E, (thread_status cur' e) as [s'|] eqn:E'.
  - apply upsert_tracks; [done|done|set_solver|]. intros m0 Hm0 Hsame.
    rewrite Hm in Hm0. injection Hm0 as <-. assert (cur = cur') as Hcur; [|congruence].
    unfold cur, cur'. destruct Hsame as [[row Hrow]|Hnone].
    + assert (m' !! thread_id e = Some row) as Hrow'
        by (eapply lookup_weaken; [exact Hrow|apply Hct]). by rewrite Hrow, Hrow'.
    + by rewrite (ct_complete _ _ _ _ _ _ Hct Hnone).
  - by destruct (Hs ltac:(by eexists)).
  - by destruct (Hs' ltac:(by eexists)).
  - by eexists _, _.
Qed.

Lemma project_event_tracks l l' c c' e :
  (l ≤ l')%nat → tracks l l' c c' → both (tracks l l') (project_event e l c) (project_event e l' c').
Proof.
  intros Hl Ht. apply both_bind; [by apply project_thread_tracks|]. intros d d' Hd.
  destruct (event_row_returns e) as (row & -> & Hrow). simpl.
  destruct row as [[[name key] v]|]; [|by eexists _, _].
  apply upsert_tracks; [done|done|by eapply Hrow|done].
Qed.

(** The events of a Work that a build counts, within 64 bits. *)
Definition scoped_count (work : string) (rows : list CursorEvent) : Z :=
  Z.of_nat (length (filter (λ row, work_id (ce_event row) = Some work) rows)).

Lemma project_rows_tracks l l' work rows : ∀ rev c c',
  (l ≤ l')%nat → tracks l l' c c' → 0 ≤ rev ≤ u64_max →
  ∃ d d', project_rows work l rows rev c = Return (d, Z.min (rev + scoped_count work rows) u64_max) ∧
    project_rows work l' rows rev c' = Return (d', Z.min (rev + scoped_count work rows) u64_max) ∧
    tracks l l' d d'.
Proof.
  unfold scoped_count. induction rows as [|row rows IH]; intros rev c c' Hl Ht Hrev; simpl.
  { eexists _, _. rewrite Z.add_0_r, Z.min_l by lia. done. }
  rewrite filter_cons. destruct (decide (work_id (ce_event row) = Some work)) as [Hw|Hw].
  - rewrite bool_decide_false by (intros Hn; by apply Hn).
    destruct (project_event_tracks l l' c c' (ce_event row) Hl Ht) as (d & d' & -> & -> & Hd). simpl.
    assert (0 ≤ saturating_add u64_max rev 1 ≤ u64_max) as Hrev' by (unfold saturating_add; lia).
    destruct (IH _ d d' Hl Hd Hrev') as (f & f' & -> & -> & Hf). exists f, f'.
    split_and!; [|..|done]; do 2 f_equal; unfold saturating_add; lia.
  - rewrite bool_decide_true by done. by apply IH.
Qed.

Lemma project_runs_tracks l l' runs : ∀ c c',
  (l ≤ l')%nat → tracks l l' c c' → both (tracks l l') (project_runs l runs c) (project_runs l' runs c').
Proof.
  induction runs as [|run runs IH]; intros c c' Hl Ht; [by eexists _, _|]. cbn [project_runs].
  apply both_bind; [|auto]. apply upsert_tracks; [done|done|set_solver|done].
Qed.

Lemma empty_tracks l l' : tracks l l' empty_collections empty_collections.
Proof.
  intros name. unfold empty_collections. simpl.
  set (m := list_to_map (map (λ name, (name, ∅)) COLLECTIONS) : gmap string CollectionRows).
  assert (∀ n, m !! n = if bool_decide (n ∈ COLLECTIONS) then Some ∅ else None) as Hm.
  { intros n. case_bool_decide as Hn.
    - unfold COLLECTIONS in Hn. rewrite !elem_of_cons, elem_of_nil in Hn.
      repeat destruct Hn as [->|Hn]; done.
    - apply not_elem_of_list_to_map_1. by rewrite <- list_fmap_compose, list_fmap_id. }
  rewrite Hm. case_bool_decide; [|done]. split; [done|].
  rewrite !lookup_empty. assert (size (∅ : CollectionRows) = 0%nat) as Sz by done.
  split; rewrite ?Sz; try done; try lia; by intros [].
Qed.

(** The builds of one Work at a bound and at a larger one. *)
Lemma build_tracks `{Crypto} rows work w l l' seed seed' :
  (l ≤ l')%nat → projected_work (fold_works (map ce_event rows)) work = Some w →
  ∃ s s', build_work_session rows work (mkOptions seed l) = Return (Ok s) ∧
    build_work_session rows work (mkOptions seed' l') = Return (Ok s') ∧
    sn_work_id s = work ∧ sn_work_revision s = wk_revision w ∧
    sn_projection_epoch s = epoch_from_seed seed ∧
    sn_projection_revision s = Z.min (scoped_count work rows) u64_max ∧
    sn_operator_cursor s = ce_cursor <$> last rows ∧
    tracks l l' (sn_collections s, sn_truncated_collections s)
      (sn_collections s', sn_truncated_collections s').
Proof.
  intros Hl Hw. unfold build_work_session. rewrite Hw. cbn [bo_collection_limit bo_epoch_seed].
  destruct (upsert_tracks l l' empty_collections empty_collections "work" work (work_value w)
    (work_value w) Hl (empty_tracks l l') ltac:(set_solver) ltac:(done)) as (c & c' & -> & -> & Hc).
  simpl. destruct (project_rows_tracks l l' work rows 0 c c' Hl Hc ltac:(done))
    as (d & d' & -> & -> & Hd). simpl.
  destruct (project_runs_tracks l l' (fold_runs (map ce_event rows) work) d d' Hl Hd)
    as (f & f' & -> & -> & Hf). simpl.
  eexists _, _. split; [done|]. split; [done|]. simpl. by split_and!.
Qed.

(** *** A bound large enough *)

(** Every collection has at most [n] rows and none was cut. *)
Definition roomy (n : nat) (c : Collections) : Prop :=
  (∀ name m, c.1 !! name = Some m → (size m ≤ n)%nat) ∧ c.2 = ∅.

Lemma roomy_le n n' c : (n ≤ n')%nat → roomy n c → roomy n' c.
Proof. intros Hn [Hs Ht]. split; [|done]. intros name m Hm. specialize (Hs _ _ Hm). lia. Qed.

Lemma upsert_roomy n l name key v c d :
  roomy n c → (n < l)%nat → bounded_upsert name key v l c = Return d → roomy (S n) d.
Proof.
  intros [Hs Ht] Hl. unfold bounded_upsert. destruct (c.1 !! name) as [m|] eqn:Em; [|done].
  pose proof (Hs _ _ Em) as Hm. rewrite (proj2 (Nat.ltb_lt (size m) l)), orb_true_r by lia.
  intros [= <-]. split; [|done]. simpl. intros name' m' Hm'.
  destruct (decide (name' = name)) as [->|Hne].
  - rewrite lookup_insert_eq in Hm'. injection Hm' as <-. rewrite rows_size_insert.
    destruct (bool_decide _); lia.
  - rewrite lookup_insert_ne in Hm' by done. specialize (Hs _ _ Hm'). lia.
Qed.

Lemma outcome_bind_Return {A B} (o : outcome A) (f : A → outcome B) b :
  (a ← o; f a) = Return b → ∃ a, o = Return a ∧ f a = Return b.
Proof. destruct o as [a|]; simpl; [|done]. intros Hf. by exists a. Qed.

Lemma project_event_roomy n l e c d :
  roomy n c → (S n < l)%nat → project_event e l c = Return d → roomy (S (S n)) d.
Proof.
  intros Hc Hl (c1 & H1 & (row & _ & H2)%outcome_bind_Return)%outcome_bind_Return.
  assert (roomy (S n) c1) as Hc1.
  { revert H1. unfold project_thread. cbv zeta.
    destruct (thread_status _ e); [|intros [= <-]; by apply (roomy_le n); [lia|]].
    intros H1. apply (upsert_roomy n) in H1; [done|done|lia]. }
  destruct row as [[[name key] v]|]; [apply (upsert_roomy (S n)) in H2; [done|done|lia]|].
  injection H2 as <-. by apply (roomy_le (S n)); [lia|].
Qed.

Lemma project_rows_roomy work l rows : ∀ n rev c p,
  roomy n c → (n + 2 * length rows < l)%nat → project_rows work l rows rev c = Return p →
  roomy (n + 2 * length rows) p.1.
Proof.
  induction rows as [|row rows IH]; intros n rev c p Hc Hl; simpl in *.
  { intros [= <-]. by apply (roomy_le n); [lia|]. }
  case_bool_decide.
  - intros Hp. apply (roomy_le (n + 2 * length rows)); [lia|]. eapply IH; [exact Hc|lia|exact Hp].
  - intros (c1 & H1 & H2)%outcome_bind_Return.
    apply (project_event_roomy n) in H1; [|done|lia].
    replace (n + _)%nat with (S (S n) + 2 * length rows)%nat by lia.
    eapply IH; [exact H1|lia|exact H2].
Qed.

Lemma project_runs_roomy l runs : ∀ n c d,
  roomy n c → (n + length runs ≤ l)%nat → project_runs l runs c = Return d →
  roomy (n + length runs) d.
Proof.
  induction runs as [|run runs IH]; intros n c d Hc Hl; cbn [project_runs length] in *.
  { intros [= <-]. by apply (roomy_le n); [lia|]. }
  intros (c1 & H1 & H2)%outcome_bind_Return. apply (upsert_roomy n) in H1; [|done|lia].
  replace (n + _)%nat with (S n + length runs)%nat by lia. eapply IH; [exact H1|lia|exact H2].
Qed.

(** A limit no session of this stream can reach. *)
Definition enough (rows : list CursorEvent) (work : string) : nat :=
  S (S (2 * length rows)) + length (fold_runs (map ce_event rows) work).

Lemma build_roomy `{Crypto} rows work l seed s :
  (enough rows work ≤ l)%nat → build_work_session rows work (mkOptions seed l) = Return (Ok s) →
  sn_truncated_collections s = ∅.
Proof.
  intros Hl. unfold build_work_session. destruct (projected_work _ _) as [w|]; [|done].
  cbn [bo_collection_limit bo_epoch_seed]. unfold enough in Hl.
  intros (c & Hc & (p & Hp & (d & Hd & Hs)%outcome_bind_Return)%outcome_bind_Return)%outcome_bind_Return.
  apply (upsert_roomy 0) in Hc; [| |lia].
  2: { split; [|done]. intros name m Hm. pose proof (empty_tracks 0 0 name) as He. rewrite Hm in He.
       destruct He as [_ He]. apply He. }
  apply (project_rows_roomy _ _ _ 1) in Hp; [|done|lia].
  apply (project_runs_roomy _ _ (1 + 2 * length rows)) in Hd; [|done|lia].
  injection Hs as <-. apply Hd.
Qed.

(** The session of a Work, at any limit: the build never panics and names an
    unknown Work; its revision, epoch and cursor are those of the fold and the
    stream; it has the ten collections, each within the limit; and every
    collection is a part of what any larger limit would show, the whole of it
    unless the collection is reported truncated, in which case it is full. A
    limit larger than the stream truncates nothing. *)
Theorem work_session_is_bounded_and_says_so `{Crypto} (rows : list CursorEvent)
    (work seed : string) (limit : nat) :
  let build n := build_work_session rows work (new_options seed n) in
  match projected_work (fold_works (map ce_event rows)) work with
  | None => build limit = Return (Err (UnknownWork work))
  | Some w =>
      ∃ s, build limit = Return (Ok s) ∧
        sn_work_id s = work ∧ sn_work_revision s = wk_revision w ∧
        sn_projection_epoch s = epoch_from_seed seed ∧
        sn_projection_revision s = Z.min (scoped_count work rows) u64_max ∧
        sn_operator_cursor s = ce_cursor <$> last rows ∧
        (∀ name, is_Some (sn_collections s !! name) ↔ name ∈ COLLECTIONS) ∧
        ∀ larger, (limit ≤ larger)%nat →
          ∃ s', build larger = Return (Ok s') ∧
            ((enough rows work ≤ larger)%nat → sn_truncated_collections s' = ∅) ∧
            ∀ name m, sn_collections s !! name = Some m →
              (size m ≤ Nat.max limit 1)%nat ∧
              ∃ m', sn_collections s' !! name = Some m' ∧ m ⊆ m' ∧
                (sn_truncated_collections s !! name = None → m = m') ∧
                (is_Some (sn_truncated_collections s !! name) → size m = Nat.max limit 1)
  end.
Proof.
  intros build. destruct (projected_work (fold_works (map ce_event rows)) work) as [w|] eqn:Hw.
  2: { unfold build, build_work_session. by rewrite Hw. }
  destruct (build_tracks rows work w (Nat.max limit 1) (Nat.max limit 1) seed seed ltac:(lia) Hw)
    as (s & s2 & Hs & Hs2 & Hid & Hrev & Hep & Hpr & Hcur & Ht).
  rewrite Hs in Hs2. injection Hs2 as <-. exists s. split_and!; try done.
  - intros name. specialize (Ht name). simpl in Ht.
    destruct (sn_collections s !! name).
    + split; [|by eexists]. intros _. apply Ht.
    + split; [by intros []|done].
  - intros larger Hl.
    destruct (build_tracks rows work w (Nat.max limit 1) (Nat.max larger 1) seed seed ltac:(lia) Hw)
      as (s0 & s' & Hs0 & Hs' & _ & _ & _ & _ & _ & Ht').
    rewrite Hs in Hs0. injection Hs0 as <-. exists s'. split_and!; [done| |].
    + intros He. eapply build_roomy; [|exact Hs']. lia.
    + intros name m Hm. specialize (Ht' name). simpl in Ht'. rewrite Hm in Ht'.
      destruct (sn_collections s' !! name) as [m'|]; [|done].
      destruct Ht' as [_ [Hsz _ Hsub Hc Hf _]]. split; [done|]. by exists m'.
Qed.

(** ** Surfaces and deltas *)

Lemma select_lookup s names : ∀ v name,
  (foldl (select_step s) v names).1 !! name =
    (if bool_decide (name ∈ names) then
       match sn_collections s !! name with Some rows => Some rows | None => v.1 !! name end
     else v.1 !! name) ∧
  (foldl (select_step s) v names).2 !! name =
    (if bool_decide (name ∈ names) then
       match sn_truncated_collections s !! name with Some n => Some n | None => v.2 !! name end
     else v.2 !! name).
Proof.
  induction names as [|x names IH]; intros v name; [done|]. simpl.
  destruct (IH (select_step s v x) name) as [-> ->]. unfold select_step; simpl.
  destruct (decide (name = x)) as [->|Hne].
  - rewrite (bool_decide_true (x ∈ x :: names)) by (by left). split; case_bool_decide;
      (destruct (sn_collections s !! x), (sn_truncated_collections s !! x));
      by rewrite ?lookup_insert_eq.
  - rewrite (bool_decide_ext (name ∈ x :: names) (name ∈ names)) by set_solver.
    split; case_bool_decide; destruct (sn_collections s !! x), (sn_truncated_collections s !! x);
      by rewrite ?lookup_insert_ne by done.
Qed.

(** What a view shows of a collection. *)
Lemma select_shows s surface names name :
  sv_collections (select s surface names) !! name =
    (if bool_decide (name ∈ names) then sn_collections s !! name else None) ∧
  sv_truncated_collections (select s surface names) !! name =
    (if bool_decide (name ∈ names) then sn_truncated_collections s !! name else None).
Proof.
  destruct (select_lookup s names (∅, ∅) name) as [H1 H2]. unfold select; simpl. rewrite H1, H2.
  split; case_bool_decide; simpl; rewrite ?lookup_empty; try done.
  - by destruct (sn_collections s !! name).
  - by destruct (sn_truncated_collections s !! name).
Qed.

(** The deltas a client takes, one frame after the other. *)
Fixpoint follow (c : ClientProjection) (frames : list WorkSessionDeltaV1) : list WorkSessionDeltaV1 :=
  match frames with
  | [] => []
  | d :: frames' =>
      match accept_delta c d with
      | Applied revision => d :: follow (mkClient (cl_work_id c) (cl_epoch c) revision) frames'
      | ResyncRequired _ => follow c frames'
      end
  end.

(** Deltas of one fold, each starting where the one before it ended. *)
Fixpoint delta_chain (work epoch : string) (revision : Z) (ds : list WorkSessionDeltaV1) : Prop :=
  match ds with
  | [] => True
  | d :: ds' =>
      de_work_id d = work ∧ de_projection_epoch d = epoch ∧
      de_base_projection_revision d = revision ∧ revision < de_projection_revision d ∧
      delta_chain work epoch (de_projection_revision d) ds'
  end.

Lemma follow_chain frames : ∀ c,
  delta_chain (cl_work_id c) (cl_epoch c) (cl_projection_revision c) (follow c frames).
Proof.
  induction frames as [|d frames IH]; intros c; [done|]. simpl. unfold accept_delta.
  case_bool_decide as Hw; [apply IH|]. case_bool_decide as He; [apply IH|].
  case_bool_decide as Hb; simpl; [apply IH|]. case_bool_decide as Hr; [apply IH|].
  simpl. split_and!; [done|done|done|lia|].
  apply (IH (mkClient _ _ _)).
Qed.

Lemma delta_chain_bases work epoch ds : ∀ revision,
  delta_chain work epoch revision ds →
  Forall (λ d, revision ≤ de_base_projection_revision d) ds ∧
  NoDup (map de_base_projection_revision ds).
Proof.
  induction ds as [|d ds IH]; intros revision; simpl; [split; constructor|].
  intros (_ & _ & Hb & Hr & Hc). destruct (IH _ Hc) as [Hall Hnd].
  assert (Forall (λ d', revision < de_base_projection_revision d') ds) as Hall'.
  { eapply Forall_impl; [exact Hall|]. simpl. lia. }
  split; [constructor; [lia|]|apply NoDup_cons; split; [|done]].
  - eapply Forall_impl; [exact Hall'|]. simpl. lia.
  - intros (d' & Heq & Hin)%list_elem_of_fmap. eapply Forall_forall in Hall'; [|exact Hin]. simpl in Hall'. lia.
Qed.

(** Home, Work and Agent cannot disagree: whatever two views of one snapshot
    both show they show with the same rows and the same count of rows left out,
    every collection is on some surface, and all carry the identity of the
    snapshot, so the same frames pass their guards: those of its Work and its
    fold, each starting where the one before ended, none of them twice. *)
Theorem surfaces_never_disagree (s : WorkSessionSnapshotV1) :
  (∀ name, is_Some (view_for s name) ↔ name ∈ SURFACES) ∧
  (∀ v v' name, v ∈ surfaces s → v' ∈ surfaces s →
    is_Some (sv_collections v !! name) → is_Some (sv_collections v' !! name) →
    sv_collections v !! name = sv_collections v' !! name ∧
    sv_truncated_collections v !! name = sv_truncated_collections v' !! name) ∧
  (∀ name rows, name ∈ COLLECTIONS → sn_collections s !! name = Some rows →
    ∃ v, v ∈ surfaces s ∧ sv_collections v !! name = Some rows ∧
      sv_truncated_collections v !! name = sn_truncated_collections s !! name) ∧
  ∀ v frames, v ∈ surfaces s →
    let taken := follow (identity_client (sv_identity v)) frames in
    taken = follow (client_from_snapshot s) frames ∧
    delta_chain (sn_work_id s) (sn_projection_epoch s) (sn_projection_revision s) taken ∧
    NoDup (map de_base_projection_revision taken).
Proof.
  assert (∀ v, v ∈ surfaces s → ∃ surface names, v = select s surface names) as Hsel.
  { intros v Hv. unfold surfaces in Hv. rewrite !elem_of_cons, elem_of_nil in Hv.
    destruct Hv as [->|[->|[->|[]]]]; eexists _, _; reflexivity. }
  split_and!.
  - intros name. unfold view_for, SURFACES. rewrite !elem_of_cons, elem_of_nil.
    repeat case_bool_decide; split; try (intros _; by eexists); try tauto; by intros [].
  - intros v v' name (sf & ns & ->)%Hsel (sf' & ns' & ->)%Hsel.
    destruct (select_shows s sf ns name) as [-> ->], (select_shows s sf' ns' name) as [-> ->].
    repeat case_bool_decide; try done; try (by intros []); by intros _ [].
  - intros name rows Hn Hrows.
    assert (name ∈ ["work"; "threads"; "workspace"; "runs"; "actions"; "artifacts"; "tests";
                    "receipts"; "blockers"] ∨ name ∈ ["work"; "runs"; "workspace"; "actions"; "approvals"])
      as [Hin|Hin] by (unfold COLLECTIONS in Hn; set_solver).
    + exists (work_view s). split; [set_solver|]. unfold work_view.
      match goal with |- context [select s ?n ?l] =>
        destruct (select_shows s n l name) as [H1 H2] end.
      by rewrite H1, H2, !bool_decide_true by done.
    + exists (agent_view s). split; [set_solver|]. unfold agent_view.
      match goal with |- context [select s ?n ?l] =>
        destruct (select_shows s n l name) as [H1 H2] end.
      by rewrite H1, H2, !bool_decide_true by done.
  - intros v frames (sf & ns & ->)%Hsel. cbv zeta. split; [done|].
    assert (delta_chain (sn_work_id s) (sn_projection_epoch s) (sn_projection_revision s)
              (follow (client_from_snapshot s) frames)) as Hc by exact (follow_chain frames (client_from_snapshot s)).
    split; [exact Hc|]. by eapply delta_chain_bases.
Qed.
