(* ===== verification/WorkspaceLease.v ===== *)
(** * Writer leases (crates/heiwa_workspace/src/lease.rs)

    One Work's exclusive permission to write one repository, held as a worker
    lease of the capability [workspace.write:<repository>]. *)

From stdpp Require Import base gmap sets strings numbers list.
From Stdlib Require Import Ascii.
From S2P Require Import Prelude Utf8 Json Hex Envelope Framing OperatorEvent Sensitive EventLog.
From S2P Require Import OperatorJournal JournalLog EvidenceRecords EvidenceStream WorkerLease.
#[local] Open Scope Z_scope.

(** The lease and evidence variants of [WorkspaceError]. *)
Inductive LeaseError : Type :=
| LeaseHeld (repo_root held_by : string)
| EvidenceError (reason : string).

Record WriterLease : Type := mkWriter {
  wr_lease_id : string;
  wr_work_id : string;
  wr_worker_id : string;
  wr_capability : string;
  wr_node_id : string;
  wr_issued_at : string;
  wr_expires_at : string;
}.

Definition capability_for (repo_root : string) : string := "workspace.write:" +:+ repo_root.

(** What an acquisition is asked with, its new lease id included. *)
Record WriterRequest : Type := mkWriterRequest {
  wq_work_id : string;
  wq_repo_root : string;
  wq_installation_id : string;
  wq_worker_id : string;
  wq_issued_at : string;
  wq_expires_at : string;
  wq_lease_id : string;
}.

(** The row an acquisition appends, and the hold it returns. *)
Definition issued_row (q : WriterRequest) : PersistedWorkerLease :=
  mkLease (wq_lease_id q) (wq_work_id q) (wq_worker_id q) (wq_installation_id q)
    (capability_for (wq_repo_root q)) "issued" (wq_issued_at q) (wq_issued_at q) (wq_expires_at q)
    None None None None.

Definition granted_lease (q : WriterRequest) : WriterLease :=
  mkWriter (wq_lease_id q) (wq_work_id q) (wq_worker_id q) (capability_for (wq_repo_root q))
    (wq_installation_id q) (wq_issued_at q) (wq_expires_at q).

(** The row that ends a hold. *)
Definition finished_row (l : WriterLease) (finished_at status : string) (failure_code : option string)
    (reason : string) : PersistedWorkerLease :=
  mkLease (wr_lease_id l) (wr_work_id l) (wr_worker_id l) (wr_node_id l) (wr_capability l) status
    (wr_issued_at l) finished_at (wr_expires_at l) None (Some finished_at) failure_code (Some reason).

Section leases.
Context `{JsonText, Rfc3339, HashOrder}.

(** [acquire_writer_lease], over the transport whose directory the caller
    resolved. *)
Definition acquire_writer_lease (q : WriterRequest) (d : EvidenceDir)
    : EvidenceDir * result LeaseError WriterLease :=
  match try_acquire_worker_lease (issued_row q) d with
  | (d', Err e) => (d', Err (EvidenceError e))
  | (d', Ok (Some held)) => (d', Err (LeaseHeld (wq_repo_root q) (wl_task_id held)))
  | (d', Ok None) => (d', Ok (granted_lease q))
  end.

Definition finish_writer_lease (l : WriterLease) (finished_at status : string)
    (failure_code : option string) (reason : string) (d : EvidenceDir)
    : EvidenceDir * result LeaseError unit :=
  match upsert_worker_lease (finished_row l finished_at status failure_code reason) d with
  | (d', Ok _) => (d', Ok tt)
  | (d', Err e) => (d', Err (EvidenceError e))
  end.

Definition release_writer_lease (l : WriterLease) (released_at : string) (d : EvidenceDir)
    : EvidenceDir * result LeaseError unit :=
  finish_writer_lease l released_at "completed" None "workspace released" d.

Definition revoke_writer_lease (l : WriterLease) (revoked_at failure_code reason : string)
    (d : EvidenceDir) : EvidenceDir * result LeaseError unit :=
  finish_writer_lease l revoked_at "revoked" (Some failure_code) reason d.

(** What the Works of an installation do over time. *)
Inductive WriterOp : Type :=
| TakeRepo (q : WriterRequest)
| Release (l : WriterLease) (at_ : string)
| Revoke (l : WriterLease) (at_ failure_code reason : string).

Definition run_writer_op (d : EvidenceDir) (op : WriterOp) : EvidenceDir :=
  match op with
  | TakeRepo q => (acquire_writer_lease q d).1
  | Release l at_ => (release_writer_lease l at_ d).1
  | Revoke l at_ code reason => (revoke_writer_lease l at_ code reason d).1
  end.

Definition run_writer_ops (ops : list WriterOp) (d : EvidenceDir) : EvidenceDir :=
  foldl run_writer_op d ops.

(** The worker-lease operation under a writer's. *)
Definition lease_op (op : WriterOp) : LeaseOp :=
  match op with
  | TakeRepo q => Acquire (issued_row q)
  | Release l at_ => Upsert (finished_row l at_ "completed" None "workspace released")
  | Revoke l at_ code reason => Upsert (finished_row l at_ "revoked" (Some code) reason)
  end.

Lemma run_writer_ops_eq ops : ∀ d, run_writer_ops ops d = run_ops (map lease_op ops) d.
Proof.
  induction ops as [|op ops IH]; intros d; [done|]. simpl. rewrite <- IH. f_equal.
  destruct op as [q|l at_|l at_ code reason]; simpl;
    unfold acquire_writer_lease, release_writer_lease, revoke_writer_lease, finish_writer_lease.
  - by destruct (try_acquire_worker_lease _ _) as [d' [[held|]|e]].
  - by destruct (upsert_worker_lease _ _) as [d' [[]|e]].
  - by destruct (upsert_worker_lease _ _) as [d' [[]|e]].
Qed.
End leases.

Section exclusion.
Context `{JsonTextLaws, Rfc3339, HashOrder}.
Context {torn_laws : JsonTornLaws}.

(** The operations that end the hold [q0] took: its own end, another
    acquisition under its lease id, or one of its repository after it expired. *)
Definition ends_hold (q0 : WriterRequest) (op : WriterOp) : Prop :=
  match op with
  | TakeRepo q =>
      wq_lease_id q = wq_lease_id q0 ∨
      wq_repo_root q = wq_repo_root q0 ∧ expired_by (issued_row q0) (issued_row q)
  | Release l _ | Revoke l _ _ _ => wr_lease_id l = wq_lease_id q0
  end.

Lemma capability_for_inj r r' : capability_for r = capability_for r' → r = r'.
Proof. unfold capability_for. intros Hc. apply (inj (String.append "workspace.write:")) in Hc. done. Qed.

Lemma releases_ends_hold q0 op : releases (issued_row q0) (lease_op op) → ends_hold q0 op.
Proof.
  destruct op as [q|l at_|l at_ code reason]; simpl.
  - intros [Hid|(l & [= <-] & Hcap%capability_for_inj & Hexp)]; [by left|by right].
  - by intros [Hid|(l' & ? & _)].
  - by intros [Hid|(l' & ? & _)].
Qed.

Lemma acquired_granted q d d' w :
  acquire_writer_lease q d = (d', Ok w) →
  try_acquire_worker_lease (issued_row q) d = (d', Ok None) ∧ w = granted_lease q.
Proof.
  unfold acquire_writer_lease. destruct (try_acquire_worker_lease _ _) as [d1 [[held|]|e]];
    intros Heq; simplify_eq. done.
Qed.

(** The holder a refusal names. *)
Lemma acquire_held q d d' holder :
  try_acquire_worker_lease (issued_row q) d = (d', Ok (Some holder)) →
  d' = d ∧ lease_view d !! wl_lease_id holder = Some holder ∧ lease_live holder = true ∧
  wl_capability holder = capability_for (wq_repo_root q).
Proof.
  unfold try_acquire_worker_lease.
  destruct (negb _); [done|]. destruct (parse_rfc3339 _) as [a|]; [|done].
  destruct (parse_rfc3339 _) as [e|]; [|done]. case_bool_decide; [done|].
  destruct (match as_fault _ with LockFault => true | _ => false end); [done|].
  destruct (0 <? _)%nat; [done|].
  assert (∀ cs expired h ex, scan_candidates a cs expired = Ok (Some h, ex) → h ∈ cs) as Hin.
  { induction cs as [|c cs IH]; intros expired h ex; simpl; [done|].
    destruct (parse_rfc3339 _) as [e'|]; [|done]. case_bool_decide.
    - intros [= -> _]. by left.
    - intros Hs. right. by eapply IH. }
  destruct (scan_candidates _ _ _) as [[[h|] ex]|err] eqn:Hs; intros Heq; [|..].
  - injection Heq as <- <-. apply Hin, live_candidates_elem in Hs as (Hv & Hc & Hl). done.
  - destruct (append_leases _ _) as [d1 [|]]; [|done].
    by destruct (append_locked _ _ _) as [d2 [|]].
  - done.
Qed.

(** One Work writes a repository at a time.  On a lease stream this code wrote,
    torn or not: once a Work has taken a repository, and whatever Works take,
    release or revoke afterwards, another taking of it is granted only if in
    between (or by that very request, after its expiry) the first hold was
    ended; a refusal writes nothing and names the Work of a live hold on that
    repository; and a hold that was granted records the Work, the worker and
    the installation it was asked for. *)
Theorem one_writer_per_repository (q0 q : WriterRequest) (ops : list WriterOp)
    (d d1 d2 : EvidenceDir) (w0 : WriterLease) (r : result LeaseError WriterLease) :
  stream_written (stream_file d worker_leases) →
  acquire_writer_lease q0 d = (d1, Ok w0) →
  wq_repo_root q = wq_repo_root q0 →
  acquire_writer_lease q (run_writer_ops ops d1) = (d2, r) →
  w0 = granted_lease q0 ∧
  match r with
  | Ok w => w = granted_lease q ∧ ∃ op, op ∈ ops ++ [TakeRepo q] ∧ ends_hold q0 op
  | Err (LeaseHeld repo held_by) =>
      repo = wq_repo_root q ∧ d2 = run_writer_ops ops d1 ∧
      ∃ holder, lease_view d2 !! wl_lease_id holder = Some holder ∧ lease_live holder = true ∧
        wl_capability holder = capability_for repo ∧ wl_task_id holder = held_by
  | Err (EvidenceError _) => True
  end.
Proof.
  intros Hw (Hfirst & ->)%acquired_granted Hrepo Hsecond. split; [done|].
  rewrite run_writer_ops_eq in *. destruct r as [w|[repo held_by|reason]]; [| |done].
  - apply acquired_granted in Hsecond as [Hsecond ->]. split; [done|].
    destruct (decide (Exists (releases (issued_row q0)) (map lease_op (ops ++ [TakeRepo q]))))
      as [(lop & (op & -> & Hop)%list_elem_of_fmap & Hrel)%Exists_exists|Hno].
    { exists op. split; [done|]. by apply releases_ends_hold. }
    exfalso. rewrite map_app in Hno. apply Forall_Exists_neg, Forall_app in Hno as [Hno [Hl _]%Forall_cons_iff].
    assert (wl_capability (issued_row q) = wl_capability (issued_row q0)) as Hcap by (simpl; by rewrite Hrepo).
    apply Hl. right. exists (issued_row q). split_and!; [done|done|].
    eapply standing_blocks; [|exact Hsecond|done]. apply standing_run; [by eapply granted_stands|done].
  - unfold acquire_writer_lease in Hsecond.
    destruct (try_acquire_worker_lease (issued_row q) _) as [d3 [[held|]|e]] eqn:Ht; simplify_eq.
    apply acquire_held in Ht as (-> & Hv & Hlive & Hcap). split_and!; [done|done|]. by exists held.
Qed.
End exclusion.
