(* ===== verification/Scope.v ===== *)
(** * Path containment (crates/heiwa_workspace/src/scope.rs)

    A path is its list of [std::path::Component]s, so two spellings that
    [Path] compares equal are one value here.  A file system is a finite map
    from real locations to what is there, symbolic links included, and
    [canonicalize] follows them as realpath does. *)

From stdpp Require Import base gmap sets strings list.
From S2P Require Import Prelude.

(** ** Paths *)

Inductive PathComponent : Type := RootDir | CurDir | ParentDir | Normal (name : string).

#[export] Instance component_eq_dec : EqDecision PathComponent.
Proof. solve_decision. Defined.

Definition Path : Type := list PathComponent.

(** A location: the names from the root to it. *)
Definition Location : Type := list string.

(** The path that spells a location. *)
Definition location_path (l : Location) : Path := RootDir :: map Normal l.

(** [Path::parent] *)
Definition path_parent (p : Path) : option Path :=
  match reverse p with
  | [] | RootDir :: _ => None
  | _ :: rest => Some (reverse rest)
  end.

(** [Path::file_name] *)
Definition path_file_name (p : Path) : option string :=
  match reverse p with Normal n :: _ => Some n | _ => None end.

(** [Path::starts_with], on the locations of two canonical paths. *)
Definition starts_with_location (l base : Location) : bool := bool_decide (base `prefix_of` l).

(** ** A file system with symbolic links *)

Inductive Node : Type := Directory | RegularFile | Symlink (target : Path).

#[export] Instance node_eq_dec : EqDecision Node.
Proof. solve_decision. Defined.

Record FileSystem : Type := mkFs {
  fs_nodes : gmap Location Node;
  fs_cwd : Location;
}.

Definition parent_location (l : Location) : Location := removelast l.

(** One walk from [cur], which is a directory, along [todo]; [links] bounds the
    symbolic links followed, as the kernel bounds them. *)
Fixpoint walk (nodes : gmap Location Node) (links : nat) {struct links} : Location → Path → option Location :=
  fix along (cur : Location) (todo : Path) {struct todo} : option Location :=
    match todo with
    | [] => Some cur
    | RootDir :: rest => along [] rest
    | CurDir :: rest => along cur rest
    | ParentDir :: rest => along (parent_location cur) rest
    | Normal name :: rest =>
        match nodes !! (cur ++ [name]) with
        | None => None
        | Some Directory => along (cur ++ [name]) rest
        | Some RegularFile => if bool_decide (rest = []) then Some (cur ++ [name]) else None
        | Some (Symlink target) =>
            match links with
            | O => None
            | S links' => walk nodes links' cur (target ++ rest)
            end
        end
    end.

Definition MAX_SYMLINKS : nat := 40.

(** [fs::canonicalize]: the empty path names nothing. *)
Definition canonicalize (fs : FileSystem) (p : Path) : option Location :=
  match p with
  | [] => None
  | _ => walk (fs_nodes fs) MAX_SYMLINKS (fs_cwd fs) p
  end.

(** ** scope.rs *)

Inductive PathEscape : Type := mkEscape (root path : Path).

(** The loop over ancestors: [cursor] is what is left of the path, and
    [trailing] the names taken off it, innermost last. *)
Fixpoint climb (fs : FileSystem) (fuel : nat) (cursor : Path) (trailing : list string) : option Location :=
  match fuel with
  | O => None
  | S fuel' =>
      match path_parent cursor, path_file_name cursor with
      | Some parent, Some name =>
          match canonicalize fs parent with
          | Some resolved => Some (resolved ++ name :: trailing)
          | None => climb fs fuel' parent (name :: trailing)
          end
      | _, _ => None
      end
  end.

Definition canonicalize_existing_prefix (fs : FileSystem) (p : Path) : option Location :=
  match canonicalize fs p with
  | Some resolved => Some resolved
  | None => climb fs (S (length p)) p []
  end.

Definition resolve_in_scope (fs : FileSystem) (root candidate : Path) : result PathEscape Location :=
  match canonicalize fs root with
  | None => Err (mkEscape root candidate)
  | Some canonical_root =>
      match canonicalize_existing_prefix fs candidate with
      | None => Err (mkEscape root candidate)
      | Some resolved =>
          if starts_with_location resolved canonical_root then Ok resolved
          else Err (mkEscape root candidate)
      end
  end.

(** ** Real locations *)

(** Every directory on the way to [l] is a directory, not a link to one. *)
Definition real_directory (nodes : gmap Location Node) (l : Location) : Prop :=
  ∀ k, k `prefix_of` l → k ≠ [] → nodes !! k = Some Directory.

(** [l] is where it says it is: no link on the way, and something there. *)
Definition real_location (nodes : gmap Location Node) (l : Location) : Prop :=
  real_directory nodes l ∨
  real_directory nodes (parent_location l) ∧ nodes !! l = Some RegularFile.

(** The current directory is one, and whatever is somewhere is in a directory. *)
Record fs_wf (fs : FileSystem) : Prop := mkFsWf {
  wf_cwd : real_directory (fs_nodes fs) (fs_cwd fs);
  wf_tree : ∀ l n, is_Some (fs_nodes fs !! (l ++ [n])) → l = [] ∨ fs_nodes fs !! l = Some Directory;
}.

Lemma real_directory_nil nodes : real_directory nodes [].
Proof. intros k Hk Hne. by apply prefix_nil_inv in Hk. Qed.

Lemma real_directory_snoc nodes l n :
  real_directory nodes (l ++ [n]) ↔ real_directory nodes l ∧ nodes !! (l ++ [n]) = Some Directory.
Proof.
  split.
  - intros Hr. split; [|apply Hr; [done|by destruct l]].
    intros k Hk. apply Hr. etrans; [exact Hk|]. by eexists.
  - intros [Hr Hn] k [rest Hk] Hne.
    destruct rest as [|c rest _] using rev_ind; [rewrite app_nil_r in Hk; by subst k|].
    rewrite app_assoc in Hk. apply app_inj_tail in Hk as [-> _]. apply Hr; [by eexists|done].
Qed.

Lemma real_directory_parent nodes l : real_directory nodes l → real_directory nodes (parent_location l).
Proof.
  unfold parent_location. destruct l as [|c l _] using rev_ind; [done|].
  rewrite removelast_last. by intros [? _]%real_directory_snoc.
Qed.

(** What canonicalization returns is real. *)
Lemma walk_real nodes links : ∀ cur todo l,
  real_directory nodes cur → walk nodes links cur todo = Some l → real_location nodes l.
Proof.
  induction links as [|links IHl]; intros cur todo; revert cur;
    (induction todo as [|c todo IH]; intros cur l Hcur; simpl; [intros [= <-]; by left|]);
    (destruct c as [| | |n]; [apply IH, real_directory_nil|by apply IH|by apply IH, real_directory_parent|]);
    (destruct (nodes !! (cur ++ [n])) as [[| |t]|] eqn:Hn; [..|done]).
  all: try by (apply IH; apply real_directory_snoc).
  all: try by (case_bool_decide; [intros [= <-]; right; unfold parent_location;
    rewrite removelast_last|]).
  - done.
  - by apply IHl.
Qed.

Lemma canonicalize_real fs p l : fs_wf fs → canonicalize fs p = Some l → real_location (fs_nodes fs) l.
Proof. intros [Hwf _]. unfold canonicalize. destruct p; [done|]. by apply walk_real. Qed.

(** A walk along real names follows no link. *)
Lemma walk_names nodes links names : ∀ cur,
  real_location nodes (cur ++ names) → walk nodes links cur (map Normal names) = Some (cur ++ names).
Proof.
  induction names as [|n names IH]; intros cur Hr.
  { rewrite app_nil_r. by destruct links. }
  assert (nodes !! (cur ++ [n]) = Some Directory ∨ names = [] ∧ nodes !! (cur ++ [n]) = Some RegularFile) as Hnode.
  { replace (cur ++ n :: names) with ((cur ++ [n]) ++ names) in Hr by by rewrite <- app_assoc.
    destruct Hr as [Hr|[Hr Hf]]; [left; apply Hr; [by eexists|by destruct cur]|].
    destruct names as [|m names _] using rev_ind; [right; by rewrite app_nil_r in Hf|left].
    unfold parent_location in Hr. rewrite app_assoc, removelast_last in Hr.
    apply Hr; [by eexists|by destruct cur]. }
  replace (cur ++ n :: names) with ((cur ++ [n]) ++ names) in * by by rewrite <- app_assoc.
  destruct links; simpl; destruct Hnode as [->|[-> ->]]; simpl; try (by apply IH); by rewrite app_nil_r.
Qed.

(** A location that is real is its own canonical form. *)
Lemma canonicalize_location fs l : real_location (fs_nodes fs) l → canonicalize fs (location_path l) = Some l.
Proof. intros Hr. unfold canonicalize, location_path. exact (walk_names _ MAX_SYMLINKS l [] Hr). Qed.

(** Creating files and directories changes no walk that succeeded. *)
Lemma walk_mono nodes nodes' links : nodes ⊆ nodes' → ∀ cur todo l,
  walk nodes links cur todo = Some l → walk nodes' links cur todo = Some l.
Proof.
  intros Hsub. induction links as [|links IHl]; intros cur todo; revert cur;
    (induction todo as [|c todo IH]; intros cur l; simpl; [done|]);
    (destruct c as [| | |n]; [apply IH..|]);
    (destruct (nodes !! (cur ++ [n])) as [node|] eqn:Hn; [|done]);
    (assert (nodes' !! (cur ++ [n]) = Some node) as -> by (eapply lookup_weaken; done));
    destruct node as [| |t]; first [apply IH|apply IHl|done].
Qed.

(** A walk along a path and more, over a directory it reaches. *)
Lemma walk_app nodes links : ∀ cur todo l names,
  walk nodes links cur todo = Some l → real_location nodes (l ++ names) → names ≠ [] →
  walk nodes links cur (todo ++ map Normal names) = Some (l ++ names).
Proof.
  induction links as [|links IHl]; intros cur todo; revert cur;
    (induction todo as [|c todo IH]; intros cur l names; [intros [= <-] Hr _; by apply walk_names|]);
    simpl; intros Hw Hr Hne;
    (destruct c as [| | |n]; [by apply IH..|]);
    (destruct (nodes !! (cur ++ [n])) as [[| |t]|] eqn:Hn; [by apply IH| |..]); try done.
  3: { rewrite app_assoc. by apply IHl. }
  all: case_bool_decide; [|done]; injection Hw as <-; exfalso;
    assert (nodes !! (cur ++ [n]) = Some Directory) as Hd; [|congruence];
    (destruct Hr as [Hr|[Hr _]]; apply Hr; [by eexists|by destruct cur| |by destruct cur]);
    destruct names as [|m names _] using rev_ind; [done|]; unfold parent_location;
    rewrite app_assoc, removelast_last; by eexists.
Qed.

(** ** Where a path lands *)

(** [l] is where [p] lands: it resolves there, or it names something that does
    not exist: its beginning [base] resolves, nothing at all, not even a link,
    is where the next name would be, and only names follow. *)
Definition lands (fs : FileSystem) (p : Path) (l : Location) : Prop :=
  canonicalize fs p = Some l ∨
  ∃ base b n names,
    p = base ++ map Normal (n :: names) ∧ canonicalize fs base = Some b ∧
    fs_nodes fs !! (b ++ [n]) = None ∧ l = b ++ n :: names.

(** A link on the way of [p] that leads nowhere: it is there, and does not
    resolve. *)
Definition dangles_at (fs : FileSystem) (p : Path) (i : nat) : bool :=
  match canonicalize fs (take i p), p !! i with
  | Some b, Some (Normal n) =>
      match fs_nodes fs !! (b ++ [n]) with
      | Some (Symlink _) => bool_decide (canonicalize fs (take (S i) p) = None)
      | _ => false
      end
  | _, _ => false
  end.

Definition dangles (fs : FileSystem) (p : Path) : bool := existsb (dangles_at fs p) (seq 0 (length p)).

(** Where the loop over ancestors ends: at the longest beginning that
    resolves, whatever is under the next name. *)
Definition settles (fs : FileSystem) (p : Path) (l : Location) : Prop :=
  canonicalize fs p = Some l ∨
  ∃ base b n names,
    p = base ++ map Normal (n :: names) ∧ canonicalize fs base = Some b ∧
    canonicalize fs (base ++ [Normal n]) = None ∧ l = b ++ n :: names.

Lemma split_last (p parent : Path) (n : string) :
  path_parent p = Some parent → path_file_name p = Some n → p = parent ++ [Normal n].
Proof.
  unfold path_parent, path_file_name. intros Hp Hn.
  destruct p as [|c p _] using rev_ind; [done|]. rewrite reverse_snoc in *. destruct c; simplify_eq.
  by rewrite reverse_involutive.
Qed.

Lemma parent_snoc (p : Path) n :
  path_parent (p ++ [Normal n]) = Some p ∧ path_file_name (p ++ [Normal n]) = Some n.
Proof. unfold path_parent, path_file_name. rewrite reverse_snoc. by rewrite reverse_involutive. Qed.

Lemma climb_settles fs fuel : ∀ cursor trailing l,
  canonicalize fs cursor = None → climb fs fuel cursor trailing = Some l →
  settles fs (cursor ++ map Normal trailing) l.
Proof.
  induction fuel as [|fuel IH]; intros cursor trailing l Hnone; simpl; [done|].
  destruct (path_parent cursor) as [parent|] eqn:Hp; [|done].
  destruct (path_file_name cursor) as [n|] eqn:Hn; [|done].
  assert (cursor = parent ++ [Normal n]) as -> by by apply split_last.
  rewrite <- app_assoc. destruct (canonicalize fs parent) as [b|] eqn:Hb.
  - intros [= <-]. right. by exists parent, b, n, trailing.
  - apply IH. done.
Qed.

Lemma climb_stops fs fuel : ∀ cursor trailing,
  length cursor < fuel → climb fs fuel cursor trailing = None →
  ∀ base n names, cursor = base ++ map Normal (n :: names) → canonicalize fs base = None.
Proof.
  induction fuel as [|fuel IH]; intros cursor trailing Hfuel Hclimb base n names ->; [lia|].
  assert (∃ p m, base ++ map Normal (n :: names) = p ++ [Normal m] ∧
    (names = [] ∧ p = base ∨ ∃ names', names = names' ++ [m] ∧ p = base ++ map Normal (n :: names')))
    as (p & m & Heq & Hcase).
  { destruct names as [|m names _] using rev_ind; [exists base, n; split; [done|by left]|].
    exists (base ++ map Normal (n :: names)), m. split; [|right; by exists names].
    simpl. rewrite map_app. simpl. by rewrite <- app_assoc. }
  rewrite Heq in *. rewrite length_app in Hfuel. simpl in Hfuel, Hclimb.
  destruct (parent_snoc p m) as [Hpar Hname]. rewrite Hpar, Hname in Hclimb.
  destruct (canonicalize fs p) eqn:Hc; [done|].
  destruct Hcase as [[-> ->]|(names' & -> & Hp)]; [done|]. by eapply IH; [..|exact Hclimb|exact Hp]; lia.
Qed.

Lemma existing_prefix_settles fs p l :
  canonicalize_existing_prefix fs p = Some l → settles fs p l.
Proof.
  unfold canonicalize_existing_prefix. destruct (canonicalize fs p) as [r|] eqn:Hc.
  - intros [= ->]. by left.
  - intros Hclimb%climb_settles; [|done]. by rewrite app_nil_r in Hclimb.
Qed.

Lemma existing_prefix_none fs p l :
  canonicalize_existing_prefix fs p = None → ¬ settles fs p l.
Proof.
  unfold canonicalize_existing_prefix. destruct (canonicalize fs p) as [r|] eqn:Hc; [done|].
  intros Hclimb [Hl|(base & b & n & names & -> & Hb & _)]; [by rewrite Hc in Hl|].
  pose proof (climb_stops fs _ _ _ (Nat.lt_succ_diag_r _) Hclimb base n names eq_refl). congruence.
Qed.

(** A file system that grew: nothing is gone, and nothing is somewhere else. *)
Definition grown (fs fs' : FileSystem) : Prop :=
  fs_nodes fs ⊆ fs_nodes fs' ∧ fs_cwd fs = fs_cwd fs'.

(** Once what [p] names is there, [p] resolves to where it settled. *)
Lemma settles_later fs fs' p l :
  grown fs fs' → settles fs p l → real_location (fs_nodes fs') l → canonicalize fs' p = Some l.
Proof.
  intros [Hsub Hcwd] Hl Hreal. unfold canonicalize in *. rewrite <- Hcwd.
  destruct Hl as [Hl|(base & b & n & names & -> & Hb & _ & ->)].
  - destruct p; [done|]. by eapply walk_mono.
  - destruct base as [|c base]; [done|]. unfold canonicalize in Hb.
    change ((c :: base) ++ map Normal (n :: names)) with (c :: (base ++ map Normal (n :: names))).
    apply (walk_mono _ _ _ Hsub) in Hb.
    exact (walk_app _ _ _ (c :: base) b (n :: names) Hb Hreal ltac:(done)).
Qed.

(** A walk that succeeds, succeeds on every beginning of its path. *)
Lemma walk_beginning nodes links : ∀ cur xs ys l,
  walk nodes links cur (xs ++ ys) = Some l → is_Some (walk nodes links cur xs).
Proof.
  induction links as [|links IHl]; intros cur xs; revert cur;
    (induction xs as [|c xs IH]; intros cur ys l; simpl; [done|]);
    (destruct c as [| | |n]; [apply IH..|]);
    (destruct (nodes !! (cur ++ [n])) as [[| |t]|]; [apply IH| |..]); try done.
  3: { rewrite app_assoc. apply IHl. }
  all: case_bool_decide as Hrest; [|done]; apply app_eq_nil in Hrest as [-> _]; by rewrite bool_decide_true.
Qed.

Lemma canonicalize_beginning fs xs ys :
  xs ≠ [] → is_Some (canonicalize fs (xs ++ ys)) → is_Some (canonicalize fs xs).
Proof. intros Hne [l Hl]. destruct xs as [|c xs]; [done|]. exact (walk_beginning _ _ _ (c :: xs) ys l Hl). Qed.

Lemma map_normal_inj names : ∀ names', map Normal names = map Normal names' → names = names'.
Proof. induction names as [|n names IH]; intros [|n' names']; simpl; try done. intros [= -> ?]. f_equal. by apply IH. Qed.

(** Two ways to cut the same path before its last names. *)
Lemma cut_compare (base base' : Path) n names n' names' :
  base ++ map Normal (n :: names) = base' ++ map Normal (n' :: names') →
  base = base' ∧ n = n' ∧ names = names' ∨
  (∃ k, base' = base ++ [Normal n] ++ k) ∨ (∃ k, base = base' ++ [Normal n'] ++ k).
Proof.
  intros Heq. apply app_eq_app in Heq as (k & [[-> Hk]|[-> Hk]]); destruct k as [|c k].
  - left. rewrite app_nil_r. simpl in Hk. injection Hk as <- Hk.
    split_and!; [done..|]. by apply map_normal_inj.
  - right. right. simpl in Hk. injection Hk as <- Hk. by exists k.
  - left. rewrite app_nil_r. simpl in Hk. injection Hk as <- Hk.
    split_and!; [done..|]. by apply map_normal_inj.
  - right. left. simpl in Hk. injection Hk as <- Hk. by exists k.
Qed.

(** A path settles in one place. *)
Lemma settles_unique fs p l l' : settles fs p l → settles fs p l' → l = l'.
Proof.
  assert (∀ base n k, canonicalize fs (base ++ [Normal n]) = None → ¬ is_Some (canonicalize fs (base ++ [Normal n] ++ k))) as Hstop.
  { intros base n k Hnone Hs. rewrite app_assoc in Hs. apply canonicalize_beginning in Hs; [|by destruct base].
    rewrite Hnone in Hs. by destruct Hs. }
  intros [Hl|(base & b & n & names & -> & Hb & Hn & ->)] [Hl'|(base' & b' & n' & names' & Hp & Hb' & Hn' & ->)].
  - congruence.
  - subst p. destruct (Hstop base' n' (map Normal names') Hn'). by exists l.
  - destruct (Hstop base n (map Normal names) Hn). by exists l'.
  - apply cut_compare in Hp as [(<- & <- & <-)|[[k ->]|[k ->]]].
    + congruence.
    + destruct (Hstop base n k Hn). by exists b'.
    + destruct (Hstop base' n' k Hn'). by exists b.
Qed.

Lemma existing_prefix_iff fs p l : canonicalize_existing_prefix fs p = Some l ↔ settles fs p l.
Proof.
  split; [apply existing_prefix_settles|]. intros Hl.
  destruct (canonicalize_existing_prefix fs p) as [l'|] eqn:Hp.
  - apply existing_prefix_settles in Hp. f_equal. by eapply settles_unique.
  - by destruct (existing_prefix_none _ _ l Hp).
Qed.

(** A name that is nowhere does not resolve. *)
Lemma walk_stops nodes n links : ∀ cur todo b,
  walk nodes links cur todo = Some b → nodes !! (b ++ [n]) = None → walk nodes links cur (todo ++ [Normal n]) = None.
Proof.
  induction links as [|links IHl]; intros cur todo; revert cur;
    (induction todo as [|c todo IH]; intros cur b; simpl; [intros [= <-] ->; done|]);
    intros Hw Hn;
    (destruct c as [| | |m]; [by eapply IH..|]);
    (destruct (nodes !! (cur ++ [m])) as [[| |t]|] eqn:Hm; [by eapply IH| |..]); try done.
  3: { rewrite app_assoc. by eapply IHl. }
  all: rewrite bool_decide_false by (by destruct todo); done.
Qed.

Lemma canonicalize_stops fs base b n :
  canonicalize fs base = Some b → fs_nodes fs !! (b ++ [n]) = None → canonicalize fs (base ++ [Normal n]) = None.
Proof. unfold canonicalize. destruct base as [|c base]; [done|]. apply (walk_stops _ _ _ _ (c :: base)). Qed.

(** A file or a directory that is there resolves to where it is. *)
Lemma canonicalize_child fs base b n node :
  fs_wf fs → canonicalize fs base = Some b → fs_nodes fs !! (b ++ [n]) = Some node →
  node = Directory ∨ node = RegularFile → canonicalize fs (base ++ [Normal n]) = Some (b ++ [n]).
Proof.
  intros Hwf Hb Hn Hnode. assert (real_directory (fs_nodes fs) b) as Hr.
  { destruct (canonicalize_real _ _ _ Hwf Hb) as [Hr|[_ Hf]]; [done|].
    assert (b = [] ∨ fs_nodes fs !! b = Some Directory) as [->|Hdir] by (by apply (wf_tree _ Hwf b n); eexists).
    - apply real_directory_nil.
    - congruence. }
  unfold canonicalize in *. destruct base as [|c base]; [done|].
  refine (walk_app _ _ _ (c :: base) b [n] Hb _ ltac:(done)).
  destruct Hnode as [->| ->]; [left; by apply real_directory_snoc|right].
  unfold parent_location. by rewrite removelast_last.
Qed.

(** Where no link dangles, a path settles where it lands. *)
Lemma settles_lands fs p l : fs_wf fs → dangles fs p = false → settles fs p l ↔ lands fs p l.
Proof.
  intros Hwf Hd. split; (intros [Hl|(base & b & n & names & -> & Hb & Hn & ->)]; [by left|]; right; exists base, b, n, names).
  - split_and!; try done. destruct (fs_nodes fs !! (b ++ [n])) as [node|] eqn:Hnode; [|done]. exfalso.
    destruct node as [| |t]; [by rewrite (canonicalize_child _ _ _ _ _ Hwf Hb Hnode) in Hn by auto..|].
    assert (dangles fs (base ++ map Normal (n :: names)) = true) as Ht; [|congruence].
    apply existsb_exists. exists (length base). split.
    { apply in_seq. rewrite length_app. simpl. lia. }
    cbn [map]. unfold dangles_at, Path. rewrite take_app_length, Hb, list_lookup_middle by done. rewrite Hnode.
    apply bool_decide_eq_true. replace (S (length base)) with (length (base ++ [Normal n])) by (rewrite length_app; simpl; lia).
    change (Normal n :: map Normal names) with ([Normal n] ++ map Normal names). by rewrite app_assoc, take_app_length.
  - split_and!; try done. by eapply canonicalize_stops.
Qed.

(** C38. A path is granted exactly when it lands inside the root, as long as no
    link on its way dangles (is there and does not resolve): it resolves there,
    or its resolving beginning does and only names follow of which the first is
    nowhere.  The canonical root is a real location, and what is granted is
    where the path resolves, or will once that location exists as a file or a
    directory, whatever else is created meanwhile.  A refusal, of any path,
    names the two paths it was asked about. *)
Theorem scope_is_where_it_lands (fs : FileSystem) (root candidate : Path) :
  fs_wf fs → dangles fs candidate = false →
  (∀ l, resolve_in_scope fs root candidate = Ok l ↔
    ∃ r, canonicalize fs root = Some r ∧ real_location (fs_nodes fs) r ∧
      lands fs candidate l ∧ r `prefix_of` l) ∧
  (∀ l fs', resolve_in_scope fs root candidate = Ok l → grown fs fs' →
    real_location (fs_nodes fs') l → canonicalize fs' candidate = Some l) ∧
  (∀ path e, resolve_in_scope fs root path = Err e → e = mkEscape root path).
Proof.
  intros Hwf Hd.
  assert (∀ l, resolve_in_scope fs root candidate = Ok l ↔
    ∃ r, canonicalize fs root = Some r ∧ settles fs candidate l ∧ r `prefix_of` l) as Hok.
  { intros l. unfold resolve_in_scope, starts_with_location.
    destruct (canonicalize fs root) as [r|]; [|by split; [|intros (? & ? & _)]].
    destruct (canonicalize_existing_prefix fs candidate) as [l'|] eqn:Hc.
    - apply existing_prefix_iff in Hc. case_bool_decide as Hpre.
      + split; [intros [= <-]; by exists r|intros (r' & [= <-] & Hl & _)]. f_equal. by eapply settles_unique.
      + split; [done|intros (r' & [= <-] & Hl & Hin)]. destruct Hpre. by rewrite (settles_unique _ _ _ _ Hc Hl).
    - split; [done|intros (_ & _ & Hl%existing_prefix_iff & _)]. by rewrite Hc in Hl. }
  split_and!.
  - intros l. rewrite Hok. setoid_rewrite (settles_lands _ _ _ Hwf Hd). split; [|naive_solver].
    intros (r & Hr & Hl & Hin). exists r. split_and!; [done| |done..]. by eapply canonicalize_real.
  - intros l fs' (_ & _ & Hl & _)%Hok Hgrown Hreal. by eapply settles_later.
  - intros path e. unfold resolve_in_scope. repeat case_match; naive_solver.
Qed.

(** ** Examples *)

(** /work/root is real; /work/root/link points at /elsewhere/new, which does
    not exist yet. *)
Definition dangling : FileSystem :=
  mkFs {[["work"] := Directory; ["work"; "root"] := Directory; ["elsewhere"] := Directory;
         ["work"; "root"; "link"] := Symlink [RootDir; Normal "elsewhere"; Normal "new"]]} [].

Definition dangling_root : Path := [RootDir; Normal "work"; Normal "root"].
Definition dangling_candidate : Path := dangling_root ++ [Normal "link"].

(** The name of a dangling link is granted as a new name under the root; what
    is then created through it is outside. *)
Example dangling_link_escapes :
  dangles dangling dangling_candidate = true ∧
  resolve_in_scope dangling dangling_root dangling_candidate = Ok ["work"; "root"; "link"] ∧
  let created := mkFs (<[["elsewhere"; "new"] := RegularFile]> (fs_nodes dangling)) [] in
  canonicalize created dangling_candidate = Some ["elsewhere"; "new"].
Proof. by vm_compute. Qed.

Lemma dangling_wf : fs_wf dangling.
Proof.
  split; [apply real_directory_nil|]. intros l n [node Hn].
  assert ((l ++ [n], node) ∈ map_to_list (fs_nodes dangling)) as Hin by (by apply elem_of_map_to_list).
  assert (∀ kn, kn ∈ map_to_list (fs_nodes dangling) →
    removelast kn.1 = [] ∨ fs_nodes dangling !! removelast kn.1 = Some Directory) as Hall.
  { apply Forall_forall, (bool_decide_unpack _). vm_compute. exact I. }
  specialize (Hall _ Hin). simpl in Hall. by rewrite removelast_last in Hall.
Qed.

(** A new name under the root, before and after it is created. *)
Lemma scope_is_where_it_lands_witness :
  resolve_in_scope dangling dangling_root (dangling_root ++ [Normal "new"]) = Ok ["work"; "root"; "new"] ∧
  canonicalize (mkFs (<[["work"; "root"; "new"] := Directory]> (fs_nodes dangling)) [])
    (dangling_root ++ [Normal "new"]) = Some ["work"; "root"; "new"].
Proof.
  assert (dangles dangling (dangling_root ++ [Normal "new"]) = false) as Hd by (vm_compute; reflexivity).
  pose proof (scope_is_where_it_lands dangling dangling_root (dangling_root ++ [Normal "new"]) dangling_wf Hd)
    as (Hok & Hlater & _).
  assert (resolve_in_scope dangling dangling_root (dangling_root ++ [Normal "new"]) = Ok ["work"; "root"; "new"])
    as Hr by (vm_compute; reflexivity).
  split; [exact Hr|]. apply (Hlater _ _ Hr).
  - split; [|reflexivity]. apply insert_subseteq. vm_compute. reflexivity.
  - left. apply (real_directory_snoc _ ["work"; "root"] "new"). split; [|vm_compute; reflexivity].
    apply (real_directory_snoc _ ["work"] "root"). split; [|vm_compute; reflexivity].
    apply (real_directory_snoc _ [] "work"). split; [apply real_directory_nil|vm_compute; reflexivity].
Defined.
