(* ===== verification/Git.v ===== *)
(** * The git boundary (crates/heiwa_workspace/src/git.rs and repository.rs)

    Running git is a parameter of the model; the guard in front of it, the
    reading of its output and the recorded snapshot are the code's. *)

From stdpp Require Import base gmap sets strings numbers list.
From Stdlib Require Import Ascii.
From S2P Require Import Prelude Utf8 Sensitive Framing.
#[local] Open Scope Z_scope.

(** ** git.rs *)

Definition text (b : bytes) : string := String.string_of_list_ascii b.

(** How a process ended. *)
Inductive ProcessOutput : Type :=
| NotStarted (source : string)
| Exited (success : bool) (stdout stderr : bytes).

(** The world git acts on, and one git command in a directory. *)
Class GitProcess : Type := {
  git_world : Type;
  git_command : string → list string → git_world → git_world * ProcessOutput;
}.

Inductive GitError : Type :=
| Unavailable (dir source : string)
| GitFailed (dir args stderr : string)
| Refused (dir args : string).

Definition join_args (args : list string) : string := String.concat " " args.

Definition discards_uncommitted_work (args : list string) : bool :=
  match args with
  | [] => false
  | command :: rest =>
      if bool_decide (command = "reset") then bool_decide ("--hard" ∈ rest)
      else if bool_decide (command = "checkout") then bool_decide ("-f" ∈ rest) || bool_decide ("--force" ∈ rest)
      else bool_decide (command ∈ ["stash"; "clean"; "restore"])
  end.

(** [String::from_utf8_lossy(..).trim().to_string()] *)
Definition trimmed_text (b : bytes) : string := text (trim_bytes (utf8_lossy b)).

Definition git `{GitProcess} (dir : string) (args : list string) (w : git_world)
    : git_world * result GitError string :=
  if discards_uncommitted_work args then (w, Err (Refused dir (join_args args)))
  else match git_command dir args w with
       | (w', NotStarted source) => (w', Err (Unavailable dir source))
       | (w', Exited false _ stderr) => (w', Err (GitFailed dir (join_args args) (trimmed_text stderr)))
       | (w', Exited true stdout _) => (w', Ok (trimmed_text stdout))
       end.

(** ** repository.rs *)

Definition REPOSITORY_SNAPSHOT_VERSION : Z := 1.

Record RepositorySnapshotV1 : Type := mkRepository {
  rs_version : Z;
  rs_root : string;
  rs_branch : option string;
  rs_head : string;
  rs_remote : option string;
  rs_dirty : bool;
  rs_dirty_paths : list string;
}.

(** [split_once(char::is_whitespace)] *)
Fixpoint split_once_whitespace (s : bytes) : option (bytes * bytes) :=
  match strip_first whitespace s, s with
  | Some r, _ => Some ([], r)
  | None, [] => None
  | None, a :: s' => match split_once_whitespace s' with Some (x, y) => Some (a :: x, y) | None => None end
  end.

(** [split_once] of a nonempty pattern. *)
Fixpoint split_once (p s : bytes) : option (bytes * bytes) :=
  match strip_prefix p s, s with
  | Some r, _ => Some ([], r)
  | None, [] => None
  | None, a :: s' => match split_once p s' with Some (x, y) => Some (a :: x, y) | None => None end
  end.

Definition status_path (line : bytes) : option string :=
  '(_, path) ← split_once_whitespace (trim_start line);
  let path := trim_bytes path in
  if bool_decide (path = []) then None
  else match split_once (bs " -> ") path with
       | Some (_, new) => Some (text new)
       | None => Some (text path)
       end.

Definition parse_status_paths (status : string) : list string := omap status_path (lines (as_bytes status)).

(** What [snapshot_in] refuses with. *)
Inductive SnapshotError : Type :=
| NotARepository (path : string)
| SnapshotGit (e : GitError).

Definition snapshot_in `{GitProcess} (root : string) (w : git_world)
    : git_world * result SnapshotError RepositorySnapshotV1 :=
  match git root ["rev-parse"; "--show-toplevel"] w with
  | (w1, Err (GitFailed _ _ _)) => (w1, Err (NotARepository root))
  | (w1, Err other) => (w1, Err (SnapshotGit other))
  | (w1, Ok canonical) =>
      match git root ["rev-parse"; "HEAD"] w1 with
      | (w2, Err e) => (w2, Err (SnapshotGit e))
      | (w2, Ok head) =>
          match git root ["branch"; "--show-current"] w2 with
          | (w3, Err e) => (w3, Err (SnapshotGit e))
          | (w3, Ok branch) =>
              let '(w4, origin) := git root ["remote"; "get-url"; "origin"] w3 in
              let remote := url ← result_ok origin; if bool_decide (url = "") then None else Some url in
              match git root ["status"; "--porcelain=v1"] w4 with
              | (w5, Err e) => (w5, Err (SnapshotGit e))
              | (w5, Ok status) =>
                  let dirty_paths := parse_status_paths status in
                  (w5, Ok (mkRepository REPOSITORY_SNAPSHOT_VERSION canonical
                    (if bool_decide (branch = "") then None else Some branch) head remote
                    (negb (bool_decide (dirty_paths = []))) dirty_paths))
              end
          end
      end
  end.

(** ** Printable text *)

Definition graphic (a : ascii) : Prop := 33 ≤ byte_val a < 127.
Definition printable (a : ascii) : Prop := 32 ≤ byte_val a < 127.

#[export] Instance graphic_dec a : Decision (graphic a).
Proof. unfold graphic. apply _. Defined.
#[export] Instance printable_dec a : Decision (printable a).
Proof. unfold printable. apply _. Defined.

Definition begins_graphic (s : bytes) : Prop := match s with a :: _ => graphic a | [] => False end.

Lemma graphic_printable a : graphic a → printable a.
Proof. unfold graphic, printable. lia. Qed.

Lemma encodings_not_graphic :
  Forall (λ p, ¬ begins_graphic p ∧ p ≠ []) whitespace ∧
  Forall (λ p, ¬ begins_graphic p ∧ p ≠ []) (map reverse whitespace).
Proof. split; repeat constructor; try done; vm_compute; intros [? ?]; congruence. Qed.

Lemma strip_first_graphic ps s :
  Forall (λ p, ¬ begins_graphic p ∧ p ≠ []) ps → begins_graphic s → strip_first ps s = None.
Proof.
  intros Hps Hs. apply strip_first_None. intros p r Hp ->.
  rewrite Forall_forall in Hps. destruct (Hps _ Hp) as [Hg Hne]. by destruct p.
Qed.

(** Text between graphic characters is not trimmed. *)
Lemma trim_graphic s : begins_graphic s → begins_graphic (reverse s) → trim_bytes s = s.
Proof.
  intros Hb He. destruct encodings_not_graphic as [Hw Hr].
  by apply trim_bytes_fixed; apply strip_first_graphic.
Qed.

(** Trimming takes the newlines after it. *)
Lemma trim_newlines s n :
  begins_graphic s → begins_graphic (reverse s) → trim_bytes (s ++ replicate n newline) = s.
Proof.
  intros Hb He. destruct encodings_not_graphic as [Hw Hr]. unfold trim_bytes.
  rewrite (strip_all_fixed whitespace) by (apply strip_first_graphic; [done|by destruct s]).
  rewrite reverse_app. 
  assert (∀ k fuel r, (k ≤ fuel)%nat → begins_graphic r →
    strip_all fuel (map reverse whitespace) (replicate k newline ++ r) = r) as Hk.
  { induction k as [|k IH]; intros fuel r Hf Hg.
    - apply strip_all_fixed, strip_first_graphic; done.
    - destruct fuel as [|fuel]; [lia|].
      change (replicate (S k) newline ++ r) with (newline :: (replicate k newline ++ r)).
      cbn [strip_all].
      assert (strip_first (map reverse whitespace) (newline :: (replicate k newline ++ r)) =
        Some (replicate k newline ++ r)) as -> by reflexivity.
      apply IH; [lia|done]. }
  replace (reverse (replicate n newline)) with (replicate n newline).
  - rewrite Hk; [apply reverse_involutive| |done]. rewrite length_app, length_replicate. lia.
  - induction n as [|n IH]; [done|]. simpl. rewrite reverse_cons, <- IH. by rewrite <- replicate_S_end.
Qed.

(** ** Lines of joined text *)

Fixpoint join_lines (ls : list bytes) : bytes :=
  match ls with
  | [] => []
  | [l] => l
  | l :: rest => l ++ newline :: join_lines rest
  end.

Lemma join_lines_cons l m rest : join_lines (l :: m :: rest) = l ++ newline :: join_lines (m :: rest).
Proof. done. Qed.

Lemma split_at_ne sep s : split_at sep s ≠ [].
Proof. destruct s as [|a s]; simpl; [done|]. destruct (sep a); [done|]. by destruct (split_at sep s). Qed.

Lemma split_at_line sep l rest a :
  Forall (λ c, sep c = false) l → sep a = true → split_at sep (l ++ a :: rest) = l :: split_at sep rest.
Proof. intros Hl Ha. induction Hl as [|c l Hc _ IH]; simpl; [by rewrite Ha|]. by rewrite Hc, IH. Qed.

Lemma split_at_last sep l : Forall (λ c, sep c = false) l → split_at sep l = [l].
Proof. induction 1 as [|c l Hc _ IH]; simpl; [done|]. by rewrite Hc, IH. Qed.

Lemma chop_cr_fixed l : carriage_return ∉ l → chop_cr l = l.
Proof.
  intros Hn. unfold chop_cr. destruct (reverse l) as [|c r] eqn:Hr; [done|].
  rewrite bool_decide_false; [done|]. intros ->. apply Hn. apply elem_of_reverse. rewrite Hr. by left.
Qed.

Lemma printable_no_newline l : Forall printable l → Forall (λ c, bool_decide (c = newline) = false) l.
Proof.
  intros Hl. eapply Forall_impl; [exact Hl|]. intros a Ha. apply bool_decide_false. intros ->.
  unfold printable in Ha. vm_compute in Ha. destruct Ha. done.
Qed.

Lemma printable_no_cr l : Forall printable l → carriage_return ∉ l.
Proof.
  intros Hl Hin. rewrite Forall_forall in Hl. apply Hl in Hin. unfold printable in Hin.
  vm_compute in Hin. destruct Hin. done.
Qed.

(** The lines of joined printable lines, the last one not empty. *)
Lemma lines_join_lines ls l :
  Forall (Forall printable) (ls ++ [l]) → l ≠ [] → lines (join_lines (ls ++ [l])) = ls ++ [l].
Proof.
  intros Hall Hne. unfold lines.
  assert (split_at (λ a, bool_decide (a = newline)) (join_lines (ls ++ [l])) = ls ++ [l]) as ->.
  { clear Hne. induction ls as [|m ls IH]; simpl in Hall; apply Forall_cons_iff in Hall as [Hm Hls].
    - by apply split_at_last, printable_no_newline.
    - simpl. destruct (ls ++ [l]) as [|m' rest] eqn:He; [by destruct ls|].
      rewrite <- He in *. rewrite split_at_line; [by rewrite IH|by apply printable_no_newline|].
      by apply bool_decide_true. }
  rewrite reverse_snoc. simpl. destruct l as [|a l]; [done|].
  apply list_eq_Forall2, Forall2_fmap_l, Forall_Forall2_diag.
  eapply Forall_impl; [exact Hall|]. intros x Hx. by apply chop_cr_fixed, printable_no_cr.
Qed.

Lemma join_lines_ascii ls : Forall (Forall printable) ls → Forall (λ a, byte_val a < 128) (join_lines ls).
Proof.
  assert (∀ l, Forall printable l → Forall (λ a, byte_val a < 128) l) as Hl.
  { intros l Hl. eapply Forall_impl; [exact Hl|]. unfold printable. intros a. lia. }
  induction 1 as [|l ls Hp _ IH]; [constructor|]. destruct ls as [|m ls]; [by apply Hl|].
  rewrite join_lines_cons. apply Forall_app. split; [by apply Hl|]. by constructor.
Qed.

Lemma as_bytes_text b : as_bytes (text b) = b.
Proof. apply String.list_ascii_of_string_of_list_ascii. Qed.

Lemma text_as_bytes s : text (as_bytes s) = s.
Proof. apply String.string_of_list_ascii_of_string. Qed.

(** What [git] returns of a command that printed lines and newlines. *)
Lemma trimmed_lines ls n :
  Forall (Forall printable) ls → begins_graphic (join_lines ls) → begins_graphic (reverse (join_lines ls)) →
  trimmed_text (join_lines ls ++ replicate n newline) = text (join_lines ls).
Proof.
  intros Hp Hb He. unfold trimmed_text. rewrite utf8_lossy_ascii; [by rewrite trim_newlines|].
  apply Forall_app. split; [by apply join_lines_ascii|]. apply Forall_replicate. done.
Qed.

(** ** Reading back git's status *)

Definition arrow : bytes := bs " -> ".

(** One uncommitted path as git reports it; a rename also says from where. *)
Record StatusEntry : Type := mkStatus {
  se_x : ascii;
  se_y : ascii;
  se_from : option bytes;
  se_path : bytes;
}.

Definition status_line (e : StatusEntry) : bytes :=
  [se_x e; se_y e; " "%char] ++ match se_from e with Some o => o ++ arrow | None => [] end ++ se_path e.

Definition plain (p : bytes) : Prop := Forall printable p ∧ begins_graphic p ∧ begins_graphic (reverse p).

(** A status letter at least, plain paths, and one arrow at most. *)
Definition status_ok (e : StatusEntry) : Prop :=
  printable (se_x e) ∧ graphic (se_y e) ∨ graphic (se_x e) ∧ printable (se_y e).

Definition paths_ok (e : StatusEntry) : Prop :=
  plain (se_path e) ∧
  match se_from e with
  | Some o => plain o ∧ split_once arrow (o ++ removelast arrow) = None
  | None => split_once arrow (se_path e) = None
  end.

Lemma split_once_first p a b :
  p ≠ [] → split_once p (a ++ removelast p) = None → split_once p (a ++ p ++ b) = Some (a, b).
Proof.
  intros Hp. induction a as [|c a IH]; simpl.
  - intros _. assert (strip_prefix p (p ++ b) = Some b) as Hs by by apply strip_prefix_Some.
    destruct p as [|x p]; [done|]. simpl in *. by rewrite Hs.
  - destruct (strip_prefix p (c :: a ++ removelast p)) eqn:Hnot; [done|].
    destruct (split_once p (a ++ removelast p)) as [[? ?]|]; [done|]. intros _.
    destruct (strip_prefix p (c :: a ++ p ++ b)) as [r|] eqn:Hs; [|by rewrite IH].
    exfalso. apply strip_prefix_Some in Hs.
    destruct p as [|z q _] using rev_ind; [done|]. rewrite removelast_last in Hnot.
    assert (c :: a ++ q `prefix_of` c :: a ++ (q ++ [z]) ++ b) as Hpre.
    { exists (z :: b). simpl. by rewrite <- !app_assoc. }
    assert (q ++ [z] `prefix_of` c :: a ++ (q ++ [z]) ++ b) as Hpp by by exists r.
    assert (q ++ [z] `prefix_of` c :: a ++ q) as [k Hk].
    { destruct (prefix_weak_total _ _ _ Hpp Hpre) as [|Hle]; [done|].
      apply prefix_length_eq in Hle; [by rewrite Hle|]. simpl. rewrite !length_app. simpl. lia. }
    apply strip_prefix_Some in Hk. congruence.
Qed.

Lemma split_space (g r : bytes) :
  Forall graphic g → split_once_whitespace (g ++ " "%char :: r) = Some (g, r).
Proof.
  induction 1 as [|a g Ha _ IH]; [reflexivity|].
  change ((a :: g) ++ " "%char :: r) with (a :: (g ++ " "%char :: r)). cbn [split_once_whitespace].
  rewrite (strip_first_graphic whitespace); [by rewrite IH|apply encodings_not_graphic|done].
Qed.

Lemma trim_space s : trim_bytes (" "%char :: s) = trim_bytes s.
Proof. reflexivity. Qed.

Lemma trim_start_space s : trim_start (" "%char :: s) = trim_start s.
Proof. reflexivity. Qed.

Lemma trim_start_graphic s : begins_graphic s → trim_start s = s.
Proof. intros Hs. apply strip_all_fixed, strip_first_graphic; [apply encodings_not_graphic|done]. Qed.

Lemma not_graphic_space a : printable a → ¬ graphic a → a = " "%char.
Proof. unfold printable, graphic. intros ? ?. apply byte_val_inj. change (byte_val " ") with 32. lia. Qed.

(** The path part of a line. *)
Definition line_tail (e : StatusEntry) : bytes :=
  match se_from e with Some o => o ++ arrow | None => [] end ++ se_path e.

Lemma line_tail_plain e : paths_ok e → plain (line_tail e).
Proof.
  unfold paths_ok, line_tail, plain. intros [(Hp & Hb & He) Hfrom]. destruct (se_from e) as [o|]; [|done].
  destruct Hfrom as [(Hop & Hob & _) _]. split_and!.
  - rewrite !Forall_app. split_and!; [done|by apply (bool_decide_unpack _); vm_compute|done].
  - by destruct o.
  - rewrite reverse_app. by destruct (reverse (se_path e)).
Qed.

Lemma tail_path e : paths_ok e →
  match split_once arrow (line_tail e) with
  | Some (_, new) => Some (text new)
  | None => Some (text (line_tail e))
  end = Some (text (se_path e)).
Proof.
  unfold paths_ok, line_tail. intros [_ Hfrom]. destruct (se_from e) as [o|]; [|by rewrite app_nil_l, Hfrom].
  destruct Hfrom as [_ Ho]. rewrite <- app_assoc. by rewrite split_once_first.
Qed.

Lemma status_path_line e : status_ok e → paths_ok e → status_path (status_line e) = Some (text (se_path e)).
Proof.
  intros Hs Hp. pose proof (line_tail_plain e Hp) as (Htp & Htb & Hte).
  assert (∃ g r, trim_start (status_line e) = g ++ " "%char :: r ∧ Forall graphic g ∧ trim_bytes r = line_tail e)
    as (g & r & Hline & Hg & Hr).
  { pose proof (trim_graphic _ Htb Hte) as Htrim.
    unfold status_line. fold (line_tail e). simpl.
    destruct (decide (graphic (se_x e))) as [Hx|Hx]; [destruct (decide (graphic (se_y e))) as [Hy|Hy]|].
    - exists [se_x e; se_y e], (line_tail e). rewrite trim_start_graphic by done.
      split_and!; [done|by apply Forall_cons_2, Forall_cons_2, Forall_nil_2|done].
    - rewrite (not_graphic_space (se_y e)) by (destruct Hs as [[]|[]]; done).
      exists [se_x e], (" "%char :: line_tail e). rewrite trim_start_graphic, trim_space by done.
      split_and!; [done|by apply Forall_cons_2, Forall_nil_2|done].
    - destruct Hs as [[Hx' Hy]|[? _]]; [|done]. rewrite (not_graphic_space (se_x e)) by done.
      exists [se_y e], (line_tail e). rewrite trim_start_space, trim_start_graphic by done.
      split_and!; [done|by apply Forall_cons_2, Forall_nil_2|done]. }
  unfold status_path. rewrite Hline, split_space by done. simpl. rewrite Hr.
  rewrite bool_decide_false by (by destruct (line_tail e)). by apply tail_path.
Qed.

(** Leading white space of the output is trimmed away with the rest. *)
Lemma status_path_space l : status_path (" "%char :: l) = status_path l.
Proof. unfold status_path. by rewrite trim_start_space. Qed.

(** The printed lines, the first without its leading space: what [git] hands
    back. *)
Definition first_trimmed (l : bytes) : bytes :=
  match l with a :: l' => if bool_decide (a = " "%char) then l' else l | [] => [] end.

Lemma status_line_ends e : status_ok e → paths_ok e →
  Forall printable (status_line e) ∧ begins_graphic (reverse (status_line e)) ∧
  (begins_graphic (status_line e) ∨
   ∃ l, status_line e = " "%char :: l ∧ begins_graphic l ∧ begins_graphic (reverse l)).
Proof.
  intros Hs Hp. pose proof (line_tail_plain e Hp) as (Htp & Htb & Hte).
  assert (∀ l, begins_graphic (reverse (l ++ line_tail e))) as Hend
    by (intros l; rewrite reverse_app; by destruct (reverse (line_tail e))).
  unfold status_line. fold (line_tail e). split_and!.
  - assert (printable (se_x e) ∧ printable (se_y e)) as [? ?]
      by (destruct Hs as [[? ?%graphic_printable]|[?%graphic_printable ?]]; done).
    by apply Forall_cons_2, Forall_cons_2, Forall_cons_2.
  - apply Hend.
  - destruct (decide (graphic (se_x e))) as [Hx|Hx]; [by left|right].
    destruct Hs as [[Hpx Hy]|[? _]]; [|done]. rewrite (not_graphic_space (se_x e)) by done.
    exists ([se_y e; " "%char] ++ line_tail e). split_and!; [done|done|apply Hend].
Qed.

Definition status_text (es : list StatusEntry) : bytes := mjoin (map (λ e, status_line e ++ [newline]) es).

Lemma join_lines_begin l ls : begins_graphic l → begins_graphic (join_lines (l :: ls)).
Proof. intros Hl. destruct l as [|a l]; [done|]. by destruct ls. Qed.

Lemma join_lines_end ls l : ∃ pre, join_lines (ls ++ [l]) = pre ++ l.
Proof.
  induction ls as [|m ls [pre IH]]; [by exists []|]. simpl.
  destruct (ls ++ [l]) as [|m' rest] eqn:He; [by destruct ls|]. rewrite IH.
  exists (m ++ newline :: pre). by rewrite <- app_assoc.
Qed.

Lemma unlines_join (ls : list bytes) l :
  mjoin (map (λ l, l ++ [newline]) (ls ++ [l])) = join_lines (ls ++ [l]) ++ [newline].
Proof.
  induction ls as [|m ls IH]; simpl; [by rewrite app_nil_r|].
  destruct (ls ++ [l]) as [|m' rest] eqn:He; [by destruct ls|]. rewrite IH. by rewrite <- !app_assoc.
Qed.

(** The lines git hands back of printed lines. *)
Lemma printed_lines ls l n :
  Forall (Forall printable) (ls ++ [l]) → begins_graphic (reverse l) → begins_graphic (join_lines (ls ++ [l])) →
  lines (as_bytes (trimmed_text (join_lines (ls ++ [l]) ++ replicate n newline))) = ls ++ [l].
Proof.
  intros Hp He Hb. rewrite trimmed_lines; [|done..|].
  - rewrite as_bytes_text, lines_join_lines; [done|done|]. by intros ->.
  - destruct (join_lines_end ls l) as [pre ->]. rewrite reverse_app. by destruct (reverse l).
Qed.

Lemma printed_lines' l ls :
  Forall (Forall printable) (l :: ls) → begins_graphic l →
  Forall (λ x, begins_graphic (reverse x)) (l :: ls) →
  lines (as_bytes (trimmed_text (mjoin (map (λ x, x ++ [newline]) (l :: ls))))) = l :: ls.
Proof.
  intros Hp Hb He. destruct (exists_last (l := l :: ls)) as (init & x & Heq); [done|].
  rewrite Heq in *. rewrite unlines_join. apply (printed_lines init x 1); [done| |].
  - by apply Forall_app in He as [_ [He _]%Forall_cons_iff].
  - rewrite <- Heq. by apply join_lines_begin.
Qed.

Lemma ascii_lines (ls : list bytes) :
  Forall (Forall printable) ls → Forall (λ a, byte_val a < 128) (mjoin (map (λ x, x ++ [newline]) ls)).
Proof.
  induction 1 as [|l ls Hl _ IH]; [constructor|]. simpl. rewrite !Forall_app. split_and!; [|by repeat constructor|done].
  eapply Forall_impl; [exact Hl|]. unfold printable. intros a. lia.
Qed.

Lemma omap_Forall_fmap {A B C} (f : B → option C) (g : A → B) (h : A → C) l :
  Forall (λ x, f (g x) = Some (h x)) l → omap f (map g l) = map h l.
Proof. induction 1 as [|x l Hx _ IH]; [done|]. csimpl. rewrite Hx. by f_equal. Qed.

(** The paths recorded as uncommitted are exactly those git reports, in its
    order, a rename under its new path; the space the first line loses when
    the output is trimmed makes no difference. *)
Theorem status_paths_exact (es : list StatusEntry) :
  Forall (λ e, status_ok e ∧ paths_ok e) es →
  parse_status_paths (trimmed_text (status_text es)) = map (λ e, text (se_path e)) es.
Proof.
  intros Hes. destruct es as [|e0 es]; [done|]. unfold parse_status_paths, status_text.
  assert (Forall (λ e, status_path (status_line e) = Some (text (se_path e))) (e0 :: es)) as Hpath.
  { eapply Forall_impl; [exact Hes|]. intros e [? ?]. by apply status_path_line. }
  assert (Forall (Forall printable) (map status_line (e0 :: es)) ∧
    Forall (λ x, begins_graphic (reverse x)) (map status_line (e0 :: es))) as [Hp He].
  { split; apply Forall_map; (eapply Forall_impl; [exact Hes|]); intros e [Hs Ho];
      by destruct (status_line_ends e Hs Ho) as (? & ? & _). }
  rewrite <- (map_map status_line (λ x, x ++ [newline])).
  apply Forall_cons_iff in Hes as [[Hs0 Ho0] _].
  destruct (status_line_ends e0 Hs0 Ho0) as (_ & _ & [Hb|(l & Hl & Hb & Hlend)]).
  - change (map status_line (e0 :: es)) with (status_line e0 :: map status_line es) in *.
    rewrite printed_lines' by done. by apply (omap_Forall_fmap _ status_line) in Hpath.
  - assert (trimmed_text (mjoin (map (λ x, x ++ [newline]) (map status_line (e0 :: es)))) =
      trimmed_text (mjoin (map (λ x, x ++ [newline]) (l :: map status_line es)))) as ->.
    { unfold trimmed_text. change (map status_line (e0 :: es)) with (status_line e0 :: map status_line es) in *.
      rewrite Hl in *. apply Forall_cons_iff in Hp as [Hp0 Hp].
      rewrite !utf8_lossy_ascii; [by rewrite <- trim_space| |].
      - apply ascii_lines. apply Forall_cons_iff in Hp0 as [_ Hp0]. by constructor.
      - change ((" "%char :: l) :: map status_line es) with ([" "%char :: l] ++ map status_line es).
        apply ascii_lines. by constructor. }
    change (map status_line (e0 :: es)) with (status_line e0 :: map status_line es) in *.
    rewrite Hl in *. rewrite printed_lines'.
    + simpl. rewrite <- (status_path_space l), <- Hl. by apply (omap_Forall_fmap _ status_line) in Hpath.
    + apply Forall_cons_iff in Hp as [[_ Hp0]%Forall_cons_iff Hp]. by constructor.
    + done.
    + apply Forall_cons_iff in He as [_ He]. by constructor.
Qed.

(** A modified file, a rename and a new file, the first with its leading space. *)
Lemma status_paths_exact_witness :
  let es := [mkStatus " " "M" None (bs "a.txt"); mkStatus "R" " " (Some (bs "old.txt")) (bs "new.txt");
             mkStatus "?" "?" None (bs "b.txt")] in
  parse_status_paths (trimmed_text (status_text es)) = ["a.txt"; "new.txt"; "b.txt"].
Proof.
  intros es. apply (status_paths_exact es).
  unfold es, status_ok, paths_ok, plain.
  repeat (apply Forall_cons_2; [split; [vm_compute; intuition congruence|]|]); [..|apply Forall_nil_2];
    cbn [se_path se_from]; repeat split; try (vm_compute; congruence);
    apply (bool_decide_unpack _); vm_compute; exact I.
Defined.

(** The guard covers the commands it lists and not every one that discards
    uncommitted work. *)
Example a_checkout_discards_unrefused :
  discards_uncommitted_work ["checkout"; "--"; "."] = false ∧
  discards_uncommitted_work ["-C"; "."; "reset"; "--hard"] = false.
Proof. done. Qed.
