(* ===== verification/Worktree.v ===== *)
(** * Isolated worktrees (crates/heiwa_workspace/src/worktree.rs)

    Creating, listing and removing a Work's worktree, git's listing with every
    kind of entry it documents, and what the commands run are taken to do. *)

From stdpp Require Import base gmap sets strings numbers list.
From Stdlib Require Import Ascii.
From S2P Require Import Prelude Utf8 Sensitive Framing Work Scope Git.
#[local] Open Scope Z_scope.

Definition BRANCH_PREFIX : string := "heiwa/".

Record WorktreeHandle : Type := mkHandle {
  wh_work_id : string;
  wh_path : string;
  wh_branch : string;
  wh_base_commit : string;
}.

Record ListedWorktree : Type := mkListed {
  lw_path : string;
  lw_head : string;
  lw_branch : option string;
  lw_work_id : option string;
}.

(** The variants of [WorkspaceError] this module returns. *)
Inductive WorktreeError : Type :=
| WorktreeGit (e : GitError)
| WorktreeEscape (e : PathEscape)
| WorktreeExists (work_id : string)
| InvalidWorkId (work_id : string).

Definition branch_for (work_id : string) : string := BRANCH_PREFIX +:+ work_id.

(** ** Reading git's listing *)

Definition slash (a : ascii) : bool := bool_decide (a = "/"%char).

(** [rsplit('/').next()] *)
Definition last_segment (s : bytes) : bytes := default [] (last (split_at slash s)).

Definition work_id_of (reference : string) : option string :=
  if contains (bs BRANCH_PREFIX) (as_bytes reference)
  then Some (text (last_segment (as_bytes reference))) else None.

(** The entry being read, and those already out. *)
Record ListingState : Type := mkListing {
  ls_out : list ListedWorktree;
  ls_path : option string;
  ls_head : string;
  ls_branch : option string;
}.

Definition flush (st : ListingState) : ListingState :=
  match ls_path st with
  | None => st
  | Some path =>
      mkListing (ls_out st ++ [mkListed path (ls_head st) (ls_branch st) (ls_branch st ≫= work_id_of)])
        None "" None
  end.

Definition listing_line (st : ListingState) (line : bytes) : ListingState :=
  if bool_decide (line = []) then flush st
  else match strip_prefix (bs "worktree ") line with
       | Some rest =>
           let st := flush st in mkListing (ls_out st) (Some (text rest)) (ls_head st) (ls_branch st)
       | None =>
           match strip_prefix (bs "HEAD ") line with
           | Some rest => mkListing (ls_out st) (ls_path st) (text rest) (ls_branch st)
           | None =>
               match strip_prefix (bs "branch ") line with
               | Some rest => mkListing (ls_out st) (ls_path st) (ls_head st) (Some (text rest))
               | None => st
               end
           end
       end.

Definition parse_worktree_list (raw : string) : list ListedWorktree :=
  ls_out (flush (foldl listing_line (mkListing [] None "" None) (lines (as_bytes raw)))).

(** ** Operations *)

(** [to_string_lossy] of a location. *)
Definition location_text (l : Location) : string := "/" +:+ String.concat "/" l.

Section worktrees.
Context `{GitProcess}.
(** The file system [git] and [resolve_in_scope] both see. *)
Variable git_files : git_world → FileSystem.

Definition list_worktrees_in (repo_root : string) (w : git_world)
    : git_world * result WorktreeError (list ListedWorktree) :=
  match git repo_root ["worktree"; "list"; "--porcelain"] w with
  | (w', Err e) => (w', Err (WorktreeGit e))
  | (w', Ok raw) => (w', Ok (parse_worktree_list raw))
  end.

Definition holds_work (work_id : string) (listed : ListedWorktree) : bool :=
  bool_decide (lw_work_id listed = Some work_id).

Definition create_worktree_in (repo_root : string) (holding_dir : Path) (work_id : string) (w : git_world)
    : git_world * result WorktreeError WorktreeHandle :=
  match work_id_parse work_id with
  | None => (w, Err (InvalidWorkId work_id))
  | Some _ =>
      let branch := branch_for work_id in
      match list_worktrees_in repo_root w with
      | (w1, Err e) => (w1, Err e)
      | (w1, Ok listed) =>
          if existsb (holds_work work_id) listed then (w1, Err (WorktreeExists work_id))
          else
            match resolve_in_scope (git_files w1) holding_dir (holding_dir ++ [Normal work_id]) with
            | Err e => (w1, Err (WorktreeEscape e))
            | Ok target =>
                match git repo_root ["rev-parse"; "HEAD"] w1 with
                | (w2, Err e) => (w2, Err (WorktreeGit e))
                | (w2, Ok base_commit) =>
                    match git repo_root
                            ["worktree"; "add"; "-q"; "-b"; branch; location_text target; base_commit] w2 with
                    | (w3, Err e) => (w3, Err (WorktreeGit e))
                    | (w3, Ok _) =>
                        (w3, Ok (mkHandle work_id (location_text target) branch base_commit))
                    end
                end
            end
      end
  end.

Definition remove_worktree_in (repo_root : string) (handle : WorktreeHandle) (w : git_world)
    : git_world * result WorktreeError unit :=
  match git repo_root ["worktree"; "remove"; "--force"; wh_path handle] w with
  | (w1, Err e) => (w1, Err (WorktreeGit e))
  | (w1, Ok _) =>
      match git repo_root ["branch"; "-D"; wh_branch handle] w1 with
      | (w2, Err e) => (w2, Err (WorktreeGit e))
      | (w2, Ok _) => (w2, Ok tt)
      end
  end.
End worktrees.

(** ** What git prints *)

(** What a worktree has checked out: nothing (a bare repository), a commit, or
    a branch at its commit. *)
Inductive Checkout : Type :=
| Bare
| Detached (head : string)
| OnBranch (head reference : string).

(** A worktree of a repository, as git knows it; a worktree may be locked or
    ready to be pruned, with a reason or (the empty one) without. *)
Record GitWorktree : Type := mkWorktree {
  gw_path : string;
  gw_at : Checkout;
  gw_locked : option string;
  gw_prunable : option string;
}.

(** A label, and what follows it when that is not empty. *)
Definition labelled (label : string) (reason : option string) : list bytes :=
  match reason with
  | None => []
  | Some r => [if bool_decide (r = "") then bs label else bs label ++ " "%char :: as_bytes r]
  end.

Definition checkout_lines (c : Checkout) : list bytes :=
  match c with
  | Bare => [bs "bare"]
  | Detached h => [bs "HEAD " ++ bs h; bs "detached"]
  | OnBranch h b => [bs "HEAD " ++ bs h; bs "branch " ++ bs b]
  end.

Definition entry_lines (e : GitWorktree) : list bytes :=
  (bs "worktree " ++ bs (gw_path e)) ::
    checkout_lines (gw_at e) ++ labelled "locked" (gw_locked e) ++ labelled "prunable" (gw_prunable e).

(** [git worktree list --porcelain]: blocks ended by an empty line. *)
Definition porcelain_lines (es : list GitWorktree) : list bytes :=
  mjoin (map (λ e, entry_lines e ++ [[]]) es).

Definition porcelain (es : list GitWorktree) : bytes :=
  mjoin (map (λ l, l ++ [newline]) (porcelain_lines es)).

#[export] Instance begins_graphic_dec s : Decision (begins_graphic s).
Proof. destruct s; simpl; apply _. Defined.

(** Text without control characters, and not ending in a space. *)
Definition closed_text (s : string) : Prop :=
  Forall printable (as_bytes s) ∧ begins_graphic (reverse (as_bytes s)).

Definition reason_ok (reason : option string) : Prop :=
  match reason with Some r => r = "" ∨ closed_text r | None => True end.

Definition checkout_ok (c : Checkout) : Prop :=
  match c with
  | Bare => True
  | Detached h => Forall printable (as_bytes h)
  | OnBranch h b => Forall printable (as_bytes h) ∧ closed_text b
  end.

(** A worktree whose listing [git] trims nothing of: git writes these fields as
    they are, so that a path may hold any byte. *)
Definition entry_ok (e : GitWorktree) : Prop :=
  Forall printable (as_bytes (gw_path e)) ∧ checkout_ok (gw_at e) ∧
  reason_ok (gw_locked e) ∧ reason_ok (gw_prunable e).

#[export] Instance closed_text_dec s : Decision (closed_text s).
Proof. unfold closed_text. apply _. Defined.
#[export] Instance reason_ok_dec r : Decision (reason_ok r).
Proof. unfold reason_ok. destruct r; apply _. Defined.
#[export] Instance checkout_ok_dec c : Decision (checkout_ok c).
Proof. unfold checkout_ok. destruct c; apply _. Defined.
#[export] Instance entry_ok_dec e : Decision (entry_ok e).
Proof. unfold entry_ok. apply _. Defined.

Definition checkout_head (c : Checkout) : string :=
  match c with Bare => "" | Detached h | OnBranch h _ => h end.
Definition checkout_branch (c : Checkout) : option string :=
  match c with OnBranch _ b => Some b | _ => None end.

Definition listed_of (e : GitWorktree) : ListedWorktree :=
  mkListed (gw_path e) (checkout_head (gw_at e)) (checkout_branch (gw_at e))
    (checkout_branch (gw_at e) ≫= work_id_of).

(** ** Reading back what git printed *)

Lemma line_worktree st x :
  listing_line st (bs "worktree " ++ x) =
    mkListing (ls_out (flush st)) (Some (text x)) (ls_head (flush st)) (ls_branch (flush st)).
Proof. reflexivity. Qed.

Lemma line_head st x :
  listing_line st (bs "HEAD " ++ x) = mkListing (ls_out st) (ls_path st) (text x) (ls_branch st).
Proof. reflexivity. Qed.

Lemma line_branch st x :
  listing_line st (bs "branch " ++ x) = mkListing (ls_out st) (ls_path st) (ls_head st) (Some (text x)).
Proof. reflexivity. Qed.

(** Labels are read past. *)
Lemma labels_skipped st label reason :
  label = "locked" ∨ label = "prunable" → foldl listing_line st (labelled label reason) = st.
Proof. intros [-> | ->]; (destruct reason as [r|]; [|done]); unfold labelled; by case_bool_decide. Qed.

Lemma entry_fold out e :
  foldl listing_line (mkListing out None "" None) (entry_lines e) =
    mkListing out (Some (gw_path e)) (checkout_head (gw_at e)) (checkout_branch (gw_at e)).
Proof.
  unfold entry_lines. cbn [foldl]. rewrite line_worktree, !foldl_app, !(labels_skipped _ "prunable") by by right.
  rewrite labels_skipped by by left.
  destruct (gw_at e); cbn [checkout_lines foldl]; rewrite ?line_head, ?line_branch; cbn; unfold bs;
    by rewrite !text_as_bytes.
Qed.

Lemma entries_fold es : ∀ out,
  foldl listing_line (mkListing out None "" None) (porcelain_lines es) =
    mkListing (out ++ map listed_of es) None "" None.
Proof.
  induction es as [|e es IH]; intros out; [by rewrite app_nil_r|].
  change (porcelain_lines (e :: es)) with ((entry_lines e ++ [[]]) ++ porcelain_lines es).
  rewrite !foldl_app, entry_fold. cbn. rewrite IH, <- app_assoc. done.
Qed.

Lemma printable_bs_app (s : string) x :
  forallb (λ a, bool_decide (printable a)) (bs s) = true → Forall printable x → Forall printable (bs s ++ x).
Proof.
  intros Hs Hx. apply Forall_app. split; [|done]. apply Forall_forall. intros a Ha%list_elem_of_In.
  rewrite forallb_forall in Hs. by eapply bool_decide_eq_true, Hs.
Qed.

Lemma labelled_printable label reason :
  forallb (λ a, bool_decide (printable a)) (bs label) = true → reason_ok reason →
  Forall (Forall printable) (labelled label reason).
Proof.
  intros Hl Hr. destruct reason as [r|]; [|constructor]. constructor; [|done]. case_bool_decide.
  - rewrite <- (app_nil_r (bs label)). by apply printable_bs_app.
  - apply printable_bs_app; [done|]. destruct Hr as [|[Hr _]]; [done|]. by constructor.
Qed.

Lemma entry_lines_printable e : entry_ok e → Forall (Forall printable) (entry_lines e).
Proof.
  intros (Hp & Hc & Hl & Hr). constructor; [by apply printable_bs_app|].
  apply Forall_app. split; [|apply Forall_app; split; by apply labelled_printable].
  destruct (gw_at e) as [|h|h b]; cbn [checkout_lines].
  - by repeat constructor.
  - constructor; [by apply printable_bs_app|]. by apply (bool_decide_unpack _); vm_compute.
  - destruct Hc as [Hh [Hb _]]. constructor; [by apply printable_bs_app|].
    constructor; [by apply printable_bs_app|constructor].
Qed.

Lemma porcelain_printable es :
  Forall entry_ok es → Forall (Forall printable) (porcelain_lines es).
Proof.
  induction 1 as [|e es He _ IH]; [constructor|].
  change (porcelain_lines (e :: es)) with ((entry_lines e ++ [[]]) ++ porcelain_lines es).
  rewrite !Forall_app. split_and!; [by apply entry_lines_printable|by repeat constructor|done].
Qed.

(** A line that ends in a graphic character. *)
Definition closed_line (l : bytes) : Prop := begins_graphic (reverse l).

#[export] Instance closed_line_dec l : Decision (closed_line l).
Proof. unfold closed_line. apply _. Defined.

Lemma closed_app x l : closed_line l → closed_line (x ++ l).
Proof. unfold closed_line. rewrite reverse_app. by destruct (reverse l). Qed.

Lemma labelled_closed label reason :
  closed_line (bs label) → reason_ok reason → Forall closed_line (labelled label reason).
Proof.
  intros Hl Hr. destruct reason as [r|]; [|constructor]. constructor; [|done]. case_bool_decide; [done|].
  destruct Hr as [|[_ Hr]]; [done|]. apply (closed_app (bs label ++ [" "%char])) in Hr. by rewrite <- app_assoc in Hr.
Qed.

(** Lines of which the last one is such. *)
Definition ends_closed (ls : list bytes) : Prop := ∃ init l, ls = init ++ [l] ∧ closed_line l.

Lemma ends_closed_app a b : ends_closed a → Forall closed_line b → ends_closed (a ++ b).
Proof.
  intros (i & l & -> & Hl) Hb. destruct b as [|x b _] using rev_ind; [rewrite app_nil_r; by exists i, l|].
  exists ((i ++ [l]) ++ b), x. split; [by rewrite !app_assoc|]. by apply Forall_app in Hb as [_ [Hx _]%Forall_cons_iff].
Qed.

Lemma entry_lines_last e : entry_ok e → ends_closed (entry_lines e).
Proof.
  intros (_ & Hc & Hl & Hr).
  assert (∀ label, label = "locked" ∨ label = "prunable" → closed_line (bs label)) as Hlabel
    by (intros label [-> | ->]; apply (bool_decide_unpack _); vm_compute; exact I).
  assert (ends_closed ((bs "worktree " ++ bs (gw_path e)) :: checkout_lines (gw_at e))) as Hcheckout.
  { destruct (gw_at e) as [|h|h b]; cbn [checkout_lines].
    - exists [bs "worktree " ++ bs (gw_path e)], (bs "bare"). split; [done|]. by apply (bool_decide_unpack _); vm_compute.
    - eexists [_; _], (bs "detached"). split; [done|]. by apply (bool_decide_unpack _); vm_compute.
    - eexists [_; _], _. split; [done|]. apply closed_app. by destruct Hc as [_ [_ Hb]]. }
  unfold entry_lines. rewrite app_comm_cons.
  apply ends_closed_app; [done|]. apply Forall_app. split; apply labelled_closed; auto.
Qed.

Lemma porcelain_snoc es e ls l : entry_lines e = ls ++ [l] →
  porcelain (es ++ [e]) = join_lines ((porcelain_lines es ++ ls) ++ [l]) ++ replicate 2 newline.
Proof.
  intros He. unfold porcelain.
  assert (porcelain_lines (es ++ [e]) = ((porcelain_lines es ++ ls) ++ [l]) ++ [[]]) as ->.
  { unfold porcelain_lines. rewrite map_app, join_app. cbn [map]. rewrite He.
    cbn [mjoin list_join]. rewrite app_nil_r. by rewrite <- !app_assoc. }
  rewrite map_app, join_app, unlines_join. simpl. by rewrite <- app_assoc.
Qed.

(** Git's listing, read back. *)
Lemma listing_roundtrip es :
  Forall entry_ok es → parse_worktree_list (trimmed_text (porcelain es)) = map listed_of es.
Proof.
  intros Hes. destruct es as [|e es _] using rev_ind; [done|].
  apply Forall_app in Hes as [Hes [He _]%Forall_cons_iff].
  destruct (entry_lines_last e He) as (ls & l & Hlines & Hend).
  rewrite (porcelain_snoc es e ls l Hlines).
  assert (Forall (Forall printable) ((porcelain_lines es ++ ls) ++ [l])) as Hp.
  { rewrite <- app_assoc, <- Hlines. apply Forall_app. split; [by apply porcelain_printable|by apply entry_lines_printable]. }
  assert (begins_graphic (join_lines ((porcelain_lines es ++ ls) ++ [l]))) as Hb.
  { rewrite <- app_assoc, <- Hlines.
    assert (∀ e, begins_graphic (bs "worktree " ++ bs (gw_path e))) as Hw
      by (intros e'; by apply (bool_decide_unpack _); vm_compute).
    destruct es as [|e' es]; [exact (join_lines_begin _ _ (Hw e))|].
    exact (join_lines_begin _ _ (Hw e')). }
  unfold parse_worktree_list. rewrite printed_lines by done.
  rewrite <- app_assoc, <- Hlines, foldl_app, entries_fold, entry_fold, map_app. done.
Qed.

(** The branch of a Work names it. *)
Lemma branch_names_work id v :
  work_id_parse id = Some v → work_id_of ("refs/heads/" +:+ branch_for id) = Some id.
Proof.
  unfold work_id_parse. intros (rest & Hrest & Hv)%bind_Some. apply strip_prefix_Some in Hrest.
  destruct (forallb is_id_byte rest) eqn:Hall; [|by rewrite orb_true_r in Hv].
  assert (Forall (λ c, slash c = false) (as_bytes id)) as Hid.
  { rewrite Hrest. apply Forall_app. split; [by repeat constructor|].
    rewrite forallb_forall in Hall. apply Forall_forall. intros c Hc%list_elem_of_In%Hall.
    apply bool_decide_eq_false. intros ->. vm_compute in Hc. done. }
  unfold work_id_of, branch_for. rewrite !as_bytes_app.
  assert (contains (bs BRANCH_PREFIX) (as_bytes "refs/heads/" ++ as_bytes BRANCH_PREFIX ++ as_bytes id) = true) as ->
    by reflexivity.
  unfold last_segment.
  change (as_bytes "refs/heads/" ++ as_bytes BRANCH_PREFIX ++ as_bytes id)
    with (bs "refs" ++ "/"%char :: (bs "heads" ++ "/"%char :: (bs "heiwa" ++ "/"%char :: as_bytes id))).
  rewrite !split_at_line by (by repeat constructor). rewrite split_at_last by done.
  simpl. by rewrite text_as_bytes.
Qed.

(** ** Where a worktree may be put *)

(** No name on the way to [l], nor [l], is a link. *)
Definition linkless (fs : FileSystem) (l : Location) : Prop :=
  ∀ k target, k `prefix_of` l → k ≠ [] → fs_nodes fs !! k ≠ Some (Symlink target).

Lemma prefix_of_app {A} (k a b : list A) : k `prefix_of` a ++ b → k `prefix_of` a ∨ ∃ c, k = a ++ c.
Proof. intros Hk. destruct (prefix_weak_total k a (a ++ b) Hk ltac:(by eexists)) as [|[c ->]]; eauto. Qed.

Lemma prefix_of_snoc {A} (k l : list A) x : k `prefix_of` l ++ [x] → k = l ++ [x] ∨ k `prefix_of` l.
Proof.
  intros Hk. destruct (prefix_of_app _ _ _ Hk) as [|[c ->]]; [by right|]. apply prefix_app_inv in Hk as [r Hr].
  destruct c as [|y c]; [right; by rewrite app_nil_r|]. simplify_eq/=. by destruct c; [left|].
Qed.

Lemma real_linkless fs l : real_location (fs_nodes fs) l → linkless fs l.
Proof.
  intros Hr k t Hk Hne Hn. destruct Hr as [Hr|[Hr Hf]]; [by rewrite (Hr k) in Hn|].
  destruct l as [|n l _] using rev_ind; [by apply prefix_nil_inv in Hk|].
  unfold parent_location in Hr. rewrite removelast_last in Hr.
  apply prefix_of_snoc in Hk as [->|Hk]; [by pose proof (eq_trans (eq_sym Hf) Hn)|]. by rewrite (Hr k) in Hn.
Qed.

(** Below a name where nothing is, there is nothing. *)
Lemma nothing_below fs b n names :
  fs_wf fs → fs_nodes fs !! (b ++ [n]) = None → fs_nodes fs !! ((b ++ [n]) ++ names) = None.
Proof.
  intros Hwf Hn. induction names as [|m names IH] using rev_ind; [by rewrite app_nil_r|].
  apply eq_None_not_Some. rewrite app_assoc. intros [node Hm].
  destruct (wf_tree _ Hwf ((b ++ [n]) ++ names) m (ex_intro _ _ Hm)) as [H|H];
    [by apply app_eq_nil in H as [[_ ?]%app_eq_nil _]|]. by pose proof (eq_trans (eq_sym IH) H).
Qed.

(** Nothing [resolve_in_scope] hands back has a link in it, unless a link
    dangled. *)
Lemma resolved_linkless fs root p l :
  fs_wf fs → dangles fs p = false → resolve_in_scope fs root p = Ok l → linkless fs l.
Proof.
  intros Hwf Hd Hl. unfold resolve_in_scope in Hl. repeat case_match; simplify_eq.
  apply existing_prefix_settles, settles_lands in H0 as [Hc|(base & b & n & names & -> & Hb & Hn & ->)]; [| |done..].
  - by eapply real_linkless, canonicalize_real.
  - intros k t Hk Hne Hsome. change (n :: names) with ([n] ++ names) in Hk. rewrite app_assoc in Hk.
    destruct (prefix_of_app _ _ _ Hk) as [Hin|[names' ->]].
    + apply canonicalize_real, real_linkless in Hb; [|done]. apply prefix_of_snoc in Hin as [->|Hin]; [by pose proof (eq_trans (eq_sym Hn) Hsome)|].
      by eapply Hb.
    + by pose proof (eq_trans (eq_sym (nothing_below fs b n names' Hwf Hn)) Hsome).
Qed.

(** ** One worktree per Work *)

Definition hex_digit (a : ascii) : bool :=
  bool_decide (48 ≤ byte_val a ≤ 57) || bool_decide (97 ≤ byte_val a ≤ 102).

(** The full name of an object, SHA-1 or SHA-256. *)
Definition object_name (s : string) : bool :=
  bool_decide (String.length s = 40%nat ∨ String.length s = 64%nat) && forallb hex_digit (as_bytes s).

(** The worktree [worktree add -b branch path commit] makes. *)
Definition added_worktree (path commit branch : string) : GitWorktree :=
  mkWorktree path (OnBranch commit ("refs/heads/" +:+ branch)) None None.

(** What git documents of the commands this module runs (hooks are taken not to
    make or remove other worktrees): its worktrees, the commit HEAD names and
    the files it sees. *)
Class WorktreeLaws `{GitProcess} (git_worktrees : git_world → string → list GitWorktree)
    (git_head : git_world → string → string) (git_files : git_world → FileSystem) : Prop := {
  (** Listing changes nothing, and prints every worktree. *)
  worktree_list_law : ∀ w repo w' out,
    git_command repo ["worktree"; "list"; "--porcelain"] w = (w', out) →
    w' = w ∧ ∀ stdout stderr, out = Exited true stdout stderr → stdout = porcelain (git_worktrees w repo);
  (** [rev-parse HEAD] changes nothing, and prints the name of that commit. *)
  head_law : ∀ w repo w' out, git_command repo ["rev-parse"; "HEAD"] w = (w', out) →
    w' = w ∧ ∀ stdout stderr, out = Exited true stdout stderr →
      object_name (git_head w repo) = true ∧ stdout = as_bytes (git_head w repo) ++ [newline];
  (** A worktree added at a path without links, on a new branch at a commit, is
      there; nothing is said of that path when the command fails, which it may
      after having made the worktree. *)
  worktree_add_law : ∀ w repo branch l commit w' out,
    git_command repo ["worktree"; "add"; "-q"; "-b"; branch; location_text l; commit] w = (w', out) →
    object_name commit = true → linkless (git_files w) l →
    (∀ e, gw_path e ≠ location_text l → e ∈ git_worktrees w' repo ↔ e ∈ git_worktrees w repo) ∧
    ∀ stdout stderr, out = Exited true stdout stderr → ∀ e, e ∈ git_worktrees w' repo ↔
      e ∈ git_worktrees w repo ∨ e = added_worktree (location_text l) commit branch;
  (** A worktree removed is gone; nothing is said of it when that fails. *)
  worktree_remove_law : ∀ w repo path w' out,
    git_command repo ["worktree"; "remove"; "--force"; path] w = (w', out) →
    (∀ e, gw_path e ≠ path → e ∈ git_worktrees w' repo ↔ e ∈ git_worktrees w repo) ∧
    ∀ stdout stderr, out = Exited true stdout stderr → ∀ e, e ∈ git_worktrees w' repo → gw_path e ≠ path;
  branch_delete_law : ∀ w repo branch w' out,
    git_command repo ["branch"; "-D"; branch] w = (w', out) →
    ∀ e, e ∈ git_worktrees w' repo ↔ e ∈ git_worktrees w repo;
}.

Lemma object_name_graphic s : object_name s = true → Forall graphic (as_bytes s).
Proof.
  unfold object_name. intros [_ Hhex]%andb_true_iff. apply Forall_forall. intros a Ha%list_elem_of_In.
  rewrite forallb_forall in Hhex. apply Hhex in Ha. unfold hex_digit in Ha.
  apply orb_true_iff in Ha. rewrite !bool_decide_eq_true in Ha. unfold graphic. lia.
Qed.

Lemma graphic_closed s : as_bytes s ≠ [] → Forall graphic (as_bytes s) → closed_text s.
Proof.
  intros Hne Hg. split; [eapply Forall_impl; [exact Hg|]; apply graphic_printable|].
  apply Forall_reverse in Hg. destruct (reverse (as_bytes s)) as [|a r] eqn:Hrev.
  - destruct Hne. by rewrite <- (reverse_involutive (as_bytes s)), Hrev.
  - by apply Forall_cons_iff in Hg as [Hg _].
Qed.

Lemma work_branch_closed id v : work_id_parse id = Some v → closed_text ("refs/heads/" +:+ branch_for id).
Proof.
  intros (_ & rest & Hid & _ & _ & Hrest)%work_id_parse_Some. apply graphic_closed; [done|].
  unfold branch_for. rewrite !as_bytes_app, Hid, !Forall_app.
  split_and!; try by apply (bool_decide_unpack _); vm_compute.
  eapply Forall_impl; [exact Hrest|]. unfold is_id_byte. intros a Ha%bool_decide_eq_true. unfold graphic. lia.
Qed.

Section lifecycle.
Context `{WorktreeLaws}.

(** What a caller would list. *)
Definition listing (w : git_world) (repo : string) : list ListedWorktree :=
  map listed_of (git_worktrees w repo).

Lemma git_ok dir args w w' s :
  git dir args w = (w', Ok s) → ∃ stdout stderr, git_command dir args w = (w', Exited true stdout stderr) ∧
    s = trimmed_text stdout.
Proof.
  unfold git. destruct (discards_uncommitted_work args); [done|].
  destruct (git_command dir args w) as [w1 [src|[] out err]] eqn:Hc; intros [= <- <-]. by exists out, err.
Qed.

Lemma git_err dir args w w' e :
  git dir args w = (w', Err e) →
  discards_uncommitted_work args = true ∧ w' = w ∨
  ∃ out, git_command dir args w = (w', out) ∧ ∀ stdout stderr, out ≠ Exited true stdout stderr.
Proof.
  unfold git. destruct (discards_uncommitted_work args); [intros [= <- <-]; by left|].
  destruct (git_command dir args w) as [w1 [src|[] out err]] eqn:Hc; intros [= <- <-];
    right; eexists; (split; [done|]); done.
Qed.

Lemma list_still repo w w' r : list_worktrees_in repo w = (w', r) → w' = w.
Proof.
  unfold list_worktrees_in. destruct (git repo _ w) as [w1 [raw|e]] eqn:Hg; intros [= <- <-].
  - apply git_ok in Hg as (out & err & Hc & _). by apply worktree_list_law in Hc as [-> _].
  - apply git_err in Hg as [[_ ->]|(out & Hc & _)]; [done|]. by apply worktree_list_law in Hc as [-> _].
Qed.

Lemma list_exact repo w w' ls :
  Forall entry_ok (git_worktrees w repo) → list_worktrees_in repo w = (w', Ok ls) → w' = w ∧ ls = listing w repo.
Proof.
  intros Hok Hl. pose proof (list_still _ _ _ _ Hl) as ->. split; [done|]. revert Hl.
  unfold list_worktrees_in. destruct (git repo _ w) as [w1 [raw|e]] eqn:Hg; intros [= -> <-].
  apply git_ok in Hg as (out & err & Hc & ->). apply worktree_list_law in Hc as [_ Hout].
  rewrite (Hout _ _ eq_refl). by apply listing_roundtrip.
Qed.

Lemma object_name_text s : object_name s = true → trimmed_text (as_bytes s ++ [newline]) = s.
Proof.
  intros Hs. assert (as_bytes s ≠ []) as Hne by by destruct s.
  pose proof (object_name_graphic s Hs) as Hg. destruct (graphic_closed s Hne Hg) as [Hp Hend].
  change (as_bytes s ++ [newline]) with (join_lines [as_bytes s] ++ replicate 1 newline).
  rewrite trimmed_lines; [apply text_as_bytes|by constructor| |done].
  simpl. by destruct Hg.
Qed.

Lemma head_read repo w w' r : git repo ["rev-parse"; "HEAD"] w = (w', r) →
  w' = w ∧ ∀ c, r = Ok c → c = git_head w repo ∧ object_name c = true.
Proof.
  destruct r as [s|e]; intros Hg.
  - apply git_ok in Hg as (out & err & Hc & ->). apply head_law in Hc as [-> Hout]. split; [done|].
    intros c [= <-]. destruct (Hout _ _ eq_refl) as [Ho ->]. by rewrite object_name_text.
  - split; [|done]. apply git_err in Hg as [[_ ->]|(out & Hc & _)]; [done|]. by apply head_law in Hc as [-> _].
Qed.

Lemma in_listing x w repo : x ∈ listing w repo ↔ ∃ e, x = listed_of e ∧ e ∈ git_worktrees w repo.
Proof. unfold listing. by rewrite list_elem_of_fmap. Qed.

(** Listings agree where the worktrees do. *)
Lemma listing_iff (P : ListedWorktree → Prop) w w' repo :
  (∀ e, P (listed_of e) → e ∈ git_worktrees w' repo ↔ e ∈ git_worktrees w repo) →
  ∀ x, P x → x ∈ listing w' repo ↔ x ∈ listing w repo.
Proof.
  intros He x Hx. rewrite !in_listing. split; intros (e & -> & Hin); exists e; (split; [done|]); by apply He.
Qed.

Lemma held_spec id w repo :
  existsb (holds_work id) (listing w repo) = false ↔ ∀ x, x ∈ listing w repo → lw_work_id x ≠ Some id.
Proof.
  rewrite <- not_true_iff_false, existsb_exists. split.
  - intros Hn x Hx Hid. apply Hn. exists x. split; [by apply list_elem_of_In|]. by apply bool_decide_eq_true.
  - intros Hn (x & Hx%list_elem_of_In & Hid%bool_decide_eq_true). by apply (Hn x).
Qed.

Lemma held_refused repo hold id w x w' h :
  Forall entry_ok (git_worktrees w repo) →
  x ∈ listing w repo → lw_work_id x = Some id → create_worktree_in git_files repo hold id w ≠ (w', Ok h).
Proof.
  intros Hok Hx Hid. unfold create_worktree_in. destruct (work_id_parse id); [|done].
  destruct (list_worktrees_in repo w) as [w1 [ls|e]] eqn:Hl; [|done].
  apply list_exact in Hl as [-> ->]; [|done]. destruct (existsb _ _) eqn:Hheld; [done|].
  by destruct (proj1 (held_spec id w repo) Hheld x).
Qed.

(** What removing a worktree leaves. *)
Lemma removed_listing repo h w w' :
  remove_worktree_in repo h w = (w', Ok tt) →
  ∀ x, x ∈ listing w' repo ↔ x ∈ listing w repo ∧ lw_path x ≠ wh_path h.
Proof.
  unfold remove_worktree_in. destruct (git repo ["worktree"; _; _; _] w) as [w1 [s|e]] eqn:Hr; [|done].
  destruct (git repo ["branch"; _; _] w1) as [w2 [s'|e]] eqn:Hb; intros [= <-].
  apply git_ok in Hr as (o1 & e1 & Hr & _), Hb as (o2 & e2 & Hb & _).
  destruct (worktree_remove_law _ _ _ _ _ Hr) as [Hother Hgone]. pose proof (branch_delete_law _ _ _ _ _ Hb) as Hdel.
  intros x. rewrite !in_listing. setoid_rewrite Hdel. split.
  - intros (e & -> & He). assert (gw_path e ≠ wh_path h) as Hne by by eapply Hgone.
    split; [|done]. exists e. split; [done|]. by apply Hother.
  - intros [(e & -> & He) Hne]. exists e. split; [done|]. by apply Hother.
Qed.

(** A worktree added for a Work at a printable path is listed as it is. *)
Lemma added_ok id v l c :
  work_id_parse id = Some v → object_name c = true → Forall printable (as_bytes (location_text l)) →
  entry_ok (added_worktree (location_text l) c (branch_for id)).
Proof.
  intros Hv Hc Hl. split; [done|]. split; [|done]. split.
  - eapply Forall_impl; [by apply object_name_graphic|]. apply graphic_printable.
  - by eapply work_branch_closed.
Qed.

Lemma added_listed id v l c :
  work_id_parse id = Some v →
  listed_of (added_worktree (location_text l) c (branch_for id)) =
    mkListed (location_text l) c (Some ("refs/heads/" +:+ branch_for id)) (Some id).
Proof. intros Hv. unfold listed_of. simpl. by rewrite (branch_names_work id v Hv). Qed.

(** What a creation that succeeded made, and what its removal leaves. *)
Lemma created_spec repo id v l c w wa :
  work_id_parse id = Some v → object_name c = true → Forall entry_ok (git_worktrees w repo) →
  (∀ x, x ∈ listing w repo → lw_work_id x ≠ Some id) →
  (∀ e, e ∈ git_worktrees wa repo ↔
    e ∈ git_worktrees w repo ∨ e = added_worktree (location_text l) c (branch_for id)) →
  let made := mkListed (location_text l) c (Some ("refs/heads/" +:+ branch_for id)) (Some id) in
  (∀ x, x ∈ listing wa repo ↔ x ∈ listing w repo ∨ x = made) ∧
  (Forall printable (as_bytes (location_text l)) →
    ∀ hold w2 h, create_worktree_in git_files repo hold id wa ≠ (w2, Ok h)) ∧
  ∀ h w2, wh_path h = location_text l → remove_worktree_in repo h wa = (w2, Ok tt) →
    ∀ x, x ∈ listing w2 repo ↔ x ∈ listing w repo ∧ lw_path x ≠ wh_path h.
Proof.
  intros Hv Hc Hok Hnone Hnew made.
  assert (∀ x, x ∈ listing wa repo ↔ x ∈ listing w repo ∨ x = made) as Hlisting.
  { intros x. rewrite !in_listing. setoid_rewrite Hnew. unfold made. rewrite <- (added_listed id v l c Hv). split.
    - intros (e & -> & [He| ->]); [left; by exists e|by right].
    - intros [(e & -> & He)| ->]; eexists; (split; [done|]); [by left|by right]. }
  split_and!; [done| |].
  - intros Hl hold w2 h. eapply (held_refused _ _ _ _ made); [|apply Hlisting; by right|done].
    apply Forall_forall. intros e [He| ->]%Hnew; [|by eapply added_ok]. by eapply Forall_forall in Hok.
  - intros h w2 Hh Hrem x. rewrite (removed_listing _ _ _ _ Hrem), Hlisting. rewrite Hh.
    split; [|naive_solver]. intros [[Hx| ->] Hne]; done.
Qed.

(** What a refused creation tells, and leaves. *)
Definition refusal_spec (repo : string) (hold : Path) (id : string) (w w1 : git_world) (e : WorktreeError) : Prop :=
  let target := resolve_in_scope (git_files w) hold (hold ++ [Normal id]) in
  match e with
  | InvalidWorkId i => i = id ∧ work_id_parse id = None ∧ w1 = w
  | WorktreeExists i => i = id ∧ (∃ x, x ∈ listing w repo ∧ lw_work_id x = Some id) ∧ w1 = w
  | WorktreeEscape p => target = Err p ∧ w1 = w
  | WorktreeGit _ => ∀ x, (∀ l, target = Ok l → lw_path x ≠ location_text l) →
      x ∈ listing w1 repo ↔ x ∈ listing w repo
  end.

(** C39. One Work, one worktree.  Take a repository whose worktrees are listed
    in printable text, and a target with no dangling link on its way.  A
    creation that succeeds was for a valid Work that had none; it adds exactly
    one to the list, at the path its target resolved to inside the holding
    directory, on the Work's branch, at the commit git named as HEAD, which the
    handle records; no second creation for that Work succeeds while it is
    there, and once it is removed what is listed is what was before it, with
    none for the Work.  A creation refused for its id, for a worktree the Work
    has or for its path says so truly and changes nothing; one git refused
    leaves every worktree but one at the target as it was. *)
Theorem one_worktree_per_work (repo : string) (hold : Path) (id : string) (w w1 : git_world)
    (r : result WorktreeError WorktreeHandle) :
  Forall entry_ok (git_worktrees w repo) →
  fs_wf (git_files w) → dangles (git_files w) (hold ++ [Normal id]) = false →
  create_worktree_in git_files repo hold id w = (w1, r) →
  match r with
  | Err e => refusal_spec repo hold id w w1 e
  | Ok h =>
      is_Some (work_id_parse id) ∧
      (∃ l, resolve_in_scope (git_files w) hold (hold ++ [Normal id]) = Ok l ∧
        h = mkHandle id (location_text l) ("heiwa/" +:+ id) (git_head w repo)) ∧
      (∀ x, x ∈ listing w repo → lw_work_id x ≠ Some id) ∧
      (∀ x, x ∈ listing w1 repo ↔ x ∈ listing w repo ∨
        x = mkListed (wh_path h) (git_head w repo) (Some ("refs/heads/heiwa/" +:+ id)) (Some id)) ∧
      (Forall printable (as_bytes (wh_path h)) →
        ∀ hold' w2 h', create_worktree_in git_files repo hold' id w1 ≠ (w2, Ok h')) ∧
      (∀ w2, remove_worktree_in repo h w1 = (w2, Ok tt) →
        ∀ x, x ∈ listing w2 repo ↔ x ∈ listing w repo ∧ lw_path x ≠ wh_path h)
  end.
Proof.
  intros Hok Hfs Hd. unfold create_worktree_in at 1.
  destruct (work_id_parse id) as [v|] eqn:Hv; [|by intros [= <- <-]].
  destruct (list_worktrees_in repo w) as [wl [ls|e]] eqn:Hl; pose proof (list_still _ _ _ _ Hl) as ->.
  2: { intros [= <- <-]. unfold list_worktrees_in in Hl. repeat case_match; by simplify_eq. }
  apply list_exact in Hl as [_ ->]; [|done].
  destruct (existsb _ _) eqn:Hheld.
  { intros [= <- <-]. split; [done|]. split; [|done].
    apply existsb_exists in Hheld as (x & Hx%list_elem_of_In & Hid%bool_decide_eq_true). by exists x. }
  pose proof (proj1 (held_spec id w repo) Hheld) as Hnone. destruct (resolve_in_scope _ _ _) as [l|e] eqn:Hscope; [|by intros [= <- <-]].
  destruct (git repo ["rev-parse"; "HEAD"] w) as [wh [c|e]] eqn:Hhead; apply head_read in Hhead as [-> Hc];
    [destruct (Hc _ eq_refl) as [-> Hname]; clear Hc|by intros [= <- <-]].
  pose proof (resolved_linkless _ _ _ _ Hfs Hd Hscope) as Hplain.
  destruct (git repo _ w) as [wa [s|e]] eqn:Hadd; intros [= <- <-].
  - apply git_ok in Hadd as (out & err & Hadd & _).
    pose proof (proj2 (worktree_add_law _ _ _ _ _ _ _ Hadd Hname Hplain) _ _ eq_refl) as Hnew.
    destruct (created_spec _ _ _ _ _ _ _ Hv Hname Hok Hnone Hnew) as (Hlisting & Hsecond & Hrem).
    split_and!; [done|by exists l|done|exact Hlisting|exact Hsecond|]. intros w2. by apply Hrem.
  - intros x Hx. apply git_err in Hadd as [[Hd' _]|(out & Hc & _)]; [done|].
    apply (listing_iff (λ x, lw_path x ≠ location_text l)); [|by apply Hx].
    apply (worktree_add_law _ _ _ _ _ _ _ Hc Hname Hplain).
Qed.
End lifecycle.
