(* ===== verification/Executions.v ===== *)
(** * Provider executions (crates/heiwa_session/src/provider_executions.rs)

    The read model of what providers were seen to do: route events of the
    operator stream folded into one row per provider and channel, with what it
    could not interpret counted.  A count of rows is a [Z] without a bound: it
    counts lines of a file. *)

From stdpp Require Import base gmap sets strings numbers pretty list.
From Stdlib Require Import Ascii.
From S2P Require Import Prelude Json OperatorEvent Sensitive Turns EventLog OperatorJournal WorkerLease Git.
#[local] Open Scope Z_scope.

Definition KNOWN_CHANNEL_KINDS : list string := ["api_key"; "oauth"; "oauth_cli"; "local_runtime"].

Definition KNOWN_FAILURE_CLASSES : list string :=
  ["cancelled"; "rate_limited"; "authentication"; "quota_exhausted"; "timeout"; "availability";
   "invalid_usage"; "provider"].

Definition MAX_IDENTIFIER_LEN : Z := 128.
Definition MAX_PENDING_ATTEMPTS : nat := 64.

(** ** What an identity may look like *)

Definition is_ascii_lowercase (a : ascii) : bool := bool_decide (97 ≤ byte_val a ≤ 122).
Definition is_ascii_digit (a : ascii) : bool := bool_decide (48 ≤ byte_val a ≤ 57).
Definition one_of (cs : bytes) (a : ascii) : bool := bool_decide (a ∈ cs).

Definition bounded_text (max : Z) (raw : string) : bool :=
  negb (bool_decide (raw = "")) && (str_len raw <=? max).

Definition provider_name (raw : string) : option string :=
  if bounded_text 64 raw &&
     forallb (λ a, is_ascii_lowercase a || is_ascii_digit a || one_of (bs "._-") a) (as_bytes raw)
  then Some raw else None.

Definition account_identifier (raw : string) : option string :=
  if bounded_text MAX_IDENTIFIER_LEN raw &&
     forallb (λ a, is_ascii_alphanumeric a || one_of (bs "._-") a) (as_bytes raw)
  then Some raw else None.

Definition binary_identifier (raw : string) : option string :=
  let allowed := λ a, is_ascii_alphanumeric a || one_of (bs "._+-") a in
  let slash := λ a, one_of (bs "/") a in
  if bounded_text MAX_IDENTIFIER_LEN raw &&
     match strip_prefix (bs "/") (as_bytes raw) with
     | Some path =>
         negb (bool_decide (path = [])) &&
         forallb (λ part, negb (bool_decide (part = [])) && forallb allowed part) (split_at slash path)
     | None => forallb allowed (as_bytes raw)
     end
  then Some raw else None.

Definition model_charset (a : ascii) : bool := is_ascii_alphanumeric a || one_of (bs "._:/@+-") a.

(** A URL or an authority with a user part. *)
Definition url_like (s : bytes) : bool :=
  contains (bs "://") s || starts_with (bs "//") s ||
  match split_once (bs "@") s with
  | Some (before, _) => contains (bs ":") before || contains (bs "/") before
  | None => false
  end.

Definition model_identifier (raw : string) : option string :=
  if bounded_text MAX_IDENTIFIER_LEN raw && forallb model_charset (as_bytes raw) &&
     negb (url_like (as_bytes raw))
  then Some raw else None.

(** ** The view *)

Record ObservedChannel : Type := mkChannel {
  oc_kind : string;
  oc_account_id : option string;
  oc_binary : option string;
}.

#[export] Instance channel_eq_dec : EqDecision ObservedChannel.
Proof. solve_decision. Defined.

#[export] Instance channel_countable : Countable ObservedChannel.
Proof.
  apply (inj_countable' (λ c, (oc_kind c, oc_account_id c, oc_binary c))
    (λ p, mkChannel p.1.1 p.1.2 p.2)). by intros [].
Defined.

(** The key of a row: a provider and a channel. *)
Definition channel_key : Type := string * ObservedChannel.

Definition unknown_channel : ObservedChannel := mkChannel "unknown" None None.

(** [Value::index]: [Null] where there is nothing. *)
Definition json_index (v : json) (k : string) : json := default JNull (json_get k v).

(** [ObservedChannel::from_payload]: the channel, and whether an identity in it
    was refused. *)
Definition channel_from_payload (value : json) : ObservedChannel * bool :=
  match get_str value "kind" with
  | Some kind =>
      if bool_decide (kind ∈ KNOWN_CHANNEL_KINDS) then
        let checked_account := account_identifier <$> get_str value "account_id" in
        let checked_binary := binary_identifier <$> get_str value "binary" in
        if bool_decide (checked_account = Some None ∨ checked_binary = Some None)
        then (unknown_channel, true)
        else (mkChannel kind (mjoin checked_account) (mjoin checked_binary), false)
      else (unknown_channel, false)
  | None => (unknown_channel, false)
  end.

Record SuccessObservation : Type := mkSuccess { so_at : string; so_model : string }.
Record FailureObservation : Type := mkFailure {
  fo_at : string; fo_model : string; fo_class : string; fo_origin : string
}.
Inductive LatestOutcome : Type := LatestSuccess | LatestFailure.

#[export] Instance latest_eq_dec : EqDecision LatestOutcome.
Proof. solve_decision. Defined.

Record ProviderExecution : Type := mkExecution {
  pe_provider : string;
  pe_channel : ObservedChannel;
  pe_last_success : option SuccessObservation;
  pe_last_failure : option FailureObservation;
  pe_latest : LatestOutcome;
  pe_successes : Z;
  pe_failures : Z;
}.

Record OpenAttempt : Type := mkAttempt { oa_provider : string; oa_model : string; oa_at : string }.

Record ExcludedOutcomes : Type := mkExcluded {
  ex_not_invoked : Z;
  ex_accounting : Z;
  ex_cancelled : Z;
  ex_malformed : Z;
  ex_pending_overflow : Z;
}.

Inductive EvidenceState : Type := Complete | Partial | Empty | Unavailable.

Record ExecutionEvidence : Type := mkEvidence {
  ee_state : EvidenceState;
  ee_source : string;
  ee_window_from : option string;
  ee_events_inspected : Z;
  ee_skipped_lines : Z;
  ee_starts_mid_stream : bool;
  ee_dropped_events : Z;
  ee_unsupported_schema_events : Z;
  ee_rejected_facts : Z;
  ee_error : option string;
}.

Record ProviderExecutionView : Type := mkView {
  pv_evidence : ExecutionEvidence;
  pv_observations : list ProviderExecution;
  pv_open_attempts : list OpenAttempt;
  pv_excluded : ExcludedOutcomes;
}.

(** ** The fold *)

Record Row : Type := mkRow' {
  r_last_success : option (Z * SuccessObservation);
  r_last_failure : option (Z * FailureObservation);
  r_successes : Z;
  r_failures : Z;
}.
Definition default_row : Row := mkRow' None None 0 0.

(** The rows are a [BTreeMap]; [view] lists them by key. *)
Record ProviderExecutionFold : Type := mkFold {
  pf_rows : gmap channel_key Row;
  pf_pending : list (string * OpenAttempt);
  pf_excluded : ExcludedOutcomes;
  pf_order : Z;
  pf_first_seen_at : option string;
  pf_events_inspected : Z;
  pf_unsupported_schema_events : Z;
  pf_rejected_facts : Z;
}.

Definition no_exclusions : ExcludedOutcomes := mkExcluded 0 0 0 0 0.
Definition default_fold : ProviderExecutionFold := mkFold ∅ [] no_exclusions 0 None 0 0 0.

Definition set_rows (rows : gmap channel_key Row) (f : ProviderExecutionFold) :=
  mkFold rows (pf_pending f) (pf_excluded f) (pf_order f) (pf_first_seen_at f)
    (pf_events_inspected f) (pf_unsupported_schema_events f) (pf_rejected_facts f).
Definition set_pending (pending : list (string * OpenAttempt)) (f : ProviderExecutionFold) :=
  mkFold (pf_rows f) pending (pf_excluded f) (pf_order f) (pf_first_seen_at f)
    (pf_events_inspected f) (pf_unsupported_schema_events f) (pf_rejected_facts f).
Definition set_excluded (x : ExcludedOutcomes) (f : ProviderExecutionFold) :=
  mkFold (pf_rows f) (pf_pending f) x (pf_order f) (pf_first_seen_at f)
    (pf_events_inspected f) (pf_unsupported_schema_events f) (pf_rejected_facts f).
Definition reject_fact (f : ProviderExecutionFold) :=
  mkFold (pf_rows f) (pf_pending f) (pf_excluded f) (pf_order f) (pf_first_seen_at f)
    (pf_events_inspected f) (pf_unsupported_schema_events f) (pf_rejected_facts f + 1).
Definition next_order (f : ProviderExecutionFold) :=
  mkFold (pf_rows f) (pf_pending f) (pf_excluded f) (pf_order f + 1) (pf_first_seen_at f)
    (pf_events_inspected f) (pf_unsupported_schema_events f) (pf_rejected_facts f).

Definition bump_excluded (x d : ExcludedOutcomes) : ExcludedOutcomes :=
  mkExcluded (ex_not_invoked x + ex_not_invoked d) (ex_accounting x + ex_accounting d)
    (ex_cancelled x + ex_cancelled d) (ex_malformed x + ex_malformed d)
    (ex_pending_overflow x + ex_pending_overflow d).
Definition exclude (d : ExcludedOutcomes) (f : ProviderExecutionFold) : ProviderExecutionFold :=
  set_excluded (bump_excluded (pf_excluded f) d) f.
Definition one_not_invoked : ExcludedOutcomes := mkExcluded 1 0 0 0 0.
Definition one_accounting : ExcludedOutcomes := mkExcluded 0 1 0 0 0.
Definition one_cancelled : ExcludedOutcomes := mkExcluded 0 0 1 0 0.
Definition one_malformed : ExcludedOutcomes := mkExcluded 0 0 0 1 0.
Definition one_overflow : ExcludedOutcomes := mkExcluded 0 0 0 0 1.

(** [close]: the first open attempt of the key is no longer open. *)
Fixpoint remove_first (key : string) (pending : list (string * OpenAttempt)) : list (string * OpenAttempt) :=
  match pending with
  | [] => []
  | (k, open) :: rest => if bool_decide (k = key) then rest else (k, open) :: remove_first key rest
  end.
Definition close (key : string) (f : ProviderExecutionFold) : ProviderExecutionFold :=
  set_pending (remove_first key (pf_pending f)) f.

(** [channel] *)
Definition channel (value : json) (f : ProviderExecutionFold) : ObservedChannel * ProviderExecutionFold :=
  match channel_from_payload value with
  | (c, true) => (c, reject_fact f)
  | (c, false) => (c, f)
  end.

(** [success] *)
Definition success (provider : string) (c : ObservedChannel) (model at_ : string) (order : Z)
    (f : ProviderExecutionFold) : ProviderExecutionFold :=
  let row := default default_row (pf_rows f !! (provider, c)) in
  set_rows (<[(provider, c) := mkRow' (Some (order, mkSuccess at_ model)) (r_last_failure row)
                                 (r_successes row + 1) (r_failures row)]> (pf_rows f)) f.

Definition failure (provider : string) (c : ObservedChannel) (seen : FailureObservation) (order : Z)
    (f : ProviderExecutionFold) : ProviderExecutionFold :=
  let row := default default_row (pf_rows f !! (provider, c)) in
  set_rows (<[(provider, c) := mkRow' (r_last_success row) (Some (order, seen))
                                 (r_successes row) (r_failures row + 1)]> (pf_rows f)) f.

Definition attempt_key (event : OperatorEvent) : string :=
  default "" (call_id event) +:+ "#" +:+ pretty (default 0 (get_u64 (payload event) "attempt")).

Definition failure_class (event : OperatorEvent) : string :=
  match get_str (payload event) "failure_class" with
  | Some class => if bool_decide (class ∈ KNOWN_FAILURE_CLASSES) then class else "unclassified"
  | None => "unclassified"
  end.

Definition is_route (event : OperatorEvent) : bool :=
  match event_type event with RouteAttempted | RouteCompleted | RouteFailed => true | _ => false end.

Section fold.
Context `{Rfc3339}.

Definition timestamp (raw : string) : option string :=
  match parse_rfc3339 raw with Some _ => Some raw | None => None end.

(** The first lines of [observe]: every event is counted. *)
Definition inspect (event : OperatorEvent) (f : ProviderExecutionFold) : ProviderExecutionFold :=
  mkFold (pf_rows f) (pf_pending f) (pf_excluded f) (pf_order f)
    (match pf_first_seen_at f with None => timestamp (occurred_at event) | seen => seen end)
    (saturating_add u64_max (pf_events_inspected f) 1)
    (pf_unsupported_schema_events f) (pf_rejected_facts f).

(** The outcome of a failed route, once its attempt is closed. *)
Definition observe_failed (event : OperatorEvent) (provider model at_ : string) (order : Z)
    (f : ProviderExecutionFold) : ProviderExecutionFold :=
  let '(c, f) := channel (json_index (payload event) "channel") f in
  let class := failure_class event in
  if bool_decide (class = "cancelled") then exclude one_cancelled f
  else if bool_decide (get_bool (payload event) "provider_invoked" = Some false)
  then exclude one_not_invoked f
  else
    let failed origin := failure provider c (mkFailure at_ model class origin) order f in
    match get_str (payload event) "failure_origin" with
    | Some origin =>
        if bool_decide (origin = "provider") then failed "provider"
        else if bool_decide (origin = "accounting")
        then success provider c model at_ order (exclude one_accounting f)
        else if bool_decide (origin = "resolver") then exclude one_not_invoked f
        else failed "unverified"
    | None => failed "unverified"
    end.

(** [ProviderExecutionFold::observe] *)
Definition observe (event : OperatorEvent) (f : ProviderExecutionFold) : ProviderExecutionFold :=
  let f := inspect event f in
  if negb (is_route event) then f
  else
    match get_str (payload event) "provider" ≫= provider_name, timestamp (occurred_at event) with
    | Some provider, Some at_ =>
        let '(model, f) :=
          match get_str (payload event) "model" with
          | None => ("unknown", f)
          | Some raw =>
              match model_identifier raw with Some m => (m, f) | None => ("unknown", reject_fact f) end
          end in
        let key := attempt_key event in
        let f := next_order f in
        let order := pf_order f in
        match event_type event with
        | RouteAttempted =>
            let f :=
              if bool_decide (length (pf_pending f) = MAX_PENDING_ATTEMPTS)
              then exclude one_overflow (set_pending (drop 1 (pf_pending f)) f) else f in
            set_pending (pf_pending f ++ [(key, mkAttempt provider model at_)]) f
        | RouteCompleted =>
            let '(c, f) := channel (json_index (payload event) "channel") (close key f) in
            success provider c model at_ order f
        | _ => observe_failed event provider model at_ order (close key f)
        end
    | _, _ => reject_fact (exclude one_malformed f)
    end.

Definition note_unsupported_schema (f : ProviderExecutionFold) : ProviderExecutionFold :=
  mkFold (pf_rows f) (pf_pending f) (pf_excluded f) (pf_order f) (pf_first_seen_at f)
    (pf_events_inspected f) (saturating_add u64_max (pf_unsupported_schema_events f) 1)
    (pf_rejected_facts f).

(** The derived order of the keys of the map. *)
Definition channel_compare (a b : ObservedChannel) : comparison :=
  then_cmp (String.compare (oc_kind a) (oc_kind b))
    (then_cmp (option_cmp String.compare (oc_account_id a) (oc_account_id b))
      (option_cmp String.compare (oc_binary a) (oc_binary b))).

Definition key_compare (a b : channel_key) : comparison :=
  then_cmp (String.compare a.1 b.1) (channel_compare a.2 b.2).

(** [failure_order > success_order], of options. *)
Definition later_failure (row : Row) : bool :=
  match r_last_failure row, r_last_success row with
  | Some (failed, _), Some (succeeded, _) => bool_decide (succeeded < failed)
  | Some _, None => true
  | None, _ => false
  end.

Definition execution_of (entry : channel_key * Row) : ProviderExecution :=
  let '((provider, c), row) := entry in
  mkExecution provider c (snd <$> r_last_success row) (snd <$> r_last_failure row)
    (if later_failure row then LatestFailure else LatestSuccess) (r_successes row) (r_failures row).

(** [ProviderExecutionFold::view] *)
Definition view (f : ProviderExecutionFold) (evidence : ExecutionEvidence) : ProviderExecutionView :=
  let observations := map execution_of (sort_by (λ a b, key_compare a.1 b.1) (map_to_list (pf_rows f))) in
  let uninterpreted := bool_decide (0 < pf_unsupported_schema_events f + pf_rejected_facts f) in
  let state :=
    match ee_state evidence with
    | Complete | Empty => if uninterpreted then Partial else ee_state evidence
    | state => state
    end in
  mkView
    (mkEvidence state (ee_source evidence) (pf_first_seen_at f) (pf_events_inspected f)
       (ee_skipped_lines evidence) (ee_starts_mid_stream evidence) (ee_dropped_events evidence)
       (pf_unsupported_schema_events f) (pf_rejected_facts f) (ee_error evidence))
    observations (snd <$> pf_pending f) (pf_excluded f).

Definition unavailable (error : string) : ProviderExecutionView :=
  view default_fold (mkEvidence Unavailable "journal_tail" None 0 0 false 0 0 0 (Some error)).

(** The loop of [observe_tail]: a repeated event id re-states a fact. *)
Definition observe_tail_row (st : ProviderExecutionFold * gset string) (row : CursorEvent)
    : ProviderExecutionFold * gset string :=
  let '(f, seen) := st in
  let event := ce_event row in
  if bool_decide (event_id event ∈ seen) then (f, seen)
  else
    let seen := {[event_id event]} ∪ seen in
    if bool_decide (schema_version event ≠ OPERATOR_EVENT_SCHEMA_VERSION)
    then (note_unsupported_schema f, seen) else (observe event f, seen).

Definition observe_rows_of (rows : list CursorEvent) : ProviderExecutionFold :=
  (foldl observe_tail_row (default_fold, ∅) rows).1.

Definition tail_state (tail : OperatorTail) : EvidenceState :=
  if negb (ot_stream_present tail) then Empty else if is_complete tail then Complete else Partial.

(** [observe_tail] *)
Definition observe_tail (tail : OperatorTail) : ProviderExecutionView :=
  view (observe_rows_of (ot_events tail))
    (mkEvidence (tail_state tail) "journal_tail" None 0 (ot_skipped_lines tail)
       (ot_starts_mid_stream tail) (ot_dropped_events tail) 0 0 None).

(** [observe_journal_tail], of the result of [read_tail]. *)
Definition observe_journal_tail (read : result CursorError OperatorTail) : ProviderExecutionView :=
  match read with
  | Ok tail => observe_tail tail
  | Err (UnstableLineage _) => unavailable "unstable_lineage"
  | Err (InvalidCursor _) => unavailable "invalid_cursor"
  | Err (Storage _) => unavailable "storage"
  end.

End fold.
