(* ===== verification/ProviderEvidence.v ===== *)
(** * What the provider executions show

    The view of Executions.v against the events it was folded from: its rows and
    its counts are exact, and nothing of an event beyond an allowlist of
    identities reaches it.  Then the projection a running service keeps. *)

From stdpp Require Import base gmap sets strings numbers pretty sorting list.
From Stdlib Require Import Ascii.
From S2P Require Import Prelude Json Hex OperatorEvent Sensitive Turns TurnProtocol EventLog OperatorJournal.
From S2P Require Import WorkerLease Session SessionSync SessionTurns Git Executions.
#[local] Open Scope Z_scope.

Definition Outcome : Type := SuccessObservation + FailureObservation.

(** What one event says, read on its own. *)
Inductive Verdict : Type :=
| NoRoute
| BadRoute
| Attempt (open : OpenAttempt)
| CancelledCall
| NeverInvoked
| Unaccounted (k : channel_key) (seen : SuccessObservation)
| Settled (k : channel_key) (o : Outcome).

Section verdicts.
Context `{Rfc3339}.

Definition model_of (event : OperatorEvent) : string :=
  default "unknown" (get_str (payload event) "model" ≫= model_identifier).

Definition channel_of (event : OperatorEvent) : ObservedChannel :=
  (channel_from_payload (json_index (payload event) "channel")).1.

Definition failure_verdict (event : OperatorEvent) (provider at_ : string) : Verdict :=
  let key := (provider, channel_of event) in
  let failed origin := Settled key (inr (mkFailure at_ (model_of event) (failure_class event) origin)) in
  if bool_decide (failure_class event = "cancelled") then CancelledCall
  else if bool_decide (get_bool (payload event) "provider_invoked" = Some false) then NeverInvoked
  else
    match get_str (payload event) "failure_origin" with
    | Some origin =>
        if bool_decide (origin = "provider") then failed "provider"
        else if bool_decide (origin = "accounting") then Unaccounted key (mkSuccess at_ (model_of event))
        else if bool_decide (origin = "resolver") then NeverInvoked
        else failed "unverified"
    | None => failed "unverified"
    end.

Definition verdict (event : OperatorEvent) : Verdict :=
  if negb (is_route event) then NoRoute
  else
    match get_str (payload event) "provider" ≫= provider_name, timestamp (occurred_at event) with
    | Some provider, Some at_ =>
        match event_type event with
        | RouteAttempted => Attempt (mkAttempt provider (model_of event) at_)
        | RouteCompleted =>
            Settled (provider, channel_of event) (inl (mkSuccess at_ (model_of event)))
        | _ => failure_verdict event provider at_
        end
    | _, _ => BadRoute
    end.

(** The outcomes of one channel, in the order of the stream. *)
Definition outcome (v : Verdict) : option (channel_key * Outcome) :=
  match v with
  | Unaccounted k seen => Some (k, inl seen)
  | Settled k o => Some (k, o)
  | _ => None
  end.

Definition outcomes_of (k : channel_key) (vs : list Verdict) : list Outcome :=
  omap (λ v, '(k', o) ← outcome v; if bool_decide (k' = k) then Some o else None) vs.

(** The events a fold inspects: the first of each id, of the current schema. *)
Fixpoint inspected (seen : gset string) (rows : list CursorEvent) : list OperatorEvent :=
  match rows with
  | [] => []
  | row :: rest =>
      let event := ce_event row in
      if bool_decide (event_id event ∈ seen) then inspected seen rest
      else
        (if bool_decide (schema_version event ≠ OPERATOR_EVENT_SCHEMA_VERSION) then [] else [event])
        ++ inspected ({[event_id event]} ∪ seen) rest
  end.

(** ** What the rows and the counts should be *)

Definition success_of (o : Outcome) : option SuccessObservation :=
  match o with inl s => Some s | inr _ => None end.
Definition failure_of (o : Outcome) : option FailureObservation :=
  match o with inl _ => None | inr s => Some s end.
Definition latest_of (os : list Outcome) : LatestOutcome :=
  match last os with Some (inr _) => LatestFailure | _ => LatestSuccess end.

Definition summary (k : channel_key) (os : list Outcome) : ProviderExecution :=
  mkExecution k.1 k.2 (last (omap success_of os)) (last (omap failure_of os)) (latest_of os)
    (Z.of_nat (length (omap success_of os))) (Z.of_nat (length (omap failure_of os))).

Definition key_of (x : ProviderExecution) : channel_key := (pe_provider x, pe_channel x).

Definition is_attempt (v : Verdict) : bool := match v with Attempt _ => true | _ => false end.
Definition is_bad (v : Verdict) : bool := match v with BadRoute => true | _ => false end.
Definition is_cancelled (v : Verdict) : bool := match v with CancelledCall => true | _ => false end.
Definition is_uninvoked (v : Verdict) : bool := match v with NeverInvoked => true | _ => false end.
Definition is_unaccounted (v : Verdict) : bool := match v with Unaccounted _ _ => true | _ => false end.

Definition tally (p : Verdict → bool) (vs : list Verdict) : Z :=
  Z.of_nat (length (List.filter p vs)).

(** ** What the fold holds after some verdicts *)

Record row_shows (n : Z) (row : Row) (os : list Outcome) : Prop := {
  rs_successes : r_successes row = Z.of_nat (length (omap success_of os));
  rs_failures : r_failures row = Z.of_nat (length (omap failure_of os));
  rs_last_success : snd <$> r_last_success row = last (omap success_of os);
  rs_last_failure : snd <$> r_last_failure row = last (omap failure_of os);
  rs_latest : later_failure row = bool_decide (latest_of os = LatestFailure);
  rs_success_order : ∀ x, r_last_success row = Some x → x.1 ≤ n;
  rs_failure_order : ∀ x, r_last_failure row = Some x → x.1 ≤ n;
}.

Definition rows_show (n : Z) (rows : gmap channel_key Row) (vs : list Verdict) : Prop :=
  ∀ k, row_shows n (default default_row (rows !! k)) (outcomes_of k vs) ∧
       (rows !! k = None ↔ outcomes_of k vs = []).

Definition counts_show (x : ExcludedOutcomes) (vs : list Verdict) : Prop :=
  ex_not_invoked x = tally is_uninvoked vs ∧ ex_accounting x = tally is_unaccounted vs ∧
  ex_cancelled x = tally is_cancelled vs ∧ ex_malformed x = tally is_bad vs ∧
  0 ≤ ex_pending_overflow x.

Definition pending_shows (x : ExcludedOutcomes) (pending : list (string * OpenAttempt)) (vs : list Verdict)
    : Prop :=
  (length pending ≤ MAX_PENDING_ATTEMPTS)%nat ∧
  (∀ open, open ∈ pending.*2 → Attempt open ∈ vs) ∧
  ex_pending_overflow x + Z.of_nat (length pending) ≤ tally is_attempt vs.

Definition shows (vs : list Verdict) (f : ProviderExecutionFold) : Prop :=
  rows_show (pf_order f) (pf_rows f) vs ∧ counts_show (pf_excluded f) vs ∧
  pending_shows (pf_excluded f) (pf_pending f) vs.

Definition settled_row (n : Z) (o : Outcome) (row : Row) : Row :=
  match o with
  | inl s => mkRow' (Some (n, s)) (r_last_failure row) (r_successes row + 1) (r_failures row)
  | inr s => mkRow' (r_last_success row) (Some (n, s)) (r_successes row) (r_failures row + 1)
  end.

Lemma row_shows_default n : row_shows n default_row [].
Proof. by split. Qed.

Lemma row_shows_later n n' row os : n ≤ n' → row_shows n row os → row_shows n' row os.
Proof.
  intros Hn [? ? ? ? ? Hs Hf]. split; try done.
  - intros x Hx. specialize (Hs x Hx). lia.
  - intros x Hx. specialize (Hf x Hx). lia.
Qed.

Lemma row_shows_settled n n' o row os :
  n < n' → row_shows n row os → row_shows n' (settled_row n' o row) (os ++ [o]).
Proof.
  intros Hn [Hs Hf Hls Hlf _ Hso Hfo].
  destruct o as [o|o]; split; cbn [settled_row r_successes r_failures r_last_success r_last_failure];
    rewrite ?omap_app, ?length_app, ?last_snoc; simpl; rewrite ?app_nil_r, ?last_snoc; try done; try lia;
    try (by intros x [= <-]; simpl; lia);
    try (intros x Hx; first [specialize (Hso x Hx)|specialize (Hfo x Hx)]; lia).
  - unfold later_failure, latest_of. simpl. rewrite last_snoc.
    destruct (r_last_failure row) as [[i y]|] eqn:E; [|done]. simpl.
    specialize (Hfo _ eq_refl). simpl in Hfo. by rewrite bool_decide_eq_false_2 by lia.
  - unfold later_failure, latest_of. simpl. rewrite last_snoc.
    destruct (r_last_success row) as [[i y]|] eqn:E; [|done]. simpl.
    specialize (Hso _ eq_refl). simpl in Hso. by rewrite bool_decide_eq_true_2 by lia.
Qed.

Lemma outcomes_snoc k vs v :
  outcomes_of k (vs ++ [v]) =
  outcomes_of k vs ++ match outcome v with Some (k', o) => if bool_decide (k' = k) then [o] else [] | None => [] end.
Proof.
  unfold outcomes_of. rewrite omap_app. f_equal. simpl. destruct (outcome v) as [[k' o]|]; [|done].
  simpl. by case_bool_decide.
Qed.

Lemma tally_snoc p vs v : tally p (vs ++ [v]) = tally p vs + (if p v then 1 else 0).
Proof. unfold tally. rewrite List.filter_app, length_app. simpl. destruct (p v); simpl; lia. Qed.

Lemma rows_show_none n n' rows vs v :
  n ≤ n' → outcome v = None → rows_show n rows vs → rows_show n' rows (vs ++ [v]).
Proof.
  intros Hn Hv Hr k. rewrite outcomes_snoc, Hv, app_nil_r. destruct (Hr k) as [H1 H2].
  split; [by eapply row_shows_later|done].
Qed.

Lemma rows_show_settled n rows vs v k o :
  outcome v = Some (k, o) → rows_show n rows vs →
  rows_show (n + 1) (<[k := settled_row (n + 1) o (default default_row (rows !! k))]> rows) (vs ++ [v]).
Proof.
  intros Hv Hr k'. rewrite outcomes_snoc, Hv. destruct (Hr k') as [H1 H2].
  case_bool_decide as Hk.
  - subst k'. rewrite lookup_insert_eq. cbn [default]. split.
    + eapply row_shows_settled; [|exact H1]. lia.
    + split; [done|]. by destruct (outcomes_of k vs).
  - rewrite lookup_insert_ne by done. rewrite app_nil_r. split; [|done].
    eapply row_shows_later; [|exact H1]. lia.
Qed.

(** A fold about to record an outcome under its newest order. *)
Definition ready (vs : list Verdict) (f : ProviderExecutionFold) : Prop :=
  rows_show (pf_order f - 1) (pf_rows f) vs ∧ counts_show (pf_excluded f) vs ∧
  pending_shows (pf_excluded f) (pf_pending f) vs.

(** What a verdict adds to the exclusions. *)
Definition excluded_by (v : Verdict) : ExcludedOutcomes :=
  let count (p : Verdict → bool) := if p v then 1 else 0 in
  mkExcluded (count is_uninvoked) (count is_unaccounted) (count is_cancelled) (count is_bad) 0.

Lemma rows_show_later n n' rows vs : n ≤ n' → rows_show n rows vs → rows_show n' rows vs.
Proof. intros Hn Hr k. destruct (Hr k). split; [by eapply row_shows_later|done]. Qed.

Lemma ready_shows vs f : ready vs f → shows vs f.
Proof. intros (Hr & ? & ?). split; [|done]. eapply rows_show_later; [|exact Hr]. lia. Qed.

Lemma ready_next vs f : shows vs f → ready vs (next_order f).
Proof.
  intros (Hr & ? & ?). split; [|done]. simpl. by replace (pf_order f + 1 - 1) with (pf_order f) by lia.
Qed.

Lemma remove_first_length key pending : (length (remove_first key pending) ≤ length pending)%nat.
Proof. induction pending as [|[k o] pending IH]; simpl; [done|]. case_bool_decide; simpl; lia. Qed.

Lemma remove_first_elem key pending open :
  open ∈ (remove_first key pending).*2 → open ∈ pending.*2.
Proof.
  induction pending as [|[k o] pending IH]; simpl; [done|]. case_bool_decide; [by right|].
  simpl. rewrite !elem_of_cons. tauto.
Qed.

Lemma ready_close vs key f : ready vs f → ready vs (close key f).
Proof.
  intros (? & ? & Hl & Hin & Ho). split; [done|split; [done|]]. unfold pending_shows; cbn -[MAX_PENDING_ATTEMPTS].
  pose proof (remove_first_length key (pf_pending f)). split_and!; [lia| |lia].
  intros open Hop. by eapply Hin, remove_first_elem.
Qed.

Lemma counts_show_snoc x vs v :
  counts_show x vs → counts_show (bump_excluded x (excluded_by v)) (vs ++ [v]).
Proof.
  intros (? & ? & ? & ? & ?). unfold counts_show, excluded_by, bump_excluded; simpl.
  rewrite !tally_snoc. lia.
Qed.

Lemma pending_shows_snoc x pending vs v :
  pending_shows x pending vs → pending_shows (bump_excluded x (excluded_by v)) pending (vs ++ [v]).
Proof.
  intros (? & Hin & ?). split_and!; [done| |].
  - intros open Hop. apply elem_of_app. left. by apply Hin.
  - rewrite tally_snoc. simpl. destruct (is_attempt v); lia.
Qed.

(** An event that settles nothing. *)
Lemma shows_excluded vs f v :
  outcome v = None → shows vs f → shows (vs ++ [v]) (exclude (excluded_by v) f).
Proof.
  intros Hv (Hr & Hc & Hp). split; [|split].
  - by eapply rows_show_none.
  - by apply counts_show_snoc.
  - by apply pending_shows_snoc.
Qed.

(** An event that settles a call. *)
Lemma shows_settled vs f v k o :
  outcome v = Some (k, o) → ready vs f →
  shows (vs ++ [v])
    (set_rows (<[k := settled_row (pf_order f) o (default default_row (pf_rows f !! k))]> (pf_rows f))
       (exclude (excluded_by v) f)).
Proof.
  intros Hv (Hr & Hc & Hp). split; [|split].
  - pose proof (rows_show_settled _ _ _ _ _ _ Hv Hr) as Hs.
    by replace (pf_order f - 1 + 1) with (pf_order f) in Hs by lia.
  - by apply counts_show_snoc.
  - by apply pending_shows_snoc.
Qed.

Lemma shows_attempt vs f key open :
  ready vs f →
  shows (vs ++ [Attempt open])
    (let f := if bool_decide (length (pf_pending f) = MAX_PENDING_ATTEMPTS)
              then exclude one_overflow (set_pending (drop 1 (pf_pending f)) f) else f in
     set_pending (pf_pending f ++ [(key, open)]) f).
Proof.
  intros (Hr & (? & ? & ? & ? & ?) & Hl & Hin & Ho).
  assert (∀ o l, o ∈ (l ++ [(key, open)]).*2 → o ∈ l.*2 ∨ o = open) as Happ.
  { intros o l. rewrite fmap_app, elem_of_app. simpl. rewrite list_elem_of_singleton. tauto. }
  cbv zeta. case_bool_decide as Hfull; (split; [|split]); cbn [pf_order pf_rows pf_excluded pf_pending set_pending exclude set_excluded].
  - eapply rows_show_none; [|done|exact Hr]. lia.
  - unfold counts_show; simpl. rewrite !tally_snoc. simpl. lia.
  - unfold pending_shows. rewrite length_app, length_drop, tally_snoc, Hfull. simpl. split_and!; [unfold MAX_PENDING_ATTEMPTS; lia| |].
    + intros o [Hop| ->]%Happ; [|apply elem_of_app; right; by left]. apply elem_of_app. left. apply Hin.
      rewrite <- (take_drop 1 (pf_pending f)), fmap_app. apply elem_of_app. by right.
    + rewrite Hfull in Ho. unfold MAX_PENDING_ATTEMPTS in *. lia.
  - eapply rows_show_none; [|done|exact Hr]. lia.
  - unfold counts_show; simpl. rewrite !tally_snoc. simpl. lia.
  - unfold pending_shows. rewrite length_app, tally_snoc. simpl. split_and!; [lia| |lia].
    intros o [Hop| ->]%Happ; [|apply elem_of_app; right; by left]. apply elem_of_app. left. by apply Hin.
Qed.

Lemma exclude_nothing f : exclude no_exclusions f = f.
Proof. destruct f as [? ? [] ? ? ? ? ?]. unfold exclude, bump_excluded, set_excluded; simpl. by rewrite !Z.add_0_r. Qed.

(** What the verdict does not see: facts refused on the way. *)
Lemma model_step event f :
  ∃ g, (match get_str (payload event) "model" with
        | None => ("unknown", f)
        | Some raw => match model_identifier raw with Some m => (m, f) | None => ("unknown", reject_fact f) end
        end) = (model_of event, g) ∧ ∀ vs, shows vs f → shows vs g.
Proof.
  unfold model_of. destruct (get_str _ _) as [raw|]; [|by eexists]. simpl.
  destruct (model_identifier raw); by eexists.
Qed.

Lemma channel_step event f :
  ∃ g, channel (json_index (payload event) "channel") f = (channel_of event, g) ∧
    pf_order g = pf_order f ∧ ∀ vs, ready vs f → ready vs g.
Proof.
  unfold channel, channel_of. destruct (channel_from_payload _) as [c []]; by eexists.
Qed.

Lemma failed_shows vs event provider at_ f :
  ready vs f →
  shows (vs ++ [failure_verdict event provider at_])
    (observe_failed event provider (model_of event) at_ (pf_order f) f).
Proof.
  intros Hf. unfold observe_failed, failure_verdict.
  destruct (channel_step event f) as (g & -> & <- & Hg). specialize (Hg _ Hf).
  case_bool_decide; [by apply (shows_excluded _ _ CancelledCall), ready_shows|].
  case_bool_decide; [by apply (shows_excluded _ _ NeverInvoked), ready_shows|].
  assert (∀ o, shows (vs ++ [Settled (provider, channel_of event) (inr o)])
    (failure provider (channel_of event) o (pf_order g) g)) as Hfail.
  { intros o. pose proof (shows_settled vs g (Settled (provider, channel_of event) (inr o)) _ _ eq_refl Hg) as Hs.
    change (excluded_by (Settled _ _)) with no_exclusions in Hs. by rewrite exclude_nothing in Hs. }
  destruct (get_str _ "failure_origin") as [origin|]; [|apply Hfail].
  case_bool_decide; [apply Hfail|]. case_bool_decide.
  - exact (shows_settled vs g (Unaccounted _ (mkSuccess at_ (model_of event))) _ _ eq_refl Hg).
  - case_bool_decide; [by apply (shows_excluded _ _ NeverInvoked), ready_shows|apply Hfail].
Qed.

Lemma observe_shows vs event f : shows vs f → shows (vs ++ [verdict event]) (observe event f).
Proof.
  intros Hf. unfold observe, verdict.
  assert (shows vs (inspect event f)) as Hi by exact Hf. revert Hi. generalize (inspect event f) as g.
  intros g Hg. destruct (negb (is_route event)) eqn:Hroute.
  { pose proof (shows_excluded vs g NoRoute eq_refl Hg) as Hs.
    change (excluded_by NoRoute) with no_exclusions in Hs. by rewrite exclude_nothing in Hs. }
  destruct (get_str (payload event) "provider" ≫= provider_name) as [provider|];
    [|exact (shows_excluded vs g BadRoute eq_refl Hg)].
  destruct (timestamp (occurred_at event)) as [at_|];
    [|exact (shows_excluded vs g BadRoute eq_refl Hg)].
  destruct (model_step event g) as (h & -> & Hh). apply Hh, ready_next in Hg.
  unfold is_route in Hroute. revert Hg. generalize (next_order h) as k. intros k Hk.
  destruct (event_type event); try discriminate Hroute.
  - by apply shows_attempt.
  - apply (ready_close _ (attempt_key event)) in Hk. revert Hk.
    change (pf_order k) with (pf_order (close (attempt_key event) k)).
    generalize (close (attempt_key event) k) as l. intros l Hl.
    destruct (channel_step event l) as (m & -> & <- & Hm). apply Hm in Hl.
    pose proof (shows_settled vs m
      (Settled (provider, channel_of event) (inl (mkSuccess at_ (model_of event)))) _ _ eq_refl Hl) as Hs.
    change (excluded_by (Settled _ _)) with no_exclusions in Hs. by rewrite exclude_nothing in Hs.
  - apply (ready_close _ (attempt_key event)) in Hk.
    exact (failed_shows vs event provider at_ (close (attempt_key event) k) Hk).
Qed.

Lemma shows_default : shows [] default_fold.
Proof.
  split; [|split].
  - intros k. cbn [pf_rows default_fold]. rewrite lookup_empty. split; [apply row_shows_default|done].
  - done.
  - split_and!; [simpl; unfold MAX_PENDING_ATTEMPTS; lia|by intros ? ?%elem_of_nil|done].
Qed.

Lemma fold_shows rows : ∀ f seen vs,
  shows vs f →
  shows (vs ++ map verdict (inspected seen rows)) (foldl observe_tail_row (f, seen) rows).1.
Proof.
  induction rows as [|row rows IH]; intros f seen vs Hf; simpl; [by rewrite app_nil_r|].
  case_bool_decide; [by apply IH|]. case_bool_decide; simpl.
  - apply IH. exact Hf.
  - rewrite cons_middle, app_assoc. apply IH. by apply observe_shows.
Qed.

Lemma observed_shows rows :
  shows (map verdict (inspected ∅ rows)) (observe_rows_of rows).
Proof. apply (fold_shows rows default_fold ∅ []), shows_default. Qed.

#[local] Instance channel_compare_laws : CmpLaws channel_compare.
Proof.
  apply then_cmp_laws; [|apply then_cmp_laws].
  - apply (on_cmp_laws String.compare oc_kind).
  - apply (on_cmp_laws (option_cmp String.compare) oc_account_id).
  - apply (on_cmp_laws (option_cmp String.compare) oc_binary).
Qed.

#[local] Instance key_compare_laws : CmpLaws key_compare.
Proof.
  apply then_cmp_laws; [apply (on_cmp_laws String.compare fst)|apply (on_cmp_laws channel_compare snd)].
Qed.

Lemma key_compare_Eq a b : key_compare a b = Eq → a = b.
Proof.
  destruct a as [p [k acc b']], b as [p' [k' acc' b'']].
  unfold key_compare, channel_compare, then_cmp; simpl.
  destruct (String.compare p p') eqn:E1, (String.compare k k') eqn:E2; try done.
  apply string_compare_Eq in E1 as ->, E2 as ->.
  destruct (option_cmp String.compare acc acc') eqn:E3; try done. intros E4.
  apply (option_cmp_Eq _ string_compare_Eq) in E3 as ->, E4 as ->. done.
Qed.

Lemma execution_summary k n row os : row_shows n row os → execution_of (k, row) = summary k os.
Proof.
  destruct k as [provider c]. intros [Hs Hf Hls Hlf Hl _ _]. unfold execution_of, summary.
  rewrite Hs, Hf, Hls, Hlf, Hl. case_bool_decide as E; [by rewrite E|]. simpl. by destruct (latest_of os).
Qed.

(** The rows listed are the summaries of the outcomes. *)
Lemma observation_elem rows evidence x :
  x ∈ pv_observations (view (observe_rows_of rows) evidence) ↔
  ∃ k, outcomes_of k (map verdict (inspected ∅ rows)) ≠ [] ∧
       x = summary k (outcomes_of k (map verdict (inspected ∅ rows))).
Proof.
  destruct (observed_shows rows) as (Hr & _). set (vs := map verdict _) in *. unfold rows_show in Hr.
  simpl. rewrite list_elem_of_fmap. setoid_rewrite sort_by_perm. split.
  - intros ([k row] & -> & Hk%elem_of_map_to_list). exists k. destruct (Hr k) as [Hs Hnone].
    rewrite Hk in Hs, Hnone. split; [by intros E%Hnone|]. by eapply execution_summary.
  - intros (k & Hne & ->). destruct (Hr k) as [Hs Hnone].
    destruct (pf_rows (observe_rows_of rows) !! k) as [row|] eqn:Hk; [|by destruct Hne; apply Hnone].
    exists (k, row). split; [symmetry; by eapply execution_summary|]. by apply elem_of_map_to_list.
Qed.

(**  The provider view is exact.  An observation is listed for a provider and
    a channel exactly when some inspected event settled a call there, and it is
    the summary of those outcomes in stream order: how many succeeded and
    failed, the newest of each, and whether the newest of all failed.  The list
    is strictly ordered by provider and channel.  Everything that was not an
    outcome is counted under its own heading, and open attempts are bounded, each
    one an attempt that was read, with those forgotten counted. *)
Theorem observations_are_exact (rows : list CursorEvent) (evidence : ExecutionEvidence) :
  let v := view (observe_rows_of rows) evidence in
  let vs := map verdict (inspected ∅ rows) in
  (∀ x, x ∈ pv_observations v ↔ ∃ k, outcomes_of k vs ≠ [] ∧ x = summary k (outcomes_of k vs)) ∧
  StronglySorted (λ x y, key_compare (key_of x) (key_of y) = Lt) (pv_observations v) ∧
  (ex_not_invoked (pv_excluded v) = tally is_uninvoked vs ∧
   ex_accounting (pv_excluded v) = tally is_unaccounted vs ∧
   ex_cancelled (pv_excluded v) = tally is_cancelled vs ∧
   ex_malformed (pv_excluded v) = tally is_bad vs) ∧
  (length (pv_open_attempts v) ≤ MAX_PENDING_ATTEMPTS)%nat ∧
  (∀ open, open ∈ pv_open_attempts v → Attempt open ∈ vs) ∧
  0 ≤ ex_pending_overflow (pv_excluded v) ∧
  ex_pending_overflow (pv_excluded v) + Z.of_nat (length (pv_open_attempts v)) ≤ tally is_attempt vs.
Proof.
  intros v vs. destruct (observed_shows rows) as (Hr & (? & ? & ? & ? & ?) & Hl & Hin & Ho).
  fold vs in Hr, Hin, Ho. unfold rows_show in Hr. subst v.
  set (f := observe_rows_of rows) in *.
  split_and!; try done.
  - intros x. apply observation_elem.
  - apply (StronglySorted_fmap execution_of (λ a b, key_compare a.1 b.1 = Lt)).
    + by intros [[] ?] [[] ?].
    + apply (sort_by_strict _ (CmpLaws0 := on_cmp_laws key_compare fst)); [|apply NoDup_map_to_list].
      intros [k row] [k' row'] Hk%elem_of_map_to_list Hk'%elem_of_map_to_list E%key_compare_Eq.
      simpl in E. subst k'. congruence.
  - unfold view. cbn -[MAX_PENDING_ATTEMPTS]. by rewrite length_fmap.
  - unfold view. cbn -[tally]. by rewrite length_fmap.
Qed.

End verdicts.

(** ** What the identities look like *)

(** A short name of plain characters, and no address. *)
Definition plain_identity (s : string) : Prop :=
  s ≠ "" ∧ str_len s ≤ MAX_IDENTIFIER_LEN ∧ Forall (λ a, model_charset a = true) (as_bytes s) ∧
  url_like (as_bytes s) = false.

Lemma match_indices_occurs fuel p : ∀ s i, match_indices_from fuel p s i ≠ [] → ∃ pre post, s = pre ++ p ++ post.
Proof.
  induction fuel as [|fuel IH]; intros s i; simpl; [done|].
  destruct (strip_prefix p s) as [r|] eqn:E.
  - intros _. apply strip_prefix_Some in E as ->. by exists [], r.
  - destruct s as [|a s]; [done|]. intros (pre & post & ->)%IH. by exists (a :: pre), post.
Qed.

Lemma contains_occurs p s : contains p s = true → ∀ a, a ∈ p → a ∈ s.
Proof.
  unfold contains. rewrite negb_true_iff, bool_decide_eq_false. intros Hm a Ha.
  apply match_indices_occurs in Hm as (pre & post & ->). set_solver.
Qed.

Lemma split_once_occurs p s b c : split_once p s = Some (b, c) → ∀ a, a ∈ p → a ∈ s.
Proof.
  revert b. induction s as [|x s IH]; intros b; simpl.
  - destruct (strip_prefix p []) eqn:E; [|done]. apply strip_prefix_Some in E. intros _ a Ha. rewrite E. set_solver.
  - destruct (strip_prefix p (x :: s)) eqn:E.
    + apply strip_prefix_Some in E. intros _ a Ha. rewrite E. set_solver.
    + destruct (split_once p s) as [[]|] eqn:E'; [|done]. intros [= _ <-] a Ha. right. by eapply IH.
Qed.

(** Without a colon and an at sign only a double slash in front is an address. *)
Lemma not_url_like s :
  byte_of 58 ∉ s → byte_of 64 ∉ s → starts_with (bs "//") s = false → url_like s = false.
Proof.
  intros Hcolon Hat Hs. unfold url_like. rewrite Hs, orb_false_r.
  destruct (contains (bs "://") s) eqn:Hc.
  { destruct Hcolon. apply (contains_occurs _ _ Hc). by left. }
  destruct (split_once (bs "@") s) as [[]|] eqn:Hsp; [|done].
  destruct Hat. apply (split_once_occurs _ _ _ _ Hsp). by left.
Qed.

Lemma forallb_Forall (p : ascii → bool) s : forallb p s = true ↔ Forall (λ a, p a = true) s.
Proof. rewrite forallb_forall, Forall_forall. by setoid_rewrite list_elem_of_In. Qed.

(** A class of characters that are plain and build no address. *)
Definition plain_class (p : ascii → bool) : Prop :=
  (∀ a, p a = true → model_charset a = true) ∧ p (byte_of 58) = false ∧ p (byte_of 64) = false.

Lemma plain_class_of (p : ascii → bool) :
  forallb (λ a, implb (p a) (model_charset a)) all_bytes && negb (p (byte_of 58)) && negb (p (byte_of 64)) = true →
  plain_class p.
Proof.
  rewrite !andb_true_iff, !negb_true_iff. intros [[Hall H1] H2]. split_and!; try done. intros a Hp.
  rewrite forallb_forall in Hall. specialize (Hall a). rewrite Hp in Hall. cbn [implb] in Hall.
  apply Hall, list_elem_of_In, elem_of_all_bytes.
Qed.

Lemma plain_text p raw :
  plain_class p → bounded_text MAX_IDENTIFIER_LEN raw = true → Forall (λ a, p a = true) (as_bytes raw) →
  starts_with (bs "//") (as_bytes raw) = false → plain_identity raw.
Proof.
  intros (Hsub & Hcolon & Hat) [Hne Hlen]%andb_true_iff Hall Hs.
  rewrite negb_true_iff, bool_decide_eq_false in Hne. rewrite Z.leb_le in Hlen.
  assert (∀ a, p a = false → a ∉ as_bytes raw) as Hnot.
  { intros a Ha Hin. rewrite Forall_forall in Hall. specialize (Hall a Hin). congruence. }
  split_and!; [done..| |].
  - eapply Forall_impl; [exact Hall|]. auto.
  - apply not_url_like; auto.
Qed.

Lemma no_slash_start (p : ascii → bool) s :
  p (byte_of 47) = false → Forall (λ a, p a = true) s → starts_with (bs "//") s = false.
Proof.
  intros Hp Hall. apply bool_decide_eq_false. intros [r Hr]. apply strip_prefix_Some in Hr. subst s.
  apply Forall_cons in Hall as [Hslash _]. change (p (byte_of 47) = true) in Hslash. congruence.
Qed.

Lemma provider_name_plain raw s : provider_name raw = Some s → plain_identity s.
Proof.
  unfold provider_name. destruct (_ && _) eqn:E; [|done]. intros [= <-].
  apply andb_true_iff in E as [Hb Hall]. apply forallb_Forall in Hall.
  eapply plain_text; [|apply andb_true_iff in Hb as [H1 H2]; apply andb_true_iff; split; [done|]|exact Hall|].
  - apply plain_class_of. vm_compute. reflexivity.
  - rewrite Z.leb_le in *. unfold MAX_IDENTIFIER_LEN. lia.
  - eapply no_slash_start; [|exact Hall]. done.
Qed.

Lemma account_identifier_plain raw s : account_identifier raw = Some s → plain_identity s.
Proof.
  unfold account_identifier. destruct (_ && _) eqn:E; [|done]. intros [= <-].
  apply andb_true_iff in E as [Hb Hall]. apply forallb_Forall in Hall.
  eapply plain_text; [|done|exact Hall|by eapply no_slash_start; [|exact Hall]].
  apply plain_class_of. vm_compute. reflexivity.
Qed.

Lemma split_at_parts (sep : ascii → bool) s :
  Forall (λ a, sep a = true ∨ ∃ part, part ∈ split_at sep s ∧ a ∈ part) s.
Proof.
  induction s as [|a s IH]; [constructor|]. simpl. destruct (sep a) eqn:Ha.
  - constructor; [by left|]. eapply Forall_impl; [exact IH|]. intros b [|(part & ? & ?)]; [by left|].
    right. exists part. split; [by right|done].
  - destruct (split_at sep s) as [|x r]; constructor.
    + right. exists [a]. split; by left.
    + eapply Forall_impl; [exact IH|]. intros b [|(part & []%elem_of_nil & ?)]; by left.
    + right. exists (a :: x). split; by left.
    + eapply Forall_impl; [exact IH|]. intros b [|(part & Hp & ?)]; [by left|]. right.
      apply elem_of_cons in Hp as [->|]; [exists (a :: x)|exists part]; split; try done; by constructor.
Qed.

Lemma binary_identifier_plain raw s : binary_identifier raw = Some s → plain_identity s.
Proof.
  unfold binary_identifier. destruct (_ && _) eqn:E; [|done]. intros [= <-].
  apply andb_true_iff in E as [Hb Hall]. set (allowed := λ a, _ || _) in *.
  assert (plain_class (λ a, allowed a || one_of (bs "/") a)) as Hclass.
  { apply plain_class_of. vm_compute. reflexivity. }
  destruct (strip_prefix (bs "/") (as_bytes raw)) as [path|] eqn:Hp.
  - apply andb_true_iff in Hall as [Hne Hall]. apply strip_prefix_Some in Hp.
    rewrite forallb_forall in Hall.
    assert (Forall (λ a, allowed a || one_of (bs "/") a = true) (as_bytes raw)) as Hraw.
    { rewrite Hp. constructor; [done|]. eapply Forall_impl; [apply split_at_parts|].
      intros a [Hs|(part & Hpart & Ha)]; cbv beta in *; [apply orb_true_iff; by right|].
      apply list_elem_of_In, Hall, andb_true_iff in Hpart as [_ Hpart]. rewrite forallb_forall in Hpart.
      rewrite Hpart; [done|]. by apply list_elem_of_In. }
    eapply plain_text; [exact Hclass|done|exact Hraw|].
    rewrite Hp. destruct path as [|a path]; [done|]. apply bool_decide_eq_false. intros [r Hr].
    apply strip_prefix_Some in Hr. injection Hr as Ha _. subst a.
    specialize (Hall []). rewrite andb_true_iff in Hall. destruct Hall as [Hf _]; [|done].
    simpl. by left.
  - apply forallb_Forall in Hall.
    eapply plain_text; [|done|exact Hall|by eapply no_slash_start; [|exact Hall]].
    apply plain_class_of. vm_compute. reflexivity.
Qed.

Lemma model_identifier_plain raw s : model_identifier raw = Some s → plain_identity s.
Proof.
  unfold model_identifier. destruct (_ && _) eqn:E; [|done]. intros [= <-].
  apply andb_true_iff in E as [[Hb Hall]%andb_true_iff Hu]. apply forallb_Forall in Hall.
  apply andb_true_iff in Hb as [Hne Hlen].
  rewrite negb_true_iff in Hu. rewrite negb_true_iff, bool_decide_eq_false in Hne. rewrite Z.leb_le in Hlen.
  by split_and!.
Qed.

(** ** What leaves an event *)

Definition identities (v : ProviderExecutionView) : list string :=
  mjoin (map (λ x, pe_provider x ::
    option_list (oc_account_id (pe_channel x)) ++ option_list (oc_binary (pe_channel x)) ++
    map so_model (option_list (pe_last_success x)) ++ map fo_model (option_list (pe_last_failure x)))
    (pv_observations v)) ++
  mjoin (map (λ o, [oa_provider o; oa_model o]) (pv_open_attempts v)).

Definition known_words (x : ProviderExecution) : Prop :=
  oc_kind (pe_channel x) ∈ "unknown" :: KNOWN_CHANNEL_KINDS ∧
  ∀ failed, pe_last_failure x = Some failed →
    fo_class failed ∈ "unclassified" :: KNOWN_FAILURE_CLASSES ∧
    fo_origin failed ∈ ["provider"; "unverified"].

(** Events that agree on what the fold may read. *)
Definition same_facts (e e' : OperatorEvent) : Prop :=
  event_id e = event_id e' ∧ schema_version e = schema_version e' ∧ event_type e = event_type e' ∧
  occurred_at e = occurred_at e' ∧ call_id e = call_id e' ∧
  Forall (λ k, json_get k (payload e) = json_get k (payload e'))
    ["attempt"; "provider"; "model"; "failure_class"; "failure_origin"; "provider_invoked"] ∧
  Forall (λ k, json_get k (json_index (payload e) "channel") = json_get k (json_index (payload e') "channel"))
    ["kind"; "account_id"; "binary"].

Section allowlist.
Context `{Rfc3339}.

Lemma model_of_plain event : plain_identity (model_of event).
Proof.
  unfold model_of. destruct (get_str _ _ ≫= model_identifier) as [m|] eqn:E; simpl.
  - apply bind_Some in E as (raw & _ & E). by eapply model_identifier_plain.
  - split_and!; [done|done|apply forallb_Forall; vm_compute; reflexivity|vm_compute; reflexivity].
Qed.

Definition plain_channel (c : ObservedChannel) : Prop :=
  oc_kind c ∈ "unknown" :: KNOWN_CHANNEL_KINDS ∧
  (∀ a, oc_account_id c = Some a → plain_identity a) ∧ (∀ b, oc_binary c = Some b → plain_identity b).

Lemma channel_of_plain event : plain_channel (channel_of event).
Proof.
  unfold channel_of, channel_from_payload. generalize (json_index (payload event) "channel") as v. intros v.
  assert (plain_channel unknown_channel) as Hu by (split_and!; [by left|done|done]).
  destruct (get_str v "kind") as [kind|]; [|done]. case_bool_decide as Hk; [|done].
  case_bool_decide; [done|]. split_and!; simpl.
  - by right.
  - intros a. destruct (get_str v "account_id") as [raw|]; simpl; [|done]. apply account_identifier_plain.
  - intros b. destruct (get_str v "binary") as [raw|]; simpl; [|done]. apply binary_identifier_plain.
Qed.

Lemma Forall_option {A} (P : A → Prop) (o : option A) : (∀ x, o = Some x → P x) → Forall P (option_list o).
Proof. destruct o; simpl; intros Ho; [|by apply Forall_nil]. apply Forall_singleton. by apply Ho. Qed.

(** The verdicts on route events, one by one. *)
Lemma verdict_cases event :
  verdict event = NoRoute ∨ verdict event = BadRoute ∨
  ∃ provider at_, plain_identity provider ∧
    (verdict event = Attempt (mkAttempt provider (model_of event) at_) ∨
     verdict event = Settled (provider, channel_of event) (inl (mkSuccess at_ (model_of event))) ∨
     verdict event = failure_verdict event provider at_).
Proof.
  unfold verdict. destruct (negb (is_route event)) eqn:Hroute; [by left|right].
  destruct (get_str (payload event) "provider" ≫= provider_name) as [provider|] eqn:Ep; [|by left].
  apply bind_Some in Ep as (raw & _ & Ep). apply provider_name_plain in Ep.
  destruct (timestamp _) as [at_|]; [right|by left]. exists provider, at_. split; [done|].
  unfold is_route in Hroute. destruct (event_type event); try discriminate Hroute; auto.
Qed.

Lemma failure_cases event provider at_ :
  failure_verdict event provider at_ = CancelledCall ∨ failure_verdict event provider at_ = NeverInvoked ∨
  failure_verdict event provider at_ = Unaccounted (provider, channel_of event) (mkSuccess at_ (model_of event)) ∨
  ∃ origin, origin ∈ ["provider"; "unverified"] ∧
    failure_verdict event provider at_ =
      Settled (provider, channel_of event) (inr (mkFailure at_ (model_of event) (failure_class event) origin)).
Proof.
  unfold failure_verdict. case_bool_decide; [by left|]. case_bool_decide; [auto|].
  destruct (get_str _ "failure_origin") as [origin|]; [|do 3 right; eexists; split; [by right; left|done]].
  case_bool_decide; [do 3 right; eexists; split; [by left|done]|].
  case_bool_decide; [auto|]. case_bool_decide; [auto|].
  do 3 right; eexists; split; [by right; left|done].
Qed.

Lemma verdict_outcome event k o :
  outcome (verdict event) = Some (k, o) →
  plain_identity k.1 ∧ plain_channel k.2 ∧
  match o with
  | inl s => so_model s = model_of event
  | inr s => fo_model s = model_of event ∧ fo_class s = failure_class event ∧
             fo_origin s ∈ ["provider"; "unverified"]
  end.
Proof.
  pose proof (channel_of_plain event) as Hc.
  destruct (verdict_cases event) as [->|[->|(provider & at_ & Hp & [->|[->| ->]])]]; try done.
  - by intros [= <- <-].
  - destruct (failure_cases event provider at_) as [->|[->|[->|(origin & Ho & ->)]]]; try done.
    + by intros [= <- <-].
    + by intros [= <- <-].
Qed.

Lemma failure_class_known event : failure_class event ∈ "unclassified" :: KNOWN_FAILURE_CLASSES.
Proof.
  unfold failure_class. destruct (get_str _ _) as [c|]; [|by left]. case_bool_decide; [by right|by left].
Qed.

Lemma outcomes_verdict k o vs : o ∈ outcomes_of k vs → ∃ v, v ∈ vs ∧ outcome v = Some (k, o).
Proof.
  unfold outcomes_of. rewrite list_elem_of_omap. intros (v & Hv & Ho).
  destruct (outcome v) as [[k' o']|] eqn:E; [|done]. simpl in Ho. case_bool_decide; [|done].
  simplify_eq. by exists v.
Qed.

Lemma attempt_plain event open :
  verdict event = Attempt open → plain_identity (oa_provider open) ∧ plain_identity (oa_model open).
Proof.
  destruct (verdict_cases event) as [->|[->|(provider & at_ & Hp & [->|[->| ->]])]]; try done.
  - intros [= <-]. split; [done|apply model_of_plain].
  - by destruct (failure_cases event provider at_) as [->|[->|[->|(origin & Ho & ->)]]].
Qed.

(** Every outcome of a row is that of an inspected event. *)
Lemma row_outcome k o events :
  o ∈ outcomes_of k (map verdict events) → ∃ event, event ∈ events ∧ outcome (verdict event) = Some (k, o).
Proof.
  intros (v & Hv & Ho)%outcomes_verdict. apply list_elem_of_fmap in Hv as (event & -> & Hin). by exists event.
Qed.

Lemma summary_plain k events x :
  outcomes_of k (map verdict events) ≠ [] → x = summary k (outcomes_of k (map verdict events)) →
  known_words x ∧
  Forall plain_identity (pe_provider x ::
    option_list (oc_account_id (pe_channel x)) ++ option_list (oc_binary (pe_channel x)) ++
    map so_model (option_list (pe_last_success x)) ++ map fo_model (option_list (pe_last_failure x))).
Proof.
  intros Hne ->. set (os := outcomes_of k (map verdict events)) in *.
  assert (plain_identity k.1 ∧ plain_channel k.2) as [Hk (Hkind & Hacc & Hbin)].
  { destruct os as [|o os'] eqn:E; [done|].
    destruct (row_outcome k o events) as (event & _ & (H1 & H2 & _)%verdict_outcome); [|done].
    fold os. rewrite E. by left. }
  assert (∀ s, last (omap success_of os) = Some s → plain_identity (so_model s)) as Hs.
  { intros s (o & Ho & Hs)%last_Some_elem_of%list_elem_of_omap. destruct o; simpl in Hs; simplify_eq.
    apply row_outcome in Ho as (event & _ & (_ & _ & ->)%verdict_outcome). apply model_of_plain. }
  assert (∀ s, last (omap failure_of os) = Some s → plain_identity (fo_model s) ∧
    fo_class s ∈ "unclassified" :: KNOWN_FAILURE_CLASSES ∧ fo_origin s ∈ ["provider"; "unverified"]) as Hf.
  { intros s (o & Ho & Hf)%last_Some_elem_of%list_elem_of_omap. destruct o; simpl in Hf; simplify_eq.
    apply row_outcome in Ho as (event & _ & (_ & _ & -> & -> & Hor)%verdict_outcome).
    split_and!; [apply model_of_plain|apply failure_class_known|done]. }
  unfold known_words, summary; cbn [pe_provider pe_channel pe_last_success pe_last_failure]. split.
  - split; [done|]. intros s Hl. by apply Hf.
  - constructor; [done|]. rewrite !Forall_app.
    split_and!; [by apply Forall_option|by apply Forall_option|apply Forall_fmap, Forall_option; apply Hs|].
    apply Forall_fmap, Forall_option. intros s Hl. by apply Hf.
Qed.

Lemma json_index_same k v v' : json_get k v = json_get k v' → json_index v k = json_index v' k.
Proof. unfold json_index. by intros ->. Qed.

Lemma observe_same e e' f : same_facts e e' → observe e f = observe e' f.
Proof.
  intros (_ & _ & Ht & Hat & Hc & Hp & Hch).
  assert (∀ k, k ∈ ["attempt"; "provider"; "model"; "failure_class"; "failure_origin"; "provider_invoked"] →
    json_get k (payload e) = json_get k (payload e')) as Hkeys by (by apply Forall_forall).
  assert (channel_from_payload (json_index (payload e) "channel") =
          channel_from_payload (json_index (payload e') "channel")) as Hchan.
  { unfold channel_from_payload, get_str.
    rewrite !Forall_cons in Hch. destruct Hch as (-> & -> & -> & _). done. }
  unfold observe, observe_failed, channel, inspect, is_route, attempt_key, failure_class, get_str, get_u64, get_bool.
  rewrite Hchan, Ht, Hat, Hc, !(Hkeys "provider"), !(Hkeys "model"), !(Hkeys "attempt"),
    !(Hkeys "failure_class"), !(Hkeys "failure_origin"), !(Hkeys "provider_invoked") by set_solver.
  done.
Qed.

Lemma observe_rows_same rows rows' : Forall2 (λ r r', same_facts (ce_event r) (ce_event r')) rows rows' →
  ∀ st, foldl observe_tail_row st rows = foldl observe_tail_row st rows'.
Proof.
  induction 1 as [|r r' rows rows' Hr _ IH]; intros [f seen]; [done|]. simpl. rewrite <- IH. f_equal.
  destruct Hr as (Hid & Hv & Hr). rewrite Hid, Hv.
  by rewrite (observe_same (ce_event r) (ce_event r')) by done.
Qed.

(**  Only identities leave an event.  Whatever the stream holds, every
    provider, model, account and executable the view names is a short word of
    plain characters that is no URL and carries no user part; channel kinds,
    failure classes and origins come from fixed lists; and two streams whose
    events agree on the allowlisted facts have the same view, so no message,
    prompt, endpoint or other field of a payload can show in it. *)
Theorem only_identities_leave (rows : list CursorEvent) (evidence : ExecutionEvidence) :
  Forall plain_identity (identities (view (observe_rows_of rows) evidence)) ∧
  Forall known_words (pv_observations (view (observe_rows_of rows) evidence)) ∧
  ∀ rows', Forall2 (λ r r', same_facts (ce_event r) (ce_event r')) rows rows' →
    view (observe_rows_of rows) evidence = view (observe_rows_of rows') evidence.
Proof.
  split_and!.
  - apply Forall_app. split; apply Forall_forall; intros s (l & Hs & Hl)%list_elem_of_join;
      apply list_elem_of_fmap in Hl as (x & -> & Hx).
    + apply observation_elem in Hx as (k & Hne & Hx).
      destruct (summary_plain k _ x Hne Hx) as [_ Hplain]. rewrite Forall_forall in Hplain. by apply Hplain.
    + destruct (observed_shows rows) as (_ & _ & _ & Hin & _). apply Hin, list_elem_of_fmap in Hx as (e & He & _).
      destruct (attempt_plain e x) as [H1 H2]; [done|]. rewrite !elem_of_cons, elem_of_nil in Hs.
      by destruct Hs as [->|[->|]].
  - apply Forall_forall. intros x (k & Hne & Hx)%observation_elem.
    by destruct (summary_plain k _ x Hne Hx).
  - intros rows' Hsame. unfold observe_rows_of. by rewrite (observe_rows_same _ _ Hsame).
Qed.

End allowlist.

(** ** Provider executions of the runtime (crates/heiwa_session/src/operator.rs)

    The fold of Executions.v kept in step with the session service's projection:
    [sync_materialized] feeds it the rows it admits, and [provider_executions]
    is its view.  However a service caught up, page by page, that view is the
    one of the whole stream read afresh. *)

Section runtime.
Context `{EventLogLaws L, Rfc3339}.

(** What the row loop feeds the fold: not thread or turn admission decides, but
    whether the row was a duplicate or of another schema. *)
Definition feed_row (f : ProviderExecutionFold) (seen : CursorEvent * EventAdmission) : ProviderExecutionFold :=
  match seen.2 with
  | EventAdmitted | Rejected => observe (ce_event seen.1) f
  | UnsupportedSchema => note_unsupported_schema f
  | Duplicate => f
  end.

(** [sync_materialized], with the fold it keeps beside the rest of the
    projection. *)
Fixpoint sync_executions (fuel : nat) (journal : L) (j : MaterializedJournal) (f : ProviderExecutionFold)
    : (MaterializedJournal * ProviderExecutionFold) * result SessionError unit :=
  match fuel with
  | O => ((j, f), Err SyncOutOfFuel)
  | S fuel' =>
      match log_read_after journal (mj_cursor j) PAGE_SIZE with
      | Err (InvalidCursor reason) =>
          if bool_decide (is_Some (mj_cursor j))
          then sync_executions fuel' journal default_journal default_fold
          else ((j, f), Err (SyncFailed (InvalidCursor reason)))
      | Err e => ((j, f), Err (SyncFailed e))
      | Ok page =>
          match op_events page with
          | [] => ((set_skipped (mj_committed_skipped_lines j) (op_skipped_lines page) j, f), Ok tt)
          | _ =>
              match probe_tail journal page with
              | Err e => ((j, f), Err (SyncFailed e))
              | Ok stable_tail =>
                  let j' := apply_page j page stable_tail in
                  let f' := foldl feed_row f (observe_rows j (op_events page)) in
                  match stable_tail with
                  | Some _ => ((j', f'), Ok tt)
                  | None => sync_executions fuel' journal j' f'
                  end
              end
          end
      end
  end.

Definition runtime_evidence (j : MaterializedJournal) (f : ProviderExecutionFold) : ExecutionEvidence :=
  let state :=
    if bool_decide (0 < skipped_lines j) then Partial
    else if bool_decide (pf_events_inspected f = 0 ∧ pf_unsupported_schema_events f = 0) then Empty
    else Complete in
  mkEvidence state "runtime_projection" None 0 (skipped_lines j) false 0 0 0 None.

(** [OperatorSessionService::provider_executions] *)
Definition provider_executions (fuel : nat) (journal : L) (j : MaterializedJournal) (f : ProviderExecutionFold)
    : (MaterializedJournal * ProviderExecutionFold) * result SessionError ProviderExecutionView :=
  let '((j', f'), r) := sync_executions fuel journal j f in
  ((j', f'), match r with Ok _ => Ok (view f' (runtime_evidence j' f')) | Err e => Err e end).

(** ** In step with the projection *)

(** The fold rides along: the projection moves as [sync_materialized] has it. *)
Lemma sync_executions_projection fuel : ∀ journal j f,
  let '((j', _), r) := sync_executions fuel journal j f in
  sync_materialized fuel journal j = (j', r).
Proof.
  unfold sync_materialized. induction fuel as [|fuel IH]; intros journal j f; [done|].
  cbn [sync_executions sync_materialized_observing].
  destruct (log_read_after _ _ _) as [page|[]]; [|case_bool_decide|..]; try done; [|by apply IH].
  destruct (op_events page); [done|]. destruct (probe_tail _ _) as [[]|]; try done.
  specialize (IH journal (apply_page j page None) (foldl feed_row f (observe_rows j (c :: l)))).
  destruct (sync_executions _ _ _ _) as [[] ?].
  by destruct (sync_materialized_observing _ _ _ _) as [[] ?].
Qed.

Lemma feed_rows rows : ∀ j f,
  foldl observe_tail_row (f, mj_seen_event_ids j) rows =
  (foldl feed_row f (observe_rows j rows), mj_seen_event_ids (replay j rows)).
Proof.
  induction rows as [|row rows IH]; intros j f; [done|].
  rewrite replay_cons. cbn [foldl observe_rows]. rewrite <- IH, apply_row_seen.
  f_equal. unfold observe_tail_row, feed_row. simpl. unfold apply_row, apply_event. simpl.
  case_bool_decide as Hid; simpl; [by rewrite (subseteq_union_1_L {[_]}) by set_solver|].
  case_bool_decide as Hv; simpl; [done|].
  match goal with |- context [snd ?x] => assert (snd x = EventAdmitted ∨ snd x = Rejected) as [-> | ->] end; [|done..].
  destruct (event_type (ce_event row));
    unfold apply_project_created, apply_project_updated, apply_thread_event; repeat case_match; auto.
Qed.

Lemma observe_core_rows rows j : observe_rows j rows = observe_rows (core j) rows.
Proof. apply observe_core. Qed.

(** The fold is that of the rows the projection replayed. *)
Definition in_step (l : L) (j : MaterializedJournal) (f : ProviderExecutionFold) : Prop :=
  ∃ pre post, log_rows l = pre ++ post ∧ synced pre j ∧ f = observe_rows_of pre.

Lemma fold_page pre page_rows j :
  synced pre j →
  foldl feed_row (observe_rows_of pre) (observe_rows j page_rows) = observe_rows_of (pre ++ page_rows).
Proof.
  intros [Hc _]. rewrite observe_core_rows, Hc. unfold observe_rows_of.
  change (∅ : gset string) with (mj_seen_event_ids default_journal).
  rewrite foldl_app, (feed_rows pre). cbn [fst]. by rewrite (feed_rows page_rows).
Qed.

Lemma executions_loop l : ∀ fuel pre post j,
  log_rows l = pre ++ post → synced pre j →
  let '((j', f'), r) := sync_executions fuel l j (observe_rows_of pre) in
  in_step l j' f' ∧ (r = Ok tt → f' = observe_rows_of (log_rows l) ∧ synced (log_rows l) j').
Proof.
  induction fuel as [|fuel IH]; intros pre post j Hr Hs; cbn [sync_executions].
  { split; [by exists pre, post|done]. }
  assert (in_step l j (observe_rows_of pre)) as Hstep by by exists pre, post.
  destruct (log_read_after l (mj_cursor j) PAGE_SIZE) as [page|e] eqn:Hp.
  - pose proof (read_page _ _ _ _ _ _ Hr Hs Hp) as [He Hn].
    destruct (op_events page) as [|row rows] eqn:Hev.
    { destruct post; [|done]. rewrite app_nil_r in Hr.
      assert (synced (log_rows l) (set_skipped (mj_committed_skipped_lines j) (op_skipped_lines page) j)) as Hj
        by by rewrite Hr.
      split; [exists (log_rows l), []|]; rewrite ?app_nil_r; by rewrite ?Hr. }
    destruct (probe_tail l page) as [t|] eqn:Hq; [|by split].
    pose proof (probe_page _ _ _ _ _ _ Hr Hs Hp Hq) as [_ Hsome].
    assert (synced (pre ++ op_events page) (apply_page j page t)) as Hsync.
    { apply synced_page; [done..|]. by rewrite Hev, Hn, <- He. }
    rewrite (fold_page pre _ _ Hs), <- Hev. destruct t as [n|].
    + rewrite Hsome in * by eauto. split; [exists (pre ++ post), []|intros _]; rewrite ?app_nil_r; by rewrite ?Hr.
    + apply (IH _ (drop PAGE_SIZE post)); [|done]. by rewrite Hev, He, <- app_assoc, take_drop.
  - destruct e as [reason| |]; [|by split..]. case_bool_decide; [|by split].
    apply (IH [] (log_rows l)); [done|apply synced_nil].
Qed.

(**  The runtime's provider view is the stream's.  For a service whose
    projection and fold are those of any first part of the stream, over a
    readable log, catching up answers, and the view it gives has exactly the
    observations, open attempts and exclusions of the whole stream read afresh,
    as a fresh process finds them in any tail that holds the whole stream; the
    projection moves as it does for every other read, and if a read fails what
    is kept is still in step with a first part. *)
Theorem runtime_view_is_the_streams (l : L) (j : MaterializedJournal) (f : ProviderExecutionFold) (fuel : nat) :
  in_step l j f →
  (log_readable l → (length (log_rows l) < fuel)%nat →
   ∃ j' v, provider_executions fuel l j f = ((j', observe_rows_of (log_rows l)), Ok v) ∧
     sync_materialized fuel l j = (j', Ok tt) ∧
     v = view (observe_rows_of (log_rows l)) (runtime_evidence j' (observe_rows_of (log_rows l))) ∧
     ∀ tail, ot_events tail = log_rows l →
       pv_observations v = pv_observations (observe_tail tail) ∧
       pv_open_attempts v = pv_open_attempts (observe_tail tail) ∧
       pv_excluded v = pv_excluded (observe_tail tail)) ∧
  let '((j', f'), _) := provider_executions fuel l j f in in_step l j' f'.
Proof.
  intros (pre & post & Hr & Hs & ->).
  pose proof (executions_loop l fuel pre post j Hr Hs) as Hloop.
  pose proof (sync_executions_projection fuel l j (observe_rows_of pre)) as Hproj.
  unfold provider_executions. destruct (sync_executions _ _ _ _) as [[j' f'] r].
  destruct Hloop as [Hstep Hok]. split; [|done]. intros Hl Hf.
  destruct (sync_loop_ok l true Hl fuel pre post j Hr Hs) as (j1 & Hsync & _).
  { rewrite Hr, length_app in Hf. lia. }
  unfold sync_materialized in Hproj. rewrite Hsync in Hproj. injection Hproj as <- <-.
  destruct (Hok eq_refl) as [-> _]. eexists _, _. split; [reflexivity|].
  split; [unfold sync_materialized; by rewrite Hsync|]. split; [done|].
  intros tail Ht. unfold observe_tail. by rewrite Ht.
Qed.

End runtime.
