(* ===== verification/Drex.v ===== *)
(** * The routing vector and its decision (apps/heiwa_core/src/drex: vector.rs, policy.rs, scorer.rs, router.rs)

    The seven axes a request is placed on, the scores of the three resolution
    tiers, and the authority gate.  The axes are binary64 numbers computed with
    the standard's roundings; a decimal literal is the quotient of two integers,
    rounded once, which is the float nearest to it. *)

From stdpp Require Import base sets strings numbers list.
From Stdlib Require Import Ascii SpecFloat.
From S2P Require Import Prelude Json Sensitive RoutePolicy.
#[local] Open Scope Z_scope.

(** ** binary64 *)

Definition f64_int (n : Z) : spec_float := binary_normalize 53 1024 n 0 false.
Definition fadd : spec_float → spec_float → spec_float := SFadd 53 1024.
Definition fsub : spec_float → spec_float → spec_float := SFsub 53 1024.
Definition fmul : spec_float → spec_float → spec_float := SFmul 53 1024.
Definition fdiv : spec_float → spec_float → spec_float := SFdiv 53 1024.

(** A literal with two decimals: [lit 35] is [0.35]. *)
Definition lit (hundredths : Z) : spec_float := fdiv (f64_int hundredths) (f64_int 100).

(** [f64::clamp(0.0, 1.0)] *)
Definition clamp (v : spec_float) : spec_float :=
  if SFltb v (lit 0) then lit 0 else if SFltb (lit 100) v then lit 100 else v.

(** The bits of a float. *)
Definition bits_of_spec (x : spec_float) : Z :=
  match x with
  | S754_zero s => if s then 2 ^ 63 else 0
  | S754_infinity s => (if s then 2 ^ 63 else 0) + 2047 * 2 ^ 52
  | S754_nan => 2047 * 2 ^ 52 + 2 ^ 51
  | S754_finite s m e =>
      (if s then 2 ^ 63 else 0) +
      (if bool_decide (Z.pos m < 2 ^ 52) then Z.pos m else (e + 1075) * 2 ^ 52 + (Z.pos m - 2 ^ 52))
  end.

(** ** vector.rs, policy.rs *)

Record DrexVector : Type := mkVector {
  scope : spec_float;
  abstraction : spec_float;
  context_span : spec_float;
  execution_proximity : spec_float;
  blast_radius : spec_float;
  coordination_load : spec_float;
  latency_pressure : spec_float;
}.

Definition axes (v : DrexVector) : list spec_float :=
  [scope v; abstraction v; context_span v; execution_proximity v; blast_radius v; coordination_load v;
   latency_pressure v].

Definition DEFAULT_POLICY_VERSION : string := "2026-04-01".

Inductive ResolutionTier : Type := Macro | Meso | Micro.

#[export] Instance resolution_tier_eq_dec : EqDecision ResolutionTier.
Proof. solve_decision. Defined.

Inductive ExecutionMode : Type := Deterministic | LocalModel | RemoteModel | Clarify.

Record DrexPolicy : Type := mkDrexPolicy {
  macro_weights : list spec_float;
  meso_weights : list spec_float;
  micro_weights : list spec_float;
  macro_bias : spec_float;
  meso_bias : spec_float;
  micro_bias : spec_float;
  observability_micro_multiplier : spec_float;
  runtime_fit_multiplier : spec_float;
  history_confidence_multiplier : spec_float;
  tie_margin : spec_float;
}.

Definition default_policy : DrexPolicy :=
  mkDrexPolicy
    (map lit [120; 110; 90; -90; 80; 70; -30])
    (map lit [60; 50; 70; 10; 60; 100; 20])
    (map lit [-40; -60; -30; 130; 40; -20; 110])
    (lit 0) (lit 5) (lit 0) (lit 25) (lit 20) (lit 15) (lit 8).

Record DrexScoreCard : Type := mkScores {
  macro_score : spec_float;
  meso_score : spec_float;
  micro_score : spec_float;
  confidence : spec_float;
}.

Record DrexAuthorityGate : Type := mkGate {
  authority_required : string;
  requires_approval : bool;
  gate_reasons : list string;
}.

Record DrexDecision : Type := mkDecision {
  dd_vector : DrexVector;
  dd_scorecard : DrexScoreCard;
  dd_active_tier : ResolutionTier;
  dd_gate : DrexAuthorityGate;
}.

(** ** scorer.rs *)

(** A sum of floats starts at negative zero. *)
Definition dot (weights axes : list spec_float) : spec_float :=
  foldl fadd (S754_zero true) (zip_with fmul weights axes).

Definition authority_gate (v : DrexVector) : DrexAuthorityGate :=
  if SFleb (lit 75) (blast_radius v) then mkGate "approved_write" true ["blast_radius"]
  else if SFleb (lit 80) (scope v) && SFleb (lit 70) (coordination_load v)
  then mkGate "operator_review" true ["enterprise_scope"; "coordination_load"]
  else mkGate "none" false [].

Definition choose_tier (macro meso micro : spec_float) (approval_required : bool) (margin : spec_float)
    : ResolutionTier * spec_float :=
  let ranked := sort_by (λ a b, f64_total_cmp (bits_of_spec b.2) (bits_of_spec a.2))
                  [(Macro, macro); (Meso, meso); (Micro, micro)] in
  match ranked with
  | first :: second :: _ =>
      let confidence := fsub first.2 second.2 in
      if SFltb confidence margin then
        if approval_required && SFleb meso macro then (Macro, confidence) else (Meso, confidence)
      else (first.1, confidence)
  | _ => (Meso, lit 0)
  end.

Definition evaluate_drex (v : DrexVector) (policy : DrexPolicy)
    (observability runtime_fit history_confidence : spec_float) : DrexDecision :=
  let macro := fadd (fadd (dot (macro_weights policy) (axes v)) (macro_bias policy))
                 (fmul history_confidence (history_confidence_multiplier policy)) in
  let meso := fadd (fadd (dot (meso_weights policy) (axes v)) (meso_bias policy))
                (fmul (fdiv (fadd runtime_fit history_confidence) (f64_int 2))
                   (fdiv (history_confidence_multiplier policy) (f64_int 2))) in
  let micro := fsub (fadd (fadd (fadd (dot (micro_weights policy) (axes v)) (micro_bias policy))
                       (fmul runtime_fit (runtime_fit_multiplier policy)))
                       (fmul history_confidence (fdiv (history_confidence_multiplier policy) (f64_int 2))))
                 (fmul (fsub (f64_int 1) observability) (observability_micro_multiplier policy)) in
  let gate := authority_gate v in
  let '(tier, confidence) := choose_tier macro meso micro (requires_approval gate) (tie_margin policy) in
  mkDecision v (mkScores macro meso micro confidence) tier gate.

(** ** router.rs: the vector of a request *)

Definition one_of_words (s : string) (words : list string) : bool := bool_decide (s ∈ words).

Definition contains_any (needles : list string) (text : string) : bool :=
  existsb (λ n, contains (as_bytes n) (as_bytes text)) needles.

Definition intent_vector (intent : string) : DrexVector :=
  if one_of_words intent ["build"; "files"]
  then mkVector (lit 35) (lit 35) (lit 55) (lit 90) (lit 55) (lit 30) (lit 75)
  else if one_of_words intent ["audit"; "status_check"]
  then mkVector (lit 45) (lit 40) (lit 60) (lit 30) (lit 45) (lit 25) (lit 60)
  else if one_of_words intent ["research"]
  then mkVector (lit 70) (lit 80) (lit 85) (lit 20) (lit 40) (lit 65) (lit 30)
  else if one_of_words intent ["strategy"]
  then mkVector (lit 90) (lit 95) (lit 80) (lit 10) (lit 75) (lit 85) (lit 20)
  else if one_of_words intent ["deploy"; "operate"; "automate"]
  then mkVector (lit 75) (lit 60) (lit 65) (lit 65) (lit 90) (lit 70) (lit 70)
  else mkVector (lit 50) (lit 50) (lit 50) (lit 50) (lit 50) (lit 50) (lit 50).

Definition shift_scope (d : spec_float) (v : DrexVector) : DrexVector :=
  mkVector (clamp (fadd (scope v) d)) (abstraction v) (context_span v) (execution_proximity v)
    (blast_radius v) (coordination_load v) (latency_pressure v).
Definition shift_abstraction (d : spec_float) (v : DrexVector) : DrexVector :=
  mkVector (scope v) (clamp (fadd (abstraction v) d)) (context_span v) (execution_proximity v)
    (blast_radius v) (coordination_load v) (latency_pressure v).
Definition shift_context (d : spec_float) (v : DrexVector) : DrexVector :=
  mkVector (scope v) (abstraction v) (clamp (fadd (context_span v) d)) (execution_proximity v)
    (blast_radius v) (coordination_load v) (latency_pressure v).
Definition shift_proximity (d : spec_float) (v : DrexVector) : DrexVector :=
  mkVector (scope v) (abstraction v) (context_span v) (clamp (fadd (execution_proximity v) d))
    (blast_radius v) (coordination_load v) (latency_pressure v).
Definition shift_blast (d : spec_float) (v : DrexVector) : DrexVector :=
  mkVector (scope v) (abstraction v) (context_span v) (execution_proximity v)
    (clamp (fadd (blast_radius v) d)) (coordination_load v) (latency_pressure v).

Definition when {A} (b : bool) (f : A → A) (a : A) : A := if b then f a else a.

(** [build_drex_vector].  A subtraction of a literal adds its negation, which
    is the same float. *)
Definition build_drex_vector (intent risk raw_text privacy runtime : string) : DrexVector :=
  let v := intent_vector intent in
  let v := when (one_of_words risk ["high"; "critical"])
             (λ v, shift_blast (lit 15) (shift_scope (lit 15) v)) v in
  let v := when (bool_decide (privacy = "sovereign"))
             (λ v, shift_proximity (lit 10) (shift_scope (lit (-5)) v)) v in
  let v := when (one_of_words runtime ["boost"; "macbook"; "local"]) (shift_proximity (lit 10)) v in
  let v := when (500 <? str_len raw_text) (shift_context (lit 10)) v in
  let lowercase := to_ascii_lowercase raw_text in
  let v := when (contains_any ["patch"; "edit"; "write"; "run"; "pytest"; "bash"; "shell"] lowercase)
             (shift_proximity (lit 10)) v in
  when (contains_any ["portfolio"; "enterprise"; "roadmap"; "priority"; "governance"] lowercase)
    (λ v, shift_abstraction (lit 10) (shift_scope (lit 10) v)) v.

Example literals : bits_of_spec (lit 35) = 0x3fd6666666666666 ∧ bits_of_spec (lit (-5)) = 0xbfa999999999999a.
Proof. split; vm_compute; reflexivity. Qed.

(** ** What decides the gate *)

Definition gated_intents : list string := ["strategy"; "deploy"; "operate"; "automate"].

(** The axes the gate reads, as far as they can move. *)
Lemma gate_axes intent risk raw_text privacy runtime :
  let v := build_drex_vector intent risk raw_text privacy runtime in
  blast_radius v = blast_radius (when (one_of_words risk ["high"; "critical"]) (shift_blast (lit 15)) (intent_vector intent)) ∧
  coordination_load v = coordination_load (intent_vector intent).
Proof.
  unfold build_drex_vector. generalize (contains_any) as c. intros c. cbv zeta.
  destruct (c _ _), (c _ _), (500 <? _), (one_of_words runtime _), (bool_decide (privacy = _)),
    (one_of_words risk _); split; reflexivity.
Qed.

Lemma gate_is_the_intent intent risk raw_text privacy runtime :
  requires_approval (authority_gate (build_drex_vector intent risk raw_text privacy runtime)) =
  bool_decide (intent ∈ gated_intents).
Proof.
  unfold authority_gate. destruct (gate_axes intent risk raw_text privacy runtime) as [-> ->].
  generalize (scope (build_drex_vector intent risk raw_text privacy runtime)) as s. intros s.
  assert (∀ w, one_of_words intent w = true → intent ∈ w) as Hin by (intros w; apply bool_decide_eq_true).
  assert (∀ w, one_of_words intent w = false → intent ∉ w) as Hout by (intros w; apply bool_decide_eq_false).
  unfold intent_vector.
  destruct (one_of_words intent ["build"; "files"]) eqn:E1; [apply Hin in E1|].
  { rewrite bool_decide_eq_false_2 by (unfold gated_intents; set_solver).
    destruct (one_of_words risk _), (SFleb (lit 80) s); vm_compute; reflexivity. }
  destruct (one_of_words intent ["audit"; "status_check"]) eqn:E2; [apply Hin in E2|].
  { rewrite bool_decide_eq_false_2 by (unfold gated_intents; set_solver).
    destruct (one_of_words risk _), (SFleb (lit 80) s); vm_compute; reflexivity. }
  destruct (one_of_words intent ["research"]) eqn:E3; [apply Hin in E3|].
  { rewrite bool_decide_eq_false_2 by (unfold gated_intents; set_solver).
    destruct (one_of_words risk _), (SFleb (lit 80) s); vm_compute; reflexivity. }
  destruct (one_of_words intent ["strategy"]) eqn:E4; [apply Hin in E4|].
  { rewrite bool_decide_eq_true_2 by (unfold gated_intents; set_solver).
    destruct (one_of_words risk _), (SFleb (lit 80) s); vm_compute; reflexivity. }
  destruct (one_of_words intent ["deploy"; "operate"; "automate"]) eqn:E5; [apply Hin in E5|].
  { rewrite bool_decide_eq_true_2 by (unfold gated_intents; set_solver).
    destruct (one_of_words risk _), (SFleb (lit 80) s); vm_compute; reflexivity. }
  apply Hout in E4, E5. rewrite bool_decide_eq_false_2 by (unfold gated_intents; set_solver).
  destruct (one_of_words risk _), (SFleb (lit 80) s); vm_compute; reflexivity.
Qed.
