(* ===== verification/ModelCall.v ===== *)
(** * Planning a model call (apps/heiwa_core/src/drex/call.rs)

    Which of the candidate models may serve one call, and which of those does:
    the request and its checks, the rejection of a candidate with its reason,
    and the order of the admitted.  Costs and rates are [f64]s by their bits.  Then
    what the planner promises. *)

From stdpp Require Import base gmap strings numbers sorting list.
From Stdlib Require Import Ascii SpecFloat.
From S2P Require Import Prelude Json RoutePolicy Drex.
#[local] Open Scope Z_scope.

Inductive PrivacyClass : Type := Standard | LocalOnly | Sovereign.
Inductive ExecutionLocality : Type := OnDevice | SovereignEndpoint | Remote | Unverified.
Inductive CallRisk : Type := Low | Medium | High | Critical.
Inductive SafetyClass : Type := Approved | Unapproved | Blocked.
Inductive ModelCallStage : Type :=
| Classification | Planning | Compression | Drafting | Execution | Review | LoopIteration | LegacyRoute.
Inductive CostTruth : Type := LocalZeroCost | TargetOnly | ProxyEstimate | ExactProviderReport | CannotConfirm.

#[export] Instance privacy_eq_dec : EqDecision PrivacyClass.
Proof. solve_decision. Defined.
#[export] Instance locality_eq_dec : EqDecision ExecutionLocality.
Proof. solve_decision. Defined.
#[export] Instance call_risk_eq_dec : EqDecision CallRisk.
Proof. solve_decision. Defined.
#[export] Instance safety_eq_dec : EqDecision SafetyClass.
Proof. solve_decision. Defined.

(** The [parse] functions; [None] is the error. *)
Definition privacy_text (p : PrivacyClass) : string :=
  match p with Standard => "standard" | LocalOnly => "local_only" | Sovereign => "sovereign" end.
Definition parse_privacy (value : string) : option PrivacyClass :=
  head (filter (λ p, privacy_text p = value) [Standard; LocalOnly; Sovereign]).

Definition call_risk_text (r : CallRisk) : string :=
  match r with Low => "low" | Medium => "medium" | High => "high" | Critical => "critical" end.
Definition parse_call_risk (value : string) : option CallRisk :=
  head (filter (λ r, call_risk_text r = value) [Low; Medium; High; Critical]).

Definition low_risk_auto_approval (risk : CallRisk) : SafetyClass :=
  if bool_decide (risk = Low) then Approved else Unapproved.

Definition is_execution_bearing (s : ModelCallStage) : bool :=
  match s with Compression | Drafting | Execution | LoopIteration => true | _ => false end.

(** [heiwa_protocol::ModelTier] *)
Record ModelTier : Type := mkTier {
  mt_id : Z;
  mt_model_id : string;
  mt_provider_model_id : string;
  mt_provider : string;
  mt_rate_group : string;
  mt_capability_class : Z;
  mt_effort_knob : string;
  mt_effort_level : Z;
  mt_cost_per_turn : Z;
  mt_max_context_tokens : Z;
  mt_vram_requirement_mb : Z;
  mt_quantization_type : string;
  mt_kv_cache_strategy : string;
  mt_strengths_json : string;
  mt_enabled : bool;
  mt_last_success_rate : Z;
  mt_avg_latency_ms : Z;
  mt_latency_p_95_ms : Z;
  mt_updated_at : string;
}.

Record ModelCallRequest : Type := mkCallRequest {
  mr_thread_id : string;
  mr_turn_id : string;
  mr_work_id : option string;
  mr_call_id : string;
  mr_intent : string;
  mr_stage : ModelCallStage;
  mr_raw_text : string;
  mr_privacy : PrivacyClass;
  mr_risk : CallRisk;
  mr_safety : SafetyClass;
  mr_required_capabilities : list string;
  mr_required_context_tokens : Z;
  mr_minimum_quality_class : Z;
  mr_minimum_success_rate : Z;
  mr_maximum_marginal_cost_usd : option Z;
  mr_preferred_provider : option string;
  mr_preferred_model : option string;
  mr_allowed_models : list string;
  mr_excluded_models : list string;
}.

Record ModelCallCandidate : Type := mkCandidate {
  mc_tier : ModelTier;
  mc_locality : ExecutionLocality;
  mc_connected : bool;
  mc_adapter_capable : bool;
  mc_quota_available : bool;
  mc_marginal_cost_usd : option Z;
  mc_cost_truth : CostTruth;
}.

Definition candidate_id (c : ModelCallCandidate) : Z := mt_id (mc_tier c).

Inductive CandidateRejectionReason : Type :=
| DuplicateCandidateId | DisabledModel | InvalidMarginalCostUsd | InvalidCostTruth | InvalidSuccessRate
| CandidateDisconnected | AdapterIncapable | QuotaExhausted | ExcludedModel | NotAllowedModel
| PreferredProviderMismatch | PreferredModelMismatch | LocalOnlyOnDeviceRequired
| SovereignLocalityRequired | InsufficientContext | MissingRequiredCapability | MinimumQualityClass
| MinimumSuccessRate | MaximumMarginalCostUsd | UnknownMarginalCostUsd | SafetyForbidsExecution
| AuthorityApprovalRequired | InvalidRequestPolicy.

(** The derived order: by declaration. *)
Definition reason_rank (r : CandidateRejectionReason) : Z :=
  match r with
  | DuplicateCandidateId => 0 | DisabledModel => 1 | InvalidMarginalCostUsd => 2 | InvalidCostTruth => 3
  | InvalidSuccessRate => 4 | CandidateDisconnected => 5 | AdapterIncapable => 6 | QuotaExhausted => 7
  | ExcludedModel => 8 | NotAllowedModel => 9 | PreferredProviderMismatch => 10
  | PreferredModelMismatch => 11 | LocalOnlyOnDeviceRequired => 12 | SovereignLocalityRequired => 13
  | InsufficientContext => 14 | MissingRequiredCapability => 15 | MinimumQualityClass => 16
  | MinimumSuccessRate => 17 | MaximumMarginalCostUsd => 18 | UnknownMarginalCostUsd => 19
  | SafetyForbidsExecution => 20 | AuthorityApprovalRequired => 21 | InvalidRequestPolicy => 22
  end.

(** A rejection; the code's list of reasons always holds one. *)
Record CandidateRejection : Type := mkRejection {
  cj_candidate_id : Z;
  cj_reasons : list CandidateRejectionReason;
}.

Record ModelCallPlan : Type := mkCallPlan {
  mp_thread_id : string;
  mp_turn_id : string;
  mp_call_id : string;
  mp_stage : ModelCallStage;
  mp_selected : option ModelCallCandidate;
  mp_selected_id : option Z;
  mp_selected_cost_truth : option CostTruth;
  mp_admitted_ids : list Z;
  mp_rejected : list CandidateRejection;
  mp_policy_version : string;
  mp_selection_reason : string;
  mp_decision : DrexDecision;
}.

(** ** The order of candidates *)

Definition compare_candidates (l r : ModelCallCandidate) : comparison :=
  let cost :=
    match mc_marginal_cost_usd l, mc_marginal_cost_usd r with
    | Some a, Some b => f64_total_cmp a b
    | Some _, None => Lt
    | None, Some _ => Gt
    | None, None => Eq
    end in
  then_cmp cost
    (then_cmp (Z.compare (mt_capability_class (mc_tier r)) (mt_capability_class (mc_tier l)))
      (then_cmp (Z.compare (mt_latency_p_95_ms (mc_tier l)) (mt_latency_p_95_ms (mc_tier r)))
        (then_cmp (f64_total_cmp (mt_last_success_rate (mc_tier r)) (mt_last_success_rate (mc_tier l)))
          (Z.compare (candidate_id l) (candidate_id r))))).

Definition reason_compare (a b : CandidateRejectionReason) : comparison :=
  Z.compare (reason_rank a) (reason_rank b).

Definition compare_rejections (a b : CandidateRejection) : comparison :=
  then_cmp (Z.compare (cj_candidate_id a) (cj_candidate_id b)) (list_cmp reason_compare (cj_reasons a) (cj_reasons b)).

Definition sort_rejections (rejected : list CandidateRejection) : list CandidateRejection :=
  sort_by compare_rejections rejected.

(** ** Checks *)

Definition f64_nonneg (b : Z) : bool := f64_leb 0 b.
Definition f64_one : Z := 1023 * 2 ^ 52.

Definition valid_cost (cost : option Z) : bool :=
  match cost with None => true | Some c => f64_is_finite c && f64_nonneg c end.

Definition valid_probability (v : Z) : bool := f64_is_finite v && f64_nonneg v && f64_leb v f64_one.

Definition valid_request (request : ModelCallRequest) : bool :=
  negb (is_blank (mr_thread_id request)) && negb (is_blank (mr_turn_id request)) &&
  negb (is_blank (mr_call_id request)) && valid_probability (mr_minimum_success_rate request) &&
  valid_cost (mr_maximum_marginal_cost_usd request).

Definition cost_truth_is_valid (c : ModelCallCandidate) : bool :=
  match mc_cost_truth c with
  | LocalZeroCost =>
      bool_decide (mc_locality c = OnDevice) &&
      match mc_marginal_cost_usd c with Some cost => f64_eqb cost 0 | None => false end
  | TargetOnly | ProxyEstimate | ExactProviderReport =>
      match mc_marginal_cost_usd c with Some cost => f64_is_finite cost && f64_nonneg cost | None => false end
  | CannotConfirm => match mc_marginal_cost_usd c with None => true | Some _ => false end
  end.

Definition model_matches (c : ModelCallCandidate) (model : string) : bool :=
  bool_decide (model = mt_model_id (mc_tier c)) || bool_decide (model = mt_provider_model_id (mc_tier c)) ||
  bool_decide (model = mt_provider (mc_tier c) +:+ "/" +:+ mt_model_id (mc_tier c)).

Definition model_matches_any (c : ModelCallCandidate) (models : list string) : bool :=
  existsb (model_matches c) models.

Definition duplicate_ids (candidates : list ModelCallCandidate) : gmap Z nat :=
  filter (λ kv, (1 < kv.2)%nat)
    (foldl (λ m c, <[candidate_id c := S (default 0%nat (m !! candidate_id c))]> m) ∅ candidates).

Section plan.
Context `{JsonText}.

(** [tier_has_strength] of router.rs *)
Definition tier_has_strength (tier : ModelTier) (capability : string) : bool :=
  match parse_json (mt_strengths_json tier) ≫= as_list as_str with
  | Some strengths => bool_decide (capability ∈ strengths)
  | None => false
  end.

Definition has_capability (c : ModelCallCandidate) (capability : string) : bool :=
  tier_has_strength (mc_tier c) capability ||
  (bool_decide (capability = "advanced_coding") && (3 <=? mt_capability_class (mc_tier c))).

Definition privacy_rejection (privacy : PrivacyClass) (locality : ExecutionLocality)
    : option CandidateRejectionReason :=
  match privacy, locality with
  | Standard, _ | LocalOnly, OnDevice | Sovereign, (OnDevice | SovereignEndpoint) => None
  | LocalOnly, _ => Some LocalOnlyOnDeviceRequired
  | Sovereign, _ => Some SovereignLocalityRequired
  end.

Definition cost_rejection (maximum cost : option Z) : option CandidateRejectionReason :=
  match maximum, cost with
  | None, _ => None
  | Some max, Some c => if f64_ltb max c then Some MaximumMarginalCostUsd else None
  | Some _, None => Some UnknownMarginalCostUsd
  end.

Definition rejection_reason (request : ModelCallRequest) (c : ModelCallCandidate)
    : option CandidateRejectionReason :=
  if negb (mt_enabled (mc_tier c)) then Some DisabledModel
  else if negb (valid_cost (mc_marginal_cost_usd c)) then Some InvalidMarginalCostUsd
  else if negb (cost_truth_is_valid c) then Some InvalidCostTruth
  else if negb (valid_probability (mt_last_success_rate (mc_tier c))) then Some InvalidSuccessRate
  else if negb (mc_connected c) then Some CandidateDisconnected
  else if negb (mc_adapter_capable c) then Some AdapterIncapable
  else if negb (mc_quota_available c) then Some QuotaExhausted
  else if model_matches_any c (mr_excluded_models request) then Some ExcludedModel
  else if negb (bool_decide (mr_allowed_models request = [])) &&
          negb (model_matches_any c (mr_allowed_models request)) then Some NotAllowedModel
  else if match mr_preferred_provider request with
          | Some provider => negb (bool_decide (provider = mt_provider (mc_tier c))) | None => false end
  then Some PreferredProviderMismatch
  else if match mr_preferred_model request with
          | Some model => negb (model_matches c model) | None => false end
  then Some PreferredModelMismatch
  else
    match privacy_rejection (mr_privacy request) (mc_locality c) with
    | Some reason => Some reason
    | None =>
        if mt_max_context_tokens (mc_tier c) <? mr_required_context_tokens request
        then Some InsufficientContext
        else if negb (forallb (has_capability c) (mr_required_capabilities request))
        then Some MissingRequiredCapability
        else if mt_capability_class (mc_tier c) <? mr_minimum_quality_class request
        then Some MinimumQualityClass
        else if f64_ltb (mt_last_success_rate (mc_tier c)) (mr_minimum_success_rate request)
        then Some MinimumSuccessRate
        else cost_rejection (mr_maximum_marginal_cost_usd request) (mc_marginal_cost_usd c)
    end.

Definition rejection (id : Z) (reason : CandidateRejectionReason) : CandidateRejection :=
  mkRejection id [reason].

(** [call_decision] *)
Definition call_decision (request : ModelCallRequest) (policy : DrexPolicy) : DrexDecision :=
  let vector := build_drex_vector (mr_intent request) (call_risk_text (mr_risk request))
    (mr_raw_text request) (privacy_text (mr_privacy request))
    (if bool_decide (mr_privacy request = Standard) then "any" else "local") in
  let runtime_fit := if is_execution_bearing (mr_stage request) then lit 100 else lit 80 in
  let observability := if bool_decide (mr_safety request = Approved) then lit 95 else lit 80 in
  evaluate_drex vector policy observability runtime_fit (lit 65).

Definition no_selection_plan (request : ModelCallRequest) (decision : DrexDecision)
    (candidates : list ModelCallCandidate) (reason : CandidateRejectionReason) (selection_reason : string)
    : ModelCallPlan :=
  mkCallPlan (mr_thread_id request) (mr_turn_id request) (mr_call_id request) (mr_stage request)
    None None None [] (sort_rejections (map (λ c, rejection (candidate_id c) reason) candidates))
    DEFAULT_POLICY_VERSION selection_reason decision.

(** The fate of one candidate: [None] when it is admitted. *)
Definition fate (request : ModelCallRequest) (duplicates : gmap Z nat) (c : ModelCallCandidate)
    : option CandidateRejectionReason :=
  if bool_decide (is_Some (duplicates !! candidate_id c)) then Some DuplicateCandidateId
  else rejection_reason request c.

(** The loop that sorts the candidates into admitted and rejected. *)
Definition classify (request : ModelCallRequest) (candidates : list ModelCallCandidate)
    : list ModelCallCandidate * list CandidateRejection :=
  let duplicates := duplicate_ids candidates in
  foldl (λ '(admitted, rejected) c,
    match fate request duplicates c with
    | Some reason => (admitted, rejected ++ [rejection (candidate_id c) reason])
    | None => (admitted ++ [c], rejected)
    end) ([], []) candidates.

(** [plan_model_call]; it never fails. *)
Definition plan_model_call (request : ModelCallRequest) (candidates : list ModelCallCandidate)
    (policy : DrexPolicy) : ModelCallPlan :=
  let decision := call_decision request policy in
  if negb (valid_request request) then
    no_selection_plan request decision candidates InvalidRequestPolicy "invalid_request_policy"
  else if bool_decide (mr_safety request = Blocked) then
    no_selection_plan request decision candidates SafetyForbidsExecution "safety_forbids_execution"
  else if is_execution_bearing (mr_stage request) && requires_approval (dd_gate decision) &&
          negb (bool_decide (mr_safety request = Approved)) then
    no_selection_plan request decision candidates AuthorityApprovalRequired "authority_approval_required"
  else
    let '(admitted, rejected) := classify request candidates in
    let admitted := sort_by compare_candidates admitted in
    let selected := head admitted in
    mkCallPlan (mr_thread_id request) (mr_turn_id request) (mr_call_id request) (mr_stage request)
      selected (candidate_id <$> selected) (mc_cost_truth <$> selected) (map candidate_id admitted)
      (sort_rejections rejected) DEFAULT_POLICY_VERSION
      (if bool_decide (is_Some selected) then "lowest_known_marginal_cost_then_quality_latency_success"
       else "no_admitted_model_call_candidates") decision.

End plan.

(** ** Who serves a call

    What the planner of ModelCall.v promises: the exact conditions a candidate
    is admitted under, the choice among the admitted, and its independence of
    the order in which candidates are found. *)

(** ** Candidates that share an id *)

Definition occurrences (id : Z) (candidates : list ModelCallCandidate) : nat :=
  length (filter (λ c, candidate_id c = id) candidates).

Lemma count_ids id candidates : ∀ m : gmap Z nat,
  foldl (λ m c, <[candidate_id c := S (default 0%nat (m !! candidate_id c))]> m) m candidates !! id =
  if bool_decide (occurrences id candidates = 0%nat) then m !! id
  else Some (default 0%nat (m !! id) + occurrences id candidates)%nat.
Proof.
  induction candidates as [|c candidates IH]; intros m; [done|]. simpl. rewrite IH. clear IH.
  unfold occurrences. rewrite filter_cons. case_decide as Hid; simpl.
  - subst id. rewrite lookup_insert_eq. simpl. case_bool_decide as E; [rewrite E; f_equal; lia|f_equal; lia].
  - by rewrite lookup_insert_ne by done.
Qed.

Lemma duplicate_iff id candidates :
  is_Some (duplicate_ids candidates !! id) ↔ (1 < occurrences id candidates)%nat.
Proof.
  unfold duplicate_ids, is_Some. setoid_rewrite map_lookup_filter_Some. setoid_rewrite count_ids.
  rewrite lookup_empty. simpl. case_bool_decide; split.
  - by intros (? & ? & _).
  - lia.
  - by intros (n & [= <-] & Hn).
  - intros Hn. eauto.
Qed.

Lemma occurrences_perm id l l' : l ≡ₚ l' → occurrences id l = occurrences id l'.
Proof. intros Hp. unfold occurrences. by rewrite Hp. Qed.

(** Among candidates with unique ids the id tells them apart. *)
Lemma unique_by_id candidates c c' :
  c ∈ candidates → c' ∈ candidates → candidate_id c = candidate_id c' →
  (occurrences (candidate_id c) candidates ≤ 1)%nat → c = c'.
Proof.
  intros Hc Hc' Hid Hocc. unfold occurrences in Hocc.
  assert (c ∈ filter (λ x, candidate_id x = candidate_id c) candidates) as H1 by by apply list_elem_of_filter.
  assert (c' ∈ filter (λ x, candidate_id x = candidate_id c) candidates) as H2 by by apply list_elem_of_filter.
  destruct (filter _ candidates) as [|x [|]]; [by apply elem_of_nil in H1| |simpl in Hocc; lia].
  apply list_elem_of_singleton in H1, H2. congruence.
Qed.

(** ** Admission *)

(** The privacy class a locality may serve. *)
Definition keeps_private (p : PrivacyClass) (l : ExecutionLocality) : Prop :=
  match p with
  | Standard => True
  | LocalOnly => l = OnDevice
  | Sovereign => l = OnDevice ∨ l = SovereignEndpoint
  end.

Definition within_budget (maximum cost : option Z) : Prop :=
  ∀ max, maximum = Some max → ∃ c, cost = Some c ∧ f64_leb c max = true.

Section admission.
Context `{JsonText}.

(** What a request asks of the candidate that serves it. *)
Record permitted (request : ModelCallRequest) (c : ModelCallCandidate) : Prop := {
  pm_enabled : mt_enabled (mc_tier c) = true;
  pm_cost : valid_cost (mc_marginal_cost_usd c) = true;
  pm_cost_truth : cost_truth_is_valid c = true;
  pm_rate : valid_probability (mt_last_success_rate (mc_tier c)) = true;
  pm_connected : mc_connected c = true;
  pm_adapter : mc_adapter_capable c = true;
  pm_quota : mc_quota_available c = true;
  pm_excluded : ∀ m, m ∈ mr_excluded_models request → model_matches c m = false;
  pm_allowed : mr_allowed_models request = [] ∨ ∃ m, m ∈ mr_allowed_models request ∧ model_matches c m = true;
  pm_provider : ∀ p, mr_preferred_provider request = Some p → mt_provider (mc_tier c) = p;
  pm_model : ∀ m, mr_preferred_model request = Some m → model_matches c m = true;
  pm_privacy : keeps_private (mr_privacy request) (mc_locality c);
  pm_context : mr_required_context_tokens request ≤ mt_max_context_tokens (mc_tier c);
  pm_capabilities : ∀ k, k ∈ mr_required_capabilities request → has_capability c k = true;
  pm_quality : mr_minimum_quality_class request ≤ mt_capability_class (mc_tier c);
  pm_success : f64_leb (mr_minimum_success_rate request) (mt_last_success_rate (mc_tier c)) = true;
  pm_budget : within_budget (mr_maximum_marginal_cost_usd request) (mc_marginal_cost_usd c);
}.

Lemma f64_total a b : f64_is_nan a = false → f64_is_nan b = false → f64_ltb a b = false ↔ f64_leb b a = true.
Proof.
  unfold f64_ltb, f64_leb, f64_partial_cmp. intros -> ->. simpl.
  rewrite (Z.compare_antisym (f64_key a) (f64_key b)). by destruct (Z.compare _ _).
Qed.

Lemma valid_cost_not_nan c : valid_cost (Some c) = true → f64_is_nan c = false.
Proof. intros [Hf _]%andb_true_iff. by apply f64_finite_not_nan. Qed.

Lemma valid_probability_not_nan v : valid_probability v = true → f64_is_nan v = false.
Proof. intros [[Hf _]%andb_true_iff _]%andb_true_iff. by apply f64_finite_not_nan. Qed.

Lemma privacy_iff p l : privacy_rejection p l = None ↔ keeps_private p l.
Proof. destruct p, l; simpl; naive_solver. Qed.

Lemma budget_iff maximum cost :
  valid_cost maximum = true → valid_cost cost = true →
  cost_rejection maximum cost = None ↔ within_budget maximum cost.
Proof.
  intros Hm Hc. unfold within_budget. destruct maximum as [max|]; simpl; [|naive_solver].
  destruct cost as [c|]; simpl.
  - destruct (f64_ltb max c) eqn:E.
    + split; [done|]. intros Hw. destruct (Hw max eq_refl) as (c' & [= <-] & Hle).
      apply f64_total in Hle; [congruence|by apply valid_cost_not_nan..].
    + split; [|done]. intros _ ? [= <-]. exists c. split; [done|].
      apply f64_total; [by apply valid_cost_not_nan..|done].
  - split; [done|]. intros Hw. by destruct (Hw max eq_refl) as (c' & ? & _).
Qed.

Lemma existsb_false {A} (f : A → bool) l : existsb f l = false ↔ ∀ x, x ∈ l → f x = false.
Proof.
  induction l as [|x l IH]; simpl; [split; [by intros _ ? ?%elem_of_nil|done]|].
  rewrite orb_false_iff, IH. setoid_rewrite elem_of_cons. naive_solver.
Qed.

Lemma existsb_true {A} (f : A → bool) l : existsb f l = true ↔ ∃ x, x ∈ l ∧ f x = true.
Proof. rewrite existsb_exists. by setoid_rewrite list_elem_of_In. Qed.

Lemma forallb_true {A} (f : A → bool) l : forallb f l = true ↔ ∀ x, x ∈ l → f x = true.
Proof. rewrite forallb_forall. by setoid_rewrite list_elem_of_In. Qed.

Lemma first_check (b : bool) (r : CandidateRejectionReason) (k : option CandidateRejectionReason) :
  (if b then Some r else k) = None ↔ b = false ∧ k = None.
Proof. destruct b; naive_solver. Qed.

Lemma then_check (o k : option CandidateRejectionReason) :
  match o with Some r => Some r | None => k end = None ↔ o = None ∧ k = None.
Proof. destruct o; naive_solver. Qed.

(** A candidate is rejected for nothing exactly when it is permitted. *)
Lemma rejection_iff request c :
  valid_request request = true → rejection_reason request c = None ↔ permitted request c.
Proof.
  unfold valid_request. rewrite !andb_true_iff. intros [[_ Hrate] Hmax].
  unfold rejection_reason. rewrite !first_check, then_check, !first_check, privacy_iff.
  unfold model_matches_any. rewrite !negb_false_iff, existsb_false, andb_false_iff, !negb_false_iff,
    existsb_true, bool_decide_eq_true, !Z.ltb_ge, forallb_true.
  split.
  - intros (He & Hc & Ht & Hr & Hn & Ha & Hq & Hx & Hal & Hp & Hm & Hpr & Hctx & Hcap & Hqual & Hs & Hb).
    split; try done.
    + intros p Hpp. rewrite Hpp in Hp. by apply negb_false_iff, bool_decide_eq_true in Hp.
    + intros m Hmm. rewrite Hmm in Hm. by apply negb_false_iff in Hm.
    + apply f64_total; [by apply valid_probability_not_nan..|done].
    + by apply budget_iff.
  - intros [He Hc Ht Hr Hn Ha Hq Hx Hal Hp Hm Hpr Hctx Hcap Hqual Hs Hb]. split_and!; try done.
    + destruct (mr_preferred_provider request) as [p|]; [|done]. rewrite (Hp p) by done.
      apply negb_false_iff. by apply bool_decide_eq_true.
    + destruct (mr_preferred_model request) as [m|]; [|done]. apply negb_false_iff. by apply Hm.
    + apply f64_total; [by apply valid_probability_not_nan..|done].
    + by apply budget_iff.
Qed.

(** ** The classification *)

Lemma classify_eq request candidates :
  classify request candidates =
  (filter (λ c, fate request (duplicate_ids candidates) c = None) candidates,
   omap (λ c, rejection (candidate_id c) <$> fate request (duplicate_ids candidates) c) candidates).
Proof.
  unfold classify. generalize (duplicate_ids candidates) as d. intros d.
  induction candidates as [|c l IH] using rev_ind; [done|].
  rewrite foldl_snoc, IH, filter_app, omap_app, filter_cons, filter_nil. simpl.
  destruct (fate request d c); simpl; by rewrite app_nil_r.
Qed.

Lemma fate_iff request candidates c :
  valid_request request = true →
  fate request (duplicate_ids candidates) c = None ↔
  (occurrences (candidate_id c) candidates ≤ 1)%nat ∧ permitted request c.
Proof.
  intros Hv. unfold fate. rewrite first_check, (rejection_iff request c Hv).
  rewrite bool_decide_eq_false, duplicate_iff. by rewrite Nat.nlt_ge.
Qed.

End admission.

(** ** The orders are total *)

Definition cost_compare (a b : option Z) : comparison :=
  match a, b with
  | Some a, Some b => f64_total_cmp a b
  | Some _, None => Lt
  | None, Some _ => Gt
  | None, None => Eq
  end.

#[export] Instance cost_compare_laws : CmpLaws cost_compare.
Proof.
  split; [intros [x|] [y|]; try done; apply (cmp_opp f64_total_cmp)|].
  intros [x|] [y|] [z|]; try done. apply (cmp_trans f64_total_cmp).
Qed.

#[export] Instance compare_candidates_laws : CmpLaws compare_candidates.
Proof.
  apply then_cmp_laws; [apply (on_cmp_laws cost_compare mc_marginal_cost_usd)|].
  apply then_cmp_laws.
  { apply (on_cmp_laws _ (λ c, mt_capability_class (mc_tier c)) (CmpLaws0 := flip_cmp_laws Z.compare)). }
  apply then_cmp_laws; [apply (on_cmp_laws Z.compare (λ c, mt_latency_p_95_ms (mc_tier c)))|].
  apply then_cmp_laws; [|apply (on_cmp_laws Z.compare candidate_id)].
  apply (on_cmp_laws _ (λ c, mt_last_success_rate (mc_tier c)) (CmpLaws0 := flip_cmp_laws f64_total_cmp)).
Qed.

#[export] Instance reason_compare_laws : CmpLaws reason_compare.
Proof. apply (on_cmp_laws Z.compare reason_rank). Qed.

#[export] Instance compare_rejections_laws : CmpLaws compare_rejections.
Proof.
  apply then_cmp_laws; [apply (on_cmp_laws Z.compare cj_candidate_id)|].
  apply (on_cmp_laws (list_cmp reason_compare) cj_reasons).
Qed.

Lemma then_cmp_Eq c d : then_cmp c d = Eq → c = Eq ∧ d = Eq.
Proof. by destruct c. Qed.

Lemma compare_candidates_id a b : compare_candidates a b = Eq → candidate_id a = candidate_id b.
Proof.
  intros (_ & (_ & (_ & (_ & H)%then_cmp_Eq)%then_cmp_Eq)%then_cmp_Eq)%then_cmp_Eq. by apply Z.compare_eq.
Qed.

Lemma compare_rejections_Eq a b : compare_rejections a b = Eq → a = b.
Proof.
  destruct a as [i r], b as [i' r']. intros (Hi%Z.compare_eq & Hr)%then_cmp_Eq. simpl in *. subst.
  f_equal. eapply list_cmp_Eq; [|exact Hr]. intros x y H%Z.compare_eq. by destruct x, y.
Qed.

Section plans.
Context `{JsonText}.

(** Whether the request as a whole is let through to the candidates. *)
Definition let_through (request : ModelCallRequest) : Prop :=
  valid_request request = true ∧ mr_safety request ≠ Blocked ∧
  (is_execution_bearing (mr_stage request) = true → mr_intent request ∈ gated_intents →
   mr_safety request = Approved).

(** A candidate that may serve: of its own id, and permitted. *)
Definition eligible (request : ModelCallRequest) (candidates : list ModelCallCandidate)
    (c : ModelCallCandidate) : Prop :=
  c ∈ candidates ∧ (occurrences (candidate_id c) candidates ≤ 1)%nat ∧ permitted request c.

Lemma call_gate request policy :
  requires_approval (dd_gate (call_decision request policy)) = bool_decide (mr_intent request ∈ gated_intents).
Proof.
  unfold call_decision, evaluate_drex. rewrite <- (gate_is_the_intent (mr_intent request)
    (call_risk_text (mr_risk request)) (mr_raw_text request) (privacy_text (mr_privacy request))
    (if bool_decide (mr_privacy request = Standard) then "any" else "local")).
  by destruct (choose_tier _ _ _ _ _).
Qed.

(** The plan of a request that is let through, or not. *)
Lemma plan_cases request candidates policy :
  let p := plan_model_call request candidates policy in
  (let_through request ∧ mp_selected p = head (sort_by compare_candidates (classify request candidates).1) ∧
   mp_admitted_ids p = map candidate_id (sort_by compare_candidates (classify request candidates).1) ∧
   mp_rejected p = sort_rejections (classify request candidates).2) ∨
  (¬ let_through request ∧ mp_selected p = None ∧ mp_admitted_ids p = [] ∧
   ∃ reason, mp_rejected p = sort_rejections (map (λ c, rejection (candidate_id c) reason) candidates)).
Proof.
  unfold plan_model_call, let_through. rewrite call_gate.
  destruct (valid_request request); simpl; [|right; split_and!; [naive_solver|done..|by eexists]].
  case_bool_decide as Hb; simpl; [right; split_and!; [naive_solver|done..|by eexists]|].
  destruct (is_execution_bearing (mr_stage request)) eqn:Hs; simpl.
  - case_bool_decide as Hi; simpl.
    + case_bool_decide as Ha; simpl.
      * left. by destruct (classify request candidates).
      * right. split_and!; [naive_solver|done..|by eexists].
    + left. by destruct (classify request candidates).
  - left. by destruct (classify request candidates).
Qed.

Lemma admitted_elem request candidates c :
  valid_request request = true → c ∈ (classify request candidates).1 ↔ eligible request candidates c.
Proof.
  intros Hv. rewrite classify_eq. simpl. rewrite list_elem_of_filter, (fate_iff _ _ _ Hv).
  unfold eligible. naive_solver.
Qed.

Lemma head_sorted {A} (cmp : A → A → comparison) `{!CmpLaws cmp} l x :
  head (sort_by cmp l) = Some x → x ∈ l ∧ ∀ y, y ∈ l → cmp x y ≠ Gt.
Proof.
  pose proof (sort_by_sorted cmp l) as Hs. pose proof (sort_by_perm cmp l) as Hp.
  destruct (sort_by cmp l) as [|z r]; [done|]. intros [= ->].
  assert (∀ y, y ∈ x :: r ↔ y ∈ l) as Hin by (intros y; by rewrite Hp).
  split; [apply Hin; by left|]. intros y [->|Hy]%Hin%elem_of_cons; [by rewrite (cmp_refl cmp)|].
  inversion_clear Hs as [|? ? ? Hx]. rewrite Forall_forall in Hx. by apply Hx.
Qed.

(**  The planner selects the best permitted candidate.  A model is selected
    exactly when the request is well-formed, not blocked, and not an unapproved
    execution of a gated intent, and some candidate of its own id meets every
    demand: enabled, with honest cost and rate, connected and able, within
    quota, allowed and not excluded, of the preferred provider and model, where
    the privacy class lets the text go, large and capable enough, and known to
    be within the budget.  What is selected meets them, and no other such
    candidate comes before it; a tie is impossible. *)
Theorem plan_selects_the_best (request : ModelCallRequest) (candidates : list ModelCallCandidate)
    (policy : DrexPolicy) :
  let p := plan_model_call request candidates policy in
  (∀ c, mp_selected p = Some c ↔
     let_through request ∧ eligible request candidates c ∧
     ∀ c', eligible request candidates c' → c' = c ∨ compare_candidates c c' = Lt) ∧
  (mp_selected p = None ↔ ¬ (let_through request ∧ ∃ c, eligible request candidates c)) ∧
  mp_selected_id p = candidate_id <$> mp_selected p ∧
  requires_approval (dd_gate (mp_decision p)) = bool_decide (mr_intent request ∈ gated_intents).
Proof.
  intros p.
  assert (mp_selected_id p = candidate_id <$> mp_selected p) as Hid.
  { unfold p, plan_model_call. repeat case_match; done. }
  assert (dd_gate (mp_decision p) = dd_gate (call_decision request policy)) as Hg.
  { unfold p, plan_model_call. repeat case_match; done. }
  rewrite Hg, call_gate. split_and!; [| |done..].
  - intros c. destruct (plan_cases request candidates policy) as [(Hl & Hs & _)|(Hl & Hs & _)]; fold p in Hs;
      rewrite Hs; [|split; [done|by intros [? _]]].
    pose proof Hl as (Hv & _). split.
    + intros [Hc Hbest]%(head_sorted compare_candidates). apply (admitted_elem _ _ _ Hv) in Hc. split; [done|split; [done|]].
      intros c' Hc'. destruct (compare_candidates c c') eqn:E; [left|by right|].
      * apply compare_candidates_id in E. destruct Hc as (? & ? & _), Hc' as (? & ? & _).
        symmetry. by eapply unique_by_id.
      * destruct (Hbest c'); [by apply (admitted_elem _ _ _ Hv)|done].
    + intros (_ & Hc & Hbest). destruct (head (sort_by _ _)) as [d|] eqn:Hd.
      * apply (head_sorted compare_candidates) in Hd as [Hd Hle]. pose proof Hd as Hd'. apply (admitted_elem _ _ _ Hv) in Hd.
        destruct (Hbest d Hd) as [->|Hlt]; [done|].
        apply (admitted_elem _ _ _ Hv) in Hc. specialize (Hle c Hc).
        rewrite (cmp_opp compare_candidates c d), Hlt in Hle. done.
      * apply (admitted_elem _ _ _ Hv) in Hc. rewrite <- (sort_by_perm compare_candidates) in Hc.
        destruct (sort_by _ _); [by apply elem_of_nil in Hc|done].
  - destruct (plan_cases request candidates policy) as [(Hl & Hs & _)|(Hl & Hs & _)]; fold p in Hs; rewrite Hs;
      [|naive_solver].
    pose proof Hl as (Hv & _). destruct (sort_by _ _) as [|d r] eqn:E; simpl; split; try done.
    + intros _ (_ & c & Hc). apply (admitted_elem _ _ _ Hv) in Hc.
      rewrite <- (sort_by_perm compare_candidates), E in Hc. by apply elem_of_nil in Hc.
    + intros Hno. destruct Hno. split; [done|]. exists d. apply (admitted_elem _ _ _ Hv).
      rewrite <- (sort_by_perm compare_candidates), E. by left.
Qed.

Lemma duplicate_ids_perm l l' : l ≡ₚ l' → duplicate_ids l = duplicate_ids l'.
Proof.
  intros Hp. apply map_eq. intros id. unfold duplicate_ids. apply option_eq. intros n.
  rewrite !map_lookup_filter_Some, !count_ids. by rewrite (occurrences_perm id _ _ Hp).
Qed.

Lemma classify_perm request l l' :
  l ≡ₚ l' → (classify request l).1 ≡ₚ (classify request l').1 ∧ (classify request l).2 ≡ₚ (classify request l').2.
Proof.
  intros Hp. rewrite !classify_eq. simpl. rewrite (duplicate_ids_perm _ _ Hp). split.
  - by rewrite Hp.
  - by rewrite Hp.
Qed.

Lemma sort_rejections_perm l l' : l ≡ₚ l' → sort_rejections l = sort_rejections l'.
Proof.
  intros Hp. apply (sort_by_unique compare_rejections); [done|]. intros x y _ _. apply compare_rejections_Eq.
Qed.

Lemma sort_admitted_perm request l l' :
  l ≡ₚ l' →
  sort_by compare_candidates (classify request l).1 = sort_by compare_candidates (classify request l').1.
Proof.
  intros Hp. apply (sort_by_unique compare_candidates); [by apply classify_perm|].
  assert (∀ x, x ∈ (classify request l).1 → x ∈ l ∧ (occurrences (candidate_id x) l ≤ 1)%nat) as Hin.
  { intros x. rewrite classify_eq. simpl. intros [Hf Hx]%list_elem_of_filter. split; [done|].
    unfold fate in Hf. apply first_check in Hf as [Hd _].
    rewrite bool_decide_eq_false, duplicate_iff in Hd. lia. }
  intros x y [Hx Hu]%Hin [Hy _]%Hin E%compare_candidates_id. by eapply unique_by_id.
Qed.

Lemma filter_or_omap {A B} (f : A → option B) (g : A → Z) (h : B → Z) l :
  (∀ x b, f x = Some b → h b = g x) →
  map g (filter (λ x, f x = None) l) ++ map h (omap f l) ≡ₚ map g l.
Proof.
  intros Hfg. induction l as [|x l IH]; [done|]. rewrite filter_cons. simpl.
  destruct (f x) as [b|] eqn:E; simpl; [|by rewrite IH].
  rewrite <- Permutation_middle, IH. by rewrite (Hfg x b E).
Qed.

Lemma NoDup_unique {A} (g : A → Z) (l : list A) :
  (∀ x, x ∈ l → (length (filter (λ y, g y = g x) l) ≤ 1)%nat) → NoDup (map g l).
Proof.
  induction l as [|x l IH]; intros Hu; [constructor|]. simpl. constructor.
  - intros (y & Hg & Hy)%list_elem_of_fmap. specialize (Hu x ltac:(by left)).
    rewrite filter_cons_True in Hu by done. simpl in Hu.
    assert (y ∈ filter (λ y, g y = g x) l) as Hin by by apply list_elem_of_filter.
    destruct (filter _ l); [by apply elem_of_nil in Hin|simpl in Hu; lia].
  - apply IH. intros y Hy. specialize (Hu y ltac:(by right)). rewrite filter_cons in Hu.
    case_decide; simpl in Hu; lia.
Qed.

Lemma length_filter_filter {A} (P Q : A → Prop) `{∀ x, Decision (P x), ∀ x, Decision (Q x)} l :
  (length (filter P (filter Q l)) ≤ length (filter P l))%nat.
Proof. induction l as [|x l IH]; [done|]. rewrite !filter_cons. repeat case_decide; rewrite ?filter_cons; repeat case_decide; simpl; try done; lia. Qed.

Lemma admitted_NoDup request candidates :
  valid_request request = true → NoDup (map candidate_id (classify request candidates).1).
Proof.
  intros Hv. apply NoDup_unique. intros x (_ & Hu & _)%(admitted_elem _ _ _ Hv).
  rewrite classify_eq. simpl. etrans; [apply length_filter_filter|exact Hu].
Qed.

(**  The plan does not depend on how the candidates were found: any order
    of them gives the same plan, down to the lists of admitted and rejected.
    The two lists account for every candidate, each rejection gives one reason,
    and admitted candidates are listed from the best. *)
Theorem plan_is_order_independent (request : ModelCallRequest) (candidates : list ModelCallCandidate)
    (policy : DrexPolicy) :
  let p := plan_model_call request candidates policy in
  (∀ candidates', candidates ≡ₚ candidates' → plan_model_call request candidates' policy = p) ∧
  mp_admitted_ids p ++ map cj_candidate_id (mp_rejected p) ≡ₚ map candidate_id candidates ∧
  Forall (λ r, ∃ reason, cj_reasons r = [reason]) (mp_rejected p) ∧
  ∃ admitted, mp_admitted_ids p = map candidate_id admitted ∧
    StronglySorted (λ c c', compare_candidates c c' = Lt) admitted ∧
    ∀ c, c ∈ admitted ↔ let_through request ∧ eligible request candidates c.
Proof.
  intros p. split_and!.
  - intros candidates' Hp. unfold p, plan_model_call, no_selection_plan.
    rewrite !(sort_rejections_perm (map _ candidates') (map _ candidates)) by by rewrite Hp.
    pose proof (sort_admitted_perm request _ _ Hp) as Hadm.
    pose proof (sort_rejections_perm _ _ (proj2 (classify_perm request _ _ Hp))) as Hrej.
    destruct (classify request candidates) as [a r], (classify request candidates') as [a' r'].
    simpl in Hadm, Hrej. by rewrite Hadm, Hrej.
  - destruct (plan_cases request candidates policy) as [(_ & _ & Ha & Hr)|(_ & _ & Ha & reason & Hr)];
      fold p in Ha, Hr; rewrite Ha, Hr; unfold sort_rejections; rewrite !sort_by_perm.
    + rewrite classify_eq. simpl. set (d := duplicate_ids candidates).
      etrans; [|apply (filter_or_omap (λ c, rejection (candidate_id c) <$> fate request d c) candidate_id
                         cj_candidate_id)].
      * apply Permutation_app; [|done]. apply reflexive_eq. f_equal. apply list_filter_iff.
        intros c. by destruct (fate request d c).
      * intros c b. destruct (fate request d c); [|done]. by intros [= <-].
    + simpl. rewrite map_map. done.
  - destruct (plan_cases request candidates policy) as [(_ & _ & Ha & Hr)|(_ & _ & Ha & reason & Hr)];
      fold p in Ha, Hr; rewrite Hr; unfold sort_rejections; rewrite sort_by_perm; apply Forall_forall; intros x Hx.
    + rewrite classify_eq in Hx. simpl in Hx. apply list_elem_of_omap in Hx as (c & _ & Hx).
      destruct (fate request _ c); [|done]. injection Hx as <-. by eexists.
    + apply list_elem_of_fmap in Hx as (c & -> & _). by eexists.
  - destruct (plan_cases request candidates policy) as [(Hl & _ & Ha & _)|(Hl & _ & Ha & _)]; fold p in Ha; rewrite Ha.
    + pose proof Hl as (Hv & _). eexists. split; [reflexivity|]. split.
      * apply (sort_by_strict compare_candidates).
        -- intros x y (Hx & Hu & _)%(admitted_elem _ _ _ Hv) (Hy & _)%(admitted_elem _ _ _ Hv)
             E%compare_candidates_id. by eapply unique_by_id.
        -- eapply NoDup_fmap_1, admitted_NoDup, Hv.
      * intros c. rewrite (sort_by_perm compare_candidates), (admitted_elem _ _ _ Hv). naive_solver.
    + exists []. split; [done|]. split; [constructor|]. intros c. split; [by intros ?%elem_of_nil|naive_solver].
Qed.

End plans.
