(* ===== verification/Routing.v ===== *)
(** * Routing an ingress (apps/heiwa_core/src/drex/router.rs)

    The preflight of a request, the candidates its model tiers become, and the
    route planned for it.  The identity of the call and the text of JSON are
    arguments; a route never fails. *)

From stdpp Require Import base gmap strings numbers pretty sorting list.
From Stdlib Require Import Ascii SpecFloat.
From S2P Require Import Prelude Json Sensitive RoutePolicy Drex ModelCall.
#[local] Open Scope Z_scope.

Record DrexIngress : Type := mkIngress {
  in_intent : string;
  in_risk : string;
  in_raw_text : string;
  in_privacy : string;
  in_runtime : string;
  in_available_vram_mb : Z;
  in_required_context_tokens : Z;
}.

Record ModelCallIdentity : Type := mkIdentity {
  id_thread_id : string;
  id_turn_id : string;
  id_call_id : string;
}.

Record RoutePlan : Type := mkRoute {
  rt_thread_id : string;
  rt_turn_id : string;
  rt_call_id : string;
  rt_stage : ModelCallStage;
  rt_decision : DrexDecision;
  rt_execution_mode : ExecutionMode;
  rt_runtime_hint : string;
  rt_selected_model : option ModelTier;
  rt_routing_metadata : string;
}.

Record PreflightDecision : Type := mkPreflight {
  pf_execution_mode : ExecutionMode;
  pf_response_text : option string;
  pf_reason : string;
}.

#[export] Instance execution_mode_eq_dec : EqDecision ExecutionMode.
Proof. solve_decision. Defined.

(** ** Names *)

Definition is_local_provider (p : string) : bool := one_of_words p ["ollama"; "local"; "vllm"; "litellm"].
Definition is_local_runtime (r : string) : bool := one_of_words r ["macbook"; "boost"; "local"].

(** A detected inventory of the device itself. *)
Definition on_device (tier : ModelTier) : bool :=
  one_of_words (mt_provider tier) ["ollama"; "local"] && one_of_words (mt_rate_group tier) ["local"; "local_ollama"].

Definition execution_mode_for_tier (tier : ModelTier) : ExecutionMode :=
  if on_device tier then LocalModel else RemoteModel.

Definition execution_mode_label (m : ExecutionMode) : string :=
  match m with
  | Deterministic => "deterministic" | LocalModel => "local_model"
  | RemoteModel => "remote_model" | Clarify => "clarify"
  end.

Definition is_greeting (lowercase : string) : bool :=
  one_of_words (trim lowercase)
    ["hi"; "hello"; "hey"; "yo"; "sup"; "gm"; "good morning"; "good afternoon"; "good evening"].

(** [split_whitespace().count()] *)
Fixpoint count_words (fuel : nat) (in_word : bool) (s : bytes) : nat :=
  match fuel, s with
  | O, _ | _, [] => 0
  | S fuel', _ :: s' =>
      match strip_first whitespace s with
      | Some r => count_words fuel' false r
      | None => (if in_word then 0 else 1) + count_words fuel' true s'
      end
  end.

Definition is_underspecified (lowercase : string) : bool :=
  let trimmed := trim lowercase in
  (count_words (String.length trimmed) false (as_bytes trimmed) <=? 2)%nat &&
  one_of_words trimmed ["help"; "what"; "why"; "huh"; "okay"; "ok"; "sure"; "go"; "start"; "continue"].

Definition word_byte (a : ascii) : bool := is_ascii_alphanumeric a || bool_decide (a = "_"%char).

(** The separators are single ASCII bytes or parts of one character, whose
    pieces hold no word either way. *)
Definition contains_word (text word : string) : bool :=
  bool_decide (as_bytes word ∈ split_at (λ a, negb (word_byte a)) (as_bytes text)).

Definition phrase_needles : list string :=
  ["mcp server"; "mcp tool"; "tool use"; "use github"; "github"; "pull request"; "open an issue";
   "create an issue"; "notion"; "slack"; "gmail"; "send email"; "calendar"; "google drive";
   "google sheet"; "browser"; "webhook"; "jira"; "linear"].

Definition required_model_capabilities (ingress : DrexIngress) : list string :=
  let lowercase := to_ascii_lowercase (in_raw_text ingress) in
  if contains_any phrase_needles lowercase || existsb (contains_word lowercase) ["mcp"]
  then ["tool_use"] else [].

(** ** Preflight *)

Definition runtime_hint (ingress : DrexIngress) (vector : DrexVector) : string :=
  if bool_decide (in_privacy ingress = "sovereign") && is_local_runtime (in_runtime ingress)
  then in_runtime ingress
  else if SFleb (lit 80) (execution_proximity vector) && is_local_runtime (in_runtime ingress)
  then in_runtime ingress
  else "cloud".

Definition should_prefer_local (ingress : DrexIngress) (decision : DrexDecision)
    (local_candidates : list ModelTier) : bool :=
  let small := (in_required_context_tokens ingress <=? 32768) in
  let calm := negb (one_of_words (in_risk ingress) ["high"; "critical"]) in
  if bool_decide (local_candidates = []) then false
  else if one_of_words (in_intent ingress) ["chat"; "status_check"] then true
  else if bool_decide (in_privacy ingress = "sovereign") then true
  else if bool_decide (in_intent ingress = "code") then
    (3 <=? foldr Z.max 0 (map mt_capability_class local_candidates)) && small && calm
  else bool_decide (dd_active_tier decision = Micro) && small && calm.

Definition preflight_execution (ingress : DrexIngress) (model_tiers : list ModelTier) (policy : DrexPolicy)
    : PreflightDecision :=
  let trimmed := trim (in_raw_text ingress) in
  if bool_decide (trimmed = "") then
    mkPreflight Clarify
      (Some "Tell me the outcome you want, or use /status, /providers, or /models.") "empty_input"
  else
    let lowercase := to_ascii_lowercase trimmed in
    if is_greeting lowercase then
      mkPreflight Deterministic
        (Some "Ready. Tell me what you want to do, or use /status, /providers, or /models.") "greeting"
    else if is_underspecified lowercase then
      mkPreflight Clarify
        (Some "Tell me the outcome you want, the repo or file target, or the command context.")
        "underspecified"
    else
      let vector := build_drex_vector (in_intent ingress) (in_risk ingress) (in_raw_text ingress)
                      (in_privacy ingress) (in_runtime ingress) in
      let runtime_fit := if is_local_runtime (runtime_hint ingress vector) then lit 100 else lit 80 in
      let decision := evaluate_drex vector policy (lit 95) runtime_fit (lit 65) in
      let local := List.filter (λ t, mt_enabled t && is_local_provider (mt_provider t)) model_tiers in
      let remote := List.filter (λ t, mt_enabled t && negb (is_local_provider (mt_provider t))) model_tiers in
      if should_prefer_local ingress decision local || bool_decide (length remote = 0%nat)
      then mkPreflight LocalModel None "local_first"
      else mkPreflight RemoteModel None "remote_escalation".

(** ** From tiers to candidates *)

Definition legacy_locality (tier : ModelTier) : ExecutionLocality :=
  if on_device tier then OnDevice else Unverified.

Definition legacy_marginal_cost (tier : ModelTier) : option Z :=
  if f64_eqb (mt_cost_per_turn tier) 0 && negb (bool_decide (legacy_locality tier = OnDevice))
  then None else Some (mt_cost_per_turn tier).

Definition cost_truth_for_tier (tier : ModelTier) : CostTruth :=
  if f64_eqb (mt_cost_per_turn tier) 0 && bool_decide (legacy_locality tier = OnDevice) then LocalZeroCost
  else if f64_eqb (mt_cost_per_turn tier) 0 then CannotConfirm
  else ProxyEstimate.

(** FNV-1a over the names of the tier. *)
Definition fnv_step (hash : Z) (byte : ascii) : Z :=
  (Z.lxor hash (byte_val byte) * 0x100000001b3) mod 2 ^ 64.

Definition legacy_model_id (tier : ModelTier) : Z :=
  foldl fnv_step 0xcbf29ce484222325
    (as_bytes (mt_provider tier +:+ "|" +:+ mt_model_id tier +:+ "|" +:+ mt_provider_model_id tier
               +:+ "|" +:+ mt_rate_group tier)).

Definition with_id (tier : ModelTier) (id : Z) : ModelTier :=
  mkTier id (mt_model_id tier) (mt_provider_model_id tier) (mt_provider tier) (mt_rate_group tier)
    (mt_capability_class tier) (mt_effort_knob tier) (mt_effort_level tier) (mt_cost_per_turn tier)
    (mt_max_context_tokens tier) (mt_vram_requirement_mb tier) (mt_quantization_type tier)
    (mt_kv_cache_strategy tier) (mt_strengths_json tier) (mt_enabled tier) (mt_last_success_rate tier)
    (mt_avg_latency_ms tier) (mt_latency_p_95_ms tier) (mt_updated_at tier).

(** The tier as the planner sees it: one without an id gets one. *)
Definition numbered (tier : ModelTier) : ModelTier :=
  if bool_decide (mt_id tier = 0) then with_id tier (legacy_model_id tier) else tier.

Definition legacy_candidate (ingress : DrexIngress) (tier : ModelTier) : ModelCallCandidate :=
  let tier := numbered tier in
  let locality := legacy_locality tier in
  mkCandidate tier locality (mt_enabled tier)
    (negb (bool_decide (locality = OnDevice)) || bool_decide (mt_vram_requirement_mb tier = 0) ||
     (mt_vram_requirement_mb tier <=? in_available_vram_mb ingress))
    true (legacy_marginal_cost tier) (cost_truth_for_tier tier).

Definition minimum_quality_class (ingress : DrexIngress) (privacy : PrivacyClass) : Z :=
  if one_of_words (in_risk ingress) ["critical"; "high"] then 3
  else if bool_decide (in_risk ingress = "medium") then 2
  else if bool_decide (in_intent ingress = "code") && negb (bool_decide (privacy = Sovereign)) then 3
  else 1.

(** ** The metadata of a route *)

Definition reason_text (r : CandidateRejectionReason) : string :=
  match r with
  | DuplicateCandidateId => "duplicate_candidate_id" | DisabledModel => "disabled_model"
  | InvalidMarginalCostUsd => "invalid_marginal_cost_usd" | InvalidCostTruth => "invalid_cost_truth"
  | InvalidSuccessRate => "invalid_success_rate" | CandidateDisconnected => "disconnected"
  | AdapterIncapable => "adapter_incapable" | QuotaExhausted => "quota_exhausted"
  | ExcludedModel => "excluded_model" | NotAllowedModel => "not_allowed_model"
  | PreferredProviderMismatch => "preferred_provider_mismatch"
  | PreferredModelMismatch => "preferred_model_mismatch"
  | LocalOnlyOnDeviceRequired => "local_only_on_device_required"
  | SovereignLocalityRequired => "sovereign_locality_required"
  | InsufficientContext => "insufficient_context"
  | MissingRequiredCapability => "missing_required_capability"
  | MinimumQualityClass => "minimum_quality_class" | MinimumSuccessRate => "minimum_success_rate"
  | MaximumMarginalCostUsd => "maximum_marginal_cost_usd"
  | UnknownMarginalCostUsd => "unknown_marginal_cost_usd"
  | SafetyForbidsExecution => "safety_forbids_execution"
  | AuthorityApprovalRequired => "authority_approval_required"
  | InvalidRequestPolicy => "invalid_request_policy"
  end.

Definition cost_truth_text (t : CostTruth) : string :=
  match t with
  | LocalZeroCost => "local_zero_cost" | TargetOnly => "target_only" | ProxyEstimate => "proxy_estimate"
  | ExactProviderReport => "exact_provider_report" | CannotConfirm => "cannot_confirm"
  end.

Definition stage_text (s : ModelCallStage) : string :=
  match s with
  | Classification => "classification" | Planning => "planning" | Compression => "compression"
  | Drafting => "drafting" | Execution => "execution" | Review => "review"
  | LoopIteration => "loop_iteration" | LegacyRoute => "legacy_route"
  end.

Definition encode_rejection (r : CandidateRejection) : json :=
  json_object [("candidate_id", JNumber (PosInt (cj_candidate_id r)));
               ("reasons", JArray (map (λ x, JString (reason_text x)) (cj_reasons r)))].

Section route.
Context `{JsonText}.

Definition identity_fields (identity : ModelCallIdentity) : list (string * json) :=
  [("policy_version", JString DEFAULT_POLICY_VERSION);
   ("thread_id", JString (id_thread_id identity)); ("turn_id", JString (id_turn_id identity));
   ("call_id", JString (id_call_id identity)); ("stage", JString (stage_text LegacyRoute))].

Definition metadata (mode : ExecutionMode) (reason : string) (rejected : list CandidateRejection)
    (identity : ModelCallIdentity) (more : list (string * json)) : string :=
  print_json (json_object
    (("reason", JString reason) :: ("mode", JString (execution_mode_label mode)) :: more ++
     ("rejected", JArray (map encode_rejection rejected)) :: identity_fields identity)).

(** [legacy_no_route] *)
Definition legacy_no_route (ingress : DrexIngress) (model_tiers : list ModelTier) (policy : DrexPolicy)
    (identity : ModelCallIdentity) (reason : string) : RoutePlan :=
  let vector := build_drex_vector (in_intent ingress) "low" (in_raw_text ingress) "standard" (in_runtime ingress) in
  mkRoute (id_thread_id identity) (id_turn_id identity) (id_call_id identity) LegacyRoute
    (evaluate_drex vector policy (lit 80) (lit 80) (lit 65)) Clarify (in_runtime ingress) None
    (metadata Clarify reason (map (λ t, rejection (mt_id t) InvalidRequestPolicy) model_tiers) identity []).

(** The request [plan_route_for_call] makes of an ingress. *)
Definition legacy_request (ingress : DrexIngress) (identity : ModelCallIdentity)
    (privacy : PrivacyClass) (risk : CallRisk) : ModelCallRequest :=
  let required := required_model_capabilities ingress ++
    (if bool_decide (in_intent ingress = "code") && bool_decide (privacy = Sovereign)
     then ["advanced_coding"] else []) in
  mkCallRequest (id_thread_id identity) (id_turn_id identity) None (id_call_id identity) (in_intent ingress)
    LegacyRoute (in_raw_text ingress) (if is_local_runtime (in_runtime ingress) then LocalOnly else privacy)
    risk Unapproved required (in_required_context_tokens ingress) (minimum_quality_class ingress privacy) 0
    None None None [] [].

(** [plan_route_for_call]; [plan_route] calls it with a fresh identity. *)
Definition plan_route_for_call (ingress : DrexIngress) (model_tiers : list ModelTier) (policy : DrexPolicy)
    (identity : ModelCallIdentity) : RoutePlan :=
  match parse_privacy (in_privacy ingress), parse_call_risk (in_risk ingress) with
  | None, _ => legacy_no_route ingress model_tiers policy identity "invalid_privacy_class"
  | Some _, None => legacy_no_route ingress model_tiers policy identity "invalid_risk_class"
  | Some privacy, Some risk =>
      let vector := build_drex_vector (in_intent ingress) (call_risk_text risk) (in_raw_text ingress)
                      (privacy_text privacy) (in_runtime ingress) in
      let initial_hint := runtime_hint ingress vector in
      let request := legacy_request ingress identity privacy risk in
      let plan := plan_model_call request (map (legacy_candidate ingress) model_tiers) policy in
      let admitted := ("admitted_ids", JArray (map (λ i, JNumber (PosInt i)) (mp_admitted_ids plan))) in
      let route mode hint more :=
        mkRoute (mp_thread_id plan) (mp_turn_id plan) (mp_call_id plan) (mp_stage plan) (mp_decision plan)
          mode hint (mc_tier <$> mp_selected plan)
          (metadata mode (mp_selection_reason plan) (mp_rejected plan) identity (admitted :: more)) in
      match mp_selected plan with
      | Some selected =>
          let tier := mc_tier selected in
          let mode := execution_mode_for_tier tier in
          route mode (if bool_decide (mode = LocalModel) then "local" else initial_hint)
            [("model_id", JString (mt_model_id tier)); ("provider", JString (mt_provider tier));
             ("required_capabilities", JArray (map JString (mr_required_capabilities request)));
             ("cost_truth", JString (cost_truth_text (mc_cost_truth selected)))]
      | None =>
          route Clarify initial_hint
            [("legacy_locality_policy",
              JString (if is_local_runtime (in_runtime ingress)
                       then "local_runtime_locality_required" else "none"))]
      end
  end.

End route.

(** ** What a route keeps *)

Section promises.
Context `{JsonText}.

(** The text may only be read on this device. *)
Definition device_only (ingress : DrexIngress) : bool :=
  is_local_runtime (in_runtime ingress) || one_of_words (in_privacy ingress) ["local_only"; "sovereign"].

Lemma parse_privacy_text value p : parse_privacy value = Some p → value = privacy_text p.
Proof.
  unfold parse_privacy. intros Hp.
  assert (p ∈ filter (λ p, privacy_text p = value) [Standard; LocalOnly; Sovereign]) as Hin.
  { destruct (filter _ _); simpl in Hp; [done|]. simplify_eq. by left. }
  by apply list_elem_of_filter in Hin as [<- _].
Qed.

Lemma candidate_tier ingress tier : mc_tier (legacy_candidate ingress tier) = numbered tier.
Proof. done. Qed.

Lemma candidate_locality ingress tier :
  mc_locality (legacy_candidate ingress tier) = OnDevice ↔ on_device (numbered tier) = true.
Proof. unfold legacy_candidate, legacy_locality. simpl. by destruct (on_device _). Qed.

(** A candidate that keeps the privacy of the request is on the device, where
    the request asks for it: no candidate of a route is a sovereign endpoint. *)
Lemma private_on_device ingress identity p risk tier :
  in_privacy ingress = privacy_text p →
  keeps_private (mr_privacy (legacy_request ingress identity p risk))
    (mc_locality (legacy_candidate ingress tier)) →
  device_only ingress = true → on_device (numbered tier) = true.
Proof.
  unfold device_only. simpl. intros Hp Hk Hd.
  assert (mc_locality (legacy_candidate ingress tier) ≠ SovereignEndpoint) as Hno.
  { unfold legacy_candidate, legacy_locality. simpl. by destruct (on_device _). }
  apply (candidate_locality ingress). destruct (is_local_runtime _); [done|].
  rewrite Hp in Hd. destruct p; [by vm_compute in Hd|done|]. simpl in Hk. tauto.
Qed.

Lemma chosen_is_eligible request candidates policy c :
  mp_selected (plan_model_call request candidates policy) = Some c → eligible request candidates c.
Proof.
  destruct (plan_cases request candidates policy) as [((Hv & _) & -> & _)|(_ & -> & _)]; [|done].
  intros [Hc _]%(head_sorted compare_candidates (CmpLaws0 := compare_candidates_laws)).
  by apply (admitted_elem _ _ _ Hv).
Qed.

(** A route with a model comes from a plan that selected a candidate. *)
Lemma routed_is_planned ingress tiers policy identity t :
  let r := plan_route_for_call ingress tiers policy identity in
  rt_selected_model r = Some t →
  rt_execution_mode r = execution_mode_for_tier t ∧
  ∃ p risk c, parse_privacy (in_privacy ingress) = Some p ∧ mc_tier c = t ∧
    eligible (legacy_request ingress identity p risk) (map (legacy_candidate ingress) tiers) c.
Proof.
  unfold plan_route_for_call. destruct (parse_privacy _) as [p|]; [|done].
  destruct (parse_call_risk _) as [risk|]; [|done].
  pose proof (chosen_is_eligible (legacy_request ingress identity p risk)
    (map (legacy_candidate ingress) tiers) policy) as Hc.
  destruct (mp_selected (plan_model_call _ _ _)) as [cand|]; simpl; [|done].
  intros [= <-]. split; [done|]. exists p, risk, cand. split_and!; [done..|]. by apply Hc.
Qed.

Lemma no_model_is_clarify ingress tiers policy identity :
  let r := plan_route_for_call ingress tiers policy identity in
  rt_execution_mode r = Clarify ↔ rt_selected_model r = None.
Proof.
  unfold plan_route_for_call. destruct (parse_privacy _); [|done]. destruct (parse_call_risk _); [|done].
  destruct (mp_selected (plan_model_call _ _ _)) as [cand|]; simpl; [|done].
  unfold execution_mode_for_tier. by destruct (on_device _).
Qed.

Lemma high_quality ingress p :
  one_of_words (in_risk ingress) ["high"; "critical"] = true → 3 ≤ minimum_quality_class ingress p.
Proof.
  unfold minimum_quality_class, one_of_words. intros Hr%bool_decide_eq_true.
  rewrite bool_decide_eq_true_2; [done|]. set_solver.
Qed.

Lemma medium_quality ingress p : in_risk ingress = "medium" → 2 ≤ minimum_quality_class ingress p.
Proof. unfold minimum_quality_class. by intros ->. Qed.

Lemma candidate_fits ingress tier :
  mc_adapter_capable (legacy_candidate ingress tier) = true → on_device (numbered tier) = true →
  mt_vram_requirement_mb (numbered tier) = 0 ∨
  mt_vram_requirement_mb (numbered tier) ≤ in_available_vram_mb ingress.
Proof.
  intros Ha Hon%(candidate_locality ingress). revert Ha Hon. unfold legacy_candidate. simpl.
  intros Ha Hon. rewrite Hon in Ha. rewrite bool_decide_eq_true_2 in Ha by done.
  simpl in Ha. apply orb_true_iff in Ha as [Ha|Ha].
  - left. by apply bool_decide_eq_true in Ha.
  - right. by apply Z.leb_le.
Qed.

(** Capabilities called for by the text are never implied by a class. *)
Lemma tool_is_strength c ingress k :
  k ∈ required_model_capabilities ingress → has_capability c k = true → tier_has_strength (mc_tier c) k = true.
Proof.
  unfold required_model_capabilities. case_match; [|by intros ?%elem_of_nil].
  intros ->%list_elem_of_singleton. unfold has_capability. simpl. by rewrite orb_false_r.
Qed.

(** C30.  A route never sends text where it may not go.  The model of a route is
    one of the tiers it was given and enabled; when the privacy class is
    local-only or sovereign, or the runtime is this device, it is detected on
    this device and the route runs locally; it holds the context, it meets the
    quality the risk and the intent demand, it fits the device's memory when
    it runs there, and it has every capability the text calls for.  An ingress
    whose privacy class cannot be read has no model, and a route without one
    asks for clarification instead of running. *)
Theorem routes_keep_privacy (ingress : DrexIngress) (tiers : list ModelTier) (policy : DrexPolicy)
    (identity : ModelCallIdentity) (t : ModelTier) :
  let r := plan_route_for_call ingress tiers policy identity in
  (rt_execution_mode r = Clarify ↔ rt_selected_model r = None) ∧
  (rt_selected_model r = Some t →
   is_Some (parse_privacy (in_privacy ingress)) ∧
   (∃ tier, tier ∈ tiers ∧ t = numbered tier) ∧ mt_enabled t = true ∧
   (device_only ingress = true → on_device t = true ∧ rt_execution_mode r = LocalModel) ∧
   in_required_context_tokens ingress ≤ mt_max_context_tokens t ∧
   (one_of_words (in_risk ingress) ["high"; "critical"] = true → 3 ≤ mt_capability_class t) ∧
   (in_risk ingress = "medium" → 2 ≤ mt_capability_class t) ∧
   (on_device t = true →
    mt_vram_requirement_mb t = 0 ∨ mt_vram_requirement_mb t ≤ in_available_vram_mb ingress) ∧
   (∀ k, k ∈ required_model_capabilities ingress → tier_has_strength t k = true)).
Proof.
  intros r. split; [apply no_model_is_clarify|]. intros Ht.
  destruct (routed_is_planned _ _ _ _ _ Ht) as (Hmode & p & risk & c & Hp & <- & Hc & _ & Hok).
  rewrite list_elem_of_fmap in Hc. destruct Hc as (tier & -> & Htier). rewrite candidate_tier in *.
  destruct Hok as [He _ _ _ _ Ha _ _ _ _ _ Hpr Hctx Hcap Hq _ _]. rewrite candidate_tier in *.
  apply parse_privacy_text in Hp as Hpt. split; [by rewrite Hp|]. split; [by exists tier|]. split; [done|].
  split.
  { intros Hd. pose proof (private_on_device _ _ _ _ _ Hpt Hpr Hd) as Hon. split; [done|].
    unfold r. rewrite Hmode. unfold execution_mode_for_tier. by rewrite Hon. }
  split; [done|]. simpl in Hq. split; [|split].
  - intros Hr. etrans; [apply (high_quality ingress p Hr)|done].
  - intros Hr. etrans; [apply (medium_quality ingress p Hr)|done].
  - split; [by apply (candidate_fits ingress)|]. intros k Hk.
    apply (tool_is_strength (legacy_candidate ingress tier) ingress); [done|]. apply Hcap. simpl. apply elem_of_app. by left.
Qed.

End promises.

(** ** A route *)

(** A reader and printer of no use to this route. *)
#[local] Instance example_text : JsonText.
Proof.
  exact {| number_text := λ _, EmptyString; string_text := λ s, s; print_json := λ _, EmptyString;
           print_json_pretty := λ _, EmptyString; parse_json := λ _, None |}.
Defined.

Definition example_tier (provider group : string) (id cost class : Z) : ModelTier :=
  mkTier id "m" "m" provider group class "" 0 cost 32768 0 "" "" "[]" true (1022 * 2 ^ 52) 0 10 "".

Definition example_ingress : DrexIngress := mkIngress "code" "medium" "rename the field" "sovereign" "cloud" 0 4096.

(** The dearer tier of this device carries a sovereign text. *)
Lemma routes_keep_privacy_witness :
  let tiers := [example_tier "openai" "api" 1 (1000 * 2 ^ 52) 5; example_tier "ollama" "local" 2 0 3] in
  let t := example_tier "ollama" "local" 2 0 3 in
  let r := plan_route_for_call example_ingress tiers default_policy (mkIdentity "t" "u" "c") in
  rt_selected_model r = Some t ∧ on_device t = true ∧ rt_execution_mode r = LocalModel.
Proof.
  intros tiers t r. assert (rt_selected_model r = Some t) as Hr by (vm_compute; reflexivity). split; [exact Hr|].
  apply (routes_keep_privacy example_ingress tiers default_policy (mkIdentity "t" "u" "c") t); [exact Hr|].
  vm_compute. reflexivity.
Defined.
