(* ===== verification/CallCosts.v ===== *)
(** * What a model call costs (apps/heiwa_shell/src/model_calls.rs)

    The money of an execution in binary64: the budget that narrows each plan,
    what an attempt is charged, and how far the sum can be believed; and the
    class a provider's failure message falls in. *)

From stdpp Require Import base strings numbers list.
From Stdlib Require Import Ascii SpecFloat.
From S2P Require Import Prelude Json Sensitive RoutePolicy Drex ModelCall.
#[local] Open Scope Z_scope.

(** ** binary64 arithmetic on bits *)

Definition spec_of_bits (b : Z) : spec_float :=
  let s := bool_decide (2 ^ 63 ≤ b) in
  let m := b mod 2 ^ 52 in
  let e := f64_exponent b in
  if bool_decide (e = 2047) then (if bool_decide (m = 0) then S754_infinity s else S754_nan)
  else if bool_decide (e = 0) then
    match m with Z.pos p => S754_finite s p (-1074) | _ => S754_zero s end
  else
    match m + 2 ^ 52 with Z.pos p => S754_finite s p (e - 1075) | _ => S754_zero s end.

Definition f64_add (a b : Z) : Z := bits_of_spec (fadd (spec_of_bits a) (spec_of_bits b)).
Definition f64_sub (a b : Z) : Z := bits_of_spec (fsub (spec_of_bits a) (spec_of_bits b)).
Definition f64_mul (a b : Z) : Z := bits_of_spec (fmul (spec_of_bits a) (spec_of_bits b)).

(** [f64::min] and [f64::max]: a NaN gives way. *)
Definition f64_min (a b : Z) : Z :=
  if f64_is_nan a then b else if f64_is_nan b then a else if f64_ltb b a then b else a.
Definition f64_max (a b : Z) : Z :=
  if f64_is_nan a then b else if f64_is_nan b then a else if f64_ltb a b then b else a.

(** [f64::MAX] *)
Definition f64_MAX : Z := 2046 * 2 ^ 52 + (2 ^ 52 - 1).

Example sums :
  f64_add (bits_of_spec (lit 10)) (bits_of_spec (lit 20)) = 0x3fd3333333333334 ∧
  f64_sub (bits_of_spec (lit 30)) (bits_of_spec (lit 10)) = 0x3fc9999999999999 ∧
  f64_add f64_MAX f64_MAX = 2047 * 2 ^ 52.
Proof. vm_compute. done. Qed.

(** adapter.rs: the messages of a call *)
Inductive Role : Type := RoleUser | RoleAssistant | RoleSystem.
Record Message : Type := mkMessage { msg_role : Role; msg_content : string }.

(** [TokenUsage] of a finished response *)
Record TokenUsage : Type := mkUsage {
  tu_input_tokens : Z;
  tu_output_tokens : Z;
  tu_cache_read_tokens : Z;
  tu_cache_write_tokens : Z;
  tu_cost_usd : Z;
}.

(** ** The budget *)

Definition with_maximum (m : option Z) (r : ModelCallRequest) : ModelCallRequest :=
  mkCallRequest (mr_thread_id r) (mr_turn_id r) (mr_work_id r) (mr_call_id r) (mr_intent r) (mr_stage r)
    (mr_raw_text r) (mr_privacy r) (mr_risk r) (mr_safety r) (mr_required_capabilities r)
    (mr_required_context_tokens r) (mr_minimum_quality_class r) (mr_minimum_success_rate r) m
    (mr_preferred_provider r) (mr_preferred_model r) (mr_allowed_models r) (mr_excluded_models r).

(** [request.excluded_models.push(model)] *)
Definition exclude (model : string) (r : ModelCallRequest) : ModelCallRequest :=
  mkCallRequest (mr_thread_id r) (mr_turn_id r) (mr_work_id r) (mr_call_id r) (mr_intent r) (mr_stage r)
    (mr_raw_text r) (mr_privacy r) (mr_risk r) (mr_safety r) (mr_required_capabilities r)
    (mr_required_context_tokens r) (mr_minimum_quality_class r) (mr_minimum_success_rate r)
    (mr_maximum_marginal_cost_usd r) (mr_preferred_provider r) (mr_preferred_model r) (mr_allowed_models r)
    (mr_excluded_models r ++ [model]).

Definition apply_remaining_budget (remaining : option Z) (request : ModelCallRequest) : ModelCallRequest :=
  match remaining with
  | None => request
  | Some remaining =>
      with_maximum (Some match mr_maximum_marginal_cost_usd request with
                         | Some current => f64_min current remaining
                         | None => remaining
                         end) request
  end.

Definition subtract_budget (remaining : option Z) (cost : Z) : option Z :=
  (λ budget, f64_max (f64_sub budget cost) 0) <$> remaining.

Definition subtract_optional_budget (remaining cost : option Z) : option Z :=
  match cost with Some cost => subtract_budget remaining cost | None => remaining end.

(** ** The charge of an attempt *)

(** What a completed attempt cost; [None] is an error. *)
Definition completed_cost (c : ModelCallCandidate) (usage : TokenUsage) : result string (Z * CostTruth) :=
  let cost := tu_cost_usd usage in
  if negb (f64_is_finite cost) || f64_ltb cost 0 then Err "provider returned non-finite or negative cost_usd"
  else if f64_ltb 0 cost then Ok (cost, ExactProviderReport)
  else
    match mc_marginal_cost_usd c, mc_cost_truth c with
    | Some cost, truth =>
        if f64_is_finite cost && f64_nonneg cost then Ok (cost, truth)
        else Err "candidate has invalid completion cost truth"
    | None, CannotConfirm => Ok (0, CannotConfirm)
    | None, _ => Err "candidate has invalid completion cost truth"
    end.

Definition attempted_cost (c : ModelCallCandidate) : option Z * CostTruth :=
  match mc_marginal_cost_usd c with
  | Some cost => if f64_is_finite cost && f64_nonneg cost then (Some cost, mc_cost_truth c) else (None, CannotConfirm)
  | None => (None, CannotConfirm)
  end.

(** ** Sums and what they are worth *)

Definition combine_cost_truth (left right : CostTruth) : CostTruth :=
  match left, right with
  | CannotConfirm, _ | _, CannotConfirm => CannotConfirm
  | LocalZeroCost, other | other, LocalZeroCost => other
  | ExactProviderReport, ExactProviderReport => ExactProviderReport
  | TargetOnly, TargetOnly => TargetOnly
  | ProxyEstimate, _ | _, ProxyEstimate => ProxyEstimate
  | TargetOnly, ExactProviderReport | ExactProviderReport, TargetOnly => ProxyEstimate
  end.

(** A sum that overflows is the largest number, and cannot be confirmed. *)
Definition add_cumulative_cost (total : Z) (aggregate : option CostTruth) (cost : option Z) (truth : CostTruth)
    : Z * option CostTruth :=
  let combined := Some match aggregate with None => truth | Some current => combine_cost_truth current truth end in
  match cost with
  | None => (total, combined)
  | Some cost =>
      let next := f64_add total cost in
      if f64_is_finite next then (f64_max next 0, combined) else (f64_MAX, Some CannotConfirm)
  end.

(** The truth of a sum does not depend on the order of its terms. *)
Lemma combine_cost_truth_semilattice a b c :
  combine_cost_truth a b = combine_cost_truth b a ∧
  combine_cost_truth a (combine_cost_truth b c) = combine_cost_truth (combine_cost_truth a b) c ∧
  combine_cost_truth a a = a.
Proof. by destruct a, b, c. Qed.

(** ** Failures *)

Inductive ProviderFailureClass : Type :=
| FailCancelled | FailRateLimited | FailAuthentication | FailQuotaExhausted | FailTimeout | FailAvailability
| FailInvalidUsage | FailProvider.

Definition failure_class_text (c : ProviderFailureClass) : string :=
  match c with
  | FailCancelled => "cancelled" | FailRateLimited => "rate_limited" | FailAuthentication => "authentication"
  | FailQuotaExhausted => "quota_exhausted" | FailTimeout => "timeout" | FailAvailability => "availability"
  | FailInvalidUsage => "invalid_usage" | FailProvider => "provider"
  end.

Inductive FailureOrigin : Type := OriginProvider | OriginResolver | OriginAccounting.

Definition origin_text (o : FailureOrigin) : string :=
  match o with
  | OriginProvider => "provider" | OriginResolver => "resolver" | OriginAccounting => "accounting"
  end.

Definition normalize_failure (message : string) : ProviderFailureClass :=
  let normalized := to_ascii_lowercase message in
  if contains_any ["rate_limit"; "rate limit"; "too many requests"; "429"] normalized then FailRateLimited
  else if contains_any ["auth"; "unauthorized"; "forbidden"; "401"; "403"] normalized then FailAuthentication
  else if contains_any ["quota"; "credit"] normalized then FailQuotaExhausted
  else if contains_any ["timeout"; "timed out"] normalized then FailTimeout
  else if contains_any ["unavailable"; "connection"; "not found"] normalized then FailAvailability
  else FailProvider.

(** ** The budget only shrinks *)

Lemma f64_leb_refl a : f64_is_nan a = false → f64_leb a a = true.
Proof. intros Ha. unfold f64_leb, f64_partial_cmp. rewrite Ha. simpl. by rewrite Z.compare_refl. Qed.

Lemma f64_leb_trans a b c : f64_leb a b = true → f64_leb b c = true → f64_leb a c = true.
Proof.
  unfold f64_leb, f64_partial_cmp. destruct (f64_is_nan a), (f64_is_nan b), (f64_is_nan c); simpl; try done.
  destruct (Z.compare_spec (f64_key a) (f64_key b)), (Z.compare_spec (f64_key b) (f64_key c)),
    (Z.compare_spec (f64_key a) (f64_key c)); try done; lia.
Qed.

(** The ceiling a plan is made under is within the remaining budget. *)
Lemma budget_narrows remaining request b max :
  remaining = Some b → f64_is_nan b = false →
  mr_maximum_marginal_cost_usd (apply_remaining_budget remaining request) = Some max → f64_leb max b = true.
Proof.
  intros -> Hb. simpl. intros [= <-]. destruct (mr_maximum_marginal_cost_usd request) as [cur|]; [|by apply f64_leb_refl].
  unfold f64_min. destruct (f64_is_nan cur) eqn:Hc; [by apply f64_leb_refl|]. rewrite Hb.
  destruct (f64_ltb b cur) eqn:Hlt; [by apply f64_leb_refl|].
  revert Hlt. unfold f64_ltb, f64_leb, f64_partial_cmp. rewrite Hb, Hc. simpl.
  rewrite (Z.compare_antisym (f64_key b)). by destruct (Z.compare _ _).
Qed.
