(* ===== verification/Sse.v ===== *)
(** * Server-sent events (crates/heiwa_provider/src/providers/sse.rs)

    The framer every direct adapter shares: chunks in, events out, the rest
    carried over.  It is compared with the line-by-line dispatch of the format,
    which does not know about chunks. *)

From stdpp Require Import base strings numbers list.
From Stdlib Require Import Ascii.
From S2P Require Import Prelude.
#[local] Open Scope Z_scope.

Record SseEvent : Type := mkSse {
  se_name : option string;
  se_data : string;
}.

Definition is_done (e : SseEvent) : bool := bool_decide (trim (se_data e) = "[DONE]").

Definition CR : ascii := byte_of 13.
Definition LF : ascii := newline.

(** ** The framer *)

(** [terminator_len]: what follows the line terminator that starts here. *)
Definition terminator (s : bytes) : option bytes :=
  match s with
  | a :: s' =>
      if bool_decide (a = CR) then
        match s' with
        | b :: s'' => if bool_decide (b = LF) then Some s'' else Some s'
        | [] => Some []
        end
      else if bool_decide (a = LF) then Some s' else None
  | [] => None
  end.

(** [find_separator]: the event before the first blank line, and what follows
    it: the slices at the two indices. *)
Fixpoint find_separator (s : bytes) : option (bytes * bytes) :=
  match s with
  | [] => None
  | a :: s' =>
      if bool_decide (a = CR) then
        match s' with
        | b :: s'' =>
            if bool_decide (b = LF) then
              match terminator s'' with
              | Some rest => Some ([], rest)
              | None => (λ '(event, rest), (a :: b :: event, rest)) <$> find_separator s''
              end
            else
              match terminator s' with
              | Some rest => Some ([], rest)
              | None => (λ '(event, rest), (a :: event, rest)) <$> find_separator s'
              end
        | [] => None
        end
      else if bool_decide (a = LF) then
        match terminator s' with
        | Some rest => Some ([], rest)
        | None => (λ '(event, rest), (a :: event, rest)) <$> find_separator s'
        end
      else (λ '(event, rest), (a :: event, rest)) <$> find_separator s'
  end.

(** [str::lines] *)
Fixpoint lines_from (line s : bytes) : list bytes :=
  match s with
  | [] => if bool_decide (line = []) then [] else [line]
  | a :: s' =>
      if bool_decide (a = LF) then
        (match rev line with
         | c :: l => if bool_decide (c = CR) then rev l else line
         | [] => []
         end) :: lines_from [] s'
      else lines_from (line ++ [a]) s'
  end.
Definition lines (s : bytes) : list bytes := lines_from [] s.

(** The fields so far: the name, and the data lines. *)
Definition Fields : Type := option string * list string.
Definition no_fields : Fields := (None, []).

Definition text_of (s : bytes) : string := String.string_of_list_ascii s.

Definition field_line (f : Fields) (line : bytes) : Fields :=
  match line with
  | [] => f
  | a :: _ =>
      if bool_decide (a = ":"%char) then f
      else
        match strip_prefix (as_bytes "event:") line with
        | Some value => (Some (trim (text_of value)), f.2)
        | None =>
            match strip_prefix (as_bytes "data:") line with
            | Some value => (f.1, f.2 ++ [text_of (default value (strip_prefix [" "%char] value))])
            | None => f
            end
        end
  end.

(** [data_lines.join] *)
Definition join_lines (l : list string) : string := String.concat (String newline EmptyString) l.

Definition event_of (f : Fields) : option SseEvent :=
  if bool_decide (f.2 = []) then None else Some (mkSse f.1 (join_lines f.2)).

Definition parse_event (raw : bytes) : option SseEvent := event_of (foldl field_line no_fields (lines raw)).

(** The loop of [push] over the buffer; each round consumes a byte or more. *)
Fixpoint drain (fuel : nat) (buffer : bytes) : list SseEvent * bytes :=
  match fuel with
  | O => ([], buffer)
  | S fuel =>
      match find_separator buffer with
      | None => ([], buffer)
      | Some (raw, rest) =>
          let '(events, carry) := drain fuel rest in
          (match parse_event raw with Some e => e :: events | None => events end, carry)
      end
  end.

Definition push (carry chunk : bytes) : list SseEvent * bytes :=
  let buffer := carry ++ chunk in drain (S (length buffer)) buffer.

(** All the events of a stream of chunks, and the carry it leaves. *)
Fixpoint push_all (carry : bytes) (chunks : list bytes) : list SseEvent * bytes :=
  match chunks with
  | [] => ([], carry)
  | c :: chunks =>
      let '(events, carry) := push carry c in
      let '(events', carry') := push_all carry chunks in (events ++ events', carry')
  end.

(** ** The format, byte by byte *)

(** The fields of the current event and the current line, without its
    terminator. *)
Record Reader : Type := mkReader { rd_fields : Fields; rd_line : bytes }.
Definition reader_start : Reader := mkReader no_fields [].

(** A line feed ends a line; an empty line dispatches the event; a carriage
    return belongs to the line feed after it. *)
Definition read_byte (r : Reader) (a : ascii) : option SseEvent * Reader :=
  if bool_decide (a = LF) then
    if bool_decide (rd_line r = []) then (event_of (rd_fields r), reader_start)
    else (None, mkReader (field_line (rd_fields r) (rd_line r)) [])
  else if bool_decide (a = CR) then (None, r)
  else (None, mkReader (rd_fields r) (rd_line r ++ [a])).

Fixpoint dispatched (r : Reader) (s : bytes) : list SseEvent :=
  match s with
  | [] => []
  | a :: s' =>
      let '(e, r') := read_byte r a in
      match e with Some e => e :: dispatched r' s' | None => dispatched r' s' end
  end.

(** Every carriage return is followed by a line feed. *)
Fixpoint cr_paired (s : bytes) : bool :=
  match s with
  | [] => true
  | a :: s' => (negb (bool_decide (a = CR)) || match s' with b :: _ => bool_decide (b = LF) | [] => false end) && cr_paired s'
  end.

Definition text (s : string) : bytes := as_bytes s.
Definition crlf : bytes := [CR; LF].

Example split_payload :
  push_all [] [text "data: {hel"; text "lo}" ++ [LF]; [LF]] = ([mkSse None "{hello}"], []) ∧
  push_all [] [text "event: ping" ++ crlf ++ text "data: 1" ++ [CR]; [LF; CR]; [LF]] =
    ([mkSse (Some "ping") "1"], [LF]).
Proof. split; vm_compute; reflexivity. Qed.

(** ** The framer is the format *)

Definition option_list {A} (o : option A) : list A := match o with Some x => [x] | None => [] end.

Lemma read_cr r s : dispatched r (CR :: s) = dispatched r s.
Proof. done. Qed.

Lemma read_lf r s :
  dispatched r (LF :: s) =
  if bool_decide (rd_line r = []) then option_list (event_of (rd_fields r)) ++ dispatched reader_start s
  else dispatched (mkReader (field_line (rd_fields r) (rd_line r)) []) s.
Proof.
  cbn [dispatched]. unfold read_byte. rewrite bool_decide_true by done.
  case_bool_decide; [|done]. by destruct (event_of _).
Qed.

Lemma read_other r a s :
  a ≠ CR → a ≠ LF → dispatched r (a :: s) = dispatched (mkReader (rd_fields r) (rd_line r ++ [a])) s.
Proof. intros Hc Hl. cbn [dispatched]. unfold read_byte. by rewrite !bool_decide_false. Qed.

Definition plain_line (l : bytes) : Prop := ∀ a, a ∈ l → a ≠ CR ∧ a ≠ LF.

Lemma plain_snoc l a : plain_line l → a ≠ CR → a ≠ LF → plain_line (l ++ [a]).
Proof. intros Hl Hc Hn b [?|Hb]%elem_of_app; [by apply Hl|]. by apply list_elem_of_singleton in Hb as ->. Qed.

(** The lines of a text, a terminator at a time. *)
Lemma lines_lf l s : plain_line l → lines_from l (LF :: s) = l :: lines_from [] s.
Proof.
  intros Hl. cbn [lines_from]. rewrite bool_decide_true by done. destruct (rev l) as [|c r] eqn:E.
  - apply (f_equal (@rev _)) in E. rewrite rev_involutive in E. by subst l.
  - rewrite bool_decide_false; [done|]. intros ->. destruct (Hl CR) as [Hn _]; [|done].
    apply list_elem_of_In. rewrite in_rev, E. by left.
Qed.

Lemma lines_crlf l s : lines_from l (CR :: LF :: s) = l :: lines_from [] s.
Proof.
  cbn [lines_from]. rewrite (bool_decide_false (CR = LF)), (bool_decide_true (LF = LF)) by done.
  rewrite rev_app_distr. cbn [rev app]. by rewrite bool_decide_true, rev_involutive by done.
Qed.

Lemma lines_other l a s : a ≠ LF → lines_from l (a :: s) = lines_from (l ++ [a]) s.
Proof. intros Ha. cbn [lines_from]. by rewrite bool_decide_false. Qed.

Lemma paired_cons a s : cr_paired (a :: s) = true → cr_paired s = true.
Proof. simpl. by intros [_ ?]%andb_true_iff. Qed.

Lemma paired_app s t : cr_paired (s ++ t) = true → cr_paired t = true.
Proof. induction s as [|a s IH]; [done|]. intros H%paired_cons. by apply IH. Qed.

Lemma paired_cr s : cr_paired (CR :: s) = true → ∃ s', s = LF :: s'.
Proof.
  cbn [cr_paired]. rewrite bool_decide_true by done. cbn [negb orb].
  destruct s as [|b s]; [done|]. intros [->%bool_decide_eq_true _]%andb_true_iff. by eexists.
Qed.

(** How a text starts. *)
Inductive Start : bytes → Type :=
| start_empty : Start []
| start_lf s : Start (LF :: s)
| start_crlf s : Start (CR :: LF :: s)
| start_cr_end : Start [CR]
| start_cr a s : a ≠ LF → Start (CR :: a :: s)
| start_other a s : a ≠ CR → a ≠ LF → Start (a :: s).

Lemma start_of s : Start s.
Proof.
  destruct s as [|a s]; [constructor|]. destruct (decide (a = CR)) as [->|Hc].
  - destruct s as [|b s]; [constructor|]. destruct (decide (b = LF)) as [->|]; by constructor.
  - destruct (decide (a = LF)) as [->|]; by constructor.
Qed.

(** The condition under which a line break at the start says nothing. *)
Definition settled (acc : Fields) (l s : bytes) : Prop := l ≠ [] ∨ acc = no_fields ∨ terminator s = None.

Lemma terminator_lf s : terminator (LF :: s) = Some s.
Proof. done. Qed.
Lemma terminator_crlf s : terminator (CR :: LF :: s) = Some s.
Proof. done. Qed.
Lemma terminator_other a s : a ≠ CR → a ≠ LF → terminator (a :: s) = None.
Proof. intros. simpl. by rewrite !bool_decide_false. Qed.

(** A line break after the line [l], which says nothing if [l] is empty. *)
Lemma read_break acc l s t :
  settled acc l (LF :: s) → plain_line l →
  ∃ acc', acc' = field_line acc l ∧ dispatched (mkReader acc l) (LF :: t) = dispatched (mkReader acc' []) t.
Proof.
  intros Hs Hl. eexists. split; [done|]. rewrite read_lf. simpl. case_bool_decide as Hnil; [subst|done].
  destruct Hs as [?|[->|?]]; done.
Qed.

(** What is left of a terminator in two halves. *)
Lemma read_terminator s rest t :
  terminator s = Some rest → cr_paired (s ++ t) = true →
  ∀ acc, dispatched (mkReader acc []) (s ++ t) = option_list (event_of acc) ++ dispatched reader_start (rest ++ t).
Proof.
  destruct (start_of s) as [|s|s| |a s Ha|a s Hc Hl].
  - done.
  - intros [= <-] _ acc. simpl app. by rewrite read_lf.
  - intros [= <-] _ acc. simpl app. by rewrite read_cr, read_lf.
  - intros [= <-] Hp acc. simpl app in *. apply paired_cr in Hp as [t' ->]. rewrite read_cr, !read_lf. done.
  - intros _ Hp acc. simpl app in *. apply paired_cr in Hp as [t' [= ->]]. done.
  - by rewrite terminator_other.
Qed.

(** The equations of the search, by how the text starts. *)
Lemma find_break s s1 pre :
  (s = LF :: s1 ∧ pre = [LF]) ∨ (s = CR :: LF :: s1 ∧ pre = [CR; LF]) →
  find_separator s = match terminator s1 with
                     | Some rest => Some ([], rest)
                     | None => (λ '(event, rest), (pre ++ event, rest)) <$> find_separator s1
                     end.
Proof. by intros [[-> ->]|[-> ->]]. Qed.

Lemma find_other a s :
  a ≠ CR → a ≠ LF → find_separator (a :: s) = (λ '(event, rest), (a :: event, rest)) <$> find_separator s.
Proof. intros Hc Hl. cbn [find_separator]. by rewrite !bool_decide_false. Qed.

(** The texts a paired one can start with. *)
Lemma paired_starts s t :
  cr_paired (s ++ t) = true → s ≠ [] →
  (∃ s1, s = LF :: s1) ∨ (∃ s1, s = CR :: LF :: s1) ∨ s = [CR] ∨ (∃ a s1, s = a :: s1 ∧ a ≠ CR ∧ a ≠ LF).
Proof.
  destruct (start_of s) as [|s|s| |a s Ha|a s Hc Hl]; intros Hp Hne; try done.
  - left. by eexists.
  - right. left. by eexists.
  - by right; right; left.
  - simpl app in Hp. by apply paired_cr in Hp as [? [= ->]].
  - do 3 right. by exists a, s.
Qed.

Lemma settled_break acc l s s1 pre :
  (s = LF :: s1 ∧ pre = [LF]) ∨ (s = CR :: LF :: s1 ∧ pre = [CR; LF]) → settled acc l s → settled acc l (LF :: s1).
Proof.
  intros Hcase [?|[?|Ht]]; [by left|by right; left|].
  destruct Hcase as [[-> _]|[-> _]]; [rewrite terminator_lf in Ht|rewrite terminator_crlf in Ht]; done.
Qed.

(** An event the search finds is what the reader dispatches on the way. *)
Lemma read_block n : ∀ s raw rest t acc l,
  (length s ≤ n)%nat → find_separator s = Some (raw, rest) → cr_paired (s ++ t) = true →
  settled acc l s → plain_line l →
  dispatched (mkReader acc l) (s ++ t) =
    option_list (event_of (foldl field_line acc (lines_from l raw))) ++ dispatched reader_start (rest ++ t).
Proof.
  induction n as [|n IH]; intros s raw rest t acc l Hn Hf Hp Hs Hl; [by destruct s; [|simpl in Hn; lia]|].
  assert (s ≠ []) as Hne by (intros ->; done).
  assert (∀ s1 pre, (s = LF :: s1 ∧ pre = [LF]) ∨ (s = CR :: LF :: s1 ∧ pre = [CR; LF]) → (length s1 ≤ n)%nat →
    dispatched (mkReader acc l) (s ++ t) =
      option_list (event_of (foldl field_line acc (lines_from l raw))) ++ dispatched reader_start (rest ++ t)) as Hbreak.
  { intros s1 pre Hcase Hn1. rewrite (find_break _ _ _ Hcase) in Hf.
    assert (dispatched (mkReader acc l) (s ++ t) = dispatched (mkReader (field_line acc l) []) (s1 ++ t) ∧
            cr_paired (s1 ++ t) = true ∧ ∀ raw1, lines_from l (pre ++ raw1) = l :: lines_from [] raw1) as (-> & Hp1 & Hlines).
    { pose proof (settled_break _ _ _ _ _ Hcase Hs) as Hs'.
      destruct (read_break acc l s1 (s1 ++ t) Hs' Hl) as (acc' & -> & Hr).
      destruct Hcase as [[-> ->]|[-> ->]]; simpl app in *; [|rewrite read_cr]; rewrite Hr; split; try done; split.
      - by apply paired_cons in Hp.
      - intros raw1. by apply lines_lf.
      - by apply paired_cons, paired_cons in Hp.
      - intros raw1. apply lines_crlf. }
    destruct (terminator s1) as [rest1|] eqn:Ht.
    - injection Hf as <- <-. rewrite (read_terminator _ _ _ Ht Hp1). f_equal. simpl.
      by case_bool_decide as Hnil; [rewrite Hnil|].
    - destruct (find_separator s1) as [[raw1 rest1]|] eqn:Hf1; [|done]. injection Hf as <- <-.
      rewrite Hlines. cbn [foldl]. apply (IH s1); try done; [by right; right|]. intros a Ha. by apply elem_of_nil in Ha. }
  destruct (paired_starts _ _ Hp Hne) as [[s1 ->]|[[s1 ->]|[->|(a & s1 & -> & Hc & Hlf)]]].
  - apply (Hbreak s1 [LF]); [by left|simpl in Hn; lia].
  - apply (Hbreak s1 [CR; LF]); [by right|simpl in Hn; lia].
  - done.
  - rewrite find_other in Hf by done. destruct (find_separator s1) as [[raw1 rest1]|] eqn:Hf1; [|done].
    injection Hf as <- <-. rewrite lines_other by done. rewrite <- app_comm_cons, read_other by done.
    cbn [rd_fields rd_line]. apply (IH s1); try done; [simpl in Hn; lia|by apply paired_cons in Hp| |by apply plain_snoc].
    left. by destruct l.
Qed.

(** A text without a separator dispatches nothing. *)
Lemma read_rest n : ∀ s acc l,
  (length s ≤ n)%nat → find_separator s = None → cr_paired s = true → settled acc l s → plain_line l →
  dispatched (mkReader acc l) s = [].
Proof.
  induction n as [|n IH]; intros s acc l Hn Hf Hp Hs Hl; [by destruct s; [|simpl in Hn; lia]|].
  destruct (decide (s = [])) as [->|Hne]; [done|].
  assert (∀ s1 pre, (s = LF :: s1 ∧ pre = [LF]) ∨ (s = CR :: LF :: s1 ∧ pre = [CR; LF]) → (length s1 ≤ n)%nat →
    dispatched (mkReader acc l) s = []) as Hbreak.
  { intros s1 pre Hcase Hn1. rewrite (find_break _ _ _ Hcase) in Hf.
    assert (dispatched (mkReader acc l) s = dispatched (mkReader (field_line acc l) []) s1 ∧ cr_paired s1 = true) as (-> & Hp1).
    { pose proof (settled_break _ _ _ _ _ Hcase Hs) as Hs'.
      destruct (read_break acc l s1 s1 Hs' Hl) as (acc' & -> & Hr).
      destruct Hcase as [[-> ->]|[-> ->]]; [|rewrite read_cr]; rewrite Hr; (split; [done|]).
      - by apply paired_cons in Hp.
      - by apply paired_cons, paired_cons in Hp. }
    destruct (terminator s1) as [rest1|] eqn:Ht; [done|].
    apply IH; try done; [by destruct (find_separator s1) as [[]|]|by right; right|]. intros a Ha. by apply elem_of_nil in Ha. }
  destruct (paired_starts s [] ltac:(by rewrite app_nil_r) Hne) as [[s1 ->]|[[s1 ->]|[->|(a & s1 & -> & Hc & Hlf)]]].
  - apply (Hbreak s1 [LF]); [by left|simpl in Hn; lia].
  - apply (Hbreak s1 [CR; LF]); [by right|simpl in Hn; lia].
  - done.
  - rewrite find_other in Hf by done. rewrite read_other by done. apply IH; [simpl in Hn; lia| |by apply paired_cons in Hp| |by apply plain_snoc].
    + by destruct (find_separator s1) as [[]|].
    + left. by destruct l.
Qed.

(** What the search leaves is shorter, and a suffix. *)
Lemma terminator_suffix s rest : terminator s = Some rest → ∃ t, s = t ++ rest ∧ t ≠ [].
Proof.
  destruct (start_of s) as [|s|s| |a s Ha|a s Hc Hl]; try done.
  - intros [= <-]. by exists [LF].
  - intros [= <-]. by exists [CR; LF].
  - intros [= <-]. by exists [CR].
  - simpl. rewrite (bool_decide_false (a = LF)) by done. intros [= <-]. by exists [CR].
  - by rewrite terminator_other.
Qed.

Lemma find_suffix n : ∀ s raw rest,
  (length s ≤ n)%nat → find_separator s = Some (raw, rest) → ∃ t, s = t ++ rest ∧ t ≠ [].
Proof.
  induction n as [|n IH]; intros s raw rest Hn; [by destruct s; [|simpl in Hn; lia]|].
  assert (∀ pre s1 w, (length s1 ≤ n)%nat → s = pre ++ s1 →
    match terminator s1 with
    | Some rest => Some (w, rest)
    | None => (λ '(event, rest), (pre ++ event, rest)) <$> find_separator s1
    end = Some (raw, rest) → ∃ t, s = t ++ rest ∧ t ≠ []) as Hbreak.
  { intros pre s1 w Hn1 -> Hf. destruct (terminator s1) as [rest1|] eqn:Ht.
    - injection Hf as _ <-. apply terminator_suffix in Ht as (t & -> & Hne). exists (pre ++ t).
      rewrite app_assoc. split; [done|]. by destruct pre.
    - destruct (find_separator s1) as [[raw1 rest1]|] eqn:Hf1; [|done]. injection Hf as _ <-.
      destruct (IH _ _ _ Hn1 Hf1) as (t & -> & Hne). exists (pre ++ t). rewrite app_assoc. split; [done|]. by destruct pre. }
  destruct (start_of s) as [|s1|s1| |a s1 Ha|a s1 Hc Hl]; simpl in Hn.
  - done.
  - apply (Hbreak [LF] s1 []); [lia|done].
  - apply (Hbreak [CR; LF] s1 []); [lia|done].
  - done.
  - intros Hf. apply (Hbreak [CR] (a :: s1) []); [simpl; lia|done|]. rewrite <- Hf.
    cbn [find_separator]. rewrite (bool_decide_true (CR = CR)), (bool_decide_false (a = LF)) by done. done.
  - rewrite find_other by done. destruct (find_separator s1) as [[raw1 rest1]|] eqn:Hf1; [|done]. intros [= _ <-].
    destruct (IH s1 _ _ ltac:(lia) Hf1) as (t & -> & Ht). by exists (a :: t).
Qed.

Lemma settled_start s : settled no_fields [] s.
Proof. by right; left. Qed.

Lemma plain_nil : plain_line [].
Proof. intros a Ha. by apply elem_of_nil in Ha. Qed.

(** The loop reads on from the start as if its events had been dispatched. *)
Lemma drain_reads fuel : ∀ buffer events carry,
  drain fuel buffer = (events, carry) → (length buffer < fuel)%nat →
  find_separator carry = None ∧ (∃ read, buffer = read ++ carry) ∧
  ∀ t, cr_paired (buffer ++ t) = true →
    dispatched reader_start (buffer ++ t) = events ++ dispatched reader_start (carry ++ t).
Proof.
  induction fuel as [|fuel IH]; intros buffer events carry; [lia|]. cbn [drain].
  destruct (find_separator buffer) as [[raw rest]|] eqn:Hf.
  2:{ intros [= <- <-] _. split; [done|]. split; [by exists []|done]. }
  destruct (drain fuel rest) as [events' carry'] eqn:Hd. intros [= <- <-] Hn.
  destruct (find_suffix _ _ _ _ (le_n _) Hf) as (t0 & Hb & Ht0).
  assert (length rest < fuel)%nat as Hr.
  { rewrite Hb, length_app in Hn. destruct t0; [done|]. simpl in Hn. lia. }
  destruct (IH _ _ _ Hd Hr) as (Hc & [read Hread] & Heq). split; [done|]. split.
  { exists (t0 ++ read). by rewrite Hb, Hread, app_assoc. }
  intros t Hp. unfold reader_start.
  rewrite (read_block _ buffer raw rest t no_fields [] (le_n _) Hf Hp (settled_start _) plain_nil).
  rewrite Heq; [|by rewrite Hb, <- app_assoc in Hp; apply paired_app in Hp].
  change (event_of _) with (parse_event raw). by destruct (parse_event raw).
Qed.

Lemma push_all_reads chunks : ∀ carry events carry',
  push_all carry chunks = (events, carry') → find_separator carry = None →
  find_separator carry' = None ∧
  ∀ t, cr_paired (carry ++ concat chunks ++ t) = true →
    cr_paired (carry' ++ t) = true ∧
    dispatched reader_start (carry ++ concat chunks ++ t) = events ++ dispatched reader_start (carry' ++ t).
Proof.
  induction chunks as [|c chunks IH]; intros carry events carry'; simpl.
  { intros [= <- <-] Hf. by split. }
  unfold push. destruct (drain _ (carry ++ c)) as [events1 carry1] eqn:Hd.
  destruct (push_all carry1 chunks) as [events2 carry2] eqn:Hp. intros [= <- <-] _.
  destruct (drain_reads _ _ _ _ Hd ltac:(lia)) as (Hc1 & [read Hread] & Heq).
  destruct (IH _ _ _ Hp Hc1) as (Hc2 & IHt). split; [done|]. intros t Hpair.
  rewrite <- !app_assoc, app_assoc in Hpair |- *.
  assert (cr_paired (carry1 ++ concat chunks ++ t) = true) as Hp1.
  { rewrite Hread, <- app_assoc in Hpair. by apply paired_app in Hpair. }
  destruct (IHt t Hp1) as [Hp2 Heq2]. split; [done|]. rewrite Heq by done. by rewrite Heq2, app_assoc.
Qed.

(** Framing is the format.  However a stream is cut into chunks (in the
    middle of a line, of a terminator, of an event), as long as every carriage
    return in it belongs to a line feed, the events the framer returns are, in
    order, exactly those that reading the whole stream byte by byte and
    dispatching at each empty line gives.  So two cuts of one stream give the
    same events, and what is carried over in the end completes no event. *)
Lemma push_all_dispatched (chunks : list bytes) :
  cr_paired (concat chunks) = true →
  (push_all [] chunks).1 = dispatched reader_start (concat chunks).
Proof.
  intros Hp. destruct (push_all [] chunks) as [events carry] eqn:E.
  destruct (push_all_reads _ _ _ _ E eq_refl) as [Hc Heq]. specialize (Heq []).
  rewrite !app_nil_r, app_nil_l in Heq. destruct (Heq Hp) as [Hpc Hr].
  rewrite Hr. unfold reader_start. rewrite (read_rest _ carry no_fields [] (le_n _) Hc Hpc (settled_start _) plain_nil). by rewrite app_nil_r.
Qed.

(** A carriage return of its own: where the stream is cut decides whether the
    second event is read. *)
Example lone_cr_depends_on_the_cut :
  let whole := text "data: a" ++ crlf ++ crlf ++ [CR] ++ text "data: b" ++ [LF; LF] in
  (push_all [] [whole]).1 = [mkSse None "a"] ∧
  (push_all [] [take 10 whole; drop 10 whole]).1 = [mkSse None "a"; mkSse None "b"].
Proof. split; vm_compute; reflexivity. Qed.

(** Lines that end in a carriage return alone are framed but not told apart. *)
Example cr_lines_are_one :
  (push_all [] [text "event: x" ++ [CR] ++ text "data: a" ++ [CR; CR]]).1 = [].
Proof. vm_compute. reflexivity. Qed.
