(* ===== verification/ModelExecution.v ===== *)
(** * Executing a model call (apps/heiwa_shell/src/model_calls.rs, crates/heiwa_provider/src/adapter.rs)

    [ModelCallExecutor]: plan, record, resolve, send, record, and on a failure
    plan again without the model that failed.  Every event goes through the
    session service.  What the world does in an attempt (the adapter the
    resolver finds, what its stream and the cancel switch deliver, ids and
    clocks) is an argument per attempt; what is sent to a provider is part of
    the result. *)

From stdpp Require Import base gmap sets strings numbers list.
From Stdlib Require Import Ascii.
From S2P Require Import Prelude Json OperatorEvent RoutePolicy Turns EventLog Session.
From S2P Require Import Drex ModelCall Routing CallCosts.
#[local] Open Scope Z_scope.

(** ** adapter.rs *)

(** A response stream's events. *)
Inductive StreamEvent : Type :=
| Token (text : string)
| ToolUse (name input : string)
| Done (usage : TokenUsage)
| StreamError (error : string).

Record ExecutionChannel : Type := mkExecutionChannel {
  ec_kind : string;
  ec_account_id : option string;
  ec_binary : option string;
}.

Definition execution_channel_unknown : ExecutionChannel := mkExecutionChannel "unknown" None None.

Definition opt_field (k : string) (o : option string) : list (string * json) :=
  match o with Some s => [(k, JString s)] | None => [] end.

Definition encode_channel (c : ExecutionChannel) : json :=
  json_object (("kind", JString (ec_kind c)) :: opt_field "account_id" (ec_account_id c) ++
               opt_field "binary" (ec_binary c)).

Definition encode_usage (u : TokenUsage) : json :=
  json_object [("input_tokens", JNumber (PosInt (tu_input_tokens u)));
               ("output_tokens", JNumber (PosInt (tu_output_tokens u)));
               ("cache_read_tokens", JNumber (PosInt (tu_cache_read_tokens u)));
               ("cache_write_tokens", JNumber (PosInt (tu_cache_write_tokens u)));
               ("cost_usd", f64_json (tu_cost_usd u))].

Definition with_cost (cost : Z) (u : TokenUsage) : TokenUsage :=
  mkUsage (tu_input_tokens u) (tu_output_tokens u) (tu_cache_read_tokens u) (tu_cache_write_tokens u) cost.

(** ** Running an adapter *)

(** What is ready when the loop looks: an event of the stream ([Some None] when
    it ended), and a change of the cancel switch ([Some None] when its sender
    is gone). *)
Record Poll : Type := mkPoll {
  po_event : option (option StreamEvent);
  po_cancel : option (option bool);
}.

Inductive AdapterRunError : Type :=
| RunCancelled
| RunFailed (message : string) (emitted_delta : bool).

Section run.
Context `{JsonText}.

Definition tool_call_text (name input : string) : string :=
  print_json (json_object [("tool_calls",
    JArray [json_object [("name", JString name); ("arguments", JString input)]])]).

(** The loop of [run_adapter], biased to the stream: the deltas it forwards,
    and its result, [None] while it waits. *)
Fixpoint run_loop (polls : list Poll) (text : string) (emitted_delta cancel_open : bool)
    : list StreamEvent * option (result AdapterRunError (string * TokenUsage * bool)) :=
  match polls with
  | [] => ([], None)
  | p :: polls =>
      match po_event p with
      | Some (Some (Token token)) =>
          let '(deltas, r) := run_loop polls (text +:+ token) true cancel_open in (Token token :: deltas, r)
      | Some (Some (ToolUse name input)) =>
          let '(deltas, r) := run_loop polls (text +:+ tool_call_text name input) true cancel_open in
          (ToolUse name input :: deltas, r)
      | Some (Some (Done usage)) => ([], Some (Ok (text, usage, emitted_delta)))
      | Some (Some (StreamError error)) => ([], Some (Err (RunFailed error emitted_delta)))
      | Some None => ([], Some (Err (RunFailed "provider stream ended without completion" emitted_delta)))
      | None =>
          match po_cancel p with
          | Some changed =>
              if cancel_open then
                match changed with
                | Some true => ([], Some (Err RunCancelled))
                | Some false => run_loop polls text emitted_delta cancel_open
                | None => run_loop polls text emitted_delta false
                end
              else run_loop polls text emitted_delta cancel_open
          | None => run_loop polls text emitted_delta cancel_open
          end
      end
  end.

(** [run_adapter] with the cancel switch as it finds it; nothing is sent when
    it is on. *)
Definition run_adapter (cancelled : bool) (polls : list Poll)
    : list StreamEvent * option (result AdapterRunError (string * TokenUsage * bool)) :=
  if cancelled then ([], Some (Err RunCancelled)) else run_loop polls EmptyString false true.

End run.

(** ** Executions *)

Inductive ModelCallAttemptOutcome : Type := AttemptFailed | AttemptCompleted.

Record ModelCallAttemptRecord : Type := mkAttemptRecord {
  ar_candidate_id : Z;
  ar_provider : string;
  ar_model_id : string;
  ar_outcome : ModelCallAttemptOutcome;
  ar_failure_class : option ProviderFailureClass;
  ar_provider_invoked : bool;
  ar_cost_usd : option Z;
  ar_cost_truth : CostTruth;
}.

Record ModelCallResult : Type := mkCallResult {
  cr_route_receipt_ref : string;
  cr_provider : string;
  cr_model_id : string;
  cr_provider_model_id : string;
  cr_rate_group : string;
  cr_text : string;
  cr_usage : TokenUsage;
  cr_attempts : nat;
  cr_failed_models : list string;
  cr_cost_usd : Z;
  cr_cost_truth : CostTruth;
  cr_attempt_records : list ModelCallAttemptRecord;
}.

Inductive ModelCallError : Type :=
| CallCancelled
| InvalidBudget (reason : string)
| MaxAttemptsZero
| Planning (error : string)
| NoRoute (plan : ModelCallPlan)
| EvidenceAppend (phase : string) (source : SessionError)
| AttemptsExhausted (attempts : nat) (class : ProviderFailureClass) (message : string).

(** The world of one attempt. *)
Record AttemptWorld : Type := mkWorld {
  aw_envs : nat → Env;                       (* of each append of the attempt *)
  aw_resolve : ModelCallCandidate → result string ExecutionChannel;
  aw_cancelled : bool;                       (* the switch when the adapter starts *)
  aw_polls : list Poll;
  aw_latency_ms : Z;
}.

(** What an execution does, in order: events it appends, with the row they
    became, and messages sent to a provider, with the attempt's index. *)
Inductive Effect : Type :=
| Recorded (event : OperatorEvent) (row : CursorEvent)
| Sent (attempt : nat) (candidate : ModelCallCandidate).

(** How an execution ends; [None] when it is still waiting. *)
Definition Ending : Type := option (result ModelCallError ModelCallResult).

(** The state of the loop. *)
Record Loop : Type := mkLoop {
  lp_request : ModelCallRequest;
  lp_attempts : nat;
  lp_budget : option Z;
  lp_failure : option (ProviderFailureClass * string);
  lp_failed_models : list string;
  lp_cost : Z;
  lp_truth : option CostTruth;
  lp_records : list ModelCallAttemptRecord;
}.

Record ModelCallExecution : Type := mkExecutionRequest {
  mx_request : ModelCallRequest;
  mx_candidates : list ModelCallCandidate;
  mx_remaining_budget_usd : option Z;
  mx_max_attempts : nat;
  mx_cancelled : bool;
}.

(** ** Payloads *)

Definition f64_opt_json (o : option Z) : json := match o with Some b => f64_json b | None => JNull end.
Definition nat_json (n : nat) : json := JNumber (PosInt (Z.of_nat n)).

Definition operator_risk (r : CallRisk) : OperatorRisk :=
  match r with Low => RiskLow | Medium => RiskMedium | High => RiskHigh | Critical => RiskCritical end.

Definition planned_payload (request : ModelCallRequest) (plan : ModelCallPlan) (attempt : nat) : json :=
  let tier := mc_tier <$> mp_selected plan in
  json_object
    [("attempt", nat_json attempt); ("intent", JString (mr_intent request));
     ("provider", json_opt_str (mt_provider <$> tier)); ("model", json_opt_str (mt_model_id <$> tier));
     ("provider_model", json_opt_str (mt_provider_model_id <$> tier));
     ("rate_group", json_opt_str (mt_rate_group <$> tier));
     ("privacy", JString (privacy_text (mr_privacy request))); ("request_id", JString (mr_call_id request));
     ("stage", JString (stage_text (mp_stage plan)));
     ("selected_id", match mp_selected_id plan with Some i => JNumber (PosInt i) | None => JNull end);
     ("cost_truth", json_opt_str (cost_truth_text <$> mp_selected_cost_truth plan));
     ("selection_reason", JString (mp_selection_reason plan));
     ("policy_version", JString (mp_policy_version plan));
     ("rejections", JArray (map encode_rejection (mp_rejected plan)))].

Definition attempted_payload (c : ModelCallCandidate) (attempt : nat) : json :=
  json_object [("attempt", nat_json attempt); ("provider", JString (mt_provider (mc_tier c)));
               ("model", JString (mt_model_id (mc_tier c)));
               ("provider_model", JString (mt_provider_model_id (mc_tier c)))].

Definition failed_payload (c : ModelCallCandidate) (channel : option ExecutionChannel) (invoked : bool)
    (origin : FailureOrigin) (attempt : nat) (failure : ProviderFailureClass * string)
    (cost : option Z) (truth : CostTruth) (remaining : option Z) : json :=
  json_object
    [("attempt", nat_json attempt); ("provider", JString (mt_provider (mc_tier c)));
     ("model", JString (mt_model_id (mc_tier c))); ("provider_model", JString (mt_provider_model_id (mc_tier c)));
     ("channel", encode_channel (default execution_channel_unknown channel));
     ("provider_invoked", JBool invoked); ("failure_origin", JString (origin_text origin));
     ("failure_class", JString (failure_class_text failure.1)); ("message", JString failure.2);
     ("cost_usd", f64_opt_json cost); ("cost_truth", JString (cost_truth_text truth));
     ("remaining_budget_usd", f64_opt_json remaining)].

Definition cancelled_payload (c : ModelCallCandidate) (channel : ExecutionChannel) (attempt : nat)
    (cost : option Z) (truth : CostTruth) : json :=
  json_object
    [("attempt", nat_json attempt); ("provider", JString (mt_provider (mc_tier c)));
     ("model", JString (mt_model_id (mc_tier c))); ("provider_model", JString (mt_provider_model_id (mc_tier c)));
     ("channel", encode_channel channel); ("failure_origin", JString (origin_text OriginProvider));
     ("failure_class", JString (failure_class_text FailCancelled));
     ("message", JString "provider attempt interrupted before completion truth");
     ("outcome", JString "uncertain"); ("provider_invoked", JBool true); ("cost_usd", f64_opt_json cost);
     ("cost_truth", JString (cost_truth_text truth)); ("remaining_budget_usd", JNull)].

Definition completed_payload (c : ModelCallCandidate) (channel : ExecutionChannel) (attempt : nat)
    (usage : TokenUsage) (latency : Z) (charged : Z * CostTruth) (cumulative : Z * option CostTruth)
    (remaining : option Z) : json :=
  json_object
    [("attempt", nat_json attempt); ("provider", JString (mt_provider (mc_tier c)));
     ("model", JString (mt_model_id (mc_tier c))); ("provider_model", JString (mt_provider_model_id (mc_tier c)));
     ("channel", encode_channel channel); ("usage", encode_usage usage);
     ("latency_ms", JNumber (PosInt latency)); ("cost_usd", f64_json charged.1);
     ("cost_truth", JString (cost_truth_text charged.2)); ("cumulative_cost_usd", f64_json cumulative.1);
     ("cumulative_cost_truth", json_opt_str (cost_truth_text <$> cumulative.2));
     ("remaining_budget_usd", f64_opt_json remaining); ("receipt_ref", JNull)].

Definition qualified_model_identity (c : ModelCallCandidate) : string :=
  mt_provider (mc_tier c) +:+ "/" +:+ mt_model_id (mc_tier c).

Definition failed_attempt_record (c : ModelCallCandidate) (class : ProviderFailureClass) (invoked : bool)
    (cost : option Z) (truth : CostTruth) : ModelCallAttemptRecord :=
  mkAttemptRecord (candidate_id c) (mt_provider (mc_tier c)) (mt_model_id (mc_tier c)) AttemptFailed
    (Some class) invoked cost truth.

(** ** The executor *)

Section executor.
Context `{EventLog L, JsonText}.

(** A step of an execution: what it did, and either how it ended or a value. *)
Definition exec (A : Type) : Type := Service L → Service L * list Effect * (Ending + A).

Definition done {A} (r : result ModelCallError ModelCallResult) : exec A := λ s, (s, [], inl (Some r)).
Definition waiting {A} : exec A := λ s, (s, [], inl None).
Definition go {A} (a : A) : exec A := λ s, (s, [], inr a).
Definition and_then {A B} (m : exec A) (k : A → exec B) : exec B := λ s,
  match m s with
  | (s1, es, inl r) => (s1, es, inl r)
  | (s1, es, inr a) => let '(s2, es', r) := k a s1 in (s2, es ++ es', r)
  end.

(** The adapter's [send] is called. *)
Definition send (attempt : nat) (c : ModelCallCandidate) : exec unit := λ s, (s, [Sent attempt c], inr tt).

(** The event of [append_route_event] and [append_turn_event], which differ in
    the call they name and in their actor. *)
Definition call_event (env : Env) (request : ModelCallRequest) (call : option string) (actor_id : string)
    (ty : OperatorEventType) (p : json) : OperatorEvent :=
  mkEvent OPERATOR_EVENT_SCHEMA_VERSION ("evt-" +:+ env_ids env 0%nat) (mr_thread_id request)
    (Some (mr_turn_id request)) None call (mr_work_id request) ty (env_now env)
    (mkActor "runtime" actor_id) (operator_risk (mr_risk request)) LocalPrivate None
    (Some (mr_call_id request)) [] [] p.

Definition append_call_event (fuel : nat) (env : Env) (request : ModelCallRequest) (call : option string)
    (actor_id : string) (ty : OperatorEventType) (phase : string) (p : json) : exec CursorEvent := λ s,
  let event := call_event env request call actor_id ty p in
  match append_event fuel env event s with
  | (s', Ok row) => (s', [Recorded event row], inr row)
  | (s', Err e) => (s', [], inl (Some (Err (EvidenceAppend phase e))))
  end.

Definition append_route_event (fuel : nat) (env : Env) (request : ModelCallRequest) (ty : OperatorEventType)
    (phase : string) (p : json) : exec CursorEvent :=
  append_call_event fuel env request (Some (mr_call_id request)) "model-call-executor" ty phase p.

Definition append_turn_event (fuel : nat) (env : Env) (request : ModelCallRequest) (ty : OperatorEventType)
    (phase : string) (p : json) : exec CursorEvent :=
  append_call_event fuel env request None "model-call-turn-lifecycle" ty phase p.

(** The state after a failed attempt that cost [cost]: the model is excluded. *)
Definition after_failure (st : Loop) (request : ModelCallRequest) (c : ModelCallCandidate)
    (failure : ProviderFailureClass * string) (invoked : bool) (cost : option Z) (truth : CostTruth)
    (cumulative : Z * option CostTruth) (budget : option Z) : Loop :=
  mkLoop (exclude (qualified_model_identity c) request) (S (lp_attempts st)) budget (Some failure)
    (lp_failed_models st ++ [qualified_model_identity c]) cumulative.1 cumulative.2
    (lp_records st ++ [failed_attempt_record c failure.1 invoked cost truth]).

(** A failure of a provider or of its accounting: recorded and charged; what
    has been shown to the user is not tried again. *)
Definition fail_attempt (fuel : nat) (w : AttemptWorld) (st : Loop) (request : ModelCallRequest)
    (c : ModelCallCandidate) (channel : ExecutionChannel) (origin : FailureOrigin)
    (failure : ProviderFailureClass * string) (emitted_delta : bool) : exec Loop :=
  let attempt := S (lp_attempts st) in
  let '(cost, truth) := attempted_cost c in
  let next_budget := subtract_optional_budget (lp_budget st) cost in
  and_then (append_route_event fuel (aw_envs w 2%nat) request RouteFailed "route_failed"
              (failed_payload c (Some channel) true origin attempt failure cost truth next_budget)) (λ _,
  if emitted_delta then done (Err (AttemptsExhausted attempt failure.1 failure.2))
  else go (after_failure st request c failure true cost truth
             (add_cumulative_cost (lp_cost st) (lp_truth st) cost truth) next_budget)).

(** A response that completed: what it cost is charged, recorded and returned;
    a cost that makes no sense fails the attempt. *)
Definition complete_attempt (fuel : nat) (w : AttemptWorld) (st : Loop) (request : ModelCallRequest)
    (c : ModelCallCandidate) (channel : ExecutionChannel) (text : string) (usage : TokenUsage)
    (emitted : bool) : exec Loop :=
  let n := S (lp_attempts st) in
  match completed_cost c usage with
  | Err message => fail_attempt fuel w st request c channel OriginAccounting (FailInvalidUsage, message) emitted
  | Ok (cost, truth) =>
      let usage := with_cost cost usage in
      let budget := subtract_budget (lp_budget st) cost in
      let '(total, total_truth) := add_cumulative_cost (lp_cost st) (lp_truth st) (Some cost) truth in
      and_then (append_route_event fuel (aw_envs w 2%nat) request RouteCompleted "route_completed"
                  (completed_payload c channel n usage (aw_latency_ms w) (cost, truth)
                     (total, total_truth) budget)) (λ row,
      done (Ok (mkCallResult (event_id (ce_event row)) (mt_provider (mc_tier c)) (mt_model_id (mc_tier c))
                  (mt_provider_model_id (mc_tier c)) (mt_rate_group (mc_tier c)) text usage n
                  (lp_failed_models st) total (default CannotConfirm total_truth)
                  (lp_records st ++ [mkAttemptRecord (candidate_id c) (mt_provider (mc_tier c))
                     (mt_model_id (mc_tier c)) AttemptCompleted None true (Some cost) truth]))))
  end.

(** One iteration of the loop: the next state, or the end. *)
Definition attempt (fuel : nat) (w : AttemptWorld) (candidates : list ModelCallCandidate) (st : Loop)
    : exec Loop :=
  let request := apply_remaining_budget (lp_budget st) (lp_request st) in
  let plan := plan_model_call request candidates default_policy in
  let n := S (lp_attempts st) in
  and_then (append_route_event fuel (aw_envs w 0%nat) request RoutePlanned "route_planned"
              (planned_payload request plan n)) (λ _,
  match mp_selected plan with
  | None => done (Err (NoRoute plan))
  | Some c =>
      and_then (append_route_event fuel (aw_envs w 1%nat) request RouteAttempted "route_attempted"
                  (attempted_payload c n)) (λ _,
      match aw_resolve w c with
      | Err message =>
          let failure := (FailAvailability, message) in
          and_then (append_route_event fuel (aw_envs w 2%nat) request RouteFailed "route_failed"
                      (failed_payload c None false OriginResolver n failure None CannotConfirm (lp_budget st))) (λ _,
          go (after_failure st request c failure false None CannotConfirm (lp_cost st, lp_truth st) (lp_budget st)))
      | Ok channel =>
          and_then (if aw_cancelled w then go tt else send (lp_attempts st) c) (λ _,
          match (run_adapter (aw_cancelled w) (aw_polls w)).2 with
          | None => waiting
          | Some (Err RunCancelled) =>
              let '(cost, truth) := attempted_cost c in
              and_then (append_route_event fuel (aw_envs w 2%nat) request RouteFailed "route_failed"
                          (cancelled_payload c channel n cost truth)) (λ _,
              done (Err CallCancelled))
          | Some (Err (RunFailed message emitted)) =>
              fail_attempt fuel w st request c channel OriginProvider (normalize_failure message, message) emitted
          | Some (Ok (text, usage, emitted)) =>
              complete_attempt fuel w st request c channel text usage emitted
          end)
      end)
  end).

(** [while attempts < max_attempts]; [more] is what is left of it. *)
Fixpoint attempts_loop (more fuel : nat) (world : nat → AttemptWorld) (candidates : list ModelCallCandidate)
    (st : Loop) : exec Empty_set :=
  match more with
  | O =>
      let '(class, message) := default (FailProvider, "no provider attempt completed") (lp_failure st) in
      done (Err (AttemptsExhausted (lp_attempts st) class message))
  | S more =>
      and_then (attempt fuel (world (lp_attempts st)) candidates st) (attempts_loop more fuel world candidates)
  end.

Definition MAX_ATTEMPTS : nat := 3.

Definition invalid_budget (budget : option Z) : bool :=
  match budget with Some b => negb (f64_is_finite b) || f64_ltb b 0 | None => false end.

(** [execute]; the selection of admitted candidates comes before it and may
    refuse ([Planning]). *)
Definition execute (fuel : nat) (world : nat → AttemptWorld) (execution : ModelCallExecution)
    (candidates : result string (list ModelCallCandidate)) : exec Empty_set :=
  if bool_decide (mx_max_attempts execution = 0%nat) then done (Err MaxAttemptsZero)
  else if invalid_budget (mx_remaining_budget_usd execution) then
    done (Err (InvalidBudget "remaining_budget_usd must be finite and non-negative"))
  else if mx_cancelled execution then done (Err CallCancelled)
  else
    match candidates with
    | Err e => done (Err (Planning e))
    | Ok candidates =>
        attempts_loop (Nat.min (mx_max_attempts execution) MAX_ATTEMPTS) fuel world candidates
          (mkLoop (mx_request execution) 0%nat (mx_remaining_budget_usd execution) None [] 0 None [])
    end.

(** How an execution ended. *)
Definition ending (r : Ending + Empty_set) : Ending := match r with inl e => e | inr v => match v with end end.

(** [execute_canonical_turn]: the turn's own events around the execution.  The
    text of an error is an argument. *)
Definition execute_canonical_turn (fuel : nat) (world : nat → AttemptWorld) (turn_envs : nat → Env)
    (error_text : ModelCallError → string) (execution : ModelCallExecution)
    (candidates : result string (list ModelCallCandidate)) : exec Empty_set :=
  let request := mx_request execution in
  and_then (append_turn_event fuel (turn_envs 0%nat) request AssistantStarted "assistant_started"
              (json_object [])) (λ _ s,
  let '(s1, es, r) := execute fuel world execution candidates s in
  let '(s2, es', r') :=
    match ending r with
    | None => waiting s1
    | Some (Ok result) =>
        and_then (append_turn_event fuel (turn_envs 1%nat) request AssistantCompleted "assistant_completed"
                    (json_object [("text", JString (cr_text result)); ("usage", encode_usage (cr_usage result));
                                  ("cost_usd", f64_json (cr_cost_usd result));
                                  ("cost_truth", JString (cost_truth_text (cr_cost_truth result)))])) (λ _,
        and_then (append_turn_event fuel (turn_envs 2%nat) request TurnCompleted "turn_completed"
                    (json_object [("outcome", JString "completed")])) (λ _,
        done (Ok result))) s1
    | Some (Err error) =>
        and_then (append_turn_event fuel (turn_envs 1%nat) request TurnInterrupted "turn_interrupted"
                    (json_object [("reason", JString match error with
                                                     | CallCancelled => "OPERATOR_CANCELLED"
                                                     | _ => "EXECUTION_FAILED"
                                                     end);
                                  ("message", JString (error_text error))])) (λ _,
        done (Err error)) s1
    end in
  (s2, es ++ es', r')).

End executor.
