(* ===== verification/ExecutionProtocol.v ===== *)
(** * What an execution may do

    The machine an execution of ModelExecution.v moves through, as its events
    and its sends show it, the bounds every attempt keeps, and the books of its
    cost.  Then the turn around it, closed once. *)

From stdpp Require Import base gmap sets strings numbers list.
From Stdlib Require Import Ascii.
From S2P Require Import Prelude Json Envelope OperatorEvent RoutePolicy Turns EventLog Session SessionSync.
From S2P Require Import Drex ModelCall Routing CallCosts ModelExecution.
#[local] Open Scope Z_scope.

(** ** Requests that ask for no less *)

(** A request without its ceiling and its exclusions. *)
Definition demands (r : ModelCallRequest) : ModelCallRequest :=
  mkCallRequest (mr_thread_id r) (mr_turn_id r) (mr_work_id r) (mr_call_id r) (mr_intent r) (mr_stage r)
    (mr_raw_text r) (mr_privacy r) (mr_risk r) (mr_safety r) (mr_required_capabilities r)
    (mr_required_context_tokens r) (mr_minimum_quality_class r) (mr_minimum_success_rate r) None
    (mr_preferred_provider r) (mr_preferred_model r) (mr_allowed_models r) [].

(** The same demands, a lower ceiling, more exclusions. *)
Record tighter (r0 r : ModelCallRequest) : Prop := {
  tg_demands : demands r = demands r0;
  tg_ceiling : ∀ m0, mr_maximum_marginal_cost_usd r0 = Some m0 → f64_is_nan m0 = false →
    ∃ m, mr_maximum_marginal_cost_usd r = Some m ∧ f64_leb m m0 = true;
  tg_excluded : ∀ x, x ∈ mr_excluded_models r0 → x ∈ mr_excluded_models r;
}.

Lemma f64_leb_not_nan a b : f64_leb a b = true → f64_is_nan a = false ∧ f64_is_nan b = false.
Proof. unfold f64_leb, f64_partial_cmp. by destruct (f64_is_nan a), (f64_is_nan b). Qed.

#[export] Instance tighter_preorder : PreOrder tighter.
Proof.
  split; [intros r; split; [done| |done]; intros m Hm Hn; exists m; split; [done|by apply f64_leb_refl]|].
  intros r0 r1 r2 [Hd Hc Hx] [Hd' Hc' Hx']. split; [congruence| |auto].
  intros m0 Hm0 Hn. destruct (Hc m0 Hm0 Hn) as (m1 & Hm1 & Hle). destruct (f64_leb_not_nan _ _ Hle) as [Hn1 _].
  destruct (Hc' m1 Hm1 Hn1) as (m2 & Hm2 & Hle'). exists m2. split; [done|by eapply f64_leb_trans].
Qed.

Lemma f64_min_le a b : f64_is_nan a = false → f64_leb (f64_min a b) a = true.
Proof.
  intros Ha. unfold f64_min. rewrite Ha. destruct (f64_is_nan b) eqn:Hb; [by apply f64_leb_refl|].
  destruct (f64_ltb b a) eqn:Hlt; [|by apply f64_leb_refl]. revert Hlt. unfold f64_ltb, f64_leb.
  by destruct (f64_partial_cmp b a) as [[]|].
Qed.

Lemma apply_remaining_budget_tighter budget r : tighter r (apply_remaining_budget budget r).
Proof.
  destruct budget as [b|]; [|done]. split; [done| |done]. simpl. intros m0 -> Hn. eexists. split; [done|].
  by apply f64_min_le.
Qed.

Lemma exclude_tighter m r : tighter r (exclude m r).
Proof.
  split; [done| |].
  - simpl. intros m0 Hm0 Hn. exists m0. split; [done|by apply f64_leb_refl].
  - simpl. set_solver.
Qed.

Section permission.
Context `{JsonText}.

(** What a tighter request permits, the request permits. *)
Lemma permitted_tighter r0 r c :
  tighter r0 r → (∀ m0, mr_maximum_marginal_cost_usd r0 = Some m0 → f64_is_nan m0 = false) →
  permitted r c → permitted r0 c.
Proof.
  intros [Hd Hc Hx] Hn [He Hco Ht Hr Hcn Ha Hq Hex Hal Hp Hm Hpr Hctx Hcap Hql Hs Hb].
  unfold demands in Hd. injection Hd as _ _ _ _ _ _ _ Epr _ _ Ecap Ectx Eql Es Epp Epm Eal.
  rewrite Epr, Ecap, Ectx, Eql, Es, Epp, Epm, Eal in *. split; try done.
  - intros m Hm'. by apply Hex, Hx.
  - intros m0 Hm0. destruct (Hc m0 Hm0 (Hn m0 Hm0)) as (m & Hmax & Hle). destruct (Hb m Hmax) as (cost & Hcost & Hlec).
    exists cost. split; [done|by eapply f64_leb_trans].
Qed.

End permission.

(** ** The machine of an execution *)

Inductive Phase : Type :=
| PhIdle
| PhPlanned
| PhAttempted (provider model : string)
| PhInFlight (provider model : string)
| PhClosed (provider model : string).

(** Whom a route row is about. *)
Definition row_names (e : OperatorEvent) : option (string * string) :=
  p ← get_str (payload e) "provider"; m ← get_str (payload e) "model"; Some (p, m).

Definition phase_step (ph : Phase) (eff : Effect) : option Phase :=
  match ph, eff with
  | PhIdle, Recorded e _ => if bool_decide (event_type e = RoutePlanned) then Some PhPlanned else None
  | PhPlanned, Recorded e _ =>
      if bool_decide (event_type e = RouteAttempted) then (λ '(p, m), PhAttempted p m) <$> row_names e else None
  | PhAttempted p m, Sent _ c =>
      if bool_decide ((mt_provider (mc_tier c), mt_model_id (mc_tier c)) = (p, m)) then Some (PhInFlight p m) else None
  | PhAttempted p m, Recorded e _ =>
      if bool_decide (row_names e = Some (p, m)) && bool_decide (event_type e = RouteFailed) then Some PhIdle else None
  | PhInFlight p m, Recorded e _ =>
      if bool_decide (row_names e = Some (p, m)) then
        if bool_decide (event_type e = RouteFailed) then Some PhIdle
        else if bool_decide (event_type e = RouteCompleted) then Some (PhClosed p m) else None
      else None
  | _, _ => None
  end.

Fixpoint run_phases (ph : Phase) (es : list Effect) : option Phase :=
  match es with
  | [] => Some ph
  | eff :: es => ph' ← phase_step ph eff; run_phases ph' es
  end.

Lemma run_phases_app ph es es' : run_phases ph (es ++ es') = (ph' ← run_phases ph es; run_phases ph' es').
Proof. revert ph. induction es as [|eff es IH]; intros ph; simpl; [done|]. destruct (phase_step ph eff); simpl; [apply IH|done]. Qed.

(** How the phase an execution stops in goes with its ending. *)
Definition ends_in (ph : Phase) (r : Ending) : Prop :=
  match r with
  | None => ∃ p m, ph = PhInFlight p m
  | Some (Ok result) => ph = PhClosed (cr_provider result) (cr_model_id result)
  | Some (Err (EvidenceAppend _ _)) => ¬ ∃ p m, ph = PhClosed p m
  | Some (Err (NoRoute _)) => ph = PhPlanned
  | Some (Err _) => ph = PhIdle
  end.

(** ** One attempt *)

Section steps.
Context `{EventLog L, JsonText}.

(** An event of the call [request] makes. *)
Definition routed (request : ModelCallRequest) (ty : OperatorEventType) (p : json) (e : OperatorEvent) : Prop :=
  ∃ env, e = call_event env request (Some (mr_call_id request)) "model-call-executor" ty p.

Definition narrowed (st : Loop) : ModelCallRequest := apply_remaining_budget (lp_budget st) (lp_request st).
Definition plan_of (candidates : list ModelCallCandidate) (st : Loop) : ModelCallPlan :=
  plan_model_call (narrowed st) candidates default_policy.

(** The rows up to the send, and the send if there is one. *)
Definition opening (st : Loop) (c : ModelCallCandidate) (invoked : bool) (es : list Effect) : Prop :=
  ∃ e1 r1 e2 r2 p1, routed (narrowed st) RoutePlanned p1 e1 ∧
    routed (narrowed st) RouteAttempted (attempted_payload c (S (lp_attempts st))) e2 ∧
    es = Recorded e1 r1 :: Recorded e2 r2 :: (if invoked then [Sent (lp_attempts st) c] else []).

(** What the user was shown in an attempt. *)
Definition shown (w : AttemptWorld) : list StreamEvent := (run_adapter (aw_cancelled w) (aw_polls w)).1.

(** The row that closes an attempt at [c]. *)
Definition closing (st : Loop) (c : ModelCallCandidate) (ty : OperatorEventType) (eff : Effect) : Prop :=
  ∃ p e row, routed (narrowed st) ty p e ∧ eff = Recorded e row ∧
    get_str p "provider" = Some (mt_provider (mc_tier c)) ∧ get_str p "model" = Some (mt_model_id (mc_tier c)).

(** What one attempt may do; the books are kept by [after_failure] and the
    result. *)
Inductive Step (w : AttemptWorld) (candidates : list ModelCallCandidate) (st : Loop)
    : list Effect → Ending + Loop → Prop :=
| step_not_planned phase err : Step w candidates st [] (inl (Some (Err (EvidenceAppend phase err))))
| step_no_route e r p :
    routed (narrowed st) RoutePlanned p e → mp_selected (plan_of candidates st) = None →
    Step w candidates st [Recorded e r] (inl (Some (Err (NoRoute (plan_of candidates st)))))
| step_not_attempted e r p phase err :
    routed (narrowed st) RoutePlanned p e →
    Step w candidates st [Recorded e r] (inl (Some (Err (EvidenceAppend phase err))))
| step_not_closed c invoked es phase err :
    mp_selected (plan_of candidates st) = Some c → opening st c invoked es →
    Step w candidates st es (inl (Some (Err (EvidenceAppend phase err))))
| step_waiting c es :
    mp_selected (plan_of candidates st) = Some c → opening st c true es → Step w candidates st es (inl None)
| step_cancelled c invoked es eff :
    mp_selected (plan_of candidates st) = Some c → opening st c invoked es → closing st c RouteFailed eff →
    Step w candidates st (es ++ [eff]) (inl (Some (Err CallCancelled)))
| step_shown c invoked es eff class message :
    mp_selected (plan_of candidates st) = Some c → opening st c invoked es → closing st c RouteFailed eff →
    Step w candidates st (es ++ [eff]) (inl (Some (Err (AttemptsExhausted (S (lp_attempts st)) class message))))
| step_failed c invoked es eff failure cost truth budget :
    mp_selected (plan_of candidates st) = Some c → opening st c invoked es → closing st c RouteFailed eff →
    (invoked = true → shown w = []) →
    Step w candidates st (es ++ [eff])
      (inr (after_failure st (narrowed st) c failure invoked cost truth
              (if invoked then add_cumulative_cost (lp_cost st) (lp_truth st) cost truth else (lp_cost st, lp_truth st))
              budget))
| step_completed c es eff result cost truth :
    mp_selected (plan_of candidates st) = Some c → opening st c true es → closing st c RouteCompleted eff →
    cr_provider result = mt_provider (mc_tier c) → cr_model_id result = mt_model_id (mc_tier c) →
    cr_attempts result = S (lp_attempts st) → cr_failed_models result = lp_failed_models st →
    (∃ e row, eff = Recorded e row ∧ cr_route_receipt_ref result = event_id (ce_event row)) →
    (cr_cost_usd result, Some (cr_cost_truth result)) =
      add_cumulative_cost (lp_cost st) (lp_truth st) (Some cost) truth →
    cr_attempt_records result = lp_records st ++
      [mkAttemptRecord (candidate_id c) (mt_provider (mc_tier c)) (mt_model_id (mc_tier c)) AttemptCompleted None
         true (Some cost) truth] →
    Step w candidates st (es ++ [eff]) (inl (Some (Ok result))).

(** A response shows something exactly when it says so. *)
Lemma run_loop_shown polls : ∀ text emitted open deltas r,
  run_loop polls text emitted open = (deltas, Some r) →
  match r with
  | Ok (_, _, emitted') | Err (RunFailed _ emitted') => emitted' = (emitted || negb (bool_decide (deltas = [])))
  | Err RunCancelled => True
  end.
Proof.
  induction polls as [|p polls IH]; intros text emitted open deltas r; simpl; [done|].
  destruct (po_event p) as [[[token|name input|usage|error]|]|]; simpl.
  1,2: destruct (run_loop polls _ true open) as [ds [r'|]] eqn:E; [|done]; intros [= <- <-]; apply IH in E;
    destruct r' as [[[? ?] ?]|[]]; simpl in *; rewrite ?E, ?orb_true_r; done.
  1-3: intros [= <- <-]; by rewrite bool_decide_eq_true_2, orb_false_r by done.
  destruct (po_cancel p) as [[[]|]|], open; try apply IH. by intros [= <- <-].
Qed.

Lemma attempted_names c n :
  get_str (attempted_payload c n) "provider" = Some (mt_provider (mc_tier c)) ∧
  get_str (attempted_payload c n) "model" = Some (mt_model_id (mc_tier c)).
Proof. done. Qed.

(** Appending a call's event succeeds with that event or ends the execution. *)
Lemma append_call_cases {A} fuel env request call actor ty phase p (k : CursorEvent → exec (L := L) A) s s' es r :
  and_then (append_call_event fuel env request call actor ty phase p) k s = (s', es, r) →
  (∃ err, es = [] ∧ r = inl (Some (Err (EvidenceAppend phase err)))) ∨
  (∃ s1 row es', es = Recorded (call_event env request call actor ty p) row :: es' ∧ k row s1 = (s', es', r)).
Proof.
  unfold and_then, append_call_event.
  destruct (append_event fuel env _ s) as [s1 [row|e]]; [|intros [= <- <- <-]; left; by eexists].
  destruct (k row s1) as [[s2 es2] r2] eqn:E. intros [= <- <- <-]. right. by eexists s1, row, es2.
Qed.

(** The last row of an attempt. *)
Lemma attempt_closing_row st c ty env p row :
  get_str p "provider" = Some (mt_provider (mc_tier c)) → get_str p "model" = Some (mt_model_id (mc_tier c)) →
  closing st c ty (Recorded (call_event env (narrowed st) (Some (mr_call_id (narrowed st))) "model-call-executor" ty p) row).
Proof. intros Hp Hm. exists p, (call_event env (narrowed st) (Some (mr_call_id (narrowed st))) "model-call-executor" ty p), row. split; [by exists env|done]. Qed.

Lemma add_cumulative_some total aggregate cost truth total' aggregate' :
  add_cumulative_cost total aggregate cost truth = (total', aggregate') → ∃ t, aggregate' = Some t.
Proof.
  unfold add_cumulative_cost. destruct cost as [cost|]; [destruct (f64_is_finite _)|]; intros [= <- <-]; by eexists.
Qed.

(** A failed attempt after its opening. *)
Lemma fail_attempt_step fuel w candidates st c channel origin failure emitted opened s s' es r :
  mp_selected (plan_of candidates st) = Some c → opening st c true opened →
  emitted = negb (bool_decide (shown w = [])) →
  fail_attempt fuel w st (narrowed st) c channel origin failure emitted s = (s', es, r) →
  Step w candidates st (opened ++ es) r.
Proof.
  intros Hc Ho Hem. unfold fail_attempt. destruct (attempted_cost c) as [cost truth].
  intros [(err & -> & ->)|(s1 & row & es' & -> & Hk)]%append_call_cases.
  - rewrite app_nil_r. by eapply step_not_closed.
  - revert Hk. destruct emitted; intros [= <- <- <-].
    + eapply step_shown; [done|done|]. by apply attempt_closing_row.
    + apply (step_failed w candidates st c true); [done|done|by apply attempt_closing_row|]. intros _.
      symmetry in Hem. by apply negb_false_iff, bool_decide_eq_true in Hem.
Qed.

(** A completed response: its cost is charged, or is what failed. *)
Lemma complete_attempt_step fuel w candidates st c channel text usage emitted opened s s' es r :
  mp_selected (plan_of candidates st) = Some c → opening st c true opened →
  emitted = negb (bool_decide (shown w = [])) →
  complete_attempt fuel w st (narrowed st) c channel text usage emitted s = (s', es, r) →
  Step w candidates st (opened ++ es) r.
Proof.
  intros Hc Ho Hem. unfold complete_attempt. destruct (completed_cost c usage) as [[cost truth]|message].
  - destruct (add_cumulative_cost _ _ _ _) as [total total_truth] eqn:Et.
    intros [(err & -> & ->)|(s1 & row & es' & -> & [= <- <- <-])]%append_call_cases.
    + rewrite app_nil_r. by eapply step_not_closed.
    + apply (step_completed w candidates st c _ _ _ cost truth); [done|done|by apply attempt_closing_row|done..|by eexists _, _| |done].
      cbn [cr_cost_usd cr_cost_truth]. rewrite Et. f_equal. by apply add_cumulative_some in Et as [t ->].
  - by apply fail_attempt_step.
Qed.

(** From the opening on: what the adapter does. *)
Lemma adapter_step fuel w candidates st c channel opened s s' es r :
  mp_selected (plan_of candidates st) = Some c → opening st c (negb (aw_cancelled w)) opened →
  match (run_adapter (aw_cancelled w) (aw_polls w)).2 with
  | None => waiting
  | Some (Err RunCancelled) =>
      let '(cost, truth) := attempted_cost c in
      and_then (append_route_event fuel (aw_envs w 2%nat) (narrowed st) RouteFailed "route_failed"
                  (cancelled_payload c channel (S (lp_attempts st)) cost truth)) (λ _, done (Err CallCancelled))
  | Some (Err (RunFailed message emitted)) =>
      fail_attempt fuel w st (narrowed st) c channel OriginProvider (normalize_failure message, message) emitted
  | Some (Ok (text, usage, emitted)) =>
      complete_attempt fuel w st (narrowed st) c channel text usage emitted
  end s = (s', es, r) →
  Step w candidates st (opened ++ es) r.
Proof.
  intros Hc Ho. unfold shown in *. destruct (run_adapter (aw_cancelled w) (aw_polls w)) as [deltas [res|]] eqn:E; simpl.
  2:{ intros [= <- <- <-]. rewrite app_nil_r. destruct (aw_cancelled w); [done|]. by eapply step_waiting. }
  assert (match res with
          | Ok (_, _, emitted) | Err (RunFailed _ emitted) =>
              aw_cancelled w = false ∧ emitted = negb (bool_decide (shown w = []))
          | Err RunCancelled => True
          end) as Hs.
  { unfold shown. rewrite E. unfold run_adapter in E. destruct (aw_cancelled w); [by simplify_eq|].
    apply run_loop_shown in E. by destruct res as [[[? ?] ?]|[]]. }
  destruct res as [[[text usage] emitted]|[|message emitted]].
  - destruct Hs as [Hca Hs]. rewrite Hca in Ho. by apply complete_attempt_step.
  - destruct (attempted_cost c) as [cost truth].
    intros [(err & -> & ->)|(s1 & row & es' & -> & [= <- <- <-])]%append_call_cases.
    + rewrite app_nil_r. by eapply step_not_closed.
    + eapply step_cancelled; [done|done|by apply attempt_closing_row].
  - destruct Hs as [Hca Hs]. rewrite Hca in Ho. by apply fail_attempt_step.
Qed.

Lemma send_cases {A} cancelled n c (k : unit → exec (L := L) A) s s' es r :
  and_then (if cancelled : bool then go tt else send n c) k s = (s', es, r) →
  ∃ sends es', sends = (if negb cancelled then [Sent n c] else []) ∧ es = sends ++ es' ∧ k tt s = (s', es', r).
Proof.
  unfold and_then. destruct cancelled; simpl; destruct (k tt s) as [[s1 es1] r1]; intros [= <- <- <-]; by eexists _, _.
Qed.

Lemma attempt_step fuel w candidates st s s' es r :
  attempt fuel w candidates st s = (s', es, r) → Step w candidates st es r.
Proof.
  unfold attempt. fold (narrowed st). fold (plan_of candidates st).
  intros [(err & -> & ->)|(s1 & row1 & es1 & -> & Hk)]%append_call_cases; [apply step_not_planned|]. revert Hk.
  destruct (mp_selected (plan_of candidates st)) as [c|] eqn:Hc.
  2:{ intros [= <- <- <-]. eapply step_no_route; [by eexists|done]. }
  intros [(err & -> & ->)|(s2 & row2 & es2 & -> & Hk)]%append_call_cases.
  { eapply step_not_attempted. by eexists. }
  assert (∀ invoked, opening st c invoked
    (Recorded (call_event (aw_envs w 0%nat) (narrowed st) (Some (mr_call_id (narrowed st))) "model-call-executor"
       RoutePlanned (planned_payload (narrowed st) (plan_of candidates st) (S (lp_attempts st)))) row1 ::
     Recorded (call_event (aw_envs w 1%nat) (narrowed st) (Some (mr_call_id (narrowed st))) "model-call-executor"
       RouteAttempted (attempted_payload c (S (lp_attempts st)))) row2 ::
     (if invoked then [Sent (lp_attempts st) c] else []))) as Ho.
  { intros invoked. eexists _, _, _, _, _. split; [by eexists|]. split; [by eexists|done]. }
  revert Hk. destruct (aw_resolve w c) as [channel|message].
  - intros (sends & es' & Hes & -> & Hk)%send_cases.
    apply (adapter_step fuel w candidates st c channel _ s2 s' es' r Hc (Ho _)) in Hk.
    revert Hk. rewrite Hes. by destruct (aw_cancelled w).
  - intros [(err & -> & ->)|(s3 & row3 & es3 & -> & [= <- <- <-])]%append_call_cases.
    + by apply (step_not_closed w candidates st c false _ _ _ Hc (Ho false)).
    + apply (step_failed w candidates st c false _ _ (FailAvailability, message) None CannotConfirm (lp_budget st)
        Hc (Ho false)); [by apply attempt_closing_row|done].
Qed.
(** ** All attempts *)

Inductive Steps (world : nat → AttemptWorld) (candidates : list ModelCallCandidate)
    : nat → Loop → list Effect → Ending → Prop :=
| steps_out st class message :
    Steps world candidates 0 st [] (Some (Err (AttemptsExhausted (lp_attempts st) class message)))
| steps_end more st es r :
    Step (world (lp_attempts st)) candidates st es (inl r) → Steps world candidates (S more) st es r
| steps_next more st es st' es' r :
    Step (world (lp_attempts st)) candidates st es (inr st') → Steps world candidates more st' es' r →
    Steps world candidates (S more) st (es ++ es') r.

Lemma attempts_loop_steps more fuel world candidates : ∀ st s s' es r,
  attempts_loop more fuel world candidates st s = (s', es, r) → Steps world candidates more st es (ending r).
Proof.
  induction more as [|more IH]; intros st s s' es r; simpl.
  { destruct (default _ _) as [class message]. intros [= <- <- <-]. apply steps_out. }
  unfold and_then. destruct (attempt _ _ _ _ _) as [[s1 es1] [e|st']] eqn:E.
  - intros [= <- <- <-]. apply attempt_step in E. by apply steps_end.
  - destruct (attempts_loop _ _ _ _ _ _) as [[s2 es2] r2] eqn:E2. intros [= <- <- <-].
    apply attempt_step in E. apply IH in E2. by eapply steps_next.
Qed.

(** *** The machine *)

Lemma opening_phases st c invoked es :
  opening st c invoked es →
  run_phases PhIdle es = Some (if invoked then PhInFlight (mt_provider (mc_tier c)) (mt_model_id (mc_tier c))
                               else PhAttempted (mt_provider (mc_tier c)) (mt_model_id (mc_tier c))).
Proof.
  intros (e1 & r1 & e2 & r2 & p1 & [env1 ->] & [env2 ->] & ->). simpl.
  destruct invoked; simpl; [|done]. by rewrite bool_decide_eq_true_2.
Qed.

Lemma closing_phases st c invoked es ty eff :
  opening st c invoked es → closing st c ty eff → ty = RouteFailed ∨ (ty = RouteCompleted ∧ invoked = true) →
  run_phases PhIdle (es ++ [eff]) =
    Some (if bool_decide (ty = RouteFailed) then PhIdle
          else PhClosed (mt_provider (mc_tier c)) (mt_model_id (mc_tier c))).
Proof.
  intros Ho (p & e & row & [env ->] & -> & Hp & Hm) Hty. rewrite run_phases_app, (opening_phases _ _ _ _ Ho).
  assert (row_names (call_event env (narrowed st) (Some (mr_call_id (narrowed st))) "model-call-executor" ty p) =
    Some (mt_provider (mc_tier c), mt_model_id (mc_tier c))) as Hn.
  { unfold row_names. cbn [payload call_event]. by rewrite Hp, Hm. }
  simpl. destruct invoked; cbn [phase_step]; rewrite Hn.
  - rewrite bool_decide_eq_true_2 by done. by destruct Hty as [->|[-> _]].
  - rewrite bool_decide_eq_true_2 by done. by destruct Hty as [->|[_ ?]].
Qed.

Lemma step_phases w candidates st es r :
  Step w candidates st es r →
  ∃ ph, run_phases PhIdle es = Some ph ∧ match r with inl r => ends_in ph r | inr _ => ph = PhIdle end.
Proof.
  assert (∀ e p row, routed (narrowed st) RoutePlanned p e → run_phases PhIdle [Recorded e row] = Some PhPlanned) as Hpl
    by by intros e p row [env ->].
  intros [phase err|e row p He _|e row p phase err He|c inv es' phase err _ Ho|c es' _ Ho|c inv es' eff _ Ho Hcl
    |c inv es' eff class message _ Ho Hcl|c inv es' eff failure cost truth budget _ Ho Hcl _
    |c es' eff result cost truth _ Ho Hcl Hp Hm _ _ _ _ _].
  - exists PhIdle. split; [done|]. by intros (? & ? & ?).
  - exists PhPlanned. split; [by eapply Hpl|done].
  - exists PhPlanned. split; [by eapply Hpl|]. by intros (? & ? & ?).
  - eexists. split; [by eapply opening_phases|]. destruct inv; by intros (? & ? & ?).
  - eexists. split; [by eapply opening_phases|]. by eexists _, _.
  - eexists. split; [by eapply closing_phases; [done..|left]|done].
  - eexists. split; [by eapply closing_phases; [done..|left]|done].
  - eexists. split; [by eapply closing_phases; [done..|left]|done].
  - eexists. split; [by eapply closing_phases; [done..|right]|]. simpl. by rewrite Hp, Hm.
Qed.

Lemma steps_phases world candidates more st es r :
  Steps world candidates more st es r → ∃ ph, run_phases PhIdle es = Some ph ∧ ends_in ph r.
Proof.
  induction 1 as [st class message|more st es r Hs|more st es st' es' r Hs _ IH].
  - by exists PhIdle.
  - by apply step_phases in Hs.
  - apply step_phases in Hs as (ph & Hph & ->). destruct IH as (ph' & Hph' & Hend). exists ph'.
    split; [|done]. by rewrite run_phases_app, Hph.
Qed.

(** *** The sends *)

(** The messages sent, with the attempt each belongs to. *)
Definition sends (es : list Effect) : list (nat * ModelCallCandidate) :=
  omap (λ eff, match eff with Sent n c => Some (n, c) | Recorded _ _ => None end) es.

Lemma opening_sends st c invoked es :
  opening st c invoked es → sends es = if invoked then [(lp_attempts st, c)] else [].
Proof. intros (? & ? & ? & ? & ? & _ & _ & ->). by destruct invoked. Qed.

Lemma sends_app es es' : sends (es ++ es') = sends es ++ sends es'.
Proof. apply omap_app. Qed.

Lemma closing_sends st c ty eff : closing st c ty eff → sends [eff] = [].
Proof. by intros (? & ? & ? & _ & -> & _). Qed.

(** An attempt sends at most one message, to the candidate it planned for, and
    one that is followed by another attempt showed the user nothing. *)
Lemma step_sends w candidates st es r :
  Step w candidates st es r →
  (sends es = [] ∨ ∃ c, mp_selected (plan_of candidates st) = Some c ∧ sends es = [(lp_attempts st, c)]) ∧
  match r with
  | inl _ => True
  | inr st' =>
      (sends es ≠ [] → shown w = []) ∧
      ∃ c, mp_selected (plan_of candidates st) = Some c ∧ lp_attempts st' = S (lp_attempts st) ∧
        lp_request st' = exclude (qualified_model_identity c) (narrowed st)
  end.
Proof.
  assert (∀ c inv es', mp_selected (plan_of candidates st) = Some c → opening st c inv es' →
    sends es' = [] ∨ ∃ c, mp_selected (plan_of candidates st) = Some c ∧ sends es' = [(lp_attempts st, c)]) as Hop.
  { intros c [] es' Hc Ho%opening_sends; rewrite Ho; [right; by exists c|by left]. }
  intros [phase err|e row p He _|e row p phase err He|c inv es' phase err Hc Ho|c es' Hc Ho|c inv es' eff Hc Ho Hcl
    |c inv es' eff class message Hc Ho Hcl|c inv es' eff failure cost truth budget Hc Ho Hcl Hsh
    |c es' eff result cost truth Hc Ho Hcl _ _ _ _ _ _ _].
  1-3: split; [by left|done].
  1-2: split; [by eapply Hop|done].
  1-4: rewrite sends_app, (closing_sends _ _ _ _ Hcl), app_nil_r; split; [by eapply Hop|try done].
  split; [|by exists c]. rewrite (opening_sends _ _ _ _ Ho). destruct inv; [|done]. intros _. by apply Hsh.
Qed.

Lemma chosen_eligible candidates st c :
  mp_selected (plan_of candidates st) = Some c →
  valid_request (narrowed st) = true ∧ c ∈ candidates ∧ permitted (narrowed st) c.
Proof.
  unfold plan_of. intros Hc. pose proof (chosen_is_eligible _ _ _ _ Hc) as (Hin & _ & Hok).
  destruct (plan_cases (narrowed st) candidates default_policy) as [((Hv & _) & _)|(_ & Hn & _)]; [done|].
  by rewrite Hn in Hc.
Qed.

Lemma valid_maximum request m :
  valid_request request = true → mr_maximum_marginal_cost_usd request = Some m → f64_is_nan m = false.
Proof.
  unfold valid_request. rewrite !andb_true_iff. intros [_ Hm] Heq. rewrite Heq in Hm. by apply valid_cost_not_nan.
Qed.

(** The sends of an execution from [st]: each to a candidate that the first
    plan's request permits, to a model not excluded before, at an attempt of
    its own, the earlier ones having shown nothing. *)
Definition sends_ok (world : nat → AttemptWorld) (candidates : list ModelCallCandidate) (st : Loop)
    (l : list (nat * ModelCallCandidate)) : Prop :=
  (∀ n c, (n, c) ∈ l → (lp_attempts st ≤ n)%nat ∧ c ∈ candidates ∧ permitted (narrowed st) c) ∧
  NoDup (map (λ nc, qualified_model_identity nc.2) l) ∧
  (∀ n c n' c', (n, c) ∈ l → (n', c') ∈ l → (n < n')%nat → shown (world n) = []).

Lemma identity_matches c : model_matches c (qualified_model_identity c) = true.
Proof. unfold model_matches, qualified_model_identity. by rewrite !orb_true_iff, !bool_decide_eq_true; right. Qed.

(** The request after a failure is tighter. *)
Lemma failure_tightens st st' c :
  lp_request st' = exclude (qualified_model_identity c) (narrowed st) → tighter (narrowed st) (narrowed st').
Proof.
  intros Hr. etrans; [apply (exclude_tighter (qualified_model_identity c))|]. rewrite <- Hr.
  apply apply_remaining_budget_tighter.
Qed.

Lemma failure_excludes st st' c c' :
  lp_request st' = exclude (qualified_model_identity c) (narrowed st) → permitted (narrowed st') c' →
  qualified_model_identity c' ≠ qualified_model_identity c.
Proof.
  intros Hr Hp Heq. assert (model_matches c' (qualified_model_identity c) = false) as Hm.
  { apply (pm_excluded _ _ Hp). unfold narrowed. apply (tg_excluded _ _ (apply_remaining_budget_tighter _ _)).
    rewrite Hr. simpl. set_solver. }
  rewrite <- Heq, identity_matches in Hm. done.
Qed.

Lemma steps_sends world candidates more st es r :
  Steps world candidates more st es r →
  (length (sends es) ≤ more)%nat ∧ sends_ok world candidates st (sends es).
Proof.
  assert (∀ st c, mp_selected (plan_of candidates st) = Some c → sends_ok world candidates st [(lp_attempts st, c)]) as H1.
  { intros st0 c (Hv & Hin & Hp)%chosen_eligible. split; [|split].
    - intros n c' [= -> ->]%list_elem_of_singleton. done.
    - apply NoDup_singleton.
    - intros n c1 n' c2 [= -> ->]%list_elem_of_singleton [= -> ->]%list_elem_of_singleton. lia. }
  assert (∀ st, sends_ok world candidates st []) as H0' by (intros st0; split; [|split]; [set_solver|constructor|set_solver]).
  induction 1 as [st class message|more st es r Hs|more st es st' es' r Hs _ [IHn IH]].
  - split; [simpl; lia|done].
  - apply step_sends in Hs as [[->|(c & Hc & ->)] _]; split; simpl; try lia; [done|by apply H1].
  - apply step_sends in Hs as [Hse [Hsh (c & Hc & Hn & Hr)]]. rewrite sends_app, length_app.
    destruct (chosen_eligible _ _ _ Hc) as (Hv & Hin & Hp). pose proof (failure_tightens _ _ _ Hr) as Ht.
    destruct IH as (IHp & IHnd & IHs).
    assert (∀ n c', (n, c') ∈ sends es' → (lp_attempts st < n)%nat ∧ c' ∈ candidates ∧ permitted (narrowed st) c' ∧
      qualified_model_identity c' ≠ qualified_model_identity c) as Hrest.
    { intros n c' (Hle & Hin' & Hp')%IHp. split; [lia|]. split; [done|]. split; [|by eapply failure_excludes].
      eapply permitted_tighter; [exact Ht| |exact Hp']. intros m0 Hm0. by apply (valid_maximum (narrowed st)). }
    destruct Hse as [->|(c0 & Hc0 & Hse)]; simpl.
    { split; [lia|]. split; [|done]. intros n c' (? & ? & ? & _)%Hrest. split; [lia|done]. }
    rewrite Hc in Hc0. injection Hc0 as <-. rewrite Hse in Hsh |- *. simpl. split; [lia|]. split; [|split].
    + intros n c' [[= -> ->]|(? & ? & ? & _)%Hrest]%elem_of_cons; split; try done; lia.
    + simpl. apply NoDup_cons. split; [|done]. intros ([n c'] & Heq & Hin')%list_elem_of_In%in_map_iff. simpl in Heq.
      apply list_elem_of_In in Hin'. apply Hrest in Hin'. naive_solver.
    + intros n c1 n' c2 [[= -> ->]|Hi1]%elem_of_cons [[= -> ->]|Hi2]%elem_of_cons Hlt; try lia.
      * by apply Hsh.
      * apply Hrest in Hi1. lia.
      * by eapply IHs.
Qed.

(** *** The books *)

Definition record_identity (r : ModelCallAttemptRecord) : string := ar_provider r +:+ "/" +:+ ar_model_id r.

(** An attempt that reached its provider is charged. *)
Definition charge_record (acc : Z * option CostTruth) (r : ModelCallAttemptRecord) : Z * option CostTruth :=
  if ar_provider_invoked r then add_cumulative_cost acc.1 acc.2 (ar_cost_usd r) (ar_cost_truth r) else acc.

Definition charges (records : list ModelCallAttemptRecord) : Z * option CostTruth :=
  foldl charge_record (0, None) records.

Definition balanced (st : Loop) : Prop :=
  lp_attempts st = length (lp_records st) ∧ lp_failed_models st = map record_identity (lp_records st) ∧
  (lp_cost st, lp_truth st) = charges (lp_records st) ∧ Forall (λ r, ar_outcome r = AttemptFailed) (lp_records st).

(** The books of a result: one record per attempt, the failed ones first. *)
Definition books (result : ModelCallResult) : Prop :=
  ∃ failed last, cr_attempt_records result = failed ++ [last] ∧
    Forall (λ r, ar_outcome r = AttemptFailed) failed ∧
    ar_outcome last = AttemptCompleted ∧ ar_provider_invoked last = true ∧
    ar_provider last = cr_provider result ∧ ar_model_id last = cr_model_id result ∧
    cr_attempts result = length (cr_attempt_records result) ∧
    cr_failed_models result = map record_identity failed ∧
    (cr_cost_usd result, Some (cr_cost_truth result)) = charges (cr_attempt_records result).

Lemma step_books w candidates st es r :
  balanced st → Step w candidates st es r →
  match r with
  | inr st' => balanced st'
  | inl (Some (Ok result)) =>
      books result ∧ ∃ es' e row, es = es' ++ [Recorded e row] ∧ event_type e = RouteCompleted ∧
        cr_route_receipt_ref result = event_id (ce_event row)
  | inl _ => True
  end.
Proof.
  intros (Ha & Hf & Hc & Ho) Hs. destruct Hs as [| | | | | | |c inv es eff failure cost truth budget _ _ _ _
    |c es eff result cost truth _ _ Hcl Hp Hm Hn Hfm Hr Hcost Hrec]; try done.
  - unfold balanced, after_failure. cbn [lp_attempts lp_records lp_failed_models lp_cost lp_truth].
    rewrite length_app, map_app, Ha, Hf. split; [simpl; lia|]. split; [done|]. split; [|by apply Forall_app; split; [|repeat constructor]].
    unfold charges. rewrite foldl_app. fold (charges (lp_records st)). rewrite <- Hc. simpl. unfold charge_record. simpl.
    by destruct inv; [destruct (add_cumulative_cost _ _ _ _)|].
  - split.
    + eexists (lp_records st), _. split; [exact Hrec|]. simpl. rewrite Hrec, length_app, Hn, Ha. simpl.
      split_and!; try done; [lia|by rewrite Hfm|].
      unfold charges. rewrite foldl_app. fold (charges (lp_records st)). rewrite <- Hc, Hcost. done.
    + destruct Hr as (e & row & -> & Hr). destruct Hcl as (p & e' & row' & [env ->] & [= -> ->] & _).
      by eexists es, _, row'.
Qed.

Lemma steps_books world candidates more st es r :
  Steps world candidates more st es r → balanced st →
  match r with
  | Some (Ok result) =>
      books result ∧ ∃ es' e row, es = es' ++ [Recorded e row] ∧ event_type e = RouteCompleted ∧
        cr_route_receipt_ref result = event_id (ce_event row)
  | _ => True
  end.
Proof.
  induction 1 as [st class message|more st es r Hs|more st es st' es' r Hs _ IH]; intros Hb; [done| |].
  - by apply (step_books _ _ _ _ _ Hb) in Hs.
  - apply (step_books _ _ _ _ _ Hb) in Hs. specialize (IH Hs). destruct r as [[result|e]|]; [|done|done].
    destruct IH as (Hbk & es2 & e & row & -> & ?). split; [done|]. exists (es ++ es2), e, row.
    by rewrite app_assoc.
Qed.

(** ** Executions *)

(** An execution stops before its first attempt, or is a run of attempts. *)
Lemma execute_cases fuel world execution candidates s s' es r :
  execute fuel world execution candidates s = (s', es, r) →
  (es = [] ∧ ∃ e, ending r = Some (Err e) ∧
     match e with MaxAttemptsZero | InvalidBudget _ | CallCancelled | Planning _ => True | _ => False end) ∨
  ∃ cs, candidates = Ok cs ∧ invalid_budget (mx_remaining_budget_usd execution) = false ∧
    Steps world cs (Nat.min (mx_max_attempts execution) MAX_ATTEMPTS)
      (mkLoop (mx_request execution) 0%nat (mx_remaining_budget_usd execution) None [] 0 None []) es (ending r).
Proof.
  unfold execute. case_bool_decide.
  { intros [= <- <- <-]. left. split; [done|]. by eexists. }
  destruct (invalid_budget _); [intros [= <- <- <-]; left; split; [done|]; by eexists|].
  destruct (mx_cancelled _); [intros [= <- <- <-]; left; split; [done|]; by eexists|].
  destruct candidates as [cs|e]; [|intros [= <- <- <-]; left; split; [done|]; by eexists].
  intros Hl%attempts_loop_steps. right. by exists cs.
Qed.

(** C9.  An execution keeps its bounds.  Whatever the providers answer, it sends
    at most as many messages as it was allowed, and never more than three; every
    message goes to a candidate that the request permits under its ceiling and
    its budget, so never against its privacy class; no model is asked twice; the
    known cost of each is within the budget; and a message is followed by
    another only if the user was shown nothing of its answer. *)
Theorem execution_keeps_its_bounds (fuel : nat) (world : nat → AttemptWorld) (execution : ModelCallExecution)
    (candidates : list ModelCallCandidate) (s : Service L) :
  let sent := sends (execute fuel world execution (Ok candidates) s).1.2 in
  (length sent ≤ Nat.min (mx_max_attempts execution) 3)%nat ∧
  NoDup (map (λ nc, qualified_model_identity nc.2) sent) ∧
  (∀ n c, (n, c) ∈ sent →
     c ∈ candidates ∧
     permitted (apply_remaining_budget (mx_remaining_budget_usd execution) (mx_request execution)) c ∧
     ∀ budget, mx_remaining_budget_usd execution = Some budget →
       ∃ cost, mc_marginal_cost_usd c = Some cost ∧ f64_leb cost budget = true) ∧
  (∀ n c n' c', (n, c) ∈ sent → (n', c') ∈ sent → (n < n')%nat → shown (world n) = []).
Proof.
  destruct (execute _ _ _ _ _) as [[s' es] r] eqn:E. simpl.
  apply execute_cases in E as [[-> _]|(cs & [= <-] & Hb & Hs)].
  { simpl. split; [lia|]. split; [constructor|]. set_solver. }
  apply steps_sends in Hs as (Hlen & Hok & Hnd & Hsh). split; [done|]. split; [done|]. split; [|done].
  intros n c Hin. destruct (Hok n c Hin) as (_ & Hc & Hp). split; [done|]. split; [exact Hp|].
  intros budget Hbudget. unfold invalid_budget in Hb. rewrite Hbudget in Hb.
  apply orb_false_iff in Hb as [Hf%negb_false_iff _]. apply f64_finite_not_nan in Hf.
  pose proof (pm_budget _ _ Hp) as Hw. unfold narrowed in Hw. simpl in Hw. rewrite Hbudget in Hw.
  simpl in Hw. destruct (Hw _ eq_refl) as (cost & Hcost & Hle). exists cost. split; [done|].
  eapply f64_leb_trans; [exact Hle|]. by eapply (budget_narrows (Some budget) (mx_request execution)).
Qed.

(**  Nothing is sent that is not on record.  The events and the messages of
    an execution follow the machine of an attempt: a plan is recorded, then the
    attempt, then its message is sent, then its failure or its completion is
    recorded, under the same provider and model; only a failure is followed by
    another plan.  How an execution ends goes with where the machine stands: a
    result names the provider of the completion that closes the record, and an
    execution that waits has exactly its last message unanswered. *)
Theorem execution_follows_its_machine (fuel : nat) (world : nat → AttemptWorld) (execution : ModelCallExecution)
    (candidates : result string (list ModelCallCandidate)) (s : Service L) :
  let '(_, es, r) := execute fuel world execution candidates s in
  ∃ ph, run_phases PhIdle es = Some ph ∧ ends_in ph (ending r).
Proof.
  destruct (execute _ _ _ _ _) as [[s' es] r] eqn:E.
  apply execute_cases in E as [(-> & e & -> & He)|(cs & -> & _ & Hs)]; [|by eapply steps_phases].
  exists PhIdle. split; [done|]. by destruct e.
Qed.

(**  The books of a call balance.  A result has one record per attempt, all
    failed but the last, and its cost and the truth of it are the charges of
    the attempts that reached a provider, in order; its failed models are those
    of the failed records; and its receipt is the completion row that ends the
    record. *)
Theorem call_books_balance (fuel : nat) (world : nat → AttemptWorld) (execution : ModelCallExecution)
    (candidates : result string (list ModelCallCandidate)) (s : Service L) :
  match execute fuel world execution candidates s with
  | (_, es, inl (Some (Ok result))) =>
      books result ∧ ∃ es' e row, es = es' ++ [Recorded e row] ∧ event_type e = RouteCompleted ∧
        cr_route_receipt_ref result = event_id (ce_event row)
  | _ => True
  end.
Proof.
  destruct (execute _ _ _ _ _) as [[s' es] [r|[]]] eqn:E.
  apply execute_cases in E as [(-> & e & Hr & He)|(cs & -> & _ & Hs)]; simpl in *; [by rewrite Hr|].
  apply steps_books in Hs; [done|]. split_and!; [done..|constructor].
Qed.

End steps.

(** ** A turn around its execution (apps/heiwa_shell/src/model_calls.rs)

    [execute_canonical_turn] opens the assistant's part of a turn and closes the
    turn; [ExecutorLoopCaller] submits the turn first, and refuses to execute one
    that was submitted before. *)

(** ** What closes a turn *)

Definition closes_turn (e : OperatorEvent) : bool :=
  bool_decide (event_type e = TurnCompleted) || bool_decide (event_type e = TurnInterrupted).

(** The events an execution recorded. *)
Definition recorded (es : list Effect) : list OperatorEvent :=
  omap (λ eff, match eff with Recorded e _ => Some e | Sent _ _ => None end) es.

Definition closers (es : list Effect) : list OperatorEvent := List.filter closes_turn (recorded es).

Lemma closers_app es es' : closers (es ++ es') = closers es ++ closers es'.
Proof. unfold closers, recorded. by rewrite omap_app, List.filter_app. Qed.

Lemma closers_cons e row es :
  closers (Recorded e row :: es) = (if closes_turn e then [e] else []) ++ closers es.
Proof. unfold closers, recorded. simpl. by destruct (closes_turn e). Qed.

(** The machine of an execution records no event that closes a turn. *)
Lemma phases_close_nothing es : ∀ ph ph', run_phases ph es = Some ph' → closers es = [].
Proof.
  induction es as [|eff es IH]; intros ph ph'; simpl; [done|].
  destruct (phase_step ph eff) as [ph1|] eqn:E; [|done]. simpl. intros Hes%IH.
  change (eff :: es) with ([eff] ++ es). rewrite closers_app, Hes, app_nil_r.
  destruct eff as [e row|n c]; [|done]. unfold closers, recorded. simpl. unfold closes_turn.
  revert E. destruct ph; simpl; repeat case_bool_decide; try done; intros _; simplify_eq/=; congruence.
Qed.

Section turn.
Context `{EventLog L, JsonText}.

Definition TURN_PHASES : list string :=
  ["assistant_started"; "assistant_completed"; "turn_completed"; "turn_interrupted"].

(** An execution's effects follow the machine. *)
Lemma execute_phases fuel world execution candidates (s s' : Service L) es r :
  execute fuel world execution candidates s = (s', es, r) → closers es = [].
Proof.
  intros [[-> _]|(cs & -> & _ & (ph & Hph & _)%steps_phases)]%execute_cases; [done|].
  by eapply phases_close_nothing.
Qed.

(** What an execution sends, whatever its candidates came from. *)
Lemma execute_sends fuel world execution candidates (s s' : Service L) es r :
  execute fuel world execution candidates s = (s', es, r) →
  (length (sends es) ≤ Nat.min (mx_max_attempts execution) 3)%nat ∧
  ∀ n c, (n, c) ∈ sends es → ∃ cs, candidates = Ok cs ∧ c ∈ cs ∧
    permitted (apply_remaining_budget (mx_remaining_budget_usd execution) (mx_request execution)) c.
Proof.
  intros [[-> _]|(cs & -> & _ & Hs)]%execute_cases; [split; [simpl; lia|set_solver]|].
  apply steps_sends in Hs as (Hlen & Hok & _). split; [done|]. intros n c Hin.
  destruct (Hok n c Hin) as (_ & Hc & Hp). by exists cs.
Qed.

(** The turn's own events send nothing. *)
Lemma turn_sends fuel world turn_envs error_text execution candidates (s s' : Service L) es r :
  execute_canonical_turn fuel world turn_envs error_text execution candidates s = (s', es, r) →
  sends es = [] ∨ ∃ s1 s2 es' r', execute fuel world execution candidates s1 = (s2, es', r') ∧ sends es = sends es'.
Proof.
  unfold execute_canonical_turn.
  intros [(err & -> & _)|(s1 & row & es1 & -> & Hk)]%append_call_cases; [by left|]. right. revert Hk.
  destruct (execute _ _ _ _ s1) as [[s2 es2] r2] eqn:E2.
  destruct (match ending r2 with Some _ => _ | None => _ end) as [[s3 es3] r3] eqn:E3. intros [= _ <- _].
  exists s1, s2, es2, r2. split; [done|]. cbn [sends omap list_omap]. rewrite sends_app.
  enough (sends es3 = []) as -> by apply app_nil_r. revert E3.
  destruct (ending r2) as [[result|error]|]; [| |by intros [= _ <- _]].
  - intros [(? & -> & _)|(? & ? & ? & -> & E3)]%append_call_cases; [done|].
    by apply append_call_cases in E3 as [(? & -> & _)|(? & ? & ? & -> & [= _ <- _])].
  - by intros [(? & -> & _)|(? & ? & ? & -> & [= _ <- _])]%append_call_cases.
Qed.

(** *** What an execution leaves *)

(** A step of an execution only appends, and keeps the service sound. *)
Definition kept `{!EventLogLaws L} {A} (m : exec (L := L) A) : Prop :=
  ∀ s, service_coherent s → service_coherent (m s).1.1 ∧ extends s (m s).1.1.

Lemma kept_and_then `{!EventLogLaws L} {A B} (m : exec (L := L) A) (k : A → exec (L := L) B) :
  kept m → (∀ a, kept (k a)) → kept (and_then m k).
Proof.
  intros Hm Hk s Hs. unfold and_then. specialize (Hm s Hs).
  destruct (m s) as [[s1 es] [r|a]]; simpl in *; [done|]. destruct Hm as [Hc He].
  specialize (Hk a s1 Hc). destruct (k a s1) as [[s2 es'] r]. simpl in *. destruct Hk. split; [done|by trans s1].
Qed.

Lemma kept_still `{!EventLogLaws L} {A} es (r : Ending + A) : kept (λ s, (s, es, r)).
Proof. intros s Hs. by split. Qed.

Lemma kept_append `{!EventLogLaws L} fuel env request call actor ty phase p :
  kept (append_call_event fuel env request call actor ty phase p).
Proof.
  intros s Hs. unfold append_call_event.
  pose proof (append_only_append_event fuel env (call_event env request call actor ty p) s Hs) as Ha.
  by destruct (append_event _ _ _ s) as [s' [row|e]].
Qed.

Lemma kept_fail `{!EventLogLaws L} fuel w st request c channel origin failure emitted :
  kept (fail_attempt fuel w st request c channel origin failure emitted).
Proof.
  unfold fail_attempt. destruct (attempted_cost c). apply kept_and_then; [apply kept_append|].
  intros _. destruct emitted; apply kept_still.
Qed.

Lemma kept_attempt `{!EventLogLaws L} fuel w candidates st : kept (attempt fuel w candidates st).
Proof.
  unfold attempt. apply kept_and_then; [apply kept_append|]. intros _.
  destruct (mp_selected _) as [c|]; [|apply kept_still]. apply kept_and_then; [apply kept_append|]. intros _.
  destruct (aw_resolve w c) as [channel|message]; [|apply kept_and_then; [apply kept_append|intros _; apply kept_still]].
  apply kept_and_then; [destruct (aw_cancelled w); apply kept_still|]. intros _.
  destruct (run_adapter _ _).2 as [[[[text usage] emitted]|[|message emitted]]|]; [| |apply kept_fail|apply kept_still].
  - unfold complete_attempt. destruct (completed_cost _ _) as [[cost truth]|message]; [|apply kept_fail].
    destruct (add_cumulative_cost _ _ _ _). apply kept_and_then; [apply kept_append|intros row; apply kept_still].
  - destruct (attempted_cost c). apply kept_and_then; [apply kept_append|intros _; apply kept_still].
Qed.

Lemma kept_execute `{!EventLogLaws L} fuel world execution candidates : kept (execute fuel world execution candidates).
Proof.
  unfold execute. repeat case_match; try apply kept_still.
  generalize (mkLoop (mx_request execution) 0%nat (mx_remaining_budget_usd execution) None [] 0 None []).
  induction (Nat.min _ _) as [|more IH]; intros st; simpl.
  - destruct (default _ _). apply kept_still.
  - apply kept_and_then; [apply kept_attempt|apply IH].
Qed.

Lemma kept_turn `{!EventLogLaws L} fuel world turn_envs error_text execution candidates :
  kept (execute_canonical_turn fuel world turn_envs error_text execution candidates).
Proof.
  unfold execute_canonical_turn. apply kept_and_then; [apply kept_append|]. intros _ s Hs.
  pose proof (kept_execute fuel world execution candidates s Hs) as Hk.
  destruct (execute _ _ _ _ s) as [[s1 es] r]. destruct Hk as [Hc He]. simpl in *.
  assert (∀ m : exec (L := L) Empty_set, kept m → service_coherent (m s1).1.1 ∧ extends s (m s1).1.1) as Hm.
  { intros m Hm. destruct (Hm s1 Hc). split; [done|by trans s1]. }
  destruct (ending r) as [[result|error]|].
  - match goal with |- context [and_then ?m ?k s1] => specialize (Hm (and_then m k)) end.
    destruct (and_then _ _ s1) as [[s2 es'] r']. apply Hm. apply kept_and_then; [apply kept_append|].
    intros _. apply kept_and_then; [apply kept_append|intros _; apply kept_still].
  - match goal with |- context [and_then ?m ?k s1] => specialize (Hm (and_then m k)) end.
    destruct (and_then _ _ s1) as [[s2 es'] r']. apply Hm. apply kept_and_then; [apply kept_append|].
    intros _. apply kept_still.
  - by apply (Hm waiting), kept_still.
Qed.

(** An event of the turn an execution is for: on its thread, under its turn. *)
Definition of_the_turn (execution : ModelCallExecution) (e : OperatorEvent) : Prop :=
  thread_id e = mr_thread_id (mx_request execution) ∧
  turn_id e = Some (mr_turn_id (mx_request execution)).

(** C33.  A turn is closed exactly once, and as it ended.  When an execution
    around a turn ends with a result, exactly one event closes a turn, that turn
    on its thread, and says it completed; when it ends with an error, exactly one
    says that turn was interrupted, by the operator exactly if the call was
    cancelled; otherwise nothing closes it or any other: the provider is still
    being waited for, or the log refused one of the turn's own events, which is
    the error then. *)
Theorem a_turn_is_closed_once (fuel : nat) (world : nat → AttemptWorld) (turn_envs : nat → Env)
    (error_text : ModelCallError → string) (execution : ModelCallExecution)
    (candidates : result string (list ModelCallCandidate)) (s : Service L) :
  let '(_, es, r) := execute_canonical_turn fuel world turn_envs error_text execution candidates s in
  match ending r with
  | None => closers es = []
  | Some (Ok _) => ∃ e, closers es = [e] ∧ of_the_turn execution e ∧ event_type e = TurnCompleted
  | Some (Err error) =>
      (∃ e, closers es = [e] ∧ of_the_turn execution e ∧ event_type e = TurnInterrupted ∧
         (get_str (payload e) "reason" = Some "OPERATOR_CANCELLED" ↔ error = CallCancelled)) ∨
      (closers es = [] ∧ ∃ phase cause, error = EvidenceAppend phase cause ∧ phase ∈ TURN_PHASES)
  end.
Proof.
  destruct (execute_canonical_turn _ _ _ _ _ _ s) as [[s' es] r] eqn:E. unfold execute_canonical_turn in E.
  apply append_call_cases in E as [(err & -> & ->)|(s1 & row & es1 & -> & Hk)].
  { simpl. right. split; [done|]. exists "assistant_started", err. split; [done|]. by apply (bool_decide_unpack _). }
  destruct (execute _ _ _ _ s1) as [[s2 es2] r2] eqn:E2. pose proof (execute_phases _ _ _ _ _ _ _ _ E2) as Hc2.
  destruct (ending r2) as [[result|error]|] eqn:Er2; [revert Hk|revert Hk|].
  - destruct (and_then _ _ s2) as [[s3 es3] r3] eqn:E3. intros [= <- <- <-].
    rewrite closers_cons, closers_app, Hc2. simpl.
    apply append_call_cases in E3 as [(err & -> & ->)|(s4 & row4 & es4 & -> & E4)].
    { right. split; [done|]. eexists _, _. split; [done|]. by apply (bool_decide_unpack _). }
    apply append_call_cases in E4 as [(err & -> & ->)|(s5 & row5 & es5 & -> & [= <- <- <-])].
    { right. split; [done|]. eexists _, _. split; [done|]. by apply (bool_decide_unpack _). }
    simpl. by eexists.
  - destruct (and_then _ _ s2) as [[s3 es3] r3] eqn:E3. intros [= <- <- <-].
    rewrite closers_cons, closers_app, Hc2. simpl.
    apply append_call_cases in E3 as [(err & -> & ->)|(s4 & row4 & es4 & -> & [= <- <- <-])].
    { right. split; [done|]. eexists _, _. split; [done|]. by apply (bool_decide_unpack _). }
    simpl. left. eexists. split_and!; [done|done|done|]. by destruct error.
  - revert Hk. intros [= <- <- <-]. rewrite app_nil_r, closers_cons, Hc2. done.
Qed.

End turn.
