(* ===== verification/Fanout.v ===== *)
(** * Recursive fan-out (crates/heiwa_loop/src/fanout.rs)

    Splitting a workload into child tasks under bounds of depth, number and
    size, and putting the children's receipts together again. *)

From stdpp Require Import base gmap sets strings numbers pretty list.
From Stdlib Require Import Ascii SpecFloat.
From S2P Require Import Prelude Sensitive.

(** ** Data *)

Inductive RecursiveHarnessStrategy : Type := Inline | DirectTaskCalls | SupervisedPlan.

Record RecursiveHarnessEntry : Type := mkEntry {
  entry_id : string;
  entry_prompt : string;
  entry_estimated_tokens : Z;
}.

(** [max_depth] is a u8; the others are usize. *)
Record RecursiveHarnessConstraints : Type := mkConstraints {
  max_depth : Z;
  small_batch_threshold : nat;
  max_children : nat;
  max_entries_per_child : nat;
  output_root : string;
}.

Definition default_constraints : RecursiveHarnessConstraints :=
  mkConstraints 3 5 128 25 "receipts/recursive-harness".

Record ChildHarnessTask : Type := mkTask {
  ct_task_id : string;
  ct_parent_task_id : string;
  ct_depth : Z;
  ct_entry_ids : list string;
  ct_instruction : string;
  ct_output_receipt_path : string;
  ct_lease_budget_share : spec_float;
}.

Record RecursiveHarnessPlan : Type := mkPlan {
  hp_parent_task_id : string;
  hp_depth : Z;
  hp_strategy : RecursiveHarnessStrategy;
  hp_child_tasks : list ChildHarnessTask;
  hp_aggregate_receipt_path : string;
  hp_reason : string;
}.

Inductive ChildHarnessStatus : Type := Succeeded | ChildFailed.

#[export] Instance child_status_eq_dec : EqDecision ChildHarnessStatus.
Proof. solve_decision. Defined.

Record ChildHarnessReceipt : Type := mkReceipt {
  cr_task_id : string;
  cr_parent_task_id : string;
  cr_depth : Z;
  cr_entry_ids : list string;
  cr_status : ChildHarnessStatus;
  cr_output_summary : string;
  cr_source_spans : list string;
  cr_error : option string;
}.

Record AggregatedHarnessReceipt : Type := mkAggregate {
  ag_parent_task_id : string;
  ag_depth : Z;
  ag_status : ChildHarnessStatus;
  ag_total_children : nat;
  ag_succeeded_children : nat;
  ag_failed_children : nat;
  ag_total_entries : nat;
  ag_aggregate_receipt_path : string;
  ag_child_receipts : list ChildHarnessReceipt;
}.

(** ** Aggregation *)

Inductive AggregateError : Type :=
| UnexpectedReceipt (task_id : string)
| WrongParent (task_id parent expected : string)
| DuplicateReceipt
| MissingReceipt (task_id : string).

Fixpoint collect_receipts (plan : RecursiveHarnessPlan) (expected_ids : gset string)
    (receipts : list ChildHarnessReceipt) (by_task_id : gmap string ChildHarnessReceipt)
    : result AggregateError (gmap string ChildHarnessReceipt) :=
  match receipts with
  | [] => Ok by_task_id
  | receipt :: rest =>
      if negb (bool_decide (cr_task_id receipt ∈ expected_ids)) then Err (UnexpectedReceipt (cr_task_id receipt))
      else if negb (bool_decide (cr_parent_task_id receipt = hp_parent_task_id plan))
      then Err (WrongParent (cr_task_id receipt) (cr_parent_task_id receipt) (hp_parent_task_id plan))
      else if bool_decide (is_Some (by_task_id !! cr_task_id receipt)) then Err DuplicateReceipt
      else collect_receipts plan expected_ids rest (<[cr_task_id receipt := receipt]> by_task_id)
  end.

Fixpoint in_plan_order (tasks : list ChildHarnessTask) (by_task_id : gmap string ChildHarnessReceipt)
    : result AggregateError (list ChildHarnessReceipt) :=
  match tasks with
  | [] => Ok []
  | task :: rest =>
      receipt ← ok_or (MissingReceipt (ct_task_id task)) (by_task_id !! ct_task_id task);
      ordered ← in_plan_order rest (delete (ct_task_id task) by_task_id);
      Ok (receipt :: ordered)
  end.

Definition count_status (s : ChildHarnessStatus) (l : list ChildHarnessReceipt) : nat :=
  length (filter (λ r, cr_status r = s) l).

Definition total_entries (l : list ChildHarnessReceipt) : nat :=
  sum_list (map (λ r, length (cr_entry_ids r)) l).

Definition aggregate_child_harness_receipts (plan : RecursiveHarnessPlan) (receipts : list ChildHarnessReceipt)
    : result AggregateError AggregatedHarnessReceipt :=
  let expected_ids := list_to_set (map ct_task_id (hp_child_tasks plan)) in
  by_task_id ← collect_receipts plan expected_ids receipts ∅;
  ordered ← in_plan_order (hp_child_tasks plan) by_task_id;
  let failed := count_status ChildFailed ordered in
  Ok (mkAggregate (hp_parent_task_id plan) (hp_depth plan)
    (if bool_decide (0 < failed) then ChildFailed else Succeeded)
    (length ordered) (count_status Succeeded ordered) failed (total_entries ordered)
    (hp_aggregate_receipt_path plan) ordered).

(** ** Planning *)

Inductive PlanError : Type :=
| ParentRequired
| NoEntries
| ChunkBudget (needed max : nat)
| ChildBudget (needed max : nat).

(** The characters of the segment: each has one byte that is no continuation
    byte, and the ones kept are ASCII. *)
Definition segment_char (a : ascii) : ascii :=
  if is_ascii_alphanumeric a || bool_decide (a = "-"%char) || bool_decide (a = "_"%char) then a else "_"%char.

Definition sanitize_segment (input : string) : string :=
  let out := map segment_char (take 80 (filter (λ a, is_continuation a = false) (as_bytes input))) in
  if bool_decide (out = []) then "task" else String.string_of_list_ascii out.

Definition normalize_constraints (c : RecursiveHarnessConstraints) : RecursiveHarnessConstraints :=
  mkConstraints (Z.max (max_depth c) 1) (Nat.max (small_batch_threshold c) 1) (Nat.max (max_children c) 1)
    (Nat.max (max_entries_per_child c) 1)
    (if is_blank (output_root c) then output_root default_constraints else output_root c).

Definition child_instruction (parent_task_id : string) (depth : Z) (entry_ids : list string) : string :=
  "Process " +:+ pretty (length entry_ids) +:+ " entries for parent task " +:+ parent_task_id +:+
  " at recursive depth " +:+ pretty depth +:+
  ". Return a structured JSON receipt with entry_id results, source spans, confidence, and errors. Do not mutate outside the granted child lease.".

(** [slice::chunks]; a chunk takes an element at least, so the length is fuel
    enough. *)
Fixpoint chunks_fuel {A} (fuel n : nat) (l : list A) : list (list A) :=
  match fuel, l with
  | _, [] | O, _ => []
  | S fuel', _ => take n l :: chunks_fuel fuel' n (drop n l)
  end.

Definition chunks {A} (n : nat) (l : list A) : list (list A) := chunks_fuel (length l) n l.

(** [{:04}] *)
Definition pad4 (n : nat) : string :=
  let s := pretty n in String.string_of_list_ascii (replicate (4 - String.length s) "0"%char) +:+ s.

(** [1.0 / n as f64] *)
Definition f64_of_nat (n : nat) : spec_float := binary_normalize 53 1024 (Z.of_nat n) 0 false.
Definition budget_share (n : nat) : spec_float := SFdiv 53 1024 (f64_of_nat 1) (f64_of_nat n).

Definition child_task_id (safe_parent : string) (child_depth : Z) (idx : nat) : string :=
  safe_parent +:+ "-d" +:+ pretty child_depth +:+ "-c" +:+ pad4 (idx + 1).

Definition child_task (output_root safe_parent parent_task_id : string) (child_depth : Z)
    (share : spec_float) (idx : nat) (chunk : list RecursiveHarnessEntry) : ChildHarnessTask :=
  let task_id := child_task_id safe_parent child_depth idx in
  let entry_ids := map entry_id chunk in
  mkTask task_id parent_task_id child_depth entry_ids
    (child_instruction parent_task_id child_depth entry_ids)
    (output_root +:+ "/" +:+ safe_parent +:+ "/depth-" +:+ pretty child_depth +:+ "/" +:+ task_id +:+ ".json")
    share.

Definition reason_of (s : RecursiveHarnessStrategy) : string :=
  match s with
  | DirectTaskCalls => "small_batch_direct_tasks"
  | SupervisedPlan => "large_batch_supervised_plan"
  | Inline => "inline"
  end.

Definition u8_max : Z := 255.

Definition plan_recursive_harness (parent_task_id : string) (entries : list RecursiveHarnessEntry)
    (current_depth : Z) (constraints : RecursiveHarnessConstraints) : result PlanError RecursiveHarnessPlan :=
  let parent_task_id := trim parent_task_id in
  if bool_decide (parent_task_id = "") then Err ParentRequired
  else if bool_decide (entries = []) then Err NoEntries
  else
    let c := normalize_constraints constraints in
    let safe_parent := sanitize_segment parent_task_id in
    let aggregate_receipt_path :=
      output_root c +:+ "/" +:+ safe_parent +:+ "/depth-" +:+ pretty current_depth +:+ "/aggregate.json" in
    if bool_decide (max_depth c ≤ current_depth)%Z
    then Ok (mkPlan parent_task_id current_depth Inline [] aggregate_receipt_path "max_depth_reached")
    else
      let strategy :=
        if bool_decide (length entries ≤ small_batch_threshold c) then DirectTaskCalls else SupervisedPlan in
      parts ← match strategy with
              | Inline => Ok []
              | DirectTaskCalls => Ok (chunks 1 entries)
              | SupervisedPlan =>
                  let parts := chunks (max_entries_per_child c) entries in
                  _ ← bail_if (bool_decide (max_children c < length parts)) (ChunkBudget (length parts) (max_children c));
                  Ok parts
              end;
      _ ← bail_if (bool_decide (max_children c < length parts)) (ChildBudget (length parts) (max_children c));
      let child_depth := saturating_add u8_max current_depth 1 in
      let share := budget_share (length parts) in
      Ok (mkPlan parent_task_id current_depth strategy
        (imap (child_task (output_root c) safe_parent parent_task_id child_depth share) parts)
        aggregate_receipt_path (reason_of strategy)).

Example three_children :
  let es := map (λ i, mkEntry i "p" 1) ["a"; "b"; "c"] in
  match plan_recursive_harness " parent/one " es 0 default_constraints with
  | Ok p => map ct_task_id (hp_child_tasks p) =
      ["parent_one-d1-c0001"; "parent_one-d1-c0002"; "parent_one-d1-c0003"] ∧
      hp_aggregate_receipt_path p = "receipts/recursive-harness/parent_one/depth-0/aggregate.json"
  | Err _ => False
  end.
Proof. vm_compute. done. Qed.

(** ** Chunks *)

Lemma chunks_cons {A} fuel n (a : A) l :
  chunks_fuel (S fuel) n (a :: l) = take n (a :: l) :: chunks_fuel fuel n (drop n (a :: l)).
Proof. done. Qed.

Lemma chunks_fuel_spec {A} n fuel : ∀ l : list A,
  0 < n → length l ≤ fuel →
  mjoin (chunks_fuel fuel n l) = l ∧ Forall (λ c, 0 < length c ≤ n) (chunks_fuel fuel n l) ∧
  length (chunks_fuel fuel n l) = (length l + (n - 1)) / n.
Proof.
  induction fuel as [|fuel IH]; intros [|a l] Hn Hfuel; try (simpl in Hfuel; lia).
  1, 2: split_and!; [done|constructor|simpl; by rewrite Nat.div_small by lia].
  rewrite chunks_cons. set (k := a :: l) in *.
  assert (0 < length k) as Hk by (unfold k; simpl; lia).
  destruct (IH (drop n k)) as (Hj & Hs & Hl); [done|rewrite length_drop; lia|].
  split_and!.
  - change (mjoin (take n k :: ?r)) with (take n k ++ mjoin r). rewrite Hj. apply take_drop.
  - constructor; [|done]. rewrite length_take. lia.
  - cbn [length]. rewrite Hl, length_drop. destruct (decide (length k ≤ n)) as [Hle|Hgt].
    + replace (length k - n) with 0 by lia. rewrite Nat.div_small by lia.
      apply Nat.div_unique with (r := length k - 1); lia.
    + replace (length k + (n - 1)) with (length k - n + (n - 1) + 1 * n) by lia.
      rewrite Nat.div_add by lia. lia.
Qed.

Lemma chunks_spec {A} n (l : list A) :
  0 < n → mjoin (chunks n l) = l ∧ Forall (λ c, 0 < length c ≤ n) (chunks n l) ∧
  length (chunks n l) = (length l + (n - 1)) / n.
Proof. intros Hn. by apply chunks_fuel_spec. Qed.

(** ** Task ids *)

Lemma pretty_go_head (x : N) : ∀ s, (0 < x)%N → ∃ c r, pretty_N_go x s = String c r ∧ c ≠ "0"%char.
Proof.
  induction (N.lt_wf_0 x) as [x _ IH]. intros s Hx. rewrite pretty_N_go_step by done.
  destruct (decide (x < 10)%N) as [Hsmall|Hbig].
  - rewrite N.div_small, pretty_N_go_0 by done. eexists _, _. split; [done|].
    rewrite N.mod_small by done. unfold pretty_N_char. destruct x as [|p]; [done|].
    by do 10 (destruct p as [p|p|]; try done; try lia).
  - apply IH; [apply N.div_lt; lia|]. apply N.div_str_pos. lia.
Qed.

Lemma pretty_head (n : nat) : 0 < n → ∃ c r, pretty n = String c r ∧ c ≠ "0"%char.
Proof.
  intros Hn. unfold pretty, pretty_nat, pretty, pretty_N. rewrite decide_False by lia.
  apply pretty_go_head. lia.
Qed.

Definition zeros (k : nat) (s : string) : bytes := replicate k "0"%char ++ as_bytes s.

Lemma zeros_inj k k' s s' :
  (∃ c r, s = String c r ∧ c ≠ "0"%char) → (∃ c r, s' = String c r ∧ c ≠ "0"%char) →
  zeros k s = zeros k' s' → s = s'.
Proof.
  intros (c & r & -> & Hc) (c' & r' & -> & Hc'). revert k'. unfold zeros, as_bytes.
  induction k as [|k IH]; intros [|k']; simpl; intros Heq; injection Heq; intros; subst; try done.
  - f_equal. by apply as_bytes_inj.
  - by eapply IH.
Qed.

Lemma pad4_bytes n : as_bytes (pad4 n) = zeros (4 - String.length (pretty n)) (pretty n).
Proof.
  unfold pad4, zeros. rewrite as_bytes_app. unfold as_bytes at 1.
  by rewrite String.list_ascii_of_string_of_list_ascii.
Qed.

Lemma pad4_inj m n : 0 < m → 0 < n → pad4 m = pad4 n → m = n.
Proof.
  intros Hm Hn Heq. apply (f_equal as_bytes) in Heq. rewrite !pad4_bytes in Heq.
  apply zeros_inj in Heq; [|by apply pretty_head..]. by apply (inj pretty) in Heq.
Qed.

Lemma child_task_id_inj p d i j : child_task_id p d i = child_task_id p d j → i = j.
Proof.
  unfold child_task_id. intros Heq. do 4 apply (inj (String.append _)) in Heq.
  apply pad4_inj in Heq; lia.
Qed.

Lemma NoDup_imap {A B} (f : nat → A → B) (l : list A) : ∀ k,
  (∀ i j x y, f i x = f j y → i = j) → NoDup (imap (λ i, f (k + i)) l).
Proof.
  induction l as [|x l IH]; intros k Hf; simpl; constructor.
  - intros Hin. apply elem_of_lookup_imap in Hin as (i & y & Heq & _). apply Hf in Heq. lia.
  - specialize (IH (S k) Hf). erewrite imap_ext; [exact IH|]. intros i y _. simpl. f_equal. lia.
Qed.

(** ** What a plan is *)

(** How many children [n] entries make. *)
Definition children_needed (c : RecursiveHarnessConstraints) (n : nat) : nat :=
  if bool_decide (n ≤ small_batch_threshold c) then n
  else (n + (max_entries_per_child c - 1)) / max_entries_per_child c.

Lemma map_imap_const {A B C} (g : B → C) (h : A → C) (l : list A) : ∀ f : nat → A → B,
  (∀ i x, g (f i x) = h x) → map g (imap f l) = map h l.
Proof. induction l as [|x l IH]; intros f Hf; [done|]. simpl. rewrite Hf. f_equal. apply IH. intros i y. apply Hf. Qed.

Lemma mjoin_map {A B} (f : A → B) (ls : list (list A)) : mjoin (map (map f) ls) = map f (mjoin ls).
Proof.
  induction ls as [|l ls IH]; [done|].
  change (map f l ++ mjoin (map (map f) ls) = map f (l ++ mjoin ls)). by rewrite map_app, IH.
Qed.

Lemma imap_tasks root safe parent depth share parts :
  let tasks := imap (child_task root safe parent depth share) parts in
  mjoin (map ct_entry_ids tasks) = map entry_id (mjoin parts) ∧
  length tasks = length parts ∧ NoDup (map ct_task_id tasks) ∧
  Forall (λ t, ct_depth t = depth ∧ ct_parent_task_id t = parent) tasks ∧
  map (λ t, length (ct_entry_ids t)) tasks = map length parts.
Proof.
  intros tasks. unfold tasks. split_and!.
  - by rewrite (map_imap_const _ (map entry_id)), mjoin_map.
  - by rewrite length_imap.
  - change (map ct_task_id ?l) with (ct_task_id <$> l). rewrite fmap_imap.
    apply (NoDup_imap (λ i _, child_task_id safe depth i) parts 0). intros. by eapply child_task_id_inj.
  - apply Forall_forall. intros t Ht. by apply elem_of_lookup_imap in Ht as (i & p & -> & _).
  - apply map_imap_const. intros i x. simpl. by rewrite length_map.
Qed.

(** The bounds a plan is made under. *)
Record plan_ok (c : RecursiveHarnessConstraints) (entries : list RecursiveHarnessEntry) (d : Z)
    (p : RecursiveHarnessPlan) : Prop := {
  children_partition : mjoin (map ct_entry_ids (hp_child_tasks p)) = map entry_id entries;
  children_number : length (hp_child_tasks p) = children_needed c (length entries);
  children_bounded : length (hp_child_tasks p) ≤ max_children c;
  children_sized : Forall (λ t, 0 < length (ct_entry_ids t) ≤ max_entries_per_child c) (hp_child_tasks p);
  children_named : NoDup (map ct_task_id (hp_child_tasks p));
  children_deeper : Forall (λ t, ct_depth t = d + 1 ∧ ct_depth t ≤ max_depth c ∧
    ct_parent_task_id t = hp_parent_task_id p)%Z (hp_child_tasks p);
}.

Lemma chosen_parts c (entries : list RecursiveHarnessEntry) :
  0 < max_entries_per_child c →
  let parts := if bool_decide (length entries ≤ small_batch_threshold c) then chunks 1 entries
               else chunks (max_entries_per_child c) entries in
  mjoin parts = entries ∧ length parts = children_needed c (length entries) ∧
  Forall (λ k, 0 < length k ≤ max_entries_per_child c) parts.
Proof.
  intros Hn. unfold children_needed. case_bool_decide.
  - destruct (chunks_spec 1 entries) as (Hj & Hs & Hl); [lia|]. split_and!; [done| |].
    + rewrite Hl, Nat.div_1_r. simpl. lia.
    + eapply Forall_impl; [exact Hs|]. simpl. intros k Hk. lia.
  - destruct (chunks_spec (max_entries_per_child c) entries Hn) as (Hj & Hs & Hl). done.
Qed.

Lemma planned_ok c root safe parent d share parts entries s path reason :
  mjoin parts = entries → length parts = children_needed c (length entries) →
  Forall (λ k : list RecursiveHarnessEntry, 0 < length k ≤ max_entries_per_child c) parts →
  length parts ≤ max_children c → (0 ≤ d < max_depth c)%Z → (max_depth c ≤ 255)%Z →
  plan_ok c entries d
    (mkPlan parent d s (imap (child_task root safe parent (saturating_add u8_max d 1) share) parts) path reason).
Proof.
  intros <- Hn Hs Hb Hd Hm.
  assert (saturating_add u8_max d 1 = d + 1)%Z as -> by (unfold saturating_add, u8_max; lia).
  destruct (imap_tasks root safe parent (d + 1) share parts) as (H1 & H2 & H3 & H4 & H5).
  split; cbn [hp_child_tasks hp_parent_task_id]; [done|by rewrite H2|by rewrite H2| |done|].
  - assert (Forall (λ n, 0 < n ≤ max_entries_per_child c) (map length parts)) as Hlen by by apply Forall_map.
    rewrite <- H5 in Hlen. by apply Forall_map in Hlen.
  - eapply Forall_impl; [exact H4|]. intros t [-> ->]. split_and!; [done|lia|done].
Qed.

(** Planning hands out all the work and stays within its bounds.  A plan below
    the depth limit splits the entries, in order and without loss or repeat,
    into no more children than allowed, none empty and none over the size
    allowed, each one level deeper, still within the depth limit, and under an
    id of its own; at the limit it has no child.  A refusal is for a missing
    parent, for no entries, or for more children than allowed, and gives the
    number needed. *)
Theorem plan_covers_within_bounds (parent : string) (entries : list RecursiveHarnessEntry) (d : Z)
    (constraints : RecursiveHarnessConstraints) :
  (0 ≤ d ≤ 255)%Z → (max_depth constraints ≤ 255)%Z →
  let c := normalize_constraints constraints in
  let needed := children_needed c (length entries) in
  match plan_recursive_harness parent entries d constraints with
  | Ok p =>
      trim parent ≠ "" ∧ entries ≠ [] ∧ hp_parent_task_id p = trim parent ∧ hp_depth p = d ∧
      if bool_decide (max_depth c ≤ d)%Z then hp_strategy p = Inline ∧ hp_child_tasks p = []
      else plan_ok c entries d p ∧ hp_strategy p ≠ Inline
  | Err ParentRequired => trim parent = ""
  | Err NoEntries => entries = []
  | Err (ChunkBudget n m) | Err (ChildBudget n m) =>
      (d < max_depth c)%Z ∧ n = needed ∧ m = max_children c ∧ max_children c < needed
  end.
Proof.
  intros Hd Hmax c needed. unfold plan_recursive_harness.
  case_bool_decide as Hp; [done|]. case_bool_decide as He; [done|]. fold c.
  case_bool_decide as Hdeep; [done|].
  assert (0 < max_entries_per_child c) as Hn by (simpl; lia).
  assert (max_depth c ≤ 255)%Z as Hm by (simpl; lia).
  destruct (chosen_parts c entries Hn) as (Hj & Hl & Hs).
  unfold needed. case_bool_decide as Hsmall; simpl in *.
  - unfold bail_if. case_bool_decide as Hb; simpl; [rewrite <- Hl; split_and!; [lia|done..]|].
    split_and!; [done..| |done]. apply planned_ok; [done..|simpl; lia|simpl; lia|done].
  - unfold bail_if. case_bool_decide as Hb; simpl; [rewrite <- Hl; split_and!; [lia|done..]|].
    rewrite bool_decide_false by done. simpl.
    split_and!; [done..| |done]. apply planned_ok; [done..|simpl; lia|simpl; lia|done].
Qed.

Lemma plan_named parent entries d c p :
  plan_recursive_harness parent entries d c = Ok p → NoDup (map ct_task_id (hp_child_tasks p)).
Proof.
  unfold plan_recursive_harness, bail_if. do 3 (case_match; [try done|]).
  - intros [= <-]. constructor.
  - intros (parts & _ & Hp)%result_bind_Ok. apply result_bind_Ok in Hp as ([] & _ & [= <-]).
    apply (imap_tasks (output_root (normalize_constraints c)) (sanitize_segment (trim parent)) (trim parent)
      (saturating_add u8_max d 1) (budget_share (length parts)) parts).
Qed.

(** ** Putting the receipts together *)

Lemma collect_receipts_spec plan E rs : ∀ m,
  match collect_receipts plan E rs m with
  | Ok m' =>
      Forall (λ r, cr_task_id r ∈ E ∧ cr_parent_task_id r = hp_parent_task_id plan) rs ∧
      NoDup (map cr_task_id rs) ∧ (∀ r, r ∈ rs → m !! cr_task_id r = None) ∧
      ∀ k r, m' !! k = Some r ↔ m !! k = Some r ∨ r ∈ rs ∧ cr_task_id r = k
  | Err (UnexpectedReceipt id) => ∃ r, r ∈ rs ∧ cr_task_id r = id ∧ id ∉ E
  | Err (WrongParent id p e) =>
      e = hp_parent_task_id plan ∧ p ≠ e ∧ ∃ r, r ∈ rs ∧ cr_task_id r = id ∧ cr_parent_task_id r = p
  | Err DuplicateReceipt =>
      ¬ NoDup (map cr_task_id rs) ∨ ∃ r, r ∈ rs ∧ is_Some (m !! cr_task_id r)
  | Err (MissingReceipt id) => False
  end.
Proof.
  induction rs as [|r rs IH]; intros m; simpl.
  { split_and!; [constructor|constructor|set_solver|set_solver]. }
  case_bool_decide as Hin; simpl; [|exists r; split_and!; [by left|done|done]].
  case_bool_decide as Hpar; simpl; [|split_and!; [done|done|exists r; split_and!; [by left|done|done]]].
  case_bool_decide as Hdup; [right; exists r; split; [by left|done]|].
  apply eq_None_not_Some in Hdup. specialize (IH (<[cr_task_id r := r]> m)).
  destruct (collect_receipts plan E rs _) as [m'|[id|id p e| |id]].
  - destruct IH as (Hall & Hnd & Hfree & Hm).
    assert (cr_task_id r ∉ map cr_task_id rs) as Hnew.
    { intros (r' & Heq & Hr')%list_elem_of_fmap. apply Hfree in Hr'. by rewrite <- Heq, lookup_insert_eq in Hr'. }
    split_and!; [by constructor|by constructor| |].
    + intros r' [->|Hr']%elem_of_cons; [done|]. apply Hfree in Hr'.
      by apply lookup_insert_None in Hr' as [? _].
    + intros k r'. rewrite Hm, elem_of_cons, lookup_insert_Some. split; [naive_solver|].
      intros [Hk|[[->|Hr'] <-]]; [|naive_solver..]. left. right. split; [|done]. intros <-. congruence.
  - destruct IH as (r' & ? & ?). exists r'. split; [by right|done].
  - destruct IH as (? & ? & r' & ? & ?). split_and!; [done..|]. exists r'. split; [by right|done].
  - destruct IH as [Hnd|(r' & Hr' & Hs)].
    + left. intros Hd. by apply NoDup_cons in Hd as [_ ?].
    + destruct (decide (cr_task_id r' = cr_task_id r)) as [Heq|Hne].
      * left. intros Hd. apply NoDup_cons in Hd as [Hd _]. apply Hd. rewrite <- Heq.
        by apply (list_elem_of_fmap_2 cr_task_id).
      * right. exists r'. split; [by right|]. by rewrite lookup_insert_ne in Hs.
  - done.
Qed.

Lemma in_plan_order_spec tasks : ∀ m,
  NoDup (map ct_task_id tasks) →
  match in_plan_order tasks m with
  | Ok ordered => Forall2 (λ t r, m !! ct_task_id t = Some r) tasks ordered
  | Err e => ∃ t, t ∈ tasks ∧ e = MissingReceipt (ct_task_id t) ∧ m !! ct_task_id t = None
  end.
Proof.
  induction tasks as [|t tasks IH]; intros m Hnd; [by constructor|]. simpl in *.
  apply NoDup_cons in Hnd as [Ht Hnd]. destruct (m !! ct_task_id t) as [r|] eqn:Hr; simpl.
  2: { exists t. split_and!; [by left|done|done]. }
  specialize (IH (delete (ct_task_id t) m) Hnd).
  assert (∀ t', t' ∈ tasks → ct_task_id t' ≠ ct_task_id t) as Hne.
  { intros t' Ht' Heq. apply Ht. rewrite <- Heq. by apply (list_elem_of_fmap_2 ct_task_id). }
  destruct (in_plan_order tasks _) as [ordered|e]; simpl.
  - constructor; [done|]. eapply Forall2_impl; [exact IH|]. intros t' r' Hl.
    by apply lookup_delete_Some in Hl as [_ ?].
  - destruct IH as (t' & Ht' & -> & Hnone). exists t'. split_and!; [by right|done|].
    rewrite lookup_delete_ne in Hnone; [done|]. intros Heq. by eapply Hne.
Qed.

Lemma count_status_total l : count_status Succeeded l + count_status ChildFailed l = length l.
Proof.
  unfold count_status. induction l as [|r l IH]; [done|].
  rewrite !filter_cons. destruct (cr_status r) eqn:Hr;
    repeat case_decide; try congruence; simpl; lia.
Qed.

Lemma count_status_positive s l : 0 < count_status s l ↔ ∃ r, r ∈ l ∧ cr_status r = s.
Proof.
  unfold count_status. split.
  - destruct (filter _ l) as [|r rest] eqn:Hf; simpl; [lia|]. intros _. exists r.
    assert (r ∈ filter (λ r, cr_status r = s) l) as Hr by (rewrite Hf; by left).
    by apply list_elem_of_filter in Hr as [? ?].
  - intros (r & Hr & Hs).
    assert (r ∈ filter (λ r, cr_status r = s) l) as Hin by by apply list_elem_of_filter.
    destruct (filter _ l); [by apply elem_of_nil in Hin|]. simpl. lia.
Qed.

(** Receipts in plan order, one per child, are those that came in. *)
Lemma ordered_receipts plan receipts (m : gmap string ChildHarnessReceipt) ordered :
  NoDup (map ct_task_id (hp_child_tasks plan)) → NoDup (map cr_task_id receipts) →
  (∀ r, r ∈ receipts → cr_task_id r ∈ map ct_task_id (hp_child_tasks plan)) →
  (∀ k r, m !! k = Some r ↔ r ∈ receipts ∧ cr_task_id r = k) →
  Forall2 (λ t r, m !! ct_task_id t = Some r) (hp_child_tasks plan) ordered →
  map cr_task_id ordered = map ct_task_id (hp_child_tasks plan) ∧ ordered ≡ₚ receipts.
Proof.
  intros Htasks Hnd Hin Hm Hord.
  assert (map cr_task_id ordered = map ct_task_id (hp_child_tasks plan)) as Hids.
  { clear -Hm Hord. induction Hord as [|t r ts rs Hr _ IH]; [done|]. simpl. rewrite IH. f_equal. by apply Hm in Hr as [_ ?]. }
  split; [done|]. apply NoDup_Permutation.
  - rewrite <- Hids in Htasks. by apply NoDup_fmap_1 in Htasks.
  - by apply NoDup_fmap_1 in Hnd.
  - intros r. split.
    + intros Hr. clear -Hord Hm Hr. induction Hord as [|t r' ts rs Hl _ IH]; [by apply elem_of_nil in Hr|].
      apply elem_of_cons in Hr as [->|Hr]; [by apply Hm in Hl as [? _]|by apply IH].
    + intros Hr. pose proof (Hin r Hr) as Hid. rewrite <- Hids in Hid.
      apply list_elem_of_fmap in Hid as (r' & Heq & Hr').
      assert (m !! cr_task_id r = Some r) as Hl by by apply Hm.
      assert (m !! cr_task_id r' = Some r') as Hl'; [|congruence].
      clear -Hord Hm Hr'. induction Hord as [|t r ts rs Hr _ IH]; [by apply elem_of_nil in Hr'|].
      apply elem_of_cons in Hr' as [-> |Hr']; [|by apply IH]. by apply Hm in Hr as Hr2; destruct Hr2 as [_ ->].
Qed.

(** The children's receipts are put together exactly.  For a plan the planner
    made, and receipts in any order: an aggregate holds the receipts that came
    in, one per child, in the order of the plan, each naming the plan's parent;
    its counts add up, its entries are those the receipts list, and it has
    failed exactly when some child has.  A refusal names what is wrong with
    them: a receipt of no child, one of another parent, two of one child, or a
    child without one. *)
Theorem aggregation_is_exact (parent : string) (entries : list RecursiveHarnessEntry) (d : Z)
    (constraints : RecursiveHarnessConstraints) (plan : RecursiveHarnessPlan)
    (receipts : list ChildHarnessReceipt) :
  plan_recursive_harness parent entries d constraints = Ok plan →
  let ids := map ct_task_id (hp_child_tasks plan) in
  match aggregate_child_harness_receipts plan receipts with
  | Ok a =>
      ag_child_receipts a ≡ₚ receipts ∧ map cr_task_id (ag_child_receipts a) = ids ∧
      Forall (λ r, cr_parent_task_id r = hp_parent_task_id plan) receipts ∧
      ag_total_children a = length ids ∧
      ag_succeeded_children a + ag_failed_children a = ag_total_children a ∧
      ag_total_entries a = total_entries receipts ∧
      (ag_status a = ChildFailed ↔ ∃ r, r ∈ receipts ∧ cr_status r = ChildFailed)
  | Err (UnexpectedReceipt id) => id ∈ map cr_task_id receipts ∧ id ∉ ids
  | Err (WrongParent id p e) =>
      e = hp_parent_task_id plan ∧ p ≠ e ∧ ∃ r, r ∈ receipts ∧ cr_task_id r = id ∧ cr_parent_task_id r = p
  | Err DuplicateReceipt => ¬ NoDup (map cr_task_id receipts)
  | Err (MissingReceipt id) => id ∈ ids ∧ id ∉ map cr_task_id receipts
  end.
Proof.
  intros Hplan%plan_named ids. unfold aggregate_child_harness_receipts.
  pose proof (collect_receipts_spec plan (list_to_set ids) receipts ∅) as Hc. fold ids.
  destruct (collect_receipts _ _ _ _) as [m|[id|id p e| |id]]; simpl; [|..|done].
  - destruct Hc as (Hall & Hnd & _ & Hm).
    pose proof (in_plan_order_spec (hp_child_tasks plan) m Hplan) as Ho.
    destruct (in_plan_order _ _) as [ordered|e]; simpl.
    + destruct (ordered_receipts plan receipts m ordered) as [Hids Hperm]; try done.
      { intros r Hr. rewrite Forall_forall in Hall. by apply Hall in Hr as [Hr%elem_of_list_to_set _]. }
      { intros k r. rewrite Hm, lookup_empty. naive_solver. }
      split_and!; [done|done| |by rewrite <- (length_map cr_task_id ordered), Hids|apply count_status_total| |].
      * eapply Forall_impl; [exact Hall|]. by intros r [_ ?].
      * unfold total_entries. rewrite Hperm. done.
      * setoid_rewrite <- Hperm. rewrite <- count_status_positive. case_bool_decide; split; try done; lia.
    + destruct Ho as (t & Ht & -> & Hnone). split; [by apply (list_elem_of_fmap_2 ct_task_id)|].
      intros (r & Heq & Hr)%list_elem_of_fmap.
      assert (m !! ct_task_id t = Some r) as Hl by (apply Hm; right; done). congruence.
  - destruct Hc as (r & Hr & <- & Hid). split; [by apply (list_elem_of_fmap_2 cr_task_id)|].
    by rewrite elem_of_list_to_set in Hid.
  - exact Hc.
  - destruct Hc as [?|(r & _ & Hs)]; [done|]. rewrite lookup_empty in Hs. by destruct Hs.
Qed.

(** ** Witnesses *)

Definition three_entries : list RecursiveHarnessEntry := map (λ i, mkEntry i "p" 1) ["a"; "b"; "c"].

Definition receipt_of (s : ChildHarnessStatus) (t : ChildHarnessTask) : ChildHarnessReceipt :=
  mkReceipt (ct_task_id t) (ct_parent_task_id t) (ct_depth t) (ct_entry_ids t) s "" [] None.

Lemma plan_covers_within_bounds_witness :
  match plan_recursive_harness "parent" three_entries 2 default_constraints with
  | Ok p => plan_ok (normalize_constraints default_constraints) three_entries 2 p
  | Err _ => False
  end.
Proof.
  pose proof (plan_covers_within_bounds "parent" three_entries 2 default_constraints ltac:(lia) ltac:(vm_compute; discriminate)) as Hp.
  destruct (plan_recursive_harness "parent" three_entries 2 default_constraints) as [p|e] eqn:He.
  - exact (proj1 (proj2 (proj2 (proj2 (proj2 Hp))))).
  - assert (match plan_recursive_harness "parent" three_entries 2 default_constraints with Ok _ => True | Err _ => False end)
      as Hok by (vm_compute; exact I). rewrite He in Hok. exact Hok.
Defined.

Lemma aggregation_is_exact_witness :
  match plan_recursive_harness "parent" three_entries 0 default_constraints with
  | Ok plan =>
      let receipts := match hp_child_tasks plan with
                      | [a; b; c] => [receipt_of Succeeded c; receipt_of ChildFailed a; receipt_of Succeeded b]
                      | _ => [] end in
      match aggregate_child_harness_receipts plan receipts with
      | Ok a => ag_child_receipts a ≡ₚ receipts ∧ ag_failed_children a = 1
      | Err _ => False
      end
  | Err _ => False
  end.
Proof.
  destruct (plan_recursive_harness "parent" three_entries 0 default_constraints) as [plan|e] eqn:He.
  2: { assert (match plan_recursive_harness "parent" three_entries 0 default_constraints with Ok _ => True | Err _ => False end)
      as Hok by (vm_compute; exact I). rewrite He in Hok. exact Hok. }
  set (receipts := match hp_child_tasks plan with [a; b; c] => _ | _ => _ end).
  pose proof (aggregation_is_exact "parent" three_entries 0 default_constraints plan receipts He) as Ha.
  assert (match plan_recursive_harness "parent" three_entries 0 default_constraints with
    | Ok plan => match aggregate_child_harness_receipts plan (match hp_child_tasks plan with
                      | [a; b; c] => [receipt_of Succeeded c; receipt_of ChildFailed a; receipt_of Succeeded b]
                      | _ => [] end) with Ok a => ag_failed_children a = 1 | Err _ => False end
    | Err _ => False end) as Hok by (vm_compute; reflexivity).
  rewrite He in Hok. fold receipts in Hok. cbn zeta.
  destruct (aggregate_child_harness_receipts plan receipts) as [a|e]; [|destruct Hok].
  split; [exact (proj1 Ha)|exact Hok].
Defined.
