(* ===== verification/Provider.v ===== *)
(** * Provider accounts (crates/heiwa_provider: registry.rs, health.rs, admission.rs, routing.rs)

    The accounts a user holds, which of them are usable, and which exact pairs
    of an account and a model may serve a turn.  Whether a binary can be run is
    an argument of every operation that asks. *)

From stdpp Require Import base gmap sets strings numbers pretty sorting list.
From Stdlib Require Import Ascii.
From S2P Require Import Prelude Json Sensitive.
#[local] Open Scope Z_scope.

(** ** registry.rs *)

Inductive Credential : Type :=
| ApiKey
| OAuth (expires_at : option string)
| OauthCli (binary : string)
| LocalRuntime (endpoint : string).

Definition kind_label (c : Credential) : string :=
  match c with
  | ApiKey => "api_key" | OAuth _ => "oauth" | OauthCli _ => "oauth_cli" | LocalRuntime _ => "local_runtime"
  end.

Inductive AccountStatus : Type := Connected | Disconnected | NeedsAuth | StatusError (message : string).
Inductive InventoryTruth : Type := Verified | Inferred | UserConfigured.
Inductive PriceTruth : Type := Known | PriceUnknown.

#[export] Instance credential_eq_dec : EqDecision Credential.
Proof. solve_decision. Defined.
#[export] Instance account_status_eq_dec : EqDecision AccountStatus.
Proof. solve_decision. Defined.
#[export] Instance inventory_truth_eq_dec : EqDecision InventoryTruth.
Proof. solve_decision. Defined.
#[export] Instance price_truth_eq_dec : EqDecision PriceTruth.
Proof. solve_decision. Defined.

(** The prices are [f64]s, by their bits. *)
Record DetectedModel : Type := mkModel {
  dm_model_id : string;
  dm_provider_model_id : string;
  dm_provider : string;
  dm_account_id : string;
  dm_rate_group : string;
  dm_capability_class : Z;
  dm_context_window : Z;
  dm_supports_streaming : bool;
  dm_supports_tools : bool;
  dm_supports_vision : bool;
  dm_supports_audio : bool;
  dm_cost_per_1k_input : Z;
  dm_cost_per_1k_output : Z;
  dm_price_truth : PriceTruth;
  dm_inventory_truth : InventoryTruth;
}.

(** The derived [PartialEq]: prices compare as floats. *)
Definition model_eqb (a b : DetectedModel) : bool :=
  bool_decide (dm_model_id a = dm_model_id b) && bool_decide (dm_provider_model_id a = dm_provider_model_id b) &&
  bool_decide (dm_provider a = dm_provider b) && bool_decide (dm_account_id a = dm_account_id b) &&
  bool_decide (dm_rate_group a = dm_rate_group b) &&
  bool_decide (dm_capability_class a = dm_capability_class b) &&
  bool_decide (dm_context_window a = dm_context_window b) &&
  bool_decide (dm_supports_streaming a = dm_supports_streaming b) &&
  bool_decide (dm_supports_tools a = dm_supports_tools b) &&
  bool_decide (dm_supports_vision a = dm_supports_vision b) &&
  bool_decide (dm_supports_audio a = dm_supports_audio b) &&
  f64_eqb (dm_cost_per_1k_input a) (dm_cost_per_1k_input b) &&
  f64_eqb (dm_cost_per_1k_output a) (dm_cost_per_1k_output b) &&
  bool_decide (dm_price_truth a = dm_price_truth b) && bool_decide (dm_inventory_truth a = dm_inventory_truth b).

Record ProviderAccount : Type := mkAccount {
  pa_account_id : string;
  pa_provider : string;
  pa_credential : Credential;
  pa_rate_group : string;
  pa_status : AccountStatus;
  pa_models : list DetectedModel;
}.

(** The accounts of an [AccountRegistry]. *)
Notation Accounts := (list ProviderAccount) (only parsing).

Definition get (accounts : Accounts) (account_id : string) : option ProviderAccount :=
  head (filter (λ a, pa_account_id a = account_id) accounts).

Fixpoint upsert (accounts : Accounts) (account : ProviderAccount) : Accounts :=
  match accounts with
  | [] => [account]
  | a :: rest =>
      if bool_decide (pa_account_id a = pa_account_id account) then account :: rest
      else a :: upsert rest account
  end.

Definition remove (accounts : Accounts) (account_id : string) : Accounts * bool :=
  let kept := filter (λ a, pa_account_id a ≠ account_id) accounts in
  (kept, bool_decide (length kept < length accounts)%nat).

Definition accounts_for (accounts : Accounts) (provider : string) : Accounts :=
  filter (λ a, pa_provider a = provider) accounts.

(** ** routing.rs: names *)

Definition canonical_provider_id (provider : string) : string :=
  if bool_decide (provider = "claude-code") then "claude"
  else if bool_decide (provider = "google-gemini-cli") then "gemini"
  else if bool_decide (provider = "anthropic") then "claude"
  else if bool_decide (provider = "openai") then "codex"
  else if bool_decide (provider = "google") then "gemini"
  else provider.

Definition registry_provider_for (drex_provider : string) : option string :=
  let c := canonical_provider_id drex_provider in
  if bool_decide (c = "claude") then Some "anthropic"
  else if bool_decide (c = "codex") then Some "openai"
  else if bool_decide (c = "gemini") then Some "google"
  else if bool_decide (c = "openrouter") then Some "openrouter"
  else if bool_decide (c = "ollama") then Some "ollama"
  else None.

(** ** admission.rs: what an account may offer *)

Definition is_local (c : Credential) : bool := match c with LocalRuntime _ => true | _ => false end.

Definition model_is_admissible (account : ProviderAccount) (model : DetectedModel) : bool :=
  bool_decide (dm_account_id model = pa_account_id account) &&
  bool_decide (canonical_provider_id (dm_provider model) = canonical_provider_id (pa_provider account)) &&
  bool_decide (dm_rate_group model = pa_rate_group account) &&
  negb (is_blank (dm_model_id model)) && negb (is_blank (dm_provider_model_id model)) &&
  (bool_decide (dm_inventory_truth model = Verified) ||
   (is_local (pa_credential account) && bool_decide (dm_inventory_truth model = UserConfigured))).

Definition expected_binary (provider : string) : option string :=
  let c := canonical_provider_id provider in
  if bool_decide (c ∈ ["claude"; "codex"; "gemini"; "ollama"]) then Some c else None.

Definition configured_channel_supported (account : ProviderAccount) : bool :=
  let c := canonical_provider_id (pa_provider account) in
  match pa_credential account with
  | ApiKey => bool_decide (c ∈ ["claude"; "codex"; "gemini"; "openrouter"])
  | OauthCli binary =>
      bool_decide (c ∈ ["claude"; "codex"; "gemini"]) &&
      bool_decide (expected_binary (pa_provider account) = Some binary)
  | LocalRuntime _ => bool_decide (c = "ollama")
  | OAuth _ => false
  end.

(** ** health.rs *)

Inductive HealthState : Type := Healthy | Unauthenticated | RateLimited | Unreachable | NotInstalled.

#[export] Instance health_state_eq_dec : EqDecision HealthState.
Proof. solve_decision. Defined.

Definition health_routable (s : HealthState) : bool := bool_decide (s = Healthy).

Record AccountHealth : Type := mkHealth {
  ah_account_id : string;
  ah_provider : string;
  ah_credential_kind : string;
  ah_state : HealthState;
  ah_detail : string;
  ah_routable : bool;
  ah_model_count : nat;
}.

Definition execution_binary (account : ProviderAccount) : option string :=
  match pa_credential account with
  | OauthCli binary => Some binary
  | LocalRuntime _ => Some (pa_provider account)
  | _ => None
  end.

Definition mentions (message : string) (words : list string) : bool :=
  existsb (λ w, contains (bs w) (lower (as_bytes message))) words.

Definition classify_error (message : string) : HealthState * string :=
  if mentions message ["429"; "rate limit"; "quota"]
  then (RateLimited, "rate-limited by the provider: " +:+ message)
  else if mentions message ["401"; "403"; "invalid api key"; "unauthorized"; "expired"]
  then (Unauthenticated, "credential rejected: " +:+ message)
  else (Unreachable, message).

Definition NO_CHANNEL : string := "this configured provider channel has no supported adapter".
Definition NO_MODELS : string :=
  "connected but no models have been detected yet; re-add the key (heiwa auth add-key) to probe the provider's model list".
Definition UNVERIFIED : string :=
  "model inventory is unverified or belongs to another account; refresh this account's inventory".

Definition classify_status (account : ProviderAccount) : HealthState * string :=
  match pa_status account with
  | Connected =>
      if bool_decide (pa_models account = []) then (Unreachable, NO_MODELS)
      else if negb (existsb (model_is_admissible account) (pa_models account)) then (Unreachable, UNVERIFIED)
      else (Healthy, "")
  | NeedsAuth => (Unauthenticated, "no verified credential yet")
  | Disconnected =>
      match pa_credential account with
      | LocalRuntime endpoint => (Unreachable, "local runtime at " +:+ endpoint +:+ " did not respond")
      | OauthCli binary =>
          (Unauthenticated, "`" +:+ binary +:+
            "` is installed; provider sign-in and inventory have not been verified by Heiwa")
      | _ => (Unreachable, "provider did not respond")
      end
  | StatusError message => classify_error message
  end.

#[export] Instance model_list_nil_dec (l : list DetectedModel) : Decision (l = []).
Proof. destruct l; [by left|by right]. Defined.

Definition missing_binary (installed : string → bool) (account : ProviderAccount) : option string :=
  binary ← execution_binary account; if installed binary then None else Some binary.

Definition classify (installed : string → bool) (account : ProviderAccount) : HealthState * string :=
  match missing_binary installed account with
  | Some binary => (NotInstalled, "`" +:+ binary +:+ "` is not installed or not on PATH")
  | None =>
      if negb (configured_channel_supported account) then (Unreachable, NO_CHANNEL)
      else classify_status account
  end.

Definition project_with (installed : string → bool) (account : ProviderAccount) : AccountHealth :=
  let '(state, detail) := classify installed account in
  mkHealth (pa_account_id account) (pa_provider account) (kind_label (pa_credential account)) state detail
    (health_routable state) (length (pa_models account)).

(** [FleetHealth] is its reports. *)
Definition fleet (installed : string → bool) (accounts : Accounts) : list AccountHealth :=
  map (project_with installed) accounts.

Definition routable_reports (reports : list AccountHealth) : list AccountHealth :=
  List.filter ah_routable reports.

Definition skipped_reports (reports : list AccountHealth) : list AccountHealth :=
  List.filter (λ r, negb (ah_routable r)) reports.

Definition has_routable_account (reports : list AccountHealth) : bool := existsb ah_routable reports.

Definition NO_ACCOUNT_GUIDANCE : string :=
  "Connect a provider to start: add an API key for Anthropic, OpenAI, or Google, point Heiwa at a local runtime such as Ollama, or sign in to an installed provider CLI.".
Definition SKIPPED_GUIDANCE : string := "Connect a provider — no account can serve a turn right now:".

Definition guidance_line (r : AccountHealth) : string :=
  "  " +:+ ah_account_id r +:+ " (" +:+ ah_provider r +:+ ", " +:+ ah_credential_kind r +:+ "): " +:+
  (if bool_decide (ah_detail r = "") then "unavailable" else ah_detail r).

Definition newline_text : string := String newline "".

Definition guidance (reports : list AccountHealth) : string :=
  if has_routable_account reports then ""
  else match reports with
       | [] => NO_ACCOUNT_GUIDANCE
       | _ => String.concat newline_text (SKIPPED_GUIDANCE :: map guidance_line (skipped_reports reports))
       end.

(** ** admission.rs *)

Inductive ProviderAdmissionDenial : Type :=
| UnsupportedProvider
| AccountMissing
| AccountUnavailable
| ExecutionSubstrateUnavailable
| ModelInventoryUnverified
| ModelUnavailable
| SnapshotAmbiguous
| AccountChanged
| LaneMismatch.

#[export] Instance denial_eq_dec : EqDecision ProviderAdmissionDenial.
Proof. solve_decision. Defined.

(** The witness of an admission: the account and the model it binds. *)
Record RegistryAdmittedLane : Type := mkLane {
  ln_account : ProviderAccount;
  ln_model : DetectedModel;
}.

Definition lane_account_id (l : RegistryAdmittedLane) : string := pa_account_id (ln_account l).
Definition lane_provider (l : RegistryAdmittedLane) : string := canonical_provider_id (pa_provider (ln_account l)).
Definition lane_provider_model_id (l : RegistryAdmittedLane) : string := dm_provider_model_id (ln_model l).

Definition names_model (model_id : string) (m : DetectedModel) : Prop :=
  dm_provider_model_id m = model_id ∨ dm_model_id m = model_id.

#[export] Instance names_model_dec id m : Decision (names_model id m).
Proof. unfold names_model. apply _. Defined.

Definition admit_account (account : ProviderAccount) (model_id : string) (installed : string → bool)
    : result ProviderAdmissionDenial RegistryAdmittedLane :=
  match registry_provider_for (pa_provider account) with
  | None => Err UnsupportedProvider
  | Some _ =>
      if negb (configured_channel_supported account) then Err AccountUnavailable
      else
        let health := project_with installed account in
        if bool_decide (ah_state health = NotInstalled) then Err ExecutionSubstrateUnavailable
        else if negb (ah_routable health) then Err AccountUnavailable
        else if is_blank model_id then Err ModelUnavailable
        else match filter (names_model model_id) (pa_models account) with
             | [] => Err ModelUnavailable
             | [model] =>
                 if model_is_admissible account model then Ok (mkLane account model)
                 else Err ModelInventoryUnverified
             | _ :: _ :: _ => Err SnapshotAmbiguous
             end
  end.

Definition admit_registry_lane_with (accounts : Accounts) (account_id model_id : string)
    (installed : string → bool) : result ProviderAdmissionDenial RegistryAdmittedLane :=
  match filter (λ a, pa_account_id a = account_id) accounts with
  | [] => Err AccountMissing
  | [account] => admit_account account model_id installed
  | _ :: _ :: _ => Err SnapshotAmbiguous
  end.

(** [RegistryAdmittedLane::validate_current] *)
Definition validate_current (lane : RegistryAdmittedLane) (accounts : Accounts) (installed : string → bool)
    : result ProviderAdmissionDenial unit :=
  match filter (λ a, pa_account_id a = lane_account_id lane) accounts with
  | [] => Err AccountMissing
  | _ :: _ :: _ => Err SnapshotAmbiguous
  | [account] =>
      if negb (bool_decide (pa_provider account = pa_provider (ln_account lane)) &&
               bool_decide (pa_credential account = pa_credential (ln_account lane)) &&
               bool_decide (pa_rate_group account = pa_rate_group (ln_account lane)))
      then Err AccountChanged
      else
        match admit_account account (lane_provider_model_id lane) installed with
        | Err e => Err e
        | Ok current => if negb (model_eqb (ln_model current) (ln_model lane)) then Err AccountChanged else Ok tt
        end
  end.

(** The ids that occur more than once. *)
Definition duplicate_step (st : gset string * gset string) (account : ProviderAccount) : gset string * gset string :=
  let '(ids, duplicates) := st in
  if bool_decide (pa_account_id account ∈ ids) then (ids, {[pa_account_id account]} ∪ duplicates)
  else ({[pa_account_id account]} ∪ ids, duplicates).

Definition duplicate_ids (accounts : Accounts) : gset string := (foldl duplicate_step (∅, ∅) accounts).2.

(** A candidate is the model and its lane. *)
Definition admitted_of (installed : string → bool) (account : ProviderAccount) (model : DetectedModel)
    : option (DetectedModel * RegistryAdmittedLane) :=
  lane ← result_ok (admit_account account (dm_provider_model_id model) installed); Some (model, lane).

Definition admitted_candidates_with (accounts : Accounts) (installed : string → bool)
    : list (DetectedModel * RegistryAdmittedLane) :=
  let duplicates := duplicate_ids accounts in
  mjoin (map (λ account, omap (admitted_of installed account) (pa_models account))
    (filter (λ a, pa_account_id a ∉ duplicates) accounts)).

(** ** registry.rs: models on offer *)

Definition model_order (a b : DetectedModel) : comparison :=
  then_cmp (String.compare (dm_rate_group a) (dm_rate_group b))
    (then_cmp (Z.compare (dm_capability_class b) (dm_capability_class a))
      (default Eq (f64_partial_cmp (dm_cost_per_1k_input a) (dm_cost_per_1k_input b)))).

Definition belongs (account : ProviderAccount) (model : DetectedModel) : bool :=
  bool_decide (dm_account_id model = pa_account_id account) &&
  bool_decide (canonical_provider_id (dm_provider model) = canonical_provider_id (pa_provider account)) &&
  bool_decide (dm_rate_group model = pa_rate_group account).

Definition usable_models (accounts : Accounts) (usable : ProviderAccount → bool) : list DetectedModel :=
  mjoin (map (λ a, List.filter (belongs a) (pa_models a)) (List.filter usable accounts)).

Definition models_where (accounts : Accounts) (usable : ProviderAccount → bool) : list DetectedModel :=
  sort_by model_order (usable_models accounts usable).

Definition all_models (accounts : Accounts) : list DetectedModel :=
  models_where accounts (λ a, bool_decide (pa_status a = Connected)).

(** The test a listed model is put to; [expect] panics where the registry has
    no account of the model's. *)
Definition offered (accounts : Accounts) (admitted : list (DetectedModel * RegistryAdmittedLane))
    (model : DetectedModel) : outcome bool :=
  (fix any (l : list (DetectedModel * RegistryAdmittedLane)) : outcome bool :=
     match l with
     | [] => Return false
     | (_, lane) :: rest =>
         if bool_decide (lane_account_id lane = dm_account_id model) &&
            bool_decide (lane_provider_model_id lane = dm_provider_model_id model)
         then match get accounts (dm_account_id model) with
              | None => Panic
              | Some account => if model_is_admissible account model then Return true else any rest
              end
         else any rest
     end) admitted.

Fixpoint filter_outcome {A} (f : A → outcome bool) (l : list A) : outcome (list A) :=
  match l with
  | [] => Return []
  | x :: rest => keep ← f x; kept ← filter_outcome f rest; Return (if (keep : bool) then x :: kept else kept)
  end.

Definition routable_models_with (accounts : Accounts) (installed : string → bool) : outcome (list DetectedModel) :=
  let admitted := admitted_candidates_with accounts installed in
  filter_outcome (offered accounts admitted)
    (models_where accounts (λ a, ah_routable (project_with installed a))).

(** ** routing.rs: which adapter *)

Inductive Transport : Type :=
| AnthropicApi | OpenAiApi | GeminiApi | OpenRouterApi | ClaudeCodeCli | CodexCli | GeminiCli | OllamaCli.

(** The transport of a lane's account, by credential and canonical provider. *)
Definition transport_for (account : ProviderAccount) : option Transport :=
  let c := canonical_provider_id (pa_provider account) in
  match pa_credential account with
  | ApiKey =>
      if bool_decide (c = "claude") then Some AnthropicApi
      else if bool_decide (c = "codex") then Some OpenAiApi
      else if bool_decide (c = "gemini") then Some GeminiApi
      else if bool_decide (c = "openrouter") then Some OpenRouterApi else None
  | OauthCli _ =>
      if bool_decide (c = "claude") then Some ClaudeCodeCli
      else if bool_decide (c = "codex") then Some CodexCli
      else if bool_decide (c = "gemini") then Some GeminiCli else None
  | LocalRuntime _ => if bool_decide (c = "ollama") then Some OllamaCli else None
  | OAuth _ => None
  end.

Definition resolve_admitted_adapter (lane : RegistryAdmittedLane) (installed : string → bool)
    : result ProviderAdmissionDenial (RegistryAdmittedLane * Transport) :=
  _ ← admit_account (ln_account lane) (lane_provider_model_id lane) installed;
  match transport_for (ln_account lane) with
  | Some t => Ok (lane, t)
  | None => Err UnsupportedProvider
  end.

(** API keys first, otherwise in registry order. *)
Definition is_api_key (a : ProviderAccount) : bool := bool_decide (pa_credential a = ApiKey).
Definition keys_first (accounts : Accounts) : Accounts :=
  List.filter is_api_key accounts ++ List.filter (λ a, negb (is_api_key a)) accounts.

(** The loop over accounts: the first admission decides; the last denial is
    what is reported. *)
Fixpoint try_accounts (registry accounts : Accounts) (model_id : string) (installed : string → bool)
    (denial : ProviderAdmissionDenial) : result ProviderAdmissionDenial (RegistryAdmittedLane * Transport) :=
  match accounts with
  | [] => Err denial
  | account :: rest =>
      match admit_registry_lane_with registry (pa_account_id account) model_id installed with
      | Ok lane => resolve_admitted_adapter lane installed
      | Err e => try_accounts registry rest model_id installed e
      end
  end.

Definition resolve_adapter_from_registry (registry : Accounts) (provider model_id : string)
    (installed : string → bool) : result ProviderAdmissionDenial (RegistryAdmittedLane * Transport) :=
  match registry_provider_for provider with
  | None => Err UnsupportedProvider
  | Some vendor =>
      if is_blank model_id then Err ModelUnavailable
      else
        try_accounts registry
          (keys_first (List.filter (λ a, bool_decide (canonical_provider_id (pa_provider a) = canonical_provider_id vendor)) registry))
          model_id installed AccountMissing
  end.
