(* ===== verification/ProviderStreams.v ===== *)
(** * The streaming loop of the direct adapters (crates/heiwa_provider/src/providers/stream.rs)

    A provider's vocabulary is an interface, [SseConsumer]; the loop is written
    and proved against it, and each adapter discharges its laws. *)

From stdpp Require Import base gmap sets strings numbers list.
From Stdlib Require Import Ascii.
From S2P Require Import Prelude Utf8 Json CallCosts Sse ModelExecution.
#[local] Open Scope Z_scope.

(** ** The interface *)

Class SseConsumer (C : Type) : Type := {
  consume : C → SseEvent → list StreamEvent * C;
  finish : C → list StreamEvent * C;
}.

Definition is_terminal (e : StreamEvent) : bool :=
  match e with Done _ | StreamError _ => true | _ => false end.

Notation is_delta := (λ e, is_terminal e = false) (only parsing).

(** Events none of which, but the last, is terminal. *)
Definition closing (l : list StreamEvent) : Prop :=
  ∃ deltas t, l = deltas ++ [t] ∧ Forall is_delta deltas ∧ is_terminal t = true.

(** What the loop relies on: while a consumer is open, an event gives deltas
    and leaves it open, or closes the reply; the end always closes it. *)
Class SseConsumerLaws (C : Type) `{SseConsumer C} : Type := {
  open : C → Prop;
  consume_open : ∀ c e, open c → closing (consume c e).1 ∨ Forall is_delta (consume c e).1 ∧ open (consume c e).2;
  finish_open : ∀ c, open c → closing (finish c).1;
}.

(** ** The loop *)

(** What the network delivers to a poll; nothing more is the end of the body. *)
Inductive Feed : Type :=
| Chunk (b : bytes)
| FeedFailed (error : string)
| Stalled.

(** How many more events the receiver takes before it goes away. *)
Notation Receiver := (option nat) (only parsing).

Definition try_send (rx : Receiver) : option Receiver :=
  match rx with
  | None => Some None
  | Some (S n) => Some (Some n)
  | Some O => None
  end.

(** The stream events of one event: what is sent, and [None] when the loop
    returns. *)
Fixpoint deliver (rx : Receiver) (events : list StreamEvent) : list StreamEvent * option Receiver :=
  match events with
  | [] => ([], Some rx)
  | e :: events =>
      match try_send rx with
      | None => ([], None)
      | Some rx =>
          if is_terminal e then ([e], None)
          else let '(sent, r) := deliver rx events in (e :: sent, r)
      end
  end.

Fixpoint deliver_all `{SseConsumer C} (consumer : C) (rx : Receiver) (events : list SseEvent)
    : list StreamEvent * option (C * Receiver) :=
  match events with
  | [] => ([], Some (consumer, rx))
  | e :: events =>
      let '(out, consumer) := consume consumer e in
      match deliver rx out with
      | (sent, None) => (sent, None)
      | (sent, Some rx) => let '(sent', r) := deliver_all consumer rx events in (sent ++ sent', r)
      end
  end.

(** The last loop, which sends on after a terminal event. *)
Fixpoint send_all (rx : Receiver) (events : list StreamEvent) : list StreamEvent :=
  match events with
  | [] => []
  | e :: events => match try_send rx with None => [] | Some rx => e :: send_all rx events end
  end.

(** A call as of a moment: the events it has sent, and its result once it has
    returned.  [None]: it is still waiting for the outside. *)
Definition Reply : Type := list StreamEvent * option (result string unit).

Definition fail (rx : Receiver) (message : string) : Reply :=
  (match try_send rx with Some _ => [StreamError message] | None => [] end, Some (Err message)).

Definition stalled_message (provider : string) : string := provider +:+ " stream stalled: no data for 180s".
Definition failed_message (provider error : string) : string := provider +:+ " stream failed: " +:+ error.

(** [body] is what has been delivered so far, [ended] whether the body ended
    with it: one that goes on forever is at no moment ended. *)
Fixpoint pump_loop `{SseConsumer C} (provider : string) (consumer : C) (carry : bytes) (rx : Receiver)
    (ended : bool) (body : list Feed) : Reply :=
  match body with
  | [] => if ended then (send_all rx (finish consumer).1, Some (Ok tt)) else ([], None)
  | Stalled :: _ => fail rx (stalled_message provider)
  | FeedFailed error :: _ => fail rx (failed_message provider error)
  | Chunk b :: body =>
      let '(events, carry) := push carry (utf8_lossy b) in
      match deliver_all consumer rx events with
      | (sent, None) => (sent, Some (Ok tt))
      | (sent, Some (consumer, rx)) =>
          let '(sent', r) := pump_loop provider consumer carry rx ended body in (sent ++ sent', r)
      end
  end.

Definition pump `{SseConsumer C} (provider : string) (consumer : C) (rx : Receiver) (ended : bool) (body : list Feed)
    : Reply := pump_loop provider consumer [] rx ended body.

(** What is on the channel, once the task of [run_adapter] has ended if the call
    has returned. *)
Definition task_events (r : Reply) : list StreamEvent :=
  r.1 ++ match r.2 with Some (Err e) => [StreamError ("adapter error: " +:+ e)] | _ => [] end.

(** A call that answers: it has returned, and on the channel there are deltas
    and a terminal event; the adapter sent both or nothing, and the error it
    returns, if it sent anything, is the one it sent. *)
Definition answers (r : Reply) : Prop :=
  is_Some r.2 ∧
  ∃ deltas t,
    (∃ rest, task_events r = deltas ++ t :: rest) ∧ Forall is_delta deltas ∧ is_terminal t = true ∧
    (r.1 = [] ∨ r.1 = deltas ++ [t] ∧ ∀ m, r.2 = Some (Err m) → t = StreamError m).

(** A call that has sent nothing but deltas and has not returned. *)
Definition waits (r : Reply) : Prop := r.2 = None ∧ Forall is_delta r.1.

(** ** What a reply is *)

(** The reply to a sequence of events, without a network. *)
Fixpoint reply `{SseConsumer C} (consumer : C) (events : list SseEvent) : list StreamEvent :=
  match events with
  | [] => (finish consumer).1
  | e :: events =>
      let '(out, consumer) := consume consumer e in
      if existsb is_terminal out then out else out ++ reply consumer events
  end.

(** What the session keeps of the deltas. *)
Definition delta_text `{JsonText} (e : StreamEvent) : string :=
  match e with
  | Token t => t
  | ToolUse name input => tool_call_text name input
  | _ => EmptyString
  end.

Definition reply_text `{JsonText} (deltas : list StreamEvent) : string :=
  foldl (λ text e, text +:+ delta_text e) EmptyString deltas.

Definition some_delta (deltas : list StreamEvent) : bool := negb (bool_decide (deltas = [])).

(** What [run_adapter] makes of a terminal event. *)
Definition outcome_of (text : string) (emitted : bool) (t : StreamEvent)
    : option (result AdapterRunError (string * TokenUsage * bool)) :=
  match t with
  | Done usage => Some (Ok (text, usage, emitted))
  | StreamError e => Some (Err (RunFailed e emitted))
  | _ => None
  end.

(** ** Sending *)

Lemma deliver_deltas l : Forall is_delta l → deliver None l = (l, Some None).
Proof. induction 1 as [|e l He _ IH]; [done|]. simpl. rewrite He. by rewrite IH. Qed.

Lemma deliver_closing deltas t rest :
  Forall is_delta deltas → is_terminal t = true →
  deliver None (deltas ++ t :: rest) = (deltas ++ [t], None).
Proof. intros Hd Ht. induction Hd as [|e l He _ IH]; simpl; [by rewrite Ht|]. rewrite He. by rewrite IH. Qed.

Lemma send_all_stays l : send_all None l = l.
Proof. induction l as [|e l IH]; [done|]. simpl. by rewrite IH. Qed.

Lemma send_all_leaves n : ∀ l, send_all (Some n) l = take n l.
Proof. induction n as [|n IH]; intros [|e l]; simpl; try done. by rewrite IH. Qed.

Lemma deltas_not_terminal l : Forall is_delta l → existsb is_terminal l = false.
Proof. induction 1 as [|e l He _ IH]; [done|]. simpl. by rewrite He. Qed.

Lemma closing_terminal l : closing l → existsb is_terminal l = true.
Proof. intros (d & t & -> & _ & Ht). rewrite existsb_app. simpl. by rewrite Ht, orb_true_r. Qed.

Lemma closing_app deltas l : Forall is_delta deltas → closing l → closing (deltas ++ l).
Proof.
  intros Hd (d & t & -> & Hd' & Ht). exists (deltas ++ d), t. rewrite app_assoc. by rewrite Forall_app.
Qed.

Lemma closing_one t : is_terminal t = true → closing [t].
Proof. intros Ht. exists [], t. by rewrite Forall_nil. Qed.

(** A receiver that leaves after [n] events takes what one that stays takes,
    up to the [n]th. *)
Lemma deliver_leaves l : ∀ n,
  (deliver (Some n) l).1 = take n (deliver None l).1 ∧
  match (deliver None l).2 with
  | Some _ => (deliver (Some n) l).2 = (if (length (deliver None l).1 <=? n)%nat then Some (Some (n - length (deliver None l).1)%nat) else None)
  | None => (deliver (Some n) l).2 = None
  end.
Proof.
  induction l as [|e l IH]; intros n; [by destruct n|]. simpl. destruct n as [|n].
  { simpl. destruct (is_terminal e); [done|]. by destruct (deliver None l) as [sent [r|]]. }
  simpl. destruct (is_terminal e); [simpl; by rewrite take_nil|]. destruct (IH n) as [H1 H2].
  destruct (deliver None l) as [sent r]. destruct (deliver (Some n) l) as [sent' r']. simpl in *. subst sent'.
  split; [done|]. by destruct r.
Qed.

(** What a receiver with room for [n] events leaves of the room it had. *)
Definition left_after (n : nat) (sent : list StreamEvent) : option Receiver :=
  if (length sent <=? n)%nat then Some (Some (n - length sent)%nat) else None.

Lemma left_after_app n a b : left_after n (a ++ b) =
  match left_after n a with Some (Some m) => left_after m b | r => r end.
Proof.
  unfold left_after. rewrite length_app.
  destruct (Nat.leb_spec (length a) n), (Nat.leb_spec (length a + length b) n); try lia.
  - destruct (Nat.leb_spec (length b) (n - length a)); try lia. do 2 f_equal. lia.
  - destruct (Nat.leb_spec (length b) (n - length a)); [lia|done].
  - done.
Qed.

Section laws.
Context `{SseConsumerLaws C}.
Implicit Types (c : C).

Lemma deliver_all_leaves events : ∀ c n,
  (deliver_all c (Some n) events).1 = take n (deliver_all c None events).1 ∧
  (deliver_all c (Some n) events).2 =
    match (deliver_all c None events).2 with
    | Some (c', _) => (λ rx, (c', rx)) <$> left_after n (deliver_all c None events).1
    | None => None
    end.
Proof using Type*.
  induction events as [|e events IH]; intros c n; simpl.
  { unfold left_after. simpl. by rewrite Nat.sub_0_r, take_nil. }
  destruct (consume c e) as [out c']. destruct (deliver_leaves out n) as [H1 H2].
  destruct (deliver None out) as [sent r] eqn:E. destruct (deliver (Some n) out) as [sent' r'].
  cbn [fst snd] in H1, H2. subst sent'. destruct r as [rx|]; [|by subst r'].
  assert (rx = None) as ->.
  { clear -E. revert sent rx E. induction out as [|e' out IH]; intros sent rx; simpl; [by intros [= _ <-]|].
    destruct (is_terminal e'); [done|]. destruct (deliver None out) as [s [rx'|]]; intros [= _ <-]. by apply (IH s). }
  change (r' = left_after n sent) in H2. subst r'.
  destruct (deliver_all c' None events) as [s2 r2] eqn:E2.
  destruct (left_after n sent) as [rx|] eqn:El.
  - unfold left_after in El. destruct (Nat.leb_spec (length sent) n) as [Hle|]; [|done]. injection El as <-.
    destruct (IH c' (n - length sent)%nat) as [IH1 IH2]. rewrite E2 in IH1, IH2.
    destruct (deliver_all c' (Some _) events) as [s2' r2']. cbn [fst snd] in *. subst s2' r2'.
    rewrite take_app, (take_ge sent) by done. split; [done|].
    destruct r2 as [[c2 ?]|]; [|done]. rewrite left_after_app. unfold left_after at 2.
    by destruct (Nat.leb_spec (length sent) n); [|lia].
  - unfold left_after in El. destruct (Nat.leb_spec (length sent) n) as [|Hlt]; [done|].
    cbn [fst snd]. rewrite take_app_le by lia. split; [done|].
    destruct r2 as [[c2 ?]|]; [|done]. rewrite left_after_app. unfold left_after at 1.
    by destruct (Nat.leb_spec (length sent) n); [lia|].
Qed.

(** The events of a push, from an open consumer to a receiver that stays: the
    reply is closed, or everything was a delta and the consumer is open. *)
Lemma deliver_all_open events : ∀ c, open c →
  match deliver_all c None events with
  | (sent, None) => closing sent ∧ ∀ rest, reply c (events ++ rest) = sent
  | (sent, Some (c', rx)) =>
      Forall is_delta sent ∧ open c' ∧ rx = None ∧ ∀ rest, reply c (events ++ rest) = sent ++ reply c' rest
  end.
Proof using Type*.
  induction events as [|e events IH]; intros c Hc; [by split; [apply Forall_nil_2|]|]. cbn [deliver_all app reply].
  pose proof (consume_open c e Hc) as Hlaw. destruct (consume c e) as [out c1]. cbn [fst snd] in Hlaw.
  destruct Hlaw as [Hcl|[Hd Hc1]].
  - pose proof (closing_terminal _ Hcl) as Ht. pose proof Hcl as (deltas & t & Hout & Hd & Htt).
    rewrite Hout, deliver_closing, <- Hout by done. split; [done|]. intros rest. by rewrite Ht.
  - rewrite deliver_deltas, deltas_not_terminal by done. specialize (IH c1 Hc1).
    destruct (deliver_all c1 None events) as [sent [[c' rx]|]].
    + destruct IH as (Hs & Hc' & -> & Hr). split; [by apply Forall_app|]. split; [done|]. split; [done|].
      intros rest. by rewrite Hr, app_assoc.
    + destruct IH as [Hs Hr]. split; [by apply closing_app|]. intros rest. by rewrite Hr.
Qed.

(** The whole loop, to a receiver that stays: it closes the reply, or it waits
    for more of a body that has not ended. *)
Lemma pump_loop_closes provider ended body : ∀ c carry, open c →
  let r := pump_loop provider c carry None ended body in
  (waits r ∧ ended = false) ∨
  (is_Some r.2 ∧ closing r.1 ∧ ∀ m, r.2 = Some (Err m) → ∃ deltas, r.1 = deltas ++ [StreamError m]).
Proof using Type*.
  induction body as [|[b|error|] body IH]; intros c carry Hc; cbn [pump_loop].
  - destruct ended; [right|left; split; [split; [done|by apply Forall_nil]|done]].
    rewrite send_all_stays. split; [done|]. by split; [apply finish_open|].
  - destruct (push carry (utf8_lossy b)) as [events carry']. pose proof (deliver_all_open events c Hc) as Hd.
    destruct (deliver_all c None events) as [sent [[c' rx]|]]; [|right; by destruct Hd].
    destruct Hd as (Hs & Hc' & -> & _). specialize (IH c' carry' Hc').
    destruct (pump_loop provider c' carry' None ended body) as [sent' r]. unfold waits in *. cbn [fst snd] in *.
    destruct IH as [[[-> Hw] ->]|(Hr & Hcl & Hm)]; [left; by rewrite Forall_app|right].
    split; [done|]. split; [by apply closing_app|]. intros m Heq. destruct (Hm m Heq) as [deltas ->].
    exists (sent ++ deltas). by rewrite app_assoc.
  - right. split; [done|]. split; [by apply closing_one|]. intros m [= <-]. by exists [].
  - right. split; [done|]. split; [by apply closing_one|]. intros m [= <-]. by exists [].
Qed.

(** A receiver that leaves sees the beginning. *)
Lemma pump_loop_leaves provider ended body : ∀ c carry n, open c →
  (pump_loop provider c carry (Some n) ended body).1 = take n (pump_loop provider c carry None ended body).1.
Proof using Type*.
  induction body as [|[b|error|] body IH]; intros c carry n Hc; cbn [pump_loop fst].
  - destruct ended; cbn [fst]; [by rewrite send_all_stays, send_all_leaves|by rewrite take_nil].
  - destruct (push carry (utf8_lossy b)) as [events carry']. pose proof (deliver_all_open events c Hc) as Hd.
    destruct (deliver_all_leaves events c n) as [H1 H2].
    destruct (deliver_all c (Some n) events) as [sent' r']. cbn [fst snd] in H1, H2. subst sent' r'.
    destruct (deliver_all c None events) as [sent [[c' rx]|]]; [|done]. destruct Hd as (_ & Hc' & -> & _). cbn [fst snd].
    unfold left_after. destruct (Nat.leb_spec (length sent) n) as [Hle|Hlt]; cbn [fmap option_fmap option_map].
    + specialize (IH c' carry' (n - length sent)%nat Hc').
      destruct (pump_loop provider c' carry' (Some _) ended body) as [s1 r1].
      destruct (pump_loop provider c' carry' None ended body) as [s2 r2]. cbn [fst] in *. subst s1.
      by rewrite take_app, (take_ge sent) by done.
    + destruct (pump_loop provider c' carry' None ended body) as [s2 r2]. cbn [fst]. by rewrite take_app_le by lia.
  - by destruct n as [|n]; simpl; rewrite ?take_nil.
  - by destruct n as [|n]; simpl; rewrite ?take_nil.
Qed.

(** Chunks that decode to themselves. *)
Lemma pump_loop_reply provider chunks : ∀ c carry, open c →
  Forall (λ b, utf8_lossy b = b) chunks →
  pump_loop provider c carry None true (map Chunk chunks) = (reply c (push_all carry chunks).1, Some (Ok tt)).
Proof using Type*.
  induction chunks as [|b chunks IH]; intros c carry Hc Hu; cbn [map pump_loop push_all fst].
  { by rewrite send_all_stays. }
  apply Forall_cons in Hu as [Hb Hu]. rewrite Hb. destruct (push carry b) as [events carry'].
  pose proof (deliver_all_open events c Hc) as Hd.
  destruct (push_all carry' chunks) as [events' carry''] eqn:Hp. cbn [fst].
  destruct (deliver_all c None events) as [sent [[c' rx]|]].
  - destruct Hd as (_ & Hc' & -> & Hr). rewrite (IH c' carry') by done. rewrite Hp. cbn [fst]. by rewrite Hr.
  - destruct Hd as [_ Hr]. by rewrite Hr.
Qed.

End laws.

(** ** Running an adapter *)

Section runs.
Context `{JsonText}.

(** The deltas of a stream reach the delta channel and the text, whatever the
    cancel switch does as long as it is not switched on. *)
Lemma run_loop_reply polls : ∀ deltas t rest text emitted cancel_open,
  omap po_event polls = map Some (deltas ++ t :: rest) →
  Forall (λ p, po_cancel p ≠ Some (Some true)) polls →
  Forall is_delta deltas → is_terminal t = true →
  run_loop polls text emitted cancel_open =
    (deltas, outcome_of (foldl (λ text e, text +:+ delta_text e) text deltas) (emitted || some_delta deltas) t).
Proof using Type*.
  induction polls as [|[ev ch] polls IH]; intros deltas t rest text emitted cancel_open Hp Hc Hd Ht; [by destruct deltas|].
  apply Forall_cons in Hc as [Hch Hc]. cbn [po_event po_cancel run_loop] in *.
  cbn [omap list_omap] in Hp. simpl in Hp. destruct ev as [ev|]; simpl in Hp.
  2:{ destruct ch as [[[|]|]|]; [done| | |]; try destruct cancel_open; by eapply IH. }
  destruct deltas as [|d deltas]; simpl in Hp.
  { injection Hp as -> _. by destruct t; try done; simpl; rewrite orb_false_r. }
  injection Hp as -> Hp. apply Forall_cons in Hd as [Hd0 Hd].
  destruct d; try done; rewrite (IH deltas t rest) by done; simpl; by rewrite orb_true_r.
Qed.

End runs.

(** An error before anything is sent is reported by the task. *)
Lemma error_answers e : answers ([], Some (Err e)).
Proof.
  split; [done|]. exists [], (StreamError ("adapter error: " +:+ e)). split; [by exists []|].
  split; [by apply Forall_nil|]. split; [done|]. by left.
Qed.

Lemma fail_answers m : answers (fail None m).
Proof.
  split; [done|]. exists [], (StreamError m). split; [by eexists|]. split; [by apply Forall_nil|]. split; [done|].
  right. split; [done|]. by intros ? [= <-].
Qed.

(** Less than that: the call has returned, and on the channel there are deltas
    and a terminal event, the adapter's or the one the task reports its error
    by. *)
Definition reports (r : Reply) : Prop :=
  is_Some r.2 ∧ ∃ deltas t rest, task_events r = deltas ++ t :: rest ∧ Forall is_delta deltas ∧ is_terminal t = true.

Lemma answers_reports r : answers r → reports r.
Proof. intros (Hr & d & t & (rest & Ht) & Hf & Htt & _). split; [done|]. by exists d, t, rest. Qed.

Lemma reports_app deltas r : Forall is_delta deltas → reports r → reports (deltas ++ r.1, r.2).
Proof.
  intros Hd (Hr & d & t & rest & Ht & Hf & Htt). split; [done|]. exists (deltas ++ d), t, rest.
  split; [|by rewrite Forall_app]. unfold task_events in *. simpl. by rewrite <- !app_assoc, Ht.
Qed.

Lemma waits_app deltas r : Forall is_delta deltas → waits r → waits (deltas ++ r.1, r.2).
Proof. intros Hd [Hr Hs]. split; [done|]. by apply Forall_app. Qed.

Lemma done_reports u : reports ([Done u], Some (Ok tt)).
Proof. split; [done|]. exists [], (Done u), []. by rewrite Forall_nil. Qed.

Lemma error_reports e : reports ([], Some (Err e)).
Proof. apply answers_reports, error_answers. Qed.

Lemma waits_nothing : waits ([], None).
Proof. split; [done|]. by apply Forall_nil. Qed.

(** A call reports, or waits, and then [blame] holds of the outside. *)
Definition reports_or (blame : Prop) (r : Reply) : Prop := reports r ∨ waits r ∧ blame.

Lemma reports_or_app blame deltas r :
  Forall is_delta deltas → reports_or blame r → reports_or blame (deltas ++ r.1, r.2).
Proof. intros Hd [Hr|[Hr Hb]]; [left; by apply reports_app|right; split; [by apply waits_app|done]]. Qed.

(** [run_adapter], polled at any moments and not cancelled, ends such a call by
    the first terminal event, with the deltas before it. *)
Lemma reports_run `{JsonText} r polls :
  reports r → omap po_event polls = map Some (task_events r) →
  Forall (λ p, po_cancel p ≠ Some (Some true)) polls →
  ∃ deltas t rest,
    task_events r = deltas ++ t :: rest ∧ Forall is_delta deltas ∧ is_terminal t = true ∧
    run_adapter false polls = (deltas, outcome_of (reply_text deltas) (some_delta deltas) t).
Proof.
  intros (_ & deltas & t & rest & Ht & Hd & Htt) Hp Hc. exists deltas, t, rest.
  split; [done|]. split; [done|]. split; [done|]. unfold run_adapter. rewrite Ht in Hp.
  by rewrite (run_loop_reply polls deltas t _ _ _ _ Hp Hc Hd Htt).
Qed.

(** ** The properties *)

Section theorems.
Context `{SseConsumerLaws C} `{JsonText}.

(** The loop answers, or waits for a body that has not ended, and a receiver
    that goes away has seen the beginning. *)
Lemma pump_answers (provider : string) (c : C) (ended : bool) (body : list Feed) :
  open c →
  (answers (pump provider c None ended body) ∨ waits (pump provider c None ended body) ∧ ended = false) ∧
  (∀ n, (pump provider c (Some n) ended body).1 = take n (pump provider c None ended body).1).
Proof using Type*.
  intros Hc. unfold pump. split; [|intros n; by apply pump_loop_leaves].
  destruct (pump_loop_closes provider ended body c [] Hc) as [?|(Hr & (deltas & t & Hs & Hd & Ht) & Hm)]; [by right|left].
  split; [done|]. exists deltas, t. split; [|split; [done|split; [done|]]].
  - unfold task_events. rewrite Hs, <- app_assoc. by eexists.
  - right. split; [done|]. intros m Herr. destruct (Hm m Herr) as [d' Hd'].
    rewrite Hs in Hd'. by apply app_inj_2 in Hd' as [_ [= ->]].
Qed.

(** C36.  The reply does not depend on the chunks.  A body whose chunks are
    whole UTF-8 text, and in which every carriage return belongs to a line
    feed, gives the reply to the events that reading the whole body line by
    line dispatches; so two ways of cutting one body give the same events. *)
Theorem reply_is_the_body (provider : string) (c : C) (chunks : list bytes) :
  open c → Forall (λ b, utf8_lossy b = b) chunks → cr_paired (concat chunks) = true →
  pump provider c None true (map Chunk chunks) = (reply c (dispatched reader_start (concat chunks)), Some (Ok tt)).
Proof using Type*.
  intros Hc Hu Hp. unfold pump. rewrite pump_loop_reply by done. by rewrite push_all_dispatched.
Qed.

End theorems.
