(* ===== verification/ProviderHttp.v ===== *)
(** * Calls to a provider's endpoint (crates/heiwa_provider: registry.rs, routing.rs, providers/)

    The secret of an account, the endpoint of its provider, and what a direct
    adapter does with a response.  The keychain, the environment and the
    network are arguments: the answer to each question that is asked, which of
    the network may be that none has come. *)

From stdpp Require Import base gmap sets strings numbers list.
From Stdlib Require Import Ascii.
From S2P Require Import Prelude Utf8 Json Sensitive CallCosts Provider Sse ModelExecution ProviderStreams.
#[local] Open Scope Z_scope.

(** ** Values *)

Definition member (v : json) (k : string) : json := default JNull (json_get k v).

(** [v[i]] of a number *)
Definition element (v : json) (i : nat) : json :=
  match v with JArray l => default JNull (l !! i) | _ => JNull end.

Definition as_array (v : json) : option (list json) := match v with JArray l => Some l | _ => None end.
Definition is_null (v : json) : bool := match v with JNull => true | _ => false end.
Definition is_object (v : json) : bool := match v with JObject _ => true | _ => false end.

(** [get(k).filter(|v| !v.is_null())] *)
Definition present (k : string) (v : json) : option json :=
  json_get k v ≫= λ x, if is_null x then None else Some x.

Definition as_u32 (z : Z) : Z := z mod 2 ^ 32.

(** [v[k].as_u64().unwrap_or(0) as u32] *)
Definition count (v : json) (k : string) : Z := as_u32 (default 0 (as_u64 (member v k))).

Definition str_or (d : string) (v : json) : string := default d (as_str v).

(** [text.filter(|text| !text.is_empty())] *)
Definition nonempty (o : option string) : option string :=
  o ≫= λ t, if bool_decide (t = EmptyString) then None else Some t.

(** [s.trim_end_matches(c)] *)
Definition trim_end_byte (c : ascii) (s : string) : string :=
  let r := rev (as_bytes s) in
  String.string_of_list_ascii (rev (strip_all (length r) [[c]] r)).
Definition trim_slashes (s : string) : string := trim_end_byte "/"%char s.

(** ** Secrets (registry.rs) *)

Definition ENV_KEY_PROVIDERS : list (string * string) :=
  [("anthropic", "anthropic_api"); ("openai", "openai_api"); ("google", "google"); ("openrouter", "openrouter")].

Definition key_env_vars (provider : string) : list string :=
  if bool_decide (provider = "anthropic") then ["ANTHROPIC_API_KEY"]
  else if bool_decide (provider = "openai") then ["OPENAI_API_KEY"]
  else if bool_decide (provider = "google") then ["GEMINI_API_KEY"; "GOOGLE_API_KEY"]
  else if bool_decide (provider = "openrouter") then ["OPENROUTER_API_KEY"]
  else [].

Definition dash (a : ascii) : bool := bool_decide (a = "-"%char).

(** [account_id.split('-').next()] *)
Definition id_provider (account_id : string) : string :=
  String.string_of_list_ascii (default [] (head (split_at dash (as_bytes account_id)))).

Definition usable_value (value : string) : option string := if is_blank value then None else Some value.

Definition environment_secret (env : string → option string) (account_id : string) : option string :=
  head (omap (λ name, env name ≫= usable_value) (key_env_vars (id_provider account_id))).

Definition resolve_secret_with (account_id : string) (stored : string → result string (option string))
    (env : string → option string) : result string (option string) :=
  match stored account_id with
  | Ok (Some secret) => Ok (Some secret)
  | Ok None => Ok (environment_secret env account_id)
  | Err error => match environment_secret env account_id with Some s => Ok (Some s) | None => Err error end
  end.

(** ** Endpoints (routing.rs) *)

Definition base_url_env_var (canonical_provider : string) : option string :=
  if bool_decide (canonical_provider = "claude") then Some "ANTHROPIC_BASE_URL"
  else if bool_decide (canonical_provider = "codex") then Some "OPENAI_BASE_URL"
  else if bool_decide (canonical_provider = "gemini") then Some "GEMINI_BASE_URL"
  else None.

Definition env_base_url (env : string → option string) (canonical_provider : string) : option string :=
  name ← base_url_env_var canonical_provider;
  value ← env name;
  if bool_decide (trim value = EmptyString) then None else Some (trim value).

Definition api_base_url (env : string → option string) (provider default_url : string) : string :=
  default default_url (env_base_url env (canonical_provider_id provider)).

(** ** Requests and responses *)

Record HttpRequest : Type := mkRequest {
  rq_method : string;
  rq_url : string;
  rq_headers : list (string * string);
  rq_body : option json;
}.

(** [.bearer_auth(key)] *)
Definition bearer (key : string) : string * string := ("authorization", "Bearer " +:+ key).

(** The status, its [Display], the body as text (if it has come to its end), as
    JSON and as a stream, of which so far [rs_stream] was delivered. *)
Record HttpResponse : Type := mkResponse {
  rs_status : Z;
  rs_display : string;
  rs_text : option (result string string);
  rs_json : result string json;
  rs_stream : list Feed;
  rs_ended : bool;
}.

Definition is_success (r : HttpResponse) : bool := (200 <=? rs_status r) && (rs_status r <=? 299).

(** [response.text().await.unwrap_or_default()]; a text that has not come to
    its end is still awaited. *)
Definition detail_of (r : HttpResponse) : option string :=
  (λ t, match t with Ok t => t | Err _ => EmptyString end) <$> rs_text r.

(** The network to a call: its client bounds the time to connect and nothing
    after that, so a request may have no answer as yet, or ever. *)
Notation Http := (HttpRequest → option (result string HttpResponse)) (only parsing).

(** What an adapter does with the response: the label names the provider in
    its messages. *)
Definition answer_response `{SseConsumer C} (label : string) (consumer : C) (rx : option nat) (r : HttpResponse) : Reply :=
  if is_success r then pump label consumer rx (rs_ended r) (rs_stream r)
  else match detail_of r with
       | Some detail => fail rx (label +:+ " HTTP " +:+ rs_display r +:+ ": " +:+ detail)
       | None => ([], None)
       end.

(** What a call of [send] did: the requests in order, the events, the result. *)
Definition Sent : Type := list HttpRequest * Reply.

(** The shape of the direct adapters' [send]: the key, a request, its answer. *)
Definition send_keyed `{SseConsumer C} (label no_key : string) (consumer : C) (rx : option nat)
    (key : result string (option string)) (request : string → HttpRequest) (http : Http) : Sent :=
  match key with
  | Err e => ([], ([], Some (Err e)))
  | Ok None => ([], ([], Some (Err no_key)))
  | Ok (Some k) =>
      ([request k],
       match http (request k) with
       | None => ([], None)
       | Some (Err e) => ([], Some (Err e))
       | Some (Ok r) => answer_response label consumer rx r
       end)
  end.

(** [self.api_key], or the keychain's *)
Definition adapter_key (api_key : option string) (resolved : result string (option string))
    : result string (option string) :=
  match api_key with Some k => Ok (Some k) | None => resolved end.

(** ** Discovery *)

(** Requests for a list of models are made by clients that bound the time of the
    whole exchange: each ends in a response or an error. *)

(** An error of [discover_models]: with the status of the endpoint, or any
    other. *)
Inductive DiscoverError : Type :=
| DiscoveryError (status : Z) (detail : string)
| OtherError (message : string).

Definition discovered (response : result string HttpResponse) (models : json → list DetectedModel)
    : result DiscoverError (list DetectedModel) :=
  match response with
  | Err e => Err (OtherError e)
  | Ok r =>
      if is_success r then match rs_json r with Ok body => Ok (models body) | Err e => Err (OtherError e) end
      else Err (DiscoveryError (rs_status r) (default EmptyString (detail_of r)))
  end.

(** ** Lemmas *)

Lemma trim_end_byte_suffix c s : ∃ t, as_bytes s = as_bytes (trim_end_byte c s) ++ t.
Proof.
  unfold trim_end_byte. destruct (strip_all_suffix [[c]] (length (rev (as_bytes s))) (rev (as_bytes s))) as [pre Hp].
  exists (rev pre). unfold as_bytes at 2. rewrite String.list_ascii_of_string_of_list_ascii.
  rewrite <- rev_app_distr, <- Hp. by rewrite rev_involutive.
Qed.

(** An account with no stored secret has one exactly when a variable of its
    vendor has a value; a stored one is used, whatever the environment. *)
Lemma environment_secret_usable env id s :
  environment_secret env id = Some s → is_blank s = false ∧ ∃ name, name ∈ key_env_vars (id_provider id) ∧ env name = Some s.
Proof.
  unfold environment_secret. intros Hh. apply head_Some_elem_of, list_elem_of_omap in Hh as (name & Hn & He).
  apply bind_Some in He as (v & Hv & Hu). unfold usable_value in Hu. destruct (is_blank v) eqn:E; [done|].
  injection Hu as ->. split; [done|]. by exists name.
Qed.

(** A response that leaves the adapter waiting: a stream that goes on, or the
    text of a refusal that does not come to its end. *)
Definition unfinished (r : HttpResponse) : Prop :=
  if is_success r then rs_ended r = false else rs_text r = None.

(** A request that leaves the adapter waiting. *)
Definition unanswered (answer : option (result string HttpResponse)) : Prop :=
  match answer with
  | None => True
  | Some (Ok r) => unfinished r
  | Some (Err _) => False
  end.

Lemma answer_response_reports `{SseConsumerLaws C} label (consumer : C) r :
  open consumer → reports_or (unfinished r) (answer_response label consumer None r).
Proof.
  intros Hc. unfold answer_response, unfinished, reports_or. destruct (is_success r).
  - destruct (pump_answers label consumer (rs_ended r) (rs_stream r) Hc) as [[Ha|Hw] _]; [|by right].
    left. by apply answers_reports.
  - unfold detail_of. destruct (rs_text r) as [t|]; simpl; [left; apply answers_reports, fail_answers|].
    right. split; [apply waits_nothing|done].
Qed.

(** Every way a direct adapter's [send] can go: it reports, or its request
    leaves it waiting. *)
Lemma send_keyed_reports `{SseConsumerLaws C} label no_key (consumer : C) key request http :
  open consumer →
  let s := send_keyed label no_key consumer None key request http in
  reports_or (∃ q, q ∈ s.1 ∧ unanswered (http q)) s.2.
Proof.
  intros Hc. unfold send_keyed. destruct key as [[k|]|e]; cbn [fst snd]; [|left; apply error_reports..].
  destruct (http (request k)) as [[r|e]|] eqn:E.
  - destruct (answer_response_reports label consumer r Hc) as [Hr|[Hw Hb]]; [by left|right].
    split; [done|]. exists (request k). split; [by apply list_elem_of_singleton|by rewrite E].
  - left. apply error_reports.
  - right. split; [apply waits_nothing|]. exists (request k). split; [by apply list_elem_of_singleton|by rewrite E].
Qed.

(** A key is needed for a request, and one request is made with it. *)
Lemma send_keyed_requests `{SseConsumer C} label no_key (consumer : C) rx key request http q :
  q ∈ (send_keyed label no_key consumer rx key request http).1 ↔ ∃ k, key = Ok (Some k) ∧ q = request k.
Proof.
  unfold send_keyed. destruct key as [[k|]|e]; cbn [fst].
  - rewrite list_elem_of_singleton. split; [intros ->; by exists k|by intros (k' & [= <-] & ->)].
  - split; [by intros ?%elem_of_nil|by intros (? & ? & _)].
  - split; [by intros ?%elem_of_nil|by intros (? & ? & _)].
Qed.
