(* ===== verification/AnthropicApi.v ===== *)
(** * The Anthropic adapter (crates/heiwa_provider/src/providers/anthropic_api.rs)

    The Messages API's event stream as a consumer, the request, the models a
    key can use, and the adapter's [send]. *)

From stdpp Require Import base gmap sets strings numbers list.
From Stdlib Require Import Ascii.
From S2P Require Import Prelude Utf8 Json Sensitive CallCosts Provider Sse ModelExecution ProviderStreams ProviderHttp.
#[local] Open Scope Z_scope.

Definition DEFAULT_BASE_URL : string := "https://api.anthropic.com".
Definition ANTHROPIC_VERSION : string := "2023-06-01".
Definition DEFAULT_MAX_TOKENS : Z := 16000.

(** ** The stream *)

Record PendingTool : Type := mkPendingTool { pt_name : string; pt_input : string }.

Record AnthropicStream : Type := mkAnthropic {
  an_usage : TokenUsage;
  an_pending : gmap Z PendingTool;
  an_done : bool;
}.

Definition default_usage : TokenUsage := mkUsage 0 0 0 0 0.
Definition anthropic_default : AnthropicStream := mkAnthropic default_usage ∅ false.

Definition block_index (payload : json) : Z := default 0 (as_u64 (member payload "index")).

Definition anthropic_finish (c : AnthropicStream) : list StreamEvent * AnthropicStream :=
  if an_done c then ([], c) else ([Done (an_usage c)], mkAnthropic (an_usage c) (an_pending c) true).

Definition event_kind (event : SseEvent) (payload : json) : string :=
  match se_name event with Some name => name | None => str_or EmptyString (member payload "type") end.

(** [message_start] *)
Definition start_usage (usage : json) (u : TokenUsage) : TokenUsage :=
  mkUsage (count usage "input_tokens") (tu_output_tokens u) (count usage "cache_read_input_tokens")
    (count usage "cache_creation_input_tokens") (tu_cost_usd u).

Definition with_output (n : Z) (u : TokenUsage) : TokenUsage :=
  mkUsage (tu_input_tokens u) n (tu_cache_read_tokens u) (tu_cache_write_tokens u) (tu_cost_usd u).

Definition with_usage (u : TokenUsage) (c : AnthropicStream) : AnthropicStream := mkAnthropic u (an_pending c) (an_done c).
Definition with_pending (p : gmap Z PendingTool) (c : AnthropicStream) : AnthropicStream := mkAnthropic (an_usage c) p (an_done c).

Definition is_tool_use (payload : json) : bool :=
  bool_decide (as_str (member (member payload "content_block") "type") = Some "tool_use").

Definition push_input (fragment : string) (t : PendingTool) : PendingTool := mkPendingTool (pt_name t) (pt_input t +:+ fragment).

(** [content_block_start], [content_block_delta] and [content_block_stop] *)
Definition block_start (payload : json) (c : AnthropicStream) : list StreamEvent * AnthropicStream :=
  ([], if is_tool_use payload
       then with_pending (<[block_index payload :=
              mkPendingTool (str_or EmptyString (member (member payload "content_block") "name")) EmptyString]> (an_pending c)) c
       else c).

Definition block_delta (payload : json) (c : AnthropicStream) : list StreamEvent * AnthropicStream :=
  let delta := member payload "delta" in
  match as_str (member delta "type") with
  | Some kind =>
      if bool_decide (kind = "text_delta") then
        (match nonempty (as_str (member delta "text")) with Some text => [Token text] | None => [] end, c)
      else if bool_decide (kind = "input_json_delta") then
        ([], match an_pending c !! block_index payload, as_str (member delta "partial_json") with
             | Some tool, Some fragment => with_pending (<[block_index payload := push_input fragment tool]> (an_pending c)) c
             | _, _ => c
             end)
      else ([], c)
  | None => ([], c)
  end.

Definition tool_use_of (tool : PendingTool) : StreamEvent :=
  ToolUse (pt_name tool) (if bool_decide (pt_input tool = EmptyString) then "{}" else pt_input tool).

Definition block_stop (payload : json) (c : AnthropicStream) : list StreamEvent * AnthropicStream :=
  match an_pending c !! block_index payload with
  | Some tool => ([tool_use_of tool], with_pending (delete (block_index payload) (an_pending c)) c)
  | None => ([], c)
  end.

Definition error_event (payload : json) : StreamEvent :=
  let error := member payload "error" in
  StreamError ("Anthropic " +:+ str_or "error" (member error "type") +:+ ": " +:+ str_or "unknown error" (member error "message")).

Section json.
Context `{JsonText}.

Definition anthropic_consume (c : AnthropicStream) (event : SseEvent) : list StreamEvent * AnthropicStream :=
  match from_str_value (se_data event) with
  | None => ([], c)
  | Some payload =>
      let kind := event_kind event payload in
      if bool_decide (kind = "message_start") then
        ([], with_usage (start_usage (member (member payload "message") "usage") (an_usage c)) c)
      else if bool_decide (kind = "content_block_start") then block_start payload c
      else if bool_decide (kind = "content_block_delta") then block_delta payload c
      else if bool_decide (kind = "content_block_stop") then block_stop payload c
      else if bool_decide (kind = "message_delta") then
        ([], match as_u64 (member (member payload "usage") "output_tokens") with
             | Some output => with_usage (with_output (as_u32 output) (an_usage c)) c
             | None => c
             end)
      else if bool_decide (kind = "message_stop") then anthropic_finish c
      else if bool_decide (kind = "error") then ([error_event payload], c)
      else ([], c)
  end.

#[export] Instance anthropic_consumer : SseConsumer AnthropicStream :=
  {| consume := anthropic_consume; finish := anthropic_finish |}.

End json.

(** ** The request *)

Definition is_system (m : Message) : bool := match msg_role m with RoleSystem => true | _ => false end.

(** The contents of the system messages, and the other messages. *)
Definition system_texts (messages : list Message) : list string := map msg_content (filter is_system messages).
Definition turns_of (messages : list Message) : list Message := filter (λ m, is_system m = false) messages.

Definition blank_line : string := String newline (String newline EmptyString).
Definition join_system (l : list string) : string := String.concat blank_line l.

Definition request_turn (m : Message) : json :=
  json_object [("role", JString (match msg_role m with RoleAssistant => "assistant" | _ => "user" end));
               ("content", JString (msg_content m))].

Definition build_request_body (model : string) (messages : list Message) (max_tokens : Z) : json :=
  json_object
    ([("model", JString model); ("max_tokens", JNumber (PosInt max_tokens));
      ("messages", JArray (map request_turn (turns_of messages))); ("stream", JBool true)] ++
     (if bool_decide (system_texts messages = []) then []
      else [("system", JString (join_system (system_texts messages)))])).

(** ** The models *)

Definition capability_class (id : string) : Z :=
  let id := lower (as_bytes id) in
  if contains (as_bytes "fable") id || contains (as_bytes "mythos") id || contains (as_bytes "opus") id then 5
  else if contains (as_bytes "sonnet") id then 4
  else if contains (as_bytes "haiku") id then 2
  else 3.

Definition listed_model (account_id rate_group : string) (entry : json) : option DetectedModel :=
  id ← json_get "id" entry ≫= as_str;
  Some (mkModel id id "anthropic" account_id rate_group (capability_class id)
    (as_u32 (default 200000 (json_get "max_input_tokens" entry ≫= as_u64))) true true true false 0 0 PriceUnknown Verified).

Definition models_from_list_response (body : json) (account_id rate_group : string) : list DetectedModel :=
  match json_get "data" body ≫= as_array with
  | Some data => omap (listed_model account_id rate_group) data
  | None => []
  end.

Definition models_request (base_url api_key : string) : HttpRequest :=
  mkRequest "GET" (trim_slashes base_url +:+ "/v1/models?limit=100")
    [("x-api-key", api_key); ("anthropic-version", ANTHROPIC_VERSION)] None.

Definition discover_models (http : HttpRequest → result string HttpResponse) (api_key base_url account_id rate_group : string)
    : result DiscoverError (list DetectedModel) :=
  discovered (http (models_request base_url api_key)) (λ body, models_from_list_response body account_id rate_group).

(** ** The adapter *)

Record AnthropicApiAdapter : Type := mkAnthropicAdapter {
  aa_account_id : string;
  aa_base_url : string;
  aa_models : list string;
  aa_api_key : option string;
}.

Definition anthropic_from_lane (lane : RegistryAdmittedLane) (base_url : string) : AnthropicApiAdapter :=
  mkAnthropicAdapter (lane_account_id lane) base_url [lane_provider_model_id lane] None.

Definition messages_request (a : AnthropicApiAdapter) (model : string) (messages : list Message) (api_key : string) : HttpRequest :=
  mkRequest "POST" (trim_slashes (aa_base_url a) +:+ "/v1/messages")
    [("x-api-key", api_key); ("anthropic-version", ANTHROPIC_VERSION); ("content-type", "application/json")]
    (Some (build_request_body model messages DEFAULT_MAX_TOKENS)).

Definition anthropic_send `{JsonText} (a : AnthropicApiAdapter) (model : string) (messages : list Message)
    (rx : option nat) (resolve : string → result string (option string)) (http : HttpRequest → option (result string HttpResponse)) : Sent :=
  send_keyed "Anthropic" ("no Anthropic API key for account " +:+ aa_account_id a) anthropic_default rx
    (adapter_key (aa_api_key a) (resolve (aa_account_id a))) (messages_request a model messages) http.

(** ** The laws *)

Section laws.
Context `{JsonText}.

Lemma anthropic_consume_done c e : an_done c = false →
  closing (anthropic_consume c e).1 ∨ Forall is_delta (anthropic_consume c e).1 ∧ an_done (anthropic_consume c e).2 = false.
Proof.
  intros Hc. unfold anthropic_consume. destruct (from_str_value (se_data e)) as [payload|]; [|by right; rewrite Forall_nil].
  repeat case_bool_decide; try (right; simpl; by rewrite Forall_nil).
  - right. unfold block_start. destruct (is_tool_use payload); simpl; by rewrite Forall_nil.
  - right. unfold block_delta. destruct (as_str _) as [kind|]; [|simpl; by rewrite Forall_nil].
    repeat case_bool_decide; simpl; rewrite ?Forall_nil; try done.
    + destruct (nonempty _); by rewrite ?Forall_singleton, ?Forall_nil.
    + by repeat case_match.
  - right. unfold block_stop. destruct (an_pending c !! _); simpl; by rewrite ?Forall_singleton, ?Forall_nil.
  - right. simpl. rewrite Forall_nil. by case_match.
  - left. unfold anthropic_finish. rewrite Hc. by apply closing_one.
  - left. by apply closing_one.
Qed.

#[export] Instance anthropic_laws : SseConsumerLaws AnthropicStream.
Proof.
  refine {| open := λ c, an_done c = false |}.
  - apply anthropic_consume_done.
  - intros c Hc. simpl. unfold anthropic_finish. rewrite Hc. by apply closing_one.
Defined.

(** A send reports or waits; the consumer it starts with is open. *)
Lemma anthropic_send_reports a model messages resolve http :
  let s := anthropic_send a model messages None resolve http in
  reports_or (∃ q, q ∈ s.1 ∧ unanswered (http q)) s.2.
Proof. by apply send_keyed_reports. Qed.

End laws.

(** ** Tool calls *)

Section tools.
Context `{JsonText}.

Definition payload_kind (kind : string) (e : SseEvent) : option json :=
  payload ← from_str_value (se_data e);
  if bool_decide (event_kind e payload = kind) then Some payload else None.

(** The tool whose block [i] the event opens; whether it closes block [i]; what
    it adds to the input of block [i]. *)
Definition opens (i : Z) (e : SseEvent) : option string :=
  payload ← payload_kind "content_block_start" e;
  if is_tool_use payload && bool_decide (block_index payload = i)
  then Some (str_or EmptyString (member (member payload "content_block") "name")) else None.

Definition closes (i : Z) (e : SseEvent) : bool :=
  match payload_kind "content_block_stop" e with
  | Some payload => bool_decide (block_index payload = i)
  | None => false
  end.

Definition fragment_of (i : Z) (e : SseEvent) : string :=
  match payload_kind "content_block_delta" e with
  | Some payload =>
      let delta := member payload "delta" in
      if bool_decide (as_str (member delta "type") = Some "input_json_delta") && bool_decide (block_index payload = i)
      then str_or EmptyString (member delta "partial_json") else EmptyString
  | None => EmptyString
  end.

Definition after (c : AnthropicStream) (events : list SseEvent) : AnthropicStream :=
  foldl (λ c e, (anthropic_consume c e).2) c events.

Definition input_of (i : Z) (events : list SseEvent) : string := foldl (λ s e, s +:+ fragment_of i e) EmptyString events.

Lemma append_empty s : s +:+ EmptyString = s.
Proof. apply as_bytes_inj. by rewrite as_bytes_app, app_nil_r. Qed.

Lemma push_nothing t : push_input EmptyString t = t.
Proof. destruct t. unfold push_input. simpl. by rewrite append_empty. Qed.

Lemma opens_pending c e i name : opens i e = Some name → an_pending (anthropic_consume c e).2 !! i = Some (mkPendingTool name EmptyString).
Proof.
  unfold opens, payload_kind, anthropic_consume. destruct (from_str_value (se_data e)) as [payload|]; [|done]. simpl.
  case_bool_decide as Hk; [|done]. simpl. intros Ho. rewrite Hk. simpl. unfold block_start.
  destruct (is_tool_use payload); [|done]. simpl in Ho. case_bool_decide as Hi; [|done]. injection Ho as <-. subst i. simpl.
  by rewrite lookup_insert_eq.
Qed.

Lemma closes_emits c e i t : closes i e = true → an_pending c !! i = Some t → (anthropic_consume c e).1 = [tool_use_of t].
Proof.
  unfold closes, payload_kind, anthropic_consume. destruct (from_str_value (se_data e)) as [payload|]; [|done]. simpl.
  case_bool_decide as Hk; [|done]. intros <-%bool_decide_eq_true Ht. rewrite Hk. unfold block_stop. simpl. by rewrite Ht.
Qed.

(** Any other event adds its fragment and nothing else. *)
Lemma other_pending c e i t :
  opens i e = None → closes i e = false → an_pending c !! i = Some t →
  an_pending (anthropic_consume c e).2 !! i = Some (push_input (fragment_of i e) t).
Proof.
  unfold opens, closes, fragment_of, payload_kind, anthropic_consume.
  destruct (from_str_value (se_data e)) as [payload|]; [|intros _ _ Ht; by rewrite push_nothing]. simpl.
  destruct (decide (event_kind e payload = "content_block_start")) as [->|H1].
  { simpl. unfold block_start. destruct (is_tool_use payload); simpl; [|intros _ _ Ht; by rewrite push_nothing].
    case_bool_decide as Hi; [done|]. intros _ _ Ht. by rewrite push_nothing, lookup_insert_ne. }
  rewrite (bool_decide_false (event_kind e payload = "content_block_start")) by done. intros _.
  destruct (decide (event_kind e payload = "content_block_stop")) as [->|H2].
  { simpl. unfold block_stop. intros Hi%bool_decide_eq_false Ht.
    destruct (an_pending c !! block_index payload); simpl; by rewrite push_nothing, ?lookup_delete_ne. }
  rewrite (bool_decide_false (event_kind e payload = "content_block_stop")) by done. intros _ Ht. simpl.
  destruct (decide (event_kind e payload = "content_block_delta")) as [->|H3].
  { simpl. unfold block_delta. destruct (as_str (member (member payload "delta") "type")) as [kind|]; [|by rewrite push_nothing].
    destruct (decide (kind = "text_delta")) as [->|]; [by rewrite push_nothing|]. rewrite bool_decide_false by done.
    destruct (decide (kind = "input_json_delta")) as [->|]; [|rewrite !bool_decide_false by congruence; by rewrite push_nothing].
    rewrite !(bool_decide_true (_ = _ :> option string)), bool_decide_true by done. simpl.
    case_bool_decide as Hi.
    - subst i. rewrite Ht. unfold str_or. destruct (as_str (member _ "partial_json")) as [f|]; simpl; [by rewrite lookup_insert_eq|by rewrite push_nothing].
    - rewrite push_nothing. repeat case_match; simpl; try done. by rewrite lookup_insert_ne. }
  rewrite (bool_decide_false (event_kind e payload = "content_block_delta")) by done. rewrite push_nothing.
  unfold anthropic_finish. by repeat case_match.
Qed.

Lemma push_input_app f g t : push_input g (push_input f t) = push_input (f +:+ g) t.
Proof. unfold push_input. simpl. f_equal. apply as_bytes_inj. by rewrite !as_bytes_app, app_assoc. Qed.

Lemma after_pending i mid : ∀ c t s,
  Forall (λ e, opens i e = None ∧ closes i e = false) mid →
  an_pending c !! i = Some (push_input s t) →
  an_pending (after c mid) !! i = Some (push_input (foldl (λ s e, s +:+ fragment_of i e) s mid) t).
Proof.
  induction mid as [|e mid IH]; intros c t s Hm Ht; [done|]. apply Forall_cons in Hm as [[Ho Hc] Hm]. simpl.
  apply IH; [done|]. rewrite (other_pending c e i _ Ho Hc Ht). by rewrite push_input_app.
Qed.

(**  A tool call has its own block's input.  When an event opens a tool's
    block, and then, after events of any other kind that neither open nor close
    that block (text, pings, malformed frames, the fragments of other blocks
    and their openings and closings in any interleaving), an event closes it,
    that closing gives exactly one event: the call of the tool named at the
    opening, with the fragments of that block in order of arrival and nothing
    of any other, or an empty object if there were none. *)
Theorem tool_call_is_its_block (c : AnthropicStream) (i : Z) (name : string) (start stop : SseEvent) (mid : list SseEvent) :
  opens i start = Some name →
  Forall (λ e, opens i e = None ∧ closes i e = false) mid →
  closes i stop = true →
  (anthropic_consume (after c (start :: mid)) stop).1 =
    [ToolUse name (if bool_decide (input_of i mid = EmptyString) then "{}" else input_of i mid)].
Proof.
  intros Ho Hm Hc. rewrite (closes_emits _ _ i (push_input (input_of i mid) (mkPendingTool name EmptyString)) Hc); [done|].
  change (after c (start :: mid)) with (after (anthropic_consume c start).2 mid). unfold input_of.
  apply after_pending; [done|]. rewrite push_nothing. by apply opens_pending.
Qed.

End tools.

(** ** Discovered models *)

(** What the provider lists is admissible for the account it was listed for. *)
Lemma anthropic_models_admissible account body m :
  canonical_provider_id (pa_provider account) = "claude" →
  m ∈ models_from_list_response body (pa_account_id account) (pa_rate_group account) →
  model_is_admissible account m = negb (is_blank (dm_model_id m)).
Proof.
  intros Hp. unfold models_from_list_response. destruct (json_get "data" body ≫= as_array) as [data|]; [|by intros ?%elem_of_nil].
  intros (entry & _ & He)%list_elem_of_omap. unfold listed_model in He. apply bind_Some in He as (id & _ & [= <-]).
  unfold model_is_admissible. simpl. rewrite Hp. rewrite !bool_decide_true by done. simpl. by destruct (is_blank id).
Qed.
