(* ===== verification/OpenAiApi.v ===== *)
(** * The Chat Completions adapters (crates/heiwa_provider/src/providers/openai_api.rs and openrouter.rs)

    The event stream both share as a consumer, their requests, the models a key
    can use, and the two [send]s. *)

From stdpp Require Import base gmap sets strings numbers sorting list.
From Stdlib Require Import Ascii.
From S2P Require Import Prelude Utf8 Json Sensitive CallCosts Provider Sse ModelExecution ProviderStreams ProviderHttp.
#[local] Open Scope Z_scope.

Definition DEFAULT_BASE_URL : string := "https://api.openai.com".
Definition OPENROUTER_CHAT_URL : string := "https://openrouter.ai/api/v1/chat/completions".

(** ** The stream *)

Record PendingToolCall : Type := mkPendingCall { pc_name : string; pc_arguments : string }.

Record OpenAiStream : Type := mkOpenAi {
  oa_usage : TokenUsage;
  oa_tool_calls : gmap Z PendingToolCall;
  oa_done : bool;
}.

Definition openai_default : OpenAiStream := mkOpenAi (mkUsage 0 0 0 0 0) ∅ false.

(** [into_values] of the map, in the order of its keys *)
Definition by_index (a b : Z * PendingToolCall) : comparison := Z.compare a.1 b.1.
Definition in_index_order (m : gmap Z PendingToolCall) : list (Z * PendingToolCall) := sort_by by_index (map_to_list m).

Definition flush_tool_calls (c : OpenAiStream) : list StreamEvent * OpenAiStream :=
  (map (λ kv, ToolUse (pc_name kv.2) (pc_arguments kv.2)) (in_index_order (oa_tool_calls c)),
   mkOpenAi (oa_usage c) ∅ (oa_done c)).

Definition openai_finish (c : OpenAiStream) : list StreamEvent * OpenAiStream :=
  if oa_done c then ([], c)
  else
    let '(events, c) := flush_tool_calls (mkOpenAi (oa_usage c) (oa_tool_calls c) true) in
    (events ++ [Done (oa_usage c)], c).

Definition openai_error (error : json) : StreamEvent :=
  StreamError ("OpenAI " +:+ str_or "error" (member error "type") +:+ ": " +:+ str_or "unknown error" (member error "message")).

Definition usage_of (usage : json) (u : TokenUsage) : TokenUsage :=
  mkUsage (count usage "prompt_tokens") (count usage "completion_tokens")
    (count (member usage "prompt_tokens_details") "cached_tokens") (tu_cache_write_tokens u)
    (default (tu_cost_usd u) (json_get "cost" usage ≫= as_f64)).

(** A fragment of a call: its index, its name and its arguments if present. *)
Definition Fragment : Type := Z * option string * option string.

Definition fragment_of (call : json) : Fragment :=
  (default 0 (as_u64 (member call "index")), as_str (member (member call "function") "name"),
   as_str (member (member call "function") "arguments")).

Definition add_fragment (m : gmap Z PendingToolCall) (f : Fragment) : gmap Z PendingToolCall :=
  let entry := default (mkPendingCall EmptyString EmptyString) (m !! f.1.1) in
  <[f.1.1 := mkPendingCall (default (pc_name entry) f.1.2) (pc_arguments entry +:+ default EmptyString f.2)]> m.

Definition choice_of (payload : json) : json := element (member payload "choices") 0.

Definition fragments (payload : json) : list Fragment :=
  map fragment_of (default [] (as_array (member (member (choice_of payload) "delta") "tool_calls"))).

Definition token_of (payload : json) : list StreamEvent :=
  match nonempty (as_str (member (member (choice_of payload) "delta") "content")) with
  | Some text => [Token text]
  | None => []
  end.

Definition finishes_calls (payload : json) : bool :=
  bool_decide (as_str (member (choice_of payload) "finish_reason") = Some "tool_calls").

Section json.
Context `{JsonText}.

Definition openai_consume (c : OpenAiStream) (event : SseEvent) : list StreamEvent * OpenAiStream :=
  if is_done event then openai_finish c
  else
    match from_str_value (se_data event) with
    | None => ([], c)
    | Some payload =>
        match present "error" payload with
        | Some error => ([openai_error error], c)
        | None =>
            let usage := match present "usage" payload with
                         | Some usage => usage_of usage (oa_usage c)
                         | None => oa_usage c
                         end in
            let calls := foldl add_fragment (oa_tool_calls c) (fragments payload) in
            let c := mkOpenAi usage calls (oa_done c) in
            if finishes_calls payload then
              let '(calls, c) := flush_tool_calls c in (token_of payload ++ calls, c)
            else (token_of payload, c)
        end
    end.

#[export] Instance openai_consumer : SseConsumer OpenAiStream :=
  {| consume := openai_consume; finish := openai_finish |}.

End json.

(** ** The request *)

Definition role_str (r : Role) : string :=
  match r with RoleUser => "user" | RoleAssistant => "assistant" | RoleSystem => "system" end.

Definition request_message (m : Message) : json :=
  json_object [("role", JString (role_str (msg_role m))); ("content", JString (msg_content m))].

Definition build_request_body (model : string) (messages : list Message) : json :=
  json_object [("model", JString model); ("messages", JArray (map request_message messages)); ("stream", JBool true);
               ("stream_options", json_object [("include_usage", JBool true)])].

(** ** The models *)

Definition NON_CHAT_MARKERS : list string :=
  ["embedding"; "whisper"; "tts"; "dall-e"; "moderation"; "realtime"; "audio"; "image"; "transcribe"; "search"; "rerank"; "codex-mini"].

Definition is_chat_model (id : string) : bool :=
  negb (existsb (λ marker, contains (as_bytes marker) (lower (as_bytes id))) NON_CHAT_MARKERS).

Definition capability_class (id : string) : Z :=
  let id := lower (as_bytes id) in
  if starts_with (as_bytes "o3") id || starts_with (as_bytes "o4") id || starts_with (as_bytes "gpt-5") id then 5
  else if starts_with (as_bytes "gpt-4") id || starts_with (as_bytes "o1") id then 4
  else if contains (as_bytes "mini") id || contains (as_bytes "nano") id then 2
  else 3.

Definition listed_model (account_id rate_group : string) (entry : json) : option DetectedModel :=
  id ← json_get "id" entry ≫= as_str;
  if is_chat_model id then
    Some (mkModel id id "openai" account_id rate_group (capability_class id) 128000 true true
      (contains (as_bytes "gpt-4") (as_bytes id) || contains (as_bytes "gpt-5") (as_bytes id)) false 0 0 PriceUnknown Verified)
  else None.

Definition models_from_list_response (body : json) (account_id rate_group : string) : list DetectedModel :=
  match json_get "data" body ≫= as_array with
  | Some data => omap (listed_model account_id rate_group) data
  | None => []
  end.

Definition models_request (base_url api_key : string) : HttpRequest :=
  mkRequest "GET" (trim_slashes base_url +:+ "/v1/models") [bearer api_key] None.

Definition discover_models (http : HttpRequest → result string HttpResponse) (api_key base_url account_id rate_group : string)
    : result DiscoverError (list DetectedModel) :=
  discovered (http (models_request base_url api_key)) (λ body, models_from_list_response body account_id rate_group).

(** ** The adapters *)

Record OpenAiApiAdapter : Type := mkOpenAiAdapter {
  oi_account_id : string;
  oi_base_url : string;
  oi_models : list string;
  oi_api_key : option string;
}.

Definition openai_from_lane (lane : RegistryAdmittedLane) (base_url : string) : OpenAiApiAdapter :=
  mkOpenAiAdapter (lane_account_id lane) base_url [lane_provider_model_id lane] None.

Definition completions_request (a : OpenAiApiAdapter) (model : string) (messages : list Message) (api_key : string) : HttpRequest :=
  mkRequest "POST" (trim_slashes (oi_base_url a) +:+ "/v1/chat/completions") [bearer api_key]
    (Some (build_request_body model messages)).

Definition openai_send `{JsonText} (a : OpenAiApiAdapter) (model : string) (messages : list Message)
    (rx : option nat) (resolve : string → result string (option string)) (http : HttpRequest → option (result string HttpResponse)) : Sent :=
  send_keyed "OpenAI" ("no OpenAI API key in keychain for " +:+ oi_account_id a) openai_default rx
    (adapter_key (oi_api_key a) (resolve (oi_account_id a))) (completions_request a model messages) http.

Record OpenRouterAdapter : Type := mkOpenRouter { or_account_id : string; or_models : list string }.

Definition openrouter_from_lane (lane : RegistryAdmittedLane) : OpenRouterAdapter :=
  mkOpenRouter (lane_account_id lane) [lane_provider_model_id lane].

Definition openrouter_body (model : string) (messages : list Message) : json :=
  json_object [("model", JString model); ("messages", JArray (map request_message messages)); ("stream", JBool true);
               ("usage", json_object [("include", JBool true)])].

Definition openrouter_request (model : string) (messages : list Message) (api_key : string) : HttpRequest :=
  mkRequest "POST" OPENROUTER_CHAT_URL
    [bearer api_key; ("HTTP-Referer", "https://heiwa.ltd"); ("X-Title", "Heiwa")]
    (Some (openrouter_body model messages)).

Definition MAX_ATTEMPTS : nat := 3.
Definition MAX_BACKOFF_SECS : Z := 30.

(** A response, and its [retry-after] if that is a number. *)
Definition Retried : Type := HttpResponse * option Z.

Definition backoff (retry_after : option Z) : Z := Z.min (default 10 retry_after) MAX_BACKOFF_SECS.

(** The attempts left, this one included: how many requests are made, the
    waits between them, and the response, if it has come. *)
Fixpoint attempts (remaining made : nat) (http : nat → option (result string Retried))
    : nat * list Z * option (result string HttpResponse) :=
  match remaining with
  | O => (made, [], Some (Err "loop always sets resp on final attempt"))
  | S remaining =>
      match http made with
      | None => (S made, [], None)
      | Some (Err e) => (S made, [], Some (Err e))
      | Some (Ok (r, retry_after)) =>
          if bool_decide (rs_status r = 429) && negb (bool_decide (remaining = O)) then
            let '(n, waits, res) := attempts remaining (S made) http in (n, backoff retry_after :: waits, res)
          else (S made, [], Some (Ok r))
      end
  end.

(** The answers of the endpoint to the attempts are the argument [http]. *)
Definition openrouter_send `{JsonText} (a : OpenRouterAdapter) (model : string) (messages : list Message)
    (rx : option nat) (resolve : string → result string (option string))
    (http : HttpRequest → nat → option (result string Retried)) : Sent :=
  match resolve (or_account_id a) with
  | Err e => ([], ([], Some (Err e)))
  | Ok None => ([], ([], Some (Err ("no OpenRouter key in keychain for " +:+ or_account_id a))))
  | Ok (Some api_key) =>
      let request := openrouter_request model messages api_key in
      let '(made, _, response) := attempts MAX_ATTEMPTS 0 (http request) in
      (replicate made request,
       match response with
       | None => ([], None)
       | Some (Err e) => ([], Some (Err e))
       | Some (Ok r) => answer_response "OpenRouter" openai_default rx r
       end)
  end.

(** ** The laws *)

Lemma flushed_deltas c : Forall is_delta (flush_tool_calls c).1.
Proof. simpl. apply Forall_forall. by intros e (kv & -> & _)%list_elem_of_fmap. Qed.

Lemma token_deltas payload : Forall is_delta (token_of payload).
Proof. unfold token_of. by destruct (nonempty _); rewrite ?Forall_singleton, ?Forall_nil. Qed.

Lemma openai_finish_closing c : oa_done c = false → closing (openai_finish c).1.
Proof.
  intros Hc. unfold openai_finish. rewrite Hc. apply closing_app; [apply flushed_deltas|by apply closing_one].
Qed.

Section laws.
Context `{JsonText}.

Lemma openai_consume_done c e : oa_done c = false →
  closing (openai_consume c e).1 ∨ Forall is_delta (openai_consume c e).1 ∧ oa_done (openai_consume c e).2 = false.
Proof.
  intros Hc. unfold openai_consume. destruct (is_done e); [left; by apply openai_finish_closing|].
  destruct (from_str_value (se_data e)) as [payload|]; [|by right; rewrite Forall_nil].
  destruct (present "error" payload) as [error|]; [left; by apply closing_one|]. right.
  pose proof (token_deltas payload). destruct (finishes_calls payload); [|done].
  split; [|done]. cbn [flush_tool_calls fst]. apply Forall_app. split; [done|]. apply flushed_deltas.
Qed.

#[export] Instance openai_laws : SseConsumerLaws OpenAiStream.
Proof.
  refine {| open := λ c, oa_done c = false |}.
  - apply openai_consume_done.
  - apply openai_finish_closing.
Defined.

(** A send reports or waits; the consumer it starts with is open. *)
Lemma openai_send_reports a model messages resolve http :
  let s := openai_send a model messages None resolve http in
  reports_or (∃ q, q ∈ s.1 ∧ unanswered (http q)) s.2.
Proof. by apply send_keyed_reports. Qed.

(** At most three requests, with waits of at most thirty seconds between them:
    the loop ends with the response or the error of the last one, unless that is
    still to come. *)
Lemma attempts_end http : ∀ remaining made, (0 < remaining)%nat →
  let '(n, waits, res) := attempts remaining made http in
  (made < n ≤ made + remaining)%nat ∧ length waits = (n - made - 1)%nat ∧ Forall (λ w, w ≤ MAX_BACKOFF_SECS) waits ∧
  match res with
  | None => http (n - 1)%nat = None
  | Some (Ok r) => ∃ k, http (n - 1)%nat = Some (Ok (r, k))
  | Some (Err e) => http (n - 1)%nat = Some (Err e)
  end.
Proof.
  induction remaining as [|remaining IH]; intros made Hl; [lia|]. cbn [attempts].
  assert (S made - 1 = made)%nat as Hm by lia.
  destruct (http made) as [[[r k]|e]|] eqn:E.
  - destruct (bool_decide (rs_status r = 429) && negb (bool_decide (remaining = O))) eqn:Eb.
    + apply andb_true_iff in Eb as [_ Hleft%negb_true_iff%bool_decide_eq_false]. specialize (IH (S made) ltac:(lia)).
      destruct (attempts remaining (S made) http) as [[n waits] res]. destruct IH as (Hn & Hw & Hf & Hr).
      split; [lia|]. split; [simpl; lia|]. split; [|done]. apply Forall_cons. split; [|done].
      unfold backoff. lia.
    + split; [lia|]. split; [simpl; lia|]. split; [by apply Forall_nil|]. rewrite Hm. by exists k.
  - split; [lia|]. split; [simpl; lia|]. split; [by apply Forall_nil|]. by rewrite Hm.
  - split; [lia|]. split; [simpl; lia|]. split; [by apply Forall_nil|]. by rewrite Hm.
Qed.

Lemma openrouter_requests a model messages rx resolve http q :
  q ∈ (openrouter_send a model messages rx resolve http).1 →
  ∃ key, resolve (or_account_id a) = Ok (Some key) ∧ q = openrouter_request model messages key.
Proof.
  unfold openrouter_send. destruct (resolve (or_account_id a)) as [[key|]|e]; try by intros ?%elem_of_nil.
  destruct (attempts MAX_ATTEMPTS 0 _) as [[n waits] r]. intros [-> _]%elem_of_replicate. by exists key.
Qed.

(** An attempt that leaves the adapter waiting. *)
Definition unanswered_attempt (answer : option (result string Retried)) : Prop :=
  match answer with
  | None => True
  | Some (Ok (r, _)) => unfinished r
  | Some (Err _) => False
  end.

Lemma openrouter_send_reports a model messages resolve http :
  let s := openrouter_send a model messages None resolve http in
  reports_or (∃ q n, q ∈ s.1 ∧ (n < length s.1)%nat ∧ unanswered_attempt (http q n)) s.2.
Proof.
  unfold openrouter_send. destruct (resolve (or_account_id a)) as [[k|]|e]; cbn [fst snd]; [|left; apply error_reports..].
  set (q := openrouter_request model messages k).
  pose proof (attempts_end (http q) MAX_ATTEMPTS 0 ltac:(unfold MAX_ATTEMPTS; lia)) as He.
  destruct (attempts MAX_ATTEMPTS 0 (http q)) as [[n ws] res]. destruct He as (Hn & _ & _ & Hres). cbn [fst snd].
  assert (unanswered_attempt (http q (n - 1)%nat) →
    ∃ q' m, q' ∈ replicate n q ∧ (m < length (replicate n q))%nat ∧ unanswered_attempt (http q' m)) as Hblame.
  { intros Hu. exists q, (n - 1)%nat. rewrite length_replicate. split; [apply elem_of_replicate; split; [done|lia]|].
    split; [lia|done]. }
  destruct res as [[r|e]|].
  - destruct Hres as [w Hw].
    destruct (answer_response_reports "OpenRouter" openai_default r) as [Hr|[Hw' Hb]]; [done|by left|right].
    split; [done|]. apply Hblame. by rewrite Hw.
  - left. apply error_reports.
  - right. split; [apply waits_nothing|]. apply Hblame. by rewrite Hres.
Qed.

End laws.

(** ** Tool calls *)

(** The name and the arguments that fragments give to a call. *)
Definition name_of (i : Z) (fs : list Fragment) : string :=
  foldl (λ s f, if bool_decide (f.1.1 = i) then default s f.1.2 else s) EmptyString fs.
Definition arguments_of (i : Z) (fs : list Fragment) : string :=
  foldl (λ s f, if bool_decide (f.1.1 = i) then s +:+ default EmptyString f.2 else s) EmptyString fs.

Lemma add_fragment_lookup m f i :
  add_fragment m f !! i = if bool_decide (f.1.1 = i)
    then Some (mkPendingCall (default (pc_name (default (mkPendingCall EmptyString EmptyString) (m !! i))) f.1.2)
                 (pc_arguments (default (mkPendingCall EmptyString EmptyString) (m !! i)) +:+ default EmptyString f.2))
    else m !! i.
Proof.
  unfold add_fragment. case_bool_decide as Hi; [subst i; by rewrite lookup_insert_eq|by rewrite lookup_insert_ne].
Qed.

Lemma fragments_lookup fs : ∀ i,
  foldl add_fragment ∅ fs !! i =
    if bool_decide (i ∈ map (λ f, f.1.1) fs) then Some (mkPendingCall (name_of i fs) (arguments_of i fs)) else None.
Proof.
  induction fs as [|f fs IH] using rev_ind; intros i; [by rewrite bool_decide_false by apply not_elem_of_nil|].
  rewrite foldl_snoc, add_fragment_lookup, IH. unfold name_of, arguments_of. rewrite !foldl_snoc, map_app. simpl.
  destruct (decide (f.1.1 = i)) as [->|Hi].
  - rewrite (bool_decide_true (i = i)) by done. rewrite (bool_decide_true (i ∈ _ ++ [i])) by (apply elem_of_app; right; by apply list_elem_of_singleton).
    case_bool_decide as Hin; [done|]. simpl. f_equal.
    assert (∀ s t : string, foldl (λ s f, if bool_decide (f.1.1 = i) then default s f.1.2 else s) s fs = s ∧
            foldl (λ s f, if bool_decide (f.1.1 = i) then s +:+ default EmptyString f.2 else s) t fs = t) as Hs.
    { clear IH. induction fs as [|g fs IH]; [done|]. intros s t. simpl. simpl in Hin.
      rewrite bool_decide_false by set_solver. apply IH. set_solver. }
    destruct (Hs EmptyString EmptyString) as [-> ->]. done.
  - rewrite (bool_decide_false (f.1.1 = i)) by done. by repeat case_bool_decide; try set_solver.
Qed.

Lemma by_index_laws : CmpLaws by_index.
Proof. apply (on_cmp_laws Z.compare fst). Qed.
#[export] Existing Instance by_index_laws.

(** The indices some fragment names, in order. *)
Definition call_indices (fs : list Fragment) : list Z :=
  sort_by Z.compare (elements (list_to_set (map (λ f, f.1.1) fs) : gset Z)).

Definition call_of (fs : list Fragment) (i : Z) : Z * PendingToolCall := (i, mkPendingCall (name_of i fs) (arguments_of i fs)).

Lemma sort_by_call fs l : sort_by by_index (map (call_of fs) l) = map (call_of fs) (sort_by Z.compare l).
Proof.
  assert (∀ x l, insert_by by_index (call_of fs x) (map (call_of fs) l) = map (call_of fs) (insert_by Z.compare x l)) as Hins.
  { intros x. clear l. intros l. induction l as [|y l IH]; [done|]. simpl. unfold by_index at 1. simpl.
    destruct (x ?= y); simpl; [done|done|]. by rewrite IH. }
  induction l as [|x l IH]; [done|]. simpl. by rewrite <- Hins, <- IH.
Qed.

Lemma calls_of_fragments fs :
  map_to_list (foldl add_fragment ∅ fs) ≡ₚ map (call_of fs) (elements (list_to_set (map (λ f, f.1.1) fs) : gset Z)).
Proof.
  apply NoDup_Permutation.
  - apply NoDup_map_to_list.
  - apply NoDup_fmap_2; [by intros i j [= ->]|apply NoDup_elements].
  - intros [i t]. split.
    + intros Hm%elem_of_map_to_list. rewrite fragments_lookup in Hm. case_bool_decide as Hi; [|done]. injection Hm as <-.
      apply list_elem_of_fmap. exists i. split; [done|]. by apply elem_of_elements, elem_of_list_to_set.
    + intros (j & [= -> ->] & Hj%elem_of_elements%elem_of_list_to_set)%list_elem_of_fmap. apply elem_of_map_to_list.
      rewrite fragments_lookup. by rewrite bool_decide_true.
Qed.

(**  The calls of a stream, whatever the order their fragments arrive in.
    Flushing what a sequence of fragments has left gives one call for each index
    some fragment named, by increasing index, and each has the last name its
    own fragments gave (a server may repeat it) and the concatenation of its own
    arguments in order of arrival. *)
Theorem tool_calls_are_assembled (u : TokenUsage) (d : bool) (fs : list Fragment) :
  (flush_tool_calls (mkOpenAi u (foldl add_fragment ∅ fs) d)).1 =
    map (λ i, ToolUse (name_of i fs) (arguments_of i fs)) (call_indices fs).
Proof.
  unfold flush_tool_calls, in_index_order, call_indices. cbn [fst oa_tool_calls].
  assert (∀ x y, x ∈ map_to_list (foldl add_fragment ∅ fs) → y ∈ map_to_list (foldl add_fragment ∅ fs) → by_index x y = Eq → x = y) as Heq.
  { intros [i t] [j t'] Hi%elem_of_map_to_list Hj%elem_of_map_to_list. unfold by_index. simpl. intros ->%Z.compare_eq. congruence. }
  assert (sort_by by_index (map_to_list (foldl add_fragment ∅ fs)) =
          sort_by by_index (map (call_of fs) (elements (list_to_set (map (λ f, f.1.1) fs) : gset Z)))) as ->.
  { apply sort_by_unique; [apply by_index_laws|apply calls_of_fragments|exact Heq]. }
  rewrite sort_by_call, map_map. done.
Qed.

(** ** Discovered models *)

Lemma openai_models_admissible account body m :
  canonical_provider_id (pa_provider account) = "codex" →
  m ∈ models_from_list_response body (pa_account_id account) (pa_rate_group account) →
  model_is_admissible account m = negb (is_blank (dm_model_id m)).
Proof.
  intros Hp. unfold models_from_list_response. destruct (json_get "data" body ≫= as_array) as [data|]; [|by intros ?%elem_of_nil].
  intros (entry & _ & He)%list_elem_of_omap. unfold listed_model in He. apply bind_Some in He as (id & _ & He).
  destruct (is_chat_model id); [|done]. injection He as <-.
  unfold model_is_admissible. simpl. rewrite Hp. rewrite !bool_decide_true by done. simpl. by destruct (is_blank id).
Qed.
