(* ===== verification/GeminiApi.v ===== *)
(** * The Gemini adapter (crates/heiwa_provider/src/providers/gemini_api.rs)

    The [streamGenerateContent] stream as a consumer, the request, the models a
    key can use, and the adapter's [send]. *)

From stdpp Require Import base gmap sets strings numbers list.
From Stdlib Require Import Ascii.
From S2P Require Import Prelude Utf8 Json Sensitive CallCosts Provider Sse ModelExecution ProviderStreams ProviderHttp.
From S2P Require Import AnthropicApi.
#[local] Open Scope Z_scope.

Definition DEFAULT_BASE_URL : string := "https://generativelanguage.googleapis.com".
Definition API_VERSION : string := "v1beta".

(** ** The stream *)

Record GeminiStream : Type := mkGemini { ge_usage : TokenUsage; ge_done : bool }.
Definition gemini_default : GeminiStream := mkGemini (mkUsage 0 0 0 0 0) false.

Definition gemini_finish (c : GeminiStream) : list StreamEvent * GeminiStream :=
  if ge_done c then ([], c) else ([Done (ge_usage c)], mkGemini (ge_usage c) true).

Definition gemini_error (error : json) : StreamEvent :=
  StreamError ("Gemini " +:+ str_or "error" (member error "status") +:+ ": " +:+ str_or "unknown error" (member error "message")).

Definition usage_metadata (usage : json) (u : TokenUsage) : TokenUsage :=
  mkUsage (count usage "promptTokenCount") (count usage "candidatesTokenCount")
    (count usage "cachedContentTokenCount") (tu_cache_write_tokens u) (tu_cost_usd u).

Definition parts_of (payload : json) : list json :=
  default [] (as_array (member (member (element (member payload "candidates") 0) "content") "parts")).

Section json.
Context `{JsonText}.

Definition part_events (part : json) : list StreamEvent :=
  match nonempty (as_str (member part "text")) with Some text => [Token text] | None => [] end ++
  match present "functionCall" part with
  | Some call => [ToolUse (str_or EmptyString (member call "name"))
                    (match json_get "args" call with Some args => print_json args | None => "{}" end)]
  | None => []
  end.

Definition gemini_consume (c : GeminiStream) (event : SseEvent) : list StreamEvent * GeminiStream :=
  match from_str_value (se_data event) with
  | None => ([], c)
  | Some payload =>
      match present "error" payload with
      | Some error => ([gemini_error error], c)
      | None =>
          (concat (map part_events (parts_of payload)),
           mkGemini (match present "usageMetadata" payload with
                     | Some usage => usage_metadata usage (ge_usage c)
                     | None => ge_usage c
                     end) (ge_done c))
      end
  end.

#[export] Instance gemini_consumer : SseConsumer GeminiStream :=
  {| consume := gemini_consume; finish := gemini_finish |}.

(** ** The laws *)

Lemma part_deltas part : Forall is_delta (part_events part).
Proof. unfold part_events. by destruct (nonempty _), (present _ _); repeat constructor. Qed.

Lemma gemini_consume_done c e : ge_done c = false →
  closing (gemini_consume c e).1 ∨ Forall is_delta (gemini_consume c e).1 ∧ ge_done (gemini_consume c e).2 = false.
Proof.
  intros Hc. unfold gemini_consume. destruct (from_str_value (se_data e)) as [payload|]; [|by right; rewrite Forall_nil].
  destruct (present "error" payload) as [error|]; [left; by apply closing_one|]. right. split; [|done]. simpl.
  apply Forall_concat, Forall_map, Forall_true. intros part. apply part_deltas.
Qed.

#[export] Instance gemini_laws : SseConsumerLaws GeminiStream.
Proof.
  refine {| open := λ c, ge_done c = false |}.
  - apply gemini_consume_done.
  - intros c Hc. simpl. unfold gemini_finish. rewrite Hc. by apply closing_one.
Defined.

End json.

(** ** The request *)

Definition text_part (text : string) : json := JArray [json_object [("text", JString text)]].

Definition request_content (m : Message) : json :=
  json_object [("role", JString (match msg_role m with RoleAssistant => "model" | _ => "user" end));
               ("parts", text_part (msg_content m))].

Definition build_request_body (messages : list Message) : json :=
  let system := AnthropicApi.system_texts messages in
  json_object
    (("contents", JArray (map request_content (AnthropicApi.turns_of messages))) ::
     (if bool_decide (system = []) then []
      else [("systemInstruction", json_object [("parts", text_part (AnthropicApi.join_system system))])])).

(** ** The models *)

Definition capability_class (id : string) : Z :=
  let id := lower (as_bytes id) in
  if contains (as_bytes "ultra") id then 5
  else if contains (as_bytes "pro") id then 4
  else if contains (as_bytes "flash-lite") id || contains (as_bytes "nano") id then 2
  else 3.

(** [name.trim_start_matches] *)
Definition model_name (name : string) : string :=
  String.string_of_list_ascii (strip_all (length (as_bytes name)) [as_bytes "models/"] (as_bytes name)).

Definition strings_of (v : option json) : list string := omap as_str (default [] (v ≫= as_array)).

Definition listed_model (account_id rate_group : string) (entry : json) : option DetectedModel :=
  name ← json_get "name" entry ≫= as_str;
  let id := model_name name in
  if bool_decide ("streamGenerateContent" ∈ strings_of (json_get "supportedGenerationMethods" entry)) then
    Some (mkModel id id "google" account_id rate_group (capability_class id)
      (as_u32 (default 1048576 (json_get "inputTokenLimit" entry ≫= as_u64))) true true true false 0 0 PriceUnknown Verified)
  else None.

Definition models_from_list_response (body : json) (account_id rate_group : string) : list DetectedModel :=
  match json_get "models" body ≫= as_array with
  | Some models => omap (listed_model account_id rate_group) models
  | None => []
  end.

Definition models_request (base_url api_key : string) : HttpRequest :=
  mkRequest "GET" (trim_slashes base_url +:+ "/" +:+ API_VERSION +:+ "/models?pageSize=200") [("x-goog-api-key", api_key)] None.

Definition discover_models (http : HttpRequest → result string HttpResponse) (api_key base_url account_id rate_group : string)
    : result DiscoverError (list DetectedModel) :=
  discovered (http (models_request base_url api_key)) (λ body, models_from_list_response body account_id rate_group).

(** ** The adapter *)

Record GeminiApiAdapter : Type := mkGeminiAdapter {
  ga_account_id : string;
  ga_base_url : string;
  ga_models : list string;
  ga_api_key : option string;
}.

Definition gemini_from_lane (lane : RegistryAdmittedLane) (base_url : string) : GeminiApiAdapter :=
  mkGeminiAdapter (lane_account_id lane) base_url [lane_provider_model_id lane] None.

Definition generate_request (a : GeminiApiAdapter) (model : string) (messages : list Message) (api_key : string) : HttpRequest :=
  mkRequest "POST"
    (trim_slashes (ga_base_url a) +:+ "/" +:+ API_VERSION +:+ "/models/" +:+ model +:+ ":streamGenerateContent?alt=sse")
    [("x-goog-api-key", api_key)] (Some (build_request_body messages)).

Definition gemini_send `{JsonText} (a : GeminiApiAdapter) (model : string) (messages : list Message)
    (rx : option nat) (resolve : string → result string (option string)) (http : HttpRequest → option (result string HttpResponse)) : Sent :=
  send_keyed "Gemini" ("no Google API key in keychain for " +:+ ga_account_id a) gemini_default rx
    (adapter_key (ga_api_key a) (resolve (ga_account_id a))) (generate_request a model messages) http.

(** A send reports or waits; the consumer it starts with is open. *)
Lemma gemini_send_reports `{JsonText} a model messages resolve http :
  let s := gemini_send a model messages None resolve http in
  reports_or (∃ q, q ∈ s.1 ∧ unanswered (http q)) s.2.
Proof. by apply send_keyed_reports. Qed.

Lemma gemini_models_admissible account body m :
  canonical_provider_id (pa_provider account) = "gemini" →
  m ∈ models_from_list_response body (pa_account_id account) (pa_rate_group account) →
  model_is_admissible account m = negb (is_blank (dm_model_id m)).
Proof.
  intros Hp. unfold models_from_list_response. destruct (json_get "models" body ≫= as_array) as [data|]; [|by intros ?%elem_of_nil].
  intros (entry & _ & He)%list_elem_of_omap. unfold listed_model in He. apply bind_Some in He as (id & _ & He). cbv zeta in He.
  destruct (bool_decide _); [|done]. injection He as <-.
  unfold model_is_admissible. simpl. rewrite Hp. rewrite !bool_decide_true by done. simpl. by destruct (is_blank (model_name id)).
Qed.
