(* ===== verification/CliAdapters.v ===== *)
(** * The process adapters (crates/heiwa_provider/src/providers/claude_code.rs, codex_cli.rs, gemini_cli.rs, ollama.rs)

    A provider's own program run for one prompt, its output read a line at a
    time.  What the program has printed, whether it has ended its output, and how
    it exited, if it has, are arguments: a program that blocks is one that has
    done neither. *)

From stdpp Require Import base gmap sets strings numbers list.
From Stdlib Require Import Ascii.
From S2P Require Import Prelude Utf8 Json Framing Git CallCosts Sse ModelExecution Provider ProviderStreams.
From S2P Require Import ProviderHttp.
#[local] Open Scope Z_scope.

(** ** Programs *)

Record Command : Type := mkCommand {
  cm_program : string;
  cm_env : list (string * string);
  cm_args : list string;
}.

(** What [next_line] returns in turn; nothing more is the end of the output. *)
Inductive LineRead : Type := Line (text : string) | LineFailed (error : string).

(** The exit of the program: its success and its [Display]. *)
Record ExitStatus : Type := mkExit { ex_success : bool; ex_display : string }.

(** A program as of a moment: the lines it has printed, whether its output has
    ended, and its exit, if it has exited.  Nothing bounds the time of any: one
    that waits for its standard error to be read, say, prints no more. *)
Record Process : Type := mkProcess {
  pr_lines : list LineRead;
  pr_ended : bool;
  pr_wait : option (result string ExitStatus);
}.

Definition line_break : string := String newline EmptyString.

(** The contents of the messages, a line each. *)
Definition prompt_of (messages : list Message) : string := String.concat line_break (map msg_content messages).

(** The arguments that name a model, if it has a name. *)
Definition model_args (flag model : string) : list string :=
  if bool_decide (model = EmptyString) then [] else [flag; model].

(** [v.get(k).and_then(as_u64).unwrap_or(0) as u32] and the like for floats *)
Definition count_of (v : json) (k : string) : Z := as_u32 (default 0 (json_get k v ≫= as_u64)).
Definition cost_of (v : json) (k : string) : Z := default 0 (json_get k v ≫= as_f64).

(** [v.get(k).unwrap_or(v)] *)
Definition nested (k : string) (v : json) : json := default v (json_get k v).

Definition type_of (v : json) : option string := json_get "type" v ≫= as_str.

Definition no_usage : TokenUsage := mkUsage 0 0 0 0 0.

(** [let _ = send(event)] *)
Definition send_last (rx : option nat) (e : StreamEvent) : list StreamEvent :=
  match try_send rx with Some _ => [e] | None => [] end.

(** ** Claude Code *)

Definition claude_command (resolve : string → string) (binary model : string) (messages : list Message) : Command :=
  mkCommand (resolve binary) []
    (["-p"; prompt_of messages; "--output-format"; "stream-json"; "--verbose"] ++ model_args "--model" model).

Definition claude_usage (obj : json) : TokenUsage :=
  let usage := nested "usage" obj in
  mkUsage (count_of usage "input_tokens") (count_of usage "output_tokens") (count_of usage "cache_read_input_tokens")
    (count_of usage "cache_creation_input_tokens") (cost_of obj "total_cost_usd").

Definition block_text (block : json) : option string :=
  if bool_decide (type_of block = Some "text") then json_get "text" block ≫= as_str else None.

Definition claude_texts (obj : json) : list string :=
  let content : option (list json) := (json_get "message" obj ≫= json_get "content") ≫= as_array in
  if bool_decide (type_of obj = Some "assistant") then omap block_text (default [] content) else [].

Definition claude_result (obj : json) : option TokenUsage :=
  if bool_decide (type_of obj = Some "result") then Some (claude_usage obj) else None.

(** ** Gemini *)

Definition gemini_command (resolve : string → string) (binary model : string) (messages : list Message) : Command :=
  mkCommand (resolve binary) []
    (["-p"; prompt_of messages; "--output-format"; "stream-json"] ++ model_args "--model" model).

Definition gemini_cli_usage (obj : json) : TokenUsage :=
  let stats := nested "stats" obj in
  mkUsage (count_of stats "input_tokens") (count_of stats "output_tokens") 0 0 (cost_of stats "total_cost_usd").

Definition gemini_texts (obj : json) : list string :=
  if bool_decide (type_of obj = Some "message") then option_list (json_get "content" obj ≫= as_str) else [].

Definition gemini_result (obj : json) : option TokenUsage :=
  if bool_decide (type_of obj = Some "result") then Some (gemini_cli_usage obj) else None.

(** ** Codex *)

Definition codex_command (resolve : string → string) (binary model : string) (messages : list Message) : Command :=
  mkCommand (resolve binary) [] (["exec"; "--json"] ++ model_args "-m" model ++ ["--"; prompt_of messages]).

Definition codex_usage (obj : json) : TokenUsage :=
  let usage := nested "usage" obj in
  mkUsage (count_of usage "input_tokens") (count_of usage "output_tokens") (count_of usage "cached_input_tokens") 0
    (cost_of usage "total_cost_usd").

(** What a line of [codex exec --json] means. *)
Inductive CodexLine : Type :=
| CodexText (text : string)
| CodexCompleted (usage : TokenUsage)
| CodexFailed (message : string)
| CodexOther.

Definition text_line (o : option string) : CodexLine := match o with Some t => CodexText t | None => CodexOther end.

(** [obj.pointer("/error/message").or_else(|| obj.get("message"))] *)
Definition failure_message (obj : json) : string :=
  default "provider reported failure"
    ((match json_get "error" obj ≫= json_get "message" with Some m => Some m | None => json_get "message" obj end) ≫= as_str).

Definition agent_text (item : json) : option string :=
  if bool_decide (type_of item = Some "agent_message") then json_get "text" item ≫= as_str else None.

Definition codex_line (obj : json) : CodexLine :=
  match type_of obj with
  | None => CodexOther
  | Some kind =>
      if bool_decide (kind = "item.completed") then text_line (json_get "item" obj ≫= agent_text)
      else if bool_decide (kind ∈ ["agent_message_delta"; "message_delta"]) then text_line (json_get "delta" obj ≫= as_str)
      else if bool_decide (kind ∈ ["agent_message"; "message"]) then text_line (json_get "text" obj ≫= as_str)
      else if bool_decide (kind ∈ ["turn.completed"; "task_complete"; "turn_complete"; "result"]) then CodexCompleted (codex_usage obj)
      else if bool_decide (kind ∈ ["turn.failed"; "error"]) then CodexFailed (failure_message obj)
      else CodexOther
  end.

(** The end of the output: the exit, then the completion that was seen. *)
Definition codex_exit (rx : option nat) (completion : option TokenUsage) (wait : result string ExitStatus)
    : result string (option TokenUsage) :=
  if bool_decide (rx = Some O) then Ok None
  else
    match wait with
    | Err e => Err ("could not reap Codex CLI: " +:+ e)
    | Ok status =>
        if ex_success status then
          match completion with
          | Some usage => Ok (Some usage)
          | None => Err "Codex output ended without a completion event"
          end
        else Err ("Codex CLI exited with " +:+ ex_display status)
    end.

Section json.
Context `{JsonText}.

(** The loop the Claude Code and Gemini adapters share: the texts of a line,
    then the usage of a result line ends the call. *)
Fixpoint cli_lines (texts : json → list string) (result_of : json → option TokenUsage) (rx : option nat)
    (ended : bool) (lines : list LineRead) : Reply :=
  match lines with
  | [] => if ended then (send_last rx (Done no_usage), Some (Ok tt)) else ([], None)
  | LineFailed e :: _ => ([], Some (Err e))
  | Line line :: lines =>
      match from_str_value line with
      | None => cli_lines texts result_of rx ended lines
      | Some obj =>
          match deliver rx (map Token (texts obj)) with
          | (sent, None) => (sent, Some (Ok tt))
          | (sent, Some rx) =>
              match result_of obj with
              | Some usage => (sent ++ send_last rx (Done usage), Some (Ok tt))
              | None => let '(sent', r) := cli_lines texts result_of rx ended lines in (sent ++ sent', r)
              end
          end
      end
  end.

(** [spawn], then the loop. *)
Definition cli_send (texts : json → list string) (result_of : json → option TokenUsage) (rx : option nat)
    (spawned : result string Process) : Reply :=
  match spawned with
  | Err e => ([], Some (Err e))
  | Ok p => cli_lines texts result_of rx (pr_ended p) (pr_lines p)
  end.

(** [read_codex]: a receiver that has gone away ends it before the next line;
    [None]: it waits. *)
Fixpoint read_codex (rx : option nat) (completion : option TokenUsage) (ended : bool)
    (wait : option (result string ExitStatus)) (lines : list LineRead)
    : list StreamEvent * option nat * option (result string (option TokenUsage)) :=
  if bool_decide (rx = Some O) then ([], rx, Some (Ok None))
  else
    match lines with
    | [] => ([], rx, if ended then codex_exit rx completion <$> wait else None)
    | LineFailed e :: _ => ([], rx, Some (Err ("could not read Codex output: " +:+ e)))
    | Line line :: lines =>
        if is_blank line then read_codex rx completion ended wait lines
        else
          match from_str_value line with
          | None => ([], rx, Some (Err "invalid Codex JSONL event"))
          | Some obj =>
              match codex_line obj with
              | CodexText text =>
                  match try_send rx with
                  | None => ([], rx, Some (Ok None))
                  | Some rx =>
                      let '(sent, rx, r) := read_codex rx completion ended wait lines in (Token text :: sent, rx, r)
                  end
              | CodexCompleted usage => read_codex rx (Some usage) ended wait lines
              | CodexFailed message => ([], rx, Some (Err message))
              | CodexOther => read_codex rx completion ended wait lines
              end
          end
    end.

Definition run_codex (rx : option nat) (spawned : result string Process)
    : list StreamEvent * option nat * option (result string (option TokenUsage)) :=
  match spawned with
  | Err e => ([], rx, Some (Err ("could not start Codex CLI: " +:+ e)))
  | Ok p => read_codex rx None (pr_ended p) (pr_wait p) (pr_lines p)
  end.

Definition codex_send (rx : option nat) (spawned : result string Process) : Reply :=
  let '(sent, rx, r) := run_codex rx spawned in
  match r with
  | None => (sent, None)
  | Some (Ok (Some usage)) => (sent ++ send_last rx (Done usage), Some (Ok tt))
  | Some (Ok None) => (sent, Some (Ok tt))
  | Some (Err error) => let '(last, res) := fail rx ("Codex execution failed: " +:+ error) in (sent ++ last, res)
  end.

(** ** They answer, or wait *)

Lemma tokens_deltas l : Forall is_delta (map Token l).
Proof. by apply Forall_map, Forall_true. Qed.

(** A program that leaves its adapter waiting. *)
Definition hangs (spawned : result string Process) : Prop :=
  match spawned with Ok p => pr_ended p = false ∨ pr_wait p = None | Err _ => False end.

Lemma cli_lines_reports texts result_of ended lines :
  reports_or (ended = false) (cli_lines texts result_of None ended lines).
Proof.
  induction lines as [|[line|e] lines IH]; cbn [cli_lines].
  - destruct ended; [left; apply done_reports|right; by split; [apply waits_nothing|]].
  - destruct (from_str_value line) as [obj|]; [|done]. rewrite deliver_deltas by apply tokens_deltas.
    destruct (result_of obj) as [u|].
    + left. apply (reports_app _ ([Done u], Some (Ok tt))); [apply tokens_deltas|apply done_reports].
    + destruct (cli_lines texts result_of None ended lines) as [sent r] eqn:E.
      apply (reports_or_app _ _ (sent, r)); [apply tokens_deltas|done].
  - left. apply error_reports.
Qed.

Lemma cli_send_reports texts result_of spawned : reports_or (hangs spawned) (cli_send texts result_of None spawned).
Proof.
  destruct spawned as [p|e]; [|left; apply error_reports]. unfold cli_send.
  destruct (cli_lines_reports texts result_of (pr_ended p) (pr_lines p)) as [?|[? ?]]; [by left|right].
  split; [done|by left].
Qed.

Lemma read_codex_stays ended wait lines : ∀ completion,
  let '(sent, rx, r) := read_codex None completion ended wait lines in
  Forall is_delta sent ∧ rx = None ∧ r ≠ Some (Ok None) ∧ (r = None → ended = false ∨ wait = None).
Proof.
  induction lines as [|[line|e] lines IH]; intros completion; cbn [read_codex bool_decide].
  - split; [by apply Forall_nil|]. split; [done|]. unfold codex_exit.
    destruct ended; [|by split; [|left]]. destruct wait as [w|]; simpl; [|by split; [|right]].
    split; [by repeat case_match|done].
  - simpl. destruct (is_blank line); [apply IH|]. destruct (from_str_value line) as [obj|]; [|by rewrite Forall_nil].
    destruct (codex_line obj) as [text|u|m|]; [|apply IH|by rewrite Forall_nil|apply IH]. simpl.
    specialize (IH completion). destruct (read_codex None completion ended wait lines) as [[sent rx] r].
    destruct IH as (Hs & Hrx & Hr). split; [by constructor|done].
  - simpl. by rewrite Forall_nil.
Qed.

Lemma codex_send_reports spawned : reports_or (hangs spawned) (codex_send None spawned).
Proof.
  unfold codex_send, run_codex.
  destruct spawned as [p|e]; [|left; apply answers_reports, (fail_answers ("Codex execution failed: " +:+ _))].
  pose proof (read_codex_stays (pr_ended p) (pr_wait p) (pr_lines p) None) as Hr.
  destruct (read_codex None None (pr_ended p) (pr_wait p) (pr_lines p)) as [[sent rx] [[[u|]|e]|]];
    destruct Hr as (Hs & -> & Hn & Hw); [|done| |].
  - left. apply (reports_app _ ([Done u], Some (Ok tt))); [done|apply done_reports].
  - left. apply (reports_app _ ([StreamError _], Some (Err _))); [done|]. apply answers_reports, fail_answers.
  - right. split; [by split|]. by apply Hw.
Qed.

End json.

(** ** The Ollama adapter (crates/heiwa_provider/src/providers/ollama.rs)

    [ollama run], its output cut into lines and passed through the filter that
    removes reasoning traces. *)

(** ** The filter *)

(** Of two places a marker was found at, the earlier: what is before it and
    what is after it. *)
Definition earlier (a b : option (bytes * bytes)) : option (bytes * bytes) :=
  match a, b with
  | Some x, Some y => if (length x.1 <? length y.1)%nat then Some x else Some y
  | Some x, None => Some x
  | None, b => b
  end.

Definition block_end (s : bytes) : option (bytes * bytes) :=
  earlier (split_once (as_bytes "</think>") s) (split_once (as_bytes "done thinking.") s).

Definition block_start (s : bytes) : option (bytes * bytes) :=
  earlier (split_once (as_bytes "<think>") s)
    (match split_once (as_bytes "Thinking Process:") s with
     | Some x => Some x
     | None => split_once (as_bytes "Thinking...") s
     end).

(** [strip_prefix('\n')] after a block's end *)
Definition drop_newline (s : bytes) : bytes := default s (strip_prefix [newline] s).

(** What is left of the text once the block it is in, if any, has ended. *)
Definition leave_block (in_block : bool) (s : bytes) : option bytes :=
  if in_block then (λ x, drop_newline x.2) <$> block_end s else Some s.

(** The loop of [feed]: the text shown, and whether a block is open after it. *)
Fixpoint feed_loop (fuel : nat) (in_block : bool) (out remaining : bytes) : bytes * bool :=
  match fuel with
  | O => (out, in_block)
  | S fuel =>
      match leave_block in_block remaining with
      | None => (out, true)
      | Some remaining =>
          match block_start remaining with
          | Some (before, rest) => feed_loop fuel true (out ++ before) rest
          | None => (out ++ remaining, false)
          end
      end
  end.

(** [feed], its [None] being the empty text *)
Definition feed (in_block : bool) (input : bytes) : bytes * bool := feed_loop (S (length input)) in_block [] input.

(** ** The adapter *)

Record OllamaCliAdapter : Type := mkOllama { ol_default_model : string; ol_endpoint : string }.

(** A lane that is not a local runtime's panics. *)
Definition ollama_from_lane (lane : RegistryAdmittedLane) : outcome OllamaCliAdapter :=
  match pa_credential (ln_account lane) with
  | LocalRuntime endpoint => Return (mkOllama (lane_provider_model_id lane) endpoint)
  | _ => Panic
  end.

Definition ollama_command (resolve : string → string) (a : OllamaCliAdapter) (model : string) (messages : list Message) : Command :=
  mkCommand (resolve "ollama") [("OLLAMA_HOST", ol_endpoint a)]
    ["run"; if bool_decide (model = EmptyString) then ol_default_model a else model; prompt_of messages].

(** What [read] returns in turn; an empty read is the end. *)
Inductive Read : Type := ReadBytes (b : bytes) | ReadFailed (error : string).

(** The output as of a moment: what was read, and whether it has ended. *)
Record Output : Type := mkOutput { out_reads : list Read; out_ended : bool }.

Definition no_cr (line : bytes) : bytes := List.filter (λ a, negb (bool_decide (a = byte_of 13))) line.

Definition shown (text : bytes) : list StreamEvent :=
  if bool_decide (text = []) then [] else [Token (String.string_of_list_ascii text)].

(** The lines of one read. *)
Fixpoint emit_lines (in_block : bool) (rx : option nat) (lines : list bytes) : list StreamEvent * option (bool * option nat) :=
  match lines with
  | [] => ([], Some (in_block, rx))
  | line :: lines =>
      let '(text, in_block) := feed in_block (no_cr (terminated line)) in
      match deliver rx (shown text) with
      | (sent, None) => (sent, None)
      | (sent, Some rx) => let '(sent', r) := emit_lines in_block rx lines in (sent ++ sent', r)
      end
  end.

(** The trailing segment and the end: what is lost is not looked at. *)
Definition flush (in_block : bool) (rx : option nat) (carry : bytes) : list StreamEvent :=
  let text := if bool_decide (carry = []) then [] else shown (feed in_block (no_cr carry)).1 in
  send_all rx (text ++ [Done no_usage]).

Fixpoint ollama_loop (carry : bytes) (in_block : bool) (rx : option nat) (ended : bool) (reads : list Read) : Reply :=
  match reads with
  | [] => if ended then (flush in_block rx carry, Some (Ok tt)) else ([], None)
  | ReadBytes [] :: _ => (flush in_block rx carry, Some (Ok tt))
  | ReadFailed e :: _ => ([], Some (Err e))
  | ReadBytes b :: reads =>
      let '(lines, carry) := frames (carry ++ utf8_lossy b) in
      match emit_lines in_block rx lines with
      | (sent, None) => (sent, Some (Ok tt))
      | (sent, Some (in_block, rx)) =>
          let '(sent', r) := ollama_loop carry in_block rx ended reads in (sent ++ sent', r)
      end
  end.

Definition ollama_send (rx : option nat) (spawned : result string Output) : Reply :=
  match spawned with
  | Err e => ([], Some (Err e))
  | Ok output => ollama_loop [] false rx (out_ended output) (out_reads output)
  end.

(** ** The filter ends *)

Lemma split_once_length p s x : split_once p s = Some x → (length x.1 + length x.2 + length p = length s)%nat.
Proof.
  revert x. induction s as [|a s IH]; intros x; cbn [split_once].
  - destruct (strip_prefix p []) as [r|] eqn:E; [|done]. intros [= <-]. apply strip_prefix_Some in E.
    apply (f_equal length) in E. rewrite length_app in E. simpl in *. lia.
  - destruct (strip_prefix p (a :: s)) as [r|] eqn:E.
    + intros [= <-]. apply strip_prefix_Some in E. rewrite E, length_app. simpl. lia.
    + destruct (split_once p s) as [[u v]|]; [|done]. intros [= <-]. specialize (IH (u, v) eq_refl). simpl in *. lia.
Qed.

(** Finding a marker shortens the text by more than it keeps. *)
Lemma earlier_shorter a b (n : nat) :
  (∀ x, a = Some x → (length x.1 + length x.2 < n)%nat) → (∀ x, b = Some x → (length x.1 + length x.2 < n)%nat) →
  ∀ x, earlier a b = Some x → (length x.1 + length x.2 < n)%nat.
Proof.
  intros Ha Hb x. unfold earlier. destruct a as [y|], b as [z|]; try destruct (_ <? _)%nat; intros [= <-]; auto.
Qed.

Lemma marker_shorter p s : p ≠ [] → ∀ x, split_once p s = Some x → (length x.1 + length x.2 < length s)%nat.
Proof. intros Hp x Hx%split_once_length. destruct p; [done|]. simpl in Hx. lia. Qed.

Lemma block_start_shorter s x : block_start s = Some x → (length x.1 + length x.2 < length s)%nat.
Proof.
  apply earlier_shorter; [by apply marker_shorter|]. intros y Hy.
  destruct (split_once (as_bytes "Thinking Process:") s) as [z|] eqn:E; [injection Hy as <-; revert z E|revert y Hy]; by apply marker_shorter.
Qed.

Lemma leave_block_shorter in_block s r : leave_block in_block s = Some r → (length r ≤ length s)%nat.
Proof.
  destruct in_block; simpl; [|by intros [= ->]]. unfold block_end. intros (x & Hx & ->)%fmap_Some.
  assert (length x.1 + length x.2 < length s)%nat as Hl.
  { revert x Hx. apply earlier_shorter; intros x; by apply marker_shorter. }
  unfold drop_newline. destruct (strip_prefix [newline] x.2) as [t|] eqn:E; simpl; [|lia].
  apply strip_prefix_Some in E. rewrite E, length_app in Hl. lia.
Qed.

(** More fuel than the text has bytes changes nothing: every round that goes on
    has left a marker behind. *)
Lemma feed_fuel_enough fuel : ∀ fuel' in_block out s,
  (length s < fuel)%nat → (length s < fuel')%nat → feed_loop fuel in_block out s = feed_loop fuel' in_block out s.
Proof.
  induction fuel as [|fuel IH]; intros [|fuel'] in_block out s H1 H2; try lia. cbn [feed_loop].
  destruct (leave_block in_block s) as [r|] eqn:El; [|done]. apply leave_block_shorter in El.
  destruct (block_start r) as [[before rest]|] eqn:Es; [|done]. apply block_start_shorter in Es. simpl in Es. apply IH; lia.
Qed.

(** Only text of the input is shown: what the filter gives is what is left of
    the input when pieces are removed. *)
Lemma split_once_app p s x : split_once p s = Some x → s = x.1 ++ p ++ x.2.
Proof.
  revert x. induction s as [|a s IH]; intros x; cbn [split_once].
  - destruct (strip_prefix p []) as [r|] eqn:E; [|done]. intros [= <-]. by apply strip_prefix_Some in E.
  - destruct (strip_prefix p (a :: s)) as [r|] eqn:E; [intros [= <-]; by apply strip_prefix_Some in E|].
    destruct (split_once p s) as [[u v]|]; [|done]. intros [= <-]. simpl. by rewrite (IH (u, v) eq_refl).
Qed.

Lemma drop_newline_sublist s : sublist (drop_newline s) s.
Proof.
  unfold drop_newline. destruct (strip_prefix [newline] s) as [t|] eqn:E; [|done]. apply strip_prefix_Some in E. subst s.
  by apply sublist_inserts_l.
Qed.

Lemma earlier_cases a b x : earlier a b = Some x → a = Some x ∨ b = Some x.
Proof. unfold earlier. destruct a as [y|], b as [z|]; try destruct (_ <? _)%nat; intros [= <-]; auto. Qed.

Lemma leave_block_sublist in_block s r : leave_block in_block s = Some r → sublist r s.
Proof.
  destruct in_block; simpl; [|by intros [= ->]]. intros (x & Hx & ->)%fmap_Some.
  etrans; [apply drop_newline_sublist|].
  apply earlier_cases in Hx as [Hx|Hx]; apply split_once_app in Hx; rewrite Hx; by do 2 apply sublist_inserts_l.
Qed.

Lemma block_start_sublist s x : block_start s = Some x → ∃ p, s = x.1 ++ p ++ x.2.
Proof.
  intros [Hx|Hx]%earlier_cases; [by eexists; apply split_once_app|].
  destruct (split_once (as_bytes "Thinking Process:") s) as [z|] eqn:E; [injection Hx as <-|]; by eexists; apply split_once_app.
Qed.

Lemma feed_loop_sublist fuel : ∀ in_block out s, ∃ t, (feed_loop fuel in_block out s).1 = out ++ t ∧ sublist t s.
Proof.
  induction fuel as [|fuel IH]; intros in_block out s; cbn [feed_loop].
  { exists []. rewrite app_nil_r. split; [done|apply sublist_nil_l]. }
  destruct (leave_block in_block s) as [r|] eqn:El; [|exists []; rewrite app_nil_r; split; [done|apply sublist_nil_l]].
  apply leave_block_sublist in El.
  destruct (block_start r) as [[before rest]|] eqn:Es; [|by exists r].
  apply block_start_sublist in Es as [p Hp]. simpl in Hp. destruct (IH true (out ++ before) rest) as (t & -> & Ht).
  exists (before ++ t). rewrite app_assoc. split; [done|]. etrans; [|exact El]. rewrite Hp.
  apply sublist_app; [done|]. by apply sublist_inserts_l.
Qed.

Lemma feed_shows_the_input in_block s : sublist (feed in_block s).1 s.
Proof. destruct (feed_loop_sublist (S (length s)) in_block [] s) as (t & Ht & Hs). unfold feed. by rewrite Ht. Qed.

(** ** The calls *)

Lemma shown_deltas text : Forall is_delta (shown text).
Proof. unfold shown. case_bool_decide; by rewrite ?Forall_singleton, ?Forall_nil. Qed.

Lemma emit_lines_stays lines : ∀ in_block,
  ∃ sent in_block', emit_lines in_block None lines = (sent, Some (in_block', None)) ∧ Forall is_delta sent.
Proof.
  induction lines as [|line lines IH]; intros in_block; simpl; [eexists _, _; split; [done|by apply Forall_nil]|].
  destruct (feed in_block _) as [text b]. rewrite deliver_deltas by apply shown_deltas.
  destruct (IH b) as (sent & b' & -> & Hs). eexists _, _. split; [done|]. apply Forall_app. split; [apply shown_deltas|done].
Qed.

Lemma flush_reports in_block carry : reports (flush in_block None carry, Some (Ok tt)).
Proof.
  unfold flush. rewrite send_all_stays. apply (reports_app _ ([Done no_usage], Some (Ok tt))); [|apply done_reports].
  case_bool_decide; [by apply Forall_nil|apply shown_deltas].
Qed.

(** An output that leaves its adapter waiting. *)
Definition unended (spawned : result string Output) : Prop :=
  match spawned with Ok output => out_ended output = false | Err _ => False end.

Lemma ollama_loop_reports ended reads : ∀ carry in_block,
  reports_or (ended = false) (ollama_loop carry in_block None ended reads).
Proof.
  induction reads as [|[[|a b]|e] reads IH]; intros carry in_block; cbn [ollama_loop].
  - destruct ended; [left; apply flush_reports|right]. split; [apply waits_nothing|done].
  - left. apply flush_reports.
  - destruct (frames _) as [lines carry']. destruct (emit_lines_stays lines in_block) as (sent & b' & -> & Hs).
    specialize (IH carry' b'). destruct (ollama_loop carry' b' None ended reads) as [sent' r].
    by apply (reports_or_app _ _ (sent', r)).
  - left. apply error_reports.
Qed.

Lemma ollama_send_reports spawned : reports_or (unended spawned) (ollama_send None spawned).
Proof. destruct spawned as [output|e]; [apply ollama_loop_reports|left; apply error_reports]. Qed.

(** ** The output, however it is read *)

Lemma output_frames_app a b :
  frames (a ++ b) = ((frames a).1 ++ (frames ((frames a).2 ++ b)).1, (frames ((frames a).2 ++ b)).2).
Proof.
  destruct (frames_ok a) as [Ha _]. destruct (frames_ok ((frames a).2 ++ b)) as [Hb1 Hb2].
  rewrite <- (frames_unframe ((frames a).1 ++ (frames ((frames a).2 ++ b)).1) _ (proj2 (Forall_app _ _ _) (conj Ha Hb1)) Hb2).
  f_equal. rewrite unframe_app, unframe_frames, app_assoc, <- unframe_tail. by rewrite unframe_frames.
Qed.

Lemma emit_lines_app l1 l2 : ∀ in_block,
  emit_lines in_block None (l1 ++ l2) =
    match emit_lines in_block None l1 with
    | (sent, Some (b, rx)) => let '(sent', r) := emit_lines b rx l2 in (sent ++ sent', r)
    | (sent, None) => (sent, None)
    end.
Proof.
  induction l1 as [|line l1 IH]; intros in_block; simpl; [by destruct (emit_lines in_block None l2)|].
  destruct (feed in_block _) as [text b]. rewrite deliver_deltas by apply shown_deltas. rewrite IH.
  destruct (emit_lines_stays l1 b) as (sent & b' & -> & _). destruct (emit_lines b' None l2). by rewrite app_assoc.
Qed.

(** What the whole output gives: its lines, then what is after the last. *)
Definition output_events (in_block : bool) (output : bytes) : list StreamEvent :=
  match emit_lines in_block None (frames output).1 with
  | (sent, Some (b, rx)) => sent ++ flush b rx (frames output).2
  | (sent, None) => sent
  end.

Lemma ollama_loop_output chunks : ∀ carry in_block,
  line_ok carry → Forall (λ b, utf8_lossy b = b ∧ b ≠ []) chunks →
  ollama_loop carry in_block None true (map ReadBytes chunks) =
    (output_events in_block (carry ++ concat chunks), Some (Ok tt)).
Proof.
  induction chunks as [|b chunks IH]; intros carry in_block Hcarry Hu; cbn [map ollama_loop concat].
  { unfold output_events. by rewrite app_nil_r, (frames_tail carry Hcarry). }
  apply Forall_cons in Hu as [[Hb Hne] Hu]. destruct b as [|a b]; [done|]. rewrite Hb.
  unfold output_events. rewrite (app_assoc carry), (output_frames_app (carry ++ a :: b)). cbn [fst snd].
  destruct (frames_ok (carry ++ a :: b)) as [_ Hok]. destruct (frames (carry ++ a :: b)) as [lines carry']. cbn [fst snd] in *.
  rewrite emit_lines_app. destruct (emit_lines_stays lines in_block) as (sent & b' & -> & _).
  rewrite (IH carry' b' Hok Hu). unfold output_events.
  destruct (emit_lines_stays (frames (carry' ++ concat chunks)).1 b') as (sent' & b'' & -> & _). by rewrite app_assoc.
Qed.

(**  What the model says does not depend on how the program's output is
    read.  Whole UTF-8 reads, of any sizes (in the middle of a line or of a
    reasoning trace), give the events of the whole output: each line through
    the filter, the segment after the last newline, and one [Done] at the end. *)
Theorem ollama_reads_the_output (chunks : list bytes) :
  Forall (λ b, utf8_lossy b = b ∧ b ≠ []) chunks →
  ollama_send None (Ok (mkOutput (map ReadBytes chunks) true)) = (output_events false (concat chunks), Some (Ok tt)).
Proof.
  intros Hu. cbn [ollama_send out_reads out_ended]. rewrite ollama_loop_output; [done| |done]. by apply not_elem_of_nil.
Qed.

Lemma ollama_reads_the_output_witness :
  let chunks := map as_bytes ["hello <thi"; "nk>internal"; " chain</think>world"] in
  Forall (λ b, utf8_lossy b = b ∧ b ≠ []) chunks ∧
  (ollama_send None (Ok (mkOutput (map ReadBytes chunks) true))).1 = [Token "hello world"; Done no_usage] ∧
  ollama_send None (Ok (mkOutput (map ReadBytes chunks) true)) = (output_events false (concat chunks), Some (Ok tt)).
Proof.
  intros chunks.
  assert (Forall (λ b, utf8_lossy b = b ∧ b ≠ []) chunks) as Hu by (repeat (apply Forall_cons; split; [split; [vm_compute; reflexivity|done]|]); apply Forall_nil_2).
  split; [exact Hu|]. split; [vm_compute; reflexivity|]. exact (ollama_reads_the_output chunks Hu).
Defined.

(** A character cut by the end of a read is lost. *)
Example a_cut_character_is_lost :
  (ollama_send None (Ok (mkOutput [ReadBytes (map byte_of [195]); ReadBytes (map byte_of [169])] true))).1 =
    [Token (String.string_of_list_ascii (replacement_character ++ replacement_character)); Done no_usage] ∧
  (ollama_send None (Ok (mkOutput [ReadBytes (map byte_of [195; 169])] true))).1 =
    [Token (String.string_of_list_ascii (map byte_of [195; 169])); Done no_usage].
Proof. split; vm_compute; reflexivity. Qed.

(** A program that prints nothing and fails has completed. *)
Example a_failed_run_is_done : ollama_send None (Ok (mkOutput [] true)) = ([Done no_usage], Some (Ok tt)).
Proof. reflexivity. Qed.
