(* ===== verification/Discovery.v ===== *)
(** * Finding and verifying accounts (crates/heiwa_provider/src/detect/mod.rs)

    The accounts a machine's programs and environment give, and what asking a
    provider for its models does to an account. *)

From stdpp Require Import base gmap sets strings numbers list.
From Stdlib Require Import Ascii.
From S2P Require Import Prelude Utf8 Json Sensitive CallCosts Provider ModelExecution ProviderStreams ProviderHttp.
From S2P Require Import AnthropicApi OpenAiApi GeminiApi.
#[local] Open Scope Z_scope.

(** ** Accounts by field *)

Definition with_status (s : AccountStatus) (a : ProviderAccount) : ProviderAccount :=
  mkAccount (pa_account_id a) (pa_provider a) (pa_credential a) (pa_rate_group a) s (pa_models a).
Definition with_models (l : list DetectedModel) (a : ProviderAccount) : ProviderAccount :=
  mkAccount (pa_account_id a) (pa_provider a) (pa_credential a) (pa_rate_group a) (pa_status a) l.

(** ** What the machine has *)

Definition PROVIDER_CLIS : list (string * string * string) :=
  [("anthropic", "claude", "anthropic_sub"); ("openai", "codex", "openai_sub"); ("google", "gemini", "google")].

Definition cli_account (provider binary rate_group : string) : ProviderAccount :=
  mkAccount (provider +:+ "-cli") provider (OauthCli binary) rate_group Disconnected [].

Definition register_cli (installed : string → bool) (st : Accounts * list string) (cli : string * string * string)
    : Accounts * list string :=
  let '(provider, binary, rate_group) := cli in
  let account_id := provider +:+ "-cli" in
  if bool_decide (is_Some (get st.1 account_id)) || negb (installed binary) then st
  else (upsert st.1 (cli_account provider binary rate_group), st.2 ++ [account_id]).

(** The accounts, and the ids added *)
Definition register_installed_clis (accounts : Accounts) (installed : string → bool) : Accounts * list string :=
  foldl (register_cli installed) (accounts, []) PROVIDER_CLIS.

Definition env_account (provider rate_group : string) : ProviderAccount :=
  mkAccount (provider +:+ "-api-1") provider ApiKey rate_group NeedsAuth [].

Definition register_env_key (env : string → option string) (st : Accounts * list string) (p : string * string)
    : Accounts * list string :=
  let '(provider, rate_group) := p in
  let has_key := existsb (λ name, bool_decide (is_Some (env name ≫= usable_value))) (key_env_vars provider) in
  let already_registered := existsb is_api_key (accounts_for st.1 provider) in
  if negb has_key || already_registered then st
  else (upsert st.1 (env_account provider rate_group), st.2 ++ [provider +:+ "-api-1"]).

Definition register_env_key_accounts (accounts : Accounts) (env : string → option string) : Accounts * list string :=
  foldl (register_env_key env) (accounts, []) ENV_KEY_PROVIDERS.

(** ** What a discovery says of a key *)

Definition INVALID_KEY : string := "Invalid API key".

Definition status_after_discovery_failure (error : DiscoverError) : AccountStatus :=
  match error with
  | OtherError _ => Connected
  | DiscoveryError status detail =>
      if bool_decide (status = 401 ∨ status = 403) then StatusError INVALID_KEY
      else if bool_decide (status = 429) then StatusError ("HTTP 429 rate limit: " +:+ detail)
      else Connected
  end.

Definition apply_discovery (account : ProviderAccount) (provider_label : string)
    (r : result DiscoverError (list DetectedModel)) : ProviderAccount * result string unit :=
  match r with
  | Ok models => (with_status Connected (with_models models account), Ok tt)
  | Err error =>
      let status := status_after_discovery_failure error in
      if bool_decide (status = StatusError INVALID_KEY)
      then (with_status status (with_models [] account), Err ("Invalid " +:+ provider_label +:+ " API key"))
      else (with_status status account, Ok tt)
  end.

(** ** What a request carries *)

(** What is under an endpoint: the lists of models and of a key's metadata, and
    the chats of the four providers.  A chat's path names at most the model. *)
Definition LISTING_PATHS : list string := ["v1/models?limit=100"; "v1/models"; "v1beta/models?pageSize=200"; "key"; "models"].

Definition chat_paths (model : string) : list string :=
  ["v1/messages"; "v1/chat/completions"; "v1beta/models/" +:+ model +:+ ":streamGenerateContent?alt=sse"; "chat/completions"].

(** The documents of the four: the model and the messages, nothing else. *)
Definition chat_bodies (model : string) (messages : list Message) : list json :=
  [AnthropicApi.build_request_body model messages AnthropicApi.DEFAULT_MAX_TOKENS; OpenAiApi.build_request_body model messages;
   GeminiApi.build_request_body messages; openrouter_body model messages].

(** The headers every call of an adapter has alike. *)
Definition PUBLIC_HEADERS : list (string * string) :=
  [("anthropic-version", "2023-06-01"); ("content-type", "application/json"); ("HTTP-Referer", "https://heiwa.ltd");
   ("X-Title", "Heiwa")].

(** The header of a request that presents a key. *)
Definition auth_headers (key : string) : list (string * string) :=
  [("x-api-key", key); ("x-goog-api-key", key); ("authorization", "Bearer " +:+ key)].

(** What is asked of a provider: a list, or a chat with a model. *)
Definition Asked : Type := option (string * list Message).

Definition path_of (asked : Asked) (path : string) : Prop :=
  match asked with None => path ∈ LISTING_PATHS | Some (model, _) => path ∈ chat_paths model end.

Definition body_of (asked : Asked) (body : option json) : Prop :=
  match asked with
  | None => body = None
  | Some (model, messages) => ∃ document, body = Some document ∧ document ∈ chat_bodies model messages
  end.

(** A request to that place, with this key and no other: its URL is the
    endpoint and one of the provider's fixed paths, its first header presents
    the key, its others are the public ones, and its body is made of what is
    asked alone. *)
Definition goes_to (endpoint key : string) (asked : Asked) (q : HttpRequest) : Prop :=
  (∃ path, rq_url q = endpoint +:+ "/" +:+ path ∧ path_of asked path) ∧
  (∃ auth rest, rq_headers q = auth :: rest ∧ auth ∈ auth_headers key ∧ ∀ h, h ∈ rest → h ∈ PUBLIC_HEADERS) ∧
  body_of asked (rq_body q).

(** One of a list written out, in an evaluated context. *)
Ltac pick := first [by left|right; pick].

(** The three parts of [goes_to], for a request written out. *)
Ltac goes path :=
  split; [exists path; split; [reflexivity|simpl; pick]
         |split; [eexists _, _; split; [reflexivity|]; split; [simpl; pick|]; intros h Hh; set_solver|]].

(** ** OpenRouter *)

Definition big_hints : list string := ["70b"; "72b"; "235b"; "405b"; "671b"; "deepseek-r1"; "deepseek-v3"].

Definition ends_with (suffix s : bytes) : bool := starts_with (rev suffix) (rev s).

Section openrouter.
(** [str::to_lowercase] of a text that is not ASCII *)
Context (to_lowercase : string → string).

Definition openrouter_capability_class (id : string) : Z :=
  if existsb (λ hint, contains (as_bytes hint) (as_bytes (to_lowercase id))) big_hints then 3 else 2.

Definition modalities_of (m : json) : list string :=
  strings_of (json_get "architecture" m ≫= json_get "input_modalities").

Definition free_model (account_id rate_group : string) (m : json) : option DetectedModel :=
  id ← json_get "id" m ≫= as_str;
  if ends_with (as_bytes ":free") (as_bytes id) then
    Some (mkModel id id "openrouter" account_id rate_group (openrouter_capability_class id)
      (as_u32 (default 8192 (json_get "context_length" m ≫= as_u64))) true
      (bool_decide ("tools" ∈ strings_of (json_get "supported_parameters" m)))
      (bool_decide ("image" ∈ modalities_of m)) (bool_decide ("audio" ∈ modalities_of m)) 0 0 Known Verified)
  else None.

Definition openrouter_free_models (body : json) (account_id rate_group : string) : list DetectedModel :=
  match json_get "data" body ≫= as_array with
  | Some data => omap (free_model account_id rate_group) data
  | None => []
  end.

Definition OPENROUTER_BASE : string := "https://openrouter.ai/api/v1".
Definition key_request (base api_key : string) : HttpRequest := mkRequest "GET" (base +:+ "/key") [bearer api_key] None.
Definition catalog_request (base api_key : string) : HttpRequest := mkRequest "GET" (base +:+ "/models") [bearer api_key] None.

(** The checks of the key's metadata. *)
Definition check_key (key : json) : result string unit :=
  if negb (match json_get "data" key with Some d => is_object d | None => false end)
  then Err "OpenRouter returned invalid key metadata"
  else if bool_decide ((json_get "data" key ≫= json_get "is_management_key") ≫= as_bool = Some true)
  then Err "Use an inference key rather than a management key"
  else Ok tt.

Definition catalog_models (account : ProviderAccount) (body : json) : result string (list DetectedModel) :=
  match json_get "data" body ≫= as_array with
  | None => Err "OpenRouter returned an invalid model catalog"
  | Some _ => Ok (openrouter_free_models body (pa_account_id account) (pa_rate_group account))
  end.

(** The requests made, and the inventory *)
Definition openrouter_inventory (http : HttpRequest → result string HttpResponse) (account : ProviderAccount) (api_key base : string)
    : list HttpRequest * result string (list DetectedModel) :=
  let kq := key_request base api_key in
  match http kq with
  | Err e => ([kq], Err e)
  | Ok kr =>
      if negb (is_success kr) then ([kq], Err "OpenRouter credential verification failed")
      else
        match rs_json kr with
        | Err e => ([kq], Err e)
        | Ok key =>
            match check_key key with
            | Err e => ([kq], Err e)
            | Ok _ =>
                let cq := catalog_request base api_key in
                match http cq with
                | Err e => ([kq; cq], Err e)
                | Ok cr =>
                    if negb (is_success cr) then ([kq; cq], Err "OpenRouter model discovery failed")
                    else match rs_json cr with
                         | Err e => ([kq; cq], Err e)
                         | Ok body => ([kq; cq], catalog_models account body)
                         end
                end
            end
        end
  end.

Definition OPENROUTER_FAILED : string := "OpenRouter verification failed; check the key and network".

(** What a verification did: the account, its result, the requests made. *)
Definition Verification : Type := ProviderAccount * result string unit * list HttpRequest.

Definition verify_openrouter_at (http : HttpRequest → result string HttpResponse) (account : ProviderAccount) (api_key base : string) : Verification :=
  let '(requests, r) := openrouter_inventory http account api_key base in
  match r with
  | Ok models => (with_status Connected (with_models models account), Ok tt, requests)
  | Err e => (with_status (StatusError OPENROUTER_FAILED) (with_models [] account), Err e, requests)
  end.

(** ** Verification *)

Definition listing (label : string) (account : ProviderAccount) (request : HttpRequest)
    (r : result DiscoverError (list DetectedModel)) : Verification :=
  (apply_discovery account label r, [request]).

Definition verify_anthropic (env : string → option string) (http : HttpRequest → result string HttpResponse)
    (account : ProviderAccount) (api_key : string) : Verification :=
  let base := api_base_url env "anthropic" AnthropicApi.DEFAULT_BASE_URL in
  listing "Anthropic" account (AnthropicApi.models_request base api_key)
    (AnthropicApi.discover_models http api_key base (pa_account_id account) (pa_rate_group account)).

Definition verify_google (env : string → option string) (http : HttpRequest → result string HttpResponse)
    (account : ProviderAccount) (api_key : string) : Verification :=
  let base := api_base_url env "google" GeminiApi.DEFAULT_BASE_URL in
  listing "Google" account (GeminiApi.models_request base api_key)
    (GeminiApi.discover_models http api_key base (pa_account_id account) (pa_rate_group account)).

Definition verify_openai (env : string → option string) (http : HttpRequest → result string HttpResponse)
    (account : ProviderAccount) (api_key : string) : Verification :=
  let base := api_base_url env "openai" OpenAiApi.DEFAULT_BASE_URL in
  listing "OpenAI" account (OpenAiApi.models_request base api_key)
    (OpenAiApi.discover_models http api_key base (pa_account_id account) (pa_rate_group account)).

(** The provider's own check of a key. *)
Definition verify_with (env : string → option string) (http : HttpRequest → result string HttpResponse)
    (account : ProviderAccount) (api_key : string) : Verification :=
  if bool_decide (pa_provider account = "anthropic") then verify_anthropic env http account api_key
  else if bool_decide (pa_provider account = "openai") then verify_openai env http account api_key
  else if bool_decide (pa_provider account = "google") then verify_google env http account api_key
  else if bool_decide (pa_provider account = "openrouter") then verify_openrouter_at http account api_key OPENROUTER_BASE
  else (with_status Connected account, Ok tt, []).

Definition verify_api_key (env : string → option string) (stored : string → result string (option string))
    (http : HttpRequest → result string HttpResponse) (account : ProviderAccount) : Verification :=
  match resolve_secret_with (pa_account_id account) stored env with
  | Err e => (account, Err e, [])
  | Ok None => (account, Err ("No API key found in Keychain for " +:+ pa_account_id account), [])
  | Ok (Some api_key) => verify_with env http account api_key
  end.

(** ** What it keeps *)

(** The fields a verification does not touch. *)
Definition same_seat (a b : ProviderAccount) : Prop :=
  pa_account_id a = pa_account_id b ∧ pa_provider a = pa_provider b ∧
  pa_credential a = pa_credential b ∧ pa_rate_group a = pa_rate_group b.

(** Every model with a name is one the account may offer. *)
Definition inventory_ok (a : ProviderAccount) : Prop :=
  ∀ m, m ∈ pa_models a → is_blank (dm_model_id m) = false → model_is_admissible a m = true.

Lemma admissible_same_seat a b m : same_seat a b → model_is_admissible a m = model_is_admissible b m.
Proof. intros (H1 & H2 & H3 & H4). unfold model_is_admissible. by rewrite H1, H2, H3, H4. Qed.

Lemma inventory_same_seat a b : same_seat a b → pa_models a = pa_models b → inventory_ok b → inventory_ok a.
Proof. intros Hs Hm Hb m Hin Hn. rewrite (admissible_same_seat a b m Hs). apply Hb; [by rewrite <- Hm|done]. Qed.

Lemma inventory_none a : pa_models a = [] → inventory_ok a.
Proof. intros Hm m Hin. rewrite Hm in Hin. by apply elem_of_nil in Hin. Qed.

Lemma free_models_admissible account body m :
  canonical_provider_id (pa_provider account) = "openrouter" →
  m ∈ openrouter_free_models body (pa_account_id account) (pa_rate_group account) →
  model_is_admissible account m = negb (is_blank (dm_model_id m)).
Proof.
  intros Hp. unfold openrouter_free_models. destruct (json_get "data" body ≫= as_array) as [data|]; [|by intros ?%elem_of_nil].
  intros (entry & _ & He)%list_elem_of_omap. unfold free_model in He. apply bind_Some in He as (id & _ & He).
  destruct (ends_with _ _); [|done]. injection He as <-.
  unfold model_is_admissible. simpl. rewrite Hp. rewrite !bool_decide_true by done. simpl. by destruct (is_blank id).
Qed.

(** A listing in which every model is admissible gives a sound account. *)
Lemma apply_discovery_sound account label r :
  inventory_ok account →
  (∀ models m, r = Ok models → m ∈ models → model_is_admissible account m = negb (is_blank (dm_model_id m))) →
  same_seat (apply_discovery account label r).1 account ∧ inventory_ok (apply_discovery account label r).1 ∧
  ((apply_discovery account label r).2 ≠ Ok tt → pa_models (apply_discovery account label r).1 = []).
Proof.
  intros Hi Hr. unfold apply_discovery. destruct r as [models|error].
  - split; [done|]. split; [|done]. intros m Hm Hn. simpl in Hm.
    rewrite (admissible_same_seat _ account) by done. by rewrite (Hr models m), Hn.
  - case_bool_decide; simpl; (split; [done|]); (split; [|done]); [by apply inventory_none|].
    by apply (inventory_same_seat _ account).
Qed.

Lemma discovered_Ok http models l : discovered http models = Ok l → ∃ body, l = models body.
Proof. unfold discovered. repeat case_match; intros [= <-]. by eexists. Qed.

Lemma inventory_models http account key base l :
  (openrouter_inventory http account key base).2 = Ok l →
  ∃ body, l = openrouter_free_models body (pa_account_id account) (pa_rate_group account).
Proof.
  unfold openrouter_inventory, catalog_models. repeat case_match; simpl; intros [= <-]. by eexists.
Qed.

(** ** Where a key goes *)

(** The one place a provider's calls go to. *)
Definition endpoint_of (env : string → option string) (canonical : string) : string :=
  if bool_decide (canonical = "claude") then trim_slashes (api_base_url env "claude" AnthropicApi.DEFAULT_BASE_URL)
  else if bool_decide (canonical = "codex") then trim_slashes (api_base_url env "codex" OpenAiApi.DEFAULT_BASE_URL)
  else if bool_decide (canonical = "gemini") then trim_slashes (api_base_url env "gemini" GeminiApi.DEFAULT_BASE_URL)
  else OPENROUTER_BASE.

Lemma openrouter_goes http account key base q :
  q ∈ (openrouter_inventory http account key base).1 → goes_to base key None q.
Proof.
  assert (goes_to base key None (key_request base key)) as Hk by (goes "key"; done).
  assert (goes_to base key None (catalog_request base key)) as Hc by (goes "models"; done).
  intros Hq. assert (q ∈ [key_request base key; catalog_request base key]) as Hin.
  { revert Hq. unfold openrouter_inventory. repeat case_match; cbn [fst]; set_solver. }
  apply elem_of_cons in Hin as [->|Hin]; [done|]. by apply list_elem_of_singleton in Hin as ->.
Qed.

(** The requests of a verification, whatever the account. *)
Lemma verify_with_requests env http account key :
  Forall (goes_to (endpoint_of env (canonical_provider_id (pa_provider account))) key None)
    (verify_with env http account key).2.
Proof.
  unfold verify_with.
  destruct (decide (pa_provider account = "anthropic")) as [Hp|H1].
  { rewrite bool_decide_true, Hp by done. apply Forall_singleton. by goes "v1/models?limit=100". }
  destruct (decide (pa_provider account = "openai")) as [Hp|H2].
  { rewrite bool_decide_false, bool_decide_true, Hp by done. apply Forall_singleton. by goes "v1/models". }
  destruct (decide (pa_provider account = "google")) as [Hp|H3].
  { rewrite !bool_decide_false, bool_decide_true, Hp by done. apply Forall_singleton. by goes "v1beta/models?pageSize=200". }
  rewrite !bool_decide_false by done. case_bool_decide as Hp; [|apply Forall_nil_2]. rewrite Hp.
  pose proof (openrouter_goes http account key OPENROUTER_BASE) as Hg. unfold verify_openrouter_at.
  destruct (openrouter_inventory http account key OPENROUTER_BASE) as [requests r].
  apply Forall_forall. intros q Hq. apply Hg. by destruct r.
Qed.

(** What a verification leaves: the same seat, a sound inventory, none at all
    after a failure. *)
Definition sound_verification (account : ProviderAccount) (v : Verification) : Prop :=
  same_seat v.1.1 account ∧ inventory_ok v.1.1 ∧ (v.1.2 ≠ Ok tt → pa_models v.1.1 = []).

Lemma openrouter_sound http account key :
  pa_provider account = "openrouter" → sound_verification account (verify_openrouter_at http account key OPENROUTER_BASE).
Proof.
  intros Hp. unfold verify_openrouter_at, sound_verification.
  pose proof (inventory_models http account key OPENROUTER_BASE) as Hm.
  destruct (openrouter_inventory http account key OPENROUTER_BASE) as [requests r]. simpl in Hm.
  destruct r as [models|e]; (split; [done|]); simpl.
  - split; [|done]. intros m Hin Hn. destruct (Hm models eq_refl) as [body ->].
    rewrite (admissible_same_seat _ account) by done. rewrite (free_models_admissible account body m); [by rewrite Hn|by rewrite Hp|done].
  - split; [by apply inventory_none|done].
Qed.

Lemma verify_with_sound env http account key :
  inventory_ok account → sound_verification account (verify_with env http account key).
Proof.
  intros Hi. unfold verify_with.
  destruct (decide (pa_provider account = "anthropic")) as [Hp|H1].
  { rewrite bool_decide_true by done. apply apply_discovery_sound; [done|].
    intros models m Hd Hm. apply discovered_Ok in Hd as [body ->]. apply (anthropic_models_admissible account body); [by rewrite Hp|done]. }
  destruct (decide (pa_provider account = "openai")) as [Hp|H2].
  { rewrite bool_decide_false, bool_decide_true by done. apply apply_discovery_sound; [done|].
    intros models m Hd Hm. apply discovered_Ok in Hd as [body ->]. apply (openai_models_admissible account body); [by rewrite Hp|done]. }
  destruct (decide (pa_provider account = "google")) as [Hp|H3].
  { rewrite !bool_decide_false, bool_decide_true by done. apply apply_discovery_sound; [done|].
    intros models m Hd Hm. apply discovered_Ok in Hd as [body ->]. apply (gemini_models_admissible account body); [by rewrite Hp|done]. }
  rewrite !bool_decide_false by done. case_bool_decide as Hp; [by apply openrouter_sound|].
  split; [done|]. split; [by apply (inventory_same_seat _ account)|done].
Qed.

End openrouter.
