(* ===== verification/AccountCodec.v ===== *)
(** * The account registry as JSON (crates/heiwa_provider/src/registry.rs)

    The derived serialization of provider accounts, its inverse, and when the
    two agree: every account whose prices are finite is read back as it was. *)

From stdpp Require Import base sets strings numbers list.
From Stdlib Require Import Ascii.
From S2P Require Import Prelude Json Provider.
#[local] Open Scope Z_scope.

(** ** Serialization: a struct's fields in declaration order *)

Definition inventory_truth_name (t : InventoryTruth) : string :=
  match t with Verified => "verified" | Inferred => "inferred" | UserConfigured => "user_configured" end.
Definition price_truth_name (t : PriceTruth) : string :=
  match t with Known => "known" | PriceUnknown => "unknown" end.

Definition encode_model (m : DetectedModel) : json :=
  JObject [("model_id", JString (dm_model_id m));
           ("provider_model_id", JString (dm_provider_model_id m));
           ("provider", JString (dm_provider m));
           ("account_id", JString (dm_account_id m));
           ("rate_group", JString (dm_rate_group m));
           ("capability_class", JNumber (PosInt (dm_capability_class m)));
           ("context_window", JNumber (PosInt (dm_context_window m)));
           ("supports_streaming", JBool (dm_supports_streaming m));
           ("supports_tools", JBool (dm_supports_tools m));
           ("supports_vision", JBool (dm_supports_vision m));
           ("supports_audio", JBool (dm_supports_audio m));
           ("cost_per_1k_input", f64_json (dm_cost_per_1k_input m));
           ("cost_per_1k_output", f64_json (dm_cost_per_1k_output m));
           ("price_truth", JString (price_truth_name (dm_price_truth m)));
           ("inventory_truth", JString (inventory_truth_name (dm_inventory_truth m)))].

(** An internally tagged enum; [OAuth] in snake case is [o_auth]. *)
Definition encode_credential (c : Credential) : json :=
  JObject match c with
          | ApiKey => [("kind", JString "api_key")]
          | OAuth expires_at => [("kind", JString "o_auth"); ("expires_at", json_opt_str expires_at)]
          | OauthCli binary => [("kind", JString "oauth_cli"); ("binary", JString binary)]
          | LocalRuntime endpoint => [("kind", JString "local_runtime"); ("endpoint", JString endpoint)]
          end.

Definition encode_status (s : AccountStatus) : json :=
  match s with
  | Connected => JString "connected"
  | Disconnected => JString "disconnected"
  | NeedsAuth => JString "needs_auth"
  | StatusError message => JObject [("error", JString message)]
  end.

Definition encode_account (a : ProviderAccount) : json :=
  JObject [("account_id", JString (pa_account_id a));
           ("provider", JString (pa_provider a));
           ("credential", encode_credential (pa_credential a));
           ("rate_group", JString (pa_rate_group a));
           ("status", encode_status (pa_status a));
           ("models", JArray (map encode_model (pa_models a)))].

(** The baseline is skipped. *)
Definition encode_registry (accounts : Accounts) : json :=
  JObject [("accounts", JArray (map encode_account accounts))].

(** [serde_json::to_value] *)
Definition account_value (a : ProviderAccount) : json := value_of (encode_account a).

(** ** Deserialization *)

Definition model_fields : list string :=
  ["model_id"; "provider_model_id"; "provider"; "account_id"; "rate_group"; "capability_class";
   "context_window"; "supports_streaming"; "supports_tools"; "supports_vision"; "supports_audio";
   "cost_per_1k_input"; "cost_per_1k_output"; "price_truth"; "inventory_truth"].

Definition decode_inventory_truth : json → option InventoryTruth :=
  decode_variant inventory_truth_name [Verified; Inferred; UserConfigured].
Definition decode_price_truth : json → option PriceTruth :=
  decode_variant price_truth_name [Known; PriceUnknown].

Definition decode_model (doc : json) : option DetectedModel :=
  m ← struct_view model_fields doc;
  model_id_ ← field_string m "model_id";
  provider_model_id_ ← field_string m "provider_model_id";
  provider_ ← field_string m "provider";
  account_id_ ← field_string m "account_id";
  rate_group_ ← field_string m "rate_group";
  capability_class_ ← obj_get "capability_class" m ≫= as_uint 255;
  context_window_ ← obj_get "context_window" m ≫= as_uint u32_max;
  supports_streaming_ ← obj_get "supports_streaming" m ≫= as_bool;
  supports_tools_ ← obj_get "supports_tools" m ≫= as_bool;
  supports_vision_ ← obj_get "supports_vision" m ≫= as_bool;
  supports_audio_ ← field_default false as_bool m "supports_audio";
  cost_per_1k_input_ ← obj_get "cost_per_1k_input" m ≫= as_f64;
  cost_per_1k_output_ ← obj_get "cost_per_1k_output" m ≫= as_f64;
  price_truth_ ← field_default PriceUnknown decode_price_truth m "price_truth";
  inventory_truth_ ← obj_get "inventory_truth" m ≫= decode_inventory_truth;
  Some (mkModel model_id_ provider_model_id_ provider_ account_id_ rate_group_ capability_class_
          context_window_ supports_streaming_ supports_tools_ supports_vision_ supports_audio_
          cost_per_1k_input_ cost_per_1k_output_ price_truth_ inventory_truth_).

(** The variant named by the tag, read from what is left without it: a unit
    variant takes any object, and of arrays the empty one. *)
Definition decode_tagged (tag : string) (rest : json) : option Credential :=
  if bool_decide (tag = "api_key") then
    match rest with JObject _ | JArray [] => Some ApiKey | _ => None end
  else if bool_decide (tag = "o_auth") then
    m ← struct_view ["expires_at"] rest; OAuth <$> field_option as_str m "expires_at"
  else if bool_decide (tag = "oauth_cli") then
    m ← struct_view ["binary"] rest; OauthCli <$> field_string m "binary"
  else if bool_decide (tag = "local_runtime") then
    m ← struct_view ["endpoint"] rest; LocalRuntime <$> field_string m "endpoint"
  else None.

(** The tag is the member [kind], wherever it is, or the first element. *)
Definition decode_credential (doc : json) : option Credential :=
  match doc with
  | JObject m =>
      if bool_decide (key_count "kind" m = 1%nat) then
        tag ← field_string m "kind"; decode_tagged tag (JObject (filter (λ kv, kv.1 ≠ "kind") m))
      else None
  | JArray (JString tag :: rest) => decode_tagged tag (JArray rest)
  | _ => None
  end.

Definition decode_status (doc : json) : option AccountStatus :=
  match doc with
  | JObject [(k, JString message)] => if bool_decide (k = "error") then Some (StatusError message) else None
  | _ =>
      s ← variant_name doc;
      if bool_decide (s = "connected") then Some Connected
      else if bool_decide (s = "disconnected") then Some Disconnected
      else if bool_decide (s = "needs_auth") then Some NeedsAuth
      else None
  end.

Definition account_fields : list string :=
  ["account_id"; "provider"; "credential"; "rate_group"; "status"; "models"].

Definition decode_account (doc : json) : option ProviderAccount :=
  m ← struct_view account_fields doc;
  account_id_ ← field_string m "account_id";
  provider_ ← field_string m "provider";
  credential_ ← obj_get "credential" m ≫= decode_credential;
  rate_group_ ← field_string m "rate_group";
  status_ ← obj_get "status" m ≫= decode_status;
  models_ ← obj_get "models" m ≫= as_list decode_model;
  Some (mkAccount account_id_ provider_ credential_ rate_group_ status_ models_).

(** Unknown fields are denied here, and here only. *)
Definition decode_registry (doc : json) : option Accounts :=
  match doc with
  | JObject [(k, v)] => if bool_decide (k = "accounts") then as_list decode_account v else None
  | JArray [v] => as_list decode_account v
  | _ => None
  end.

(** ** Equality of values *)

(** [PartialEq] of [Number]: the three kinds never agree, floats as floats. *)
Definition number_eqb (a b : number) : bool :=
  match a, b with
  | PosInt x, PosInt y | NegInt x, NegInt y => bool_decide (x = y)
  | Float x, Float y => f64_eqb x y
  | _, _ => false
  end.

(** [PartialEq] of [Value]; the objects are maps in key order. *)
Fixpoint value_eqb (a b : json) : bool :=
  match a, b with
  | JNull, JNull => true
  | JBool x, JBool y => bool_decide (x = y)
  | JNumber x, JNumber y => number_eqb x y
  | JString x, JString y => bool_decide (x = y)
  | JArray l, JArray l' =>
      (fix go l l' :=
         match l, l' with
         | [], [] => true
         | x :: l, y :: l' => value_eqb x y && go l l'
         | _, _ => false
         end) l l'
  | JObject m, JObject m' =>
      (fix go m m' :=
         match m, m' with
         | [], [] => true
         | (k, x) :: m, (k', y) :: m' => bool_decide (k = k') && value_eqb x y && go m m'
         | _, _ => false
         end) m m'
  | _, _ => false
  end.

(** The [account_id]s are what accounts are told apart by. *)
Definition option_value_eqb (a b : option json) : bool :=
  match a, b with
  | None, None => true
  | Some x, Some y => value_eqb x y
  | _, _ => false
  end.

(** ** Equality is equality up to the sign of zero *)

(** A value with every zero positive. *)
Fixpoint value_norm (v : json) : json :=
  match v with
  | JNumber (Float b) => JNumber (Float (if f64_is_zero b then 0 else b))
  | JArray l => JArray (map value_norm l)
  | JObject m => JObject (map (λ kv, (kv.1, value_norm kv.2)) m)
  | _ => v
  end.

Fixpoint nan_free (v : json) : bool :=
  match v with
  | JNumber (Float b) => negb (f64_is_nan b)
  | JArray l => forallb nan_free l
  | JObject m => forallb (λ kv, nan_free kv.2) m
  | _ => true
  end.

Lemma number_eqb_norm a b :
  nan_free (JNumber a) = true → nan_free (JNumber b) = true →
  number_eqb a b = true ↔ value_norm (JNumber a) = value_norm (JNumber b).
Proof.
  destruct a, b; simpl; intros Ha Hb; rewrite ?bool_decide_eq_true; try (split; congruence).
  unfold f64_eqb. rewrite Ha, Hb. simpl. rewrite orb_true_iff, bool_decide_eq_true, andb_true_iff.
  destruct (f64_is_zero bits) eqn:E, (f64_is_zero bits0) eqn:E'; simpl; split; try naive_solver.
  - intros [->|[_ ?]]; congruence.
  - intros [->|[? _]]; congruence.
Qed.

Lemma value_eqb_norm a : ∀ b,
  nan_free a = true → nan_free b = true → value_eqb a b = true ↔ value_norm a = value_norm b.
Proof.
  induction a as [|x|n|s|l IH|m IH] using json_ind_strong; intros [|y|n'|s'|l'|m'] Ha Hb;
    try (simpl; split; (done || congruence)); try (simpl; rewrite bool_decide_eq_true; naive_solver).
  all: try (destruct n; simpl; split; done).
  all: try (destruct n'; simpl; split; done).
  - by apply number_eqb_norm.
  - simpl. transitivity (map value_norm l = map value_norm l'); [|split; congruence].
    revert l' Ha Hb. induction IH as [|x l Hx _ IHl]; intros [|y l'] Ha Hb; simpl in *; try (split; congruence).
    apply andb_true_iff in Ha as [Hax Ha], Hb as [Hby Hb].
    rewrite andb_true_iff, (Hx y Hax Hby), (IHl l' Ha Hb). split; [intros [-> ->]; done|by intros [= -> ->]].
  - simpl. transitivity (map (λ kv, (kv.1, value_norm kv.2)) m = map (λ kv, (kv.1, value_norm kv.2)) m');
      [|split; congruence].
    revert m' Ha Hb. induction IH as [|[k x] m Hx _ IHm]; intros [|[k' y] m'] Ha Hb; simpl in *; try (split; congruence).
    apply andb_true_iff in Ha as [Hax Ha], Hb as [Hby Hb].
    rewrite !andb_true_iff, bool_decide_eq_true, (Hx y Hax Hby), (IHm m' Ha Hb).
    split; [intros [[-> ->] ->]; done|by intros [= -> -> ->]].
Qed.

(** ** What is written is read back *)

(** A price that can be written, and integers at their width. *)
Definition storable_model (m : DetectedModel) : Prop :=
  f64_is_finite (dm_cost_per_1k_input m) = true ∧ f64_is_finite (dm_cost_per_1k_output m) = true ∧
  0 ≤ dm_capability_class m ≤ 255 ∧ 0 ≤ dm_context_window m ≤ u32_max.

Definition storable (a : ProviderAccount) : Prop := Forall storable_model (pa_models a).

Lemma as_f64_json b : f64_is_finite b = true → as_f64 (f64_json b) = Some b.
Proof. intros Hf. unfold f64_json. by rewrite Hf. Qed.

Lemma decode_encode_truths p i :
  decode_price_truth (JString (price_truth_name p)) = Some p ∧
  decode_inventory_truth (JString (inventory_truth_name i)) = Some i.
Proof. by destruct p, i. Qed.

Lemma as_uint_in mx u : 0 ≤ u ≤ mx → as_uint mx (JNumber (PosInt u)) = Some u.
Proof. intros Hu. unfold as_uint. simpl. by rewrite bool_decide_eq_true_2. Qed.

Definition model_members (m : DetectedModel) : list (string * json) :=
  match encode_model m with JObject fields => fields | _ => [] end.

#[local] Arguments decode_price_truth : simpl never.
#[local] Arguments decode_inventory_truth : simpl never.
#[local] Arguments price_truth_name : simpl never.
#[local] Arguments inventory_truth_name : simpl never.
#[local] Arguments f64_json : simpl never.
#[local] Arguments as_f64 : simpl never.
#[local] Arguments as_uint : simpl never.

(** A model is read from the members it was written as, in any order. *)
Lemma decode_model_members m M :
  storable_model m → NoDup M.*1 → (∀ k, obj_get k M = obj_get k (model_members m)) →
  decode_model (JObject M) = Some m.
Proof.
  intros (Hi & Ho & Hc & Hw) Hnd Hg.
  destruct (decode_encode_truths (dm_price_truth m) (dm_inventory_truth m)) as [Hp Ht].
  unfold decode_model. rewrite struct_view_NoDup by done. cbn [mbind option_bind].
  unfold field_string, field_default. rewrite !Hg. simpl.
  rewrite !as_f64_json, !as_uint_in by done. simpl. rewrite Hp. simpl. rewrite Ht. by destruct m.
Qed.

Lemma model_members_NoDup m : NoDup (model_members m).*1.
Proof. apply (bool_decide_unpack _). vm_compute. exact I. Qed.

Lemma model_leaves m k : value_of <$> obj_get k (model_members m) = obj_get k (model_members m).
Proof.
  simpl. repeat (case_bool_decide; [simpl; by rewrite ?value_of_f64_json|]). done.
Qed.

Lemma decode_encode_model m : storable_model m → decode_model (encode_model m) = Some m.
Proof. intros Hm. apply decode_model_members; [done|apply model_members_NoDup|done]. Qed.

Lemma decode_model_value m : storable_model m → decode_model (value_of (encode_model m)) = Some m.
Proof.
  intros Hm. destruct (value_members (model_members m) (model_members_NoDup m)) as (M & HM & Hnd & Hg).
  change (value_of (encode_model m) = JObject M) in HM. rewrite HM.
  apply decode_model_members; [done..|]. intros k. by rewrite Hg, model_leaves.
Qed.

(** The nested members: alone and as values. *)
Lemma decode_encode_credential c :
  decode_credential (encode_credential c) = Some c ∧ decode_credential (value_of (encode_credential c)) = Some c.
Proof. by destruct c as [|[e|]| |]. Qed.

Lemma decode_encode_status s :
  decode_status (encode_status s) = Some s ∧ decode_status (value_of (encode_status s)) = Some s.
Proof. by destruct s. Qed.

Lemma decode_models (g : json → json) models :
  (∀ m, m ∈ models → decode_model (g (encode_model m)) = Some m) →
  mapM decode_model (map (λ m, g (encode_model m)) models) = Some models.
Proof.
  induction models as [|m models IH]; intros Hd; [done|]. simpl. rewrite (Hd m) by by left. simpl.
  rewrite IH; [done|]. intros m' Hm'. apply Hd. by right.
Qed.

Definition account_members (a : ProviderAccount) : list (string * json) :=
  match encode_account a with JObject fields => fields | _ => [] end.

Lemma account_members_NoDup a : NoDup (account_members a).*1.
Proof. apply (bool_decide_unpack _). vm_compute. exact I. Qed.

(** An account is read from its members as they were written ([g] the
    identity) or as they were turned into values. *)
Lemma decode_account_members (g : json → json) a M :
  NoDup M.*1 → (∀ k, obj_get k M = g <$> obj_get k (account_members a)) →
  (∀ s, g (JString s) = JString s) →
  decode_credential (g (encode_credential (pa_credential a))) = Some (pa_credential a) →
  decode_status (g (encode_status (pa_status a))) = Some (pa_status a) →
  as_list decode_model (g (JArray (map encode_model (pa_models a)))) = Some (pa_models a) →
  decode_account (JObject M) = Some a.
Proof.
  intros Hnd Hg Hs Hc Hst Hms. unfold decode_account. rewrite struct_view_NoDup by done.
  cbn [mbind option_bind]. unfold field_string. rewrite !Hg. simpl. rewrite !Hs. simpl.
  rewrite Hc. simpl. rewrite Hst. simpl. rewrite Hms. by destruct a.
Qed.

Lemma decode_encode_account a : storable a → decode_account (encode_account a) = Some a.
Proof.
  intros Ha. apply (decode_account_members id); [apply account_members_NoDup| |done|apply decode_encode_credential
    |apply decode_encode_status|].
  - intros k. by destruct (obj_get k _).
  - apply (decode_models id). intros m Hm. apply decode_encode_model. by apply (proj1 (Forall_forall _ _) Ha).
Qed.

Lemma decode_account_value a : storable a → decode_account (account_value a) = Some a.
Proof.
  intros Ha. destruct (value_members (account_members a) (account_members_NoDup a)) as (M & HM & Hnd & Hg).
  change (account_value a = JObject M) in HM. rewrite HM.
  apply (decode_account_members value_of); [done|done|done|apply decode_encode_credential|apply decode_encode_status|].
  simpl. rewrite map_map. apply decode_models. intros m Hm. apply decode_model_value.
  by apply (proj1 (Forall_forall _ _) Ha).
Qed.

Lemma decode_encode_registry accounts :
  Forall storable accounts → decode_registry (encode_registry accounts) = Some accounts.
Proof.
  intros Hs. simpl. induction Hs as [|a accounts Ha _ IH]; [done|]. simpl.
  rewrite decode_encode_account by done. simpl. by rewrite IH.
Qed.

(** An object holds only members it was given. *)
Lemma btree_insert_elem {A} k (v : A) m kv : kv ∈ btree_insert k v m → kv = (k, v) ∨ kv ∈ m.
Proof.
  induction m as [|[k0 v0] m IH]; simpl; [set_solver|]. repeat case_bool_decide; set_solver.
Qed.

Lemma object_fields_elem kv fields : kv ∈ object_fields fields → kv ∈ fields.
Proof.
  unfold object_fields.
  assert (∀ acc, kv ∈ foldl (λ m '(k, v), btree_insert k v m) acc fields → kv ∈ acc ∨ kv ∈ fields) as Hg.
  { induction fields as [|[k v] fs IH]; intros acc; simpl; [tauto|].
    intros [[->|Hi]%btree_insert_elem|Hi]%IH; set_solver. }
  intros [Hn|Hi]%Hg; [by apply elem_of_nil in Hn|done].
Qed.

(** Values of accounts compare without NaN. *)
Lemma nan_free_value v : nan_free v = true → nan_free (value_of v) = true.
Proof.
  induction v as [| | | |l IH|m IH] using json_ind_strong; simpl; try done.
  - intros Hf. apply forallb_forall. intros x (y & <- & Hy)%in_map_iff.
    rewrite forallb_forall in Hf. rewrite Forall_forall in IH. apply IH; [by apply list_elem_of_In|by apply Hf].
  - intros Hf. apply forallb_forall. intros [k x] Hx%list_elem_of_In. simpl.
    apply object_fields_elem in Hx. change (map ?f ?l) with (f <$> l) in Hx.
    apply list_elem_of_fmap in Hx as ([k' y] & [= -> ->] & Hy). simpl.
    rewrite forallb_forall in Hf. rewrite Forall_forall in IH. apply (IH (k', y)); [done|].
    apply (Hf (k', y)). by apply list_elem_of_In.
Qed.

Lemma nan_free_encode a : nan_free (encode_account a) = true.
Proof.
  assert (∀ b, nan_free (f64_json b) = true) as Hf.
  { intros b. unfold f64_json. destruct (f64_is_finite b) eqn:E; [|done]. simpl. by rewrite f64_finite_not_nan. }
  assert (nan_free (encode_credential (pa_credential a)) = true) as Hc
    by by destruct (pa_credential a) as [|[e|]| |].
  assert (nan_free (encode_status (pa_status a)) = true) as Hs by by destruct (pa_status a).
  cbn -[encode_credential encode_status]. rewrite Hc, Hs. simpl. rewrite andb_true_r. apply forallb_forall. intros x (m & <- & _)%in_map_iff. simpl. by rewrite !Hf.
Qed.

Lemma nan_free_account a : nan_free (account_value a) = true.
Proof. apply nan_free_value, nan_free_encode. Qed.
