(* ===== verification/RegistryStore.v ===== *)
(** * The account registry on disk (crates/heiwa_provider/src/registry/storage.rs)

    Loading the registry, and saving it over whatever other processes saved in
    the meantime.  A save holds the file's lock from its read to its rename, so
    it is one step; what can fail around the rename is an argument. *)

From stdpp Require Import base sets strings numbers sorting list.
From Stdlib Require Import Ascii.
From S2P Require Import Prelude Json Provider AccountCodec.
#[local] Open Scope Z_scope.

(** An [AccountRegistry]: its accounts, and the text it was loaded from. *)
Record Registry : Type := mkRegistry {
  rg_accounts : Accounts;
  rg_baseline : option string;
}.

Definition default_registry : Registry := mkRegistry [] None.
Definition from_accounts (accounts : Accounts) : Registry := mkRegistry accounts None.

(** What is at the registry's path: nothing, something that is no regular file,
    a file that cannot be read as text, a text. *)
Inductive RegistryPath : Type := Missing | NotAFile | Unreadable | Contents (raw : string).

(** What goes wrong besides the registry itself: on the way to the lock, on the
    way to the new file (the temporary one, the rename), or after, when the
    directory is synchronized. *)
Inductive SaveFault : Type := NoFault | BeforeLock | BeforeReplace | AfterReplace.

Inductive RegistryError : Type :=
| NotRegularFile | ReadError | DamagedRegistry | BadIdentity | ChangedElsewhere (id : string) | StorageError.

(** ** BTreeMap *)

Definition btree_remove {A} (k : string) (m : list (string * A)) : list (string * A) :=
  filter (λ kv, kv.1 ≠ k) m.

(** A [BTreeSet] of the keys of two maps. *)
Definition key_set {A} (m m' : list (string * A)) : list string :=
  (foldl (λ s k, btree_insert k tt s) [] (m.*1 ++ m'.*1)).*1.

(** ** Values by account *)

(** The loop of [account_values]; [None] is its error. *)
Fixpoint account_values_from (values : list (string * json)) (accounts : Accounts)
    : option (list (string * json)) :=
  match accounts with
  | [] => Some values
  | a :: rest =>
      if bool_decide (pa_account_id a = "") || bool_decide (is_Some (obj_get (pa_account_id a) values)) then None
      else account_values_from (btree_insert (pa_account_id a) (account_value a) values) rest
  end.

Definition account_values (accounts : Accounts) : option (list (string * json)) :=
  account_values_from [] accounts.

(** One account of the merge: unchanged here, or changed here and either left
    alone or changed alike elsewhere. *)
Definition merge_account (before requested merged : list (string * json)) (id : string)
    : result RegistryError (list (string * json)) :=
  let old := obj_get id before in
  let next := obj_get id requested in
  if option_value_eqb old next then Ok merged
  else
    let live := obj_get id merged in
    if negb (option_value_eqb live old) && negb (option_value_eqb live next) then Err (ChangedElsewhere id)
    else Ok match next with Some value => btree_insert id value merged | None => btree_remove id merged end.

Fixpoint merge_accounts (before requested merged : list (string * json)) (ids : list string)
    : result RegistryError (list (string * json)) :=
  match ids with
  | [] => Ok merged
  | id :: ids =>
      match merge_account before requested merged id with
      | Err e => Err e
      | Ok merged => merge_accounts before requested merged ids
      end
  end.

Section store.
Context `{JsonText}.

(** [serde_json::from_str::<AccountRegistry>] *)
Definition parse_registry (raw : string) : option Accounts := parse_json raw ≫= decode_registry.

Definition load_from (path : RegistryPath) : result RegistryError Registry :=
  match path with
  | Missing => Ok default_registry
  | NotAFile => Err NotRegularFile
  | Unreadable => Err ReadError
  | Contents raw =>
      match parse_registry raw with
      | None => Err DamagedRegistry
      | Some accounts =>
          match account_values accounts with
          | None => Err BadIdentity
          | Some _ => Ok (mkRegistry accounts (Some raw))
          end
      end
  end.

(** The accounts a registry was loaded with. *)
Definition baseline_of (self : Registry) : option Accounts :=
  match rg_baseline self with None => Some [] | Some raw => parse_registry raw end.

(** The accounts a save would write. *)
Definition merge_registry (path : RegistryPath) (self : Registry) : result RegistryError Accounts :=
  match load_from path with
  | Err e => Err e
  | Ok current =>
      match baseline_of self with
      | None => Err DamagedRegistry
      | Some baseline =>
          match account_values baseline, account_values (rg_accounts self), account_values (rg_accounts current) with
          | Some before, Some requested, Some merged =>
              match merge_accounts before requested merged (key_set before requested) with
              | Err e => Err e
              | Ok merged =>
                  match mapM decode_account merged.*2 with
                  | None => Err DamagedRegistry
                  | Some accounts => Ok accounts
                  end
              end
          | _, _, _ => Err BadIdentity
          end
      end
  end.

Definition save_to (fault : SaveFault) (path : RegistryPath) (self : Registry)
    : RegistryPath * Registry * result RegistryError unit :=
  match fault, merge_registry path self with
  | BeforeLock, _ => (path, self, Err StorageError)
  | _, Err e => (path, self, Err e)
  | _, Ok accounts =>
      let raw := print_json_pretty (encode_registry accounts) in
      match fault with
      | BeforeLock | BeforeReplace => (path, self, Err StorageError)
      | AfterReplace => (Contents raw, self, Err StorageError)
      | NoFault => (Contents raw, mkRegistry accounts (Some raw), Ok tt)
      end
  end.

(** [load_strict] is [load_from] of the profile's path; [load] is it or none. *)
Definition load (path : RegistryPath) : Registry :=
  match load_from path with Ok r => r | Err _ => default_registry end.

End store.

(** ** Maps in key order *)

Definition key_ordered {A} (m : list (string * A)) : Prop := StronglySorted String.le m.*1 ∧ NoDup m.*1.

Lemma key_ordered_cons {A} k (v : A) m :
  key_ordered ((k, v) :: m) ↔ Forall (λ k', String.le k k' ∧ k ≠ k') m.*1 ∧ key_ordered m.
Proof.
  unfold key_ordered. simpl. rewrite NoDup_cons, !Forall_forall. split.
  - intros [Hs [Hk Hnd]]. inversion_clear Hs as [|? ? Hm Hf]. rewrite Forall_forall in Hf.
    split; [|done]. intros k' Hk'. split; [by apply Hf|]. by intros <-.
  - intros (Hf & Hs & Hnd). split.
    + constructor; [done|]. apply Forall_forall. intros k' Hk'. by apply Hf.
    + split; [|done]. intros Hk. by destruct (Hf k Hk).
Qed.

Lemma key_ordered_nil {A} : key_ordered (@nil (string * A)).
Proof. split; constructor. Qed.

Lemma btree_insert_ordered {A} k (v : A) m : key_ordered m → key_ordered (btree_insert k v m).
Proof.
  induction m as [|[k' v'] m IH]; [intros _; apply key_ordered_cons; by split; [|apply key_ordered_nil]|]. simpl.
  rewrite key_ordered_cons. intros [Hf Hm]. case_bool_decide as Hk; [subst; by apply key_ordered_cons|].
  case_bool_decide as Hle.
  - rewrite !key_ordered_cons. split; [|done]. rewrite Forall_forall in Hf |- *. simpl.
    intros x [->|Hx]%elem_of_cons; [done|]. destruct (Hf x Hx) as [Hle' _]. split; [by trans k'|].
    intros <-. apply Hk. by apply (anti_symm String.le).
  - apply key_ordered_cons. split; [|by apply IH]. rewrite Forall_forall in Hf |- *.
    intros x [->|Hx]%btree_insert_keys; [|by apply Hf]. split; [|done].
    by destruct (total String.le k k').
Qed.

Lemma btree_remove_ordered {A} k (m : list (string * A)) : key_ordered m → key_ordered (btree_remove k m).
Proof.
  unfold btree_remove. induction m as [|[k' v] m IH]; [done|]. rewrite filter_cons, key_ordered_cons.
  intros [Hf Hm]. case_decide; [|by apply IH]. apply key_ordered_cons. split; [|by apply IH].
  rewrite Forall_forall in Hf |- *. intros x ([k0 v0] & -> & Hx)%list_elem_of_fmap.
  apply Hf, list_elem_of_fmap. exists (k0, v0). split; [done|]. by apply list_elem_of_filter in Hx as [_ ?].
Qed.

Lemma obj_get_remove {A} k k' (m : list (string * A)) :
  obj_get k' (btree_remove k m) = if bool_decide (k' = k) then None else obj_get k' m.
Proof.
  unfold btree_remove. induction m as [|[k0 v0] m IH]; simpl; [by case_bool_decide|].
  rewrite filter_cons. simpl. destruct (decide (k0 = k)) as [->|Hk].
  - rewrite decide_False by tauto. rewrite IH. by case_bool_decide.
  - rewrite decide_True by done. simpl. rewrite IH. repeat case_bool_decide; congruence.
Qed.

(** Maps in key order are equal when their lookups are. *)
Lemma key_ordered_ext {A} (m : list (string * A)) : ∀ m',
  key_ordered m → key_ordered m' → (∀ k, obj_get k m = obj_get k m') → m = m'.
Proof.
  induction m as [|[k v] m IH]; intros [|[k' v'] m'].
  - done.
  - intros _ _ Hg. specialize (Hg k'). simpl in Hg. by rewrite bool_decide_eq_true_2 in Hg.
  - intros _ _ Hg. specialize (Hg k). simpl in Hg. by rewrite bool_decide_eq_true_2 in Hg.
  - rewrite !key_ordered_cons. intros [Hf Hm] [Hf' Hm'] Hg. rewrite Forall_forall in Hf, Hf'.
    assert (k = k') as <-.
    { destruct (decide (k = k')) as [|Hne]; [done|].
      pose proof (Hg k) as H1. pose proof (Hg k') as H2. simpl in H1, H2.
      rewrite bool_decide_eq_true_2, bool_decide_eq_false_2 in H1 by done.
      rewrite bool_decide_eq_false_2, bool_decide_eq_true_2 in H2 by done.
      apply obj_get_elem, (list_elem_of_fmap_2 fst), Hf in H2 as [? _].
      symmetry in H1. apply obj_get_elem, (list_elem_of_fmap_2 fst), Hf' in H1 as [? _].
      by apply (anti_symm String.le). }
    pose proof (Hg k) as Hv. simpl in Hv. rewrite !bool_decide_eq_true_2 in Hv by done. simplify_eq.
    f_equal. apply IH; [done..|]. intros x. specialize (Hg x). simpl in Hg.
    case_bool_decide as Hx; [|done]. subst x.
    rewrite !(proj2 (obj_get_None _ _)); [done|by intros [_ ?]%Hf'|by intros [_ ?]%Hf].
Qed.

(** ** The values of accounts *)

Lemma get_cons a accounts id :
  get (a :: accounts) id = if bool_decide (id = pa_account_id a) then Some a else get accounts id.
Proof. unfold get. rewrite filter_cons. by case_bool_decide; case_decide; simplify_eq. Qed.

Lemma get_elem accounts id a : get accounts id = Some a → a ∈ accounts ∧ pa_account_id a = id.
Proof.
  unfold get. intros Ha. assert (a ∈ filter (λ a, pa_account_id a = id) accounts) as Hin.
  { destruct (filter _ _); simplify_eq/=. by left. }
  apply list_elem_of_filter in Hin. tauto.
Qed.

(** The values are in key order and are those of the accounts. *)
Definition values_of (values : list (string * json)) (accounts : Accounts) : Prop :=
  key_ordered values ∧ ∀ id, obj_get id values = account_value <$> get accounts id.

Lemma account_values_from_spec accounts : ∀ values vs,
  key_ordered values → account_values_from values accounts = Some vs →
  key_ordered vs ∧
  ∀ id, obj_get id vs = match obj_get id values with Some v => Some v | None => account_value <$> get accounts id end.
Proof.
  induction accounts as [|a l IH]; intros values vs Ho; simpl.
  - intros [= <-]. split; [done|]. intros id. by destruct (obj_get id values).
  - case_bool_decide; [done|]. case_bool_decide as Hn; simpl; [done|].
    intros [Hvs Hg]%IH; [|by apply btree_insert_ordered]. split; [done|]. intros id.
    rewrite Hg, obj_get_insert, get_cons. case_bool_decide; [|done]. subst id.
    destruct (obj_get _ values); [|done]. by destruct Hn.
Qed.

Lemma account_values_spec accounts vs : account_values accounts = Some vs → values_of vs accounts.
Proof.
  intros [Ho Hg]%account_values_from_spec; [|apply key_ordered_nil]. by split.
Qed.

Lemma account_values_from_some accounts : ∀ values,
  Forall (λ a, pa_account_id a ≠ "") accounts → NoDup (map pa_account_id accounts) →
  Forall (λ a, obj_get (pa_account_id a) values = None) accounts →
  is_Some (account_values_from values accounts).
Proof.
  induction accounts as [|a l IH]; intros values; simpl; [by eexists|].
  rewrite NoDup_cons, !Forall_cons. intros [Hid Hids] [Ha Hnd] [Hv Hvs].
  rewrite bool_decide_eq_false_2 by done. rewrite Hv, bool_decide_eq_false_2 by by intros [? ?]. simpl.
  apply IH; [done..|]. rewrite Forall_forall in Hvs |- *. intros b Hb. rewrite obj_get_insert.
  case_bool_decide as Hab; [|by apply Hvs]. exfalso. apply Ha. rewrite <- Hab.
  apply list_elem_of_In, in_map, list_elem_of_In. done.
Qed.

(** The condition under which accounts have values. *)
Definition distinct_ids (accounts : Accounts) : Prop :=
  Forall (λ a, pa_account_id a ≠ "") accounts ∧ NoDup (map pa_account_id accounts).

Lemma account_values_from_distinct accounts : ∀ values vs,
  account_values_from values accounts = Some vs →
  distinct_ids accounts ∧ Forall (λ a, obj_get (pa_account_id a) values = None) accounts.
Proof.
  unfold distinct_ids. induction accounts as [|a l IH]; intros values vs; simpl.
  { intros _. split; [split|]; constructor. }
  case_bool_decide as Hid; [done|]. case_bool_decide as Hn; simpl; [done|].
  intros [[Hids Hnd] Hv]%IH. rewrite Forall_forall in Hv. split; [split|].
  - by constructor.
  - apply NoDup_cons. split; [|done]. intros Hin%list_elem_of_In. apply in_map_iff in Hin as (b & Hb & Hin).
    specialize (Hv b). rewrite list_elem_of_In, obj_get_insert, Hb, bool_decide_eq_true_2 in Hv by done.
    by specialize (Hv Hin).
  - constructor; [by apply eq_None_not_Some|]. apply Forall_forall. intros b Hb. specialize (Hv b Hb).
    rewrite obj_get_insert in Hv. by case_bool_decide.
Qed.

Lemma account_values_iff accounts : is_Some (account_values accounts) ↔ distinct_ids accounts.
Proof.
  split; [by intros [vs [? _]%account_values_from_distinct]|]. intros [Hids Hnd].
  apply account_values_from_some; [done..|]. by apply Forall_forall.
Qed.

(** A value a save can write: that of a storable account, under its own id. *)
Definition stored (kv : string * json) : Prop :=
  ∃ a, kv = (pa_account_id a, account_value a) ∧ pa_account_id a ≠ "" ∧ storable a.

Lemma values_stored values accounts :
  values_of values accounts → distinct_ids accounts → Forall storable accounts → Forall stored values.
Proof.
  intros [[_ Hnd] Hg] [Hids _] Hs. apply Forall_forall. intros [id v] Hv.
  apply elem_obj_get in Hv; [|done]. rewrite Hg in Hv. destruct (get accounts id) as [a|] eqn:Ha; [|done].
  apply get_elem in Ha as [Hin <-]. simplify_eq/=. exists a. split; [done|].
  split; [by apply (proj1 (Forall_forall _ _) Hids)|by apply (proj1 (Forall_forall _ _) Hs)].
Qed.

Lemma decode_stored values :
  Forall stored values →
  ∃ accounts, mapM decode_account values.*2 = Some accounts ∧ Forall storable accounts ∧
    values = map (λ a, (pa_account_id a, account_value a)) accounts ∧ Forall (λ a, pa_account_id a ≠ "") accounts.
Proof.
  induction 1 as [|kv values (a & -> & Hid & Ha) _ (l & Hl & Hs & Hv & Hids)]; [by exists []|].
  exists (a :: l). simpl in *. rewrite decode_account_value by done. simpl.
  change (list_fmap _ _ snd values) with (values.*2). rewrite Hl. simpl. rewrite <- Hv.
  split; [done|]. split; [by constructor|]. split; [done|]. by constructor.
Qed.

Lemma listed_get accounts id :
  obj_get id (map (λ a, (pa_account_id a, account_value a)) accounts) = account_value <$> get accounts id.
Proof.
  induction accounts as [|a l IH]; [done|]. simpl. rewrite get_cons, IH. by case_bool_decide.
Qed.

(** ** The merge *)

(** Accounts compare as their values do; an absent one equals an absent one. *)
Definition same (a b : option ProviderAccount) : bool :=
  option_value_eqb (account_value <$> a) (account_value <$> b).

Definition option_norm (a : option ProviderAccount) : option json := (λ a, value_norm (account_value a)) <$> a.

Lemma same_iff a b : same a b = true ↔ option_norm a = option_norm b.
Proof.
  unfold same, option_norm. destruct a as [a|], b as [b|]; try done. cbn [fmap option_fmap option_map option_value_eqb].
  rewrite value_eqb_norm by apply nan_free_account. split; congruence.
Qed.

(** An account changed here, and changed differently elsewhere. *)
Definition conflicting (baseline requested current : option ProviderAccount) : bool :=
  negb (same baseline requested) && negb (same current baseline) && negb (same current requested).

(** What a save makes of an account. *)
Definition merged_account (baseline requested current : option ProviderAccount) : option ProviderAccount :=
  if same baseline requested then current else requested.

Definition change_lookup (before requested : list (string * json)) (id : string) (current : option json)
    : option json :=
  if option_value_eqb (obj_get id before) (obj_get id requested) then current else obj_get id requested.

Definition value_conflict (before requested merged : list (string * json)) (id : string) : bool :=
  negb (option_value_eqb (obj_get id before) (obj_get id requested)) &&
  negb (option_value_eqb (obj_get id merged) (obj_get id before)) &&
  negb (option_value_eqb (obj_get id merged) (obj_get id requested)).

Lemma merge_account_spec before requested merged id :
  key_ordered merged →
  match merge_account before requested merged id with
  | Ok merged' =>
      key_ordered merged' ∧ value_conflict before requested merged id = false ∧
      ∀ k, obj_get k merged' =
        if bool_decide (k = id) then change_lookup before requested id (obj_get id merged) else obj_get k merged
  | Err e => e = ChangedElsewhere id ∧ value_conflict before requested merged id = true
  end.
Proof.
  intros Ho. unfold merge_account, value_conflict, change_lookup.
  destruct (option_value_eqb (obj_get id before) _); simpl.
  { split; [done|]. split; [done|]. intros k. by case_bool_decide; subst. }
  destruct (negb _ && negb _); [done|]. destruct (obj_get id requested) as [v|].
  - split; [by apply btree_insert_ordered|]. split; [done|]. intros k. apply obj_get_insert.
  - split; [by apply btree_remove_ordered|]. split; [done|]. intros k. apply obj_get_remove.
Qed.

Lemma merge_accounts_spec before requested ids : ∀ merged,
  key_ordered merged → NoDup ids →
  match merge_accounts before requested merged ids with
  | Ok merged' =>
      key_ordered merged' ∧ (∀ k, k ∈ ids → value_conflict before requested merged k = false) ∧
      ∀ k, obj_get k merged' =
        if bool_decide (k ∈ ids) then change_lookup before requested k (obj_get k merged) else obj_get k merged
  | Err e => ∃ id, e = ChangedElsewhere id ∧ id ∈ ids ∧ value_conflict before requested merged id = true
  end.
Proof.
  induction ids as [|id ids IH]; intros merged Ho Hnd; simpl; [by split; [|split; [set_solver|]]|].
  apply NoDup_cons in Hnd as [Hid Hnd]. pose proof (merge_account_spec before requested merged id Ho) as Hs.
  destruct (merge_account _ _ _ _) as [m1|e]; [|destruct Hs as [-> Hc]; exists id; set_solver]. destruct Hs as (Ho1 & Hc1 & Hg1).
  assert (∀ k, k ≠ id → obj_get k m1 = obj_get k merged) as Hne.
  { intros k Hk. by rewrite Hg1, bool_decide_eq_false_2. }
  assert (∀ k, k ≠ id → value_conflict before requested m1 k = value_conflict before requested merged k) as Hvc.
  { intros k Hk. unfold value_conflict. by rewrite (Hne k Hk). }
  specialize (IH m1 Ho1 Hnd). destruct (merge_accounts _ _ _ _) as [m2|e].
  - destruct IH as (Ho2 & Hc2 & Hg2). split; [done|]. split.
    + intros k [->|Hk]%elem_of_cons; [done|]. rewrite <- Hvc; [by apply Hc2|]. by intros ->.
    + intros k. rewrite Hg2. destruct (decide (k = id)) as [->|Hk].
      * rewrite bool_decide_eq_false_2, bool_decide_eq_true_2 by set_solver.
        by rewrite Hg1, bool_decide_eq_true_2.
      * rewrite (Hne k Hk). repeat case_bool_decide; set_solver.
  - destruct IH as (k & -> & Hk & Hc). exists k. split; [done|]. split; [by right|].
    rewrite <- Hvc; [done|]. by intros ->.
Qed.

Lemma key_set_spec {A} (m m' : list (string * A)) :
  NoDup (key_set m m') ∧ ∀ k, k ∈ key_set m m' ↔ k ∈ m.*1 ∨ k ∈ m'.*1.
Proof.
  unfold key_set. setoid_rewrite <- elem_of_app. generalize (m.*1 ++ m'.*1) as ks. intros ks.
  assert (∀ s : list (string * unit), key_ordered s →
    key_ordered (foldl (λ s k, btree_insert k tt s) s ks) ∧
    ∀ k, k ∈ (foldl (λ s k, btree_insert k tt s) s ks).*1 ↔ k ∈ s.*1 ∨ k ∈ ks) as Hg.
  { induction ks as [|k ks IH]; intros s Hs; simpl; [split; [done|set_solver]|].
    destruct (IH (btree_insert k tt s)) as [Ho Hk]; [by apply btree_insert_ordered|]. split; [done|].
    intros x. rewrite Hk, btree_insert_keys. set_solver. }
  destruct (Hg [] key_ordered_nil) as [[_ Hnd] Hk]. split; [done|]. intros k. rewrite Hk. set_solver.
Qed.

(** A merge of the values of accounts: its result account by account, or the
    account it refuses to overwrite. *)
Lemma merge_spec baseline requested current before wanted merged :
  values_of before baseline → values_of wanted requested → values_of merged current →
  match merge_accounts before wanted merged (key_set before wanted) with
  | Ok merged' =>
      key_ordered merged' ∧
      (∀ id, conflicting (get baseline id) (get requested id) (get current id) = false) ∧
      ∀ id, obj_get id merged' =
        account_value <$> merged_account (get baseline id) (get requested id) (get current id)
  | Err e =>
      ∃ id, e = ChangedElsewhere id ∧ conflicting (get baseline id) (get requested id) (get current id) = true
  end.
Proof.
  intros [_ Hb] [_ Hw] [Ho Hm]. destruct (key_set_spec before wanted) as [Hnd Hk].
  pose proof (merge_accounts_spec before wanted (key_set before wanted) merged Ho Hnd) as Hs.
  assert (∀ id, value_conflict before wanted merged id =
    conflicting (get baseline id) (get requested id) (get current id)) as Hc.
  { intros id. unfold value_conflict, conflicting, same. by rewrite Hb, Hw, Hm. }
  assert (∀ id, id ∉ key_set before wanted → same (get baseline id) (get requested id) = true) as Habs.
  { intros id Hid. rewrite Hk in Hid. assert (id ∉ before.*1 ∧ id ∉ wanted.*1) as [H1 H2] by tauto.
    apply obj_get_None in H1, H2. unfold same. by rewrite <- Hb, <- Hw, H1, H2. }
  destruct (merge_accounts _ _ _ _) as [m|e].
  - destruct Hs as (Ho' & Hc' & Hg). split; [done|]. split.
    + intros id. rewrite <- Hc. destruct (decide (id ∈ key_set before wanted)); [by apply Hc'|].
      rewrite Hc. unfold conflicting. by rewrite Habs.
    + intros id. rewrite Hg. unfold merged_account. case_bool_decide as Hid.
      * unfold change_lookup, same. rewrite Hb, Hw, Hm. by destruct (option_value_eqb _ _).
      * by rewrite Habs, Hm.
  - destruct Hs as (id & -> & _ & Hid). exists id. by rewrite <- Hc.
Qed.

(** ** Saving *)

Section saving.
Context `{JsonText}.

(** The text of these accounts reads back (prices are written by their shortest
    decimal, which the parser may round to a neighbour). *)
Definition text_keeps (accounts : Accounts) : Prop :=
  parse_json (print_json_pretty (encode_registry accounts)) = Some (encode_registry accounts).

Lemma load_from_spec path r :
  load_from path = Ok r →
  is_Some (account_values (rg_accounts r)) ∧ baseline_of r = Some (rg_accounts r).
Proof.
  unfold load_from, baseline_of. destruct path as [| | |raw]; try done.
  - intros [= <-]. split; [by eexists|done].
  - destruct (parse_registry raw) as [l|] eqn:E; [|done].
    destruct (account_values l) as [vs|] eqn:Ev; [|done]. intros [= <-]. simpl. split; [by eexists|done].
Qed.

(** The value tells storable accounts apart. *)
Lemma storable_inj (o o' : option ProviderAccount) :
  account_value <$> o = account_value <$> o' →
  (∀ a, o = Some a → storable a) → (∀ a, o' = Some a → storable a) → o = o'.
Proof.
  destruct o as [a|], o' as [b|]; cbn [fmap option_fmap option_map]; intros Heq Ha Hb; try done. f_equal.
  assert (account_value a = account_value b) as Hab by congruence.
  specialize (Ha a eq_refl). specialize (Hb b eq_refl). apply decode_account_value in Ha, Hb. congruence.
Qed.

Lemma merged_storable baseline requested current id a :
  distinct_ids requested → distinct_ids current → Forall storable requested → Forall storable current →
  merged_account (get baseline id) (get requested id) (get current id) = Some a →
  storable a ∧ pa_account_id a = id ∧ pa_account_id a ≠ EmptyString.
Proof.
  assert (∀ l, distinct_ids l → Forall storable l → get l id = Some a →
    storable a ∧ pa_account_id a = id ∧ pa_account_id a ≠ EmptyString) as Hin.
  { intros l [Hids _] Hs [Hal Hid]%get_elem. split; [by apply (proj1 (Forall_forall _ _) Hs)|].
    split; [done|]. by apply (proj1 (Forall_forall _ _) Hids). }
  intros Hdr Hdc Hr Hc. unfold merged_account. destruct (same _ _); by apply Hin.
Qed.

(** What a save would write, from what it reads. *)
Lemma merge_registry_spec path self baseline current :
  load_from path = Ok current → baseline_of self = Some baseline →
  distinct_ids baseline → distinct_ids (rg_accounts self) →
  Forall storable (rg_accounts self) → Forall storable (rg_accounts current) →
  let conflict id := conflicting (get baseline id) (get (rg_accounts self) id) (get (rg_accounts current) id) in
  match merge_registry path self with
  | Ok accounts =>
      distinct_ids accounts ∧ Forall storable accounts ∧ StronglySorted String.le (map pa_account_id accounts) ∧
      (∀ id, conflict id = false) ∧
      ∀ id, get accounts id =
        merged_account (get baseline id) (get (rg_accounts self) id) (get (rg_accounts current) id)
  | Err e => ∃ id, e = ChangedElsewhere id ∧ conflict id = true
  end.
Proof.
  intros Hl Hb [before Hvb]%account_values_iff Hdw Hsw Hsc conflict.
  destruct (load_from_spec _ _ Hl) as [[merged Hvm] _].
  pose proof (proj2 (account_values_iff _) Hdw) as [wanted Hvw].
  unfold merge_registry. rewrite Hl, Hb, Hvb, Hvw, Hvm.
  pose proof (merge_spec _ _ _ _ _ _ (account_values_spec _ _ Hvb) (account_values_spec _ _ Hvw)
    (account_values_spec _ _ Hvm)) as Hs.
  destruct (merge_accounts _ _ _ _) as [m|e]; [|done]. destruct Hs as (Ho & Hc & Hg).
  assert (∀ id a, merged_account (get baseline id) (get (rg_accounts self) id) (get (rg_accounts current) id)
    = Some a → storable a ∧ pa_account_id a = id ∧ pa_account_id a ≠ "") as Hsrc.
  { intros id a. apply merged_storable; [done| |done..]. by apply account_values_iff. }
  assert (Forall stored m) as Hst.
  { apply Forall_forall. intros [id v] Hv. apply elem_obj_get in Hv; [|apply Ho]. rewrite Hg in Hv.
    destruct (merged_account _ _ _) as [a|] eqn:Ha; [|done]. destruct (Hsrc _ _ Ha) as (? & <- & ?).
    simplify_eq/=. by exists a. }
  destruct (decode_stored m Hst) as (accounts & -> & Hs & Hm & Hids). simpl.
  destruct Ho as [Hsort Hnd]. assert (m.*1 = map pa_account_id accounts) as Hkeys.
  { rewrite Hm. change (map ?f ?l) with (f <$> l). by rewrite <- list_fmap_compose. }
  rewrite Hkeys in Hsort, Hnd. split; [by split|]. split; [done|]. split; [done|]. split; [done|].
  intros id. specialize (Hg id). rewrite Hm, listed_get in Hg. specialize (Hsrc id).
  apply (storable_inj _ _ Hg).
  - intros a [Ha _]%get_elem. by apply (proj1 (Forall_forall _ _) Hs).
  - intros a Ha. by destruct (Hsrc a Ha).
Qed.

(** The written text is loaded as what was written. *)
Lemma load_saved accounts :
  distinct_ids accounts → Forall storable accounts → text_keeps accounts →
  let raw := print_json_pretty (encode_registry accounts) in
  load_from (Contents raw) = Ok (mkRegistry accounts (Some raw)).
Proof.
  intros Hd Hs Ht raw. unfold load_from, parse_registry. unfold raw. rewrite Ht. cbn [mbind option_bind].
  rewrite (decode_encode_registry _ Hs). by destruct (proj2 (account_values_iff _) Hd) as [vs ->].
Qed.

Lemma same_refl a : same a a = true.
Proof. by apply same_iff. Qed.

Lemma same_sym a b : same a b = same b a.
Proof. apply eq_true_iff_eq. rewrite !same_iff. split; congruence. Qed.

Lemma same_trans a b c : same a b = true → same b c = same a c.
Proof. rewrite same_iff. intros Hab. apply eq_true_iff_eq. rewrite !same_iff, Hab. done. Qed.

(** The accounts of a save are in order, so they are told by their lookups. *)
Lemma listed_ext accounts accounts' :
  NoDup (map pa_account_id accounts) → StronglySorted String.le (map pa_account_id accounts) →
  NoDup (map pa_account_id accounts') → StronglySorted String.le (map pa_account_id accounts') →
  (∀ id, get accounts id = get accounts' id) → accounts = accounts'.
Proof.
  intros Hn Hs Hn' Hs' Hg. set (keyed := map (λ a, (pa_account_id a, a))).
  assert (∀ l, (keyed l).*1 = map pa_account_id l) as Hk.
  { intros l. unfold keyed. change (map ?f ?l) with (f <$> l). by rewrite <- list_fmap_compose. }
  assert (∀ l id, obj_get id (keyed l) = get l id) as Hget.
  { intros l id. induction l as [|a l IH]; [done|]. simpl. rewrite get_cons, IH. done. }
  assert (keyed accounts = keyed accounts') as Heq.
  { apply key_ordered_ext; [by split; rewrite Hk..|]. intros id. by rewrite !Hget. }
  assert (∀ l, (keyed l).*2 = l) as H2.
  { intros l. unfold keyed. change (map ?f ?l) with (f <$> l). rewrite <- list_fmap_compose. apply list_fmap_id. }
  by rewrite <- (H2 accounts), Heq, H2.
Qed.










(** A save whose directory could not be synchronized can be repeated: the
    second attempt finds its own changes and writes the same file. *)
Lemma failed_sync_can_be_repeated path self baseline current :
  load_from path = Ok current → baseline_of self = Some baseline →
  distinct_ids baseline → distinct_ids (rg_accounts self) →
  Forall storable (rg_accounts self) → Forall storable (rg_accounts current) →
  (∀ accounts, merge_registry path self = Ok accounts → text_keeps accounts) →
  let '(path', self', r) := save_to AfterReplace path self in
  r = Err StorageError → ∃ self'', save_to NoFault path' self' = (path', self'', Ok tt).
Proof.
  intros Hl Hb Hdb Hds Hs Hc Ht. unfold save_to at 1.
  pose proof (merge_registry_spec path self baseline current Hl Hb Hdb Hds Hs Hc) as Hm.
  destruct (merge_registry path self) as [l|e] eqn:E; [|by destruct Hm as (id & -> & _)]. intros _.
  destruct Hm as (Hd & Hst & Hso & Hno & Hg). pose proof (load_saved l Hd Hst (Ht l eq_refl)) as Hl'.
  pose proof (merge_registry_spec (Contents (print_json_pretty (encode_registry l))) self baseline _ Hl' Hb Hdb Hds Hs Hst) as Hm'. cbn [rg_accounts] in Hm'; cbv zeta in Hm'.
  unfold save_to. revert Hm'. destruct (merge_registry (Contents _) self) as [l'|e]; intros Hm'.
  - destruct Hm' as ([_ Hnd'] & _ & Hso' & _ & Hg'). assert (l' = l) as ->; [|by eexists].
    apply listed_ext; [done..|by destruct Hd|done|]. intros id. rewrite Hg', !Hg. unfold merged_account.
    by destruct (same _ _).
  - destruct Hm' as (id & -> & Hid). exfalso. revert Hid. unfold conflicting. rewrite Hg. unfold merged_account.
    destruct (same (get baseline id) _); [done|]. by rewrite same_refl, andb_false_r.
Qed.

(**  Saves of two processes lose nothing.  When two of them loaded the same
    file and one has saved, the other either saves too, and then each account is
    as the one of them that changed it made it, or it is refused, because both
    changed one account and did not make it the same, and then neither the file
    nor its own registry changes. *)
Theorem concurrent_saves_lose_nothing (path path1 : RegistryPath) (snapshot first first1 second : Registry) :
  load_from path = Ok snapshot →
  rg_baseline first = rg_baseline snapshot → rg_baseline second = rg_baseline snapshot →
  distinct_ids (rg_accounts first) → distinct_ids (rg_accounts second) →
  Forall storable (rg_accounts snapshot) → Forall storable (rg_accounts first) → Forall storable (rg_accounts second) →
  save_to NoFault path first = (path1, first1, Ok tt) → text_keeps (rg_accounts first1) →
  let base := get (rg_accounts snapshot) in
  let a := get (rg_accounts first) in
  let b := get (rg_accounts second) in
  match save_to NoFault path1 second with
  | (_, second2, Ok tt) =>
      ∀ id, get (rg_accounts second2) id =
        if negb (same (base id) (b id)) then b id else if negb (same (base id) (a id)) then a id else base id
  | (path2, second2, Err e) =>
      path2 = path1 ∧ second2 = second ∧
      ∃ id, e = ChangedElsewhere id ∧ same (base id) (a id) = false ∧ same (base id) (b id) = false ∧
        same (a id) (b id) = false
  end.
Proof.
  intros Hl Hba Hbb Hda Hdb Hss Hsa Hsb Hsave Ht base a b.
  destruct (load_from_spec _ _ Hl) as [Hv Hbase]. apply account_values_iff in Hv as Hds.
  assert (baseline_of first = Some (rg_accounts snapshot)) as Hfb by (unfold baseline_of in *; by rewrite Hba).
  assert (baseline_of second = Some (rg_accounts snapshot)) as Hsb' by (unfold baseline_of in *; by rewrite Hbb).
  pose proof (merge_registry_spec path first _ _ Hl Hfb Hds Hda Hsa Hss) as H1. cbv zeta in H1.
  unfold save_to in Hsave. destruct (merge_registry path first) as [l|]; [|done]. simplify_eq/=.
  destruct H1 as (Hdl & Hsl & _ & _ & Hg1). pose proof (load_saved l Hdl Hsl Ht) as Hl1.
  pose proof (merge_registry_spec (Contents (print_json_pretty (encode_registry l))) second _ _ Hl1 Hsb' Hds Hdb Hsb Hsl) as H2. cbn [rg_accounts] in H2; cbv zeta in H2.
  unfold save_to. revert H2. destruct (merge_registry (Contents _) second) as [l2|e]; intros H2.
  - destruct H2 as (_ & _ & _ & _ & Hg2). intros id. simpl. rewrite Hg2, Hg1. unfold merged_account.
    fold (base id) (a id) (b id). by destruct (same (base id) (b id)), (same (base id) (a id)).
  - destruct H2 as (id & -> & Hid). split; [done|]. split; [done|]. exists id. split; [done|].
    rewrite Hg1 in Hid. unfold conflicting, merged_account in Hid. fold (base id) (a id) (b id) in Hid.
    apply andb_true_iff in Hid as [[Hb%negb_true_iff Hx]%andb_true_iff Hy%negb_true_iff].
    apply negb_true_iff in Hx. destruct (same (base id) (a id)); [|done]. by rewrite same_refl in Hx.
Qed.

End saving.
