(* ===== verification/Admission.v ===== *)
(** * Who may serve a turn

    What the admissions of crates/heiwa_provider guarantee: the exact condition
    for a lane, the agreement of health, admission and the models on offer,
    revalidation, and the choice of an adapter. *)

From stdpp Require Import base gmap sets strings numbers sorting list.
From Stdlib Require Import Ascii.
From S2P Require Import Prelude Json Sensitive Provider.
#[local] Open Scope Z_scope.

(** ** Health *)

Lemma healthy_iff installed a :
  ah_routable (project_with installed a) = true ↔
    missing_binary installed a = None ∧ configured_channel_supported a = true ∧
    pa_status a = Connected ∧ ∃ m, m ∈ pa_models a ∧ model_is_admissible a m = true.
Proof.
  unfold project_with, classify. destruct (missing_binary installed a) as [b|]; [by split; [|intros (? & _)]|].
  destruct (configured_channel_supported a); simpl; [|by split; [|intros (_ & ? & _)]].
  unfold classify_status. destruct (pa_status a); simpl.
  - case_bool_decide as Hnil; simpl.
    { split; [done|]. intros (_ & _ & _ & m & Hm & _). rewrite Hnil in Hm. by apply elem_of_nil in Hm. }
    destruct (existsb _ _) eqn:He; simpl; split; try done.
    + intros _. apply existsb_exists in He as (m & Hm%list_elem_of_In & Hok). split_and!; [done..|]. by exists m.
    + intros (_ & _ & _ & m & Hm & Hok). apply not_true_iff_false in He. destruct He.
      apply existsb_exists. exists m. by rewrite <- list_elem_of_In.
  - split; [|by intros (_ & _ & ? & _)]. by destruct (pa_credential a).
  - by split; [|intros (_ & _ & ? & _)].
  - split; [|by intros (_ & _ & ? & _)]. unfold classify_error.
    destruct (mentions _ _); [done|]. by destruct (mentions _ _).
Qed.

Lemma not_installed_iff installed a :
  ah_state (project_with installed a) = NotInstalled ↔ is_Some (missing_binary installed a).
Proof.
  unfold project_with, classify. destruct (missing_binary installed a) as [b|]; [by split|].
  split; [|by intros []]. unfold classify_status, classify_error. by repeat case_match; simplify_eq/=.
Qed.

(** ** The condition for a lane *)

Record lane_ok (installed : string → bool) (a : ProviderAccount) (model_id : string) (m : DetectedModel) : Prop := {
  lane_provider_known : is_Some (registry_provider_for (pa_provider a));
  lane_channel : configured_channel_supported a = true;
  lane_installed : missing_binary installed a = None;
  lane_connected : pa_status a = Connected;
  lane_named : is_blank model_id = false;
  lane_unique : filter (names_model model_id) (pa_models a) = [m];
  lane_admissible : model_is_admissible a m = true;
}.

Lemma unique_elem (a : ProviderAccount) model_id m : filter (names_model model_id) (pa_models a) = [m] → m ∈ pa_models a.
Proof.
  intros Hf. assert (m ∈ filter (names_model model_id) (pa_models a)) as Hm by (rewrite Hf; by left).
  by apply list_elem_of_filter in Hm as [_ Hm].
Qed.

Lemma admit_iff installed a model_id lane :
  admit_account a model_id installed = Ok lane ↔ ln_account lane = a ∧ lane_ok installed a model_id (ln_model lane).
Proof.
  unfold admit_account. split.
  - destruct (registry_provider_for _) eqn:Hv; [|done].
    destruct (configured_channel_supported a) eqn:Hc; [|done]. simpl.
    case_bool_decide; [done|]. destruct (ah_routable _) eqn:Hr; [|done]. simpl.
    destruct (is_blank model_id) eqn:Hb; [done|].
    destruct (filter _ _) as [|m [|]] eqn:Hf; [done| |done].
    destruct (model_is_admissible a m) eqn:Hm; [|done]. intros [= <-]. split; [done|].
    apply healthy_iff in Hr as (Hi & _ & Hs & _). by split.
  - intros [<- [Hv Hc Hi Hs Hb Hf Hm]]. destruct Hv as [v ->]. rewrite Hc. simpl.
    rewrite bool_decide_false; [|rewrite not_installed_iff, Hi; by intros []].
    assert (ah_routable (project_with installed (ln_account lane)) = true) as ->.
    { apply healthy_iff. split_and!; [done..|]. exists (ln_model lane). split; [by eapply unique_elem|done]. }
    simpl. rewrite Hb, Hf, Hm. by destruct lane.
Qed.

(** A model names itself by the provider's id. *)
Lemma self_named a m m' :
  m ∈ pa_models a → filter (names_model (dm_provider_model_id m)) (pa_models a) = [m'] → m' = m.
Proof.
  intros Hm Hf. assert (m ∈ filter (names_model (dm_provider_model_id m)) (pa_models a)) as Hin
    by (apply list_elem_of_filter; split; [by left|done]).
  rewrite Hf in Hin. by apply list_elem_of_singleton in Hin.
Qed.

(** ** Accounts with an id of their own *)

Definition with_id (x : string) (accounts : Accounts) : Accounts := filter (λ a, pa_account_id a = x) accounts.

Lemma duplicate_fold accounts : ∀ ids dups x,
  x ∈ (foldl duplicate_step (ids, dups) accounts).2 ↔
    x ∈ dups ∨ (2 ≤ (if bool_decide (x ∈ ids) then 1 else 0) + length (with_id x accounts))%nat.
Proof.
  induction accounts as [|a accounts IH]; intros ids dups x.
  { simpl. case_bool_decide; simpl; split; try tauto; intros [?|?]; [done|lia|done|lia]. }
  cbn [foldl]. unfold duplicate_step at 2. unfold with_id. rewrite filter_cons. fold (with_id x accounts).
  repeat case_bool_decide; rewrite IH; case_decide; repeat case_bool_decide; simpl;
    set_unfold; split; intros; destruct_or?; subst; try (left; tauto); try (right; lia); try tauto; try lia; set_solver.
Qed.

Lemma duplicate_ids_iff accounts x : x ∈ duplicate_ids accounts ↔ (2 ≤ length (with_id x accounts))%nat.
Proof.
  unfold duplicate_ids. rewrite duplicate_fold. rewrite bool_decide_false by set_solver. set_solver.
Qed.

Lemma own_id accounts a :
  a ∈ accounts → pa_account_id a ∉ duplicate_ids accounts ↔ with_id (pa_account_id a) accounts = [a].
Proof.
  intros Ha. assert (a ∈ with_id (pa_account_id a) accounts) as Hin by by apply list_elem_of_filter.
  rewrite duplicate_ids_iff. split.
  - intros Hn. destruct (with_id _ accounts) as [|b [|c l]]; [by apply elem_of_nil in Hin| |simpl in Hn; lia].
    by apply list_elem_of_singleton in Hin as ->.
  - intros ->. simpl. lia.
Qed.

(** ** Candidates and offers *)

Definition lane_of (installed : string → bool) (a : ProviderAccount) (m : DetectedModel) : bool :=
  bool_decide (is_Some (admitted_of installed a m)).

Lemma admitted_of_iff installed a m m' lane :
  m ∈ pa_models a →
  admitted_of installed a m = Some (m', lane) ↔
    m' = m ∧ lane = mkLane a m ∧ lane_ok installed a (dm_provider_model_id m) m.
Proof.
  intros Hm. unfold admitted_of. split.
  - destruct (admit_account a _ installed) as [l|] eqn:Ha; simpl; [|done]. intros [= <- <-].
    apply admit_iff in Ha as [<- Hok]. pose proof (self_named _ _ _ Hm (lane_unique _ _ _ _ Hok)) as Heq.
    destruct l as [a' ml]. simpl in *. by subst.
  - intros (-> & -> & Hok). assert (admit_account a (dm_provider_model_id m) installed = Ok (mkLane a m)) as ->; [|done].
    by apply admit_iff.
Qed.

Lemma candidate_iff accounts installed m lane :
  (m, lane) ∈ admitted_candidates_with accounts installed ↔
    ∃ a, a ∈ accounts ∧ with_id (pa_account_id a) accounts = [a] ∧ m ∈ pa_models a ∧ lane = mkLane a m ∧
      lane_ok installed a (dm_provider_model_id m) m.
Proof.
  unfold admitted_candidates_with. rewrite list_elem_of_join. split.
  - intros (l & Hin & Hl). apply list_elem_of_fmap in Hl as (a & -> & Ha).
    apply list_elem_of_filter in Ha as [Hd Ha]. apply list_elem_of_omap in Hin as (m0 & Hm0 & Had).
    apply admitted_of_iff in Had as (-> & -> & Hok); [|done]. exists a. split_and!; try done. by apply own_id.
  - intros (a & Ha & Hid & Hm & -> & Hok). exists (omap (admitted_of installed a) (pa_models a)). split.
    + apply list_elem_of_omap. exists m. split; [exact Hm|]. by apply admitted_of_iff.
    + apply (list_elem_of_fmap_2 (λ account, omap (admitted_of installed account) (pa_models account))).
      apply list_elem_of_filter. split; [|done]. by apply own_id.
Qed.

Lemma get_own accounts a : with_id (pa_account_id a) accounts = [a] → get accounts (pa_account_id a) = Some a.
Proof. unfold get. fold (with_id (pa_account_id a) accounts). by intros ->. Qed.

Lemma admissible_belongs a m : model_is_admissible a m = true → belongs a m = true.
Proof. unfold model_is_admissible, belongs. rewrite !andb_true_iff. tauto. Qed.

Lemma belongs_id a m : belongs a m = true → dm_account_id m = pa_account_id a.
Proof. unfold belongs. rewrite !andb_true_iff, !bool_decide_eq_true. tauto. Qed.

(** [offered] without the panic. *)
Definition offered_to (accounts : Accounts) (admitted : list (DetectedModel * RegistryAdmittedLane))
    (m : DetectedModel) : bool :=
  existsb (λ c, bool_decide (lane_account_id c.2 = dm_account_id m) &&
    bool_decide (lane_provider_model_id c.2 = dm_provider_model_id m) &&
    match get accounts (dm_account_id m) with Some a => model_is_admissible a m | None => false end) admitted.

Lemma offered_returns accounts admitted m :
  is_Some (get accounts (dm_account_id m)) → offered accounts admitted m = Return (offered_to accounts admitted m).
Proof.
  intros [a Ha]. unfold offered_to. rewrite Ha. induction admitted as [|[m' lane] rest IH]; [done|].
  simpl. destruct (bool_decide (lane_account_id lane = _) && bool_decide (lane_provider_model_id lane = _)); simpl.
  - rewrite Ha. destruct (model_is_admissible a m); [done|exact IH].
  - exact IH.
Qed.

Lemma filter_outcome_returns {A} (f : A → outcome bool) g l :
  (∀ x, x ∈ l → f x = Return (g x)) → filter_outcome f l = Return (List.filter g l).
Proof.
  induction l as [|x l IH]; intros Hf; [done|]. simpl. rewrite Hf by by left. simpl.
  rewrite IH; [by destruct (g x)|]. intros y Hy. apply Hf. by right.
Qed.

Lemma list_filter_perm {A} (g : A → bool) l l' : l ≡ₚ l' → List.filter g l ≡ₚ List.filter g l'.
Proof.
  induction 1 as [|x l l' _ IH|x y l|l l1 l2 _ IH1 _ IH2]; simpl; [done| | |by etrans].
  - destruct (g x); [by constructor|done].
  - destruct (g x), (g y); try done. constructor.
Qed.

Lemma usable_elem accounts usable m :
  m ∈ usable_models accounts usable ↔
    ∃ a, a ∈ accounts ∧ usable a = true ∧ m ∈ pa_models a ∧ belongs a m = true.
Proof.
  unfold usable_models. rewrite list_elem_of_join. split.
  - intros (l & Hm & Hl). apply list_elem_of_fmap in Hl as (a & -> & Ha).
    apply list_elem_of_In, filter_In in Ha as [Ha%list_elem_of_In Hu].
    apply list_elem_of_In, filter_In in Hm as [Hm%list_elem_of_In Hb]. by exists a.
  - intros (a & Ha & Hu & Hm & Hb). exists (List.filter (belongs a) (pa_models a)). split.
    + by apply list_elem_of_In, filter_In; rewrite <- list_elem_of_In.
    + apply (list_elem_of_fmap_2 (λ a, List.filter (belongs a) (pa_models a))).
      by apply list_elem_of_In, filter_In; rewrite <- list_elem_of_In.
Qed.

(** A listed model is offered exactly when it is admitted. *)
Lemma offered_iff accounts installed a m :
  a ∈ accounts → m ∈ pa_models a →
  ah_routable (project_with installed a) && belongs a m &&
    offered_to accounts (admitted_candidates_with accounts installed) m =
  bool_decide (pa_account_id a ∉ duplicate_ids accounts) && lane_of installed a m.
Proof.
  intros Ha Hm. apply eq_true_iff_eq.
  rewrite !andb_true_iff, bool_decide_eq_true, (own_id _ _ Ha). unfold lane_of. rewrite bool_decide_eq_true. split.
  - intros [[Hr Hb] Ho]. unfold offered_to in Ho. apply existsb_exists in Ho as ([m0 lane] & Hc & Htest).
    apply list_elem_of_In, candidate_iff in Hc as (a0 & Ha0 & Hid & Hm0 & -> & Hok).
    rewrite !andb_true_iff, !bool_decide_eq_true in Htest. destruct Htest as [[Hlid Hlpm] _].
    unfold lane_account_id, lane_provider_model_id in *. simpl in *.
    rewrite (belongs_id _ _ Hb) in Hlid.
    assert (a = a0) as <-.
    { assert (a ∈ with_id (pa_account_id a0) accounts) as Hin by by apply list_elem_of_filter.
      rewrite Hid in Hin. by apply list_elem_of_singleton in Hin. }
    split; [done|]. rewrite Hlpm in Hok.
    pose proof (self_named _ _ _ Hm (lane_unique _ _ _ _ Hok)) as ->.
    exists (m, mkLane a m). by apply admitted_of_iff.
  - intros [Hid [[m' lane] Had]]. apply admitted_of_iff in Had as (-> & -> & Hok); [|done].
    pose proof (lane_admissible _ _ _ _ Hok) as Hadm. split_and!.
    + apply healthy_iff. destruct Hok. split_and!; try done. by exists m.
    + by apply admissible_belongs.
    + unfold offered_to. apply existsb_exists. exists (m, mkLane a m). split.
      * apply list_elem_of_In, candidate_iff. by exists a.
      * rewrite (belongs_id _ _ (admissible_belongs _ _ Hadm)), (get_own _ _ Hid).
        unfold lane_account_id, lane_provider_model_id. simpl. by rewrite !bool_decide_true, Hadm.
Qed.

Lemma omap_admitted installed a l :
  map fst (omap (admitted_of installed a) l) = List.filter (lane_of installed a) l.
Proof.
  induction l as [|m l IH]; [done|]. csimpl. unfold lane_of.
  destruct (admitted_of installed a m) as [[m' lane]|] eqn:Ha; csimpl; [|exact IH].
  unfold admitted_of in Ha. destruct (admit_account _ _ _); simplify_eq/=. f_equal. exact IH.
Qed.

Lemma filter_join {A B} (u : A → bool) (F : A → list B) (g : B → bool) l :
  List.filter g (mjoin (map F (List.filter u l))) =
    mjoin (map (λ a, if u a then List.filter g (F a) else []) l).
Proof.
  induction l as [|a l IH]; [done|]. cbn [map List.filter mjoin list_join].
  destruct (u a); [|exact IH]. cbn [map mjoin list_join]. rewrite List.filter_app. by f_equal.
Qed.

Lemma map_join_filter {A B C} (P : A → Prop) `{∀ a, Decision (P a)} (F : A → list B) (f : B → C) l :
  map f (mjoin (map F (filter P l))) = mjoin (map (λ a, if bool_decide (P a) then map f (F a) else []) l).
Proof.
  induction l as [|a l IH]; [done|]. rewrite filter_cons. cbn [map mjoin list_join].
  case_decide as Hp; [rewrite bool_decide_true by done|rewrite bool_decide_false by done; exact IH].
  cbn [map mjoin list_join]. rewrite map_app. by f_equal.
Qed.

Lemma filter_filter_bool {A} (f g : A → bool) l : List.filter g (List.filter f l) = List.filter (λ x, f x && g x) l.
Proof. induction l as [|x l IH]; [done|]. simpl. destruct (f x); simpl; [|done]. destruct (g x); simpl; by rewrite IH. Qed.

Lemma bool_filter_ext_elem {A} (f g : A → bool) l : (∀ x, x ∈ l → f x = g x) → List.filter f l = List.filter g l.
Proof. intros Hfg. apply filter_ext_in. intros x Hx. apply Hfg. by apply list_elem_of_In. Qed.

Lemma filter_never {A} (f : A → bool) l : (∀ x, x ∈ l → f x = false) → List.filter f l = [].
Proof.
  induction l as [|x l IH]; [done|]. intros Hf. simpl. rewrite Hf by by left. apply IH. intros y Hy. apply Hf. by right.
Qed.

(** The models admitted, account by account, are those offered. *)
Lemma offered_models accounts installed :
  List.filter (offered_to accounts (admitted_candidates_with accounts installed))
    (usable_models accounts (λ a, ah_routable (project_with installed a))) =
  map fst (admitted_candidates_with accounts installed).
Proof.
  unfold usable_models. rewrite filter_join.
  unfold admitted_candidates_with at 2. rewrite map_join_filter. f_equal.
  apply map_ext_in. intros a Ha%list_elem_of_In. rewrite omap_admitted, filter_filter_bool.
  pose proof (λ m, offered_iff accounts installed a m Ha) as Hiff.
  destruct (ah_routable (project_with installed a)); destruct (bool_decide (pa_account_id a ∉ _)); simpl in Hiff.
  - apply bool_filter_ext_elem. intros m Hm. by apply Hiff.
  - apply filter_never. intros m Hm. by apply Hiff.
  - symmetry. apply filter_never. intros m Hm. symmetry. by apply Hiff.
  - done.
Qed.

(** C31. What is offered is what is admitted.  The models a user is shown as
    routable are listed without a panic and are, up to their order, exactly
    the admitted candidates; and a candidate is admitted exactly for a model in
    the inventory of an account no other account shares its id with, whose
    provider has an adapter for its kind of credential, whose binary can be
    run, which is connected, and in which that model alone answers to its name,
    is of that account and comes from a verified inventory or, on a local
    runtime, from the operator; an adapter then takes it. *)
Theorem offer_is_admission (accounts : Accounts) (installed : string → bool) :
  (∃ offer, routable_models_with accounts installed = Return offer ∧
    offer ≡ₚ map fst (admitted_candidates_with accounts installed)) ∧
  (∀ m lane, (m, lane) ∈ admitted_candidates_with accounts installed ↔
    ∃ a, a ∈ accounts ∧ with_id (pa_account_id a) accounts = [a] ∧ m ∈ pa_models a ∧ lane = mkLane a m ∧
      lane_ok installed a (dm_provider_model_id m) m) ∧
  (∀ m lane, (m, lane) ∈ admitted_candidates_with accounts installed →
    admit_registry_lane_with accounts (lane_account_id lane) (lane_provider_model_id lane) installed = Ok lane ∧
    ∃ t, resolve_admitted_adapter lane installed = Ok (lane, t)).
Proof.
  split_and!.
  - unfold routable_models_with, models_where. set (admitted := admitted_candidates_with accounts installed).
    erewrite (filter_outcome_returns _ (offered_to accounts admitted)).
    + eexists. split; [done|]. unfold admitted. rewrite <- offered_models.
      apply list_filter_perm, sort_by_perm.
    + intros m Hm. rewrite sort_by_perm in Hm. apply usable_elem in Hm as (a & Ha & _ & Hm & Hb).
      apply offered_returns. unfold get. rewrite (belongs_id _ _ Hb).
      assert (a ∈ filter (λ x, pa_account_id x = pa_account_id a) accounts) as Hin by by apply list_elem_of_filter.
      destruct (filter _ accounts); [by apply elem_of_nil in Hin|]. by eexists.
  - intros m lane. apply candidate_iff.
  - intros m lane (a & Ha & Hid & Hm & -> & Hok)%candidate_iff. unfold lane_account_id, lane_provider_model_id.
    cbn [ln_account ln_model].
    assert (admit_account a (dm_provider_model_id m) installed = Ok (mkLane a m)) as Hadm by by apply admit_iff.
    split.
    + unfold admit_registry_lane_with. fold (with_id (pa_account_id a) accounts). by rewrite Hid.
    + unfold resolve_admitted_adapter, lane_provider_model_id. cbn [ln_account ln_model]. rewrite Hadm. simpl.
      pose proof (lane_channel _ _ _ _ Hok) as Hc. unfold configured_channel_supported in Hc.
      unfold transport_for. revert Hc. generalize (canonical_provider_id (pa_provider a)) as c. intros c Hc.
      destruct (pa_credential a); [| |apply andb_true_iff in Hc as [Hc _]|]; try done;
        apply bool_decide_eq_true in Hc; rewrite ?elem_of_cons, ?elem_of_nil in Hc;
        destruct_or? Hc; try done; subst c; eexists; reflexivity.
Qed.

(** ** Revalidation *)

Lemma model_eqb_refl m :
  f64_is_nan (dm_cost_per_1k_input m) = false → f64_is_nan (dm_cost_per_1k_output m) = false → model_eqb m m = true.
Proof.
  intros Hi Ho. unfold model_eqb, f64_eqb. rewrite Hi, Ho, !bool_decide_true by done. done.
Qed.

Definition same_configuration (a b : ProviderAccount) : Prop :=
  pa_provider a = pa_provider b ∧ pa_credential a = pa_credential b ∧ pa_rate_group a = pa_rate_group b.

Lemma validate_iff lane accounts installed :
  validate_current lane accounts installed = Ok tt ↔
    ∃ a m, with_id (lane_account_id lane) accounts = [a] ∧ same_configuration a (ln_account lane) ∧
      lane_ok installed a (lane_provider_model_id lane) m ∧ model_eqb m (ln_model lane) = true.
Proof.
  unfold validate_current. fold (with_id (lane_account_id lane) accounts). split.
  - destruct (with_id _ accounts) as [|a [|]]; [done| |done].
    destruct (negb _) eqn:Hsame; [done|]. apply negb_false_iff in Hsame.
    rewrite !andb_true_iff, !bool_decide_eq_true in Hsame. destruct Hsame as [[? ?] ?].
    destruct (admit_account a _ installed) as [current|] eqn:Ha; [|done].
    destruct (model_eqb _ _) eqn:Hm; [|done]. intros _. apply admit_iff in Ha as [<- Hok].
    by exists (ln_account current), (ln_model current).
  - intros (a & m & -> & (Hp & Hc & Hr) & Hok & Hm).
    rewrite (bool_decide_true _ Hp), (bool_decide_true _ Hc), (bool_decide_true _ Hr). cbn [negb andb].
    assert (admit_account a (lane_provider_model_id lane) installed = Ok (mkLane a m)) as -> by by apply admit_iff.
    cbn [ln_model]. by rewrite Hm.
Qed.

(** A lane is rechecked against what it was admitted for.  It is valid now
    exactly when the registry has one account of its id, of the same provider,
    credential and rate group, in which its model is admitted now and is the
    same model; then admission would still give that account and model.  A
    candidate just admitted is valid in the registry it came from, unless one
    of its prices is not a number; and a lane of a removed account is refused
    as missing. *)
Theorem revalidation_is_exact (lane : RegistryAdmittedLane) (accounts : Accounts) (installed : string → bool) :
  (validate_current lane accounts installed = Ok tt ↔
    ∃ a m, with_id (lane_account_id lane) accounts = [a] ∧ same_configuration a (ln_account lane) ∧
      admit_registry_lane_with accounts (lane_account_id lane) (lane_provider_model_id lane) installed =
        Ok (mkLane a m) ∧ model_eqb m (ln_model lane) = true) ∧
  (∀ m, (m, lane) ∈ admitted_candidates_with accounts installed →
    f64_is_nan (dm_cost_per_1k_input m) = false → f64_is_nan (dm_cost_per_1k_output m) = false →
    validate_current lane accounts installed = Ok tt) ∧
  validate_current lane (remove accounts (lane_account_id lane)).1 installed = Err AccountMissing.
Proof.
  split_and!.
  - rewrite validate_iff. unfold admit_registry_lane_with. fold (with_id (lane_account_id lane) accounts).
    split; intros (a & m & Hid & Hsame & Hok & Hm); exists a, m; rewrite Hid in *; split_and!; try done;
      [by apply admit_iff|by apply admit_iff in Hok as [_ ?]].
  - intros m (a & Ha & Hid & Hm & -> & Hok)%candidate_iff Hi Ho. apply validate_iff. exists a, m.
    split_and!; [done|done|done|]. by apply model_eqb_refl.
  - unfold validate_current, remove. cbn [fst]. rewrite list_filter_filter.
    assert (filter (λ x, pa_account_id x = lane_account_id lane ∧ pa_account_id x ≠ lane_account_id lane) accounts = []) as ->; [|done].
    induction accounts as [|a l IH]; [done|]. rewrite filter_cons. case_decide; naive_solver.
Qed.

(** ** Choosing an adapter *)

Lemma keys_first_elem a accounts : a ∈ keys_first accounts ↔ a ∈ accounts.
Proof.
  unfold keys_first. rewrite elem_of_app, !list_elem_of_In, !filter_In, <- list_elem_of_In.
  destruct (is_api_key a); simpl; naive_solver.
Qed.

(** The loop takes the first account that admits the model. *)
Lemma try_accounts_spec registry accounts model_id installed : ∀ denial,
  match try_accounts registry accounts model_id installed denial with
  | Ok r => ∃ before a after lane, accounts = before ++ a :: after ∧
      (∀ b, b ∈ before → ∀ l, admit_registry_lane_with registry (pa_account_id b) model_id installed ≠ Ok l) ∧
      admit_registry_lane_with registry (pa_account_id a) model_id installed = Ok lane ∧
      resolve_admitted_adapter lane installed = Ok r
  | Err e =>
      (∃ a lane, a ∈ accounts ∧ admit_registry_lane_with registry (pa_account_id a) model_id installed = Ok lane ∧
        resolve_admitted_adapter lane installed = Err e) ∨
      (∀ a, a ∈ accounts → ∀ l, admit_registry_lane_with registry (pa_account_id a) model_id installed ≠ Ok l)
  end.
Proof.
  induction accounts as [|a accounts IH]; intros denial; cbn [try_accounts].
  { right. intros a Ha. by apply elem_of_nil in Ha. }
  destruct (admit_registry_lane_with registry (pa_account_id a) model_id installed) as [lane|e] eqn:Ha.
  - destruct (resolve_admitted_adapter lane installed) as [r|e] eqn:Hr.
    + exists [], a, accounts, lane. split_and!; try done. intros b Hb. by apply elem_of_nil in Hb.
    + left. exists a, lane. split_and!; [by left|done|done].
  - specialize (IH e). destruct (try_accounts _ _ _ _ e) as [r|e'].
    + destruct IH as (before & b & after & lane & -> & Hno & Hadm & Hres).
      exists (a :: before), b, after, lane. split_and!; try done.
      intros x [->|Hx]%elem_of_cons; [by rewrite Ha|by apply Hno].
    + destruct IH as [(b & lane & Hb & Hadm & Hres)|Hno]; [left|right].
      * exists b, lane. split_and!; [by right|done|done].
      * intros x [->|Hx]%elem_of_cons; [by rewrite Ha|by apply Hno].
Qed.

Lemma lane_admitted registry id model_id installed lane :
  admit_registry_lane_with registry id model_id installed = Ok lane →
  with_id id registry = [ln_account lane] ∧ lane_ok installed (ln_account lane) model_id (ln_model lane).
Proof.
  unfold admit_registry_lane_with. fold (with_id id registry). destruct (with_id id registry) as [|a [|]]; try done.
  by intros [<- ?]%admit_iff.
Qed.

Lemma filter_provider registry a c :
  a ∈ List.filter (λ a, bool_decide (canonical_provider_id (pa_provider a) = c)) registry ↔
    a ∈ registry ∧ canonical_provider_id (pa_provider a) = c.
Proof. by rewrite list_elem_of_In, filter_In, <- list_elem_of_In, bool_decide_eq_true. Qed.

(** Of the accounts of a provider in the order tried, those before an account
    that is not a key include every key. *)
Lemma keys_before accounts before a after b :
  keys_first accounts = before ++ a :: after → is_api_key a = false → b ∈ accounts → is_api_key b = true → b ∈ before.
Proof.
  intros Heq Ha Hb Hkey. unfold keys_first in Heq.
  assert (∀ x, x ∈ List.filter is_api_key accounts → is_api_key x = true) as Hkeys
    by (intros x Hx%list_elem_of_In%filter_In; tauto).
  assert (b ∈ List.filter is_api_key accounts) as Hb'.
  { apply list_elem_of_In, filter_In. by rewrite <- list_elem_of_In. }
  apply app_eq_app in Heq as (k & [[Hk1 Hk2]|[Hk1 Hk2]]).
  - destruct k as [|x k]; [by rewrite Hk1, app_nil_r in Hb'|].
    injection Hk2 as <- _. assert (is_api_key a = true); [|congruence]. apply Hkeys. rewrite Hk1. set_solver.
  - rewrite Hk1. set_solver.
Qed.

(** A turn is given to an account of the provider asked for, or to none.  The
    adapter chosen is the one of an account with an id of its own, of that
    provider, that admits the exact model; it is an API key whenever one of
    the provider's keys admits the model.  A refusal means that the provider is
    unknown, that no model is named, that no account of the provider admits the
    model, or that one does under a name that the model's own id does not bear
    out. *)
Theorem adapter_is_the_providers_own (registry : Accounts) (provider model_id : string) (installed : string → bool) :
  match resolve_adapter_from_registry registry provider model_id installed with
  | Ok (lane, t) =>
      ∃ a, a ∈ registry ∧ with_id (pa_account_id a) registry = [a] ∧ ln_account lane = a ∧
        canonical_provider_id (pa_provider a) = canonical_provider_id provider ∧
        lane_ok installed a model_id (ln_model lane) ∧ transport_for a = Some t ∧
        (is_api_key a = false → ∀ b l, b ∈ registry → is_api_key b = true →
          canonical_provider_id (pa_provider b) = canonical_provider_id provider →
          admit_registry_lane_with registry (pa_account_id b) model_id installed ≠ Ok l)
  | Err e =>
      registry_provider_for provider = None ∧ e = UnsupportedProvider ∨
      is_blank model_id = true ∧ e = ModelUnavailable ∨
      (∀ a l, a ∈ registry → canonical_provider_id (pa_provider a) = canonical_provider_id provider →
        admit_registry_lane_with registry (pa_account_id a) model_id installed ≠ Ok l) ∨
      ∃ lane, admit_registry_lane_with registry (lane_account_id lane) model_id installed = Ok lane ∧
        resolve_admitted_adapter lane installed = Err e
  end.
Proof.
  unfold resolve_adapter_from_registry. destruct (registry_provider_for provider) as [vendor|] eqn:Hv; [|by left].
  assert (canonical_provider_id vendor = canonical_provider_id provider) as ->.
  { unfold registry_provider_for in Hv. repeat case_bool_decide; simplify_eq; by rewrite ?H, ?H0, ?H1, ?H2, ?H3. }
  destruct (is_blank model_id) eqn:Hb; [by right; left|].
  set (own := List.filter _ registry).
  pose proof (try_accounts_spec registry (keys_first own) model_id installed AccountMissing) as Hspec.
  destruct (try_accounts _ _ _ _ _) as [[lane t]|e].
  - destruct Hspec as (before & a & after & lane0 & Heq & Hno & Hadm & Hres).
    assert (a ∈ own) as Ha by (apply keys_first_elem; rewrite Heq; set_solver).
    apply filter_provider in Ha as [Ha Hcanon]. pose proof (lane_admitted _ _ _ _ _ Hadm) as [Hid Hok].
    unfold resolve_admitted_adapter in Hres. apply result_bind_Ok in Hres as (l & _ & Hres).
    destruct (transport_for (ln_account lane0)) as [t'|] eqn:Ht; simplify_eq.
    assert (ln_account lane = a) as Hla.
    { assert (a ∈ with_id (pa_account_id a) registry) as Hin by by apply list_elem_of_filter.
      rewrite Hid in Hin. by apply list_elem_of_singleton in Hin. }
    rewrite Hla in *. exists a. split_and!; try done.
    intros Hkey b l' Hbin Hbkey Hbcanon. apply Hno. eapply keys_before; [exact Heq|done| |done].
    by apply filter_provider.
  - destruct Hspec as [(a & lane & Ha & Hadm & Hres)|Hno].
    + right. right. right. exists lane. pose proof (lane_admitted _ _ _ _ _ Hadm) as [Hid _].
      assert (ln_account lane ∈ with_id (pa_account_id a) registry) as Hin by (rewrite Hid; by left).
      apply list_elem_of_filter in Hin as [Hin _]. unfold lane_account_id. by rewrite Hin.
    + right. right. left. intros a l Ha Hcanon. apply Hno. apply keys_first_elem. by apply filter_provider.
Qed.

(** ** What the user is told *)

Lemma concat_nonempty sep s l : s ≠ "" → String.concat sep (s :: l) ≠ "".
Proof. intros Hs. destruct l as [|t l]; [done|]. cbn [String.concat]. by destruct s. Qed.

(** Guidance is given exactly when no account can serve a turn, and then names
    every account. *)
Theorem guidance_when_nothing_routes (accounts : Accounts) (installed : string → bool) :
  (guidance (fleet installed accounts) = "" ↔
    ∃ a, a ∈ accounts ∧ ah_routable (project_with installed a) = true) ∧
  (guidance (fleet installed accounts) ≠ "" → skipped_reports (fleet installed accounts) = fleet installed accounts).
Proof.
  unfold guidance. destruct (has_routable_account _) eqn:Hr; unfold has_routable_account, fleet in Hr.
  - split; [|done]. split; [|done]. intros _. apply existsb_exists in Hr as (r & Hin & Hr).
    apply list_elem_of_In, list_elem_of_fmap in Hin as (a & -> & Ha). by exists a.
  - assert (∀ a, a ∈ accounts → ah_routable (project_with installed a) = false) as Hno.
    { intros a Ha. apply not_true_iff_false. intros Hok. apply not_true_iff_false in Hr. apply Hr.
      apply existsb_exists. exists (project_with installed a). split; [|done].
      apply list_elem_of_In. by apply (list_elem_of_fmap_2 (project_with installed)). }
    split.
    + split; [|intros (a & Ha & Hok); by rewrite Hno in Hok].
      unfold fleet. destruct accounts as [|a accounts]; [done|]. cbn [map].
      intros Hg. exfalso. by apply concat_nonempty in Hg.
    + intros _. unfold skipped_reports, fleet. clear Hr. induction accounts as [|a l IH]; [done|]. cbn [map List.filter].
      rewrite Hno by by left. cbn [negb]. f_equal. apply IH. intros b Hb. apply Hno. by right.
Qed.

(** Two models of one name: the account is routable and has no lane at all. *)
Definition twin_model (account : string) : DetectedModel :=
  mkModel "gpt" "gpt" "openai" account "openai_api" 4 200000 true true false false 0 0 Known Verified.
Definition twin_account : ProviderAccount :=
  mkAccount "openai-1" "openai" ApiKey "openai_api" Connected [twin_model "openai-1"; twin_model "openai-1"].

Example routable_without_a_lane :
  ah_routable (project_with (λ _, true) twin_account) = true ∧
  routable_models_with [twin_account] (λ _, true) = Return [] ∧
  guidance (fleet (λ _, true) [twin_account]) = "".
Proof. by vm_compute. Qed.
