(* ===== verification/LaneSelection.v ===== *)
(** * The lanes of an execution (apps/heiwa_shell/src/model_calls.rs, crates/heiwa_provider/src/routing.rs)

    Which of the candidates handed to an execution stand for an admitted lane of
    the registry, the adapter a selected candidate resolves to in the registry of
    the moment, and what [AdmittedAdapter] checks before a message leaves. *)

From stdpp Require Import base gmap sets strings numbers list.
From Stdlib Require Import Ascii.
From S2P Require Import Prelude Json OperatorEvent RoutePolicy Turns EventLog Session.
From S2P Require Import Drex ModelCall Routing CallCosts ModelExecution ExecutionProtocol.
From S2P Require Import Provider Admission.
#[local] Open Scope Z_scope.

(** ** Names *)

(** The [thiserror] texts. *)
Definition denial_text (d : ProviderAdmissionDenial) : string :=
  match d with
  | UnsupportedProvider => "provider is unsupported"
  | AccountMissing => "no configured account; connect this provider in Resources or heiwa auth"
  | AccountUnavailable => "account is unavailable; verify its connection before retrying"
  | ExecutionSubstrateUnavailable => "the configured provider executable is unavailable"
  | ModelInventoryUnverified => "model inventory is unverified; refresh this account's inventory"
  | ModelUnavailable => "the exact requested model is absent from this account's verified inventory"
  | SnapshotAmbiguous => "account/model identity is inconsistent or duplicated"
  | AccountChanged => "the selected account configuration changed; refresh provider routes"
  | LaneMismatch => "the selected route does not match its admitted account and model"
  end.

Definition registry_model_identity (m : DetectedModel) : string :=
  canonical_provider_id (dm_provider m) +:+ "|" +:+ dm_model_id m +:+ "|" +:+ dm_provider_model_id m +:+ "|" +:+
  dm_account_id m +:+ "|" +:+ dm_rate_group m.

(** Zero is not an id. *)
Definition registry_model_candidate_id (m : DetectedModel) : Z :=
  let hash := foldl fnv_step 0xcbf29ce484222325 (as_bytes (registry_model_identity m)) in
  if bool_decide (hash = 0) then 1 else hash.

Definition lane_model_id (l : RegistryAdmittedLane) : string := dm_model_id (ln_model l).
Definition lane_rate_group (l : RegistryAdmittedLane) : string := pa_rate_group (ln_account l).

Definition api_key_channel (account_id : string) : ExecutionChannel :=
  mkExecutionChannel (kind_label ApiKey) (Some account_id) None.
Definition cli_channel (binary : string) : ExecutionChannel :=
  mkExecutionChannel (kind_label (OauthCli binary)) None (Some binary).
Definition local_runtime_channel (binary : string) : ExecutionChannel :=
  mkExecutionChannel (kind_label (LocalRuntime EmptyString)) None (Some binary).

(** What each adapter says it runs through. *)
Definition execution_channel (adapter : RegistryAdmittedLane * Transport) : ExecutionChannel :=
  match adapter.2 with
  | AnthropicApi | OpenAiApi | GeminiApi | OpenRouterApi => api_key_channel (lane_account_id adapter.1)
  | ClaudeCodeCli => cli_channel "claude"
  | CodexCli => cli_channel "codex"
  | GeminiCli => cli_channel "gemini"
  | OllamaCli => local_runtime_channel "ollama"
  end.

(** ** Selection *)

(** The names a candidate and a lane must share. *)
Definition names_lane (c : ModelCallCandidate) (lane : RegistryAdmittedLane) : bool :=
  bool_decide (mt_provider (mc_tier c) = lane_provider lane) &&
  bool_decide (mt_model_id (mc_tier c) = lane_model_id lane) &&
  bool_decide (mt_provider_model_id (mc_tier c) = lane_provider_model_id lane) &&
  bool_decide (mt_rate_group (mc_tier c) = lane_rate_group lane).

Definition four : Z := bits_of_spec (lit 400).

(** The closure of [matches]. *)
Definition lane_matches (identity : DetectedModel → Z) (c : ModelCallCandidate) (entry : DetectedModel * RegistryAdmittedLane) : bool :=
  bool_decide (candidate_id c = identity entry.1) && names_lane c entry.2 &&
  bool_decide (mt_capability_class (mc_tier c) = dm_capability_class entry.1) &&
  bool_decide (mt_max_context_tokens (mc_tier c) = dm_context_window entry.1) &&
  f64_eqb (mt_cost_per_turn (mc_tier c)) (f64_mul (dm_cost_per_1k_input entry.1) four).

Definition count_id (id : Z) (ids : list Z) : nat := length (filter (λ x, x = id) ids).

(** The lane a candidate stands for: one of its id on either side, and one
    match. *)
Definition lane_selected (identity : DetectedModel → Z) (candidates : list ModelCallCandidate)
    (admitted : list (DetectedModel * RegistryAdmittedLane)) (c : ModelCallCandidate) : option RegistryAdmittedLane :=
  if bool_decide (count_id (candidate_id c) (map candidate_id candidates) = 1%nat) &&
     bool_decide (count_id (candidate_id c) (map (λ e, identity e.1) admitted) = 1%nat)
  then match List.filter (lane_matches identity c) admitted with
       | [entry] => Some entry.2
       | _ => None
       end
  else None.

(** [witnesses.insert] and [selected.push] *)
Definition select_step (identity : DetectedModel → Z) (candidates : list ModelCallCandidate)
    (admitted : list (DetectedModel * RegistryAdmittedLane)) (st : list ModelCallCandidate * gmap Z RegistryAdmittedLane)
    (c : ModelCallCandidate) : list ModelCallCandidate * gmap Z RegistryAdmittedLane :=
  match lane_selected identity candidates admitted c with
  | Some lane => (st.1 ++ [c], <[candidate_id c := lane]> st.2)
  | None => st
  end.

Definition NO_EXACT_LANE : string :=
  "No requested lane matches an exact admitted account/model; refresh provider routes".

(** The guidance of an empty selection looks the programs up itself. *)
Definition registry_selection_with_ids (candidates : list ModelCallCandidate) (accounts : Accounts)
    (installed on_path : string → bool) (identity : DetectedModel → Z)
    : result string (list ModelCallCandidate * gmap Z RegistryAdmittedLane) :=
  let admitted := admitted_candidates_with accounts installed in
  let '(selected, witnesses) := foldl (select_step identity candidates admitted) ([], ∅) candidates in
  if bool_decide (selected = []) then
    let text := guidance (fleet on_path accounts) in
    Err (if bool_decide (text = EmptyString) then NO_EXACT_LANE else text)
  else Ok (selected, witnesses).

(** ** The adapter of a selected candidate *)

(** The registry file, if [load_strict] can read it, and the programs on the
    path, at one moment. *)
Record Machine : Type := mkMachine {
  mach_registry : option Accounts;
  mach_installed : string → bool;
}.

(** The resolver of [registry_execution_selection]. *)
Definition resolve_selected (witnesses : gmap Z RegistryAdmittedLane) (now : Machine) (c : ModelCallCandidate)
    : result string (RegistryAdmittedLane * Transport) :=
  match witnesses !! candidate_id c with
  | None => Err "Selected provider lane was not admitted"
  | Some lane =>
      if negb (names_lane c lane) then Err (denial_text LaneMismatch)
      else
        match mach_registry now with
        | None => Err "Provider configuration could not be read"
        | Some current =>
            match validate_current lane current (mach_installed now) with
            | Err e => Err (denial_text e)
            | Ok _ =>
                match resolve_admitted_adapter lane (mach_installed now) with
                | Err e => Err (denial_text e)
                | Ok adapter => Ok adapter
                end
            end
        end
  end.

(** [AdmittedAdapter::send] in production: the denial, or the model asked of
    the transport. *)
Definition admitted_send (now : Machine) (lane : RegistryAdmittedLane) (model : string)
    : result ProviderAdmissionDenial string :=
  let current_denial :=
    match mach_registry now with
    | None => Some AccountUnavailable
    | Some registry =>
        match validate_current lane registry (mach_installed now) with Err e => Some e | Ok _ => None end
    end in
  match current_denial with
  | Some denial => Err denial
  | None =>
      if negb (bool_decide (model = lane_provider_model_id lane)) && negb (bool_decide (model = lane_model_id lane))
      then Err LaneMismatch
      else
        match admit_account (ln_account lane) (lane_provider_model_id lane) (mach_installed now) with
        | Err e => Err e
        | Ok _ => Ok (lane_provider_model_id lane)
        end
  end.

(** ** The condition for a selection *)

(** [c] stands for [lane]: nothing else has its id, among the candidates or
    among what the registry admits, and the lane is that of a model of an account
    with an id of its own, under the names and figures of [c]. *)
Record stands_for (identity : DetectedModel → Z) (candidates : list ModelCallCandidate) (accounts : Accounts)
    (installed : string → bool) (c : ModelCallCandidate) (lane : RegistryAdmittedLane) : Prop := {
  sf_candidate : filter (λ c', candidate_id c' = candidate_id c) candidates = [c];
  sf_admitted : filter (λ e, identity e.1 = candidate_id c) (admitted_candidates_with accounts installed) =
    [(ln_model lane, lane)];
  sf_account : with_id (lane_account_id lane) accounts = [ln_account lane];
  sf_lane : lane_ok installed (ln_account lane) (lane_provider_model_id lane) (ln_model lane);
  sf_names : names_lane c lane = true;
  sf_class : mt_capability_class (mc_tier c) = dm_capability_class (ln_model lane);
  sf_context : mt_max_context_tokens (mc_tier c) = dm_context_window (ln_model lane);
  sf_cost : f64_eqb (mt_cost_per_turn (mc_tier c)) (f64_mul (dm_cost_per_1k_input (ln_model lane)) four) = true;
}.

Lemma one_of_id {A} (f : A → Z) x l :
  x ∈ l → count_id (f x) (map f l) = 1%nat ↔ filter (λ y, f y = f x) l = [x].
Proof.
  intros Hx. unfold count_id.
  assert (length (filter (λ i, i = f x) (map f l)) = length (filter (λ y, f y = f x) l)) as ->.
  { clear Hx. induction l as [|y l IH]; [done|]. cbn [map]. rewrite !filter_cons. by repeat case_decide; simpl; rewrite ?IH. }
  split; [|by intros ->]. intros Hl.
  assert (x ∈ filter (λ y, f y = f x) l) as Hin by by apply list_elem_of_filter.
  destruct (filter _ l) as [|y [|]]; [done| |done]. by apply list_elem_of_singleton in Hin as ->.
Qed.

(** Matches lie among those of the candidate's id. *)
Lemma matches_filter identity c admitted :
  List.filter (lane_matches identity c) admitted =
  List.filter (lane_matches identity c) (filter (λ e, identity e.1 = candidate_id c) admitted).
Proof.
  induction admitted as [|e l IH]; [done|]. rewrite filter_cons. cbn [List.filter].
  case_decide as He; cbn [List.filter].
  - by rewrite IH.
  - assert (lane_matches identity c e = false) as ->; [|done].
    unfold lane_matches. by rewrite bool_decide_false by congruence.
Qed.

Lemma entry_lane accounts installed m lane :
  (m, lane) ∈ admitted_candidates_with accounts installed →
  m = ln_model lane ∧ with_id (lane_account_id lane) accounts = [ln_account lane] ∧
  lane_ok installed (ln_account lane) (lane_provider_model_id lane) (ln_model lane).
Proof. by intros (a & Ha & Hid & Hm & -> & Hok)%candidate_iff. Qed.

Lemma lane_selected_iff identity candidates accounts installed c lane :
  c ∈ candidates →
  lane_selected identity candidates (admitted_candidates_with accounts installed) c = Some lane ↔
    stands_for identity candidates accounts installed c lane.
Proof.
  intros Hc. unfold lane_selected. rewrite matches_filter. split.
  - destruct (bool_decide _ && bool_decide _) eqn:Hn; [|done].
    apply andb_true_iff in Hn as [H1%bool_decide_eq_true H2%bool_decide_eq_true].
    destruct (List.filter _ _) as [|e [|]] eqn:Hf; [done| |done]. intros [= <-].
    assert (e ∈ List.filter (lane_matches identity c)
      (filter (λ e, identity e.1 = candidate_id c) (admitted_candidates_with accounts installed))) as He
      by (rewrite Hf; by left).
    apply list_elem_of_In, filter_In in He as [He%list_elem_of_In Hm].
    apply list_elem_of_filter in He as [Hid He]. rewrite <- Hid in H2.
    apply (one_of_id (λ e, identity e.1) e) in H2; [|done]. simpl in H2. rewrite Hid in H2.
    destruct e as [m l]. apply entry_lane in He as (-> & Ha & Hok).
    unfold lane_matches in Hm. rewrite !andb_true_iff, !bool_decide_eq_true in Hm. destruct Hm as [[[[_ Hnm] Hcl] Hcx] Hco].
    split; try done. by apply one_of_id.
  - intros [H1 H2 Ha Hok Hnm Hcl Hcx Hco].
    assert ((ln_model lane, lane) ∈ filter (λ e, identity e.1 = candidate_id c) (admitted_candidates_with accounts installed))
      as [Hid He]%list_elem_of_filter by (rewrite H2; by left). simpl in Hid.
    rewrite bool_decide_true by (by apply one_of_id). rewrite bool_decide_true.
    2:{ rewrite <- Hid. by apply (one_of_id (λ e, identity e.1) (ln_model lane, lane)); simpl; rewrite ?Hid. }
    rewrite H2. simpl. unfold lane_matches. simpl. by rewrite Hnm, Hco, !bool_decide_true by done.
Qed.

Lemma select_fold identity candidates admitted l : ∀ sel wit,
  let '(sel', wit') := foldl (select_step identity candidates admitted) (sel, wit) l in
  sel' = sel ++ List.filter (λ c, bool_decide (is_Some (lane_selected identity candidates admitted c))) l ∧
  (∀ id lane, wit' !! id = Some lane →
    wit !! id = Some lane ∨ ∃ c, c ∈ l ∧ candidate_id c = id ∧ lane_selected identity candidates admitted c = Some lane) ∧
  (∀ id, is_Some (wit !! id) ∨
     (∃ c, c ∈ l ∧ candidate_id c = id ∧ is_Some (lane_selected identity candidates admitted c)) → is_Some (wit' !! id)).
Proof.
  induction l as [|c l IH]; intros sel wit; simpl; [rewrite app_nil_r; split_and!; [done|by left|set_solver]|].
  unfold select_step at 2. destruct (lane_selected identity candidates admitted c) as [lane|] eqn:Hl; simpl.
  - specialize (IH (sel ++ [c]) (<[candidate_id c := lane]> wit)).
    destruct (foldl _ _ l) as [sel' wit']. destruct IH as (-> & Hw & Hs). rewrite <- app_assoc.
    split_and!; [done| |].
    + intros id lane'.
      intros [[[<- <-]|[? ?]]%lookup_insert_Some|(c' & ? & ? & ?)]%Hw; [right; exists c|by left|right; exists c'];
        split_and!; try done; set_solver.
    + intros id [Hid|(c' & [->|?]%elem_of_cons & <- & ?)]; apply Hs;
        [left; apply lookup_insert_is_Some; destruct (decide (candidate_id c = id)); [by left|by right]
        |left; rewrite lookup_insert_eq; by eexists|right; by exists c'].
  - specialize (IH sel wit). destruct (foldl _ _ l) as [sel' wit']. destruct IH as (-> & Hw & Hs).
    split_and!; [done| |].
    + intros id lane' [?|(c' & ? & ? & ?)]%Hw; [by left|]. right. exists c'. split; [set_solver|done].
    + intros id [Hid|(c' & [->|?]%elem_of_cons & <- & Hc)]; apply Hs; [by left| |right; by exists c'].
      destruct Hc. congruence.
Qed.

Section selection.
Context (identity : DetectedModel → Z) (candidates : list ModelCallCandidate) (accounts : Accounts).
Context (installed on_path : string → bool).

Definition stands := stands_for identity candidates accounts installed.

Lemma stands_same_id c c' lane lane' :
  candidate_id c = candidate_id c' → stands c lane → stands c' lane' → c = c' ∧ lane = lane'.
Proof.
  intros Hid [H1 H2 _ _ _ _ _ _] [H1' H2' _ _ _ _ _ _]. rewrite Hid in H1, H2. rewrite H1 in H1'. rewrite H2 in H2'.
  by simplify_eq.
Qed.

Lemma selected_witness sel wit :
  registry_selection_with_ids candidates accounts installed on_path identity = Ok (sel, wit) →
  sel = List.filter (λ c, bool_decide (is_Some (lane_selected identity candidates
                   (admitted_candidates_with accounts installed) c))) candidates ∧
  ∀ c lane, c ∈ candidates → stands c lane → wit !! candidate_id c = Some lane.
Proof.
  unfold registry_selection_with_ids.
  pose proof (select_fold identity candidates (admitted_candidates_with accounts installed) candidates [] ∅) as Hf.
  destruct (foldl _ _ candidates) as [sel' wit']. destruct Hf as (-> & Hw & Hs). rewrite app_nil_l.
  case_bool_decide; [done|]. intros [= <- <-]. split; [done|]. intros c lane Hc Hst.
  destruct (Hs (candidate_id c)) as [lane' Hl].
  { right. exists c. split_and!; [done..|]. exists lane. by apply lane_selected_iff. }
  rewrite Hl. apply Hw in Hl as [Hl|(c' & Hc' & Hid & Hl)]; [by rewrite lookup_empty in Hl|].
  apply lane_selected_iff in Hl; [|done]. by destruct (stands_same_id c' c lane' lane) as [_ ->].
Qed.

Lemma selected_iff sel wit c :
  registry_selection_with_ids candidates accounts installed on_path identity = Ok (sel, wit) →
  c ∈ sel ↔ c ∈ candidates ∧ ∃ lane, stands c lane.
Proof.
  intros [-> _]%selected_witness. rewrite list_elem_of_In, filter_In, <- list_elem_of_In, bool_decide_eq_true.
  split; intros [Hc [lane Hl]]; (split; [done|]; exists lane; by apply lane_selected_iff).
Qed.

Lemma filtered_ids_once (f : ModelCallCandidate → bool) l :
  (∀ c, c ∈ l → f c = true → filter (λ c', candidate_id c' = candidate_id c) l = [c]) →
  NoDup (map candidate_id (List.filter f l)).
Proof.
  induction l as [|c l IH]; intros Hone; [constructor|]. cbn [List.filter].
  assert (∀ c', c' ∈ l → f c' = true → candidate_id c ≠ candidate_id c' ∧ filter (λ x, candidate_id x = candidate_id c') l = [c']) as Hl.
  { intros c' Hc' Hf'. specialize (Hone c' ltac:(set_solver) Hf'). rewrite filter_cons in Hone. case_decide as Hid; [|done].
    exfalso. injection Hone as _ Hnil. by eapply (filter_nil_not_elem_of _ _ c') in Hnil. }
  assert (NoDup (map candidate_id (List.filter f l))) as Hnd by (apply IH; intros c' ? ?; by apply Hl).
  destruct (f c); [|done]. cbn [map]. apply NoDup_cons. split; [|done].
  intros (c' & Hid & Hin)%list_elem_of_In%in_map_iff. apply filter_In in Hin as [Hc'%list_elem_of_In Hf'].
  by apply (Hl c' Hc' Hf').
Qed.

Lemma bool_filter_sublist {A} (f : A → bool) (l : list A) : List.filter f l `sublist_of` l.
Proof. induction l as [|x l IH]; simpl; [constructor|]. destruct (f x); by constructor. Qed.

(**  A selection is exact.  The candidates that an execution keeps are
    those that stand for an admitted lane: the only ones of their id among the
    candidates and among what the registry admits, on an account with an id of
    its own whose lane is open, under the very names, class, context and price
    of its model.  Each keeps its own lane as witness, so that no candidate can
    borrow another's; they keep their order and no two share an id; and when
    none is left the execution is refused with the fleet's guidance. *)
Theorem selection_is_exact :
  match registry_selection_with_ids candidates accounts installed on_path identity with
  | Ok (selected, witnesses) =>
      selected ≠ [] ∧ selected `sublist_of` candidates ∧ NoDup (map candidate_id selected) ∧
      (∀ c, c ∈ selected ↔ c ∈ candidates ∧ ∃ lane, stands c lane) ∧
      (∀ c lane, c ∈ selected → witnesses !! candidate_id c = Some lane ↔ stands c lane)
  | Err message =>
      (∀ c lane, c ∈ candidates → ¬ stands c lane) ∧
      message = (if bool_decide (guidance (fleet on_path accounts) = EmptyString) then NO_EXACT_LANE
                 else guidance (fleet on_path accounts))
  end.
Proof.
  destruct (registry_selection_with_ids _ _ _ _ _) as [[sel wit]|message] eqn:E.
  - pose proof (λ c, selected_iff sel wit c E) as Hiff. pose proof (selected_witness _ _ E) as [Hsel Hw].
    split_and!; [|rewrite Hsel; apply bool_filter_sublist| |done|].
    + revert E. unfold registry_selection_with_ids. destruct (foldl _ _ _). by case_bool_decide; intros [= <- <-].
    + rewrite Hsel. apply filtered_ids_once. intros c Hc [lane Hl]%bool_decide_eq_true.
      apply lane_selected_iff in Hl; [|done]. apply Hl.
    + intros c lane [Hc [lane' Hst]]%Hiff. rewrite (Hw _ _ Hc Hst). split; [by intros [= <-]|].
      intros Hst'. by destruct (stands_same_id c c lane lane') as [_ ->].
  - revert E. unfold registry_selection_with_ids.
    pose proof (select_fold identity candidates (admitted_candidates_with accounts installed) candidates [] ∅) as Hf.
    destruct (foldl _ _ candidates) as [sel' wit']. destruct Hf as (-> & _ & _). rewrite app_nil_l.
    case_bool_decide as Hnil; [|done]. intros [= <-]. split; [|by case_bool_decide].
    intros c lane Hc Hst%lane_selected_iff; [|done]. apply (in_nil (a := c)). rewrite <- Hnil.
    apply filter_In. rewrite <- list_elem_of_In, Hst. done.
Qed.

End selection.

(** ** Executions against the registry *)

Section production.
Context `{EventLog L, JsonText}.

(** The attempts of an execution, each with the machine as it finds it. *)
Definition registry_world (witnesses : gmap Z RegistryAdmittedLane) (machine : nat → Machine)
    (world : nat → AttemptWorld) (n : nat) : AttemptWorld :=
  mkWorld (aw_envs (world n))
    (λ c, match resolve_selected witnesses (machine n) c with
          | Ok adapter => Ok (execution_channel adapter)
          | Err e => Err e
          end)
    (aw_cancelled (world n)) (aw_polls (world n)) (aw_latency_ms (world n)).

Definition CONFIGURATION_UNREADABLE : string :=
  "Provider configuration could not be read; inspect heiwa doctor".

(** [registry_execution_selection] for an execution that starts at [start] *)
Definition registry_selection (execution : ModelCallExecution) (start : Machine)
    : result string (list ModelCallCandidate * gmap Z RegistryAdmittedLane) :=
  match mach_registry start with
  | None => Err CONFIGURATION_UNREADABLE
  | Some accounts =>
      registry_selection_with_ids (mx_candidates execution) accounts (mach_installed start) (mach_installed start)
        registry_model_candidate_id
  end.

(** [execute] of an executor made by [new_registry] *)
Definition execute_registry (fuel : nat) (start : Machine) (machine : nat → Machine)
    (world : nat → AttemptWorld) (execution : ModelCallExecution) : exec (L := L) Empty_set :=
  match registry_selection execution start with
  | Ok (selected, witnesses) => execute fuel (registry_world witnesses machine world) execution (Ok selected)
  | Err e => execute fuel world execution (Err e)
  end.

(** A message is sent only to a candidate that resolved. *)
Lemma attempt_resolved fuel w candidates st s s' es r n c :
  attempt fuel w candidates st s = (s', es, r) → (n, c) ∈ sends es →
  n = lp_attempts st ∧ ∃ channel, aw_resolve w c = Ok channel.
Proof.
  intros Ha Hin. pose proof (attempt_step _ _ _ _ _ _ _ _ Ha) as [Hs _]%step_sends.
  destruct Hs as [Hs|(c0 & Hc0 & Hs)]; rewrite Hs in Hin; [by apply elem_of_nil in Hin|].
  apply list_elem_of_singleton in Hin as [= -> ->]. split; [done|]. revert Ha. unfold attempt.
  fold (narrowed st). fold (plan_of candidates st). rewrite Hc0.
  intros [(err & -> & _)|(s1 & row1 & es1 & -> & Hk)]%append_call_cases; [done|].
  apply append_call_cases in Hk as [(err & -> & _)|(s2 & row2 & es2 & -> & Hk)]; [done|]. revert Hk.
  destruct (aw_resolve w c0) as [channel|message]; [by eexists|].
  intros [(err & -> & _)|(s3 & row3 & es3 & -> & [= _ <- _])]%append_call_cases; done.
Qed.

Lemma loop_resolved fuel world candidates more : ∀ st s s' es r n c,
  attempts_loop more fuel world candidates st s = (s', es, r) → (n, c) ∈ sends es →
  ∃ channel, aw_resolve (world n) c = Ok channel.
Proof.
  induction more as [|more IH]; intros st s s' es r n c; simpl.
  { destruct (default _ _). intros [= _ <- _] Hin. by apply elem_of_nil in Hin. }
  unfold and_then. destruct (attempt _ _ _ st s) as [[s1 es1] [r1|st1]] eqn:Ha.
  - intros [= _ <- _] Hin. by destruct (attempt_resolved _ _ _ _ _ _ _ _ _ _ Ha Hin) as [-> ?].
  - destruct (attempts_loop _ _ _ _ st1 s1) as [[s2 es2] r2] eqn:Hl. intros [= _ <- _].
    rewrite sends_app. intros [Hin|Hin]%elem_of_app; [|by eapply IH].
    by destruct (attempt_resolved _ _ _ _ _ _ _ _ _ _ Ha Hin) as [-> ?].
Qed.

Lemma execute_resolved fuel world execution candidates (s s' : Service L) es r n c :
  execute fuel world execution candidates s = (s', es, r) → (n, c) ∈ sends es →
  ∃ channel, aw_resolve (world n) c = Ok channel.
Proof.
  unfold execute. case_bool_decide; [by intros [= _ <- _] ?%elem_of_nil|].
  destruct (invalid_budget _); [by intros [= _ <- _] ?%elem_of_nil|].
  destruct (mx_cancelled _); [by intros [= _ <- _] ?%elem_of_nil|].
  destruct candidates as [cs|e]; [|by intros [= _ <- _] ?%elem_of_nil]. apply loop_resolved.
Qed.

(** The registry of the moment still holds the lane, as it was admitted. *)
Definition still_holds (now : Machine) (lane : RegistryAdmittedLane) : Prop :=
  ∃ accounts a m, mach_registry now = Some accounts ∧ with_id (lane_account_id lane) accounts = [a] ∧
    same_configuration a (ln_account lane) ∧
    lane_ok (mach_installed now) a (lane_provider_model_id lane) m ∧ model_eqb m (ln_model lane) = true.

Lemma resolve_selected_ok witnesses now c adapter :
  resolve_selected witnesses now c = Ok adapter →
  witnesses !! candidate_id c = Some adapter.1 ∧ still_holds now adapter.1 ∧
  transport_for (ln_account adapter.1) = Some adapter.2.
Proof.
  unfold resolve_selected. destruct (witnesses !! _) as [lane|]; [|done]. destruct (negb _); [done|].
  destruct (mach_registry now) as [current|] eqn:Hr; [|done].
  destruct (validate_current _ _ _) as [[]|] eqn:Hv; [|done].
  unfold resolve_admitted_adapter. destruct (admit_account _ _ _); simpl; [|done].
  destruct (transport_for _) as [t|] eqn:Ht; [|done]. intros [= <-]. split; [done|]. split; [|done].
  apply validate_iff in Hv as (account & m & ?). by exists current, account, m.
Qed.

(** C10.  No message leaves its lane.  Against the registry, every message of an
    execution goes to a candidate that stood for one admitted lane when the
    execution began, and goes only if the registry at that very attempt still
    has the one account of the lane, unchanged in provider, credential and rate
    group, admitting the same model; the transport is the one of that account's
    credential. *)
Theorem messages_stay_in_their_lane (fuel : nat) (start : Machine) (machine : nat → Machine)
    (world : nat → AttemptWorld) (execution : ModelCallExecution) (s : Service L) :
  let '(_, es, _) := execute_registry fuel start machine world execution s in
  ∀ n c, (n, c) ∈ sends es →
    ∃ accounts lane transport,
      mach_registry start = Some accounts ∧ c ∈ mx_candidates execution ∧
      stands_for registry_model_candidate_id (mx_candidates execution) accounts (mach_installed start) c lane ∧
      still_holds (machine n) lane ∧ transport_for (ln_account lane) = Some transport.
Proof.
  destruct (execute_registry _ _ _ _ _ s) as [[s' es] r] eqn:E. intros n c Hin. revert E. unfold execute_registry.
  destruct (registry_selection execution start) as [[selected witnesses]|e] eqn:Hs.
  2:{ intros [[-> _]|(cs & [=] & _)]%execute_cases. by apply elem_of_nil in Hin. }
  intros E. destruct (execute_resolved _ _ _ _ _ _ _ _ _ _ E Hin) as [channel Hr]. cbn [registry_world aw_resolve] in Hr.
  destruct (resolve_selected witnesses (machine n) c) as [[lane t]|] eqn:Ha; [|done].
  destruct (resolve_selected_ok _ _ _ _ Ha) as (Hw & Hh & Ht). cbn [fst snd] in *.
  apply execute_cases in E as [[-> _]|(cs & [= <-] & _ & Hst)]; [by apply elem_of_nil in Hin|].
  apply steps_sends in Hst as (_ & Hok & _ & _). destruct (Hok _ _ Hin) as (_ & Hc & _).
  revert Hs. unfold registry_selection. destruct (mach_registry start) as [accounts|]; [|done]. intros Hs.
  pose proof (proj1 (selected_iff _ _ _ _ _ _ _ c Hs) Hc) as (Hcand & lane' & Hstand).
  pose proof (proj2 (selected_witness _ _ _ _ _ _ _ Hs) c lane' Hcand Hstand) as Hw'.
  rewrite Hw in Hw'. injection Hw' as <-. by exists accounts, lane, t.
Qed.

(** The adapter looks once more: what it passes on names the lane's own model,
    and the lane still holds. *)
Lemma admitted_send_holds now lane model asked :
  admitted_send now lane model = Ok asked → asked = lane_provider_model_id lane ∧ still_holds now lane.
Proof.
  unfold admitted_send. destruct (mach_registry now) as [current|] eqn:Hr; [|done].
  destruct (validate_current _ _ _) as [[]|] eqn:Hv; [|done]. destruct (_ && _); [done|].
  destruct (admit_account _ _ _); [|done]. intros [= <-]. split; [done|].
  apply validate_iff in Hv as (account & m & ?). by exists current, account, m.
Qed.

(** Nothing that the resolver lets through is stopped on a machine that did not
    change in between. *)
Lemma admitted_send_after_resolve witnesses now c lane t :
  resolve_selected witnesses now c = Ok (lane, t) →
  admitted_send now lane (mt_provider_model_id (mc_tier c)) = Ok (lane_provider_model_id lane).
Proof.
  unfold resolve_selected, admitted_send. destruct (witnesses !! _) as [lane'|]; [|done].
  destruct (names_lane c lane') eqn:Hn; [|done]. simpl. destruct (mach_registry now) as [current|]; [|done].
  destruct (validate_current lane' _ _) as [[]|] eqn:Hv; [|done].
  unfold resolve_admitted_adapter. destruct (admit_account _ _ _) eqn:Ha; simpl; [|done].
  destruct (transport_for _); [|done]. intros [= <- <-]. rewrite Hv, Ha.
  unfold names_lane in Hn. rewrite !andb_true_iff, !bool_decide_eq_true in Hn. by rewrite bool_decide_true by tauto.
Qed.

End production.
