(* ===== verification/Connections.v ===== *)
(** * Connecting and disconnecting accounts (crates/heiwa_provider/src/connections.rs, keychain.rs, registry.rs)

    A connection is an account in the registry's file and a secret in the
    keychain.  The two stores fail on their own, and other processes write the
    file between the load and the save; both are arguments. *)

From stdpp Require Import base gmap sets strings numbers list.
From Stdlib Require Import Ascii.
From S2P Require Import Prelude Json Provider AccountCodec RegistryStore ModelExecution ProviderStreams ProviderHttp Discovery.
#[local] Open Scope Z_scope.

(** ** The keychain *)

Notation Keychain := (gmap string string) (only parsing).

(** Which of its operations fail. *)
Record KeychainFaults : Type := mkKeychainFaults { kf_store : bool; kf_load : bool; kf_delete : bool }.

Definition keychain_works : KeychainFaults := mkKeychainFaults false false false.

Definition store_secret (f : KeychainFaults) (kc : Keychain) (account_id secret : string) : Keychain * result string unit :=
  if kf_store f then (kc, Err ("failed to store secret for " +:+ account_id)) else (<[account_id := secret]> kc, Ok tt).

Definition load_secret_optional (f : KeychainFaults) (kc : Keychain) (account_id : string) : result string (option string) :=
  if kf_load f then Err ("keyring error for " +:+ account_id) else Ok (kc !! account_id).

(** A missing entry is deleted already. *)
Definition delete_secret (f : KeychainFaults) (kc : Keychain) (account_id : string) : Keychain * result string unit :=
  if kf_delete f then (kc, Err ("failed to delete secret for " +:+ account_id)) else (delete account_id kc, Ok tt).

(** ** connections.rs *)

Inductive ConnectionError : Type :=
| Refused (message : string)
| RegistryFailed (e : RegistryError)
| KeychainFailed (message : string).

Record ConnectionSummary : Type := mkSummary {
  su_account_id : string;
  su_provider : string;
  su_channel : string;
  su_status : string;
  su_model_count : nat;
  su_can_manage_key : bool;
}.

Definition summary_of (a : ProviderAccount) : ConnectionSummary :=
  mkSummary (pa_account_id a) (pa_provider a)
    (match pa_credential a with
     | ApiKey => "API key" | OauthCli _ => "Provider CLI" | OAuth _ => "Provider account" | LocalRuntime _ => "Local runtime"
     end)
    (match pa_status a with
     | Connected => "connected" | Disconnected => "disconnected" | NeedsAuth => "needs_verification"
     | StatusError _ => "verification_failed"
     end)
    (length (pa_models a)) (is_api_key a).

Definition summaries (accounts : Accounts) : list ConnectionSummary := map summary_of accounts.

Definition rate_group (provider : string) : result ConnectionError string :=
  if bool_decide (provider = "openai") then Ok "openai_api"
  else if bool_decide (provider = "anthropic") then Ok "anthropic_api"
  else if bool_decide (provider = "google") then Ok "google_api"
  else if bool_decide (provider = "openrouter") then Ok "openrouter"
  else Err (Refused "Choose a supported API provider").

(** [char::is_control] of some character: the ranges U+0000..1F, U+007F..9F,
    the second one's upper part being two bytes. *)
Fixpoint has_control (s : bytes) : bool :=
  match s with
  | [] => false
  | a :: s' =>
      bool_decide (byte_val a < 32) || bool_decide (byte_val a = 127) ||
      (bool_decide (byte_val a = 194) && match s' with b :: _ => bool_decide (128 ≤ byte_val b < 160) | [] => false end) ||
      has_control s'
  end.

Definition checked_key (key : string) : result ConnectionError string :=
  let key := trim key in
  if bool_decide (key = EmptyString) || (16384 <? str_len key) || has_control (as_bytes key)
  then Err (Refused "Enter a nonempty API key without control characters (maximum 16 KiB)")
  else Ok key.

Definition require_api_account (account : ProviderAccount) : result ConnectionError unit :=
  match rate_group (pa_provider account) with
  | Err e => Err e
  | Ok _ =>
      if is_api_key account then Ok tt
      else Err (Refused "This action manages API keys only; provider-owned sign-in remains in its own application")
  end.

Definition GONE : string := "Connection no longer exists; refresh resources".

(** [get_mut] and what is written through it. *)
Fixpoint update_first (id : string) (f : ProviderAccount → ProviderAccount) (accounts : Accounts) : Accounts :=
  match accounts with
  | [] => []
  | a :: rest => if bool_decide (pa_account_id a = id) then f a :: rest else a :: update_first id f rest
  end.

(** The files at the load and at the save, how the save fails, the keychain
    and how it fails: what an operation runs against. *)
Record Stores : Type := mkStores {
  st_loaded : RegistryPath;
  st_at_save : RegistryPath;
  st_fault : SaveFault;
  st_keychain : gmap string string;
  st_faults : KeychainFaults;
}.

(** The file and the keychain it leaves, and its result. *)
Definition Left : Type := RegistryPath * gmap string string * result ConnectionError unit.

Section connections.
Context `{JsonText}.

(** [registry.save] *)
Definition save (s : Stores) (path : RegistryPath) (self : Registry) : RegistryPath * Registry * result ConnectionError unit :=
  let '(path', self', r) := save_to (st_fault s) path self in
  (path', self', match r with Ok u => Ok u | Err e => Err (RegistryFailed e) end).

(** [disconnect_api_connection] *)
Definition disconnect_api_connection (s : Stores) (account_id : string) : Left :=
  let unchanged e := (st_at_save s, st_keychain s, Err e) in
  match load_from (st_loaded s) with
  | Err e => unchanged (RegistryFailed e)
  | Ok registry =>
      match get (rg_accounts registry) account_id with
      | None => unchanged (Refused GONE)
      | Some account =>
          match require_api_account account with
          | Err e => unchanged e
          | Ok _ =>
              let self := mkRegistry (remove (rg_accounts registry) account_id).1 (rg_baseline registry) in
              match save s (st_at_save s) self with
              | (path, _, Err e) => (path, st_keychain s, Err e)
              | (path, _, Ok _) =>
                  let '(kc, r) := delete_secret (st_faults s) (st_keychain s) account_id in
                  (path, kc, match r with Ok u => Ok u | Err e => Err (KeychainFailed e) end)
              end
          end
      end
  end.

(** The account of a new key. *)
Definition new_api_account (account_id provider rate_group : string) : ProviderAccount :=
  mkAccount account_id provider ApiKey rate_group NeedsAuth [].

(** [add_api_key_account]: the id is fresh; the registry is what it is left
    with. *)
Definition add_api_key_account (s : Stores) (registry : Registry) (uuid provider api_key group : string)
    : RegistryPath * gmap string string * Registry * result ConnectionError string :=
  let account_id := provider +:+ "-api-" +:+ uuid in
  match store_secret (st_faults s) (st_keychain s) account_id api_key with
  | (kc, Err e) => (st_at_save s, kc, registry, Err (KeychainFailed e))
  | (kc, Ok _) =>
      let self := mkRegistry (upsert (rg_accounts registry) (new_api_account account_id provider group)) (rg_baseline registry) in
      match save s (st_at_save s) self with
      | (path, self, Err e) =>
          (path, (delete_secret (st_faults s) kc account_id).1, mkRegistry (remove (rg_accounts self) account_id).1 (rg_baseline self), Err e)
      | (path, self, Ok _) => (path, kc, self, Ok account_id)
      end
  end.

Definition VERIFICATION_FAILED : string := "Verification failed; check the key and network, then retry".

(** What a verification, successful or not, makes of the account. *)
Definition verified_account (v : Verification) : ProviderAccount :=
  match v.1.2 with
  | Ok _ => v.1.1
  | Err _ => with_models [] (with_status (StatusError VERIFICATION_FAILED) v.1.1)
  end.

(** [verify_in_registry]: the file at this save may be another one. *)
Definition verify_in_registry (to_lowercase : string → string) (env : string → option string) (http : HttpRequest → result string HttpResponse)
    (s : Stores) (path : RegistryPath) (kc : Keychain) (registry : Registry) (account_id : string)
    : RegistryPath * Registry * result ConnectionError unit :=
  match get (rg_accounts registry) account_id with
  | None => (path, registry, Err (Refused GONE))
  | Some account =>
      match require_api_account account with
      | Err e => (path, registry, Err e)
      | Ok _ =>
          let v := verify_api_key to_lowercase env (load_secret_optional (st_faults s) kc) http account in
          save s path (mkRegistry (update_first account_id (λ _, verified_account v) (rg_accounts registry)) (rg_baseline registry))
      end
  end.

(** [connect_api_key]: a second save follows the first. *)
Definition connect_api_key (to_lowercase : string → string) (env : string → option string) (http : HttpRequest → result string HttpResponse)
    (s : Stores) (between : RegistryPath → RegistryPath) (uuid provider key : string) : Left :=
  let unchanged e := (st_at_save s, st_keychain s, Err e) in
  match rate_group provider with
  | Err e => unchanged e
  | Ok group =>
      match checked_key key with
      | Err e => unchanged e
      | Ok key =>
          match load_from (st_loaded s) with
          | Err e => unchanged (RegistryFailed e)
          | Ok registry =>
              match add_api_key_account s registry uuid provider key group with
              | (path, kc, _, Err e) => (path, kc, Err e)
              | (path, kc, registry, Ok id) =>
                  let '(path, _, r) := verify_in_registry to_lowercase env http s (between path) kc registry id in (path, kc, r)
              end
          end
      end
  end.

Definition verify_api_connection (to_lowercase : string → string) (env : string → option string) (http : HttpRequest → result string HttpResponse)
    (s : Stores) (account_id : string) : Left :=
  match load_from (st_loaded s) with
  | Err e => (st_at_save s, st_keychain s, Err (RegistryFailed e))
  | Ok registry =>
      let '(path, _, r) := verify_in_registry to_lowercase env http s (st_at_save s) (st_keychain s) registry account_id in
      (path, st_keychain s, r)
  end.

(** ** Lemmas *)

Lemma get_removed accounts id id' : get (remove accounts id).1 id' = if bool_decide (id' = id) then None else get accounts id'.
Proof.
  unfold remove. simpl. induction accounts as [|a l IH]; [by case_bool_decide|]. rewrite filter_cons.
  destruct (decide (pa_account_id a ≠ id)) as [Ha|Ha]; rewrite ?get_cons, ?IH; repeat case_bool_decide; try done; subst; try done; by destruct Ha.
Qed.

Lemma get_upsert accounts a id : get (upsert accounts a) id = if bool_decide (id = pa_account_id a) then Some a else get accounts id.
Proof.
  induction accounts as [|b l IH]; simpl; [rewrite get_cons; repeat case_bool_decide; by subst|].
  rewrite get_cons. destruct (decide (pa_account_id b = pa_account_id a)) as [Hb|Hb].
  - rewrite (bool_decide_true _ Hb), get_cons, Hb. by case_bool_decide.
  - rewrite (bool_decide_false _ Hb), get_cons, IH. repeat case_bool_decide; first [done|congruence].
Qed.

Lemma removed_elem accounts id a : a ∈ (remove accounts id).1 → a ∈ accounts ∧ pa_account_id a ≠ id.
Proof. unfold remove. simpl. by intros [? ?]%list_elem_of_filter. Qed.

(** A registry as it is loaded: its ids are distinct, and it is its baseline. *)
Lemma loaded_distinct path r : load_from path = Ok r → distinct_ids (rg_accounts r) ∧ baseline_of r = Some (rg_accounts r).
Proof. intros [Hv Hb]%load_from_spec. split; [by apply account_values_iff|done]. Qed.

Lemma removed_distinct accounts id : distinct_ids accounts → distinct_ids (remove accounts id).1.
Proof.
  intros [Hids Hnd]. unfold remove. simpl. split.
  - apply Forall_forall. intros a [_ Ha]%list_elem_of_filter. by apply (proj1 (Forall_forall _ _) Hids).
  - clear Hids. induction accounts as [|a l IH]; [constructor|]. apply NoDup_cons in Hnd as [Ha Hnd]. rewrite filter_cons.
    case_decide; [|by apply IH]. simpl. constructor; [|by apply IH]. contradict Ha.
    apply list_elem_of_fmap in Ha as (b & -> & [_ Hb]%list_elem_of_filter). apply list_elem_of_fmap. by exists b.
Qed.

(** A save of a loaded registry with one account removed, over whatever file
    is there by then. *)
Lemma save_removed s path0 path loaded current id :
  load_from path0 = Ok loaded → load_from path = Ok current → get (rg_accounts loaded) id ≠ None →
  Forall storable (rg_accounts loaded) → Forall storable (rg_accounts current) →
  let '(path', self', r) := save s path (mkRegistry (remove (rg_accounts loaded) id).1 (rg_baseline loaded)) in
  (r = Ok tt →
     (∀ id', get (rg_accounts self') id' = if bool_decide (id' = id) then None else get (rg_accounts current) id') ∧
     (text_keeps (rg_accounts self') → load_from path' = Ok self')) ∧
  (r ≠ Ok tt → path' = path ∨ st_fault s = AfterReplace).
Proof.
  intros Hl Hc Hid Hsl Hsc. destruct (loaded_distinct _ _ Hl) as [Hd Hb].
  set (self := mkRegistry (remove (rg_accounts loaded) id).1 (rg_baseline loaded)).
  assert (baseline_of self = Some (rg_accounts loaded)) as Hbs by (destruct loaded; exact Hb).
  pose proof (removed_distinct _ id Hd) as Hdr.
  assert (Forall storable (rg_accounts self)) as Hss.
  { apply Forall_forall. intros a [Ha _]%removed_elem. by apply (proj1 (Forall_forall _ _) Hsl). }
  pose proof (merge_registry_spec path self (rg_accounts loaded) current Hc Hbs Hd Hdr Hss Hsc) as Hm. cbv zeta in Hm.
  unfold save, save_to. destruct (merge_registry path self) as [l|e].
  - destruct Hm as (Hdl & Hsl' & _ & _ & Hg).
    destruct (st_fault s); [|by split; [|left]|by split; [|left]|by split; [|right]]. split; [|done].
    intros _. cbn [rg_accounts]. split; [|intros Ht; by apply load_saved].
    intros id'. rewrite Hg. unfold self. cbn [rg_accounts]. rewrite get_removed. unfold merged_account.
    case_bool_decide as Hi.
    + subst id'. destruct (get (rg_accounts loaded) id); [done|by destruct Hid].
    + by rewrite same_refl.
  - destruct (st_fault s); (split; [done|by left]).
Qed.

(**  Disconnecting takes the route away before the credential.  Whatever
    else was written to the file since it was loaded and wherever the operation
    fails, the secret is deleted only after a save has put a file in place that
    no longer has the account; no other account's secret is touched and every
    other account is as the file had it.  When it succeeds, both are gone; when
    it fails, the file is as it was, unless only its directory could not be
    synchronized or only the secret could not be deleted. *)
Theorem disconnecting_removes_the_route_first (s : Stores) (id : string) (loaded current : Registry) :
  load_from (st_loaded s) = Ok loaded → load_from (st_at_save s) = Ok current →
  Forall storable (rg_accounts loaded) → Forall storable (rg_accounts current) →
  let '(path', kc', r) := disconnect_api_connection s id in
  (∀ id', id' ≠ id → kc' !! id' = st_keychain s !! id') ∧
  (kc' ≠ st_keychain s ∨ r = Ok tt →
     kc' !! id = None ∧ ∃ after, (text_keeps (rg_accounts after) → load_from path' = Ok after) ∧
       ∀ id', get (rg_accounts after) id' = if bool_decide (id' = id) then None else get (rg_accounts current) id') ∧
  (r ≠ Ok tt → path' = st_at_save s ∨ st_fault s = AfterReplace ∨ ∃ m, r = Err (KeychainFailed m)).
Proof.
  intros Hl Hc Hsl Hsc. unfold disconnect_api_connection. rewrite Hl.
  destruct (get (rg_accounts loaded) id) as [account|] eqn:Hg.
  2:{ split; [done|]. split; [by intros [?|?]|by left]. }
  destruct (require_api_account account) as [u|e]; [|split; [done|]; split; [by intros [?|?]|by left]].
  pose proof (save_removed s (st_loaded s) (st_at_save s) loaded current id Hl Hc ltac:(by rewrite Hg) Hsl Hsc) as Hs.
  destruct (save s (st_at_save s) _) as [[path' self'] [[]|e]].
  - destruct Hs as [Hok _]. destruct (Hok eq_refl) as [Hget Hload].
    unfold delete_secret. destruct (kf_delete (st_faults s)).
    + split; [done|]. split; [by intros [?|?]|]. intros _. right. right. by eexists.
    + split; [intros id' Hid; by rewrite lookup_delete_ne|]. split; [|done].
      intros _. split; [apply lookup_delete_eq|]. by exists self'.
  - destruct Hs as [_ Herr]. split; [done|]. split; [by intros [?|?]|]. intros _.
    destruct (Herr ltac:(done)) as [->|Hf]; [by left|by right; left].
Qed.

End connections.
