(* ===== verification/AdapterCalls.v ===== *)
(** * A call through an admitted adapter (crates/heiwa_provider/src/routing.rs, providers/)

    [AdmittedAdapter::send] checks its lane and hands the call to the transport
    of the lane's account.  What the transports do is composed with it here. *)

From stdpp Require Import base gmap sets strings numbers list.
From Stdlib Require Import Ascii.
From S2P Require Import Prelude Utf8 Json CallCosts ModelExecution Provider Admission LaneSelection ProviderStreams ProviderHttp.
From S2P Require Import AnthropicApi OpenAiApi GeminiApi CliAdapters Discovery.
#[local] Open Scope Z_scope.

(** What the outside answers: the environment, the keychain, the network as a
    call meets it and as a bounded request for a list does, and the programs a
    command starts. *)
Record Outside : Type := mkOutside {
  ou_env : string → option string;
  ou_stored : string → result string (option string);
  ou_http : HttpRequest → option (result string HttpResponse);
  ou_attempts : HttpRequest → nat → option (result string Retried);
  ou_listing : HttpRequest → result string HttpResponse;
  ou_resolve : string → string;
  ou_spawn : Command → result string Process;
  ou_reads : Command → result string Output;
}.

Definition ou_secret (w : Outside) (account_id : string) : result string (option string) :=
  resolve_secret_with account_id (ou_stored w) (ou_env w).

(** What a call did: requests, programs, events and result. *)
Record Called : Type := mkCalled {
  ca_requests : list HttpRequest;
  ca_commands : list Command;
  ca_reply : Reply;
}.

Definition from_sent (s : Sent) : Called := mkCalled s.1 [] s.2.
Definition from_command (c : Command) (reply : Reply) : Called := mkCalled [] [c] reply.

(** The program of a CLI lane; another lane's constructor panics. *)
Definition cli_binary (lane : RegistryAdmittedLane) : outcome string :=
  match pa_credential (ln_account lane) with OauthCli binary => Return binary | _ => Panic end.

Definition outcome_map {A B} (f : A → B) (o : outcome A) : outcome B :=
  match o with Return a => Return (f a) | Panic => Panic end.

Section calls.
Context `{JsonText}.

(** The base is looked up when the adapter is built. *)
Definition base_of (env : string → option string) (lane : RegistryAdmittedLane) (default_url : string) : string :=
  default default_url (env_base_url env (lane_provider lane)).

Definition transport_send (w : Outside) (lane : RegistryAdmittedLane) (t : Transport) (model : string)
    (messages : list Message) (rx : option nat) : outcome Called :=
  match t with
  | Provider.AnthropicApi =>
      Return (from_sent (anthropic_send (anthropic_from_lane lane (base_of (ou_env w) lane AnthropicApi.DEFAULT_BASE_URL))
        model messages rx (ou_secret w) (ou_http w)))
  | Provider.OpenAiApi =>
      Return (from_sent (openai_send (openai_from_lane lane (base_of (ou_env w) lane OpenAiApi.DEFAULT_BASE_URL))
        model messages rx (ou_secret w) (ou_http w)))
  | Provider.GeminiApi =>
      Return (from_sent (gemini_send (gemini_from_lane lane (base_of (ou_env w) lane GeminiApi.DEFAULT_BASE_URL))
        model messages rx (ou_secret w) (ou_http w)))
  | OpenRouterApi =>
      Return (from_sent (openrouter_send (openrouter_from_lane lane) model messages rx (ou_secret w) (ou_attempts w)))
  | ClaudeCodeCli =>
      outcome_map (λ binary, let c := claude_command (ou_resolve w) binary model messages in
        from_command c (cli_send claude_texts claude_result rx (ou_spawn w c))) (cli_binary lane)
  | CodexCli =>
      outcome_map (λ binary, let c := codex_command (ou_resolve w) binary model messages in
        from_command c (codex_send rx (ou_spawn w c))) (cli_binary lane)
  | GeminiCli =>
      outcome_map (λ binary, let c := gemini_command (ou_resolve w) binary model messages in
        from_command c (cli_send gemini_texts gemini_result rx (ou_spawn w c))) (cli_binary lane)
  | Provider.OllamaCli =>
      outcome_map (λ a, let c := ollama_command (ou_resolve w) a model messages in
        from_command c (ollama_send rx (ou_reads w c))) (ollama_from_lane lane)
  end.

(** [AdmittedAdapter::send] of an adapter that was resolved. *)
Definition adapter_send (w : Outside) (now : Machine) (lane : RegistryAdmittedLane) (t : Transport) (model : string)
    (messages : list Message) (rx : option nat) : outcome Called :=
  match admitted_send now lane model with
  | Err denial => Return (mkCalled [] [] (fail rx (denial_text denial)))
  | Ok asked => transport_send w lane t asked messages rx
  end.

(** ** Lemmas *)

(** What a call waits for when it does: an answer to one of its requests, or
    one of its programs. *)
Inductive awaited (w : Outside) (called : Called) : Prop :=
| awaits_answer q : q ∈ ca_requests called → unanswered (ou_http w q) → awaited w called
| awaits_attempt q n : q ∈ ca_requests called → (n < length (ca_requests called))%nat →
    unanswered_attempt (ou_attempts w q n) → awaited w called
| awaits_program c : c ∈ ca_commands called → hangs (ou_spawn w c) → awaited w called
| awaits_output c : c ∈ ca_commands called → unended (ou_reads w c) → awaited w called.

Lemma reports_or_impl (P Q : Prop) r : (P → Q) → reports_or P r → reports_or Q r.
Proof. intros HPQ [?|[? ?]]; [by left|right; auto]. Qed.

(** The transport fits the credential, so nothing panics, and every transport
    reports, or waits for the outside. *)
Lemma transport_reports w lane t model messages :
  transport_for (ln_account lane) = Some t →
  ∃ called, transport_send w lane t model messages None = Return called ∧ reports_or (awaited w called) (ca_reply called).
Proof.
  unfold transport_for. intros Ht.
  destruct (pa_credential (ln_account lane)) as [|e|binary|endpoint] eqn:Hc; [|done| |];
    repeat (case_bool_decide; [injection Ht as <-|]); try done; simpl; unfold cli_binary, ollama_from_lane; rewrite ?Hc; simpl;
    eexists; (split; [reflexivity|]); unfold from_sent, from_command; cbn [ca_reply];
    (eapply reports_or_impl; [|first [apply anthropic_send_reports|apply openai_send_reports|apply gemini_send_reports
       |apply openrouter_send_reports|apply cli_send_reports|apply codex_send_reports|apply ollama_send_reports]]).
  1-3: intros (q & Hq & Hu); by eapply awaits_answer.
  - intros (q & n & Hq & Hn & Hu). by eapply awaits_attempt.
  - intros Hh. eapply awaits_program; [by apply list_elem_of_singleton|done].
  - intros Hh. eapply awaits_program; [by apply list_elem_of_singleton|done].
  - intros Hh. eapply awaits_program; [by apply list_elem_of_singleton|done].
  - intros Hh. eapply awaits_output; [by apply list_elem_of_singleton|done].
Qed.

(** What a request of a transport carries, and where. *)
Lemma transport_request w lane t model messages rx called q :
  transport_for (ln_account lane) = Some t →
  transport_send w lane t model messages rx = Return called → q ∈ ca_requests called →
  ∃ key, ou_secret w (lane_account_id lane) = Ok (Some key) ∧
    goes_to (endpoint_of (ou_env w) (lane_provider lane)) key (Some (model, messages)) q.
Proof.
  unfold transport_for, lane_provider. intros Ht.
  destruct (pa_credential (ln_account lane)) as [|e|binary|endpoint] eqn:Hc; [|done| |].
  2,3: repeat (case_bool_decide; [injection Ht as <-|]); try done; simpl; unfold cli_binary, ollama_from_lane; rewrite ?Hc; simpl;
    intros [= <-] Hq; by apply elem_of_nil in Hq.
  destruct (decide (canonical_provider_id (pa_provider (ln_account lane)) = "claude")) as [Hp|H1].
  { rewrite Hp in Ht |- *. injection Ht as <-. intros [= <-] (key & Hk & ->)%send_keyed_requests. exists key. split; [done|].
    unfold messages_request; simpl; unfold base_of, lane_provider; rewrite Hp.
    goes "v1/messages". eexists. split; [done|simpl; pick]. }
  destruct (decide (canonical_provider_id (pa_provider (ln_account lane)) = "codex")) as [Hp|H2].
  { rewrite Hp in Ht |- *. injection Ht as <-. intros [= <-] (key & Hk & ->)%send_keyed_requests. exists key. split; [done|].
    unfold completions_request; simpl; unfold base_of, lane_provider; rewrite Hp.
    goes "v1/chat/completions". eexists. split; [done|simpl; pick]. }
  destruct (decide (canonical_provider_id (pa_provider (ln_account lane)) = "gemini")) as [Hp|H3].
  { rewrite Hp in Ht |- *. injection Ht as <-. intros [= <-] (key & Hk & ->)%send_keyed_requests. exists key. split; [done|].
    unfold generate_request; simpl; unfold base_of, lane_provider; rewrite Hp.
    goes ("v1beta/models/" +:+ model +:+ ":streamGenerateContent?alt=sse"). eexists. split; [done|simpl; pick]. }
  rewrite !bool_decide_false in Ht by done. case_bool_decide as Hp; [|done]. injection Ht as <-. rewrite Hp.
  intros [= <-] (key & Hk & ->)%openrouter_requests. exists key. split; [done|].
  goes "chat/completions". eexists. split; [done|simpl; pick].
Qed.

(** ** The properties *)

(** C15.  Every call through an admitted adapter is answered, as far as the
    outside answers it.  Whichever of the eight transports a resolved lane has,
    whatever the network, the keychain (which answers), the program and the
    registry of the moment do, [send] does not panic.  As long as it has not
    returned it has sent nothing but deltas, and it is waiting for something it
    names: a request without an answer, a body that has not ended, a program
    that has neither ended its output nor exited.  Once it has returned, its
    task has put on the channel deltas and then a terminal event, the reply's
    own or the error the task reports, and [run_adapter], polled at any moments
    and not cancelled, ends with it: the call never hangs after the task has
    ended and never sees a stream that ends without completion. *)
Theorem every_call_is_answered (w : Outside) (now : Machine) (lane : RegistryAdmittedLane) (t : Transport)
    (model : string) (messages : list Message) :
  transport_for (ln_account lane) = Some t →
  ∃ called,
    adapter_send w now lane t model messages None = Return called ∧
    ((ca_reply called).2 = None → Forall is_delta (ca_reply called).1 ∧ awaited w called) ∧
    ((ca_reply called).2 ≠ None → ∀ polls,
      omap po_event polls = map Some (task_events (ca_reply called)) →
      Forall (λ p, po_cancel p ≠ Some (Some true)) polls →
      ∃ deltas last rest,
        task_events (ca_reply called) = deltas ++ last :: rest ∧ Forall is_delta deltas ∧ is_terminal last = true ∧
        run_adapter false polls = (deltas, outcome_of (reply_text deltas) (some_delta deltas) last)).
Proof.
  intros Ht. assert (∃ called, adapter_send w now lane t model messages None = Return called ∧
    reports_or (awaited w called) (ca_reply called)) as (called & Hc & Hr).
  { unfold adapter_send. destruct (admitted_send now lane model) as [asked|denial]; [by apply transport_reports|].
    eexists. split; [done|]. left. apply answers_reports, fail_answers. }
  exists called. split; [done|]. destruct Hr as [Hr|[[Hn Hs] Ha]].
  - split; [intros Hn; destruct Hr as [[? Hr] _]; congruence|]. intros _ polls Hp Hcancel. by apply reports_run.
  - by split.
Qed.

(** C16.  A key goes to one place.  A request an admitted adapter makes carries
    the secret of its lane's account, and nothing of any other secret: its URL
    is the endpoint of that account's provider (the override of the environment,
    or the provider's default) and a fixed path, with at most the name of the
    model; one header presents that secret and the others are constants; its
    body is made of the model and the messages.  It is made only while the lane
    is admitted in the registry of the moment and the model asked for is the
    lane's.  The requests by which the same account's key is verified carry the
    same secret to the same endpoint in the same way, so a gateway's key never
    reaches the vendor. *)
Theorem key_goes_to_one_place (to_lowercase : string → string) (w : Outside) (now : Machine) (lane : RegistryAdmittedLane)
    (t : Transport) (model : string) (messages : list Message) (rx : option nat) (called : Called) (q : HttpRequest) :
  transport_for (ln_account lane) = Some t →
  adapter_send w now lane t model messages rx = Return called →
  q ∈ ca_requests called →
  ∃ key,
    ou_secret w (lane_account_id lane) = Ok (Some key) ∧
    goes_to (endpoint_of (ou_env w) (lane_provider lane)) key (Some (lane_provider_model_id lane, messages)) q ∧
    admitted_send now lane model = Ok (lane_provider_model_id lane) ∧
    Forall (goes_to (endpoint_of (ou_env w) (lane_provider lane)) key None)
      (verify_api_key to_lowercase (ou_env w) (ou_stored w) (ou_listing w) (ln_account lane)).2.
Proof.
  intros Ht Hs Hq. unfold adapter_send in Hs. destruct (admitted_send now lane model) as [asked|denial] eqn:Ha.
  2:{ injection Hs as <-. by apply elem_of_nil in Hq. }
  destruct (transport_request w lane t asked messages rx called q Ht Hs Hq) as (key & Hk & Hg).
  destruct (admitted_send_holds _ _ _ _ Ha) as [-> _].
  exists key. split; [done|]. split; [done|]. split; [done|].
  unfold verify_api_key. unfold ou_secret, lane_account_id in Hk. rewrite Hk.
  apply (verify_with_requests to_lowercase (ou_env w) (ou_listing w) (ln_account lane) key).
Qed.

End calls.
