(* ===== verification/PriceRouting.v ===== *)
(** * Quota windows and routing by price (crates/heiwa_quota, crates/heiwa_drex/src/lib.rs)

    The ledger of what each rate group used in its window, a table keyed by
    provider and group; and the router that takes the cheapest model that is
    good enough among the accounts that can be used.  The vault, the clock and
    the text of a float are arguments. *)

From stdpp Require Import base gmap sets strings numbers sorting pretty list.
From Stdlib Require Import Ascii SpecFloat.
From S2P Require Import Prelude Json RoutePolicy Drex ModelCall CallCosts Provider.
#[local] Open Scope Z_scope.

(** ** The ledger *)

Record QuotaState : Type := mkQuota {
  qs_provider : string;
  qs_rate_group : string;
  qs_window_start_unix : Z;
  qs_window_seconds : Z;
  qs_tokens_used : Z;
  qs_requests : Z;
  qs_updated_at_unix : Z;
}.

Record RemainingBudget : Type := mkRemaining {
  rb_provider : string;
  rb_rate_group : string;
  rb_window_seconds : Z;
  rb_token_limit : Z;
  rb_tokens_used : Z;
  rb_tokens_remaining : Z;
  rb_requests : Z;
  rb_window_resets_at_unix : Z;
  rb_exhausted : bool;
}.

(** The table [quota_state], by its primary key. *)
Notation Ledger := (gmap (string * string) QuotaState).

Definition i64_max : Z := 2 ^ 63 - 1.

(** [saturating_add] and [saturating_sub] of [i64]s; [+] as released builds
    compute it. *)
Definition i64_clamp (z : Z) : Z := Z.max (- 2 ^ 63) (Z.min z i64_max).
Definition i64_wrap (z : Z) : Z := (z + 2 ^ 63) mod 2 ^ 64 - 2 ^ 63.

Definition quota_key (s : QuotaState) : string * string := (qs_provider s, qs_rate_group s).

(** A statement fails as a whole: [fault] is what SQLite reports. *)
Definition upsert_quota (fault : option string) (l : Ledger) (s : QuotaState) : Ledger * result string unit :=
  match fault with Some e => (l, Err e) | None => (<[quota_key s := s]> l, Ok tt) end.

Definition get_quota (fault : option string) (l : Ledger) (provider rate_group : string)
    : result string (option QuotaState) :=
  match fault with Some e => Err e | None => Ok (l !! (provider, rate_group)) end.

(** The window a state is in, until when. *)
Definition window_end (s : QuotaState) : Z := i64_clamp (qs_window_start_unix s + qs_window_seconds s).
Definition in_window (now_unix : Z) (s : QuotaState) : bool := now_unix <? window_end s.

Definition counted (existing : option QuotaState) (provider rate_group : string) (window_seconds tokens requests now_unix : Z)
    : QuotaState :=
  let '(window_start, tokens_used, reqs) :=
    match existing with
    | Some s => if in_window now_unix s
                then (qs_window_start_unix s, i64_wrap (qs_tokens_used s + tokens), i64_wrap (qs_requests s + requests))
                else (now_unix, tokens, requests)
    | None => (now_unix, tokens, requests)
    end in
  mkQuota provider rate_group window_start window_seconds tokens_used reqs now_unix.

(** The two statements under one lock. *)
Definition record_use (select insert : option string) (l : Ledger) (provider rate_group : string)
    (window_seconds tokens requests now_unix : Z) : Ledger * result string QuotaState :=
  match get_quota select l provider rate_group with
  | Err e => (l, Err e)
  | Ok existing =>
      let state := counted existing provider rate_group window_seconds tokens requests now_unix in
      match upsert_quota insert l state with
      | (l', Ok _) => (l', Ok state)
      | (l', Err e) => (l', Err e)
      end
  end.

Definition remaining_budget (fault : option string) (l : Ledger) (provider rate_group : string)
    (window_seconds token_limit now_unix : Z) : result string RemainingBudget :=
  existing ← get_quota fault l provider rate_group;
  let '(tokens_used, requests, window_resets_at_unix) :=
    match existing with
    | Some s => if in_window now_unix s then (Z.max (qs_tokens_used s) 0, Z.max (qs_requests s) 0, window_end s)
                else (0, 0, i64_clamp (now_unix + window_seconds))
    | None => (0, 0, i64_clamp (now_unix + window_seconds))
    end in
  let tokens_remaining := if token_limit <=? 0 then 0 else Z.max (i64_clamp (token_limit - tokens_used)) 0 in
  Ok (mkRemaining provider rate_group window_seconds token_limit tokens_used tokens_remaining requests window_resets_at_unix
        ((0 <? token_limit) && (tokens_remaining =? 0))).

(** [ORDER BY provider, rate_group], in byte order. *)
Definition by_quota_key (a b : QuotaState) : comparison :=
  then_cmp (String.compare (qs_provider a) (qs_provider b)) (String.compare (qs_rate_group a) (qs_rate_group b)).

Definition list_quotas (fault : option string) (l : Ledger) : result string (list QuotaState) :=
  match fault with Some e => Err e | None => Ok (sort_by by_quota_key (map snd (map_to_list l))) end.

(** ** What a turn asks (crates/heiwa_mcp/src/tools.rs) *)

Record RouteInput : Type := mkInput {
  ri_intent : string;
  ri_prompt : string;
  ri_hints : json;
  ri_min_capability : option Z;
  ri_max_cost_usd : option Z;
  ri_est_output_tokens : option Z;
}.

Definition DEFAULT_OUTPUT_TOKENS : Z := 800.

Definition est_input_tokens (input : RouteInput) : Z := Z.max (str_len (ri_prompt input) / 4) 1 mod 2 ^ 32.
Definition output_tokens (input : RouteInput) : Z := default DEFAULT_OUTPUT_TOKENS (ri_est_output_tokens input).

Definition required_capability (input : RouteInput) : Z :=
  match ri_min_capability input with
  | Some c => Z.max 1 (Z.min c 5)
  | None =>
      let intent := to_ascii_lowercase (ri_intent input) in
      let one_of names := existsb (λ name, bool_decide (intent = name)) names in
      if one_of ["trivial"; "classify"; "extract"; "format"] then 1
      else if one_of ["chat"; "summarize"; "summarise"] then 2
      else if one_of ["code"; "review"; "research"; "general"] then 3
      else if one_of ["architect"; "design"; "strategy"; "audit"] then 4
      else 2
  end.

(** ** The selection policy *)

Definition DEFAULT_REFRESH_SKEW_SECONDS : Z := 120.

Record RateGroupBudget : Type := mkRateBudget { token_ceiling : Z; request_ceiling : Z }.

Definition default_budget_for (rate_group : string) : option RateGroupBudget :=
  let named name := bool_decide (rate_group = name) in
  if named "anthropic_api" then Some (mkRateBudget 400000 1000)
  else if named "anthropic_sub" then Some (mkRateBudget 1000000 10000)
  else if named "openai_api" then Some (mkRateBudget 400000 1000)
  else if named "openai_sub" then Some (mkRateBudget 1000000 10000)
  else if named "google" || named "google_bonus" then Some (mkRateBudget 2000000 100000)
  else if named "local" then None
  else Some (mkRateBudget 200000 500).

Definition f64_of (n : Z) : Z := bits_of_spec (f64_int n).
Definition f64_div (a b : Z) : Z := bits_of_spec (fdiv (spec_of_bits a) (spec_of_bits b)).

Definition estimate_turn_cost (model : DetectedModel) (in_ktok out_ktok : Z) : Z :=
  f64_add (f64_mul (dm_cost_per_1k_input model) in_ktok) (f64_mul (dm_cost_per_1k_output model) out_ktok).

(** [Iterator::min_by]: the first of the least. *)
Definition min_by {A} (cmp : A → A → comparison) (l : list A) : option A :=
  match l with
  | [] => None
  | x :: l => Some (foldl (λ best y, match cmp best y with Gt => y | _ => best end) x l)
  end.

Definition cost_cmp (a b : Z) : comparison := default Eq (f64_partial_cmp a b).

Definition by_cost (a b : DetectedModel * Z) : comparison :=
  then_cmp (cost_cmp a.2 b.2) (Z.compare (dm_capability_class a.1) (dm_capability_class b.1)).

Definition is_known (m : DetectedModel) : bool := bool_decide (dm_price_truth m = Known).

Definition within (max_cost_usd : option Z) (cost : Z) : bool :=
  match max_cost_usd with None => true | Some ceiling => f64_leb cost ceiling end.

Definition cheapest_qualifying (models : list DetectedModel) (need in_ktok out_ktok : Z) (max_cost_usd : option Z)
    : option (DetectedModel * Z) :=
  let clears_the_bar := List.filter (λ m, need <=? dm_capability_class m) models in
  let priced truth := map (λ m, (m, estimate_turn_cost m in_ktok out_ktok))
                        (List.filter (λ m, Bool.eqb (is_known m) truth) clears_the_bar) in
  match min_by by_cost (List.filter (λ mc, within max_cost_usd mc.2) (priced true)) with
  | Some known => Some known
  | None =>
      match max_cost_usd with
      | Some _ => None
      | None => min_by (λ a b, Z.compare (dm_capability_class a.1) (dm_capability_class b.1)) (priced false)
      end
  end.

(** ** The router *)

(** 0.95: the use of a group from which on the router's documentation promises
    other routes; the router does not read it. *)
Definition DEFAULT_QUOTA_SATURATION_RATIO : Z := f64_div (f64_of 95) (f64_of 100).

Inductive OAuthBridgeError : Type := SecretNotFound | BridgeFailure (text : string).

Inductive Rejection : Type :=
| RejDisconnected
| RejNeedsAuth
| RejProviderError (message : string)
| RejOAuthMissingSecret
| RejVaultError (message : string)
| RejQuotaError (message : string)
| RejQuotaExhausted (saturation : Z).

Record PricedAccount : Type := mkPricedAccount {
  ca_account : ProviderAccount;
  ca_saturation : Z;
  ca_needs_refresh : bool;
  ca_rejection : option Rejection;
}.

Definition ineligible (account : ProviderAccount) (rejection : Rejection) : PricedAccount :=
  mkPricedAccount account 0 false (Some rejection).

(** The expiry of the stored secret. *)
Definition needs_refresh (expires_at_unix : option Z) (now_unix skew_seconds : Z) : bool :=
  match expires_at_unix with None => false | Some exp => exp <=? saturating_add u64_max now_unix skew_seconds end.

Definition rank (account : ProviderAccount) : Z :=
  if bool_decide (pa_rate_group account = "local") then 0
  else match pa_credential account with LocalRuntime _ => 0 | OauthCli _ => 1 | OAuth _ => 2 | ApiKey => 3 end.

Definition connected_providers (accounts : Accounts) : list string :=
  foldl (λ seen a, if bool_decide (pa_status a = Connected) && negb (bool_decide (pa_provider a ∈ seen))
                   then seen ++ [pa_provider a] else seen) [] accounts.

Inductive RoutingError : Type := NoAccounts | NoEligibleCandidate (reason : string).

Record RouteDecision : Type := mkRouted { rd_provider : string; rd_model_id : string; rd_rationale : string }.

Section router.
Variable vault : string → result OAuthBridgeError (option Z).
Variable quota : string → string → result string (option QuotaState).

(** The text of a float: [Some n] digits after the point, or its shortest. *)
Variable float_text : option nat → Z → string.

Definition quota_saturation (provider rate_group : string) : result string Z :=
  match default_budget_for rate_group with
  | None => Ok 0
  | Some budget =>
      state ← quota provider rate_group;
      match state with
      | None => Ok 0
      | Some state =>
          let token_ratio := f64_div (f64_of (qs_tokens_used state)) (f64_of (Z.max (token_ceiling budget) 1)) in
          let req_ratio := f64_div (f64_of (qs_requests state)) (f64_of (Z.max (request_ceiling budget) 1)) in
          Ok (f64_max token_ratio req_ratio)
      end
  end.

Definition headroom (account : ProviderAccount) (needs_refresh_flag : bool) : PricedAccount :=
  match quota_saturation (pa_provider account) (pa_rate_group account) with
  | Err e => ineligible account (RejQuotaError e)
  | Ok saturation =>
      mkPricedAccount account saturation needs_refresh_flag
        (if f64_leb (f64_of 1) saturation then Some (RejQuotaExhausted saturation) else None)
  end.

Definition evaluate_account (account : ProviderAccount) (now : Z) : PricedAccount :=
  match pa_status account with
  | Disconnected => ineligible account RejDisconnected
  | NeedsAuth => ineligible account RejNeedsAuth
  | StatusError message => ineligible account (RejProviderError message)
  | Connected =>
      match pa_credential account with
      | OAuth _ =>
          match vault (pa_account_id account) with
          | Ok expires => headroom account (needs_refresh expires now DEFAULT_REFRESH_SKEW_SECONDS)
          | Err SecretNotFound => ineligible account RejOAuthMissingSecret
          | Err (BridgeFailure text) => ineligible account (RejVaultError text)
          end
      | _ => headroom account false
      end
  end.

(** The accounts of the connected providers with their verdicts, and Ollama's
    that are disconnected, for inspection. *)
Definition candidates (accounts : Accounts) (now : Z) : list PricedAccount :=
  map (λ account, evaluate_account account now)
    (concat (map (accounts_for accounts) (connected_providers accounts)) ++
     List.filter (λ a, bool_decide (pa_status a = Disconnected)) (accounts_for accounts "ollama")).

Definition rejection_text (r : Rejection) : string :=
  match r with
  | RejDisconnected => "disconnected"
  | RejNeedsAuth => "needs_auth"
  | RejProviderError message => "provider_error:" +:+ message
  | RejOAuthMissingSecret => "oauth_missing_secret"
  | RejVaultError message => "vault_error:" +:+ message
  | RejQuotaError message => "quota_error:" +:+ message
  | RejQuotaExhausted saturation => "quota_exhausted:" +:+ float_text (Some 2%nat) saturation
  end.

(** [names.sort(); names.dedup()], then each account once. *)
Definition walked (accounts : Accounts) : Accounts :=
  let providers := merge_sort String.le (remove_dups (connected_providers accounts)) in
  foldl (λ all account, if bool_decide (pa_account_id account ∈ map pa_account_id all) then all else all ++ [account])
    [] (concat (map (accounts_for accounts) providers)).

Definition Priced : Type := PricedAccount * DetectedModel * Z.

Definition price_order (a b : Priced) : comparison :=
  match dm_price_truth a.1.2, dm_price_truth b.1.2 with
  | Known, PriceUnknown => Lt
  | PriceUnknown, Known => Gt
  | Known, Known => cost_cmp a.2 b.2
  | PriceUnknown, PriceUnknown => Z.compare (dm_capability_class a.1.2) (dm_capability_class b.1.2)
  end.

Definition priced_cmp (a b : Priced) : comparison :=
  then_cmp (price_order a b)
    (then_cmp (cost_cmp (ca_saturation a.1.1) (ca_saturation b.1.1))
       (then_cmp (Z.compare (rank (ca_account a.1.1)) (rank (ca_account b.1.1)))
          (String.compare (pa_account_id (ca_account a.1.1)) (pa_account_id (ca_account b.1.1))))).

Definition ktok (tokens : Z) : Z := f64_div (f64_of tokens) (f64_of 1000).

Definition price_candidates (eligible : list PricedAccount) (input : RouteInput) : list Priced :=
  omap (λ cand,
      '(m, cost) ← cheapest_qualifying (pa_models (ca_account cand)) (required_capability input)
                     (ktok (est_input_tokens input)) (ktok (output_tokens input)) (ri_max_cost_usd input);
      Some (cand, m, cost)) eligible.

Definition render_est_cost (model : DetectedModel) (cost : Z) : string :=
  match dm_price_truth model with Known => "$" +:+ float_text (Some 5%nat) cost | PriceUnknown => "unknown" end.

Definition bool_text (b : bool) : string := if b then "true" else "false".

Definition rationale (input : RouteInput) (chosen : Priced) (considered : nat) : string :=
  let '(cand, model, est_cost) := chosen in
  "intent=" +:+ ri_intent input +:+ " need_cap=" +:+ pretty (required_capability input) +:+
  " chose_cap=" +:+ pretty (dm_capability_class model) +:+ " est_cost=" +:+ render_est_cost model est_cost +:+
  " rank=" +:+ pretty (rank (ca_account cand)) +:+ " rate_group=" +:+ pa_rate_group (ca_account cand) +:+
  " saturation=" +:+ float_text (Some 2%nat) (ca_saturation cand) +:+ " account=" +:+ pa_account_id (ca_account cand) +:+
  " needs_refresh=" +:+ bool_text (ca_needs_refresh cand) +:+ " considered=" +:+ pretty considered.

Definition best_class (eligible : list PricedAccount) : option Z :=
  foldl (λ best c, Some (match best with Some b => Z.max b c | None => c end)) None
    (map dm_capability_class (concat (map (λ c, pa_models (ca_account c)) eligible))).

Definition nothing_qualifies (eligible : list PricedAccount) (input : RouteInput) : string :=
  let need := required_capability input in
  match best_class eligible with
  | Some h =>
      if h <? need
      then "task needs capability_class >= " +:+ pretty need +:+ ", best available is " +:+ pretty h
      else match ri_max_cost_usd input with
           | Some c => "no candidate at capability >= " +:+ pretty need +:+ " under $" +:+ float_text None c
           | None => "no model at capability_class >= " +:+ pretty need
           end
  | None =>
      match ri_max_cost_usd input with
      | Some c => "no candidate at capability >= " +:+ pretty need +:+ " under $" +:+ float_text None c
      | None => "no model at capability_class >= " +:+ pretty need
      end
  end.

Definition evaluated (accounts : Accounts) (now : Z) : list PricedAccount :=
  map (λ account, evaluate_account account now) (walked accounts).

Definition eligible_of (all : list PricedAccount) : list PricedAccount :=
  List.filter (λ c, match ca_rejection c with None => true | Some _ => false end) all.

Definition decide_route (accounts : Accounts) (now : Z) (input : RouteInput) : result RoutingError RouteDecision :=
  let all := evaluated accounts now in
  match all with
  | [] => Err NoAccounts
  | _ =>
      let eligible := eligible_of all in
      match eligible with
      | [] =>
          Err (NoEligibleCandidate (String.concat ", "
                 (omap (λ c, r ← ca_rejection c; Some (pa_account_id (ca_account c) +:+ "=" +:+ rejection_text r)) all)))
      | _ =>
          let priced := price_candidates eligible input in
          match sort_by priced_cmp priced with
          | [] => Err (NoEligibleCandidate (nothing_qualifies eligible input))
          | chosen :: _ =>
              Ok (mkRouted (pa_provider (ca_account chosen.1.1)) (dm_model_id chosen.1.2)
                    (rationale input chosen (length priced)))
          end
      end
  end.

End router.

(** ** What a window holds *)

Record Use : Type := mkUse { us_tokens : Z; us_requests : Z; us_now : Z }.

Definition record_all (l : Ledger) (provider rate_group : string) (window_seconds : Z) (uses : list Use) : Ledger :=
  foldl (λ l u, (record_use None None l provider rate_group window_seconds (us_tokens u) (us_requests u) (us_now u)).1) l uses.

Definition sum_of (f : Use → Z) (uses : list Use) : Z := foldr (λ u s, f u + s) 0 uses.

Lemma sum_of_app f l l' : sum_of f (l ++ l') = sum_of f l + sum_of f l'.
Proof. induction l as [|u l IH]; simpl; [done|]. rewrite IH. lia. Qed.

Lemma sum_of_nonneg f l : Forall (λ u, 0 ≤ f u) l → 0 ≤ sum_of f l.
Proof. induction 1; simpl; lia. Qed.

Lemma i64_wrap_id z : - 2 ^ 63 ≤ z < 2 ^ 63 → i64_wrap z = z.
Proof. intros Hz. unfold i64_wrap. rewrite Z.mod_small by lia. lia. Qed.

Lemma record_all_snoc l p g w uses u :
  record_all l p g w (uses ++ [u]) =
  <[(p, g) := counted (record_all l p g w uses !! (p, g)) p g w (us_tokens u) (us_requests u) (us_now u)]> (record_all l p g w uses).
Proof.
  unfold record_all. rewrite foldl_app. cbn [foldl record_use get_quota upsert_quota fst]. f_equal.
  unfold quota_key, counted. by destruct (match _ with Some _ => _ | None => _ end) as [[? ?] ?].
Qed.

Lemma record_all_other l p g w uses k : (p, g) ≠ k → record_all l p g w uses !! k = l !! k.
Proof.
  intros Hk. induction uses as [|u uses IH] using rev_ind; [done|]. by rewrite record_all_snoc, lookup_insert_ne.
Qed.

(** Where a window began, and what it holds. *)
Definition holds (w : Z) (within : list Use) (s : QuotaState) : Prop :=
  ∃ u rest, within = u :: rest ∧ qs_window_start_unix s = us_now u ∧ qs_window_seconds s = w ∧
    qs_tokens_used s = sum_of us_tokens within ∧ qs_requests s = sum_of us_requests within ∧
    Forall (λ v, us_now v < i64_clamp (us_now u + w)) rest.

Lemma window_step w within s p g u :
  holds w within s → qs_window_seconds s = w →
  Forall (λ u, 0 ≤ us_tokens u ∧ 0 ≤ us_requests u) (within ++ [u]) →
  sum_of us_tokens (within ++ [u]) < 2 ^ 63 → sum_of us_requests (within ++ [u]) < 2 ^ 63 →
  let s' := counted (Some s) p g w (us_tokens u) (us_requests u) (us_now u) in
  (in_window (us_now u) s = true ∧ holds w (within ++ [u]) s') ∨
  (in_window (us_now u) s = false ∧ holds w [u] s').
Proof.
  intros (u0 & rest & -> & Hs & Hw & Ht & Hr & Hrest) _ Hnn Hst Hsr s'. subst s'. unfold counted.
  apply Forall_and in Hnn as [Hn1 Hn2]. apply sum_of_nonneg in Hn1, Hn2. rewrite !sum_of_app in *. simpl in Hst, Hsr, Hn1, Hn2.
  destruct (in_window (us_now u) s) eqn:Hin; [left|right]; (split; [done|]).
  - exists u0, (rest ++ [u]). cbn [qs_window_start_unix qs_window_seconds qs_tokens_used qs_requests].
    rewrite Ht, Hr, !i64_wrap_id by (simpl; lia). rewrite !sum_of_app. split_and!; [done..|simpl; lia|simpl; lia|].
    apply Forall_app. split; [done|]. apply Forall_singleton. unfold in_window, window_end in Hin.
    rewrite Hs, Hw in Hin. by apply Z.ltb_lt.
  - exists u, []. split_and!; try done; simpl; lia.
Qed.

Lemma window_split (l : Ledger) (provider rate_group : string) (window_seconds : Z) (uses : list Use) :
  l !! (provider, rate_group) = None → uses ≠ [] →
  Forall (λ u, 0 ≤ us_tokens u ∧ 0 ≤ us_requests u) uses →
  sum_of us_tokens uses < 2 ^ 63 → sum_of us_requests uses < 2 ^ 63 →
  ∃ before within s, uses = before ++ within ∧
    record_all l provider rate_group window_seconds uses !! (provider, rate_group) = Some s ∧
    holds window_seconds within s ∧
    (∀ previous u, record_all l provider rate_group window_seconds before !! (provider, rate_group) = Some previous →
       head within = Some u → window_end previous ≤ us_now u).
Proof.
  intros Hl Hne Hnn Hst Hsr. induction uses as [|u uses IH] using rev_ind; [done|]. rewrite record_all_snoc, lookup_insert_eq.
  apply Forall_app in Hnn as [Hnn Hu]. pose proof Hnn as Hnn'. apply Forall_and in Hnn' as [Hn1 Hn2]. apply sum_of_nonneg in Hn1, Hn2.
  destruct (decide (uses = [])) as [->|Hne'].
  { exists [], [u], (counted None provider rate_group window_seconds (us_tokens u) (us_requests u) (us_now u)).
    unfold record_all. cbn [foldl]. rewrite Hl. split_and!; try done. exists u, []. split_and!; try done; simpl; lia. }
  pose proof Hu as [Hu1 Hu2]%Forall_singleton. rewrite sum_of_app in Hst, Hsr. simpl in Hst, Hsr.
  destruct IH as (before & within & s & -> & Hs & Hh & Hb); [done|done|lia|lia|]. rewrite Hs. rewrite !sum_of_app in Hst, Hsr.
  apply Forall_app in Hnn as [Hnb Hnw]. rewrite !sum_of_app in Hn1, Hn2.
  assert (0 ≤ sum_of us_tokens before ∧ 0 ≤ sum_of us_requests before) as [Hp1 Hp2].
  { apply Forall_and in Hnb as [??]. split; by apply sum_of_nonneg. }
  destruct (window_step window_seconds within s provider rate_group u Hh) as [[Hin Hh']|[Hin Hh']].
  - by destruct Hh as (? & ? & _ & _ & ? & _).
  - by apply Forall_app.
  - rewrite sum_of_app. simpl. lia.
  - rewrite sum_of_app. simpl. lia.
  - exists before, (within ++ [u]). eexists. rewrite app_assoc. split_and!; [done|done|exact Hh'|].
    intros previous v Hp Hv. apply (Hb previous v Hp). by destruct Hh as (? & ? & -> & _).
  - exists (before ++ within), [u]. eexists. split_and!; [done|done|exact Hh'|].
    intros previous v Hp [= <-]. rewrite Hs in Hp. injection Hp as <-. by apply Z.ltb_ge.
Qed.

(** C28. A window is its uses.  After any sequence of uses of a rate group that the
    ledger had not seen, its row holds the sums of exactly the uses since one
    of them that found no window open, all of them before the end of the window
    that one began; the budget left is the limit less that sum while the window
    lasts and the whole limit after it; and no other row has changed. *)
Theorem a_window_is_its_uses (l : Ledger) (provider rate_group : string) (window_seconds : Z) (uses : list Use) :
  l !! (provider, rate_group) = None → uses ≠ [] →
  Forall (λ u, 0 ≤ us_tokens u ∧ 0 ≤ us_requests u) uses →
  sum_of us_tokens uses < 2 ^ 63 → sum_of us_requests uses < 2 ^ 63 →
  let l' := record_all l provider rate_group window_seconds uses in
  ∃ before within s, uses = before ++ within ∧ l' !! (provider, rate_group) = Some s ∧
    holds window_seconds within s ∧
    (∀ previous u, record_all l provider rate_group window_seconds before !! (provider, rate_group) = Some previous →
       head within = Some u → window_end previous ≤ us_now u) ∧
    (∀ limit now, 0 < limit < 2 ^ 63 →
       rb_tokens_remaining <$> result_ok (remaining_budget None l' provider rate_group window_seconds limit now) =
       Some (if now <? window_end s then Z.max (limit - sum_of us_tokens within) 0 else limit)) ∧
    (∀ k, k ≠ (provider, rate_group) → l' !! k = l !! k).
Proof.
  intros Hl Hne Hnn Hst Hsr l'.
  destruct (window_split l provider rate_group window_seconds uses) as (before & within & s & Hu & Hs & Hh & Hb); [done..|].
  fold l' in Hs. exists before, within, s. split_and!; [done..| |].
  - intros limit now Hlim. unfold remaining_budget, get_quota. rewrite Hs. cbn [mbind result_bind]. unfold in_window.
    destruct Hh as (u0 & rest & -> & Hst0 & Hw & Ht & Hr & _). rewrite Hu, sum_of_app in Hst.
    rewrite Hu in Hnn. apply Forall_app in Hnn as [Hn Hn']. apply Forall_and in Hn as [Hn1 _], Hn' as [Hn2 _].
    apply sum_of_nonneg in Hn1, Hn2. rewrite (proj2 (Z.leb_gt _ _)) by lia.
    destruct (now <? window_end s); cbn [rb_tokens_remaining result_ok fmap option_fmap option_map]; f_equal; unfold i64_clamp, i64_max; lia.
  - intros k Hk. apply record_all_other. congruence.
Qed.

(** ** Comparators *)

Lemma sort_by_ext {A} (cmp cmp' : A → A → comparison) l :
  (∀ x y, x ∈ l → y ∈ l → cmp x y = cmp' x y) → sort_by cmp l = sort_by cmp' l.
Proof.
  assert (∀ x r, (∀ y, y ∈ r → cmp x y = cmp' x y) → insert_by cmp x r = insert_by cmp' x r) as Hi.
  { intros x r. induction r as [|y r IH]; intros Hr; [done|]. simpl. rewrite Hr by (by left).
    destruct (cmp' x y); [done..|]. f_equal. apply IH. intros z Hz. apply Hr. by right. }
  induction l as [|x l IH]; intros Hl; [done|]. simpl. rewrite IH by (intros y z Hy Hz; apply Hl; by right).
  apply Hi. intros y Hy. rewrite sort_by_perm in Hy. apply Hl; [by left|by right].
Qed.

Lemma sort_by_head {A} (cmp : A → A → comparison) `{!CmpLaws cmp} l x r :
  sort_by cmp l = x :: r → x ∈ l ∧ ∀ y, y ∈ l → cmp x y ≠ Gt.
Proof.
  intros Hs. pose proof (sort_by_perm cmp l) as Hp. pose proof (sort_by_sorted cmp l) as Hd. rewrite Hs in Hp, Hd.
  split; [rewrite <-Hp; by left|]. intros y Hy. rewrite <-Hp in Hy. apply elem_of_cons in Hy as [->|Hy].
  - by rewrite cmp_refl.
  - apply StronglySorted_inv in Hd as [_ Hd]. rewrite Forall_forall in Hd. by apply Hd.
Qed.

Lemma min_by_spec {A} (cmp cmp' : A → A → comparison) `{!CmpLaws cmp'} l :
  (∀ x y, x ∈ l → y ∈ l → cmp x y = cmp' x y) →
  match min_by cmp l with
  | Some x => x ∈ l ∧ ∀ y, y ∈ l → cmp' x y ≠ Gt
  | None => l = []
  end.
Proof.
  destruct l as [|x l]; [done|]. simpl. intros Hl.
  assert (∀ seen r b, (∀ x y, x ∈ seen ++ r → y ∈ seen ++ r → cmp x y = cmp' x y) → b ∈ seen → (∀ y, y ∈ seen → cmp' b y ≠ Gt) →
    let m := foldl (λ best y, match cmp best y with Gt => y | _ => best end) b r in
    m ∈ seen ++ r ∧ ∀ y, y ∈ seen ++ r → cmp' m y ≠ Gt) as Hg.
  { clear x l Hl. intros seen r. revert seen. induction r as [|y r IH]; intros seen b Hc Hb Hm; simpl.
    { rewrite app_nil_r. done. }
    rewrite (Hc b y) by (rewrite elem_of_app, ?elem_of_cons; auto). rewrite cons_middle, app_assoc in *.
    apply IH; [done|destruct (cmp' b y); apply elem_of_app; auto; right; by left|].
    intros z [Hz| ->%list_elem_of_singleton]%elem_of_app.
    - destruct (cmp' b y) eqn:E; [by apply Hm..|]. apply (cmp_trans cmp' y b z); [|by apply Hm].
      rewrite (cmp_opp cmp' b y), E. done.
    - destruct (cmp' b y) eqn:E; [congruence..|]. by rewrite cmp_refl. }
  apply (Hg [x] l x); [done|by left|]. intros y ->%list_elem_of_singleton. by rewrite cmp_refl.
Qed.

Definition key_cmp (a b : Z) : comparison := Z.compare (f64_key a) (f64_key b).

#[export] Instance key_cmp_laws : CmpLaws key_cmp.
Proof. apply (on_cmp_laws Z.compare f64_key). Qed.

Lemma cost_cmp_key a b : f64_is_nan a = false → f64_is_nan b = false → cost_cmp a b = key_cmp a b.
Proof. intros Ha Hb. unfold cost_cmp, f64_partial_cmp. by rewrite Ha, Hb. Qed.

Lemma key_cmp_leb a b : f64_is_nan a = false → f64_is_nan b = false → key_cmp a b ≠ Gt ↔ f64_leb a b = true.
Proof.
  intros Ha Hb. unfold f64_leb, f64_partial_cmp, key_cmp. rewrite Ha, Hb. simpl. by destruct (Z.compare _ _).
Qed.

(** ** One account *)

Section qualifying.
Variables in_ktok out_ktok : Z.
Notation cost m := (estimate_turn_cost m in_ktok out_ktok).

Definition by_cost_key (a b : DetectedModel * Z) : comparison :=
  then_cmp (key_cmp a.2 b.2) (Z.compare (dm_capability_class a.1) (dm_capability_class b.1)).

#[local] Instance by_cost_key_laws : CmpLaws by_cost_key.
Proof.
  apply then_cmp_laws; [apply (on_cmp_laws key_cmp snd)|].
  apply (on_cmp_laws Z.compare (λ a : DetectedModel * Z, dm_capability_class a.1)).
Qed.

#[local] Instance by_class_laws : CmpLaws (λ a b : DetectedModel * Z, Z.compare (dm_capability_class a.1) (dm_capability_class b.1)).
Proof. apply (on_cmp_laws Z.compare (λ a : DetectedModel * Z, dm_capability_class a.1)). Qed.

(** What [cheapest_qualifying] promises of the models of one account. *)
Definition qualifies (need : Z) (max_cost_usd : option Z) (m : DetectedModel) : Prop :=
  need ≤ dm_capability_class m ∧
  match dm_price_truth m with Known => within max_cost_usd (cost m) = true | PriceUnknown => max_cost_usd = None end.

(** A known price is no higher, any known price comes before an unknown one,
    and among unknown prices the smaller model does. *)
Definition no_dearer (m m' : DetectedModel) : Prop :=
  match dm_price_truth m, dm_price_truth m' with
  | Known, Known => f64_leb (cost m) (cost m') = true
  | Known, PriceUnknown => True
  | PriceUnknown, Known => False
  | PriceUnknown, PriceUnknown => dm_capability_class m ≤ dm_capability_class m'
  end.

Lemma no_dearer_trans m m' m'' : no_dearer m m' → no_dearer m' m'' → no_dearer m m''.
Proof.
  unfold no_dearer. destruct (dm_price_truth m), (dm_price_truth m'), (dm_price_truth m''); try done; [by apply f64_leb_trans|lia].
Qed.

Definition priced_models (models : list DetectedModel) (need : Z) (truth : bool) : list (DetectedModel * Z) :=
  map (λ m, (m, cost m)) (List.filter (λ m, Bool.eqb (is_known m) truth)
                            (List.filter (λ m, need <=? dm_capability_class m) models)).

Lemma elem_of_priced models need truth x :
  x ∈ priced_models models need truth ↔
  x.1 ∈ models ∧ need ≤ dm_capability_class x.1 ∧ is_known x.1 = truth ∧ x.2 = cost x.1.
Proof.
  destruct x as [m c]. unfold priced_models. rewrite list_elem_of_In, in_map_iff. simpl. split.
  - intros (m' & [= <- <-] & [[Hm Hn]%filter_In Ht]%filter_In). apply eqb_prop in Ht. rewrite list_elem_of_In. split_and!; try done. lia.
  - intros (Hm & Hn & <- & ->). exists m. split; [done|]. apply filter_In. split; [|by rewrite eqb_reflx].
    apply filter_In. rewrite <-list_elem_of_In. split; [done|lia].
Qed.

Lemma known_iff m : is_known m = true ↔ dm_price_truth m = Known.
Proof. unfold is_known. apply bool_decide_eq_true. Qed.

Lemma unknown_iff m : is_known m = false ↔ dm_price_truth m = PriceUnknown.
Proof. unfold is_known. rewrite bool_decide_eq_false. by destruct (dm_price_truth m). Qed.

(** The best of the models whose price is known. *)
Lemma cheapest_known models need max_cost_usd :
  (∀ m, m ∈ models → f64_is_nan (cost m) = false) →
  match min_by by_cost (List.filter (λ mc, within max_cost_usd mc.2) (priced_models models need true)) with
  | Some (m, c) => m ∈ models ∧ c = cost m ∧ dm_price_truth m = Known ∧ qualifies need max_cost_usd m ∧
      ∀ m', m' ∈ models → qualifies need max_cost_usd m' → dm_price_truth m' = Known → f64_leb (cost m) (cost m') = true
  | None => ∀ m, m ∈ models → dm_price_truth m = Known → ¬ qualifies need max_cost_usd m
  end.
Proof.
  intros Hnan. set (l := List.filter (λ mc, within max_cost_usd mc.2) (priced_models models need true)).
  assert (∀ x, x ∈ l ↔ x.1 ∈ models ∧ x.2 = cost x.1 ∧ dm_price_truth x.1 = Known ∧ qualifies need max_cost_usd x.1) as Hl.
  { intros x. unfold l. rewrite list_elem_of_In, filter_In, <-list_elem_of_In, elem_of_priced, known_iff. unfold qualifies.
    split; [intros [(? & ? & Hk & Hc) Hw]; rewrite Hc in Hw|intros (? & Hc & Hk & ? & Hw)]; rewrite Hk in *; rewrite ?Hc; done. }
  pose proof (min_by_spec by_cost by_cost_key l) as Hmin. destruct (min_by by_cost l) as [[m c]|].
  - destruct Hmin as [Hm Hleast].
    { intros x y (? & Ex & _)%Hl (? & Ey & _)%Hl. unfold by_cost, by_cost_key. rewrite cost_cmp_key; rewrite ?Ex, ?Ey; auto. }
    apply Hl in Hm as (Hm & Hc & Hk & Hq). simpl in *. subst c. split_and!; [done..|]. intros m' Hm' Hq' Hk'.
    apply key_cmp_leb; [by apply Hnan..|]. intros Hg. apply (Hleast (m', cost m')); [by apply Hl|].
    unfold by_cost_key. simpl. by rewrite Hg.
  - intros m Hm Hk Hq. rewrite Hmin in Hl.
    + by apply (elem_of_nil (m, cost m)), Hl.
    + intros x y (? & Ex & _)%Hl (? & Ey & _)%Hl. unfold by_cost, by_cost_key. rewrite cost_cmp_key; rewrite ?Ex, ?Ey; auto.
Qed.

Lemma cheapest_spec models need max_cost_usd :
  (∀ m, m ∈ models → f64_is_nan (cost m) = false) →
  match cheapest_qualifying models need in_ktok out_ktok max_cost_usd with
  | Some (m, c) => m ∈ models ∧ c = cost m ∧ qualifies need max_cost_usd m ∧
      ∀ m', m' ∈ models → qualifies need max_cost_usd m' →
        no_dearer m m'
  | None => ∀ m, m ∈ models → ¬ qualifies need max_cost_usd m
  end.
Proof.
  intros Hnan. unfold cheapest_qualifying. fold (priced_models models need true) (priced_models models need false).
  pose proof (cheapest_known models need max_cost_usd Hnan) as Hknown.
  destruct (min_by by_cost _) as [[m c]|].
  { destruct Hknown as (Hm & -> & Hk & Hq & Hleast). split_and!; [done..|]. intros m' Hm' Hq'.
    unfold no_dearer. rewrite Hk. destruct (dm_price_truth m') eqn:Hk'; [by apply Hleast|done]. }
  destruct max_cost_usd as [ceiling|].
  { intros m Hm Hq. apply (Hknown m); try done. destruct Hq as [_ Hq]. by destruct (dm_price_truth m). }
  pose proof (min_by_spec (λ a b : DetectedModel * Z, Z.compare (dm_capability_class a.1) (dm_capability_class b.1)) _
    (priced_models models need false) (λ _ _ _ _, eq_refl)) as Hmin.
  destruct (min_by _ _) as [[m c]|].
  - destruct Hmin as [(Hm & Hn & Hk & Hc)%elem_of_priced Hleast]. simpl in *. apply unknown_iff in Hk.
    split_and!; [done|done|by split; rewrite ?Hk|]. intros m' Hm' Hq'. unfold no_dearer. rewrite Hk. destruct (dm_price_truth m') eqn:Hk'.
    + by apply (Hknown m').
    + specialize (Hleast (m', cost m')). simpl in Hleast. rewrite Z.compare_gt_iff in Hleast.
      apply Z.le_ngt, Hleast, elem_of_priced. simpl. destruct Hq'. by rewrite unknown_iff.
  - intros m Hm Hq. destruct (dm_price_truth m) eqn:Hk; [by apply (Hknown m)|].
    apply (elem_of_nil (m, cost m)). rewrite <-Hmin. apply elem_of_priced. simpl. destruct Hq. by rewrite unknown_iff.
Qed.

End qualifying.

(** ** The accounts walked *)

Lemma elem_of_connected accounts p :
  p ∈ connected_providers accounts ↔ ∃ a, a ∈ accounts ∧ pa_status a = Connected ∧ pa_provider a = p.
Proof.
  unfold connected_providers. induction accounts as [|a accounts IH] using rev_ind.
  { simpl. split; [by intros ?%elem_of_nil|by intros (? & ?%elem_of_nil & _)]. }
  rewrite foldl_app. simpl. set (seen := foldl _ _ accounts) in *. split.
  - intros Hp. assert (p ∈ seen ∨ (pa_status a = Connected ∧ p = pa_provider a)) as [Hs|[Hs ->]].
    { destruct (bool_decide_reflect (pa_status a = Connected)); simpl in Hp; [|by left].
      destruct (bool_decide (pa_provider a ∈ seen)); simpl in Hp; [by left|].
      apply elem_of_app in Hp as [|Hp%list_elem_of_singleton]; auto. }
    + apply IH in Hs as (b & ? & ? & ?). exists b. rewrite elem_of_app. auto.
    + exists a. rewrite elem_of_app, list_elem_of_singleton. auto.
  - intros (b & [Hb| ->%list_elem_of_singleton]%elem_of_app & Hs & <-).
    + assert (pa_provider b ∈ seen) by (apply IH; eauto). destruct (_ && _); [apply elem_of_app; by left|done].
    + rewrite bool_decide_true by done. simpl. destruct (bool_decide_reflect (pa_provider a ∈ seen)); [done|].
      apply elem_of_app. right. by left.
Qed.

Lemma elem_of_walked accounts a :
  NoDup (map pa_account_id accounts) →
  a ∈ walked accounts ↔ a ∈ accounts ∧ pa_provider a ∈ connected_providers accounts.
Proof.
  intros Hnd. unfold walked. set (l := concat _).
  assert (∀ b, b ∈ l ↔ b ∈ accounts ∧ pa_provider b ∈ connected_providers accounts) as Hl.
  { intros b. unfold l. rewrite list_elem_of_In, in_concat. split.
    - intros (bs & (p & <- & Hp)%in_map_iff & Hb). apply list_elem_of_In in Hp, Hb. unfold accounts_for in Hb.
      apply list_elem_of_filter in Hb as [<- Hb]. rewrite merge_sort_Permutation, elem_of_remove_dups in Hp. done.
    - intros [Hb Hp]. exists (accounts_for accounts (pa_provider b)). rewrite in_map_iff, <-list_elem_of_In. split.
      + exists (pa_provider b). split; [done|]. apply list_elem_of_In. by rewrite merge_sort_Permutation, elem_of_remove_dups.
      + unfold accounts_for. by apply list_elem_of_filter. }
  rewrite <-Hl. assert (∀ x y, x ∈ accounts → y ∈ accounts → pa_account_id x = pa_account_id y → x = y) as Hinj.
  { intros x y [i Hi]%list_elem_of_lookup [j Hj]%list_elem_of_lookup Heq.
    assert (i = j) as ->; [|congruence]. eapply (NoDup_lookup _ i j (pa_account_id x) Hnd); rewrite list_lookup_fmap; [by rewrite Hi|].
    rewrite Hj, Heq. done. }
  assert (∀ r acc, (∀ b, b ∈ acc ++ r → b ∈ accounts) →
    a ∈ foldl (λ all account, if bool_decide (pa_account_id account ∈ map pa_account_id all) then all else all ++ [account]) acc r
      ↔ a ∈ acc ∨ a ∈ r) as Hg; [|rewrite Hg; [set_solver|intros b Hb; by apply Hl in Hb as [? _]]].
  clear l Hl. intros r. induction r as [|x r IH]; intros acc Hr; simpl; [set_solver|].
  case_bool_decide as Hx.
  - apply list_elem_of_fmap in Hx as (y & Hy & Hya). assert (x = y) as ->.
    { apply Hinj; [apply Hr, elem_of_app; right; by left|apply Hr, elem_of_app; by left|done]. }
    rewrite IH by (intros b Hb; apply Hr; set_solver). set_solver.
  - rewrite IH by (intros b Hb; apply Hr; set_solver). set_solver.
Qed.

(** ** The route *)

Section routed.
Variable vault : string → result OAuthBridgeError (option Z).
Variable quota : string → string → result string (option QuotaState).
Variable float_text : option nat → Z → string.
Variables (accounts : Accounts) (now : Z) (input : RouteInput).

Notation in_ktok := (ktok (est_input_tokens input)).
Notation out_ktok := (ktok (output_tokens input)).
Notation cost m := (estimate_turn_cost m in_ktok out_ktok).
Notation asked := (qualifies in_ktok out_ktok (required_capability input) (ri_max_cost_usd input)).

(** An account a turn can use: evaluated without a rejection. *)
Definition usable (a : ProviderAccount) : Prop :=
  a ∈ accounts ∧ ca_rejection (evaluate_account vault quota a now) = None.

(** The estimates and the saturations are numbers. *)
Definition measured : Prop :=
  Forall (λ a, Forall (λ m, f64_is_nan (cost m) = false) (pa_models a) ∧
               f64_is_nan (ca_saturation (evaluate_account vault quota a now)) = false) accounts.

Lemma evaluated_account a : ca_account (evaluate_account vault quota a now) = a.
Proof.
  unfold evaluate_account, headroom. destruct (pa_status a), (pa_credential a); try done;
    repeat (case_match; try done).
Qed.

Lemma usable_connected a : usable a → pa_status a = Connected.
Proof. intros [_ Hr]. unfold evaluate_account in Hr. by destruct (pa_status a). Qed.

Notation eligible := (eligible_of (evaluated vault quota accounts now)).
Notation priced := (price_candidates eligible input).

Hypothesis ids : NoDup (map pa_account_id accounts).

Lemma elem_of_eligible c : c ∈ eligible ↔ ∃ a, c = evaluate_account vault quota a now ∧ usable a.
Proof.
  unfold eligible_of, evaluated. rewrite list_elem_of_In, filter_In, in_map_iff. split.
  - intros [(a & <- & Ha) Hr]. rewrite <-list_elem_of_In, elem_of_walked in Ha by done. exists a. split; [done|].
    split; [apply Ha|]. by destruct (ca_rejection _).
  - intros (a & -> & Ha). split; [|by destruct Ha as [_ ->]]. exists a. split; [done|].
    rewrite <-list_elem_of_In, elem_of_walked by done. split; [apply Ha|]. apply elem_of_connected. exists a.
    split; [apply Ha|]. split; [by apply usable_connected|done].
Qed.

Lemma elem_of_candidates x :
  x ∈ priced ↔ ∃ a, usable a ∧ x.1.1 = evaluate_account vault quota a now ∧
    cheapest_qualifying (pa_models a) (required_capability input) in_ktok out_ktok (ri_max_cost_usd input) = Some (x.1.2, x.2).
Proof.
  destruct x as [[c m] k]. unfold price_candidates. rewrite list_elem_of_omap. simpl. split.
  - intros (c' & (a & -> & Ha)%elem_of_eligible & Hx). rewrite evaluated_account in Hx.
    destruct (cheapest_qualifying _ _ _ _ _) as [[m' k']|] eqn:Hc; [|done]. injection Hx as <- <- <-. by exists a.
  - intros (a & Ha & -> & Hc). exists (evaluate_account vault quota a now). split; [apply elem_of_eligible; eauto|].
    by rewrite evaluated_account, Hc.
Qed.

(** The order of candidates, over numbers. *)
Definition price_tag (x : Priced) : Z := match dm_price_truth x.1.2 with Known => 0 | PriceUnknown => 1 end.
Definition price_value (x : Priced) : Z :=
  match dm_price_truth x.1.2 with Known => f64_key x.2 | PriceUnknown => dm_capability_class x.1.2 end.

Definition price_key (a b : Priced) : comparison :=
  then_cmp (Z.compare (price_tag a) (price_tag b)) (Z.compare (price_value a) (price_value b)).

Definition priced_key (a b : Priced) : comparison :=
  then_cmp (price_key a b)
    (then_cmp (key_cmp (ca_saturation a.1.1) (ca_saturation b.1.1))
       (then_cmp (Z.compare (rank (ca_account a.1.1)) (rank (ca_account b.1.1)))
          (String.compare (pa_account_id (ca_account a.1.1)) (pa_account_id (ca_account b.1.1))))).

#[local] Instance priced_key_laws : CmpLaws priced_key.
Proof.
  repeat apply then_cmp_laws.
  - apply (on_cmp_laws Z.compare price_tag).
  - apply (on_cmp_laws Z.compare price_value).
  - apply (on_cmp_laws key_cmp (λ x : Priced, ca_saturation x.1.1)).
  - apply (on_cmp_laws Z.compare (λ x : Priced, rank (ca_account x.1.1))).
  - apply (on_cmp_laws String.compare (λ x : Priced, pa_account_id (ca_account x.1.1))).
Qed.

Hypothesis numbers : measured.

Lemma priced_cmp_key x y : x ∈ priced → y ∈ priced → priced_cmp x y = priced_key x y.
Proof.
  intros Hx Hy. assert (∀ z, z ∈ priced → f64_is_nan z.2 = false ∧ f64_is_nan (ca_saturation z.1.1) = false) as Hz.
  { intros z (a & [Ha Hr] & -> & Hc)%elem_of_candidates. unfold measured in numbers. rewrite Forall_forall in numbers.
    destruct (numbers a Ha) as [Hm Hs]. split; [|done].
    pose proof (cheapest_spec in_ktok out_ktok (pa_models a) (required_capability input) (ri_max_cost_usd input)) as Hspec.
    rewrite Hc in Hspec. rewrite Forall_forall in Hm. destruct (Hspec Hm) as (Hin & -> & _). by apply Hm. }
  destruct (Hz x Hx) as [Hx1 Hx2], (Hz y Hy) as [Hy1 Hy2]. unfold priced_cmp, priced_key.
  rewrite (cost_cmp_key (ca_saturation _)) by done. f_equal. unfold price_order, price_key, price_tag, price_value.
  destruct (dm_price_truth x.1.2), (dm_price_truth y.1.2); try done. by apply cost_cmp_key.
Qed.

Lemma chosen_of_account x : x ∈ priced →
  ∃ a, usable a ∧ x.1.1 = evaluate_account vault quota a now ∧ x.1.2 ∈ pa_models a ∧ x.2 = cost x.1.2 ∧ asked x.1.2 ∧
    f64_is_nan x.2 = false ∧ ∀ m, m ∈ pa_models a → asked m → no_dearer in_ktok out_ktok x.1.2 m.
Proof.
  intros (a & Ha & He & Hc)%elem_of_candidates. exists a. destruct Ha as [Ha Hr].
  unfold measured in numbers. rewrite Forall_forall in numbers. destruct (numbers a Ha) as [Hn _]. rewrite Forall_forall in Hn.
  pose proof (cheapest_spec in_ktok out_ktok (pa_models a) (required_capability input) (ri_max_cost_usd input) Hn) as Hs.
  rewrite Hc in Hs. destruct Hs as (Hm & Hk & Hq & Hb). rewrite Hk. split_and!; try done. by apply Hn.
Qed.

Lemma asked_is_priced a m : usable a → m ∈ pa_models a → asked m → ∃ x, x ∈ priced ∧ no_dearer in_ktok out_ktok x.1.2 m.
Proof.
  intros Ha Hm Hq. pose proof numbers as Hn. unfold measured in Hn. rewrite Forall_forall in Hn.
  destruct (Hn a (proj1 Ha)) as [Hn' _]. rewrite Forall_forall in Hn'.
  pose proof (cheapest_spec in_ktok out_ktok (pa_models a) (required_capability input) (ri_max_cost_usd input) Hn') as Hs.
  destruct (cheapest_qualifying _ _ _ _ _) as [[m' c]|] eqn:Hc; [|by destruct (Hs m)].
  exists (evaluate_account vault quota a now, m', c). split; [|by apply Hs]. apply elem_of_candidates. by exists a.
Qed.

Lemma first_no_dearer x y : x ∈ priced → y ∈ priced → priced_key x y ≠ Gt → no_dearer in_ktok out_ktok x.1.2 y.1.2.
Proof.
  intros (a & _ & _ & _ & Hx & _ & Hxn & _)%chosen_of_account (b & _ & _ & _ & Hy & _ & Hyn & _)%chosen_of_account Hk.
  assert (price_key x y ≠ Gt) as Hp by (unfold priced_key in Hk; intros Hg; by rewrite Hg in Hk).
  unfold price_key, price_tag, price_value in Hp. unfold no_dearer. rewrite <-Hx, <-Hy.
  destruct (dm_price_truth x.1.2), (dm_price_truth y.1.2); simpl in Hp; try done. by apply key_cmp_leb.
Qed.

(** The route of any accounts of distinct identifiers, over numbers. *)
Lemma decide_route_spec :
  match decide_route vault quota float_text accounts now input with
  | Ok d => ∃ a m, usable a ∧ m ∈ pa_models a ∧ asked m ∧ rd_provider d = pa_provider a ∧ rd_model_id d = dm_model_id m ∧
      ∀ a' m', usable a' → m' ∈ pa_models a' → asked m' →
        no_dearer in_ktok out_ktok m m'
  | Err _ => ∀ a m, usable a → m ∈ pa_models a → ¬ asked m
  end.
Proof.
  assert (∀ a m, usable a → m ∈ pa_models a → asked m → ∃ x, x ∈ priced ∧ no_dearer in_ktok out_ktok x.1.2 m) as Hsome.
  { intros a m Ha Hm Hq. by apply (asked_is_priced a). }
  assert (priced = [] → ∀ a m, usable a → m ∈ pa_models a → ¬ asked m) as Hnone.
  { intros Hp a m Ha Hm Hq. destruct (Hsome a m Ha Hm Hq) as (x & Hx & _). rewrite Hp in Hx. by apply elem_of_nil in Hx. }
  unfold decide_route. destruct (evaluated vault quota accounts now) as [|e es] eqn:Hall; [by refine (Hnone _)|].
  rewrite <-Hall in *. destruct eligible as [|g gs] eqn:Helig; [by refine (Hnone _)|]. rewrite <-Helig in *.
  rewrite (sort_by_ext priced_cmp priced_key priced priced_cmp_key).
  destruct (sort_by priced_key priced) as [|chosen rest] eqn:Hsort.
  { refine (Hnone _). apply Permutation_nil. by rewrite <-Hsort, sort_by_perm. }
  apply sort_by_head in Hsort as [Hc Hleast]; [|apply _]. pose proof Hc as (a & Ha & He & Hm & _ & Hq & _)%chosen_of_account.
  exists a, chosen.1.2. cbn [rd_provider rd_model_id]. rewrite He, evaluated_account. split_and!; [done..|].
  intros a' m' Ha' Hm' Hq'. destruct (Hsome a' m' Ha' Hm' Hq') as (x & Hx & Hxm).
  eapply no_dearer_trans; [|exact Hxm]. apply first_no_dearer; [done..|]. by apply Hleast.
Qed.

End routed.

(** ** The route, while no group is nearly spent *)

Section unsaturated.
Variable vault : string → result OAuthBridgeError (option Z).
Variable quota : string → string → result string (option QuotaState).
Variable float_text : option nat → Z → string.
Variables (accounts : Accounts) (now : Z) (input : RouteInput).

Notation in_ktok := (ktok (est_input_tokens input)).
Notation out_ktok := (ktok (output_tokens input)).
Notation asked := (qualifies in_ktok out_ktok (required_capability input) (ri_max_cost_usd input)).

(** An account that can serve: connected, with a use of its group that can be
    read and, under OAuth, a stored secret. *)
Definition serves (a : ProviderAccount) : Prop :=
  a ∈ accounts ∧ pa_status a = Connected ∧ (∃ s, quota_saturation quota (pa_provider a) (pa_rate_group a) = Ok s) ∧
  match pa_credential a with OAuth _ => ∃ expires, vault (pa_account_id a) = Ok expires | _ => True end.

(** No group of a connected account has used up the documented ratio of its
    budget. *)
Definition unsaturated : Prop :=
  ∀ a s, a ∈ accounts → pa_status a = Connected →
    quota_saturation quota (pa_provider a) (pa_rate_group a) = Ok s → f64_ltb s DEFAULT_QUOTA_SATURATION_RATIO = true.

Definition numbered : Prop :=
  ∀ a m, a ∈ accounts → m ∈ pa_models a → f64_is_nan (estimate_turn_cost m in_ktok out_ktok) = false.

Lemma below_ratio s : f64_ltb s DEFAULT_QUOTA_SATURATION_RATIO = true → f64_is_nan s = false ∧ f64_leb (f64_of 1) s = false.
Proof.
  intros Hs. assert (f64_is_nan s = false) as Hn.
  { revert Hs. unfold f64_ltb, f64_partial_cmp. by destruct (f64_is_nan s). }
  split; [done|]. destruct (f64_leb (f64_of 1) s) eqn:E; [|done].
  assert (f64_leb s DEFAULT_QUOTA_SATURATION_RATIO = true) as Hle.
  { revert Hs. unfold f64_ltb, f64_leb. by destruct (f64_partial_cmp s DEFAULT_QUOTA_SATURATION_RATIO) as [[]|]. }
  pose proof (f64_leb_trans _ _ _ E Hle) as H. vm_compute in H. discriminate H.
Qed.

Hypothesis spare : unsaturated.

Lemma headroom_spare a flag : a ∈ accounts → pa_status a = Connected →
  (ca_rejection (headroom quota a flag) = None ↔ ∃ s, quota_saturation quota (pa_provider a) (pa_rate_group a) = Ok s) ∧
  f64_is_nan (ca_saturation (headroom quota a flag)) = false.
Proof.
  intros Ha Hc. unfold headroom. destruct (quota_saturation quota (pa_provider a) (pa_rate_group a)) as [s|e] eqn:Hq.
  - destruct (below_ratio s (spare a s Ha Hc Hq)) as [Hn ->]. simpl. split; [|done]. split; [by exists s|done].
  - simpl. split; [|done]. split; [done|]. by intros [s Hs].
Qed.

(** While no group is nearly spent, an account is used exactly when it can
    serve. *)
Lemma usable_serves a : usable vault quota accounts now a ↔ serves a.
Proof.
  unfold usable, serves, evaluate_account. split.
  - intros [Ha Hr]. destruct (pa_status a) eqn:Hc; try done. split; [done|]. split; [done|].
    destruct (pa_credential a) eqn:Hk;
      try (split; [by apply (headroom_spare a false Ha Hc)|done]).
    destruct (vault (pa_account_id a)) as [expires|[]] eqn:Hv; try done.
    split; [by eapply (headroom_spare a _ Ha Hc)|by exists expires].
  - intros (Ha & Hc & Hs & Hk). split; [done|]. rewrite Hc.
    destruct (pa_credential a); try by apply (headroom_spare a false Ha Hc).
    destruct Hk as [expires ->]. by apply (headroom_spare a _ Ha Hc).
Qed.

Lemma measured_spare : numbered → measured vault quota accounts now input.
Proof.
  intros Hn. apply Forall_forall. intros a Ha. split; [apply Forall_forall; intros m Hm; by eapply Hn|].
  unfold evaluate_account. destruct (pa_status a) eqn:Hc; try done.
  destruct (pa_credential a); try by apply (headroom_spare a false Ha Hc).
  destruct (vault (pa_account_id a)) as [expires|[]]; try done. by apply (headroom_spare a _ Ha Hc).
Qed.

(** C37. The route is the cheapest that will do.  Over accounts of distinct
    identifiers, estimates that are numbers, and rate groups none of which has
    used up the documented ratio (0.95) of its budget, a route names a model of
    a connected account that can serve, as capable as the turn asks; under a
    ceiling its price is known and not above it; whenever an account that can
    serve has a capable model of known price within the ceiling, the route's
    price is known and no higher; and a model of unknown price is only taken,
    for want of such, when no capable one of an account that can serve is
    smaller.  No route means that no account that can serve has a model that
    will do. *)
Theorem the_route_is_the_cheapest :
  NoDup (map pa_account_id accounts) → numbered →
  match decide_route vault quota float_text accounts now input with
  | Ok d => ∃ a m, serves a ∧ m ∈ pa_models a ∧ asked m ∧ rd_provider d = pa_provider a ∧ rd_model_id d = dm_model_id m ∧
      ∀ a' m', serves a' → m' ∈ pa_models a' → asked m' → no_dearer in_ktok out_ktok m m'
  | Err _ => ∀ a m, serves a → m ∈ pa_models a → ¬ asked m
  end.
Proof using spare.
  intros Hids Hn. pose proof (decide_route_spec vault quota float_text accounts now input Hids (measured_spare Hn)) as Hr.
  destruct (decide_route _ _ _ _ _ _) as [d|e].
  - destruct Hr as (a & m & Ha & Hrest). exists a, m. rewrite <-usable_serves. split; [done|].
    destruct Hrest as (? & ? & ? & ? & Hb). split_and!; try done. intros a' m' Ha'%usable_serves. by apply Hb.
  - intros a m Ha%usable_serves. by apply Hr.
Qed.

End unsaturated.

(** ** At concrete inputs *)

Definition sample_uses : list Use := [mkUse 100 1 0; mkUse 50 1 10; mkUse 7 1 60; mkUse 3 2 61].

Lemma a_window_is_its_uses_witness :
  ∃ before within s, sample_uses = before ++ within ∧
    record_all ∅ "openai" "openai_api" 60 sample_uses !! ("openai", "openai_api") = Some s ∧ holds 60 within s ∧
    qs_tokens_used s = 10.
Proof.
  destruct (a_window_is_its_uses ∅ "openai" "openai_api" 60 sample_uses)
    as (before & within & s & Hu & Hs & Hh & _).
  - apply lookup_empty.
  - discriminate.
  - repeat constructor; simpl; lia.
  - vm_compute. reflexivity.
  - vm_compute. reflexivity.
  - exists before, within, s. split; [exact Hu|]. split; [exact Hs|]. split; [exact Hh|].
    assert (Some s = Some (mkQuota "openai" "openai_api" 60 60 10 3 61)) as [= ->] by (rewrite <-Hs; vm_compute; reflexivity).
    reflexivity.
Defined.

Definition sample_model (id account : string) (class input_price : Z) (truth : PriceTruth) : DetectedModel :=
  mkModel id id "p" account "g" class 8192 true true false false input_price input_price truth Verified.

Definition sample_account (id provider rate_group : string) (credential : Credential) (models : list DetectedModel) : ProviderAccount :=
  mkAccount id provider credential rate_group Connected models.

(** A small local model and two priced ones of another account. *)
Definition sample_accounts : Accounts :=
  [sample_account "api" "anthropic" "anthropic_api" ApiKey
     [sample_model "large" "api" 5 (f64_of 2) Known; sample_model "medium" "api" 3 (f64_of 1) Known];
   sample_account "here" "ollama" "local" (LocalRuntime "http://127.0.0.1:11434") [sample_model "small" "here" 2 0 Known]].

Definition no_vault (id : string) : result OAuthBridgeError (option Z) := Err SecretNotFound.
Definition plain_text (digits : option nat) (b : Z) : string := pretty b.
Definition ask (need : Z) (ceiling : option Z) : RouteInput := mkInput "chat" "hello" JNull (Some need) ceiling None.
Definition no_usage (provider rate_group : string) : result string (option QuotaState) := get_quota None ∅ provider rate_group.

Definition routed_to (r : result RoutingError RouteDecision) : result RoutingError string := rd_model_id <$> r.

Lemma the_route_is_the_cheapest_witness :
  unsaturated no_usage sample_accounts ∧
  routed_to (decide_route no_vault no_usage plain_text sample_accounts 0 (ask 3 None)) = Ok "medium" ∧
  ∃ a m, serves no_vault no_usage sample_accounts a ∧ m ∈ pa_models a ∧ dm_model_id m = "medium" ∧
    3 ≤ dm_capability_class m.
Proof.
  assert (NoDup (map pa_account_id sample_accounts)) as Hids by (apply (bool_decide_unpack _); vm_compute; exact I).
  assert (numbered sample_accounts (ask 3 None)) as Hn.
  { intros a m Ha Hm. repeat (apply elem_of_cons in Ha as [->|Ha]; [repeat (apply elem_of_cons in Hm as [->|Hm];
      [vm_compute; reflexivity|]); by apply elem_of_nil in Hm|]). by apply elem_of_nil in Ha. }
  assert (unsaturated no_usage sample_accounts) as Hs.
  { intros a s Ha _ Hq. repeat (apply elem_of_cons in Ha as [->|Ha];
      [vm_compute in Hq; injection Hq as <-; vm_compute; reflexivity|]). by apply elem_of_nil in Ha. }
  split; [exact Hs|].
  pose proof (the_route_is_the_cheapest no_vault no_usage plain_text sample_accounts 0 (ask 3 None) Hs Hids Hn) as Hr.
  destruct (decide_route no_vault no_usage plain_text sample_accounts 0 (ask 3 None)) as [d|e] eqn:Hd; [|vm_compute in Hd; discriminate Hd].
  assert (rd_model_id d = "medium") as Hm.
  { assert (routed_to (Ok d) = Ok "medium") as Hq by (rewrite <-Hd; vm_compute; reflexivity). by injection Hq. }
  split; [unfold routed_to; simpl; by rewrite Hm|].
  destruct Hr as (a & m & Ha & Hin & [Hq _] & _ & Hid & _). exists a, m. split_and!; [exact Ha|exact Hin|congruence|exact Hq].
Defined.

(** Good enough and cheapest: the local model for an easy turn, the larger only
    when asked, and nothing over the ceiling. *)
Example routes :
  let route need ceiling := routed_to (decide_route no_vault no_usage plain_text sample_accounts 0 (ask need ceiling)) in
  route 1 None = Ok "small" ∧ route 3 None = Ok "medium" ∧ route 5 None = Ok "large" ∧
  route 4 (Some (f64_of 1)) = Err (NoEligibleCandidate ("no candidate at capability >= 4 under $" +:+ pretty (f64_of 1))).
Proof. vm_compute. done. Qed.

(** What one group used in a window of a minute, at time zero. *)
Definition spent (tokens : Z) : Ledger := record_all ∅ "anthropic" "anthropic_api" 60 [mkUse tokens 1 0].
Definition usage_in (l : Ledger) (provider rate_group : string) : result string (option QuotaState) :=
  get_quota None l provider rate_group.

(** Eleven days after the window of a minute ended, the ledger has the whole
    limit left and the router still refuses the account. *)
Example an_expired_window_still_refuses :
  rb_tokens_remaining <$> remaining_budget None (spent 400000) "anthropic" "anthropic_api" 60 400000 1000000 = Ok 400000 ∧
  routed_to (decide_route no_vault (usage_in (spent 400000)) plain_text (take 1 sample_accounts) 1000000 (ask 3 None)) =
    Err (NoEligibleCandidate ("api=quota_exhausted:" +:+ pretty (f64_of 1))).
Proof. vm_compute. done. Qed.

(** At ninety-nine hundredths of its budget a group is still taken before a
    dearer one that has used nothing; with nothing else a spent group is not. *)
Example a_nearly_spent_group_is_taken :
  routed_to (decide_route no_vault (usage_in (spent 396000)) plain_text
    (sample_accounts ++ [sample_account "other" "openai" "openai_api" ApiKey [sample_model "dearer" "other" 3 (f64_of 2) Known]])
    0 (ask 3 None)) = Ok "medium".
Proof. vm_compute. reflexivity. Qed.
