(* ===== verification/LoopController.v ===== *)
(** * The loop controller (crates/heiwa_loop/src/lib.rs)

    [LoopController::run]: up to [max_turns] model calls towards an objective
    within a budget, each told what the last one answered and which models have
    failed, with the rows it hands to its journal, when it has one, and the
    statuses it reports.  The caller is an
    interface: what the loop needs of it is the contract of
    [LoopModelCaller]. *)

From stdpp Require Import base gmap sets strings numbers pretty list.
From Stdlib Require Import Ascii.
From S2P Require Import Prelude Json RoutePolicy Drex ModelCall Routing CallCosts.
#[local] Open Scope Z_scope.

(** ** Data *)

Record LoopConfig : Type := mkLoopConfig {
  lc_user_id : string;
  lc_objective : string;
  lc_max_turns : Z;
  lc_max_cost_usd : Z;
  lc_intent : string;
  lc_risk : string;
  lc_privacy : string;
  lc_runtime : string;
  lc_approved : bool;
}.

(** [heiwa_protocol::TranscriptBlock] *)
Inductive TranscriptBlock : Type :=
| BlockUser (text : string)
| BlockAssistant (text : string)
| BlockTool (name output : string)
| BlockEvidence (text : string).

Record LoopStatus : Type := mkLoopStatus {
  ls_loop_id : string;
  ls_current_turn : Z;
  ls_total_cost_usd : Z;
  ls_status : string;
  ls_latest_block : option TranscriptBlock;
}.

(** [cancel] is the controller's own switch, part of the caller's world. *)
Record LoopCallRequest : Type := mkLoopCall {
  lq_thread_id : string;
  lq_turn_id : string;
  lq_call_id : string;
  lq_stage : ModelCallStage;
  lq_intent : string;
  lq_raw_text : string;
  lq_privacy : PrivacyClass;
  lq_risk : CallRisk;
  lq_safety : SafetyClass;
  lq_messages : list Message;
  lq_candidates : list ModelCallCandidate;
  lq_remaining_budget_usd : option Z;
  lq_prior_failed_models : list string;
  lq_max_attempts : nat;
}.

Record LoopCallResult : Type := mkLoopResult {
  lr_provider : string;
  lr_model_id : string;
  lr_text : string;
  lr_usage : TokenUsage;
  lr_attempts : nat;
  lr_failed_models : list string;
  lr_cost_usd : Z;
  lr_cost_truth : CostTruth;
}.

(** ** The caller *)

(** What a call may send to a candidate. *)
Record allowed_by (q : LoopCallRequest) (c : ModelCallCandidate) : Prop := {
  al_candidate : c ∈ lq_candidates q;
  al_private : keeps_private (lq_privacy q) (mc_locality c);
  al_fresh : ∀ m, m ∈ lq_prior_failed_models q → model_matches c m = false;
  al_budget : within_budget (lq_remaining_budget_usd q) (mc_marginal_cost_usd c);
}.

(** [LoopModelCaller]: a call on a state [S], which answers, fails, or is still
    waiting.  [sent_log] is what has been sent to providers.  The contract is
    that a call sends at most what it was allowed, to whom it may. *)
Class LoopModelCaller (S E : Type) : Type := {
  loop_call : LoopCallRequest → S → S * option (result E LoopCallResult);
  sent_log : S → list ModelCallCandidate;
  call_contract : ∀ q s s' r, loop_call q s = (s', r) →
    ∃ sent, sent_log s' = sent_log s ++ sent ∧ (length sent ≤ Nat.min (lq_max_attempts q) 3)%nat ∧
      ∀ c, c ∈ sent → allowed_by q c;
}.

(** ** The controller *)

Inductive LoopError (E : Type) : Type :=
| InvalidPrivacy (value : string)
| InvalidRisk (value : string)
| InvalidCost
| CallFailed (error : E).
Arguments InvalidPrivacy {E} _.
Arguments InvalidRisk {E} _.
Arguments InvalidCost {E}.
Arguments CallFailed {E} _.

(** How the [select!] of an iteration went: the call's result came first, or the
    switch changed, to on or to off, while the call ran. *)
Inductive Race : Type := CallFirst | SwitchedOn | SwitchedOff.

(** What an iteration finds: the switch, fresh ids, the clock. *)
Record TurnWorld : Type := mkTurnWorld {
  tw_switch : bool;
  tw_race : Race;
  tw_call_id : string;
  tw_run_id : string;
  tw_iteration_id : string;
  tw_started_at : string;
  tw_ended_at : string;
}.

Record LoopState : Type := mkLoopState {
  lo_turn : Z;
  lo_cost : Z;
  lo_summary : string;
  lo_failed : list string;
}.

Definition initial_state : LoopState := mkLoopState 0 0 EmptyString [].

(** What a run does besides calling: rows it hands to its journal, statuses it
    reports. *)
Inductive LoopEffect (E : Type) : Type :=
| Journaled (kind : string) (payload : json)
| Called (q : LoopCallRequest) (answer : option (result E LoopCallResult))
| Reported (status : LoopStatus).
Arguments Journaled {E} _ _.
Arguments Called {E} _ _.
Arguments Reported {E} _.

Definition loop_candidate (tier : ModelTier) : ModelCallCandidate :=
  let device := on_device tier in
  let free := f64_eqb (mt_cost_per_turn tier) 0 in
  mkCandidate tier (if device then OnDevice else Unverified) true true true
    (if free && negb device then None else Some (mt_cost_per_turn tier))
    (if free then (if device then LocalZeroCost else CannotConfirm) else ProxyEstimate).

Definition loop_candidates (model_tiers : list ModelTier) : list ModelCallCandidate := map loop_candidate model_tiers.

(** [if !prior_failed_models.contains(failed) { push }] for each *)
Definition note_failed (prior failed : list string) : list string :=
  foldl (λ prior m, if bool_decide (m ∈ prior) then prior else prior ++ [m]) prior failed.

Section controller.
Context {S E : Type} `{LoopModelCaller S E}.
Context (cfg : LoopConfig) (loop_id : string) (model_tiers : list ModelTier).

(** The controller has a transport for its evidence: [new] keeps none when the
    local one cannot be had. *)
Context (evidence : bool).

(** [journal]: what the transport makes of a row is not asked. *)
Definition journal (kind : string) (payload : json) : list (LoopEffect E) :=
  if evidence then [Journaled kind payload] else [].

Definition loop_thread : string := "loop-" +:+ loop_id.
Definition iteration_turn (n : Z) : string := "loop-" +:+ loop_id +:+ "-iteration-" +:+ pretty n.

Definition status_of (st : LoopState) (status : string) (block : option TranscriptBlock) : LoopStatus :=
  mkLoopStatus loop_id (lo_turn st) (lo_cost st) status block.

Definition session_row (status reason : string) : json :=
  json_object [("loop_id", JString loop_id); ("status", JString status); ("reason", JString reason)].

Definition started_row : json :=
  json_object [("loop_id", JString loop_id); ("user_id", JString (lc_user_id cfg));
               ("objective", JString (lc_objective cfg)); ("max_turns", JNumber (PosInt (lc_max_turns cfg)));
               ("max_cost_usd", f64_json (lc_max_cost_usd cfg)); ("status", JString "STARTED")].

Definition raw_text (st : LoopState) : string :=
  "Objective: " +:+ lc_objective cfg +:+ ". Context: " +:+ lo_summary st.

Definition remaining_budget (st : LoopState) : Z := f64_max (f64_sub (lc_max_cost_usd cfg) (lo_cost st)) 0.

(** The request of the iteration after [st]. *)
Definition call_request (w : TurnWorld) (privacy : PrivacyClass) (risk : CallRisk) (st : LoopState) : LoopCallRequest :=
  mkLoopCall loop_thread (iteration_turn (lo_turn st + 1)) (tw_call_id w) LoopIteration (lc_intent cfg)
    (raw_text st) privacy risk (if lc_approved cfg then Approved else Unapproved)
    [mkMessage RoleUser (raw_text st)] (loop_candidates model_tiers) (Some (remaining_budget st)) (lo_failed st) 3.

Definition run_row (w : TurnWorld) (result : LoopCallResult) : json :=
  json_object
    [("run_id", JString (tw_run_id w)); ("user_id", JString (lc_user_id cfg)); ("proposal_id", JString loop_thread);
     ("loop_id", JString loop_id); ("started_at", JString (tw_started_at w)); ("ended_at", JString (tw_ended_at w));
     ("status", JString "SUCCESS"); ("mode", JString "loop"); ("provider", JString (lr_provider result));
     ("model_id", JString (lr_model_id result)); ("attempts", JNumber (PosInt (Z.of_nat (lr_attempts result))));
     ("tokens_input", JNumber (PosInt (tu_input_tokens (lr_usage result))));
     ("tokens_output", JNumber (PosInt (tu_output_tokens (lr_usage result))));
     ("cost", f64_json (lr_cost_usd result)); ("cost_truth", JString (cost_truth_text (lr_cost_truth result)))].

Definition iteration_row (w : TurnWorld) (turn : Z) (text : string) (result : LoopCallResult) : json :=
  json_object
    [("iteration_id", JString (tw_iteration_id w)); ("loop_id", JString loop_id); ("turn", JNumber (PosInt turn));
     ("input", JString text); ("output_summary", JString (lr_text result)); ("run_id", JString (tw_run_id w));
     ("cost", f64_json (lr_cost_usd result))].

(** How a run ends: [None] when it waits for a call. *)
Definition LoopEnd : Type := option (result (LoopError E) unit).

Definition finish_cancelled (st : LoopState) : list (LoopEffect E) * LoopEnd :=
  (journal "loop_sessions" (session_row "CANCELLED" "User requested cancellation") ++
   [Reported (status_of st "CANCELLED" None)], Some (Ok tt)).

Definition finish_completed (st : LoopState) : list (LoopEffect E) * LoopEnd :=
  (journal "loop_sessions" (session_row "COMPLETED" "Max turns reached or objective met") ++
   [Reported (status_of st "COMPLETED" None)], Some (Ok tt)).

(** The state after [result]; [None] if its cost makes no sense. *)
Definition after_call (st : LoopState) (result : LoopCallResult) : option LoopState :=
  if negb (f64_is_finite (lr_cost_usd result)) || f64_ltb (lr_cost_usd result) 0 then None
  else Some (mkLoopState (lo_turn st + 1) (f64_add (lo_cost st) (lr_cost_usd result)) (lr_text result)
               (note_failed (lo_failed st) (lr_failed_models result))).

(** What is done with an answer: go on from a state, or end. *)
Definition digest (w : TurnWorld) (st : LoopState) (answer : option (result E LoopCallResult))
    : list (LoopEffect E) * (LoopEnd + LoopState) :=
  match answer with
  | None => ([], inl None)
  | Some answer =>
      match tw_race w with
      | SwitchedOn =>
          let '(es, r) := finish_cancelled (mkLoopState (lo_turn st + 1) (lo_cost st) (lo_summary st) (lo_failed st)) in
          (es, inl r)
      | _ =>
          match answer with
          | Err e => ([], inl (Some (Err (CallFailed e))))
          | Ok result =>
              match after_call st result with
              | None => ([], inl (Some (Err InvalidCost)))
              | Some st' =>
                  (journal "runs" (run_row w result) ++
                   journal "loop_iterations" (iteration_row w (lo_turn st') (raw_text st) result) ++
                   [Reported (status_of st' "RUNNING" (Some (BlockAssistant (lr_text result))))], inr st')
              end
          end
      end
  end.

(** The [while]: [more] is [max_turns - current_turn]. *)
Fixpoint turns (more : nat) (world : nat → TurnWorld) (n : nat) (st : LoopState) (s : S)
    : S * list (LoopEffect E) * LoopEnd :=
  match more with
  | O => let '(es, r) := finish_completed st in (s, es, r)
  | Datatypes.S more =>
      let w := world n in
      if tw_switch w then let '(es, r) := finish_cancelled st in (s, es, r)
      else
        match parse_privacy (lc_privacy cfg), parse_call_risk (lc_risk cfg) with
        | None, _ => (s, [], Some (Err (InvalidPrivacy (lc_privacy cfg))))
        | _, None => (s, [], Some (Err (InvalidRisk (lc_risk cfg))))
        | Some privacy, Some risk =>
            let q := call_request w privacy risk st in
            let '(s1, answer) := loop_call q s in
            let '(es, next) := digest w st answer in
            match next with
            | inl r => (s1, Called q answer :: es, r)
            | inr st' =>
                if f64_leb (lc_max_cost_usd cfg) (lo_cost st') then
                  let '(es', r) := finish_completed st' in (s1, Called q answer :: es ++ es', r)
                else
                  let '(s2, es', r) := turns more world (Datatypes.S n) st' s1 in
                  (s2, Called q answer :: es ++ es', r)
            end
        end
  end.

(** [run] *)
Definition run (world : nat → TurnWorld) (s : S) : S * list (LoopEffect E) * LoopEnd :=
  let '(s', es, r) := turns (Z.to_nat (lc_max_turns cfg)) world 0 initial_state s in
  (s', journal "loop_sessions" started_row ++ es, r).

(** ** Runs as sequences of calls *)

(** The request of the iteration after [st], under the configuration's classes. *)
Definition requested (w : TurnWorld) (st : LoopState) (q : LoopCallRequest) : Prop :=
  ∃ privacy risk, parse_privacy (lc_privacy cfg) = Some privacy ∧ parse_call_risk (lc_risk cfg) = Some risk ∧
    q = call_request w privacy risk st.

Inductive Turned (world : nat → TurnWorld) : nat → nat → LoopState → S → S * list (LoopEffect E) * LoopEnd → Prop :=
| turned_out n st s : Turned world 0 n st s (s, (finish_completed st).1, (finish_completed st).2)
| turned_off more n st s : Turned world (Datatypes.S more) n st s (s, (finish_cancelled st).1, (finish_cancelled st).2)
| turned_refused more n st s e : Turned world (Datatypes.S more) n st s (s, [], Some (Err e))
| turned_end more n st s q s1 answer es r :
    requested (world n) st q → loop_call q s = (s1, answer) → digest (world n) st answer = (es, inl r) →
    Turned world (Datatypes.S more) n st s (s1, Called q answer :: es, r)
| turned_spent more n st s q s1 answer es st' :
    requested (world n) st q → loop_call q s = (s1, answer) → digest (world n) st answer = (es, inr st') →
    f64_leb (lc_max_cost_usd cfg) (lo_cost st') = true →
    Turned world (Datatypes.S more) n st s
      (s1, Called q answer :: es ++ (finish_completed st').1, (finish_completed st').2)
| turned_next more n st s q s1 answer es st' s2 es' r :
    requested (world n) st q → loop_call q s = (s1, answer) → digest (world n) st answer = (es, inr st') →
    f64_leb (lc_max_cost_usd cfg) (lo_cost st') = false →
    Turned world more (Datatypes.S n) st' s1 (s2, es', r) →
    Turned world (Datatypes.S more) n st s (s2, Called q answer :: es ++ es', r).

Lemma turns_turned world more : ∀ n st s, Turned world more n st s (turns more world n st s).
Proof.
  induction more as [|more IH]; intros n st s; [apply turned_out|]. cbn [turns].
  destruct (tw_switch (world n)); [apply turned_off|].
  destruct (parse_privacy _) as [privacy|] eqn:Hp; [|apply turned_refused].
  destruct (parse_call_risk _) as [risk|] eqn:Hr; [|apply turned_refused].
  destruct (loop_call _ s) as [s1 answer] eqn:Hc. destruct (digest _ st answer) as [es [r|st']] eqn:Hd.
  { by eapply turned_end; [exists privacy, risk|..]. }
  destruct (f64_leb _ _) eqn:Hb; [by eapply turned_spent; [exists privacy, risk|..]|].
  destruct (turns more world _ st' s1) as [[s2 es'] r] eqn:Ht.
  eapply turned_next; [by exists privacy, risk|done..|]. rewrite <- Ht. apply IH.
Qed.

Definition calls (es : list (LoopEffect E)) : list (LoopCallRequest * option (result E LoopCallResult)) :=
  omap (λ e, match e with Called q a => Some (q, a) | _ => None end) es.

Lemma calls_journal kind p : calls (journal kind p) = [].
Proof. unfold journal. by destruct evidence. Qed.

Lemma calls_app es es' : calls (es ++ es') = calls es ++ calls es'.
Proof. apply omap_app. Qed.

(** The answer that lets a run go on. *)
Lemma digest_on w st answer es st' :
  digest w st answer = (es, inr st') →
  ∃ result, answer = Some (Ok result) ∧ after_call st result = Some st' ∧ calls es = [] ∧
    es = journal "runs" (run_row w result) ++
         journal "loop_iterations" (iteration_row w (lo_turn st') (raw_text st) result) ++
         [Reported (status_of st' "RUNNING" (Some (BlockAssistant (lr_text result))))].
Proof.
  unfold digest, finish_cancelled. destruct answer as [[result|e]|]; [| |intros [=]].
  2:{ destruct (tw_race w); intros [=]. }
  destruct (tw_race w).
  1,3: destruct (after_call st result) as [st1|] eqn:Ha; intros [=]; subst; exists result;
    by rewrite !calls_app, !calls_journal.
  intros [=].
Qed.

Lemma digest_end w st answer es r : digest w st answer = (es, inl r) → calls es = [].
Proof.
  unfold digest, finish_cancelled. destruct answer as [[result|e]|]; [| |by intros [= <- _]];
    destruct (tw_race w); try destruct (after_call st result); intros [= <- _];
    by rewrite ?calls_app, ?calls_journal.
Qed.

(** *** Books *)

(** The calls of a run from a state: each asks what the state it is made in
    calls for; each but the last was answered, and left something to spend. *)
Fixpoint follows (st : LoopState) (l : list (LoopCallRequest * option (result E LoopCallResult))) : Prop :=
  match l with
  | [] => True
  | (q, answer) :: rest =>
      (∃ w, requested w st q) ∧
      match rest with
      | [] => True
      | _ => ∃ result st', answer = Some (Ok result) ∧ after_call st result = Some st' ∧
               f64_leb (lc_max_cost_usd cfg) (lo_cost st') = false ∧ follows st' rest
      end
  end.

(** The books of a run that has made [n] calls, spent [cost], last heard
    [summary] and knows that [failed] models have failed, written out call by
    call: whom a call is for, under which classes, what it says, to whom it may
    go, what it may spend and what it must avoid; and that the next follows only
    an answer of a finite, non-negative cost that left something to spend. *)
Fixpoint books (n cost : Z) (summary : string) (failed : list string)
    (l : list (LoopCallRequest * option (result E LoopCallResult))) : Prop :=
  match l with
  | [] => True
  | (q, answer) :: rest =>
      lq_thread_id q = "loop-" +:+ loop_id ∧
      lq_turn_id q = "loop-" +:+ loop_id +:+ "-iteration-" +:+ pretty (n + 1) ∧
      parse_privacy (lc_privacy cfg) = Some (lq_privacy q) ∧ parse_call_risk (lc_risk cfg) = Some (lq_risk q) ∧
      lq_safety q = (if lc_approved cfg then Approved else Unapproved) ∧
      lq_messages q = [mkMessage RoleUser ("Objective: " +:+ lc_objective cfg +:+ ". Context: " +:+ summary)] ∧
      lq_candidates q = map loop_candidate model_tiers ∧
      lq_remaining_budget_usd q = Some (f64_max (f64_sub (lc_max_cost_usd cfg) cost) 0) ∧
      lq_prior_failed_models q = failed ∧
      match rest with
      | [] => True
      | _ => ∃ result failed', answer = Some (Ok result) ∧
               f64_is_finite (lr_cost_usd result) = true ∧ f64_ltb (lr_cost_usd result) 0 = false ∧
               f64_leb (lc_max_cost_usd cfg) (f64_add cost (lr_cost_usd result)) = false ∧
               NoDup failed' ∧ (∀ m, m ∈ failed' ↔ m ∈ failed ∨ m ∈ lr_failed_models result) ∧
               books (n + 1) (f64_add cost (lr_cost_usd result)) (lr_text result) failed' rest
      end
  end.

Lemma after_call_inv st result st' :
  after_call st result = Some st' →
  f64_is_finite (lr_cost_usd result) = true ∧ f64_ltb (lr_cost_usd result) 0 = false ∧
  st' = mkLoopState (lo_turn st + 1) (f64_add (lo_cost st) (lr_cost_usd result)) (lr_text result)
          (note_failed (lo_failed st) (lr_failed_models result)).
Proof.
  unfold after_call. destruct (f64_is_finite _); [|done]. destruct (f64_ltb _ _); [done|]. by intros [= <-].
Qed.

Lemma note_failed_elem failed : ∀ prior m, m ∈ note_failed prior failed ↔ m ∈ prior ∨ m ∈ failed.
Proof.
  induction failed as [|x l IH]; intros prior m; simpl; [set_solver|]. rewrite IH.
  case_bool_decide; set_solver.
Qed.

Lemma note_failed_NoDup failed : ∀ prior, NoDup prior → NoDup (note_failed prior failed).
Proof.
  induction failed as [|x l IH]; intros prior Hp; simpl; [done|]. apply IH. case_bool_decide; [done|].
  apply NoDup_app. split; [done|]. split; [set_solver|apply NoDup_singleton].
Qed.

Lemma turned_follows world more n st s out :
  Turned world more n st s out → (length (calls out.1.2) ≤ more)%nat ∧ follows st (calls out.1.2).
Proof.
  induction 1 as [n st s|more n st s|more n st s e|more n st s q s1 answer es r Hq _ Hd
    |more n st s q s1 answer es st' Hq _ Hd _|more n st s q s1 answer es st' s2 es' r Hq _ Hd Hb _ [IHn IH]]; simpl.
  1-2: rewrite calls_app, calls_journal; by split; [simpl; lia|].
  - by split; [lia|].
  - rewrite (digest_end _ _ _ _ _ Hd). simpl. split; [lia|]. split; [by eexists|done].
  - rewrite !calls_app, calls_journal. apply digest_on in Hd as (result & _ & _ & -> & _). simpl. split; [lia|].
    split; [by eexists|done].
  - rewrite calls_app. apply digest_on in Hd as (result & -> & Ha & -> & _). simpl in *. split; [lia|].
    split; [by eexists|]. destruct (calls es') as [|c l] eqn:Ec; [done|]. by exists result, st'.
Qed.

Lemma follows_books l : ∀ st, NoDup (lo_failed st) → follows st l →
  books (lo_turn st) (lo_cost st) (lo_summary st) (lo_failed st) l.
Proof.
  induction l as [|[q answer] l IH]; intros st Hnd; [done|].
  intros [(w & privacy & risk & Hp & Hr & ->) Hrest]. cbn [books]. do 9 (split; [done|]).
  destruct l as [|c l]; [done|]. destruct Hrest as (result & st' & -> & Ha & Hb & Hf).
  apply after_call_inv in Ha as (Hfin & Hpos & ->).
  exists result, (note_failed (lo_failed st) (lr_failed_models result)).
  do 3 (split; [done|]). split; [exact Hb|]. split; [by apply note_failed_NoDup|].
  split; [intros m; apply note_failed_elem|]. apply (λ H, IH _ H Hf). by apply note_failed_NoDup.
Qed.

(** *** Endings *)

(** The rows about the run itself, and the statuses other than of a turn. *)
Definition session_rows (es : list (LoopEffect E)) : list (option string) :=
  omap (λ e, match e with
             | Journaled kind p => if bool_decide (kind = "loop_sessions") then Some (get_str p "status") else None
             | _ => None
             end) es.
Definition final_reports (es : list (LoopEffect E)) : list LoopStatus :=
  omap (λ e, match e with
             | Reported st => if bool_decide (ls_status st = "RUNNING") then None else Some st
             | _ => None
             end) es.

(** Rows that are about something else than the run itself. *)
Lemma session_rows_journal kind p :
  session_rows (journal kind p) =
    if evidence && bool_decide (kind = "loop_sessions") then [get_str p "status"] else [].
Proof. unfold journal, session_rows. destruct evidence; [|done]. simpl. by case_bool_decide. Qed.
Lemma final_reports_journal kind p : final_reports (journal kind p) = [].
Proof. unfold journal. by destruct evidence. Qed.

Lemma session_rows_app es es' : session_rows (es ++ es') = session_rows es ++ session_rows es'.
Proof. apply omap_app. Qed.
Lemma final_reports_app es es' : final_reports (es ++ es') = final_reports es ++ final_reports es'.
Proof. apply omap_app. Qed.

(** A run that returned says once how, to its listener and in its journal if it
    has one: cancelled, or completed with its turns or its money used up; any
    other says nothing. *)
Definition journals (rows : list (option string)) : list (option string) := if evidence then rows else [].

Definition closes_once (more : nat) (es : list (LoopEffect E)) (r : LoopEnd) : Prop :=
  match r with
  | Some (Ok _) =>
      ∃ st, final_reports es = [st] ∧ session_rows es = journals [Some (ls_status st)] ∧ ls_loop_id st = loop_id ∧
        (ls_status st = "CANCELLED" ∨
         ls_status st = "COMPLETED" ∧
           (length (calls es) = more ∨ f64_leb (lc_max_cost_usd cfg) (ls_total_cost_usd st) = true))
  | _ => final_reports es = [] ∧ session_rows es = []
  end.

(** What the listener and the journal are told by a row and a status. *)
Lemma told_last status reason st :
  let es := journal "loop_sessions" (session_row status reason) ++ [Reported (status_of st status None)] in
  status ≠ "RUNNING" →
  final_reports es = [status_of st status None] ∧ session_rows es = journals [Some status] ∧ calls es = [].
Proof.
  intros es Hs. unfold es. rewrite final_reports_app, session_rows_app, calls_app, final_reports_journal,
    session_rows_journal, calls_journal. unfold journals. simpl. rewrite bool_decide_false by done.
  destruct evidence; done.
Qed.

Lemma digest_told w st answer es st' :
  digest w st answer = (es, inr st') → final_reports es = [] ∧ session_rows es = [] ∧ calls es = [].
Proof.
  intros (result & _ & _ & Hc & Hes)%digest_on. split_and!; [..|done]; rewrite Hes;
    rewrite ?final_reports_app, ?session_rows_app, ?final_reports_journal, ?session_rows_journal; simpl;
    by rewrite ?andb_false_r.
Qed.

Lemma digest_closes w st answer es r q more :
  digest w st answer = (es, inl r) → closes_once more (Called q answer :: es) r.
Proof.
  destruct (told_last "CANCELLED" "User requested cancellation"
    (mkLoopState (lo_turn st + 1) (lo_cost st) (lo_summary st) (lo_failed st))) as (Hf & Hs & _); [done|].
  unfold digest, finish_cancelled. destruct answer as [[result|e]|]; [| |by intros [= <- <-]];
    (destruct (tw_race w); [try destruct (after_call st result); by intros [= <- <-]| |
       try destruct (after_call st result); by intros [= <- <-]]);
    intros [= <- <-]; eexists; (split; [exact Hf|]); (split; [exact Hs|]); (split; [done|]); by left.
Qed.

Lemma turned_closes world more n st s out : Turned world more n st s out → closes_once more out.1.2 out.2.
Proof.
  induction 1 as [n st s|more n st s|more n st s e|more n st s q s1 answer es r _ _ Hd
    |more n st s q s1 answer es st' _ _ Hd Hb|more n st s q s1 answer es st' s2 es' r _ _ Hd _ _ IH]; simpl.
  - destruct (told_last "COMPLETED" "Max turns reached or objective met" st) as (Hf & Hs & Hc); [done|].
    eexists. split; [exact Hf|]. split; [exact Hs|]. split; [done|]. right. split; [done|]. left. by rewrite Hc.
  - destruct (told_last "CANCELLED" "User requested cancellation" st) as (Hf & Hs & Hc); [done|].
    eexists. split; [exact Hf|]. split; [exact Hs|]. split; [done|]. by left.
  - done.
  - by eapply digest_closes.
  - apply digest_told in Hd as (Hf1 & Hs1 & _).
    destruct (told_last "COMPLETED" "Max turns reached or objective met" st') as (Hf & Hs & _); [done|].
    change (Called ?q ?a :: ?l) with ([Called q a] ++ l). exists (status_of st' "COMPLETED" None).
    rewrite !final_reports_app, !session_rows_app in *. rewrite Hf1, Hs1. simpl.
    split; [exact Hf|]. split; [exact Hs|]. split; [done|]. right. split; [done|]. by right.
  - apply digest_told in Hd as (Hf & Hs & Hc). unfold closes_once in IH |- *.
    change (Called ?q ?a :: ?l) with ([Called q a] ++ l).
    rewrite !calls_app, !session_rows_app, !final_reports_app, Hf, Hs, Hc. simpl in *.
    destruct r as [[[]|e]|]; [|done|done]. destruct IH as (stf & ? & ? & ? & Hend). exists stf. split_and!; try done.
    destruct Hend as [?|[? [?|?]]]; [by left|right; split; [done|left; lia]|right; split; [done|by right]].
Qed.

(** *** Memory *)

Lemma follows_keeps l : ∀ st i q answer,
  follows st l → l !! i = Some (q, answer) →
  (∃ w st', requested w st' q) ∧ ∀ m, m ∈ lo_failed st → m ∈ lq_prior_failed_models q.
Proof.
  induction l as [|[q0 a0] l IH]; intros st i q answer; [done|].
  intros [[w Hq] Hrest] Hi. destruct i as [|i].
  - injection Hi as -> ->. split; [by exists w, st|]. by destruct Hq as (privacy & risk & _ & _ & ->).
  - destruct l as [|c l]; [done|]. destruct Hrest as (result & st' & _ & Ha & _ & Hf).
    destruct (IH _ _ _ _ Hf Hi) as [Hr Hin]. split; [done|]. intros m Hm. apply Hin.
    apply after_call_inv in Ha as (_ & _ & ->). apply note_failed_elem. by left.
Qed.

(** What an answer says has failed, every later call is told. *)
Lemma follows_remembers l : ∀ st i j q result q' answer',
  follows st l → l !! i = Some (q, Some (Ok result)) → l !! j = Some (q', answer') → (i < j)%nat →
  ∀ m, m ∈ lr_failed_models result → m ∈ lq_prior_failed_models q'.
Proof.
  induction l as [|[q0 a0] l IH]; intros st i j q result q' answer'; [done|].
  intros [_ Hrest] Hi Hj Hlt m Hm. destruct j as [|j]; [lia|].
  destruct l as [|c l]; [done|]. destruct Hrest as (result0 & st' & -> & Ha & _ & Hf). destruct i as [|i].
  - injection Hi as _ <-. destruct (follows_keeps _ _ _ _ _ Hf Hj) as [_ Hin]. apply Hin.
    apply after_call_inv in Ha as (_ & _ & ->). apply note_failed_elem. by right.
  - eapply (IH _ i j); [done..|lia|done].
Qed.

(** *** Messages *)

Lemma turned_sent world more n st s out :
  Turned world more n st s out →
  ∃ parts, sent_log out.1.1 = sent_log s ++ concat parts ∧
    Forall2 (λ qa part, (length part ≤ 3)%nat ∧ ∀ c, c ∈ part → allowed_by qa.1 c) (calls out.1.2) parts.
Proof.
  assert (∀ w st q s s1 answer, requested w st q → loop_call q s = (s1, answer) → ∃ part,
    sent_log s1 = sent_log s ++ part ∧ (length part ≤ 3)%nat ∧ ∀ c, c ∈ part → allowed_by q c) as Hcall.
  { intros w st0 q s0 s1 answer (privacy & risk & _ & _ & ->) (part & Hs & Hl & Ha)%call_contract.
    exists part. split; [done|]. split; [|done]. simpl in Hl. lia. }
  induction 1 as [n st s|more n st s|more n st s e|more n st s q s1 answer es r Hq Hc Hd
    |more n st s q s1 answer es st' Hq Hc Hd _|more n st s q s1 answer es st' s2 es' r Hq Hc Hd Hb _ IH]; simpl.
  1-3: exists []; rewrite ?calls_app, ?calls_journal, app_nil_r; by split; [|constructor].
  - destruct (Hcall _ _ _ _ _ _ Hq Hc) as (part & -> & Hp). exists [part]. rewrite (digest_end _ _ _ _ _ Hd).
    simpl. rewrite app_nil_r. split; [done|]. constructor; [done|constructor].
  - destruct (Hcall _ _ _ _ _ _ Hq Hc) as (part & -> & Hp). exists [part].
    apply digest_on in Hd as (result & _ & _ & Hes & _). rewrite !calls_app, calls_journal, Hes. simpl.
    rewrite app_nil_r. split; [done|]. constructor; [done|constructor].
  - destruct (Hcall _ _ _ _ _ _ Hq Hc) as (part & Hs1 & Hp). destruct IH as (parts & Hs & Hparts). simpl in *.
    apply digest_on in Hd as (result & _ & _ & Hes & _). exists (part :: parts).
    rewrite calls_app, Hes, Hs, Hs1. simpl. rewrite app_assoc. split; [done|]. by constructor.
Qed.

Lemma run_turned world s :
  ∃ s' es r, run world s = (s', journal "loop_sessions" started_row ++ es, r) ∧
    Turned world (Z.to_nat (lc_max_turns cfg)) 0 initial_state s (s', es, r).
Proof.
  unfold run. pose proof (turns_turned world (Z.to_nat (lc_max_turns cfg)) 0 initial_state s) as Ht.
  destruct (turns _ _ _ _ _) as [[s' es] r]. by exists s', es, r.
Qed.

(** C34.  A loop keeps its books.  A run makes at most [max_turns] calls,
    numbered from one, each under the loop's thread and the configuration's
    privacy, risk and approval, told the objective and the last answer, what is
    left of the budget after the costs reported so far (never less than nothing)
    and exactly the models that have been reported failed; it goes on only after
    an answer with a finite, non-negative cost that left something to spend.  A
    run that returns says once how it ended, to its listener and, if it has an
    evidence transport, in its journal alike: cancelled, or completed with its
    turns or its money used up.  A run that fails, or still waits, says nothing. *)
Theorem loop_keeps_its_books (world : nat → TurnWorld) (s : S) :
  let '(_, es, r) := run world s in
  (length (calls es) ≤ Z.to_nat (lc_max_turns cfg))%nat ∧
  books 0 0 EmptyString [] (calls es) ∧
  match r with
  | Some (Ok _) =>
      ∃ st, final_reports es = [st] ∧ session_rows es = journals [Some "STARTED"; Some (ls_status st)] ∧
        ls_loop_id st = loop_id ∧
        (ls_status st = "CANCELLED" ∨
         ls_status st = "COMPLETED" ∧
           (length (calls es) = Z.to_nat (lc_max_turns cfg) ∨
            f64_leb (lc_max_cost_usd cfg) (ls_total_cost_usd st) = true))
  | _ => final_reports es = [] ∧ session_rows es = journals [Some "STARTED"]
  end.
Proof.
  destruct (run_turned world s) as (s' & es & r & -> & Ht).
  pose proof (turned_follows _ _ _ _ _ _ Ht) as [Hn Hf]. apply turned_closes in Ht. unfold closes_once in Ht.
  rewrite calls_app, calls_journal, session_rows_app, final_reports_app, final_reports_journal, session_rows_journal.
  simpl in *. split; [done|]. split; [by apply (follows_books _ initial_state (NoDup_nil_2))|].
  assert (∀ rows, (if evidence && bool_decide ("loop_sessions" = "loop_sessions") then [get_str started_row "status"]
                   else []) ++ journals rows = journals (Some "STARTED" :: rows)) as Hstart
    by (intros rows; unfold journals; by destruct evidence).
  destruct r as [[[]|e]|]; [|destruct Ht as [-> ->]; split; [done|unfold journals; by destruct evidence]..].
  destruct Ht as (st & -> & -> & ? & ?). exists st. split; [done|]. split; [apply Hstart|done].
Qed.

(**  What a loop may send.  Over any caller that keeps its contract, a run
    sends at most three messages per call and so at most [3 * max_turns] in
    all; each goes to one of the run's own candidates, as private as the
    configuration asks, of a known cost within what was left when its call was
    made; and no model that an answer reported failed is asked by any later
    call. *)
Theorem loop_sends_within_its_contract (world : nat → TurnWorld) (s : S) :
  let '(s', es, _) := run world s in
  ∃ parts, sent_log s' = sent_log s ++ concat parts ∧
    (length (concat parts) ≤ 3 * Z.to_nat (lc_max_turns cfg))%nat ∧
    Forall2 (λ qa part, (length part ≤ 3)%nat ∧
               ∀ c, c ∈ part →
                 c ∈ loop_candidates model_tiers ∧
                 (∃ privacy, parse_privacy (lc_privacy cfg) = Some privacy ∧ keeps_private privacy (mc_locality c)) ∧
                 within_budget (lq_remaining_budget_usd qa.1) (mc_marginal_cost_usd c)) (calls es) parts ∧
    ∀ i j q result part c m, calls es !! i = Some (q, Some (Ok result)) → m ∈ lr_failed_models result →
      parts !! j = Some part → (i < j)%nat → c ∈ part → model_matches c m = false.
Proof.
  destruct (run_turned world s) as (s' & es & r & -> & Ht). pose proof (turned_follows _ _ _ _ _ _ Ht) as [Hn Hf].
  apply turned_sent in Ht as (parts & Hs & Hparts). rewrite calls_app, calls_journal. simpl in *. exists parts. split; [done|]. split; [|split].
  - enough (length (concat parts) ≤ 3 * length (calls es))%nat by lia. clear - Hparts.
    induction Hparts as [|? ? ? ? [? _]]; simpl; [lia|]. rewrite length_app. lia.
  - apply Forall2_same_length_lookup_2; [by eapply Forall2_length|]. intros i [q a] part Hi Hp.
    destruct (Forall2_lookup_lr _ _ _ _ _ _ Hparts Hi Hp) as [Hl Ha]. split; [done|]. intros c [Hin Hpr _ Hb]%Ha.
    simpl in *. destruct (follows_keeps _ _ _ _ _ Hf Hi) as [(w & st & privacy & risk & Hpp & _ & Hq) _]. subst q.
    split; [done|]. split; [by exists privacy|done].
  - intros i j q result part c m Hi Hm Hj Hlt Hc.
    destruct (Forall2_lookup_r _ _ _ _ _ Hparts Hj) as ([q' a'] & Hqj & _ & Ha).
    apply (al_fresh _ _ (Ha c Hc)). by eapply (follows_remembers _ _ i j).
Qed.

End controller.
