(* ===== verification/LoopExecutor.v ===== *)
(** * The loop's caller (apps/heiwa_shell/src/model_calls.rs)

    [ExecutorLoopCaller] submits each call as a turn of its own, refuses one that
    was submitted before, and executes the rest: the implementation of the
    contract that LoopController.v asks for. *)

From stdpp Require Import base gmap sets strings numbers list.
From Stdlib Require Import Ascii.
From S2P Require Import Prelude Json Hex Envelope OperatorEvent RoutePolicy Turns EventLog Session SessionSync SessionTurns.
From S2P Require Import Drex ModelCall Routing CallCosts ModelExecution ExecutionProtocol.
From S2P Require Import Provider Admission LaneSelection LoopController.
#[local] Open Scope Z_scope.

(** ** Executors *)

(** How an executor finds its candidates and what its attempts meet; it never
    adds a candidate. *)
Record Executor : Type := mkExecutor {
  ex_candidates : ModelCallExecution → result string (list ModelCallCandidate);
  ex_world : ModelCallExecution → nat → AttemptWorld;
  ex_subset : ∀ x cs, ex_candidates x = Ok cs → cs ⊆ mx_candidates x;
}.

(** [ModelCallExecutor::new]: the candidates as they are, with a resolver. *)
Program Definition injected (world : nat → AttemptWorld) : Executor :=
  mkExecutor (λ x, Ok (mx_candidates x)) (λ _, world) _.
Next Obligation. by intros world x cs [= <-]. Qed.

(** [ModelCallExecutor::new_registry] *)
Definition registry_candidates (start : Machine) (x : ModelCallExecution) : result string (list ModelCallCandidate) :=
  match registry_selection x start with Ok (selected, _) => Ok selected | Err e => Err e end.

Definition registry_worlds (start : Machine) (machine : nat → Machine) (world : nat → AttemptWorld)
    (x : ModelCallExecution) : nat → AttemptWorld :=
  match registry_selection x start with
  | Ok (_, witnesses) => registry_world witnesses machine world
  | Err _ => world
  end.

Lemma registry_subset start x cs : registry_candidates start x = Ok cs → cs ⊆ mx_candidates x.
Proof.
  unfold registry_candidates, registry_selection. destruct (mach_registry start); [|done].
  destruct (registry_selection_with_ids _ _ _ _ _) as [[sel wit]|] eqn:E; [|done]. intros [= <-] c Hc.
  by apply (selected_iff _ _ _ _ _ _ _ c E) in Hc as [? _].
Qed.

Definition registered (start : Machine) (machine : nat → Machine) (world : nat → AttemptWorld) : Executor :=
  mkExecutor (registry_candidates start) (registry_worlds start machine world) (registry_subset start).

Section registered.
Context `{EventLog L, JsonText}.

(** The two readings of an executor made by [new_registry]. *)
Lemma registered_executes fuel start machine world x :
  execute_registry fuel start machine world x =
  execute (L := L) fuel (ex_world (registered start machine world) x) x
    (ex_candidates (registered start machine world) x).
Proof.
  unfold execute_registry. simpl. unfold registry_candidates, registry_worlds.
  by destruct (registry_selection x start) as [[sel wit]|e].
Qed.

End registered.

(** ** The caller *)

(** What one call meets. *)
Record CallWorld : Type := mkCallWorld {
  cw_env : Env;                        (* of the submission *)
  cw_turn_envs : nat → Env;            (* of the turn's own events *)
  cw_executor : Executor;
  cw_cancelled : bool;                 (* the switch as the execution finds it *)
}.

(** The session service, the effects so far, and the calls. *)
Record CallerState (L : Type) `{EventLog L} : Type := mkCaller {
  cs_service : Service L;
  cs_effects : list Effect;
  cs_calls : nat;
}.
Arguments mkCaller {L _} _ _ _.
Arguments cs_service {L _} _.
Arguments cs_effects {L _} _.
Arguments cs_calls {L _} _.

Inductive CallerError : Type :=
| SubmissionFailed (e : TurnSubmissionError)
| DuplicateAdmission (turn_id : string)
| ExecutionFailed (e : ModelCallError).

(** The submission of a call. *)
Definition submission (q : LoopCallRequest) : StartTurnRequest :=
  let auto := request_auto (lq_turn_id q) (lq_raw_text q) in
  let p := st_route_policy auto in
  mkRequest (st_client_request_id auto) (st_prompt auto)
    (mkPolicy (rp_mode p) (rp_preferred_provider p) (rp_preferred_model p) (rp_allowed_models p)
       (lq_prior_failed_models q) (rp_minimum_quality_class p) (rp_maximum_marginal_cost_usd p)
       (lq_remaining_budget_usd q) (privacy_text (lq_privacy q)))
    (st_work_id auto).

(** The execution of a call, on the turn it was submitted as. *)
Definition call_execution (q : LoopCallRequest) (turn_id : string) (cancelled : bool) : ModelCallExecution :=
  mkExecutionRequest
    (mkCallRequest (lq_thread_id q) turn_id None (lq_call_id q) (lq_intent q) (lq_stage q) (lq_raw_text q)
       (lq_privacy q) (lq_risk q) (lq_safety q) [] 1 1 0 (lq_remaining_budget_usd q) None None []
       (lq_prior_failed_models q))
    (lq_candidates q) (lq_remaining_budget_usd q) (lq_max_attempts q) cancelled.

Definition loop_result (r : ModelCallResult) : LoopCallResult :=
  mkLoopResult (cr_provider r) (cr_model_id r) (cr_text r) (cr_usage r) (cr_attempts r) (cr_failed_models r)
    (cr_cost_usd r) (cr_cost_truth r).

Section caller.
Context `{EventLog L, Crypto, UuidV5, JsonText}.
Context (fuel : nat) (error_text : ModelCallError → string) (world : nat → CallWorld).

(** [ExecutorLoopCaller::call] *)
Definition executor_call (q : LoopCallRequest) (st : CallerState L)
    : CallerState L * option (result CallerError LoopCallResult) :=
  let w := world (cs_calls st) in
  match start_turn fuel (cw_env w) (lq_thread_id q) (submission q) (cs_service st) with
  | (s1, Err e) => (mkCaller s1 (cs_effects st) (S (cs_calls st)), Some (Err (SubmissionFailed e)))
  | (s1, Ok turn) =>
      if sub_duplicate turn then
        (mkCaller s1 (cs_effects st) (S (cs_calls st)), Some (Err (DuplicateAdmission (sub_turn_id turn))))
      else
        let x := call_execution q (sub_turn_id turn) (cw_cancelled w) in
        let '(s2, es, r) :=
          execute_canonical_turn fuel (ex_world (cw_executor w) x) (cw_turn_envs w) error_text x
            (ex_candidates (cw_executor w) x) s1 in
        (mkCaller s2 (cs_effects st ++ es) (S (cs_calls st)),
         match ending r with
         | None => None
         | Some (Ok result) => Some (Ok (loop_result result))
         | Some (Err e) => Some (Err (ExecutionFailed e))
         end)
  end.

Definition messages_sent (st : CallerState L) : list ModelCallCandidate := map snd (sends (cs_effects st)).

Lemma f64_min_idem a : f64_min a a = a.
Proof. unfold f64_min. by destruct (f64_is_nan a), (f64_ltb a a). Qed.

Lemma permitted_allowed q turn_id cancelled c :
  let x := call_execution q turn_id cancelled in
  c ∈ lq_candidates q →
  permitted (apply_remaining_budget (mx_remaining_budget_usd x) (mx_request x)) c → allowed_by q c.
Proof.
  intros x Hc Hp. destruct (lq_remaining_budget_usd q) as [b|] eqn:Eb.
  - split; [done| | |].
    + pose proof (pm_privacy _ _ Hp) as Hpr. unfold x in Hpr. by simpl in Hpr; rewrite Eb in Hpr.
    + pose proof (pm_excluded _ _ Hp) as Hx. unfold x in Hx. by simpl in Hx; rewrite Eb in Hx.
    + pose proof (pm_budget _ _ Hp) as Hb. unfold x in Hb. simpl in Hb. rewrite Eb in Hb. simpl in Hb.
      by rewrite f64_min_idem in Hb; rewrite Eb.
  - split; [done| | |].
    + pose proof (pm_privacy _ _ Hp) as Hpr. unfold x in Hpr. by simpl in Hpr; rewrite Eb in Hpr.
    + pose proof (pm_excluded _ _ Hp) as Hx. unfold x in Hx. by simpl in Hx; rewrite Eb in Hx.
    + by rewrite Eb.
Qed.

Lemma executor_contract q st st' r :
  executor_call q st = (st', r) →
  ∃ sent, messages_sent st' = messages_sent st ++ sent ∧ (length sent ≤ Nat.min (lq_max_attempts q) 3)%nat ∧
    ∀ c, c ∈ sent → allowed_by q c.
Proof.
  unfold executor_call. destruct (start_turn _ _ _ _ _) as [s1 [turn|e]].
  2:{ intros [= <- _]. exists []. rewrite app_nil_r. by split; [|split; [simpl; lia|set_solver]]. }
  destruct (sub_duplicate turn).
  { intros [= <- _]. exists []. rewrite app_nil_r. by split; [|split; [simpl; lia|set_solver]]. }
  set (x := call_execution q _ _). destruct (execute_canonical_turn _ _ _ _ x _ s1) as [[s2 es] r'] eqn:E.
  intros [= <- _]. exists (map snd (sends es)). unfold messages_sent. cbn [cs_effects].
  rewrite sends_app, map_app. split; [done|].
  apply turn_sends in E as [->|(s3 & s4 & es' & r'' & E & ->)]; [split; [simpl; lia|set_solver]|].
  apply execute_sends in E as [Hlen Hok]. rewrite length_map. split; [done|].
  intros c ([n c'] & [= ->] & Hin%list_elem_of_In)%list_elem_of_In%in_map_iff.
  destruct (Hok _ _ Hin) as (cs & Hcs & Hc & Hp). apply (ex_subset (cw_executor (world (cs_calls st)))) in Hcs.
  eapply permitted_allowed; [|exact Hp]. by apply Hcs.
Qed.

#[export] Instance executor_loop_caller : LoopModelCaller (CallerState L) CallerError := {
  loop_call := executor_call;
  sent_log := messages_sent;
  call_contract := executor_contract;
}.

(** A call only appends, and keeps the service sound. *)
Lemma call_kept `{!EventLogLaws L} q st :
  service_coherent (cs_service st) →
  service_coherent (cs_service (executor_call q st).1) ∧ extends (cs_service st) (cs_service (executor_call q st).1).
Proof.
  intros Hs. unfold executor_call. set (w := world (cs_calls st)).
  pose proof (append_only_start_turn fuel (cw_env w) (lq_thread_id q) (submission q) _ Hs) as Hst.
  destruct (start_turn _ _ _ _ _) as [s1 [turn|e]]; [|done]. simpl in Hst. destruct (sub_duplicate turn); [done|].
  set (x := call_execution _ _ _).
  pose proof (kept_turn fuel (ex_world (cw_executor w) x) (cw_turn_envs w) error_text x
    (ex_candidates (cw_executor w) x) s1 (proj1 Hst)) as Hk.
  destruct (execute_canonical_turn _ _ _ _ _ _ s1) as [[s2 es] r]. simpl in *. destruct Hst, Hk.
  split; [done|by trans s1].
Qed.

(** C35.  A call is executed at most once.  When a call was admitted as a turn
    of its own, then whatever rows followed, as long as none is another message
    for that turn, every later call under the same thread and turn is refused:
    nothing is sent to any provider, the journal stays as it is, and the caller
    is told: a call that asks the same under the same budget and failures as a
    duplicate of its turn, any other as a conflict. *)
Theorem call_is_executed_once `{!EventLogLaws L} (q q' : LoopCallRequest) (st st' : CallerState L)
    (s1 : Service L) (turn : TurnSubmission) (rows : list CursorEvent) :
  let w := world (cs_calls st) in
  let w' := world (cs_calls st') in
  service_coherent (cs_service st) →
  start_turn fuel (cw_env w) (lq_thread_id q) (submission q) (cs_service st) = (s1, Ok turn) →
  sub_duplicate turn = false →
  fresh_submission (cw_env w) (lq_thread_id q) (submission q)
    (replay default_journal (log_rows (sv_journal (cs_service st)))) →
  policy_representable (st_route_policy (submission q)) →
  (∀ b, Forall log_encodes (submission_events (cw_env w) (lq_thread_id q) (submission q) b)) →
  service_coherent (cs_service st') →
  log_rows (sv_journal (cs_service st')) = log_rows (sv_journal s1) ++ rows →
  Forall (no_message_for (lq_thread_id q) (sub_turn_id turn)) rows →
  log_readable (sv_journal (cs_service st')) → (length (log_rows (sv_journal (cs_service st'))) < fuel)%nat →
  env_locks (cw_env w') = Ok tt → screen_submission (submission q') = Ok tt →
  lq_thread_id q' = lq_thread_id q → lq_turn_id q' = lq_turn_id q →
  ∃ st3 e, executor_call q' st' = (st3, Some (Err e)) ∧
    messages_sent st3 = messages_sent st' ∧ sv_journal (cs_service st3) = sv_journal (cs_service st') ∧
    (request_agrees (submission q') (submission q) → e = DuplicateAdmission (sub_turn_id turn)) ∧
    (¬ request_agrees (submission q') (submission q) →
     ∃ reason, e = SubmissionFailed (IdempotencyConflict (sub_turn_id turn) reason)).
Proof.
  intros w w' Hs Hst Hdup Hfresh Hpol Henc Hs' Hrows Hno Hread Hfuel Hlock Hscreen Hth Htu.
  destruct (submitted_once _ _ _ _ _ _ _ Hs Hst Hdup Hfresh Hpol Henc (cs_service st') rows fuel (cw_env w')
    (submission q') Hs' Hrows Hno Hread Hfuel Hlock Hscreen Htu) as (s3 & Hj & Hag & Hnag).
  assert (Decision (request_agrees (submission q') (submission q))) as Hdec by (unfold request_agrees; apply _).
  exists (mkCaller s3 (cs_effects st') (S (cs_calls st'))).
  destruct (decide (request_agrees (submission q') (submission q))) as [Ha|Ha].
  - exists (DuplicateAdmission (sub_turn_id turn)). unfold executor_call. fold w'. rewrite Hth, (Hag Ha). simpl.
    by split_and!.
  - destruct (Hnag Ha) as [reason Hst']. exists (SubmissionFailed (IdempotencyConflict (sub_turn_id turn) reason)).
    unfold executor_call. fold w'. rewrite Hth, Hst'. split_and!; try done. by eexists.
Qed.

End caller.
