(* ===== verification/Judgment.v ===== *)
(** * Confidence-gated judgment (crates/heiwa_judgment/src/lib.rs, question.rs, error.rs)

    A typed answer, how sure it is and how separated, and the gate that turns it
    into one of three bands; a batch is as safe as its least safe question.  Then the questions a judgment asks,
    with builders that refuse what the endpoint would, their encoding on the
    wire, and the failures of a call. *)

From stdpp Require Import base sets strings numbers list pretty.
From S2P Require Import Prelude Json Hex Envelope Drex CallCosts.
#[local] Open Scope Z_scope.

(** ** Answers *)

Inductive Answer : Type :=
| ChoiceAnswer (choice : string) (probabilities : list (string * Z)) (confidence : Z)
| ScoreAnswer (score : Z) (legend : list string) (probabilities : list Z) (confidence : Z)
| NoulAnswer (noul : Z).

Inductive ConfidenceSource : Type := ModelReported | Derived.

(** [n / d], rounded once: the float nearest to a decimal literal. *)
Definition decimal (n d : Z) : Z := bits_of_spec (fdiv (f64_int n) (f64_int d)).

Definition one : Z := decimal 1 1.
#[global] Opaque decimal one.

Definition f64_abs (b : Z) : Z := b mod 2 ^ 63.

(** [(2.0 * noul - 1.0).abs()] *)
Definition from_coin_flip (noul : Z) : Z := f64_abs (f64_sub (f64_mul (decimal 2 1) noul) one).

Definition confidence (a : Answer) : Z :=
  match a with
  | ChoiceAnswer _ _ c | ScoreAnswer _ _ _ c => c
  | NoulAnswer noul => from_coin_flip noul
  end.

Definition confidence_source (a : Answer) : ConfidenceSource :=
  match a with NoulAnswer _ => Derived | _ => ModelReported end.

(** [b.partial_cmp(a).unwrap_or(Equal)] *)
Definition descending (a b : Z) : comparison := default Eq (f64_partial_cmp b a).

Definition separation (values : list Z) : Z :=
  match sort_by descending values with
  | first :: second :: _ => f64_sub first second
  | _ => one
  end.

Definition margin (a : Answer) : Z :=
  match a with
  | NoulAnswer noul => from_coin_flip noul
  | ChoiceAnswer _ probabilities _ => separation (map snd probabilities)
  | ScoreAnswer _ _ probabilities _ => separation probabilities
  end.

(** ** Bands *)

Inductive Band : Type := Auto | Deliberate | Quarantine.

#[export] Instance band_eq_dec : EqDecision Band.
Proof. solve_decision. Defined.

Definition severity (b : Band) : nat := match b with Auto => 2 | Deliberate => 1 | Quarantine => 0 end.

Inductive Reason : Type := Confident | Uncertain | LowConfidence | Ambiguous | Vetoed.

Record Thresholds : Type := mkThresholds { th_auto : Z; th_deliberate : Z }.

Definition default_thresholds : Thresholds := mkThresholds (decimal 85 100) (decimal 5 10).

(** [Thresholds::for_noul]: an inverted pair panics. *)
Definition for_noul (auto_within deliberate_within : Z) : outcome Thresholds :=
  let bar within := f64_sub (f64_sub one (f64_mul (decimal 2 1) within)) (decimal 1 1000000000) in
  if f64_leb auto_within deliberate_within then Return (mkThresholds (bar auto_within) (bar deliberate_within))
  else Panic.

Record Policy : Type := mkPolicy {
  po_thresholds : option Thresholds;
  po_min_margin : option Z;
  po_informational : bool;
  po_veto : option (Answer → bool);
}.

Definition policy_default : Policy := mkPolicy None None false None.

Record Decision : Type := mkDecision {
  de_band : Band;
  de_reason : Reason;
  de_confidence : Z;
  de_confidence_source : ConfidenceSource;
  de_margin : Z;
  de_thresholds : Thresholds;
}.

Definition vetoed (a : Answer) (p : Policy) : bool :=
  match po_veto p with Some veto => veto a | None => false end.

Definition ambiguous (a : Answer) (p : Policy) : bool :=
  match po_min_margin p with
  | Some min_margin => f64_ltb 0 min_margin && f64_ltb (margin a) min_margin
  | None => false
  end.

Definition thresholds_of (p : Policy) : Thresholds := default default_thresholds (po_thresholds p).

Definition gate_answer (a : Answer) (p : Policy) : Decision :=
  let thresholds := thresholds_of p in
  let decide band reason :=
    mkDecision band reason (confidence a) (confidence_source a) (margin a) thresholds in
  if vetoed a p then decide Quarantine Vetoed
  else if ambiguous a p then decide Quarantine Ambiguous
  else if f64_ltb (th_auto thresholds) (confidence a) then decide Auto Confident
  else if f64_leb (th_deliberate thresholds) (confidence a) then decide Deliberate Uncertain
  else decide Quarantine LowConfidence.

(** ** Batches *)

Record BatchGate : Type := mkBatch {
  bg_band : Band;
  bg_decisions : list (string * Decision);
  bg_blockers : list string;
}.

Definition policy_for (policies : list (string * Policy)) (id : string) : Policy :=
  default policy_default (snd <$> List.find (λ kp, bool_decide (kp.1 = id)) policies).

(** One round of the loop: the worst gating band so far, and the decisions. *)
Definition gate_step (policies : list (string * Policy)) (st : Band * list (string * Decision))
    (ia : string * Answer) : Band * list (string * Decision) :=
  let '(worst, decisions) := st in
  let '(id, answer) := ia in
  let policy := policy_for policies id in
  let decision := gate_answer answer policy in
  let lower := negb (po_informational policy) && (severity (de_band decision) <? severity worst)%nat in
  (if lower then de_band decision else worst, decisions ++ [(id, decision)]).

Definition blocks (policies : list (string * Policy)) (worst : Band) (d : string * Decision) : bool :=
  negb (po_informational (policy_for policies d.1)) && bool_decide (de_band d.2 = worst).

Definition gate_batch (answers : list (string * Answer)) (policies : list (string * Policy)) : BatchGate :=
  let '(worst, decisions) := foldl (gate_step policies) (Auto, []) answers in
  mkBatch worst decisions
    (if bool_decide (worst = Auto) then [] else map fst (List.filter (blocks policies worst) decisions)).

(** ** The gate of one answer *)

(** What lets an answer through: no veto, no tie, and confidence above the bar. *)
Definition cleared (a : Answer) (p : Policy) : Prop :=
  vetoed a p = false ∧ ambiguous a p = false ∧ f64_ltb (th_auto (thresholds_of p)) (confidence a) = true.

Lemma gate_answer_auto a p : de_band (gate_answer a p) = Auto ↔ cleared a p.
Proof.
  unfold gate_answer, cleared. destruct (vetoed a p); [by split; [|intros (? & _)]|].
  destruct (ambiguous a p); [by split; [|intros (_ & ? & _)]|].
  destruct (f64_ltb _ _); [done|]. destruct (f64_leb _ _); by split; [|intros (_ & _ & ?)].
Qed.

(** Raising the bar of a policy never lets more through. *)
Lemma cleared_above a p bar :
  cleared a p → f64_leb bar (th_auto (thresholds_of p)) = true → f64_ltb bar (confidence a) = true.
Proof.
  intros (_ & _ & Hc). revert Hc. unfold f64_ltb, f64_leb, f64_partial_cmp.
  destruct (f64_is_nan bar), (f64_is_nan (th_auto _)), (f64_is_nan (confidence a)); simpl; try done.
  destruct (Z.compare_spec (f64_key (th_auto (thresholds_of p))) (f64_key (confidence a))) as [?|H1|?]; [done| |done].
  intros _ Hb. assert (f64_key bar < f64_key (confidence a)) as Hlt%Z.compare_lt_iff; [|by rewrite Hlt].
  destruct (Z.compare_spec (f64_key bar) (f64_key (th_auto (thresholds_of p)))); [lia|lia|done].
Qed.

(** ** The gate of a batch *)

Definition decided_answer (policies : list (string * Policy)) (ia : string * Answer) : string * Decision :=
  (ia.1, gate_answer ia.2 (policy_for policies ia.1)).

Definition gating (policies : list (string * Policy)) (id : string) : Prop :=
  po_informational (policy_for policies id) = false.

Definition at_most (policies : list (string * Policy)) (b : Band) (d : string * Decision) : Prop :=
  gating policies d.1 → (severity b ≤ severity (de_band d.2))%nat.

(** The state of the loop: every decision so far, none that gates below the
    worst band, and one that is the worst band unless that is still [Auto]. *)
Definition loop_inv (policies : list (string * Policy)) (st : Band * list (string * Decision)) : Prop :=
  Forall (at_most policies st.1) st.2 ∧
  (st.1 ≠ Auto → ∃ d, d ∈ st.2 ∧ gating policies d.1 ∧ de_band d.2 = st.1).

Lemma at_most_weaken policies b b' d :
  (severity b' ≤ severity b)%nat → at_most policies b d → at_most policies b' d.
Proof. intros Hb Hd Hg. specialize (Hd Hg). lia. Qed.

Lemma gate_step_inv policies st ia : loop_inv policies st → loop_inv policies (gate_step policies st ia).
Proof.
  destruct st as [worst ds], ia as [id a]. intros [Hle Hex]. unfold gate_step, loop_inv. simpl in *.
  destruct (po_informational (policy_for policies id)) eqn:Hi; simpl.
  - split; [|intros Hw; destruct (Hex Hw) as (d & Hd & Hp); exists d; split; [set_solver|done]].
    apply Forall_app. split; [done|]. apply Forall_singleton. intros Hg. unfold gating in Hg. simpl in Hg. congruence.
  - destruct (Nat.ltb_spec (severity (de_band (gate_answer a (policy_for policies id)))) (severity worst)) as [Hlt|Hge].
    + split.
      * apply Forall_app. split; [|apply Forall_singleton; intros _; simpl; lia].
        eapply Forall_impl; [exact Hle|]. intros d Hd. eapply at_most_weaken; [|exact Hd]. lia.
      * intros _. eexists. split; [apply elem_of_app; right; by apply list_elem_of_singleton|done].
    + split; [|intros Hw; destruct (Hex Hw) as (d & Hd & Hp); exists d; split; [set_solver|done]].
      apply Forall_app. split; [done|]. apply Forall_singleton. intros _. simpl. lia.
Qed.

Lemma gate_fold policies answers st :
  loop_inv policies st →
  loop_inv policies (foldl (gate_step policies) st answers) ∧
  (foldl (gate_step policies) st answers).2 = st.2 ++ map (decided_answer policies) answers.
Proof.
  revert st. induction answers as [|ia answers IH]; intros st Hst; simpl; [by rewrite app_nil_r|].
  destruct (IH _ (gate_step_inv policies st ia Hst)) as [Hi Hd]. split; [done|]. rewrite Hd.
  destruct st as [w ds], ia as [id a]. simpl. by rewrite <-app_assoc.
Qed.

Lemma severity_auto b : (severity Auto ≤ severity b)%nat → b = Auto.
Proof. destruct b; simpl; [done|lia|lia]. Qed.

(** A batch is as safe as its least safe gating question.  Every answer is
    judged once, in order.  The verdict is [Auto] exactly when every answer
    that gates was cleared: no veto on its content, no tie of its two likeliest
    outcomes, and a confidence strictly above its bar.  No gating answer is in
    a worse band than the verdict, and the blockers are exactly the gating
    answers in the verdict's own band, none when it is [Auto]. *)
Theorem a_batch_is_as_safe_as_its_worst (answers : list (string * Answer)) (policies : list (string * Policy)) :
  let g := gate_batch answers policies in
  bg_decisions g = map (decided_answer policies) answers ∧
  (bg_band g = Auto ↔ ∀ id a, (id, a) ∈ answers → gating policies id → cleared a (policy_for policies id)) ∧
  (∀ id d, (id, d) ∈ bg_decisions g → gating policies id → (severity (bg_band g) ≤ severity (de_band d))%nat) ∧
  (∀ id, id ∈ bg_blockers g ↔
     bg_band g ≠ Auto ∧ ∃ d, (id, d) ∈ bg_decisions g ∧ gating policies id ∧ de_band d = bg_band g) ∧
  (bg_band g ≠ Auto → bg_blockers g ≠ []).
Proof.
  unfold gate_batch. destruct (gate_fold policies answers (Auto, [])) as [[Hle Hex] Hd]; [by split|].
  destruct (foldl _ _ _) as [worst ds]. simpl in *. subst ds. split; [done|].
  assert (∀ id, id ∈ (if bool_decide (worst = Auto) then [] else map fst (List.filter (blocks policies worst) (map (decided_answer policies) answers)))
      ↔ worst ≠ Auto ∧ ∃ d, (id, d) ∈ map (decided_answer policies) answers ∧ gating policies id ∧ de_band d = worst) as Hb.
  { intros id. case_bool_decide as Hw; [split; [by intros ?%elem_of_nil|by intros [? _]]|].
    rewrite list_elem_of_In, in_map_iff. split.
    - intros ([id' d] & <- & [Hin Hblk]%filter_In). unfold blocks in Hblk. simpl in Hblk.
      apply andb_true_iff in Hblk as [Hi%negb_true_iff Hband%bool_decide_eq_true].
      split; [done|]. exists d. by rewrite list_elem_of_In.
    - intros [_ (d & Hin%list_elem_of_In & Hg & Hband)]. exists (id, d). split; [done|]. apply filter_In. split; [done|].
      unfold blocks. simpl. unfold gating in Hg. rewrite Hg, Hband. simpl. by apply bool_decide_eq_true. }
  split; [|split; [|split; [exact Hb|]]].
  - split.
    + intros -> id a Hin Hg. apply gate_answer_auto, severity_auto.
      assert (decided_answer policies (id, a) ∈ map (decided_answer policies) answers) as Hm by (by apply list_elem_of_fmap_2).
      rewrite Forall_forall in Hle. by apply (Hle _ Hm).
    + intros Hall. destruct (decide (worst = Auto)) as [|Hw]; [done|]. destruct (Hex Hw) as (d & Hin & Hg & Hband).
      apply list_elem_of_fmap_1 in Hin as ([id a] & -> & Hin). simpl in *.
      by rewrite <-Hband, (proj2 (gate_answer_auto _ _) (Hall id a Hin Hg)).
  - intros id d Hin Hg. rewrite Forall_forall in Hle. by apply (Hle _ Hin).
  - intros Hw Hnil. destruct (Hex Hw) as ([id d] & Hin & Hg & Hband).
    assert (id ∈ @nil string) as ?%elem_of_nil; [|done]. rewrite <-Hnil. apply Hb. split; [done|]. by exists d.
Qed.

(** ** Examples (testdata/gate_cases.json) *)

Definition choice_of (ps : list (string * Z)) (c : Z) : Answer := ChoiceAnswer "billing" ps c.

Example the_bars :
  let answer c := choice_of [("billing", decimal 90 100); ("technical", decimal 10 100)] c in
  map (λ c, de_band (gate_answer (answer c) policy_default)) [decimal 90 100; decimal 85 100; decimal 50 100; decimal 49 100] =
    [Auto; Deliberate; Deliberate; Quarantine] ∧
  de_band (gate_answer (NoulAnswer 0) policy_default) = Auto ∧
  de_reason (gate_answer (choice_of [("a", decimal 50 100); ("b", decimal 48 100)] (decimal 95 100))
    (mkPolicy None (Some (decimal 10 100)) false None)) = Ambiguous.
Proof. vm_compute. done. Qed.

Example a_noul_bar :
  match for_noul (decimal 5 100) (decimal 25 100) with
  | Return t =>
      map (λ p, de_band (gate_answer (NoulAnswer p) (mkPolicy (Some t) None false None))) [decimal 95 100; decimal 93 100; decimal 70 100]
        = [Auto; Deliberate; Quarantine]
  | Panic => False
  end ∧ for_noul (decimal 30 100) (decimal 10 100) = Panic.
Proof. vm_compute. done. Qed.

(** ** Questions and failures (question.rs, error.rs) *)

Definition MAX_CHOICE_OPTIONS : Z := 255.
Definition MAX_SCORE_LEVELS : Z := 10.

Inductive QuestionError : Type :=
| EmptyInstructions
| TooFewOptions (n : Z)
| TooManyOptions (n : Z)
| DuplicateOption (key : string)
| TooFewLevels (n : Z)
| TooManyLevels (n : Z)
| DuplicateId (id : string)
| EmptySet.

Inductive Question : Type :=
| Choice (instructions : string) (options : list (string * string))
| Score (instructions : string) (levels : list string)
| Noul (instructions : string) (when_true when_false : option string).

(** ** Builders *)

Definition checked_instructions (value : string) : result QuestionError string :=
  if is_blank value then Err EmptyInstructions else Ok value.

Definition len {A} (l : list A) : Z := Z.of_nat (length l).

(** The options in the order written, up to the first repeated key. *)
Fixpoint collect_options (collected : list (string * string)) (options : list (string * string))
    : result QuestionError (list (string * string)) :=
  match options with
  | [] => Ok collected
  | (key, description) :: options =>
      if bool_decide (key ∈ map fst collected) then Err (DuplicateOption key)
      else collect_options (collected ++ [(key, description)]) options
  end.

Definition choice (instructions_text : string) (options : list (string * string)) : result QuestionError Question :=
  match checked_instructions instructions_text with
  | Err e => Err e
  | Ok instructions =>
      match collect_options [] options with
      | Err e => Err e
      | Ok collected =>
          if len collected <? 2 then Err (TooFewOptions (len collected))
          else if MAX_CHOICE_OPTIONS <? len collected then Err (TooManyOptions (len collected))
          else Ok (Choice instructions collected)
      end
  end.

Definition score (instructions_text : string) (levels : list string) : result QuestionError Question :=
  match checked_instructions instructions_text with
  | Err e => Err e
  | Ok instructions =>
      if len levels <? 2 then Err (TooFewLevels (len levels))
      else if MAX_SCORE_LEVELS <? len levels then Err (TooManyLevels (len levels))
      else Ok (Score instructions levels)
  end.

Definition noul (instructions_text : string) : result QuestionError Question :=
  match checked_instructions instructions_text with
  | Err e => Err e
  | Ok instructions => Ok (Noul instructions None None)
  end.

Definition noul_with_criteria (instructions_text when_true when_false : string) : result QuestionError Question :=
  match checked_instructions instructions_text with
  | Err e => Err e
  | Ok instructions => Ok (Noul instructions (Some when_true) (Some when_false))
  end.

Definition kind (q : Question) : string :=
  match q with Choice _ _ => "choice" | Score _ _ => "score" | Noul _ _ _ => "noul" end.

Definition instructions (q : Question) : string :=
  match q with Choice i _ | Score i _ | Noul i _ _ => i end.

(** ** Sets *)

Definition QuestionSet : Type := list (string * Question).

Fixpoint repeated_id (earlier : list string) (questions : QuestionSet) : option string :=
  match questions with
  | [] => None
  | (id, _) :: questions =>
      if bool_decide (id ∈ earlier) then Some id else repeated_id (earlier ++ [id]) questions
  end.

Definition question_set (questions : QuestionSet) : result QuestionError QuestionSet :=
  match questions with
  | [] => Err EmptySet
  | _ => match repeated_id [] questions with Some id => Err (DuplicateId id) | None => Ok questions end
  end.

Definition question (questions : QuestionSet) (id : string) : option Question := obj_get id questions.

(** ** The wire *)

Definition strings_object (m : list (string * string)) : json := json_object (map (λ kv, (kv.1, JString kv.2)) m).

Definition to_wire (q : Question) : json :=
  match q with
  | Choice instructions options =>
      json_object [("type", JString "choice"); ("instructions", JString instructions); ("criteria", strings_object options)]
  | Score instructions levels =>
      json_object [("type", JString "score"); ("instructions", JString instructions);
                   ("criteria", JArray (map JString levels))]
  | Noul instructions when_true when_false =>
      let criteria :=
        match when_true with Some t => [("true", t)] | None => [] end ++
        match when_false with Some t => [("false", t)] | None => [] end in
      json_object ([("type", JString "noul"); ("instructions", JString instructions)] ++
                   match criteria with [] => [] | _ => [("criteria", strings_object criteria)] end)
  end.

Definition set_to_wire (questions : QuestionSet) : json := json_object (map (λ iq, (iq.1, to_wire iq.2)) questions).

(** The digest of the exact wording: the [to_vec] of a [Value] does not fail. *)
Definition digest `{JsonText, Crypto} (questions : QuestionSet) : string :=
  "sha256:" +:+ to_hex (sha256 (as_bytes (print_json
    (JArray (map (λ iq, JArray [JString iq.1; to_wire iq.2]) questions))))).

(** ** Failures (error.rs) *)

Inductive ErrorKind : Type :=
| NotConfigured | Timeout | Transport | RateLimited | ProviderUnavailable | Unauthorized | InvalidRequest
| SchemaViolation | Redirected.

#[export] Instance error_kind_eq_dec : EqDecision ErrorKind.
Proof. solve_decision. Defined.

Definition error_kind_text (k : ErrorKind) : string :=
  match k with
  | NotConfigured => "not_configured" | Timeout => "timeout" | Transport => "transport"
  | RateLimited => "rate_limited" | ProviderUnavailable => "provider_unavailable"
  | Unauthorized => "unauthorized" | InvalidRequest => "invalid_request"
  | SchemaViolation => "schema_violation" | Redirected => "redirected"
  end.

Definition for_status (status : Z) : ErrorKind :=
  if bool_decide (status = 401 ∨ status = 403) then Unauthorized
  else if bool_decide (status = 422) then InvalidRequest
  else if bool_decide (status = 429) then RateLimited
  else if (500 <=? status) && (status <=? 599) then ProviderUnavailable
  else InvalidRequest.

(** ** What the builders build *)

(** The limits of the endpoint: distinct options, two at least. *)
Definition well_formed (q : Question) : Prop :=
  is_blank (instructions q) = false ∧
  match q with
  | Choice _ options => NoDup (map fst options) ∧ 2 ≤ len options ≤ MAX_CHOICE_OPTIONS
  | Score _ levels => 2 ≤ len levels ≤ MAX_SCORE_LEVELS
  | Noul _ _ _ => True
  end.

Definition well_formed_set (questions : QuestionSet) : Prop :=
  questions ≠ [] ∧ NoDup (map fst questions) ∧ Forall (λ iq, well_formed iq.2) questions.

Lemma checked_instructions_ok value i : checked_instructions value = Ok i → i = value ∧ is_blank i = false.
Proof. unfold checked_instructions. destruct (is_blank value) eqn:E; [done|]. by intros [= <-]. Qed.

Lemma collect_options_ok collected options l :
  collect_options collected options = Ok l →
  NoDup (map fst collected) → l = collected ++ options ∧ NoDup (map fst l).
Proof.
  revert collected. induction options as [|[key d] options IH]; intros collected; simpl.
  { intros [= <-] ?. by rewrite app_nil_r. }
  case_bool_decide as Hin; [done|]. intros Hl Hnd.
  destruct (IH _ Hl) as [-> ?]; [|by rewrite <-app_assoc in *].
  rewrite map_app. simpl. apply NoDup_app. split; [done|]. split; [|by apply NoDup_singleton].
  by intros x Hx ->%list_elem_of_singleton.
Qed.

Lemma collect_options_err collected options e :
  collect_options collected options = Err e → ¬ NoDup (map fst (collected ++ options)).
Proof.
  revert collected. induction options as [|[key d] options IH]; intros collected; simpl; [done|].
  case_bool_decide as Hin; intros He; [|apply IH in He; by rewrite <-app_assoc in He].
  rewrite map_app. intros (_ & Hd & _)%NoDup_app. apply (Hd key Hin). by left.
Qed.

(** A choice is built exactly from a text that says something and two to 255
    options under keys of their own. *)
Lemma choice_built text options :
  (∃ q, choice text options = Ok q) ↔ well_formed (Choice text options).
Proof.
  unfold choice, well_formed, checked_instructions. simpl. destruct (is_blank text); simpl.
  { split; [by intros [? ?]|by intros [? _]]. }
  destruct (collect_options [] options) as [l|e] eqn:Hc.
  - destruct (collect_options_ok _ _ _ Hc) as [-> Hnd]; [apply NoDup_nil_2|]. simpl in *.
    destruct (Z.ltb_spec (len options) 2); [split; [by intros [? ?]|lia]|].
    destruct (Z.ltb_spec MAX_CHOICE_OPTIONS (len options)); [split; [by intros [? ?]|lia]|].
    split; [|eauto]. intros _. split; [done|]. split; [done|lia].
  - apply collect_options_err in Hc. split; [by intros [? ?]|by intros (_ & ? & _)].
Qed.

Lemma score_built text levels : (∃ q, score text levels = Ok q) ↔ well_formed (Score text levels).
Proof.
  unfold score, well_formed, checked_instructions. simpl. destruct (is_blank text); simpl.
  { split; [by intros [? ?]|by intros [? _]]. }
  destruct (Z.ltb_spec (len levels) 2); [split; [by intros [? ?]|lia]|].
  destruct (Z.ltb_spec MAX_SCORE_LEVELS (len levels)); [split; [by intros [? ?]|lia]|].
  split; [|eauto]. intros _. split; [done|lia].
Qed.

Lemma repeated_id_none earlier questions :
  repeated_id earlier questions = None → NoDup earlier → NoDup (earlier ++ map fst questions).
Proof.
  revert earlier. induction questions as [|[id q] questions IH]; intros earlier; simpl; [by rewrite app_nil_r|].
  case_bool_decide as Hin; [done|]. intros Hr Hnd. apply IH in Hr; [by rewrite <-app_assoc in Hr|].
  apply NoDup_app. split; [done|]. split; [|by apply NoDup_singleton]. by intros x Hx ->%list_elem_of_singleton.
Qed.

Lemma question_set_ok questions qs :
  question_set questions = Ok qs → qs = questions ∧ questions ≠ [] ∧ NoDup (map fst questions).
Proof.
  unfold question_set. destruct questions as [|iq questions]; [done|].
  destruct (repeated_id [] (iq :: questions)) eqn:Hr; [done|]. intros [= <-]. split; [done|]. split; [done|].
  exact (repeated_id_none [] (iq :: questions) Hr NoDup_nil_2).
Qed.

Example builders :
  choice "Which team?" [("a", "x"); ("a", "y")] = Err (DuplicateOption "a") ∧
  choice "Which team?" [("a", "x")] = Err (TooFewOptions 1) ∧
  score "  " ["low"; "high"] = Err EmptyInstructions ∧
  question_set [] = Err EmptySet.
Proof. vm_compute. done. Qed.
