(* ===== verification/JudgmentDecode.v ===== *)
(** * Untrusted bodies into typed answers (crates/heiwa_judgment/src/decode.rs)

    A body is checked against the questions it answers.  A message is kept as
    the parts it is made of, one constructor per text: the question it names,
    what was offered, and counts and numbers. *)

From stdpp Require Import base sets strings numbers list pretty.
From Stdlib Require Import Ascii.
From S2P Require Import Prelude Json Hex Envelope Sensitive Drex CallCosts ProviderHttp Judgment.
#[local] Open Scope Z_scope.

(** ** Messages *)

Inductive Problem : Type :=
| BodyNotAnObject
| NoAnswersObject
| ModelNotAString
| UsageNotAnObject
| UsageNotACount (field : string)
| AnswerNotAnObject (id : string)
| TaggedOtherwise (id kind : string)
| OptionNotOffered (id : string) (offered : list string)
| DistributionNotTheOptions (id : string) (keys : Z) (offered : list string)
| NotTheLevels (id name : string) (keys levels : Z)
| NoLegend (id : string)
| ScoreOutsideScale (id : string) (score top : Z)
| LegendNotAString (id level : string)
| NoStringField (id field : string)
| NoNumericField (id field : string)
| OutsideUnit (id field : string) (value : Z)
| NoProbabilities (id : string)
| SumNotOne (id : string) (total : Z)
| NotAProbability (id key : string).

(** A failure of a call; the ones of this file are schema violations. *)
Record JudgmentError (M : Type) : Type := mkJudgmentError {
  je_kind : ErrorKind;
  je_message : M;
  je_status : option Z;
}.
Arguments mkJudgmentError {M} _ _ _.
Arguments je_kind {M} _.
Arguments je_message {M} _.
Arguments je_status {M} _.

Definition schema {M} (message : M) : JudgmentError M := mkJudgmentError SchemaViolation message None.

Record Usage : Type := mkJudgmentUsage { us_input_tokens : Z; us_output_tokens : Z }.

Record Decoded : Type := mkDecoded {
  dc_model : string;
  dc_answers : list (string * Answer);
  dc_missing : list string;
  dc_usage : Usage;
}.

(** ** Fields *)

Definition in_range (low high value : Z) : bool := f64_leb low value && f64_leb value high.
Definition in_unit (value : Z) : bool := in_range 0 one value.

Definition as_object (v : json) : option (list (string * json)) :=
  match v with JObject m => Some m | _ => None end.

Definition string_field (id : string) (object : json) (field : string) : result Problem string :=
  ok_or (NoStringField id field) (json_get field object ≫= as_str).

Definition finite_field (id : string) (object : json) (field : string) : result Problem Z :=
  match json_get field object ≫= as_f64 with
  | Some value => if f64_is_finite value then Ok value else Err (NoNumericField id field)
  | None => Err (NoNumericField id field)
  end.

Definition unit_field (id : string) (object : json) (field : string) : result Problem Z :=
  value ← finite_field id object field;
  if in_unit value then Ok value else Err (OutsideUnit id field value).

Definition probability_map (id : string) (object : json) : result Problem (list (string * json)) :=
  ok_or (NoProbabilities id) (json_get "probabilities" object ≫= as_object).

Definition probability (id key : string) (value : json) : result Problem Z :=
  match as_f64 value with
  | Some p => if f64_is_finite p && in_unit p then Ok p else Err (NotAProbability id key)
  | None => Err (NotAProbability id key)
  end.

(** [iter.sum()] of floats starts at minus zero. *)
Definition f64_sum (l : list Z) : Z := foldl f64_add (2 ^ 63) l.

Definition slack (count : Z) : Z :=
  f64_add (f64_mul (decimal 5 1000) (bits_of_spec (f64_int count))) (decimal 1 1000000000).

Definition coherent (probabilities : list Z) : bool :=
  negb (f64_ltb (slack (len probabilities)) (f64_abs (f64_sub (f64_sum probabilities) one))).

Definition sums_to_one (id : string) (probabilities : list Z) : result Problem unit :=
  if coherent probabilities then Ok tt else Err (SumNotOne id (f64_sum probabilities)).

(** The keys of a map are exactly these. *)
Definition exactly (keys : list string) (m : list (string * json)) : bool :=
  bool_decide (len m = len keys) && forallb (λ key, bool_decide (is_Some (obj_get key m))) keys.

(** [&map[key]] of a key that [exactly] has checked. *)
Definition at_key (m : list (string * json)) (key : string) : json := default JNull (obj_get key m).

(** ** Answers *)

Fixpoint probabilities_of (id : string) (distribution : list (string * json)) (keys : list string)
    : result Problem (list (string * Z)) :=
  match keys with
  | [] => Ok []
  | key :: keys =>
      p ← probability id key (at_key distribution key);
      rest ← probabilities_of id distribution keys;
      Ok ((key, p) :: rest)
  end.

Definition decode_choice (id : string) (options : list (string * string)) (object : json) : result Problem Answer :=
  let keys := map fst options in
  choice ← string_field id object "choice";
  if negb (bool_decide (choice ∈ keys)) then Err (OptionNotOffered id keys)
  else
    distribution ← probability_map id object;
    if negb (exactly keys distribution) then Err (DistributionNotTheOptions id (len distribution) keys)
    else
      probabilities ← probabilities_of id distribution keys;
      _ ← sums_to_one id (map snd probabilities);
      confidence ← unit_field id object "confidence";
      Ok (ChoiceAnswer choice probabilities confidence).

Definition level_keys (levels : list string) : list string := map pretty (seq 0 (length levels)).

Definition not_the_levels (id : string) (levels : list string) (name : string) (m : list (string * json))
    : result Problem unit :=
  if exactly (level_keys levels) m then Ok tt else Err (NotTheLevels id name (len m) (len levels)).

(** The largest value of a scale; a question has two levels at least. *)
Definition top_of (levels : list string) : Z := bits_of_spec (f64_int (len levels - 1)).

Fixpoint levels_of (id : string) (distribution legend : list (string * json)) (keys : list string)
    : result Problem (list Z * list string) :=
  match keys with
  | [] => Ok ([], [])
  | key :: keys =>
      p ← probability id key (at_key distribution key);
      description ← ok_or (LegendNotAString id key) (as_str (at_key legend key));
      '(probabilities, descriptions) ← levels_of id distribution legend keys;
      Ok (p :: probabilities, description :: descriptions)
  end.

Definition decode_score (id : string) (levels : list string) (object : json) : result Problem Answer :=
  distribution ← probability_map id object;
  legend ← ok_or (NoLegend id) (json_get "legend" object ≫= as_object);
  _ ← not_the_levels id levels "probabilities" distribution;
  _ ← not_the_levels id levels "legend" legend;
  score ← finite_field id object "score";
  if negb (in_range 0 (top_of levels) score) then Err (ScoreOutsideScale id score (top_of levels))
  else
    '(probabilities, descriptions) ← levels_of id distribution legend (level_keys levels);
    _ ← sums_to_one id probabilities;
    confidence ← unit_field id object "confidence";
    Ok (ScoreAnswer score descriptions probabilities confidence).

Definition decode_answer (id : string) (question : Question) (raw : json) : result Problem Answer :=
  if negb (is_object raw) then Err (AnswerNotAnObject id)
  else
    let tagged := match json_get "type" raw with
                  | Some tag => bool_decide (as_str tag = Some (kind question))
                  | None => true
                  end in
    if negb tagged then Err (TaggedOtherwise id (kind question))
    else
      match question with
      | Choice _ options => decode_choice id options raw
      | Score _ levels => decode_score id levels raw
      | Noul _ _ _ => noul ← unit_field id raw "noul"; Ok (NoulAnswer noul)
      end.

(** ** Bodies *)

Definition usage_count (usage : json) (field : string) : result Problem Z :=
  match present field usage with
  | None => Ok 0
  | Some value => ok_or (UsageNotACount field) (as_u64 value)
  end.

Definition decode_usage (raw : option json) : result Problem Usage :=
  match raw with
  | None | Some JNull => Ok (mkJudgmentUsage 0 0)
  | Some usage =>
      if negb (is_object usage) then Err UsageNotAnObject
      else
        input ← usage_count usage "input_tokens";
        output ← usage_count usage "output_tokens";
        Ok (mkJudgmentUsage input output)
  end.

(** Answers in the order of the questions, and the questions without one. *)
Fixpoint decode_answers (answers : list (string * json)) (questions : QuestionSet)
    : result Problem (list (string * Answer) * list string) :=
  match questions with
  | [] => Ok ([], [])
  | (id, question) :: questions =>
      match obj_get id answers with
      | None =>
          '(decoded, missing) ← decode_answers answers questions;
          Ok (decoded, id :: missing)
      | Some raw =>
          answer ← decode_answer id question raw;
          '(decoded, missing) ← decode_answers answers questions;
          Ok ((id, answer) :: decoded, missing)
      end
  end.

Definition decode_body (questions : QuestionSet) (body : json) : result Problem Decoded :=
  if negb (is_object body) then Err BodyNotAnObject
  else
    answers ← ok_or NoAnswersObject (json_get "answers" body ≫= as_object);
    model ← match json_get "model" body with
            | None | Some JNull => Ok "unknown"
            | Some (JString model) => Ok model
            | Some _ => Err ModelNotAString
            end;
    usage ← decode_usage (json_get "usage" body);
    '(decoded, missing) ← decode_answers answers questions;
    Ok (mkDecoded model decoded missing usage).

Definition decode_response (questions : QuestionSet) (body : json) : result (JudgmentError Problem) Decoded :=
  map_err schema (decode_body questions body).

Definition answer_of (d : Decoded) (id : string) : option Answer := obj_get id (dc_answers d).

(** ** Provenance of an answer *)

Inductive ReturnedModel : Type := Requested | Version | Unrecognised.

Record ModelProvenance : Type := mkProvenance {
  mp_requested : string;
  mp_returned : ReturnedModel;
  mp_returned_version : option string;
  mp_returned_digest : option string;
}.

Definition is_digit (a : ascii) : bool := (48 <=? byte_val a) && (byte_val a <=? 57).
Definition is_dash (a : ascii) : bool := bool_decide (a = "-"%char).
Definition is_dot (a : ascii) : bool := bool_decide (a = "."%char).
Definition is_nonempty {A} (l : list A) : bool := match l with [] => false | _ => true end.

(** The digits and dots after [<family>-], if that is what the text is. *)
Definition version_part (family returned : bytes) : option bytes :=
  rest ← strip_prefix family returned;
  version ← strip_prefix ["-"%char] rest;
  if is_nonempty family && forallb is_ascii_alphanumeric family then Some version else None.

Definition is_version (version : bytes) : bool :=
  is_nonempty version && forallb (λ part, is_nonempty part && forallb is_digit part) (split_at is_dot version).

Definition model_provenance `{Crypto} (requested returned : string) : ModelProvenance :=
  if bool_decide (returned = requested) then mkProvenance requested Requested None None
  else
    let family := first_part is_dash (as_bytes requested) in
    match version_part family (as_bytes returned) with
    | Some version =>
        if is_version version then mkProvenance requested Version (Some returned) None
        else mkProvenance requested Unrecognised None (Some ("sha256:" +:+ to_hex (sha256 (as_bytes returned))))
    | None => mkProvenance requested Unrecognised None (Some ("sha256:" +:+ to_hex (sha256 (as_bytes returned))))
    end.

(** ** What an accepted answer is *)

Definition distribution_ok (ps : list Z) : Prop := Forall (λ p, in_unit p = true) ps ∧ coherent ps = true.

Definition answers_question (q : Question) (a : Answer) : Prop :=
  match q, a with
  | Choice _ options, ChoiceAnswer choice probabilities confidence =>
      choice ∈ map fst options ∧ map fst probabilities = map fst options ∧
      distribution_ok (map snd probabilities) ∧ in_unit confidence = true
  | Score _ levels, ScoreAnswer score legend probabilities confidence =>
      in_range 0 (top_of levels) score = true ∧ length legend = length levels ∧
      length probabilities = length levels ∧ distribution_ok probabilities ∧ in_unit confidence = true
  | Noul _ _ _, NoulAnswer noul => in_unit noul = true
  | _, _ => False
  end.

Lemma result_bind_Err {E A B} (m : result E A) (f : A → result E B) e :
  m ≫= f = Err e → m = Err e ∨ ∃ a, m = Ok a ∧ f a = Err e.
Proof. destruct m as [a|e']; [by right; exists a|]. simpl. by left; congruence. Qed.

Tactic Notation "bind_ok" hyp(H) simple_intropattern(x) simple_intropattern(Hx) :=
  apply result_bind_Ok in H as (x & Hx & H).

Lemma unit_field_ok id o field v : unit_field id o field = Ok v → in_unit v = true.
Proof. unfold unit_field. intros H. bind_ok H x Hx. destruct (in_unit x) eqn:E; [by injection H as <-|done]. Qed.

Lemma probability_ok id key v p : probability id key v = Ok p → in_unit p = true.
Proof.
  unfold probability. destruct (as_f64 v) as [q|]; [|done]. destruct (f64_is_finite q && in_unit q) eqn:E; [|done].
  intros [= <-]. by apply andb_true_iff in E as [_ ?].
Qed.

Lemma sums_to_one_ok id ps : sums_to_one id ps = Ok tt → coherent ps = true.
Proof. unfold sums_to_one. by destruct (coherent ps). Qed.

Lemma probabilities_of_ok id d keys ps :
  probabilities_of id d keys = Ok ps → map fst ps = keys ∧ Forall (λ p, in_unit p = true) (map snd ps).
Proof.
  revert ps. induction keys as [|key keys IH]; intros ps; simpl; [by intros [= <-]|].
  intros H. bind_ok H p Hp. bind_ok H rest Hr. injection H as <-. destruct (IH _ Hr) as [Hf Hu]. simpl. split; [by f_equal|].
  apply Forall_cons. split; [by eapply probability_ok|done].
Qed.

Lemma levels_of_ok id d l keys ps ds :
  levels_of id d l keys = Ok (ps, ds) →
  length ps = length keys ∧ length ds = length keys ∧ Forall (λ p, in_unit p = true) ps.
Proof.
  revert ps ds. induction keys as [|key keys IH]; intros ps ds; simpl; [by intros [= <- <-]|].
  intros H. bind_ok H p Hp. bind_ok H x Hx. bind_ok H r Hr. destruct r as [ps' ds']. injection H as <- <-.
  destruct (IH _ _ Hr) as (Hl & Hl' & Hu). simpl. split; [by f_equal|]. split; [by f_equal|].
  apply Forall_cons. split; [by eapply probability_ok|done].
Qed.

Lemma decode_choice_ok id i options o a : decode_choice id options o = Ok a → answers_question (Choice i options) a.
Proof.
  unfold decode_choice. intros H. bind_ok H choice Hc. case_bool_decide as Hin; [|done]. cbn [negb] in H. bind_ok H d Hd.
  destruct (exactly _ _); [|done]. cbn [negb] in H. bind_ok H ps Hps. bind_ok H u Hs. bind_ok H c Hu. injection H as <-.
  destruct u. apply probabilities_of_ok in Hps as [Hf Hp]. simpl. split_and!; [done|done| |by eapply unit_field_ok].
  split; [done|by eapply sums_to_one_ok].
Qed.

Lemma decode_score_ok id i levels o a : decode_score id levels o = Ok a → answers_question (Score i levels) a.
Proof.
  unfold decode_score. intros H. bind_ok H d Hd. bind_ok H l Hl. bind_ok H u1 Hu1. bind_ok H u2 Hu2. bind_ok H s Hs.
  destruct (in_range 0 (top_of levels) s) eqn:Hr; [|done]. cbn [negb] in H. bind_ok H r Hps. destruct r as [ps ds].
  bind_ok H u Hsum. bind_ok H c Hu. injection H as <-. destruct u.
  apply levels_of_ok in Hps as (Hp & Hd' & Hf). unfold level_keys in Hp, Hd'. rewrite length_map, length_seq in Hp, Hd'.
  simpl. split_and!; [done|done|done| |by eapply unit_field_ok]. split; [done|by eapply sums_to_one_ok].
Qed.

Lemma decode_answer_ok id q raw a : decode_answer id q raw = Ok a → answers_question q a.
Proof.
  unfold decode_answer. destruct (is_object raw); [|done]. cbn [negb]. destruct (negb _); [done|]. destruct q as [i options|i levels|i t f].
  - apply decode_choice_ok.
  - apply decode_score_ok.
  - intros H. bind_ok H p Hp. injection H as <-. by eapply unit_field_ok.
Qed.

(** The ids of the questions that were answered, and of those that were not. *)
Definition answered (answers : list (string * json)) (id : string) : bool := bool_decide (is_Some (obj_get id answers)).

Lemma decode_answers_ok answers questions ds ms :
  decode_answers answers questions = Ok (ds, ms) →
  map fst ds = List.filter (answered answers) (map fst questions) ∧
  ms = List.filter (λ id, negb (answered answers id)) (map fst questions) ∧
  (∀ id a, (id, a) ∈ ds → ∃ q, (id, q) ∈ questions ∧ answers_question q a).
Proof.
  revert ds ms. induction questions as [|[id q] questions IH]; intros ds ms; simpl.
  { intros [= <- <-]. split; [reflexivity|]. split; [reflexivity|]. intros id a H. by apply elem_of_nil in H. }
  change (answered answers id) with (bool_decide (is_Some (obj_get id answers))).
  destruct (obj_get id answers) as [raw|] eqn:Hg; simpl; intros H.
  - bind_ok H a Ha. bind_ok H r Hr. destruct r as [ds' ms']. injection H as <- <-. destruct (IH _ _ Hr) as (Hf & Hm & Hq).
    simpl. split; [by f_equal|]. split; [done|]. intros id' a' [[= -> ->]|Hin]%elem_of_cons.
    + exists q. split; [by left|by eapply decode_answer_ok].
    + destruct (Hq _ _ Hin) as (q' & ? & ?). exists q'. split; [by right|done].
  - bind_ok H r Hr. destruct r as [ds' ms']. injection H as <- <-. destruct (IH _ _ Hr) as (Hf & Hm & Hq).
    split; [done|]. split; [by f_equal|]. intros id' a' Hin. destruct (Hq _ _ Hin) as (q' & ? & ?). exists q'. by split; [right|].
Qed.

(** ** What a message names *)

(** The strings in a message; its numbers are the body's. *)
Definition named (p : Problem) : list string :=
  match p with
  | BodyNotAnObject | NoAnswersObject | ModelNotAString | UsageNotAnObject => []
  | UsageNotACount field => [field]
  | AnswerNotAnObject id | NoLegend id | NoProbabilities id | SumNotOne id _ | ScoreOutsideScale id _ _ => [id]
  | TaggedOtherwise id kind => [id; kind]
  | OptionNotOffered id offered | DistributionNotTheOptions id _ offered => id :: offered
  | NotTheLevels id name _ _ => [id; name]
  | LegendNotAString id key | NotAProbability id key => [id; key]
  | NoStringField id field | NoNumericField id field | OutsideUnit id field _ => [id; field]
  end.

Definition fixed_words : list string :=
  ["input_tokens"; "output_tokens"; "choice"; "score"; "noul"; "confidence"; "probabilities"; "legend"].

Definition offered_options (q : Question) : list string :=
  match q with Choice _ options => map fst options | Score _ levels => level_keys levels | Noul _ _ _ => [] end.

(** The questions' own words, and the field names of the wire. *)
Definition words (questions : QuestionSet) : list string :=
  fixed_words ++ concat (map (λ iq, iq.1 :: offered_options iq.2) questions).

Tactic Notation "bind_err" hyp(H) simple_intropattern(x) := apply result_bind_Err in H as [H|(x & _ & H)].

Lemma unit_field_err id o field p : unit_field id o field = Err p → named p = [id; field].
Proof.
  unfold unit_field, finite_field. intros H. bind_err H x.
  - destruct (json_get field o ≫= as_f64) as [v|]; [destruct (f64_is_finite v)|]; by simplify_eq.
  - destruct (in_unit x); by simplify_eq.
Qed.

Lemma probability_err id key v p : probability id key v = Err p → named p = [id; key].
Proof.
  unfold probability. destruct (as_f64 v) as [q|]; [destruct (f64_is_finite q && in_unit q)|]; intros; by simplify_eq.
Qed.

Lemma probabilities_of_err id d keys p : probabilities_of id d keys = Err p → ∃ key, key ∈ keys ∧ named p = [id; key].
Proof.
  induction keys as [|key keys IH]; simpl; [done|]. intros H. bind_err H x.
  - exists key. split; [by left|by eapply probability_err].
  - bind_err H r; [|done]. destruct (IH H) as (k & ? & ?). exists k. by split; [right|].
Qed.

Lemma levels_of_err id d l keys p : levels_of id d l keys = Err p → ∃ key, key ∈ keys ∧ named p = [id; key].
Proof.
  induction keys as [|key keys IH]; simpl; [done|]. intros H. bind_err H x.
  { exists key. split; [by left|by eapply probability_err]. }
  bind_err H ds; [|bind_err H r; [|by destruct r]].
  - unfold ok_or in H. destruct (as_str (at_key l key)); [done|]. injection H as <-. exists key. split; [by left|done].
  - destruct (IH H) as (k & ? & ?). exists k. by split; [right|].
Qed.

Lemma decode_choice_err id options o p :
  decode_choice id options o = Err p → named p ⊆ id :: fixed_words ++ map fst options.
Proof.
  unfold decode_choice. intros H. bind_err H choice.
  { unfold string_field, ok_or in H. destruct (json_get "choice" o ≫= as_str); [done|]. injection H as <-. set_solver. }
  case_bool_decide as Hin; cbn [negb] in H; [|injection H as <-; set_solver]. bind_err H d.
  { unfold probability_map, ok_or in H. destruct (json_get "probabilities" o ≫= as_object); [done|].
    injection H as <-. set_solver. }
  destruct (exactly (map fst options) d); cbn [negb] in H; [|injection H as <-; set_solver]. bind_err H ps.
  { apply probabilities_of_err in H as (key & Hk & ->). set_solver. }
  bind_err H u. { unfold sums_to_one in H. destruct (coherent _); [done|]. injection H as <-. set_solver. }
  bind_err H c; [|done]. rewrite (unit_field_err _ _ _ _ H). set_solver.
Qed.

Lemma not_the_levels_err id levels name m p : not_the_levels id levels name m = Err p → named p = [id; name].
Proof. unfold not_the_levels. destruct (exactly _ m); intros; by simplify_eq. Qed.

Lemma decode_score_err id levels o p :
  decode_score id levels o = Err p → named p ⊆ id :: fixed_words ++ level_keys levels.
Proof.
  unfold decode_score. intros H. bind_err H d.
  { unfold probability_map, ok_or in H. destruct (json_get "probabilities" o ≫= as_object); [done|].
    injection H as <-. set_solver. }
  bind_err H l. { unfold ok_or in H. destruct (json_get "legend" o ≫= as_object); [done|]. injection H as <-. set_solver. }
  bind_err H u1; [rewrite (not_the_levels_err _ _ _ _ _ H); set_solver|].
  bind_err H u2; [rewrite (not_the_levels_err _ _ _ _ _ H); set_solver|].
  bind_err H s.
  { unfold finite_field in H. destruct (json_get "score" o ≫= as_f64) as [v|]; [destruct (f64_is_finite v); [done|]|];
      injection H as <-; set_solver. }
  destruct (in_range 0 (top_of levels) s); cbn [negb] in H; [|injection H as <-; set_solver]. bind_err H r.
  { apply levels_of_err in H as (key & Hk & ->). set_solver. }
  destruct r as [ps ds]. bind_err H u. { unfold sums_to_one in H. destruct (coherent ps); [done|]. injection H as <-. set_solver. }
  bind_err H c; [|done]. rewrite (unit_field_err _ _ _ _ H). set_solver.
Qed.

Lemma decode_answer_err id q raw p :
  decode_answer id q raw = Err p → named p ⊆ id :: fixed_words ++ offered_options q.
Proof.
  unfold decode_answer. destruct (is_object raw); cbn [negb]; [|intros [= <-]; set_solver].
  destruct (negb _); [intros [= <-]; destruct q; simpl; set_solver|]. destruct q as [i options|i levels|i t f].
  - apply decode_choice_err.
  - apply decode_score_err.
  - intros H. bind_err H v; [|done]. rewrite (unit_field_err _ _ _ _ H). set_solver.
Qed.

Lemma decode_answers_err answers questions p : decode_answers answers questions = Err p → named p ⊆ words questions.
Proof.
  induction questions as [|[id q] questions IH]; simpl; [done|].
  assert (words questions ⊆ words ((id, q) :: questions)) as Hw by (unfold words; set_solver).
  destruct (obj_get id answers) as [raw|]; intros H.
  - bind_err H a; [apply decode_answer_err in H; unfold words; set_solver|]. bind_err H r; [|by destruct r].
    apply IH in H. set_solver.
  - bind_err H r; [|by destruct r]. apply IH in H. set_solver.
Qed.

Lemma decode_usage_err raw p : decode_usage raw = Err p → named p ⊆ fixed_words.
Proof.
  assert (∀ u f, f ∈ fixed_words → usage_count u f = Err p → named p ⊆ fixed_words) as Hc.
  { intros u f Hf. unfold usage_count, ok_or. destruct (present f u) as [v|]; [|done].
    destruct (as_u64 v); [done|]. intros [= <-]. simpl. set_solver. }
  unfold decode_usage. destruct raw as [[]|]; try done; cbn [is_object negb]; try (intros [= <-]; set_solver).
  intros H. bind_err H i; [eapply Hc; [|exact H]; set_solver|].
  bind_err H o; [eapply Hc; [|exact H]; set_solver|done].
Qed.

Lemma decode_body_err questions body p : decode_body questions body = Err p → named p ⊆ words questions.
Proof.
  unfold decode_body. destruct (is_object body); cbn [negb]; [|intros [= <-]; set_solver]. intros H. bind_err H answers.
  { unfold ok_or in H. destruct (json_get "answers" body ≫= as_object); [done|]. injection H as <-. set_solver. }
  bind_err H model. { destruct (json_get "model" body) as [[]|]; simplify_eq; set_solver. }
  bind_err H usage. { apply decode_usage_err in H. unfold words. set_solver. }
  bind_err H r; [by apply decode_answers_err in H|by destruct r].
Qed.

(** C23. What comes out of an untrusted body is what was asked.  A decoded body has
    answers to questions that were asked only, in their order, the others listed
    as missing; every answer is of its question's kind: a choice that was
    offered with a coherent distribution over exactly the offered options, a
    score on its scale with one coherent probability and one description per
    level, every probability and confidence a number in [0, 1].  A body that
    is refused is a schema violation whose message names nothing but the
    questions' own words and the wire's field names, never a string of the
    body. *)
Theorem decoded_answers_are_sound (questions : QuestionSet) (body : json) :
  match decode_response questions body with
  | Ok d =>
      ∃ answers, (json_get "answers" body ≫= as_object) = Some answers ∧
      map fst (dc_answers d) = List.filter (answered answers) (map fst questions) ∧
      dc_missing d = List.filter (λ id, negb (answered answers id)) (map fst questions) ∧
      ∀ id a, (id, a) ∈ dc_answers d → ∃ q, (id, q) ∈ questions ∧ answers_question q a
  | Err e => je_kind e = SchemaViolation ∧ je_status e = None ∧ named (je_message e) ⊆ words questions
  end.
Proof.
  unfold decode_response. destruct (decode_body questions body) as [d|p] eqn:Hd; simpl.
  2:{ split; [done|]. split; [done|by eapply decode_body_err]. }
  unfold decode_body in Hd. destruct (is_object body); [|done]. cbn [negb] in Hd. bind_ok Hd answers Ha.
  bind_ok Hd model Hm. bind_ok Hd usage Hu. bind_ok Hd r Hr. destruct r as [ds ms]. injection Hd as <-.
  exists answers. split; [|by apply (decode_answers_ok answers)].
  unfold ok_or in Ha. destruct (json_get "answers" body ≫= as_object); by simplify_eq.
Qed.
