(* ===== verification/System1.v ===== *)
(** * System 1 backends (crates/heiwa_judgment/src/backend.rs)

    One request per evaluation, to the native endpoint or to a fallback model
    whose selections are reshaped into the native answer.  The HTTP client and
    the clock are arguments. *)

From stdpp Require Import base sets strings numbers list pretty.
From Stdlib Require Import Ascii.
From S2P Require Import Prelude Json Hex Envelope ReferenceText Sensitive Drex CallCosts ProviderHttp.
From S2P Require Import Judgment JudgmentDecode.
#[local] Open Scope Z_scope.

Definition TYPESAFE_BASE_URL : string := "https://api.typesafe.ai".
Definition TYPESAFE_PATH : string := "/v1/systemone".
Definition TYPESAFE_DEFAULT_MODEL : string := "jev-1.13.0".
Definition CHAT_COMPLETIONS_PATH : string := "/v1/chat/completions".
Definition FALLBACK_CONFIDENCE_CEILING : Z := decimal 85 100.
Definition BASE_OUTPUT_TOKENS : Z := 512.
Definition TOKENS_PER_QUESTION : Z := 256.

Inductive Backend : Type :=
| TypeSafe (base_url api_key model : string)
| StructuredLlm (base_url : string) (api_key : option string) (model : string) (confidence_ceiling : Z).

Definition typesafe_at (base_url api_key model : string) : Backend := TypeSafe base_url api_key model.
Definition typesafe_backend (api_key model : string) : Backend := typesafe_at TYPESAFE_BASE_URL api_key model.
Definition structured_llm (base_url model : string) : Backend :=
  StructuredLlm base_url None model FALLBACK_CONFIDENCE_CEILING.

Definition backend_name (b : Backend) : string :=
  match b with TypeSafe _ _ _ => "typesafe" | StructuredLlm _ _ _ _ => "structured_llm" end.
Definition backend_model (b : Backend) : string :=
  match b with TypeSafe _ _ model | StructuredLlm _ _ model _ => model end.
Definition confidence_ceiling (b : Backend) : option Z :=
  match b with TypeSafe _ _ _ => None | StructuredLlm _ _ _ ceiling => Some ceiling end.

(** The host of a URL, when it parses and has one. *)
Definition is_remote (host : string → option string) (b : Backend) : bool :=
  match b with
  | TypeSafe _ _ _ => true
  | StructuredLlm base_url _ _ _ =>
      match host base_url with
      | Some host => negb (bool_decide (host ∈ ["127.0.0.1"; "localhost"; "[::1]"; "::1"]))
      | None => true
      end
  end.

(** ** Failures of a call *)

(** How the client reports that a request did not complete. *)
Inductive TransportFault : Type := TimedOut | NotConnected | BodyUnreadable | OtherFault.

Inductive FailureText : Type :=
| Refused (p : Problem)
| NoApiKey
| ClientNotBuilt
| CallFailed (what : string) (f : TransportFault)
| AnsweredRedirect (what : string) (status : Z)
| ReturnedStatus (what : string) (status : Z)
| NonJsonBody (what : string)
| BudgetWhileReasoning (what : string) (reasoning : Z)
| TruncatedBeforeAnswer (what : string)
| OnlyReasoning (what : string) (reasoning : Z)
| NoContent (what : string)
| ContentNotJson (what : string).

Notation Failure := (JudgmentError FailureText).

Definition transport_error (f : TransportFault) (what : string) : Failure :=
  mkJudgmentError (match f with TimedOut => Timeout | _ => Transport end) (CallFailed what f) None.

(** The two ends of a response: its status, and its body or why it broke off. *)
Record Response : Type := mkAnswer { an_status : Z; an_body : result TransportFault bytes }.

Record Evaluation : Type := mkEvaluation {
  ev_backend : string;
  ev_requested_model : string;
  ev_latency_ms : Z;
  ev_budget_ms : Z;
  ev_outcome : result Failure Decoded;
}.

Definition over_budget (e : Evaluation) : bool := ev_budget_ms e <? ev_latency_ms e.

(** ** The client *)

(** What the client is built to do: never follow a redirect, and reach a local
    backend without a proxy. *)
Record HttpPolicy : Type := mkHttpPolicy { hp_follows_redirects : bool; hp_proxy : bool }.

Record System1Client : Type := mkClient { cl_backend : Backend; cl_http : HttpPolicy }.

Definition client_policy (host : string → option string) (b : Backend) : HttpPolicy := mkHttpPolicy false (is_remote host b).

Definition new_client (host : string → option string) (builds : bool) (b : Backend) : result Failure System1Client :=
  if builds then Ok (mkClient b (client_policy host b)) else Err (mkJudgmentError NotConfigured ClientNotBuilt None).

Definition endpoint (base_url path : string) : string := trim_slashes base_url +:+ path.

Section backend.
Context `{JsonText}.

(** [serde_json::from_slice] takes UTF-8 only. *)
Variable utf8 : bytes → option string.

(** The client, with its policy: a request answered within the budget. *)
Variable http : HttpPolicy → HttpRequest → result TransportFault Response.

Definition is_redirection (status : Z) : bool := (300 <=? status) && (status <=? 399).
Definition is_ok_status (status : Z) : bool := (200 <=? status) && (status <=? 299).

Definition post_json (policy : HttpPolicy) (request : HttpRequest) (what : string) : result Failure json :=
  match http policy request with
  | Err f => Err (transport_error f what)
  | Ok response =>
      let status := an_status response in
      if is_redirection status then Err (mkJudgmentError Redirected (AnsweredRedirect what status) (Some status))
      else
        match an_body response with
        | Err f => Err (transport_error f what)
        | Ok body =>
            if negb (is_ok_status status)
            then Err (mkJudgmentError (for_status status) (ReturnedStatus what status) (Some status))
            else match utf8 body ≫= from_str_value with
                 | Some v => Ok v
                 | None => Err (schema (NonJsonBody what))
                 end
        end
  end.

Definition refused (r : result (JudgmentError Problem) Decoded) : result Failure Decoded :=
  map_err (λ e, mkJudgmentError (je_kind e) (Refused (je_message e)) (je_status e)) r.

Definition typesafe_request (base_url api_key model state : string) (questions : QuestionSet) : HttpRequest :=
  mkRequest "POST" (endpoint base_url TYPESAFE_PATH) [bearer api_key; ("accept", "application/json")]
    (Some (json_object [("state", JString state); ("model", JString model); ("questions", set_to_wire questions)])).

Definition typesafe (policy : HttpPolicy) (base_url api_key model state : string) (questions : QuestionSet)
    : result Failure Decoded :=
  if is_blank api_key then Err (mkJudgmentError NotConfigured NoApiKey None)
  else
    response ← post_json policy (typesafe_request base_url api_key model state questions) "TypeSafe";
    refused (decode_response questions response).

(** ** What the fallback is asked *)

Definition num (z : Z) : json := JNumber (PosInt z).
Definition strings (l : list string) : json := JArray (map JString l).
Definition unit_schema : json :=
  json_object [("type", JString "number"); ("minimum", num 0); ("maximum", num 1)].

Definition object_schema (description : string) (properties : list (string * json)) (required : list string) : json :=
  json_object [("type", JString "object"); ("description", JString description); ("properties", json_object properties);
               ("required", strings required); ("additionalProperties", JBool false)].

Definition answer_schema (q : Question) : json :=
  match q with
  | Choice instructions options =>
      object_schema instructions
        [("choice", json_object [("type", JString "string"); ("enum", strings (map fst options))]); ("confidence", unit_schema)]
        ["choice"; "confidence"]
  | Score instructions levels =>
      object_schema instructions
        [("level", json_object [("type", JString "integer");
                                ("enum", JArray (map (λ i, num (Z.of_nat i)) (seq 0 (length levels))))]);
         ("confidence", unit_schema)]
        ["level"; "confidence"]
  | Noul instructions _ _ => object_schema instructions [("noul", unit_schema)] ["noul"]
  end.

Definition json_schema (questions : QuestionSet) : json :=
  json_object [("type", JString "object");
               ("properties", json_object (map (λ iq, (iq.1, answer_schema iq.2)) questions));
               ("required", strings (map fst questions)); ("additionalProperties", JBool false)].

Definition criterion (name : string) (text : option string) : list string :=
  match text with Some text => ["    " +:+ name +:+ " means: " +:+ text] | None => [] end.

Definition question_lines (iq : string * Question) : list string :=
  let '(id, q) := iq in
  match q with
  | Choice instructions options =>
      ("- " +:+ id +:+ " (choice): " +:+ instructions) ::
      map (λ kd, "    " +:+ kd.1 +:+ ": " +:+ kd.2) options
  | Score instructions levels =>
      ("- " +:+ id +:+ " (score, one level 0.." +:+ pretty (len levels - 1) +:+ "): " +:+ instructions) ::
      zip_with (λ key description, "    " +:+ key +:+ ": " +:+ description) (level_keys levels) levels
  | Noul instructions when_true when_false =>
      ("- " +:+ id +:+ " (noul, probability 0..1 that this is true): " +:+ instructions) ::
      criterion "true" when_true ++ criterion "false" when_false
  end.

Definition render_prompt (state : string) (questions : QuestionSet) : string :=
  String.concat (String newline EmptyString)
    (["Evaluate the STATE below against each question independently.";
      "Answer only from the state. Do not explain. Emit JSON matching the schema.";
      "For each choice pick one option, for each score pick one level, and give each a confidence from 0 to 1.";
      ""; "STATE:"; state; ""; "QUESTIONS:"] ++ concat (map question_lines questions)).

Definition SYSTEM_PROMPT : string :=
  "You are a classification engine. You emit only JSON conforming to the supplied schema.".

(** [questions.len() as u32], and the sum of two [u32]s. *)
Definition max_tokens (questions : QuestionSet) : Z :=
  (BASE_OUTPUT_TOKENS + TOKENS_PER_QUESTION * as_u32 (len questions)) mod 2 ^ 32.

Definition structured_body (model state : string) (questions : QuestionSet) : json :=
  let message role content := json_object [("role", JString role); ("content", JString content)] in
  json_object [
    ("model", JString model);
    ("temperature", num 0);
    ("max_tokens", num (max_tokens questions));
    ("messages", JArray [message "system" SYSTEM_PROMPT; message "user" (render_prompt state questions)]);
    ("response_format", json_object [
       ("type", JString "json_schema");
       ("json_schema", json_object [("name", JString "system_one_answers"); ("strict", JBool true);
                                    ("schema", json_schema questions)])])].

Definition structured_request (base_url : string) (api_key : option string) (model state : string)
    (questions : QuestionSet) : HttpRequest :=
  mkRequest "POST" (endpoint base_url CHAT_COMPLETIONS_PATH)
    (match nonempty api_key with Some key => [bearer key] | None => [] end)
    (Some (structured_body model state questions)).

(** ** What the fallback answered *)

Definition no_answer (what : string) (choice : json) : Failure :=
  let reasoning := default 0 (str_len <$> as_str (member (member choice "message") "reasoning")) in
  let truncated := bool_decide (as_str (member choice "finish_reason") = Some "length") in
  schema (if truncated then
            if 0 <? reasoning then BudgetWhileReasoning what reasoning else TruncatedBeforeAnswer what
          else if 0 <? reasoning then OnlyReasoning what reasoning else NoContent what).

Definition capped_confidence (answer : json) (ceiling : Z) : json :=
  match json_get "confidence" answer ≫= as_f64 with
  | Some confidence => f64_json (f64_min confidence ceiling)
  | None => member answer "confidence"
  end.

(** The level as it was given, as text: the key its mass goes to. *)
Definition level_text (level : json) : string :=
  match level with JNumber number => number_text number | other => print_json other end.

Definition point_mass (chosen : json) (options : list (string * string)) : json :=
  json_object (map (λ kd, (kd.1, f64_json (if bool_decide (as_str chosen = Some kd.1) then one else 0))) options).

Definition mass_of_level (level : json) (levels : list string) : json :=
  json_object (map (λ key, (key, f64_json 0)) (level_keys levels) ++ [(level_text level, f64_json one)]).

Definition by_level (levels : list string) : json :=
  json_object (zip_with (λ key level, (key, JString level)) (level_keys levels) levels).

Definition translate_answer (q : Question) (ceiling : Z) (answer : json) : json :=
  match q with
  | Choice _ options =>
      let choice := member answer "choice" in
      json_object [("type", JString "choice"); ("choice", choice); ("probabilities", point_mass choice options);
                   ("confidence", capped_confidence answer ceiling)]
  | Score _ levels =>
      let level := member answer "level" in
      let score := match as_u64 level with Some index => f64_json (bits_of_spec (f64_int index)) | None => level end in
      json_object [("type", JString "score"); ("score", score); ("legend", by_level levels);
                   ("probabilities", mass_of_level level levels); ("confidence", capped_confidence answer ceiling)]
  | Noul _ _ _ => json_object [("type", JString "noul"); ("noul", member answer "noul")]
  end.

Definition translated (raw : json) (ceiling : Z) (iq : string * Question) : option (string * json) :=
  answer ← json_get iq.1 raw;
  if is_object answer then Some (iq.1, translate_answer iq.2 ceiling answer) else None.

(** A body that is no object has no answers ([json_get] finds nothing in it). *)
Definition translate (raw : json) (questions : QuestionSet) (ceiling : Z) : json :=
  json_object (omap (translated raw ceiling) questions).

Definition documented (model : string) (usage raw : json) (questions : QuestionSet) (ceiling : Z) : json :=
  json_object [
    ("model", JString model);
    ("answers", translate raw questions ceiling);
    ("usage", json_object [("input_tokens", num (default 0 (as_u64 (member usage "prompt_tokens"))));
                           ("output_tokens", num (default 0 (as_u64 (member usage "completion_tokens"))))])].

Definition structured (policy : HttpPolicy) (base_url : string) (api_key : option string) (model : string)
    (ceiling : Z) (state : string) (questions : QuestionSet) : result Failure Decoded :=
  let what := "structured-llm(" +:+ model +:+ ")" in
  completion ← post_json policy (structured_request base_url api_key model state questions) what;
  let choice := element (member completion "choices") 0 in
  let content := str_or EmptyString (member (member choice "message") "content") in
  if is_blank content then Err (no_answer what choice)
  else
    match from_str_value content with
    | None => Err (schema (ContentNotJson what))
    | Some raw =>
        refused (decode_response questions (documented model (member completion "usage") raw questions ceiling))
    end.

(** ** An evaluation *)

Definition outcome_of (c : System1Client) (state : string) (questions : QuestionSet) : result Failure Decoded :=
  match cl_backend c with
  | TypeSafe base_url api_key model => typesafe (cl_http c) base_url api_key model state questions
  | StructuredLlm base_url api_key model ceiling =>
      structured (cl_http c) base_url api_key model ceiling state questions
  end.

(** The milliseconds the clock counted, and the budget's. *)
Definition evaluate (c : System1Client) (state : string) (questions : QuestionSet) (elapsed budget : Z) : Evaluation :=
  mkEvaluation (backend_name (cl_backend c)) (backend_model (cl_backend c)) elapsed budget
    (outcome_of c state questions).

End backend.

(** ** The fallback's answers *)

Lemma json_object_elem k v fields : json_get k (json_object fields) = Some v → (k, v) ∈ fields.
Proof.
  rewrite json_get_object.
  assert (∀ o, foldl (λ o '(k', v), if bool_decide (k = k') then Some v else o) o fields = Some v →
               o = Some v ∨ (k, v) ∈ fields) as Hg.
  { induction fields as [|[k' v'] fields IH]; intros o H; simpl in H; [by left|].
    destruct (IH _ H) as [Ho|?]; [|right; by right]. case_bool_decide as Hk; [|by left].
    right. subst k'. injection Ho as ->. by left. }
  intros H. by destruct (Hg _ H).
Qed.

Lemma f64_min_le_r a b : f64_is_nan b = false → f64_leb (f64_min a b) b = true.
Proof.
  intros Hb. unfold f64_min. destruct (f64_is_nan a) eqn:Ha; [by apply f64_leb_refl|]. rewrite Hb.
  destruct (f64_ltb b a) eqn:Hlt; [by apply f64_leb_refl|]. revert Hlt. unfold f64_ltb, f64_leb, f64_partial_cmp.
  rewrite Ha, Hb. simpl. rewrite (Z.compare_antisym (f64_key b)). by destruct (Z.compare _ _).
Qed.

Lemma f64_leb_not_ltb a b : f64_leb a b = true → f64_ltb b a = false.
Proof.
  unfold f64_ltb, f64_leb, f64_partial_cmp. destruct (f64_is_nan a), (f64_is_nan b); simpl; try done.
  rewrite (Z.compare_antisym (f64_key a)). by destruct (Z.compare _ _).
Qed.

(** A capped field reads below its ceiling. *)
Lemma capped_field id answer ceiling object c :
  f64_is_nan ceiling = false →
  (∀ v, json_get "confidence" object = Some v → v = capped_confidence answer ceiling) →
  unit_field id object "confidence" = Ok c → f64_leb c ceiling = true.
Proof.
  intros Hn Hv. unfold unit_field, finite_field. destruct (json_get "confidence" object) as [v|]; [|done].
  rewrite (Hv v eq_refl). simpl. unfold capped_confidence.
  destruct (json_get "confidence" answer ≫= as_f64) as [x|] eqn:Hx.
  - unfold f64_json. destruct (f64_is_finite (f64_min x ceiling)) eqn:Hf; [|done]. simpl. rewrite Hf. simpl.
    destruct (in_unit _); [|done]. intros [= <-]. by apply f64_min_le_r.
  - unfold member. destruct (json_get "confidence" answer) as [w|]; [|done]. simpl in *. by rewrite Hx.
Qed.

(** The confidence a decoded answer has was read from its body. *)
Lemma decoded_confidence id q raw a :
  decode_answer id q raw = Ok a →
  (∃ noul, a = NoulAnswer noul) ∨ unit_field id raw "confidence" = Ok (confidence a).
Proof.
  unfold decode_answer. destruct (is_object raw); [|done]. cbn [negb]. destruct (negb _); [done|].
  destruct q as [i options|i levels|i t f]; intros H.
  - right. unfold decode_choice in H. bind_ok H choice Hc. destruct (negb _); [done|]. bind_ok H d Hd.
    destruct (negb _); [done|]. bind_ok H ps Hps. bind_ok H u Hs. bind_ok H c Hu. by injection H as <-.
  - right. unfold decode_score in H. bind_ok H d Hd. bind_ok H l Hl. bind_ok H u1 Hu1. bind_ok H u2 Hu2. bind_ok H s Hs.
    destruct (negb _); [done|]. bind_ok H r Hps. destruct r as [ps ds]. bind_ok H u Hsum. bind_ok H c Hu. by injection H as <-.
  - left. bind_ok H p Hp. injection H as <-. by exists p.
Qed.

Lemma decode_answers_from answers questions ds ms id a :
  decode_answers answers questions = Ok (ds, ms) → (id, a) ∈ ds →
  ∃ q raw, (id, q) ∈ questions ∧ obj_get id answers = Some raw ∧ decode_answer id q raw = Ok a.
Proof.
  revert ds ms. induction questions as [|[id' q] questions IH]; intros ds ms; simpl.
  { intros [= <- <-] H. by apply elem_of_nil in H. }
  destruct (obj_get id' answers) as [raw|] eqn:Hg; intros H.
  - bind_ok H x Hx. bind_ok H r Hr. destruct r as [ds' ms']. injection H as <- <-. intros [[= -> ->]|Hin]%elem_of_cons.
    + exists q, raw. split; [by left|done].
    + destruct (IH _ _ Hr Hin) as (q' & raw' & ? & ? & ?). exists q', raw'. by split; [right|].
  - bind_ok H r Hr. destruct r as [ds' ms']. injection H as <- <-. intros Hin.
    destruct (IH _ _ Hr Hin) as (q' & raw' & ? & ? & ?). exists q', raw'. by split; [right|].
Qed.

Section fallback.
Context `{JsonText}.
Variable utf8 : bytes → option string.
Variable http : HttpPolicy → HttpRequest → result TransportFault Response.

Lemma translated_confidence q ceiling answer v :
  json_get "confidence" (translate_answer q ceiling answer) = Some v → v = capped_confidence answer ceiling.
Proof.
  destruct q as [i options|i levels|i t f]; intros Hv%json_object_elem;
    repeat (apply elem_of_cons in Hv as [Hv|Hv]; [by simplify_eq|]); by apply elem_of_nil in Hv.
Qed.

Lemma translated_answer raw questions ceiling id v :
  json_get id (translate raw questions ceiling) = Some v → ∃ q answer, v = translate_answer q ceiling answer.
Proof.
  intros Hv%json_object_elem. apply list_elem_of_omap in Hv as ([id' q] & _ & Ht). unfold translated in Ht.
  apply bind_Some in Ht as (answer & _ & Ht). destruct (is_object answer); [|done]. injection Ht as _ <-. by exists q, answer.
Qed.

(** What an evaluation of the fallback came from. *)
Lemma structured_answer policy base_url api_key model ceiling state questions d id a :
  structured utf8 http policy base_url api_key model ceiling state questions = Ok d → (id, a) ∈ dc_answers d →
  ∃ q q' answer, decode_answer id q (translate_answer q' ceiling answer) = Ok a.
Proof.
  unfold structured. intros Hr. bind_ok Hr completion Hp. destruct (is_blank _); [done|].
  destruct (from_str_value _) as [raw|]; [|done]. unfold refused, decode_response in Hr.
  destruct (decode_body questions (documented model (member completion "usage") raw questions ceiling))
    as [d'|p] eqn:Hd; cbn [map_err] in Hr; [|discriminate Hr]. injection Hr as ->. intros Hin.
  unfold decode_body in Hd. cbn [is_object documented json_object negb] in Hd. bind_ok Hd answers Ha.
  bind_ok Hd m Hm. bind_ok Hd u Hu. bind_ok Hd r Hds. destruct r as [ds ms]. injection Hd as <-. simpl in Hin.
  destruct (decode_answers_from _ _ _ _ _ _ Hds Hin) as (q & v & _ & Hv & Hda).
  assert (JObject answers = translate raw questions ceiling) as Ht.
  { unfold documented in Ha. rewrite json_get_object in Ha. unfold translate, json_object in *. cbn in Ha.
    injection Ha as <-. done. }
  change (json_get id (JObject answers) = Some v) in Hv. rewrite Ht in Hv.
  destruct (translated_answer _ _ _ _ _ Hv) as (q' & answer & ->). by exists q, q', answer.
Qed.

(** C22. A fallback's choice or score never reaches the auto band.  Whatever the
    model answers, however sure it says it is and whatever the network does, an
    answer that is decoded from a backend with a confidence ceiling (a number)
    has at most that confidence, so no policy whose bar is at the ceiling or above
    dispatches it; and under the ceiling every fallback is built with, the default
    policy does not.  (An answer to a yes/no question is not covered: its
    confidence is derived from the probability itself, which is not capped.) *)
Theorem a_fallback_selection_is_never_auto (c : System1Client) (state : string) (questions : QuestionSet)
    (base_url : string) (api_key : option string) (model : string) (ceiling : Z) (d : Decoded) (id : string)
    (a : Answer) :
  cl_backend c = StructuredLlm base_url api_key model ceiling → f64_is_nan ceiling = false →
  outcome_of utf8 http c state questions = Ok d → (id, a) ∈ dc_answers d → confidence_source a = ModelReported →
  f64_leb (confidence a) ceiling = true ∧
  (∀ p, f64_leb ceiling (th_auto (thresholds_of p)) = true → de_band (gate_answer a p) ≠ Auto) ∧
  (confidence_ceiling (structured_llm base_url model) = Some ceiling → de_band (gate_answer a policy_default) ≠ Auto).
Proof.
  intros Hb Hn Ho Hin Hs. unfold outcome_of in Ho. rewrite Hb in Ho.
  destruct (structured_answer _ _ _ _ _ _ _ _ _ _ Ho Hin) as (q & q' & answer & Hd).
  destruct (decoded_confidence _ _ _ _ Hd) as [[noul ->]|Hc]; [done|].
  assert (f64_leb (confidence a) ceiling = true) as Hle.
  { eapply (capped_field id answer); [exact Hn| |exact Hc]. intros v. apply translated_confidence. }
  assert (∀ p, f64_leb ceiling (th_auto (thresholds_of p)) = true → de_band (gate_answer a p) ≠ Auto) as Hp.
  { intros p Hp (_ & _ & Hlt)%gate_answer_auto.
    by rewrite (f64_leb_not_ltb _ _ (f64_leb_trans _ _ _ Hle Hp)) in Hlt. }
  split_and!; [done|exact Hp|]. intros [= <-]. apply Hp. vm_compute. reflexivity.
Qed.

End fallback.

(** ** At concrete inputs *)

(** A codec whose integers are decimal. *)
#[local] Instance decimal_text : JsonText := {|
  number_text := λ n, match n with PosInt u => pretty u | other => ref_number_text other end;
  string_text := ref_string_text;
  print_json := ref_print;
  print_json_pretty := ref_print;
  parse_json := ref_parse |}.

Definition ticket_questions : QuestionSet :=
  [("team", Choice "Which team?" [("billing", "money"); ("technical", "bugs")]);
   ("urgency", Score "How urgent?" ["low"; "high"]);
   ("refund", Noul "Refund requested?" None None)].

(** A fallback that is as sure as it can be of everything. *)
Definition sure_answers : json :=
  json_object [
    ("team", json_object [("choice", JString "billing"); ("confidence", f64_json one)]);
    ("urgency", json_object [("level", num 1); ("confidence", f64_json (decimal 99 100))]);
    ("refund", json_object [("noul", f64_json (decimal 97 100))])].

Definition completion_of (answers : json) : json :=
  json_object [("choices", JArray [json_object [("message", json_object [("content", JString (print_json answers))])]])].

Definition sure_http (policy : HttpPolicy) (request : HttpRequest) : result TransportFault Response :=
  if bool_decide (rq_url request = "http://127.0.0.1:11434/v1/chat/completions")
  then Ok (mkAnswer 200 (Ok (as_bytes (print_json (completion_of sure_answers))))) else Err NotConnected.

Definition ascii_text (b : bytes) : option string := Some (String.string_of_list_ascii b).

Definition fallback_client : System1Client :=
  mkClient (structured_llm "http://127.0.0.1:11434/" "gemma4") (mkHttpPolicy false false).

Definition sure_outcome : result Failure Decoded := outcome_of ascii_text sure_http fallback_client "state" ticket_questions.

Definition sure_decoded : Decoded :=
  Eval vm_compute in match sure_outcome with Ok d => d | Err _ => mkDecoded "" [] [] (mkJudgmentUsage 0 0) end.

Lemma a_fallback_selection_is_never_auto_witness :
  let a := ChoiceAnswer "billing" [("billing", one); ("technical", 0)] (decimal 85 100) in
  sure_outcome = Ok sure_decoded ∧ dc_missing sure_decoded = [] ∧
  f64_leb (confidence a) FALLBACK_CONFIDENCE_CEILING = true ∧ de_band (gate_answer a policy_default) ≠ Auto.
Proof.
  intros a. split; [vm_compute; reflexivity|]. split; [reflexivity|].
  destruct (a_fallback_selection_is_never_auto ascii_text sure_http fallback_client "state" ticket_questions
    "http://127.0.0.1:11434/" None "gemma4" FALLBACK_CONFIDENCE_CEILING sure_decoded "team" a)
    as (Hle & _ & Hdef).
  - reflexivity.
  - vm_compute. reflexivity.
  - vm_compute. reflexivity.
  - vm_compute. by left.
  - reflexivity.
  - split; [exact Hle|]. apply Hdef. reflexivity.
Defined.

(** The answer of the same fallback to a yes/no question is dispatched: its
    confidence comes from the probability, which nothing caps. *)
Example a_fallback_noul_is_auto :
  (λ a, de_band (gate_answer a policy_default)) <$> answer_of sure_decoded "refund" = Some Auto ∧
  bg_band (gate_batch (List.filter (λ ia, bool_decide (ia.1 = "refund")) (dc_answers sure_decoded)) []) = Auto ∧
  (λ a, de_band (gate_answer a policy_default)) <$> answer_of sure_decoded "team" = Some Deliberate.
Proof. vm_compute. done. Qed.

Example refusals :
  let out c http := match outcome_of ascii_text http c "state" ticket_questions with Ok _ => None | Err e => Some (je_kind e, je_message e) end in
  let answered status body := λ _ _, Ok (mkAnswer status (Ok (as_bytes body))) in
  out fallback_client (answered 302 "") = Some (Redirected, AnsweredRedirect "structured-llm(gemma4)" 302) ∧
  out fallback_client (answered 529 "") = Some (ProviderUnavailable, ReturnedStatus "structured-llm(gemma4)" 529) ∧
  out fallback_client (λ _ _, Err TimedOut) = Some (Timeout, CallFailed "structured-llm(gemma4)" TimedOut) ∧
  out (mkClient (typesafe_backend " " "jev") (mkHttpPolicy false true)) (answered 200 "") = Some (NotConfigured, NoApiKey).
Proof. vm_compute. done. Qed.
