(* ===== verification/Sha256.v ===== *)
(** * SHA-256 and HMAC as the core writes them (apps/heiwa_core/src/auth.rs)

    The runtime carries its own hash: the loops over a mutable schedule and
    eight working variables, compared with the definition of FIPS 180-4, and the
    keyed hash of RFC 2104 over it.  A [u32] is a [Z] below 2^32. *)

From stdpp Require Import base sets strings numbers list.
From Stdlib Require Import Ascii.
From S2P Require Import Prelude Hex.
#[local] Open Scope Z_scope.

(** ** Words *)

Definition word_max : Z := 2 ^ 32.
Definition wrapping_add (a b : Z) : Z := (a + b) mod word_max.
Definition rotate_right (x n : Z) : Z := Z.lor (Z.shiftr x n) (Z.shiftl x (32 - n) mod word_max).
Definition word_not (x : Z) : Z := word_max - 1 - x.

(** Big-endian bytes of a word, and back. *)
Definition be_bytes (n : nat) (z : Z) : bytes := rev (le_bytes n z).
Definition from_be (b : bytes) : Z := foldl (λ acc a, acc * 256 + byte_val a) 0 b.

Fixpoint chunks_exact (fuel n : nat) (l : bytes) : list bytes :=
  match fuel with
  | O => []
  | S fuel => if (length l <? n)%nat then [] else take n l :: chunks_exact fuel n (drop n l)
  end.

Definition nibble (a : ascii) : Z :=
  let v := byte_val a in if v <=? 57 then v - 48 else v - 87.

(** The words of a row of eight-digit hexadecimal numbers. *)
Definition words_of (row : string) : list Z :=
  let digits := as_bytes row in
  map (λ c, foldl (λ acc a, acc * 16 + nibble a) 0 c) (chunks_exact (length digits) 8 digits).

(** The table, seven words to a row. *)
Definition K : list Z := Eval vm_compute in concat (map words_of [
  "428a2f9871374491b5c0fbcfe9b5dba53956c25b59f111f1923f82a4";
  "ab1c5ed5d807aa9812835b01243185be550c7dc372be5d7480deb1fe";
  "9bdc06a7c19bf174e49b69c1efbe47860fc19dc6240ca1cc2de92c6f";
  "4a7484aa5cb0a9dc76f988da983e5152a831c66db00327c8bf597fc7";
  "c6e00bf3d5a7914706ca63511429296727b70a852e1b21384d2c6dfc";
  "53380d13650a7354766a0abb81c2c92e92722c85a2bfe8a1a81a664b";
  "c24b8b70c76c51a3d192e819d6990624f40e3585106aa07019a4c116";
  "1e376c082748774c34b0bcb5391c0cb34ed8aa4a5b9cca4f682e6ff3";
  "748f82ee78a5636f84c878148cc7020890befffaa4506cebbef9a3f7";
  "c67178f2"]).

Definition initial_h : list Z := Eval vm_compute in
  words_of "6a09e667bb67ae853c6ef372a54ff53a510e527f9b05688c1f83d9ab5be0cd19".

(** ** The loops of [sha256] *)

(** [while padded.len() % 64 != 56 { padded.push(0) }] *)
Fixpoint push_zeros (fuel : nat) (padded : bytes) : bytes :=
  match fuel with
  | O => padded
  | S fuel => if (length padded mod 64 =? 56)%nat then padded else push_zeros fuel (padded ++ [byte_of 0])
  end.

(** At most 63 zeros are pushed. *)
Definition pad (input : bytes) : bytes :=
  let bit_len := (Z.of_nat (length input) * 8) mod 2 ^ 64 in
  push_zeros 64 (input ++ [byte_of 0x80]) ++ be_bytes 8 bit_len.

(** The first sixteen words of the schedule come from the block. *)
Definition load (w : list Z) (block : bytes) : list Z :=
  foldl (λ w iw, <[iw.1 := from_be iw.2]> w) w (zip (seq 0 16) (chunks_exact 16 4 block)).

Definition small0 (x : Z) : Z := Z.lxor (Z.lxor (rotate_right x 7) (rotate_right x 18)) (Z.shiftr x 3).
Definition small1 (x : Z) : Z := Z.lxor (Z.lxor (rotate_right x 17) (rotate_right x 19)) (Z.shiftr x 10).

Definition extend (w : list Z) (index : nat) : list Z :=
  let s0 := small0 (w !!! (index - 15)%nat) in
  let s1 := small1 (w !!! (index - 2)%nat) in
  <[index := wrapping_add (wrapping_add (wrapping_add (w !!! (index - 16)%nat) s0) (w !!! (index - 7)%nat)) s1]> w.

Record Working : Type := mkWorking { wa : Z; wb : Z; wc : Z; wd : Z; we : Z; wf : Z; wg : Z; wh : Z }.

Definition compress (w : list Z) (v : Working) (index : nat) : Working :=
  let s1 := Z.lxor (Z.lxor (rotate_right (we v) 6) (rotate_right (we v) 11)) (rotate_right (we v) 25) in
  let ch := Z.lxor (Z.land (we v) (wf v)) (Z.land (word_not (we v)) (wg v)) in
  let temp1 := wrapping_add (wrapping_add (wrapping_add (wrapping_add (wh v) s1) ch) (K !!! index)) (w !!! index) in
  let s0 := Z.lxor (Z.lxor (rotate_right (wa v) 2) (rotate_right (wa v) 13)) (rotate_right (wa v) 22) in
  let maj := Z.lxor (Z.lxor (Z.land (wa v) (wb v)) (Z.land (wa v) (wc v))) (Z.land (wb v) (wc v)) in
  let temp2 := wrapping_add s0 maj in
  mkWorking (wrapping_add temp1 temp2) (wa v) (wb v) (wc v) (wrapping_add (wd v) temp1) (we v) (wf v) (wg v).

Definition working (h : list Z) : Working :=
  mkWorking (h !!! 0%nat) (h !!! 1%nat) (h !!! 2%nat) (h !!! 3%nat) (h !!! 4%nat) (h !!! 5%nat) (h !!! 6%nat) (h !!! 7%nat).
Definition variables (v : Working) : list Z := [wa v; wb v; wc v; wd v; we v; wf v; wg v; wh v].

(** One block: the schedule [w] is the array the loop over blocks reuses. *)
Definition process (st : list Z * list Z) (block : bytes) : list Z * list Z :=
  let '(h, w) := st in
  let w := foldl extend (load w block) (seq 16 48) in
  let v := foldl (compress w) (working h) (seq 0 64) in
  (zip_with wrapping_add h (variables v), w).

Definition sha256 (input : bytes) : bytes :=
  let padded := pad input in
  let '(h, _) := foldl process (initial_h, replicate 64 0) (chunks_exact (length padded) 64 padded) in
  concat (map (be_bytes 4) h).

(** ** HMAC and comparison *)

Definition BLOCK_SIZE : nat := 64.

Definition byte_xor (a : ascii) (z : Z) : ascii := byte_of (Z.lxor (byte_val a) z).

Definition working_key (key : bytes) : bytes :=
  let k := if (BLOCK_SIZE <? length key)%nat then sha256 key else key in
  k ++ replicate (BLOCK_SIZE - length k) (byte_of 0).

(** What is hashed first, and what is hashed over that. *)
Definition hmac_inner (key message : bytes) : bytes := map (λ a, byte_xor a 0x36) (working_key key) ++ message.
Definition hmac_outer (key message : bytes) : bytes :=
  map (λ a, byte_xor a 0x5c) (working_key key) ++ sha256 (hmac_inner key message).

Definition hmac_sha256 (key message : bytes) : bytes := sha256 (hmac_outer key message).

(** The difference accumulated over the longer of the two. *)
Definition constant_time_eq (expected actual : bytes) : bool :=
  let byte_at l i := default (byte_of 0) (l !! i) in
  let difference :=
    foldl (λ d i, Z.lor d (Z.lxor (byte_val (byte_at expected i)) (byte_val (byte_at actual i))))
      (Z.lxor (Z.of_nat (length expected)) (Z.of_nat (length actual)))
      (seq 0 (max (length expected) (length actual))) in
  bool_decide (difference = 0).

(** [{byte:02x}] of each byte *)
Definition sha256_hex (input : bytes) : string := to_hex (sha256 input).

Example test_vectors :
  sha256_hex [] = "e3b0c44298fc1c149afbf4c8996fb92427ae41e4649b934ca495991b7852b855" ∧
  sha256_hex (as_bytes "abc") = "ba7816bf8f01cfea414140de5dae2223b00361a396177a9cb410ff61f20015ad" ∧
  sha256_hex (as_bytes "abcdbcdecdefdefgefghfghighijhijkijkljklmklmnlmnomnopnopq") =
    "248d6a61d20638b8e5c026930c3e6039a33ce45964ff2167f6ecedd419db06c1".
Proof. vm_compute. done. Qed.

(** RFC 4231, cases 1 and 2. *)
Example hmac_vectors :
  map byte_val (take 4 (hmac_sha256 (replicate 20 (byte_of 0x0b)) (as_bytes "Hi There"))) = [0xb0; 0x34; 0x4c; 0x61] ∧
  map byte_val (take 4 (hmac_sha256 (as_bytes "Jefe") (as_bytes "what do ya want for nothing?"))) = [0x5b; 0xdc; 0xc1; 0x46].
Proof. vm_compute. done. Qed.

(** ** FIPS 180-4

    The same hash as the standard states it: padding by the least number of
    zeros, the schedule as a recurrence of a function of its index for each
    block, sums taken once modulo 2^32. *)

Definition Ch (x y z : Z) : Z := Z.lxor (Z.land x y) (Z.land (word_not x) z).
Definition Maj (x y z : Z) : Z := Z.lxor (Z.lxor (Z.land x y) (Z.land x z)) (Z.land y z).
Definition Sum0 (x : Z) : Z := Z.lxor (Z.lxor (rotate_right x 2) (rotate_right x 13)) (rotate_right x 22).
Definition Sum1 (x : Z) : Z := Z.lxor (Z.lxor (rotate_right x 6) (rotate_right x 11)) (rotate_right x 25).

(** The least number of zero bytes that leaves room for the length alone. *)
Definition zeros_needed (len : Z) : nat := Z.to_nat ((55 - len) mod 64).

Definition fips_padded (input : bytes) : bytes :=
  input ++ [byte_of 0x80] ++ replicate (zeros_needed (Z.of_nat (length input))) (byte_of 0) ++
  be_bytes 8 (8 * Z.of_nat (length input)).

(** The blocks of a padded message, and the words of a block. *)
Definition fips_blocks (padded : bytes) : list bytes :=
  map (λ i, take 64 (drop (i * 64) padded)) (seq 0 (length padded / 64)).
Definition message_word (block : bytes) (t : nat) : Z := from_be (take 4 (drop (t * 4) block)).

(** W_t: defined by its own earlier values. *)
Fixpoint schedule_word (fuel : nat) (block : bytes) (t : nat) : Z :=
  match fuel with
  | O => 0
  | S fuel =>
      if (t <? 16)%nat then message_word block t
      else (small1 (schedule_word fuel block (t - 2)) + schedule_word fuel block (t - 7) +
            small0 (schedule_word fuel block (t - 15)) + schedule_word fuel block (t - 16)) mod word_max
  end.
Definition W (block : bytes) (t : nat) : Z := schedule_word (S t) block t.

Definition fips_round (block : bytes) (v : Working) (t : nat) : Working :=
  let T1 := (wh v + Sum1 (we v) + Ch (we v) (wf v) (wg v) + K !!! t + W block t) mod word_max in
  let T2 := (Sum0 (wa v) + Maj (wa v) (wb v) (wc v)) mod word_max in
  mkWorking ((T1 + T2) mod word_max) (wa v) (wb v) (wc v) ((wd v + T1) mod word_max) (we v) (wf v) (wg v).

Definition fips_block (h : list Z) (block : bytes) : list Z :=
  zip_with wrapping_add h (variables (foldl (fips_round block) (working h) (seq 0 64))).

Definition fips_sha256 (input : bytes) : bytes :=
  concat (map (be_bytes 4) (foldl fips_block initial_h (fips_blocks (fips_padded input)))).

(** *** Padding *)

Ltac mods := Z.to_euclidean_division_equations; lia.

(** The zeros still to push. *)
Definition missing (l : bytes) : Z := (56 - Z.of_nat (length l)) mod 64.

Lemma missing_step l :
  if (length l mod 64 =? 56)%nat then missing l = 0
  else missing l ≠ 0 ∧ missing (l ++ [byte_of 0]) = missing l - 1.
Proof.
  unfold missing. rewrite length_app, Nat2Z.inj_add. cbn [length].
  destruct (Nat.eqb_spec (length l mod 64) 56) as [He|He];
    rewrite <-Nat2Z.inj_iff, Nat2Z.inj_mod in He; change (Z.of_nat 64) with 64 in He; mods.
Qed.

Lemma push_zeros_padded fuel l :
  missing l < Z.of_nat fuel → push_zeros fuel l = l ++ replicate (Z.to_nat (missing l)) (byte_of 0).
Proof.
  revert l. induction fuel as [|fuel IH]; intros l Hf.
  { pose proof (Z.mod_pos_bound (56 - Z.of_nat (length l)) 64). unfold missing in Hf. lia. }
  cbn [push_zeros]. pose proof (missing_step l) as Hm. destruct (length l mod 64 =? 56)%nat.
  - rewrite Hm. cbn. by rewrite app_nil_r.
  - destruct Hm as [Hz Hs]. pose proof (Z.mod_pos_bound (56 - Z.of_nat (length l)) 64 ltac:(lia)) as Hb.
    fold (missing l) in Hb. rewrite IH by lia. rewrite Hs, <-app_assoc. f_equal.
    by replace (Z.to_nat (missing l)) with (S (Z.to_nat (missing l - 1))) by lia.
Qed.

Lemma pad_is_fips input : Z.of_nat (length input) < 2 ^ 61 → pad input = fips_padded input.
Proof.
  intros Hl. unfold pad, fips_padded, zeros_needed.
  rewrite push_zeros_padded by (unfold missing; pose proof (Z.mod_pos_bound (56 - Z.of_nat (length (input ++ [byte_of 0x80]))) 64); lia).
  unfold missing. rewrite length_app, <-!app_assoc. cbn [length]. rewrite (Z.mod_small _ (2 ^ 64)) by lia.
  replace (56 - Z.of_nat (length input + 1)) with (55 - Z.of_nat (length input)) by lia.
  by rewrite (Z.mul_comm 8).
Qed.

Lemma be_bytes_length n z : length (be_bytes n z) = n.
Proof. unfold be_bytes. by rewrite length_rev, le_bytes_length. Qed.

(** Whole blocks, and no fewer zeros would do. *)
Lemma fips_padded_length input :
  (length (fips_padded input) mod 64 = 0)%nat ∧
  ∀ k, (k < zeros_needed (Z.of_nat (length input)))%nat → ((length input + 1 + k + 8) mod 64 ≠ 0)%nat.
Proof.
  unfold fips_padded, zeros_needed. rewrite !length_app, be_bytes_length, length_replicate. cbn [length].
  set (n := length input). split; [|intros k Hk Hm]; rewrite <-Nat2Z.inj_iff, Nat2Z.inj_mod in *;
    change (Z.of_nat 64) with 64 in *; mods.
Qed.

(** *** Blocks *)

Lemma chunks_exact_blocks fuel n l :
  (0 < n)%nat → (length l / n ≤ fuel)%nat →
  chunks_exact fuel n l = map (λ i, take n (drop (i * n) l)) (seq 0 (length l / n)).
Proof.
  intros Hn. revert l. induction fuel as [|fuel IH]; intros l Hl; cbn [chunks_exact].
  { by replace (length l / n)%nat with 0%nat by lia. }
  destruct (Nat.ltb_spec (length l) n) as [Hs|Hs]; [by rewrite Nat.div_small|].
  assert (length l / n = S ((length l - n) / n))%nat as Hd.
  { replace (length l) with (length l - n + 1 * n)%nat at 1 by lia. rewrite Nat.div_add by lia. lia. }
  rewrite IH by (rewrite length_drop; lia). rewrite length_drop, Hd. simpl. f_equal.
  rewrite <-seq_shift, map_map. apply map_ext. intros i. by rewrite drop_drop.
Qed.

(** *** The schedule *)

Lemma insert_next (w vs : list Z) k v :
  length vs = k → (k < length w)%nat → <[k := v]> (vs ++ drop k w) = (vs ++ [v]) ++ drop (S k) w.
Proof.
  intros <- Hk. rewrite insert_app_r_alt, Nat.sub_diag by lia.
  rewrite (drop_S w (w !!! length vs) (length vs)) by (by apply list_lookup_lookup_total_lt). simpl. by rewrite <-app_assoc.
Qed.

Lemma load_words (w : list Z) block : length block = 64%nat → length w = 64%nat →
  load w block = map (message_word block) (seq 0 16) ++ drop 16 w.
Proof.
  intros Hb Hw. unfold load. rewrite chunks_exact_blocks by (rewrite ?Hb; cbn; lia). rewrite Hb. change (64 / 4)%nat with 16%nat.
  assert (∀ n k vs, length vs = k → (k + n ≤ 64)%nat →
    foldl (λ w iw, <[iw.1 := from_be iw.2]> w) (vs ++ drop k w)
      (zip (seq k n) (map (λ i, take 4 (drop (i * 4) block)) (seq k n))) =
    (vs ++ map (message_word block) (seq k n)) ++ drop (k + n) w) as Hg.
  { induction n as [|n IH]; intros k vs Hv Hk; simpl; [by rewrite app_nil_r, Nat.add_0_r|].
    rewrite (insert_next w vs k) by lia. rewrite (IH (S k)) by (rewrite ?length_app; cbn [length]; lia).
    rewrite <-(app_assoc vs). by rewrite Nat.add_succ_r. }
  apply (Hg 16%nat 0%nat [] eq_refl). lia.
Qed.

(** The schedule so far holds the words of the recurrence. *)
Definition scheduled (block : bytes) (s : list Z) : Prop := ∀ t, (t < length s)%nat → s !!! t = W block t.

Lemma schedule_fuel_enough block f g t :
  (t < f)%nat → (t < g)%nat → schedule_word f block t = schedule_word g block t.
Proof.
  revert g t. induction f as [|f IH]; intros g t Hf Hg; [lia|]. destruct g as [|g]; [lia|]. cbn [schedule_word].
  destruct (Nat.ltb_spec t 16); [done|]. by rewrite !(IH g) by lia.
Qed.

Lemma schedule_fuel block t fuel : (t < fuel)%nat → schedule_word fuel block t = W block t.
Proof. intros Ht. apply schedule_fuel_enough; lia. Qed.

Lemma W_small block t : (t < 16)%nat → W block t = message_word block t.
Proof. intros Ht. unfold W. cbn [schedule_word]. by rewrite (proj2 (Nat.ltb_lt t 16) Ht). Qed.

Lemma W_step block t :
  (16 ≤ t)%nat →
  W block t = (small1 (W block (t - 2)) + W block (t - 7) + small0 (W block (t - 15)) + W block (t - 16)) mod word_max.
Proof.
  intros Ht. unfold W at 1. cbn [schedule_word]. destruct (Nat.ltb_spec t 16); [lia|]. rewrite !schedule_fuel by lia. done.
Qed.

Lemma wrapping_add_mod x d : wrapping_add (x mod word_max) d = (x + d) mod word_max.
Proof. apply Zplus_mod_idemp_l. Qed.

Lemma wrapping_sum4 a b c d : wrapping_add (wrapping_add (wrapping_add a b) c) d = (a + b + c + d) mod word_max.
Proof. change (wrapping_add a b) with ((a + b) mod word_max). by rewrite !wrapping_add_mod. Qed.

Lemma wrapping_sum5 a b c d e :
  wrapping_add (wrapping_add (wrapping_add (wrapping_add a b) c) d) e = (a + b + c + d + e) mod word_max.
Proof. by rewrite (wrapping_sum4 a b c d), wrapping_add_mod. Qed.

Lemma extend_scheduled block s (w : list Z) :
  scheduled block s → (16 ≤ length s)%nat → (length s < length w)%nat →
  extend (s ++ drop (length s) w) (length s) = (s ++ [W block (length s)]) ++ drop (S (length s)) w.
Proof.
  intros Hs H16 Hw. unfold extend. set (t := length s) in *.
  rewrite !lookup_total_app_l by (fold t; lia). rewrite !Hs by (fold t; lia). rewrite insert_next by (fold t; lia).
  rewrite wrapping_sum4, (W_step block t) by lia.
  match goal with |- (_ ++ [?x mod _]) ++ _ = (_ ++ [?y mod _]) ++ _ => replace x with y by lia end. done.
Qed.

Lemma extend_run block (w : list Z) n s :
  scheduled block s → (16 ≤ length s)%nat → (length s + n ≤ length w)%nat →
  ∃ s', foldl extend (s ++ drop (length s) w) (seq (length s) n) = s' ++ drop (length s + n) w ∧
    length s' = (length s + n)%nat ∧ scheduled block s'.
Proof.
  revert s. induction n as [|n IH]; intros s Hs H16 Hn; simpl.
  { exists s. rewrite Nat.add_0_r. done. }
  rewrite (extend_scheduled block) by (done || lia).
  assert (length (s ++ [W block (length s)]) = S (length s)) as Hl by (rewrite length_app; simpl; lia).
  destruct (IH (s ++ [W block (length s)])) as (s' & Hf & Hl' & Hs').
  - intros t Ht. rewrite Hl in Ht. destruct (decide (t = length s)) as [->|Hne].
    + by rewrite list_lookup_total_middle.
    + rewrite lookup_total_app_l by lia. apply Hs. lia.
  - lia.
  - lia.
  - rewrite Hl in Hf, Hl'. exists s'. rewrite Hf, Hl'. split; [by rewrite Nat.add_succ_r|]. by split; [lia|].
Qed.

(** What was left in the array by earlier blocks does not matter. *)
Lemma schedule_is_fips (w : list Z) block : length block = 64%nat → length w = 64%nat →
  let w' := foldl extend (load w block) (seq 16 48) in
  length w' = 64%nat ∧ ∀ t, (t < 64)%nat → w' !!! t = W block t.
Proof.
  intros Hb Hw w'. subst w'. rewrite load_words by done.
  destruct (extend_run block w 48 (map (message_word block) (seq 0 16))) as (s & Hf & Hl & Hs).
  - intros t Ht. rewrite length_map, length_seq in Ht. rewrite W_small by done.
    apply list_lookup_total_correct. change (map ?f ?l) with (f <$> l). by rewrite list_lookup_fmap, lookup_seq_lt.
  - rewrite length_map, length_seq. lia.
  - rewrite length_map, length_seq. lia.
  - rewrite length_map, length_seq in Hf, Hl. change (16 + 48)%nat with 64%nat in *. rewrite Hf.
    rewrite drop_ge, app_nil_r by lia. split; [done|]. intros t Ht. apply Hs. lia.
Qed.

(** *** Rounds and blocks *)

Lemma compress_is_fips block (w : list Z) v t : w !!! t = W block t → compress w v t = fips_round block v t.
Proof.
  intros Hw. unfold compress, fips_round. cbv zeta. rewrite Hw, !(wrapping_sum5 (wh v)). reflexivity.
Qed.

Lemma rounds_are_fips block (w : list Z) v l :
  Forall (λ t, w !!! t = W block t) l → foldl (compress w) v l = foldl (fips_round block) v l.
Proof.
  intros Hl. revert v. induction Hl as [|t l Ht Hl IH]; intros v; simpl; [done|]. by rewrite (compress_is_fips block), IH.
Qed.

Lemma process_is_fips h (w : list Z) block : length block = 64%nat → length w = 64%nat →
  (process (h, w) block).1 = fips_block h block ∧ length (process (h, w) block).2 = 64%nat.
Proof.
  intros Hb Hw. unfold process, fips_block. destruct (schedule_is_fips w block Hb Hw) as [Hl Ht]. cbn [fst snd].
  split; [|exact Hl]. rewrite (rounds_are_fips block); [reflexivity|].
  apply Forall_forall. intros t [_ Hr]%elem_of_seq. apply Ht, Hr.
Qed.

Lemma blocks_are_fips blocks h (w : list Z) :
  Forall (λ b, length b = 64%nat) blocks → length w = 64%nat →
  (foldl process (h, w) blocks).1 = foldl fips_block h blocks.
Proof.
  intros Hb. revert h w. induction Hb as [|b blocks Hb Hbs IH]; intros h w Hw; [done|]. cbn [foldl].
  destruct (process_is_fips h w b Hb Hw) as [H1 H2]. destruct (process (h, w) b) as [h' w']. simpl in *. subst h'. by apply IH.
Qed.

Lemma fips_blocks_whole padded : Forall (λ b, length b = 64%nat) (fips_blocks padded).
Proof.
  unfold fips_blocks. apply Forall_fmap, Forall_seq. intros i Hi. unfold compose. rewrite length_take, length_drop.
  pose proof (Nat.div_mod_eq (length padded) 64). nia.
Qed.

(** The loop over blocks against the standard's chain. *)
Lemma sha256_chain input : Z.of_nat (length input) < 2 ^ 61 → sha256 input = fips_sha256 input.
Proof.
  intros Hl. unfold sha256, fips_sha256. rewrite pad_is_fips by done.
  assert (chunks_exact (length (fips_padded input)) 64 (fips_padded input) = fips_blocks (fips_padded input)) as ->.
  { apply chunks_exact_blocks; [lia|]. apply Nat.Div0.div_le_upper_bound. lia. }
  pose proof (blocks_are_fips (fips_blocks (fips_padded input)) initial_h (replicate 64 0) (fips_blocks_whole _) eq_refl) as Hb.
  destruct (foldl process _ _) as [h w]. simpl in Hb. by subst h.
Qed.

(** *** The constants

    The table is the first thirty-two bits of the fractional parts of the cube
    roots of the first sixty-four primes, the initial value of the square roots
    of the first eight. *)

Definition is_prime (n : Z) : bool := forallb (λ d, negb (n mod Z.of_nat d =? 0)) (seq 2 (Z.to_nat n - 2)).
Definition primes : list Z := filter (λ n, is_prime n = true) (map Z.of_nat (seq 2 310)).

(** [k / 2^32] is the fraction of the [e]-th root of [p], cut off. *)
Definition is_root_fraction (e p k : Z) : Prop :=
  0 ≤ k < word_max ∧ ∃ c, (c * word_max + k) ^ e ≤ p * word_max ^ e < (c * word_max + k + 1) ^ e.

Definition root_fraction (e c p k : Z) : bool :=
  (0 <=? k) && (k <? word_max) && ((c * word_max + k) ^ e <=? p * word_max ^ e) &&
  (p * word_max ^ e <? (c * word_max + k + 1) ^ e).

Lemma root_fraction_ok e c p k : root_fraction e c p k = true → is_root_fraction e p k.
Proof. unfold root_fraction, is_root_fraction. intros H. split; [lia|]. exists c. lia. Qed.

Definition integer_root (e p : Z) : Z :=
  default 0 (List.find (λ c, (c ^ e <=? p) && (p <? (c + 1) ^ e)) (map Z.of_nat (seq 1 20))).

Definition all_roots (e : Z) (ps ks : list Z) : bool :=
  (length ps =? length ks)%nat && forallb (λ pk, root_fraction e (integer_root e pk.1) pk.1 pk.2) (zip ps ks).

Lemma all_roots_ok e ps ks : all_roots e ps ks = true → Forall2 (is_root_fraction e) ps ks.
Proof.
  unfold all_roots. intros [Hl%Nat.eqb_eq Hf]%andb_true_iff. revert ks Hl Hf.
  induction ps as [|p ps IH]; intros [|k ks] Hl Hf; simpl in *; try done.
  apply andb_true_iff in Hf as [Hr Hf]. constructor; [by eapply root_fraction_ok|]. apply IH; [lia|done].
Qed.

Lemma constants_are_roots :
  Forall2 (is_root_fraction 3) primes K ∧ Forall2 (is_root_fraction 2) (take 8 primes) initial_h.
Proof. split; apply all_roots_ok; vm_compute; reflexivity. Qed.

(** [rotate_right] turns the bits of a word. *)
Lemma rotate_right_bit x n i :
  0 ≤ x < word_max → 0 < n < 32 → 0 ≤ i < 32 → Z.testbit (rotate_right x n) i = Z.testbit x ((i + n) mod 32).
Proof.
  intros Hx Hn Hi. unfold rotate_right, word_max. rewrite Z.lor_spec, Z.shiftr_spec, Z.mod_pow2_bits_low by lia.
  destruct (Z.lt_ge_cases (i + n) 32) as [Hlt|Hge].
  - rewrite (Z.mod_small (i + n)) by lia. rewrite Z.shiftl_spec_low by lia. by rewrite orb_false_r.
  - replace ((i + n) mod 32) with (i + n - 32) by mods. rewrite Z.shiftl_spec by lia.
    replace (i - (32 - n)) with (i + n - 32) by lia. rewrite (Z.bits_above_log2 x (i + n)); [done|lia|].
    destruct (decide (x = 0)) as [->|]; [simpl; lia|]. enough (Z.log2 x < 32) by lia. apply Z.log2_lt_pow2; unfold word_max in Hx; lia.
Qed.

(** ** Comparison and keyed hashing *)

Lemma xor_zero (a b : ascii) : Z.lxor (byte_val a) (byte_val b) = 0 ↔ a = b.
Proof. rewrite Z.lxor_eq_0_iff. split; [by intros ?%byte_val_inj|by intros ->]. Qed.

Lemma byte_xor_nonneg (a b : ascii) : 0 ≤ Z.lxor (byte_val a) (byte_val b).
Proof. apply Z.lxor_nonneg. pose proof (byte_val_range a). pose proof (byte_val_range b). lia. Qed.

Lemma difference_zero (f : nat → Z) l d :
  0 ≤ d → (∀ i, 0 ≤ f i) → foldl (λ d i, Z.lor d (f i)) d l = 0 ↔ d = 0 ∧ Forall (λ i, f i = 0) l.
Proof.
  intros Hd Hf. revert d Hd. induction l as [|i l IH]; intros d Hd; simpl; [rewrite Forall_nil; tauto|].
  rewrite IH by (by apply Z.lor_nonneg). rewrite Z.lor_eq_0_iff, Forall_cons. tauto.
Qed.

(** The comparison says whether two texts are equal. *)
Lemma constant_time_eq_spec a b : constant_time_eq a b = true ↔ a = b.
Proof.
  unfold constant_time_eq. rewrite bool_decide_eq_true.
  rewrite difference_zero; [|apply Z.lxor_nonneg; lia|intros; apply byte_xor_nonneg].
  rewrite Z.lxor_eq_0_iff, Forall_seq. split; [|intros ->; split; [done|]; intros; by apply xor_zero].
  intros [Hl%Nat2Z.inj Hb]. apply list_eq_same_length with (n := length a); [done|done|].
  intros i x y Hi Hx Hy. specialize (Hb i). rewrite Hx, Hy in Hb. apply xor_zero, Hb. lia.
Qed.

(** These two inputs have one hash: what a theorem that names them would have
    found.  (That some two inputs have is a matter of counting.) *)
Definition collide (m m' : bytes) : Prop := m ≠ m' ∧ sha256 m = sha256 m'.

Lemma sha256_same m m' : sha256 m = sha256 m' → m = m' ∨ collide m m'.
Proof. intros H. destruct (decide (m = m')); [by left|]. by right. Qed.

(** The tags of two messages under one key, and of these a collision. *)
Definition tags_collide (key m m' : bytes) : Prop :=
  collide (hmac_inner key m) (hmac_inner key m') ∨ collide (hmac_outer key m) (hmac_outer key m').

(** A tag under a key is the tag of one message. *)
Lemma hmac_same key m m' : hmac_sha256 key m = hmac_sha256 key m' → m = m' ∨ tags_collide key m m'.
Proof.
  unfold hmac_sha256, tags_collide. intros [H%app_inv_head|]%sha256_same; [|by right; right].
  apply sha256_same in H as [H%app_inv_head|]; [by left|by right; left].
Qed.

(** *** The lengths *)

Lemma variables_length v : length (variables v) = 8%nat.
Proof. done. Qed.

Lemma concat_words (l : list Z) : length (concat (map (be_bytes 4) l)) = (length l * 4)%nat.
Proof. induction l as [|z l IH]; [done|]. cbn [map concat]. rewrite length_app, be_bytes_length, IH. simpl. lia. Qed.

Lemma process_words h (w : list Z) b :
  (process (h, w) b).1 =
    zip_with wrapping_add h
      (variables (foldl (compress (foldl extend (load w b) (seq 16 48))) (working h) (seq 0 64))).
Proof. reflexivity. Qed.

Lemma process_length blocks h (w : list Z) : length h = 8%nat → length (foldl process (h, w) blocks).1 = 8%nat.
Proof.
  revert h w. induction blocks as [|b blocks IH]; intros h w Hh; [done|]. cbn [foldl].
  pose proof (process_words h w b) as Hw. destruct (process (h, w) b) as [h' w']. apply IH. cbn [fst] in Hw.
  rewrite Hw, length_zip_with, variables_length, Hh. done.
Qed.

Lemma sha256_digest_length input : length (sha256 input) = 32%nat.
Proof.
  unfold sha256. pose proof (process_length (chunks_exact (length (pad input)) 64 (pad input)) initial_h (replicate 64 0) eq_refl) as Hl.
  destruct (foldl process _ _) as [h w]. simpl in Hl. by rewrite concat_words, Hl.
Qed.

(** C20. The core's SHA-256 is the standard's.  On every input shorter than 2^61
    bytes, the loops of [sha256] compute the hash of FIPS 180-4: the message
    padded by the least number of zero bytes to whole blocks, the schedule of
    each block by its recurrence although the array is shared by all blocks,
    sixty-four rounds, and eight words of digest; the result has thirty-two
    bytes.  The table and the initial value are the fractions of the cube and
    square roots of the first primes. *)
Theorem sha256_is_fips_180_4 (input : bytes) :
  Z.of_nat (length input) < 2 ^ 61 →
  sha256 input = fips_sha256 input ∧ length (sha256 input) = 32%nat ∧
  (length (fips_padded input) mod 64 = 0)%nat ∧
  Forall2 (is_root_fraction 3) primes K ∧ Forall2 (is_root_fraction 2) (take 8 primes) initial_h.
Proof.
  intros Hl. split; [by apply sha256_chain|]. split; [apply sha256_digest_length|].
  split; [apply fips_padded_length|]. apply constants_are_roots.
Qed.

Lemma sha256_is_fips_180_4_witness :
  let input := as_bytes "abc" in
  Z.of_nat (length input) < 2 ^ 61 ∧ to_hex (fips_sha256 input) = sha256_hex input.
Proof.
  intros input. assert (Z.of_nat (length input) < 2 ^ 61) as Hl by (vm_compute; reflexivity).
  split; [exact Hl|]. unfold sha256_hex. by rewrite (proj1 (sha256_is_fips_180_4 input Hl)).
Defined.

(** The key of RFC 2104: a whole block whatever the length of the secret. *)
Lemma working_key_length key : length (working_key key) = BLOCK_SIZE.
Proof.
  unfold working_key. destruct (Nat.ltb_spec BLOCK_SIZE (length key)) as [Hl|Hl];
    rewrite length_app, length_replicate; [by rewrite sha256_digest_length|lia].
Qed.

(** Secrets that differ in trailing zero bytes are one key. *)
Example zero_padded_keys_agree :
  hmac_sha256 (as_bytes "key") (as_bytes "m") = hmac_sha256 (as_bytes "key" ++ [byte_of 0]) (as_bytes "m").
Proof. vm_compute. reflexivity. Qed.
