(* ===== verification/Auth.v ===== *)
(** * Request signatures and session tokens (apps/heiwa_core/src/auth.rs)

    The newline-framed signature of a local request, the session token, and who
    a request speaks for.  Both are tags of Sha256.v under a secret; base64 is
    the class of OperatorJournal.v, which is the same engine. *)

From stdpp Require Import base gmap sets strings numbers pretty list.
From Stdlib Require Import Ascii.
From S2P Require Import Prelude Utf8 Json Hex Framing Sensitive OperatorJournal EvidenceRecords Git Sha256.
#[local] Open Scope Z_scope.

(** ** Values *)

Record AuthClaims : Type := mkClaims {
  ac_sub : string;
  ac_owner_id : string;
  ac_principal_id : string;
  ac_username : option string;
  ac_discord_user_id : option string;
  ac_iat : Z;
  ac_exp : Z;
  ac_iss : string;
  ac_aud : string;
}.

Inductive AuthSubject : Type := Operator | User (claims : AuthClaims).

Definition LOCAL_REQUEST_AUTH_VERSION : string := "1".
Definition LOCAL_REQUEST_MAX_TARGET_BYTES : Z := 8 * 1024.
Definition LOCAL_REQUEST_MAX_BODY_BYTES : Z := 10 * 1024 * 1024.
Definition LOCAL_REQUEST_MAX_SKEW_SECONDS : Z := 30.

Record LocalRequestParts : Type := mkParts {
  lp_method : string;
  lp_port : Z;
  lp_target : string;
  lp_body : bytes;
}.

Record LocalRequestSignature : Type := mkSignature {
  ls_version : string;
  ls_timestamp : string;
  ls_nonce : string;
  ls_signature : string;
}.

Record VerifiedLocalRequest : Type := mkVerified { vr_timestamp : Z; vr_nonce : string }.

(** ** Checks *)

Definition in_bytes (low high : Z) (a : ascii) : bool := (low <=? byte_val a) && (byte_val a <=? high).
Definition upper (a : ascii) : bool := in_bytes 65 90 a.
Definition digit (a : ascii) : bool := in_bytes 48 57 a.
Definition hex_lower (a : ascii) : bool := digit a || in_bytes 97 102 a.

(** ASCII, no control character, no space. *)
Definition visible (a : ascii) : bool := in_bytes 33 126 a.
Definition url_safe (a : ascii) : bool :=
  is_ascii_alphanumeric a || bool_decide (a = "-"%char) || bool_decide (a = "_"%char).

Definition all_bytes_are (p : ascii → bool) (s : string) : bool := forallb p (as_bytes s).

Definition validate_local_request_parts (parts : LocalRequestParts) : result string unit :=
  if bool_decide (lp_method parts = EmptyString) || (16 <? str_len (lp_method parts)) ||
     negb (all_bytes_are upper (lp_method parts)) then Err "invalid local request method"
  else if lp_port parts =? 0 then Err "invalid local request port"
  else if bool_decide (lp_target parts = EmptyString) || (LOCAL_REQUEST_MAX_TARGET_BYTES <? str_len (lp_target parts)) ||
          negb (starts_with (bs "/") (as_bytes (lp_target parts))) || negb (all_bytes_are visible (lp_target parts))
  then Err "invalid local request target"
  else if LOCAL_REQUEST_MAX_BODY_BYTES <? Z.of_nat (length (lp_body parts)) then Err "local request body too large"
  else Ok tt.

Definition validate_local_request_secret (secret : string) : result string unit :=
  if is_blank secret || (4 * 1024 <? str_len secret) then Err "invalid local request secret" else Ok tt.

Definition validate_local_request_timestamp (timestamp : Z) : result string unit :=
  if (timestamp <? 0) || (20 <? str_len (pretty timestamp)) then Err "invalid local request timestamp" else Ok tt.

(** [raw.parse::<i64>()] of digits. *)
Definition parse_digits (raw : string) : option Z :=
  let value := foldl (λ acc a, acc * 10 + (byte_val a - 48)) 0 (as_bytes raw) in
  if value <? 2 ^ 63 then Some value else None.

Definition parse_local_request_timestamp (raw : string) : result string Z :=
  let invalid := Err "invalid local request timestamp" in
  if bool_decide (raw = EmptyString) || (20 <? str_len raw) || negb (all_bytes_are digit raw) then invalid
  else
    match parse_digits raw with
    | None => invalid
    | Some timestamp =>
        match validate_local_request_timestamp timestamp with
        | Err e => Err e
        | Ok _ => if bool_decide (raw = pretty timestamp) then Ok timestamp else invalid
        end
    end.

Definition validate_local_request_nonce (nonce : string) : result string unit :=
  if negb (str_len nonce =? 32) || negb (all_bytes_are hex_lower nonce) then Err "invalid local request nonce" else Ok tt.

(** ** Signatures of local requests *)

Definition canonical_fields (parts : LocalRequestParts) (timestamp : Z) (nonce : string) : list bytes :=
  map as_bytes ["heiwa-local-request-v1"; lp_method parts; pretty (lp_port parts); lp_target parts;
                sha256_hex (lp_body parts); pretty timestamp; nonce].

Definition canonical_local_request (parts : LocalRequestParts) (timestamp : Z) (nonce : string) : bytes :=
  join_lines (canonical_fields parts timestamp nonce).

Definition sign_bytes (input : bytes) (secret : string) : result string bytes :=
  if bool_decide (secret = EmptyString) then Err "invalid secret" else Ok (hmac_sha256 (as_bytes secret) input).

Definition abs_diff (a b : Z) : Z := Z.abs (a - b).

Section base64.
Context `{Base64}.

Definition sign_local_request (parts : LocalRequestParts) (timestamp : Z) (nonce secret : string)
    : result string LocalRequestSignature :=
  _ ← validate_local_request_parts parts;
  _ ← validate_local_request_secret secret;
  _ ← validate_local_request_timestamp timestamp;
  _ ← validate_local_request_nonce nonce;
  tag ← sign_bytes (canonical_local_request parts timestamp nonce) secret;
  Ok (mkSignature LOCAL_REQUEST_AUTH_VERSION (pretty timestamp) nonce (b64_encode tag)).

Definition verify_local_request (parts : LocalRequestParts) (signed : LocalRequestSignature) (secret : string) (now : Z)
    : result string VerifiedLocalRequest :=
  _ ← validate_local_request_parts parts;
  _ ← validate_local_request_secret secret;
  _ ← bail_if (negb (bool_decide (ls_version signed = LOCAL_REQUEST_AUTH_VERSION))) "invalid local request auth version";
  timestamp ← parse_local_request_timestamp (ls_timestamp signed);
  _ ← bail_if (LOCAL_REQUEST_MAX_SKEW_SECONDS <? abs_diff timestamp now) "local request timestamp outside allowed skew";
  _ ← validate_local_request_nonce (ls_nonce signed);
  _ ← bail_if (negb (str_len (ls_signature signed) =? 43) || negb (all_bytes_are url_safe (ls_signature signed)))
        "invalid local request signature encoding";
  actual ← ok_or "invalid local request signature encoding" (b64_decode (ls_signature signed));
  expected ← sign_bytes (canonical_local_request parts timestamp (ls_nonce signed)) secret;
  _ ← bail_if (negb (constant_time_eq expected actual)) "invalid local request signature";
  Ok (mkVerified timestamp (ls_nonce signed)).

(** ** Session tokens *)

Context `{JsonText}.

Definition claims_fields : list string :=
  ["sub"; "owner_id"; "principal_id"; "username"; "discord_user_id"; "iat"; "exp"; "iss"; "aud"].

Definition encode_claims (c : AuthClaims) : json :=
  JObject [("sub", JString (ac_sub c)); ("owner_id", JString (ac_owner_id c)); ("principal_id", JString (ac_principal_id c));
           ("username", json_opt_str (ac_username c)); ("discord_user_id", json_opt_str (ac_discord_user_id c));
           ("iat", i64_json (ac_iat c)); ("exp", i64_json (ac_exp c)); ("iss", JString (ac_iss c)); ("aud", JString (ac_aud c))].

Definition decode_claims (doc : json) : option AuthClaims :=
  m ← struct_view claims_fields doc;
  sub ← field_string m "sub";
  owner_id ← field_string m "owner_id";
  principal_id ← field_string m "principal_id";
  username ← field_option as_str m "username";
  discord_user_id ← field_option as_str m "discord_user_id";
  iat ← obj_get "iat" m ≫= as_i64;
  exp ← obj_get "exp" m ≫= as_i64;
  iss ← field_string m "iss";
  aud ← field_string m "aud";
  Some (mkClaims sub owner_id principal_id username discord_user_id iat exp iss aud).

Definition jwt_header : json := json_object [("alg", JString "HS256"); ("typ", JString "JWT")].

Definition full_stop : ascii := "."%char.
Definition is_full_stop (a : ascii) : bool := bool_decide (a = full_stop).
Definition segment (v : json) : bytes := as_bytes (b64_encode (as_bytes (print_json v))).
Definition signing_input (header payload : bytes) : bytes := header ++ full_stop :: payload.

Definition sign_jwt (claims : AuthClaims) (secret : string) : result string bytes :=
  let input := signing_input (segment jwt_header) (segment (encode_claims claims)) in
  signature ← sign_bytes input secret;
  Ok (input ++ full_stop :: as_bytes (b64_encode signature)).

(** Bytes as JSON of a claims record; [from_slice] takes UTF-8 only. *)
Variable utf8 : bytes → option string.

Definition claims_of (payload : bytes) : option AuthClaims :=
  s ← utf8 payload;
  doc ← parse_json s;
  decode_claims doc.

Definition verify_jwt (token : bytes) (secret : string) (now : Z) : result string AuthClaims :=
  match split_at is_full_stop token with
  | [header; payload; signature] =>
      expected_signature ← sign_bytes (signing_input header payload) secret;
      actual_signature ← ok_or "invalid signature encoding" (b64_decode (text signature));
      _ ← bail_if (negb (bool_decide (expected_signature = actual_signature))) "invalid signature";
      raw ← ok_or "invalid payload encoding" (b64_decode (text payload));
      claims ← ok_or "malformed claims" (claims_of raw);
      _ ← bail_if (ac_exp claims <? now) "token expired";
      _ ← bail_if (negb (bool_decide (ac_iss claims = "heiwa-core"))) "invalid issuer";
      _ ← bail_if (negb (bool_decide (ac_aud claims = "heiwa"))) "invalid audience";
      Ok claims
  | [_] => Err "missing payload"
  | [_; _] => Err "missing signature"
  | _ => Err "too many jwt segments"
  end.

(** ** Who a request speaks for *)

Record RuntimeConfig : Type := mkRuntimeConfig { machine_auth_token : string; jwt_signing_secret : string }.

Definition parse_bearer_token (header : string) : option string :=
  let trimmed := trim_bytes (as_bytes header) in
  match trimmed with
  | [] => None
  | _ =>
      match strip_prefix (bs "Bearer ") trimmed with
      | Some token => let token := trim_bytes token in match token with [] => None | _ => Some (text token) end
      | None => Some (text trimmed)
      end
  end.

Definition semicolon (a : ascii) : bool := bool_decide (a = ";"%char).

Definition parse_session_cookie (cookie_header : string) : option string :=
  value ← find_map (λ part, strip_prefix (bs "heiwa_session=") (trim_bytes part)) (split_at semicolon (as_bytes cookie_header));
  match value with [] => None | _ => Some (text value) end.

Definition token_user (cfg : RuntimeConfig) (now : Z) (token : string) : option AuthSubject :=
  if bool_decide (jwt_signing_secret cfg = EmptyString) then None
  else User <$> result_ok (verify_jwt (as_bytes token) (jwt_signing_secret cfg) now).

Definition extract_auth_subject (cookie_header authorization_header : option string) (cfg : RuntimeConfig) (now : Z)
    : result string AuthSubject :=
  let from_cookie :=
    match cookie_header ≫= parse_session_cookie with
    | Some token => ok_or "unauthorized" (token_user cfg now token)
    | None => Err "unauthorized"
    end in
  match authorization_header ≫= parse_bearer_token with
  | Some token =>
      if bool_decide (token = machine_auth_token cfg) then Ok Operator
      else match token_user cfg now token with Some user => Ok user | None => from_cookie end
  | None => from_cookie
  end.

Definition auth_me_payload (subject : AuthSubject) : json :=
  match subject with
  | Operator =>
      json_object [("authenticated", JBool true);
        ("subject", json_object [("kind", JString "operator"); ("owner_id", JString "local-operator");
                                 ("principal_id", JString "local-operator")])]
  | User c =>
      json_object [("authenticated", JBool true);
        ("subject", json_object [("kind", JString "user"); ("sub", JString (ac_sub c)); ("owner_id", JString (ac_owner_id c));
           ("principal_id", JString (ac_principal_id c)); ("username", json_opt_str (ac_username c));
           ("discord_user_id", json_opt_str (ac_discord_user_id c))])]
  end.

Definition auth_me_from_headers (cookie_header authorization_header : option string) (cfg : RuntimeConfig) (now : Z)
    : Z * json :=
  match extract_auth_subject cookie_header authorization_header cfg now with
  | Ok subject => (200, auth_me_payload subject)
  | Err _ => (401, json_object [("authenticated", JBool false); ("error", JString "unauthorized")])
  end.

End base64.

(** ** Decimal text *)

Definition digits_value (acc : Z) (l : bytes) : Z := foldl (λ acc a, acc * 10 + (byte_val a - 48)) acc l.

Lemma digit_char n : (n < 10)%N → digit (pretty_N_char n) = true ∧ byte_val (pretty_N_char n) = 48 + Z.of_N n.
Proof. intros Hn. destruct n as [|p]; [done|]. do 4 (destruct p as [p|p|]; try (vm_compute; done); try lia). Qed.

Lemma pretty_go_digits (x : N) s :
  Forall (λ a, digit a = true) (as_bytes s) →
  Forall (λ a, digit a = true) (as_bytes (pretty_N_go x s)) ∧
  digits_value 0 (as_bytes (pretty_N_go x s)) = digits_value (Z.of_N x) (as_bytes s).
Proof.
  revert s. induction (N.lt_wf_0 x) as [x _ IH]; intros s Hs. destruct (decide (x = 0)%N) as [->|Hx].
  { by rewrite pretty_N_go_0. }
  rewrite pretty_N_go_step by lia. destruct (digit_char (x mod 10)) as [Hd Hv]; [by apply N.mod_lt|].
  destruct (IH (x / 10)%N (N.div_lt x 10 ltac:(lia) ltac:(lia)) (String (pretty_N_char (x mod 10)) s)) as [Hf Hval].
  { by apply Forall_cons. }
  split; [done|]. rewrite Hval. unfold digits_value. simpl. f_equal. rewrite Hv, N2Z.inj_mod, N2Z.inj_div. mods.
Qed.

Lemma pretty_nonneg z : 0 ≤ z → Forall (λ a, digit a = true) (as_bytes (pretty z)) ∧ digits_value 0 (as_bytes (pretty z)) = z.
Proof.
  intros Hz. destruct z as [|p|p]; [by split; [by apply Forall_singleton|]| |lia].
  change (pretty (Z.pos p)) with (pretty_N_go (N.pos p) ""). by apply pretty_go_digits, Forall_nil_2.
Qed.

(** ** Lines *)

Notation line := (λ a, bool_decide (a = newline) = false).

Lemma class_line (p : ascii → bool) s :
  p newline = false → all_bytes_are p s = true → Forall line (as_bytes s).
Proof.
  intros Hp Hs. apply Forall_forall. intros a Ha. apply bool_decide_false. intros ->.
  unfold all_bytes_are in Hs. rewrite forallb_forall in Hs. rewrite list_elem_of_In in Ha. apply Hs in Ha. congruence.
Qed.

Lemma digits_line l : Forall (λ a, digit a = true) l → Forall line l.
Proof. intros H. eapply Forall_impl; [exact H|]. intros a Ha. apply bool_decide_false. by intros ->. Qed.

Lemma pretty_line (z : Z) : Forall line (as_bytes (pretty z)).
Proof.
  destruct (Z.le_ge_cases 0 z) as [Hz|Hz]; [by apply digits_line, pretty_nonneg|].
  destruct z as [|p|p]; [by apply digits_line, pretty_nonneg|lia|].
  change (pretty (Z.neg p)) with ("-" +:+ pretty (N.pos p)). rewrite as_bytes_app. apply Forall_app.
  split; [by apply Forall_singleton|]. apply digits_line.
  change (pretty (N.pos p)) with (pretty_N_go (N.pos p) ""). by apply pretty_go_digits, Forall_nil_2.
Qed.

Lemma hex_line l : Forall line (as_bytes (to_hex l)).
Proof.
  induction l as [|a l IH]; simpl; [by apply Forall_nil_2|]. pose proof (hex_digits_ok a) as Hd. unfold digits_ok in Hd.
  assert (∀ z, 0 ≤ z < 16 → bool_decide (Hex.hex_digit z = newline) = false) as Hz.
  { intros z Hz. assert (Forall (λ z, bool_decide (Hex.hex_digit z = newline) = false) (seqZ 0 16)) as Hall by (vm_compute; repeat constructor).
    rewrite Forall_forall in Hall. apply Hall, elem_of_seqZ. lia. }
  pose proof (byte_val_range a). apply Forall_cons. split; [apply Hz; mods|]. apply Forall_cons. split; [apply Hz; mods|done].
Qed.

Lemma join_lines_inj ls ls' : ls ≠ [] → ls' ≠ [] → Forall (Forall line) ls → Forall (Forall line) ls' →
  join_lines ls = join_lines ls' → ls = ls'.
Proof.
  assert (∀ ls, ls ≠ [] → Forall (Forall line) ls → split_at (λ a, bool_decide (a = newline)) (join_lines ls) = ls) as Hs.
  { intros l Hne Hl. induction Hl as [|x l Hx Hl IH]; [done|]. destruct l as [|y l]; simpl join_lines; [by apply split_at_last|].
    rewrite split_at_line by (done || by apply bool_decide_true). f_equal. by apply IH. }
  intros Hn Hn' Hl Hl' H. by rewrite <-(Hs ls), <-(Hs ls'), H.
Qed.

(** ** What a verified request is *)

Lemma parts_ok parts :
  validate_local_request_parts parts = Ok tt →
  all_bytes_are upper (lp_method parts) = true ∧ all_bytes_are visible (lp_target parts) = true.
Proof.
  unfold validate_local_request_parts. destruct (all_bytes_are upper _); [|by rewrite orb_true_r].
  destruct (_ || negb true); [done|]. destruct (lp_port parts =? 0); [done|].
  destruct (all_bytes_are visible _); [done|]. by rewrite orb_true_r.
Qed.

Lemma nonce_ok nonce : validate_local_request_nonce nonce = Ok tt → all_bytes_are hex_lower nonce = true.
Proof. unfold validate_local_request_nonce. destruct (all_bytes_are hex_lower nonce); [done|]. by rewrite orb_true_r. Qed.

Lemma canonical_lines parts ts nonce :
  validate_local_request_parts parts = Ok tt → validate_local_request_nonce nonce = Ok tt →
  Forall (Forall line) (canonical_fields parts ts nonce).
Proof.
  intros [Hm Ht]%parts_ok Hn%nonce_ok. unfold canonical_fields. cbn [map]. rewrite !Forall_cons. split_and!; [..|by apply Forall_nil_2].
  - by apply (class_line (λ a, negb (bool_decide (a = newline)))).
  - by apply (class_line upper).
  - apply pretty_line.
  - by apply (class_line visible).
  - apply hex_line.
  - apply pretty_line.
  - by apply (class_line hex_lower).
Qed.

(** The canonical text of a request is its own. *)
Lemma canonical_same parts parts' ts ts' nonce nonce' :
  validate_local_request_parts parts = Ok tt → validate_local_request_parts parts' = Ok tt →
  validate_local_request_nonce nonce = Ok tt → validate_local_request_nonce nonce' = Ok tt →
  canonical_local_request parts ts nonce = canonical_local_request parts' ts' nonce' →
  (parts = parts' ∧ ts = ts' ∧ nonce = nonce') ∨ collide (lp_body parts) (lp_body parts').
Proof.
  intros Hp Hp' Hn Hn' Hc. apply join_lines_inj in Hc; [|done|done|by apply canonical_lines|by apply canonical_lines].
  unfold canonical_fields in Hc. cbn [map] in Hc. injection Hc as Hm Hport Ht Hb Hts Hno.
  apply as_bytes_inj in Hm, Hport, Ht, Hb, Hts, Hno. apply (inj pretty) in Hport, Hts. apply to_hex_inj in Hb.
  apply sha256_same in Hb as [Hb|]; [|by right]. left. split; [|done]. destruct parts, parts'; simpl in *. by subst.
Qed.

Section verified.
Context `{Base64}.

Lemma verified_request parts signed secret now v :
  verify_local_request parts signed secret now = Ok v →
  validate_local_request_parts parts = Ok tt ∧ validate_local_request_nonce (vr_nonce v) = Ok tt ∧
  vr_nonce v = ls_nonce signed ∧ parse_local_request_timestamp (ls_timestamp signed) = Ok (vr_timestamp v) ∧
  abs_diff (vr_timestamp v) now ≤ LOCAL_REQUEST_MAX_SKEW_SECONDS ∧
  b64_decode (ls_signature signed) =
    Some (hmac_sha256 (as_bytes secret) (canonical_local_request parts (vr_timestamp v) (vr_nonce v))).
Proof.
  unfold verify_local_request. intros Hr. apply result_bind_Ok in Hr as ([] & Hp & Hr). apply result_bind_Ok in Hr as ([] & Hs & Hr).
  apply result_bind_Ok in Hr as ([] & Hv & Hr). apply result_bind_Ok in Hr as (ts & Hts & Hr).
  apply result_bind_Ok in Hr as ([] & Hk & Hr). apply result_bind_Ok in Hr as ([] & Hn & Hr).
  apply result_bind_Ok in Hr as ([] & Hg & Hr). apply result_bind_Ok in Hr as (actual & Ha & Hr).
  apply result_bind_Ok in Hr as (expected & He & Hr). apply result_bind_Ok in Hr as ([] & Hc & Hr). injection Hr as <-. simpl.
  unfold bail_if in Hk, Hc. destruct (Z.ltb_spec LOCAL_REQUEST_MAX_SKEW_SECONDS (abs_diff ts now)); [done|].
  destruct (constant_time_eq expected actual) eqn:Heq; [|done]. apply constant_time_eq_spec in Heq as ->.
  unfold sign_bytes in He. case_bool_decide; [done|]. injection He as <-.
  unfold ok_or in Ha. destruct (b64_decode _) as [b|]; [|done]. injection Ha as <-. done.
Qed.

(** C13. A signature is one request's.  When two requests are accepted with the same
    signature under one secret, whoever presents them and whenever, they are the
    same request: method, port, target and body byte for byte, timestamp and
    nonce, so neither can be changed nor moved between the fields; otherwise
    their two bodies, or the two inputs by which their canonical texts are
    tagged, are a collision of SHA-256.  An accepted request is within the
    allowed skew of the moment, whatever else. *)
Theorem a_signature_is_one_request (parts parts' : LocalRequestParts) (signed signed' : LocalRequestSignature)
    (secret : string) (now now' : Z) (v v' : VerifiedLocalRequest) :
  verify_local_request parts signed secret now = Ok v →
  verify_local_request parts' signed' secret now' = Ok v' →
  ls_signature signed = ls_signature signed' →
  abs_diff (vr_timestamp v) now ≤ LOCAL_REQUEST_MAX_SKEW_SECONDS ∧
  ((parts = parts' ∧ v = v') ∨
   collide (lp_body parts) (lp_body parts') ∨
   tags_collide (as_bytes secret) (canonical_local_request parts (vr_timestamp v) (vr_nonce v))
     (canonical_local_request parts' (vr_timestamp v') (vr_nonce v'))).
Proof.
  intros Hv Hv' Hs. apply verified_request in Hv as (Hp & Hn & _ & _ & Hk & Hd). split; [done|].
  apply verified_request in Hv' as (Hp' & Hn' & _ & _ & _ & Hd'). rewrite Hs, Hd' in Hd. injection Hd as Hd.
  apply eq_sym, hmac_same in Hd as [Hc|]; [|by right; right].
  destruct (canonical_same _ _ _ _ _ _ Hp Hp' Hn Hn' Hc) as [(-> & Ht & Hno)|]; [|by right; left].
  left. split; [done|]. destruct v, v'. simpl in *. by subst.
Qed.

End verified.

(** ** Round trips *)

(** Documented behaviour of the unpadded URL-safe engine: its alphabet, and how
    long the text of a tag is. *)
Class Base64UrlLaws `{Base64} : Prop := {
  b64_alphabet : ∀ b, all_bytes_are url_safe (b64_encode b) = true;
  b64_tag_length : ∀ b, length b = 32%nat → str_len (b64_encode b) = 43;
}.

Lemma bind_Ok_l {E A B} (a : A) (f : A → result E B) : (Ok a ≫= f) = f a.
Proof. done. Qed.

Lemma hmac_length key m : length (hmac_sha256 key m) = 32%nat.
Proof. apply sha256_digest_length. Qed.

Lemma sign_bytes_ok input secret tag : sign_bytes input secret = Ok tag → tag = hmac_sha256 (as_bytes secret) input.
Proof. unfold sign_bytes. case_bool_decide; [done|]. by intros [= <-]. Qed.

Lemma parse_printed_timestamp ts :
  0 ≤ ts < 2 ^ 63 → validate_local_request_timestamp ts = Ok tt → parse_local_request_timestamp (pretty ts) = Ok ts.
Proof.
  intros Hts Hv. unfold parse_local_request_timestamp.
  destruct (pretty_nonneg ts) as [Hd Hval]; [lia|]. unfold parse_digits. fold (digits_value 0 (as_bytes (pretty ts))).
  rewrite Hval. rewrite (proj2 (Z.ltb_lt ts (2 ^ 63))) by lia. rewrite Hv. rewrite (bool_decide_true (pretty ts = pretty ts)) by done.
  assert (all_bytes_are digit (pretty ts) = true) as ->.
  { unfold all_bytes_are. apply forallb_forall. intros a Ha. rewrite Forall_forall in Hd. by apply Hd, list_elem_of_In. }
  unfold validate_local_request_timestamp in Hv. destruct (20 <? str_len (pretty ts)); [by rewrite orb_true_r in Hv|].
  rewrite bool_decide_false; [done|]. intros He. rewrite He in Hval. simpl in Hval. subst ts. by vm_compute in He.
Qed.

Section signed.
Context `{Base64Laws} {url_laws : Base64UrlLaws}.

(** What is signed is accepted within the skew, and says when and which. *)
Theorem signed_requests_verify (parts : LocalRequestParts) (ts now : Z) (nonce secret : string) (signed : LocalRequestSignature) :
  0 ≤ ts < 2 ^ 63 →
  sign_local_request parts ts nonce secret = Ok signed →
  verify_local_request parts signed secret now =
    (if LOCAL_REQUEST_MAX_SKEW_SECONDS <? abs_diff ts now then Err "local request timestamp outside allowed skew"
     else Ok (mkVerified ts nonce)).
Proof.
  intros Hts Hs. unfold sign_local_request in Hs. apply result_bind_Ok in Hs as ([] & Hp & Hs).
  apply result_bind_Ok in Hs as ([] & Hsec & Hs). apply result_bind_Ok in Hs as ([] & Ht & Hs).
  apply result_bind_Ok in Hs as ([] & Hn & Hs). apply result_bind_Ok in Hs as (tag & Htag & Hs). injection Hs as <-.
  pose proof (sign_bytes_ok _ _ _ Htag) as Htag'.
  unfold verify_local_request. rewrite Hp, Hsec, !bind_Ok_l. cbn [ls_version ls_timestamp ls_nonce ls_signature].
  rewrite bool_decide_true by done. cbn [negb bail_if]. rewrite bind_Ok_l, parse_printed_timestamp, bind_Ok_l by done.
  unfold bail_if at 1. destruct (LOCAL_REQUEST_MAX_SKEW_SECONDS <? abs_diff ts now); [done|].
  cbn [bail_if]. cbv iota. rewrite bind_Ok_l, Hn, bind_Ok_l. rewrite b64_tag_length by (rewrite Htag'; apply hmac_length).
  rewrite b64_alphabet, b64_decode_encode. cbn [negb orb Z.eqb Pos.eqb bail_if ok_or]. rewrite !bind_Ok_l, Htag, bind_Ok_l.
  by rewrite (proj2 (constant_time_eq_spec tag tag) eq_refl).
Qed.

End signed.

(** ** Tokens *)

Definition is_i64 (z : Z) : Prop := - 2 ^ 63 ≤ z < 2 ^ 63.

Lemma decode_encode_claims c : is_i64 (ac_iat c) → is_i64 (ac_exp c) → decode_claims (encode_claims c) = Some c.
Proof.
  intros Hi He. unfold decode_claims, encode_claims. rewrite struct_view_NoDup.
  2:{ apply (bool_decide_unpack _). vm_compute. exact I. }
  match goal with |- Some ?l ≫= ?f = _ => change (Some l ≫= f) with (f l); set (m := l) end. cbv beta.
  assert (obj_get "iat" m ≫= as_i64 = Some (ac_iat c)) as -> by (exact (as_i64_json _ Hi)).
  assert (obj_get "exp" m ≫= as_i64 = Some (ac_exp c)) as -> by (exact (as_i64_json _ He)).
  unfold field_string, field_option. simpl. destruct c as [? ? ? u d ? ? ? ?]. by destruct u, d.
Qed.

Lemma claims_exact c : is_i64 (ac_iat c) → is_i64 (ac_exp c) → json_exact (encode_claims c) = true.
Proof.
  intros Hi He. assert (∀ z, is_i64 z → exact_numbers (i64_json z) = true ∧ json_depth (i64_json z) = 0%nat) as Hz.
  { intros z Hz. unfold is_i64, i64_json in *. case_bool_decide; simpl; split; try done; apply bool_decide_true; unfold u64_max; lia. }
  destruct (Hz _ Hi) as [Hi1 Hi2], (Hz _ He) as [He1 He2]. unfold json_exact, encode_claims.
  cbn [exact_numbers forallb fst snd json_depth max_list_with]. rewrite Hi1, Hi2, He1, He2.
  by destruct (ac_username c), (ac_discord_user_id c).
Qed.

Section tokens.
Context `{Base64Laws} {url_laws : Base64UrlLaws} `{JsonTextLaws}.
Variable utf8 : bytes → option string.

(** [from_utf8] of the bytes of a [String]. *)
Hypothesis utf8_text : ∀ s, utf8 (as_bytes s) = Some s.

Notation nodot := (λ a, is_full_stop a = false).

Lemma b64_nodot b : Forall nodot (as_bytes (b64_encode b)).
Proof.
  pose proof (b64_alphabet b) as Ha. unfold all_bytes_are in Ha. apply Forall_forall. intros a Hin.
  rewrite forallb_forall in Ha. rewrite list_elem_of_In in Hin. apply Ha in Hin. unfold is_full_stop. apply bool_decide_false.
  by intros ->.
Qed.

Lemma token_segments header payload signature :
  Forall nodot header → Forall nodot payload → Forall nodot signature →
  split_at is_full_stop (signing_input header payload ++ full_stop :: signature) = [header; payload; signature].
Proof.
  intros Hh Hp Hs. unfold signing_input. rewrite <-app_assoc. cbn [app].
  by rewrite !split_at_line, split_at_last.
Qed.

(** The pieces are free of the separator. *)
Lemma split_at_pieces (sep : ascii → bool) l : Forall (Forall (λ a, sep a = false)) (split_at sep l).
Proof.
  induction l as [|a l IH]; simpl; [repeat constructor|]. destruct (sep a) eqn:Ha; [constructor; [constructor|done]|].
  destruct IH as [|x r Hx Hr]; repeat constructor; done.
Qed.

(** What an accepted token is. *)
Lemma verified_token token secret now claims :
  verify_jwt utf8 token secret now = Ok claims →
  ∃ header payload signature,
    split_at is_full_stop token = [header; payload; signature] ∧ secret ≠ EmptyString ∧
    b64_decode (text signature) = Some (hmac_sha256 (as_bytes secret) (signing_input header payload)) ∧
    (b64_decode (text payload) ≫= claims_of utf8) = Some claims ∧
    now ≤ ac_exp claims ∧ ac_iss claims = "heiwa-core" ∧ ac_aud claims = "heiwa".
Proof.
  unfold verify_jwt. destruct (split_at is_full_stop token) as [|header [|payload [|signature [|]]]]; try done.
  intros Hr. apply result_bind_Ok in Hr as (expected & He & Hr). apply result_bind_Ok in Hr as (actual & Ha & Hr).
  apply result_bind_Ok in Hr as ([] & Hs & Hr). apply result_bind_Ok in Hr as (raw & Hraw & Hr).
  apply result_bind_Ok in Hr as (c & Hc & Hr). apply result_bind_Ok in Hr as ([] & Hx & Hr).
  apply result_bind_Ok in Hr as ([] & Hi & Hr). apply result_bind_Ok in Hr as ([] & Hau & Hr). injection Hr as ->.
  exists header, payload, signature. assert (secret ≠ EmptyString) as Hne by (by intros ->).
  apply sign_bytes_ok in He as ->.
  unfold ok_or, bail_if in *. destruct (b64_decode (text signature)) as [x|]; [|done]. injection Ha as ->.
  destruct (b64_decode (text payload)) as [y|]; [|done]. injection Hraw as ->.
  case_bool_decide as Hsame; [|done]. subst. simpl. destruct (claims_of utf8 raw); [|done]. injection Hc as ->.
  destruct (Z.ltb_spec (ac_exp claims) now); [done|]. do 2 (case_bool_decide; [|done]).
  split_and!; done || congruence.
Qed.

(** A session token is its claims.  A token that was signed is accepted as its
    own claims until they expire, when they name this issuer and audience.
    Whatever token is accepted with the signature of that one carries the same
    claims, or the inputs by which the two are tagged are a collision. *)
Theorem a_token_is_its_claims (claims : AuthClaims) (secret : string) (token : bytes) :
  is_i64 (ac_iat claims) → is_i64 (ac_exp claims) → sign_jwt claims secret = Ok token →
  (∀ now, now ≤ ac_exp claims → ac_iss claims = "heiwa-core" → ac_aud claims = "heiwa" →
     verify_jwt utf8 token secret now = Ok claims) ∧
  (∀ token' now claims', verify_jwt utf8 token' secret now = Ok claims' →
     last (split_at is_full_stop token') = last (split_at is_full_stop token) →
     claims' = claims ∨
     ∃ header payload, take 2 (split_at is_full_stop token') = [header; payload] ∧
       tags_collide (as_bytes secret) (signing_input (segment jwt_header) (segment (encode_claims claims)))
         (signing_input header payload)).
Proof.
  intros Hi He Hs. unfold sign_jwt in Hs. apply result_bind_Ok in Hs as (tag & Htag & Hs). injection Hs as <-.
  pose proof (sign_bytes_ok _ _ _ Htag) as Htag'.
  assert (split_at is_full_stop (signing_input (segment jwt_header) (segment (encode_claims claims)) ++ full_stop :: as_bytes (b64_encode tag))
    = [segment jwt_header; segment (encode_claims claims); as_bytes (b64_encode tag)]) as Hsplit
    by (apply token_segments; apply b64_nodot).
  assert ((b64_decode (text (segment (encode_claims claims))) ≫= claims_of utf8) = Some claims) as Hown.
  { unfold segment. rewrite text_as_bytes, b64_decode_encode. simpl. unfold claims_of. rewrite utf8_text. simpl.
    rewrite parse_print by (by apply claims_exact). simpl. by apply decode_encode_claims. }
  split.
  - intros now Hn Hiss Haud. unfold verify_jwt. rewrite Hsplit, Htag, bind_Ok_l, text_as_bytes, b64_decode_encode. cbn [ok_or].
    rewrite bind_Ok_l, bool_decide_true by done. cbn [negb bail_if]. rewrite bind_Ok_l.
    destruct (b64_decode (text (segment (encode_claims claims)))) as [raw|]; [|done]. cbn [ok_or]. rewrite bind_Ok_l.
    simpl in Hown. rewrite Hown. cbn [ok_or]. rewrite bind_Ok_l, (proj2 (Z.ltb_ge _ _) Hn), Hiss, Haud. done.
  - intros token' now claims' Hv Hlast. apply verified_token in Hv as (h & p & s & Hsp & _ & Hd & Hc & _).
    rewrite Hsplit, Hsp in Hlast. injection Hlast as ->. rewrite text_as_bytes, b64_decode_encode in Hd. injection Hd as Hd.
    rewrite Htag' in Hd. apply hmac_same in Hd as [Hd|]; [|right; exists h, p; by rewrite Hsp]. left.
    pose proof (split_at_pieces is_full_stop token') as Hpieces. rewrite Hsp in Hpieces.
    apply Forall_cons in Hpieces as [Hh [Hp _]%Forall_cons].
    assert (split_at is_full_stop (signing_input h p) = [h; p]) as Hhp
      by (unfold signing_input; by rewrite split_at_line, split_at_last).
    unfold signing_input in Hd at 1. rewrite <-Hd in Hhp. rewrite split_at_line, split_at_last in Hhp by (done || apply b64_nodot).
    injection Hhp as _ <-. congruence.
Qed.

(** A bearer token is never empty. *)
Lemma bearer_nonempty header token : parse_bearer_token header = Some token → token ≠ EmptyString.
Proof.
  unfold parse_bearer_token. destruct (trim_bytes _) as [|a l]; [done|].
  destruct (strip_prefix _ _) as [t|]; [destruct (trim_bytes t); [done|]|]; by intros [= <-].
Qed.

Lemma token_user_is cfg now token subject :
  token_user utf8 cfg now token = Some subject →
  jwt_signing_secret cfg ≠ EmptyString ∧
  ∃ claims, subject = User claims ∧ verify_jwt utf8 (as_bytes token) (jwt_signing_secret cfg) now = Ok claims.
Proof.
  unfold token_user. case_bool_decide; [done|]. destruct (verify_jwt _ _ _ _) as [claims|] eqn:Hv; [|done].
  intros [= <-]. split; [done|]. by exists claims.
Qed.

(** A user proved by a carried token. *)
Definition proved_user (cookie authorization : option string) (cfg : RuntimeConfig) (now : Z) (claims : AuthClaims) : Prop :=
  jwt_signing_secret cfg ≠ EmptyString ∧
  (now ≤ ac_exp claims ∧ ac_iss claims = "heiwa-core" ∧ ac_aud claims = "heiwa") ∧
  ∃ token header payload signature,
    (authorization ≫= parse_bearer_token = Some token ∨ cookie ≫= parse_session_cookie = Some token) ∧
    split_at is_full_stop (as_bytes token) = [header; payload; signature] ∧
    b64_decode (text signature) = Some (hmac_sha256 (as_bytes (jwt_signing_secret cfg)) (signing_input header payload)) ∧
    (b64_decode (text payload) ≫= claims_of utf8) = Some claims.

Lemma carried_token cookie authorization cfg now token subject :
  authorization ≫= parse_bearer_token = Some token ∨ cookie ≫= parse_session_cookie = Some token →
  token_user utf8 cfg now token = Some subject →
  ∃ claims, subject = User claims ∧ proved_user cookie authorization cfg now claims.
Proof.
  intros Hfrom (Hne & claims & -> & Hv)%token_user_is. exists claims. split; [done|].
  apply verified_token in Hv as (h & p & s & Hsp & _ & Hd & Hc & Hx).
  split; [done|]. split; [done|]. by exists token, h, p, s.
Qed.

(** C14. Where the subject of a request comes from: the operator only from a bearer
    token equal to the machine's, which is then not empty; a user only from a
    token carried by the authorization header or the session cookie whose last
    segment is the tag of the first two under the signing secret, which is then
    not empty, whose claims have not expired and name this issuer and
    audience.  An empty secret or an empty machine token lets nobody in. *)
Theorem a_subject_is_proved (cookie authorization : option string) (cfg : RuntimeConfig) (now : Z) (subject : AuthSubject) :
  extract_auth_subject utf8 cookie authorization cfg now = Ok subject →
  match subject with
  | Operator => authorization ≫= parse_bearer_token = Some (machine_auth_token cfg) ∧ machine_auth_token cfg ≠ EmptyString
  | User claims => proved_user cookie authorization cfg now claims
  end.
Proof.
  intros Hs. unfold extract_auth_subject in Hs.
  assert (match cookie ≫= parse_session_cookie with Some token => ok_or "unauthorized" (token_user utf8 cfg now token)
          | None => Err "unauthorized" end = Ok subject →
          ∃ claims, subject = User claims ∧ proved_user cookie authorization cfg now claims) as Hcookie.
  { destruct (cookie ≫= parse_session_cookie) as [token|] eqn:Hc; [|done]. intros Ht.
    apply (carried_token _ _ _ _ token); [by right|].
    unfold ok_or in Ht. destruct (token_user _ _ _ _); [|done]. by injection Ht as ->. }
  destruct (authorization ≫= parse_bearer_token) as [token|] eqn:Hb; [|by apply Hcookie in Hs as (claims & -> & Hok)].
  case_bool_decide as Hm.
  - injection Hs as <-. subst. split; [done|]. destruct authorization as [a|]; [|done]. by apply (bearer_nonempty a).
  - destruct (token_user utf8 cfg now token) as [user|] eqn:Hu; [|by apply Hcookie in Hs as (claims & -> & Hok)].
    injection Hs as ->. apply (carried_token cookie authorization) in Hu as (claims & -> & Hok); [done|by left].
Qed.

End tokens.
