(* ===== verification/Decisions.v ===== *)
(** * Approval decisions (apps/heiwa_core/src/integrity.rs, crates/heiwa_drex/src/drex_gate.rs)

    Which actions are held, the seal of a recorded decision, and the wait for
    one.  The seal is a tag of Sha256.v over the canonical text of the record
    without its stamp.  The state of the decision's path, what opening it gives
    and the runtime credential are what each poll observes. *)

From stdpp Require Import base gmap sets strings numbers pretty list.
From Stdlib Require Import Ascii.
From S2P Require Import Prelude Utf8 Json CanonicalJson Hex Sensitive OperatorJournal EvidenceRecords RegistryStore Sha256 Auth.
#[local] Open Scope Z_scope.
#[local] Arguments String.append : simpl nomatch.

(** ** What is held *)

Inductive RiskLevel : Type := Low | Medium | High | Critical.

#[export] Instance RiskLevel_eq_dec : EqDecision RiskLevel.
Proof. solve_decision. Defined.

(** The derived order: declaration order. *)
Definition risk_rank (risk : RiskLevel) : Z := match risk with Low => 0 | Medium => 1 | High => 2 | Critical => 3 end.

Definition risk_as_str (risk : RiskLevel) : string :=
  match risk with Low => "low" | Medium => "medium" | High => "high" | Critical => "critical" end.

Inductive ApprovalVerdict : Type :=
| AutoApproved
| AwaitingApproval (request_id : string) (request_path : string).

(** The variable, the identifier drawn and the state directory are arguments. *)
Definition evaluate_approval_policy (auto_approve : option string) (uuid state_dir : string) (risk : RiskLevel) (surface : string)
    : ApprovalVerdict :=
  let auto_approve_env := default "cli" auto_approve in
  if bool_decide (auto_approve_env = "all") then AutoApproved
  else if bool_decide (auto_approve_env = "cli") && bool_decide (surface = "cli") && (risk_rank risk <? risk_rank Critical)
  then AutoApproved
  else
    let requires_hold :=
      match risk with
      | Low => false
      | Medium => bool_decide (surface = "discord")
      | High => negb (bool_decide (surface = "cli"))
      | Critical => true
      end in
    if negb requires_hold then AutoApproved
    else
      let request_id := "req_" +:+ uuid in
      AwaitingApproval request_id (state_dir +:+ "/dispatch/requests/" +:+ request_id +:+ ".json").

Definition approval_request (request_id action target : string) (risk : RiskLevel) (surface created_at : string) (payload : json)
    : json :=
  json_object [("id", JString request_id); ("action", JString action); ("target", JString target);
               ("risk", JString (risk_as_str risk)); ("surface", JString surface);
               ("created_at_utc", JString created_at); ("payload", payload)].

(** ** The seal *)

Definition DECISION_INTEGRITY_VERSION : string := "1".
Definition DECISION_DOMAIN : bytes := as_bytes "heiwa-decision-v1" ++ [newline].

Inductive DecisionIntegrity : Type := Verified | Invalid (reason : string) | Unverifiable.

#[export] Instance DecisionIntegrity_eq_dec : EqDecision DecisionIntegrity.
Proof. solve_decision. Defined.

Definition integrity_as_str (integrity : DecisionIntegrity) : string :=
  match integrity with Verified => "verified" | Invalid reason => reason | Unverifiable => "unverifiable" end.

Definition decision_id_byte (a : ascii) : bool :=
  is_ascii_alphanumeric a || bool_decide (a = "-"%char) || bool_decide (a = "_"%char) || bool_decide (a = "."%char).

Definition valid_decision_id (id : string) : bool :=
  negb (bool_decide (id = EmptyString)) && (str_len id <=? 160) && negb (bool_decide (id = ".") || bool_decide (id = "..")) &&
  all_bytes_are decision_id_byte id.

Definition outcome_decided (outcome : option string) : bool :=
  bool_decide (outcome = Some "approved") || bool_decide (outcome = Some "denied").

Definition str_at (k : string) (v : json) : option string := json_get k v ≫= as_str.

(** A record without its stamp. *)
Definition unstamped (record : json) : json :=
  match record with JObject m => JObject (btree_remove "integrity" m) | v => v end.

Section seal.
Context `{Base64, JsonText}.

Definition decision_message (record : json) : bytes := DECISION_DOMAIN ++ as_bytes (canonical_json record).

Definition decision_tag (secret : string) (record : json) : option string :=
  if bool_decide (secret = EmptyString) then None
  else Some (b64_encode (hmac_sha256 (as_bytes secret) (decision_message record))).

Definition verify_decision_tag (secret : string) (record : json) (tag : string) : bool :=
  match decision_tag secret record with
  | Some expected => constant_time_eq (as_bytes expected) (as_bytes tag)
  | None => false
  end.

Definition classify_decision (secret : option string) (stem : string) (record : json) : DecisionIntegrity :=
  if negb (valid_decision_id stem) || negb (bool_decide (str_at "id" record = Some stem)) then Invalid "id_mismatch"
  else if negb (outcome_decided (str_at "outcome" record)) then Invalid "invalid_outcome"
  else
    match json_get "integrity" record with
    | None => Invalid "untagged"
    | Some stamp =>
        match secret with
        | None | Some EmptyString => Unverifiable
        | Some secret =>
            if negb (bool_decide (str_at "version" stamp = Some DECISION_INTEGRITY_VERSION)) ||
               negb (bool_decide (str_at "alg" stamp = Some "hmac-sha256")) then Invalid "invalid_stamp"
            else if verify_decision_tag secret (unstamped record) (default "" (str_at "tag" stamp)) then Verified
            else Invalid "tag_mismatch"
        end
    end.

Definition decision_stamp (tag : string) : json :=
  json_object [("version", JString DECISION_INTEGRITY_VERSION); ("alg", JString "hmac-sha256"); ("tag", JString tag)].

Definition seal_decision (secret : string) (record : json) : result string json :=
  match record with
  | JObject object =>
      let id := default "" (str_at "id" record) in
      if negb (valid_decision_id id) || negb (outcome_decided (str_at "outcome" record)) then Err "invalid decision id or outcome"
      else
        let object := btree_remove "integrity" object in
        match decision_tag secret (JObject object) with
        | None => Err "runtime credential is empty"
        | Some tag => Ok (JObject (btree_insert "integrity" (decision_stamp tag) object))
        end
  | _ => Err "decision must be an object"
  end.

(** ** Reading a record *)

Definition RECORD_LIMIT : Z := 16 * 1024 * 1024.

(** An opened path: whether it is a regular file, its length then, and what
    reading it gives. *)
Record OpenRecord : Type := mkOpenRecord { or_regular : bool; or_len : Z; or_content : result string bytes }.

Variable utf8 : bytes → option string.

(** [take] reads one byte past the limit, so what is not refused is the whole
    content. *)
Definition read_decision_record (opened : result string OpenRecord) : result string json :=
  file ← opened;
  if negb (or_regular file) || (or_len file =? 0) || (RECORD_LIMIT <? or_len file) then Err "invalid decision record file"
  else
    content ← or_content file;
    if RECORD_LIMIT <? Z.of_nat (length content) then Err "decision record exceeds limit"
    else ok_or "malformed decision record" (utf8 content ≫= from_str_value).

(** ** Waiting *)

Inductive PathView : Type := PathAbsent | PathError (e : string) | PathFile | PathOther.

(** What one turn of the loop sees. *)
Record DecisionPoll : Type := mkPoll {
  poll_elapsed : Z;
  poll_cancelled : bool;
  poll_path : PathView;
  poll_opened : result string OpenRecord;
  poll_key : option string;
}.

Definition integrity_failure (why : string) : string :=
  "decision integrity verification failed: " +:+ why +:+ "; reconciliation needed".

(** One turn: [None] sleeps. *)
Definition poll_once (request_id : string) (timeout : Z) (p : DecisionPoll) : option (result string string) :=
  if timeout <=? poll_elapsed p then Some (Err ("Timeout waiting for approval decision for " +:+ request_id))
  else if poll_cancelled p then Some (Err ("approval wait cancelled for " +:+ request_id))
  else
    match poll_path p with
    | PathAbsent => None
    | PathError e => Some (Err e)
    | PathOther => Some (Err (integrity_failure "nonregular record"))
    | PathFile =>
        Some match read_decision_record (poll_opened p) with
             | Err _ => Err (integrity_failure "unreadable or malformed record")
             | Ok parsed =>
                 let integrity := classify_decision (poll_key p) request_id parsed in
                 if negb (bool_decide (integrity = Verified)) then Err (integrity_failure (integrity_as_str integrity))
                 else Ok (default "" (str_at "outcome" parsed))
             end
    end.

Fixpoint wait_loop (fuel : nat) (request_id : string) (timeout : Z) (polls : nat → DecisionPoll) (i : nat) : option (result string string) :=
  match fuel with
  | O => None
  | S fuel =>
      match poll_once request_id timeout (polls i) with
      | Some r => Some r
      | None => wait_loop fuel request_id timeout polls (S i)
      end
  end.

(** The sleep between polls, in milliseconds. *)
Definition POLL_INTERVAL : Z := 100.

Definition wait_fuel (timeout : Z) : nat := S (Z.to_nat (timeout / POLL_INTERVAL + 1)).

Definition wait_for_decision_cancellable (request_id : string) (timeout : Z) (paths_resolve : bool) (polls : nat → DecisionPoll)
    : option (result string string) :=
  if negb (valid_decision_id request_id) then Some (Err "invalid approval request id")
  else if negb paths_resolve then Some (Err "runtime root unavailable for approval verification")
  else wait_loop (wait_fuel timeout) request_id timeout polls 0.

End seal.

(** ** The gate *)

(** The table of docs/approval-and-orchestration-policy.md. *)
Definition auto_approved (risk : RiskLevel) (surface : string) : bool :=
  match risk with
  | Low => true
  | Medium => negb (bool_decide (surface = "discord"))
  | High => bool_decide (surface = "cli")
  | Critical => false
  end.

Lemma policy_is_table auto_approve uuid state_dir risk surface :
  evaluate_approval_policy auto_approve uuid state_dir risk surface =
  (if bool_decide (auto_approve = Some "all") || auto_approved risk surface then AutoApproved
   else AwaitingApproval ("req_" +:+ uuid) (state_dir +:+ "/dispatch/requests/req_" +:+ uuid +:+ ".json")).
Proof.
  unfold evaluate_approval_policy, auto_approved.
  assert (bool_decide (default "cli" auto_approve = "all") = bool_decide (auto_approve = Some "all")) as ->.
  { apply bool_decide_ext. destruct auto_approve; simpl; split; congruence. }
  case_bool_decide; [done|]. cbn [orb].
  destruct risk; repeat case_bool_decide; subst; simpl; try done; by rewrite andb_false_r.
Qed.

(** The gate is the documented table: unless the variable is "all", an action
    is approved automatically exactly where the table says so, whatever the
    variable holds, and is otherwise held under an identifier of its own that
    the wait accepts. *)
Theorem the_gate_is_its_table (auto_approve : option string) (uuid state_dir : string) (risk : RiskLevel) (surface : string) :
  evaluate_approval_policy auto_approve uuid state_dir risk surface =
    (if bool_decide (auto_approve = Some "all") || auto_approved risk surface then AutoApproved
     else AwaitingApproval ("req_" +:+ uuid) (state_dir +:+ "/dispatch/requests/req_" +:+ uuid +:+ ".json")) ∧
  (∀ other, auto_approve ≠ Some "all" → other ≠ Some "all" →
     evaluate_approval_policy auto_approve uuid state_dir risk surface =
     evaluate_approval_policy other uuid state_dir risk surface).
Proof. split; [apply policy_is_table|]. intros other Ha Hb. by rewrite !policy_is_table, !bool_decide_false. Qed.

(** ** The seal *)

Lemma remove_inserted {A} k (v : A) m : btree_remove k (btree_insert k v m) = btree_remove k m.
Proof.
  unfold btree_remove. induction m as [|[k' v'] m IH]; simpl; [by rewrite filter_cons_False by tauto|].
  case_bool_decide as Hk; [subst; by rewrite !filter_cons_False by tauto|].
  case_bool_decide; [by rewrite filter_cons_False by tauto|]. rewrite !filter_cons. by rewrite IH.
Qed.

Lemma remove_removed {A} k (m : list (string * A)) : btree_remove k (btree_remove k m) = btree_remove k m.
Proof. unfold btree_remove. apply list_filter_filter_l. tauto. Qed.

Section sealed.
Context `{Base64, JsonText}.

Lemma tag_verifies secret record tag : decision_tag secret record = Some tag → verify_decision_tag secret record tag = true.
Proof. intros Ht. unfold verify_decision_tag. rewrite Ht. by apply constant_time_eq_spec. Qed.

Lemma decided_iff o : outcome_decided o = true ↔ o = Some "approved" ∨ o = Some "denied".
Proof. unfold outcome_decided. by rewrite orb_true_iff, !bool_decide_eq_true. Qed.

(** What a verified record is. *)
Lemma verified_record secret stem record :
  classify_decision secret stem record = Verified →
  valid_decision_id stem = true ∧ str_at "id" record = Some stem ∧ outcome_decided (str_at "outcome" record) = true ∧
  ∃ key stamp, secret = Some key ∧ key ≠ EmptyString ∧ json_get "integrity" record = Some stamp ∧
    decision_tag key (unstamped record) = Some (default "" (str_at "tag" stamp)).
Proof.
  unfold classify_decision. destruct (valid_decision_id stem); [|done]. simpl.
  destruct (bool_decide_reflect (str_at "id" record = Some stem)); [|done]. simpl.
  destruct (outcome_decided _); [|done]. simpl. destruct (json_get "integrity" record) as [stamp|]; [|done].
  destruct secret as [[|a s]|]; [done| |done]. destruct (_ || _); [done|].
  unfold verify_decision_tag. intros Hv. split_and!; try done. exists (String a s), stamp. split_and!; try done.
  destruct (decision_tag _ _) as [tag|]; [|done]. destruct (constant_time_eq _ _) eqn:Hc; [|done].
  apply constant_time_eq_spec, as_bytes_inj in Hc. by subst.
Qed.

Lemma sealed_object secret record sealed :
  seal_decision secret record = Ok sealed →
  ∃ m tag, record = JObject m ∧ valid_decision_id (default "" (str_at "id" record)) = true ∧
    outcome_decided (str_at "outcome" record) = true ∧ decision_tag secret (unstamped record) = Some tag ∧
    sealed = JObject (btree_insert "integrity" (decision_stamp tag) (btree_remove "integrity" m)).
Proof.
  destruct record as [| | | | |m]; try done. unfold seal_decision.
  destruct (valid_decision_id _) eqn:Hid; [|done]. destruct (outcome_decided _) eqn:Ho; [|done]. cbn [negb orb].
  destruct (decision_tag _ _) as [tag|] eqn:Ht; [|done]. intros [= <-]. by exists m, tag.
Qed.

Lemma stamp_fields tag :
  str_at "version" (decision_stamp tag) = Some DECISION_INTEGRITY_VERSION ∧
  str_at "alg" (decision_stamp tag) = Some "hmac-sha256" ∧ str_at "tag" (decision_stamp tag) = Some tag.
Proof. done. Qed.

Lemma str_at_sealed k stamp m :
  k ≠ "integrity" → str_at k (JObject (btree_insert "integrity" stamp (btree_remove "integrity" m))) = str_at k (JObject m).
Proof.
  intros Hk. unfold str_at. cbn [json_get]. by rewrite obj_get_insert, bool_decide_false, obj_get_remove, bool_decide_false.
Qed.

End sealed.

Section seals.
Context `{Base64Laws, CanonicalTextLaws}.

(** C21. A seal is its record's.  A record that was sealed reads as verified under
    the same credential, by its own identifier, with nothing but the stamp
    changed.  A record verified under the same credential with the same tag has
    the same content up to the order of keys, or the inputs by which the two
    records are tagged are a collision of SHA-256. *)
Theorem a_seal_is_its_record (secret : string) (record sealed : json) :
  seal_decision secret record = Ok sealed →
  (unstamped sealed = unstamped record ∧
   ∃ id, str_at "id" record = Some id ∧ classify_decision (Some secret) id sealed = Verified) ∧
  (∀ stem other, classify_decision (Some secret) stem other = Verified →
     (json_get "integrity" other ≫= str_at "tag") = (json_get "integrity" sealed ≫= str_at "tag") →
     json_valid (unstamped other) → json_valid (unstamped record) →
     json_equiv (unstamped other) (unstamped record) ∨
     tags_collide (as_bytes secret) (decision_message (unstamped other)) (decision_message (unstamped record))).
Proof.
  intros (m & tag & -> & Hid & Ho & Ht & ->)%sealed_object. split.
  - assert (unstamped (JObject (btree_insert "integrity" (decision_stamp tag) (btree_remove "integrity" m))) =
            unstamped (JObject m)) as Hu by (simpl; by rewrite remove_inserted, remove_removed).
    split; [done|]. destruct (str_at "id" (JObject m)) as [id|] eqn:Hi; [|done]. exists id. split; [done|].
    assert (secret ≠ EmptyString) as Hne by (by intros ->). apply tag_verifies in Ht.
    unfold classify_decision. simpl in Hid. rewrite Hid, !str_at_sealed, Hi, bool_decide_true, Ho by done. cbn [negb orb].
    cbn [json_get]. rewrite obj_get_insert, bool_decide_true by done. destruct secret as [|a s]; [done|].
    destruct (stamp_fields tag) as (-> & -> & ->). rewrite !bool_decide_true, Hu by done. cbn [negb orb default from_option Datatypes.id].
    by rewrite Ht.
  - intros stem other Hv Htag Hvo Hvr. apply verified_record in Hv as (_ & _ & _ & key & stamp & [= <-] & _ & Hs & Hk).
    rewrite Hs in Htag. cbn [json_get mbind option_bind] in Htag. rewrite obj_get_insert, bool_decide_true in Htag by done.
    cbn in Htag. cbn [mbind option_bind] in Htag. rewrite Htag in Hk. cbn in Hk. unfold decision_tag in Ht, Hk.
    destruct (bool_decide (secret = EmptyString)); [done|]. injection Ht as <-. injection Hk as Hk. apply (f_equal b64_decode) in Hk.
    rewrite !b64_decode_encode in Hk. injection Hk as [Hm|]%hmac_same; [|by right]. left.
    apply app_inv_head, as_bytes_inj in Hm. destruct (prefix_free (unstamped other) (unstamped (JObject m)) "" "") as [He _]; try done.
    unfold canonical_json in Hm. by rewrite Hm.
Qed.

End seals.

(** ** The wait *)

Section waits.
Context `{Base64, JsonText}.
Variable utf8 : bytes → option string.

(** [thread::sleep] sleeps at least its interval: the time of a turn is at
    least the sleeps before it. *)
Definition sleeps_between (polls : nat → DecisionPoll) : Prop := ∀ i, POLL_INTERVAL * Z.of_nat i ≤ poll_elapsed (polls i).

(** What a turn that ends the wait has seen. *)
Definition sealed_approval (request_id : string) (timeout : Z) (p : DecisionPoll) (outcome : string) : Prop :=
  poll_elapsed p < timeout ∧ poll_cancelled p = false ∧ poll_path p = PathFile ∧
  (outcome = "approved" ∨ outcome = "denied") ∧
  ∃ record key stamp,
    read_decision_record utf8 (poll_opened p) = Ok record ∧ poll_key p = Some key ∧ key ≠ EmptyString ∧
    str_at "id" record = Some request_id ∧ str_at "outcome" record = Some outcome ∧
    json_get "integrity" record = Some stamp ∧
    decision_tag key (unstamped record) = Some (default "" (str_at "tag" stamp)).

Lemma poll_approves request_id timeout p outcome :
  poll_once utf8 request_id timeout p = Some (Ok outcome) →
  valid_decision_id request_id = true ∧ sealed_approval request_id timeout p outcome.
Proof.
  unfold poll_once. destruct (Z.leb_spec timeout (poll_elapsed p)) as [|He]; [done|].
  destruct (poll_cancelled p) eqn:Hc; [done|]. destruct (poll_path p) eqn:Hp; try done.
  destruct (read_decision_record _ _) as [record|] eqn:Hr; [|done].
  destruct (bool_decide_reflect (classify_decision (poll_key p) request_id record = Verified)) as [Hv|]; [|done].
  cbn [negb]. intros [= <-]. apply verified_record in Hv as (Hid & Hi & Ho & key & stamp & Hk & Hne & Hs & Ht).
  apply decided_iff in Ho. split; [done|]. split_and!; try done; destruct Ho as [Ho|Ho]; rewrite Ho; auto.
  - exists record, key, stamp. by rewrite Ho.
  - exists record, key, stamp. by rewrite Ho.
Qed.

Lemma loop_ends request_id timeout polls fuel i :
  sleeps_between polls → timeout ≤ POLL_INTERVAL * Z.of_nat (i + fuel) →
  ∃ r j, wait_loop utf8 (S fuel) request_id timeout polls i = Some r ∧ (i ≤ j)%nat ∧
    poll_once utf8 request_id timeout (polls j) = Some r ∧
    ∀ k, (i ≤ k < j)%nat → poll_once utf8 request_id timeout (polls k) = None.
Proof.
  intros Hs. revert i. induction fuel as [|fuel IH]; intros i Ht.
  - exists (Err ("Timeout waiting for approval decision for " +:+ request_id)), i.
    assert (poll_once utf8 request_id timeout (polls i) =
            Some (Err ("Timeout waiting for approval decision for " +:+ request_id))) as Hp.
    { unfold poll_once. specialize (Hs i). rewrite Nat.add_0_r in Ht. by rewrite (proj2 (Z.leb_le _ _)) by lia. }
    simpl. rewrite Hp. split_and!; [done|lia|done|lia].
  - cbn [wait_loop]. destruct (poll_once utf8 request_id timeout (polls i)) as [r|] eqn:Hp.
    { exists r, i. split_and!; [done|lia|done|lia]. }
    destruct (IH (S i)) as (r & j & Hw & Hj & Hr & Hk); [by rewrite Nat.add_succ_comm|].
    exists r, j. split_and!; [done|lia|done|]. intros k Hik. destruct (decide (k = i)) as [->|]; [done|]. apply Hk. lia.
Qed.

Lemma wait_returns (request_id : string) (timeout : Z) (paths_resolve : bool) (polls : nat → DecisionPoll) :
  sleeps_between polls →
  ∃ r, wait_for_decision_cancellable utf8 request_id timeout paths_resolve polls = Some r ∧
    ∀ outcome, r = Ok outcome →
      valid_decision_id request_id = true ∧
      ∃ i, sealed_approval request_id timeout (polls i) outcome ∧
        ∀ k, (k < i)%nat → poll_cancelled (polls k) = false ∧ poll_path (polls k) = PathAbsent.
Proof.
  intros Hs. unfold wait_for_decision_cancellable.
  destruct (valid_decision_id request_id); [|by eexists]. destruct paths_resolve; [|by eexists]. cbn [negb].
  destruct (loop_ends request_id timeout polls (Z.to_nat (timeout / POLL_INTERVAL + 1)) 0 Hs) as (r & i & Hw & _ & Hr & Hk).
  { unfold POLL_INTERVAL. mods. }
  exists r. split; [exact Hw|]. intros outcome ->. apply poll_approves in Hr as [_ Ha]. split; [done|]. exists i. split; [done|].
  intros k Hki. specialize (Hk k ltac:(lia)). unfold poll_once in Hk. destruct (timeout <=? _); [done|].
  destruct (poll_cancelled _); [done|]. by destruct (poll_path _).
Qed.

(** C12. The wait for a decision always returns, and returns an outcome only from a
    sealed record: a turn before the timeout and before any cancellation found
    a regular file at the request's path, whose record names this request, is
    decided, and carries the tag of its own content under the runtime's
    credential, which is not empty.  Every earlier turn was not cancelled and
    found no file. *)
Theorem an_outcome_is_sealed (request_id : string) (timeout : Z) (paths_resolve : bool) (polls : nat → DecisionPoll) :
  sleeps_between polls →
  ∃ r, wait_for_decision_cancellable utf8 request_id timeout paths_resolve polls = Some r ∧
    ∀ outcome, r = Ok outcome →
      valid_decision_id request_id = true ∧
      ∃ i, sealed_approval request_id timeout (polls i) outcome ∧
        ∀ k, (k < i)%nat → poll_cancelled (polls k) = false ∧ poll_path (polls k) = PathAbsent.
Proof. apply wait_returns. Qed.

End waits.
