(* ===== verification/AgenticTools.v ===== *)
(** * Tool calls behind the approval gate (apps/heiwa_shell/src/agentic.rs)

    How the tool calls of a reply are read, and how each is held, executed or
    denied.  The tool registry, the clocks, the identifiers drawn and what the
    wait observes are those of each call's world. *)

From stdpp Require Import base gmap sets strings numbers pretty list.
From Stdlib Require Import Ascii.
From S2P Require Import Prelude Utf8 Json Sensitive OperatorJournal RegistryStore Git Sha256 Auth Decisions.
#[local] Open Scope Z_scope.
#[local] Arguments String.append : simpl nomatch.

(** ** Reading the calls of a reply *)

Record ToolCall : Type := mkToolCall { tc_id : string; tc_name : string; tc_arguments : json }.

Definition contains_str (needle text : string) : bool := contains (as_bytes needle) (as_bytes text).

(** [str::find] and [str::rfind] of a byte. *)
Fixpoint find_byte (a : ascii) (s : bytes) : option nat :=
  match s with
  | [] => None
  | b :: s' => if bool_decide (a = b) then Some O else S <$> find_byte a s'
  end.

Fixpoint rfind_byte (a : ascii) (s : bytes) : option nat :=
  match s with
  | [] => None
  | b :: s' => match rfind_byte a s' with Some i => Some (S i) | None => if bool_decide (a = b) then Some O else None end
  end.

(** [&text[start..=end]], which panics when [start > end + 1]. *)
Definition slice_inclusive (text : bytes) (first last : nat) : option bytes :=
  if (first <=? S last)%nat then Some (take (S last - first) (drop first text)) else None.

Section calls.
Context `{JsonText}.

(** [from_str] of a slice of a string, whose bounds are at ASCII characters. *)
Definition parse_bytes (b : bytes) : option json := from_str_value (text b).

Definition parse_jsonish (text : string) : outcome (option json) :=
  match parse_bytes (trim_bytes (as_bytes text)) with
  | Some value => Return (Some value)
  | None =>
      match find_byte "{"%char (as_bytes text), rfind_byte "}"%char (as_bytes text) with
      | Some first, Some last =>
          match slice_inclusive (as_bytes text) first last with
          | Some part => Return (parse_bytes part)
          | None => Panic
          end
      | _, _ => Return None
      end
  end.

Definition first_of {A} (a b : option A) : option A := match a with Some x => Some x | None => b end.

Definition normalize_arguments (arguments : json) : json :=
  match arguments with
  | JString s => default (json_object [("value", JString s)]) (from_str_value s)
  | other => other
  end.

Definition tool_call_from_value (uuid : string) (value : json) : option ToolCall :=
  let function := json_get "function" value in
  name ← first_of (first_of (json_get "name" value) (json_get "tool" value) ≫= as_str)
                  ((function ≫= json_get "name") ≫= as_str);
  let arguments := default (JObject [])
    (first_of (first_of (json_get "arguments" value) (json_get "input" value))
              (function ≫= json_get "arguments")) in
  Some (mkToolCall (default ("tool-call-" +:+ uuid) (str_at "id" value)) name (normalize_arguments arguments)).

(** The identifiers drawn, one for each value tried. *)
Definition collect_tool_calls (uuids : nat → string) (value : json) : list ToolCall :=
  match json_get "tool_calls" value with
  | Some (JArray calls) => omap id (imap (λ i call, tool_call_from_value (uuids i) call) calls)
  | _ =>
      match json_get "tool_call" value with
      | Some call => option_list (tool_call_from_value (uuids O) call)
      | None => option_list (tool_call_from_value (uuids O) value)
      end
  end.

Definition parse_tool_calls (uuids : nat → string) (text : string) : outcome (list ToolCall) :=
  match parse_jsonish text with
  | Return (Some value) => Return (collect_tool_calls uuids value)
  | Return None => Return []
  | Panic => Panic
  end.

End calls.

(** ** Holding and executing a call *)

Definition tool_risk (call : ToolCall) : RiskLevel :=
  let name := tc_name call in
  if bool_decide (name = "deploy") || bool_decide (name = "app.deploy") then Critical
  else if contains_str "write" name || contains_str "delete" name then High
  else if contains_str "net" name || contains_str "http" name then Medium
  else Low.

Inductive ToolCallStatus : Type := Success | Failure | Denied.

Record ToolTranscriptEntry : Type := mkEntry { te_name : string; te_output : string }.

Record ToolCallReceipt : Type := mkReceipt {
  tr_id : string;
  tr_call_id : string;
  tr_provider : string;
  tr_model_id : string;
  tr_tool_name : string;
  tr_status : ToolCallStatus;
  tr_started_at : string;
  tr_completed_at : string;
  tr_arguments : json;
  tr_result : option json;
  tr_error : option string;
}.

(** [McpError]: whether it is a policy denial, and its text. *)
Record ToolError : Type := mkToolError { is_policy_denial : bool; error_text : string }.

Record ToolWorld : Type := mkWorld {
  cw_started_at : string;
  cw_created_at : string;
  cw_completed_at : string;
  cw_request_uuid : string;
  cw_receipt_uuid : string;
  cw_paths_resolve : bool;
  cw_polls : nat → DecisionPoll;
}.

Inductive ToolEffect : Type := Staged (request_path : string) (request : json) | Called (name : string) (arguments : json).

Record ToolApproval : Type := mkApproval {
  ta_request : option (string * string);
  ta_risk : RiskLevel;
  ta_surface : string;
}.

(** [PolicyDenied(MissingLease)]. *)
Definition missing_lease (tool : string) : ToolError := mkToolError true ("policy denied: tool lease missing for " +:+ tool).

(** What the process fixes: the two variables and the state directory. *)
Record GateConfig : Type := mkGate { g_auto_approve : option string; g_surface : option string; g_state_dir : string }.

Definition plan_tool_approval (gate : GateConfig) (uuid : string) (call : ToolCall) : ToolApproval :=
  let surface := default "cli" (g_surface gate) in
  let risk := tool_risk call in
  match evaluate_approval_policy (g_auto_approve gate) uuid (g_state_dir gate) risk surface with
  | AutoApproved => mkApproval None risk surface
  | AwaitingApproval request_id request_path => mkApproval (Some (request_id, request_path)) risk surface
  end.

Section execution.
Context `{Base64, JsonText}.
Variable utf8 : bytes → option string.
Variable registry : string → json → result ToolError json.

Definition stage_tool_approval (created_at : string) (call : ToolCall) (approval : ToolApproval) : list ToolEffect :=
  match ta_request approval with
  | None => []
  | Some (request_id, request_path) =>
      [Staged request_path
         (approval_request request_id (tc_name call) (print_json (tc_arguments call)) (ta_risk approval) (ta_surface approval)
            created_at (tc_arguments call))]
  end.

(** Five minutes. *)
Definition APPROVAL_TIMEOUT : Z := 300 * 1000.

Definition wait_for_tool_approval_cancellable (world : ToolWorld) (approval : ToolApproval) : option (result string string) :=
  match ta_request approval with
  | None => Some (Err "auto-approved action has no approval wait")
  | Some (request_id, _) =>
      wait_for_decision_cancellable utf8 request_id APPROVAL_TIMEOUT (cw_paths_resolve world) (cw_polls world)
  end.

(** [never cancelled]: [wait_for_decision] passes a flag nobody sets. *)
Definition uncancelled (p : DecisionPoll) : DecisionPoll := mkPoll (poll_elapsed p) false (poll_path p) (poll_opened p) (poll_key p).

Definition wait_for_decision (request_id : string) (timeout : Z) (paths_resolve : bool) (polls : nat → DecisionPoll)
    : option (result string string) :=
  wait_for_decision_cancellable utf8 request_id timeout paths_resolve (λ i, uncancelled (polls i)).

(** [Ok tt], or why the call is denied. *)
Definition approval_of (verdict : ApprovalVerdict) (world : ToolWorld) : option (result string unit) :=
  match verdict with
  | AutoApproved => Some (Ok tt)
  | AwaitingApproval request_id _ =>
      decision ← wait_for_decision request_id APPROVAL_TIMEOUT (cw_paths_resolve world) (cw_polls world);
      Some match decision with
           | Ok outcome => if bool_decide (outcome = "approved") then Ok tt else Err ("denied: " +:+ outcome)
           | Err e => Err ("timeout: " +:+ e)
           end
  end.

Definition finished (provider model_id : string) (world : ToolWorld) (call : ToolCall) (r : result ToolError json)
    : ToolCallReceipt * ToolTranscriptEntry :=
  let receipt status value error :=
    mkReceipt ("tool-receipt-" +:+ cw_receipt_uuid world) (tc_id call) provider model_id (tc_name call) status
      (cw_started_at world) (cw_completed_at world) (tc_arguments call) value error in
  match r with
  | Ok value => (receipt Success (Some value) None, mkEntry (tc_name call) (print_json_pretty value))
  | Err error =>
      (receipt (if is_policy_denial error then Denied else Failure) None (Some (error_text error)),
       mkEntry (tc_name call) ("error: " +:+ error_text error))
  end.

(** One turn of the loop of [execute_tool_calls].  A request that could not be
    staged is reported and waited for all the same. *)
Definition execute_one (gate : GateConfig) (provider model_id : string) (world : ToolWorld) (call : ToolCall)
    : option (list ToolEffect * (ToolCallReceipt * ToolTranscriptEntry)) :=
  let risk := tool_risk call in
  let surface := default "cli" (g_surface gate) in
  let verdict := evaluate_approval_policy (g_auto_approve gate) (cw_request_uuid world) (g_state_dir gate) risk surface in
  let staged :=
    match verdict with
    | AutoApproved => []
    | AwaitingApproval request_id request_path =>
        [Staged request_path
           (approval_request request_id (tc_name call) (print_json (tc_arguments call)) risk surface (cw_created_at world)
              (tc_arguments call))]
    end in
  approved ← approval_of verdict world;
  match approved with
  | Ok _ =>
      Some (staged ++ [Called (tc_name call) (tc_arguments call)],
            finished provider model_id world call (registry (tc_name call) (tc_arguments call)))
  | Err reason =>
      Some (staged,
            finished provider model_id world call
              (Err (missing_lease (tc_name call +:+ " (gated, approval: " +:+ reason +:+ ")"))))
  end.

Fixpoint execute_tool_calls (gate : GateConfig) (provider model_id : string) (calls : list (ToolWorld * ToolCall))
    : option (list ToolEffect * list ToolCallReceipt * list ToolTranscriptEntry) :=
  match calls with
  | [] => Some ([], [], [])
  | (world, call) :: calls =>
      '(effects, (receipt, entry)) ← execute_one gate provider model_id world call;
      '(effects', receipts, entries) ← execute_tool_calls gate provider model_id calls;
      Some (effects ++ effects', receipt :: receipts, entry :: entries)
  end.

(** [pop] of the two lists. *)
Definition execute_tool_call (gate : GateConfig) (provider model_id : string) (world : ToolWorld) (call : ToolCall)
    : option (result string (ToolCallReceipt * ToolTranscriptEntry)) :=
  '(_, receipts, entries) ← execute_tool_calls gate provider model_id [(world, call)];
  Some (receipt ← ok_or "tool execution returned no receipt" (last receipts);
        entry ← ok_or "tool execution returned no transcript entry" (last entries);
        Ok (receipt, entry)).

Definition execute_approved_tool_call (provider model_id : string) (world : ToolWorld) (call : ToolCall)
    : ToolCallReceipt * ToolTranscriptEntry :=
  finished provider model_id world call (registry (tc_name call) (tc_arguments call)).

Definition joined_entries (title : string → string) (entries : list ToolTranscriptEntry) : string :=
  String.concat (text [newline; newline]) (map (λ e, title (te_name e) +:+ text [newline] +:+ te_output e) entries).

Definition tool_result_prompt (entries : list ToolTranscriptEntry) : string :=
  "Tool results are available. Use them to answer the user." +:+ text [newline; newline] +:+
  joined_entries (λ name, name +:+ " result:") entries.

Definition summarize_tool_outputs (prompt : string) (entries : list ToolTranscriptEntry) : string :=
  "Agentic tool results for '" +:+ prompt +:+ "':" +:+ text [newline] +:+ joined_entries (λ name, name +:+ ":") entries.

Record AgenticTurnOutput : Type := mkOutput {
  final_answer : string;
  tool_receipts : list ToolCallReceipt;
  tool_transcript : list ToolTranscriptEntry;
}.

(** One world for each call of the first response. *)
Definition run_agentic_turn_with_context (gate : GateConfig) (uuids : nat → string) (worlds : nat → ToolWorld)
    (prompt : string) (model_responses : list string) (provider model_id : string) : option (outcome AgenticTurnOutput) :=
  let first_response := default EmptyString (head model_responses) in
  match parse_tool_calls uuids first_response with
  | Panic => Some Panic
  | Return [] => Some (Return (mkOutput first_response [] []))
  | Return calls =>
      '(_, receipts, transcript) ← execute_tool_calls gate provider model_id (imap (λ i call, (worlds i, call)) calls);
      Some (Return (mkOutput (default (summarize_tool_outputs prompt transcript) (head (tail model_responses))) receipts transcript))
  end.

End execution.

(** ** The gate *)

Section gated.
Context `{Base64, JsonText}.
Variable utf8 : bytes → option string.
Variable registry : string → json → result ToolError json.

Notation run := (list ToolEffect * (ToolCallReceipt * ToolTranscriptEntry))%type.

(** The request a held call stages: under its own identifier, at that
    identifier's path, naming the tool and carrying the arguments. *)
Definition asks_for (gate : GateConfig) (world : ToolWorld) (call : ToolCall) (e : ToolEffect) : Prop :=
  ∃ request,
    e = Staged (g_state_dir gate +:+ "/dispatch/requests/req_" +:+ cw_request_uuid world +:+ ".json") request ∧
    str_at "id" request = Some ("req_" +:+ cw_request_uuid world) ∧
    str_at "action" request = Some (tc_name call) ∧ json_get "payload" request = Some (tc_arguments call) ∧
    str_at "risk" request = Some (risk_as_str (tool_risk call)).

(** What became of a call: approved by the table or the variable, and called
    with nothing staged; or held, with its request staged, and then either
    called after a sealed approval of that request's identifier or denied. *)
Definition respects (gate : GateConfig) (world : ToolWorld) (call : ToolCall) (r : run) : Prop :=
  let called := Called (tc_name call) (tc_arguments call) in
  let answer := registry (tc_name call) (tc_arguments call) in
  tr_call_id r.2.1 = tc_id call ∧ tr_tool_name r.2.1 = tc_name call ∧ te_name r.2.2 = tc_name call ∧
  (((g_auto_approve gate = Some "all" ∨ auto_approved (tool_risk call) (default "cli" (g_surface gate)) = true) ∧
      r.1 = [called] ∧ tr_result r.2.1 = result_ok answer) ∨
   (g_auto_approve gate ≠ Some "all" ∧ auto_approved (tool_risk call) (default "cli" (g_surface gate)) = false ∧
      ∃ staged, asks_for gate world call staged ∧
        ((r.1 = [staged; called] ∧ tr_result r.2.1 = result_ok answer ∧
            ∃ i, sealed_approval utf8 ("req_" +:+ cw_request_uuid world) APPROVAL_TIMEOUT
                   (uncancelled (cw_polls world i)) "approved") ∨
         (r.1 = [staged] ∧ tr_status r.2.1 = Denied ∧ tr_result r.2.1 = None)))).

Lemma finished_names provider model_id world call r :
  tr_call_id (finished provider model_id world call r).1 = tc_id call ∧
  tr_tool_name (finished provider model_id world call r).1 = tc_name call ∧
  te_name (finished provider model_id world call r).2 = tc_name call ∧
  tr_result (finished provider model_id world call r).1 = result_ok r.
Proof. by destruct r. Qed.

Lemma approval_asks gate world call :
  asks_for gate world call
    (Staged (g_state_dir gate +:+ "/dispatch/requests/req_" +:+ cw_request_uuid world +:+ ".json")
       (approval_request ("req_" +:+ cw_request_uuid world) (tc_name call) (print_json (tc_arguments call)) (tool_risk call)
          (default "cli" (g_surface gate)) (cw_created_at world) (tc_arguments call))).
Proof. eexists. split; [reflexivity|]. unfold str_at, approval_request. by rewrite !json_get_object. Qed.

Lemma one_call gate provider model_id world call :
  sleeps_between (cw_polls world) →
  ∃ r, execute_one utf8 registry gate provider model_id world call = Some r ∧ respects gate world call r.
Proof.
  intros Hs. unfold execute_one, approval_of. rewrite policy_is_table.
  destruct (_ || _) eqn:Hauto.
  - eexists. split; [reflexivity|]. destruct (finished_names provider model_id world call
      (registry (tc_name call) (tc_arguments call))) as (? & ? & ? & ?). split_and!; [done..|]. left. split; [|done].
    apply orb_true_iff in Hauto as [Ha%bool_decide_eq_true|Ha]; [by left|by right].
  - apply orb_false_iff in Hauto as [Hall%bool_decide_eq_false Htable]. pose proof (approval_asks gate world call) as Hask.
    destruct (wait_returns utf8 ("req_" +:+ cw_request_uuid world) APPROVAL_TIMEOUT (cw_paths_resolve world)
      (λ i, uncancelled (cw_polls world i)) Hs) as (r & Hw & Hok).
    unfold wait_for_decision. rewrite Hw. cbn [mbind option_bind].
    destruct r as [outcome|e]; [destruct (bool_decide_reflect (outcome = "approved")) as [Ho|Ho]|].
    + eexists. split; [reflexivity|]. destruct (finished_names provider model_id world call
        (registry (tc_name call) (tc_arguments call))) as (? & ? & ? & ?). split_and!; [done..|]. right. split; [done|].
      split; [done|]. eexists. split; [exact Hask|]. left. split; [done|]. split; [done|].
      destruct (Hok outcome eq_refl) as (_ & i & Hi & _). exists i. by subst.
    + eexists. split; [reflexivity|]. split_and!; [done..|]. right. split; [done|]. split; [done|].
      eexists. split; [exact Hask|]. by right.
    + eexists. split; [reflexivity|]. split_and!; [done..|]. right. split; [done|]. split; [done|].
      eexists. split; [exact Hask|]. by right.
Qed.

(** C11. No tool runs behind the operator's back.  The calls of a reply are executed
    to the end, in order, with one receipt and one transcript entry each, under
    the call's own identifier and name.  The registry is called for a call at
    most once, with its own name and arguments.  A call that the table or the
    variable approves is called with nothing staged.  For any other one request
    is staged (or tried to be), which names it and carries its arguments under
    its own identifier, and it is called only when a sealed approval of that identifier was read before
    the five minutes ran out; otherwise it is denied and its result is empty. *)
Theorem no_tool_runs_unapproved (gate : GateConfig) (provider model_id : string) (calls : list (ToolWorld * ToolCall)) :
  Forall (λ wc, sleeps_between (cw_polls wc.1)) calls →
  ∃ runs : list run,
    execute_tool_calls utf8 registry gate provider model_id calls =
      Some (concat (map fst runs), map (λ r, r.2.1) runs, map (λ r, r.2.2) runs) ∧
    Forall2 (λ wc r, respects gate wc.1 wc.2 r) calls runs.
Proof.
  induction 1 as [|[world call] calls Hs Hcalls IH]; [by exists []|].
  destruct IH as (runs & He & Hr), (one_call gate provider model_id world call Hs) as ([effects [receipt entry]] & Ho & Hone).
  exists ((effects, (receipt, entry)) :: runs). cbn [execute_tool_calls]. rewrite Ho, He. split; [done|]. by constructor.
Qed.

End gated.

(** ** Reading a reply *)

(** Where the reading of a reply panics: its text is not JSON and its last
    closing brace is at least two bytes before its first opening one. *)
Lemma reading_panics `{JsonText} (uuids : nat → string) (reply : string) :
  parse_tool_calls uuids reply = Panic ↔
  parse_bytes (trim_bytes (as_bytes reply)) = None ∧
  ∃ first last, find_byte "{"%char (as_bytes reply) = Some first ∧ rfind_byte "}"%char (as_bytes reply) = Some last ∧
    (S last < first)%nat.
Proof.
  unfold parse_tool_calls, parse_jsonish. destruct (parse_bytes (trim_bytes _)); [split; [done|by intros [? _]]|].
  destruct (find_byte _ _) as [first|]; [|split; [done|by intros (_ & ? & ? & ? & _)]].
  destruct (rfind_byte _ _) as [last|]; [|split; [done|by intros (_ & ? & ? & _ & ? & _)]].
  unfold slice_inclusive. destruct (Nat.leb_spec first (S last)) as [Hle|Hlt].
  - split; [by destruct (parse_bytes _)|]. intros (_ & ? & ? & [= <-] & [= <-] & ?). lia.
  - split; [|done]. intros _. split; [done|]. by exists first, last.
Qed.
