(* ===== verification/ReferenceLog.v ===== *)
(** * A reference event log

    The simplest log with the contract of [EventLog]: a list of events whose
    cursors are their positions.  It shows the contract can hold and is what the
    witnesses of the session theorems run on. *)

From stdpp Require Import base gmap sets strings numbers list.
From Stdlib Require Import Ascii.
From S2P Require Import Prelude Json OperatorEvent Turns TurnProtocol EventLog ReferenceText Envelope.
From S2P Require Import Hex RoutePolicy Session SessionSync SessionTurns SessionRecovery.
#[local] Open Scope Z_scope.

Definition index_text (i : nat) : string := positive_text (Pos.of_succ_nat i).

Definition ref_rows (events : list OperatorEvent) : list CursorEvent :=
  imap (λ i e, mkRow (index_text i) e) events.

(** The position a cursor stands for. *)
Definition ref_position (events : list OperatorEvent) (cursor : option string) : option nat :=
  match cursor with
  | None => Some 0%nat
  | Some c =>
      let n := Pos.to_nat (text_positive c) in
      if bool_decide (positive_text (text_positive c) = c) && (n <=? length events)%nat
      then Some n else None
  end.

Definition ref_read (events : list OperatorEvent) (cursor : option string) (limit : nat)
    : result CursorError OperatorPage :=
  match ref_position events cursor with
  | None => Err (InvalidCursor "no such position")
  | Some n =>
      let rows := take limit (drop n (ref_rows events)) in
      Ok (mkPage rows (cursor_after cursor rows) 0)
  end.

#[export] Instance ref_log : EventLog (list OperatorEvent) := {|
  log_append events e := (events ++ [e], Ok (mkRow (index_text (length events)) e));
  log_read_after := ref_read;
|}.

#[export] Instance index_text_inj : Inj (=) (=) index_text.
Proof.
  intros i i' Hi. unfold index_text in Hi. apply (f_equal text_positive) in Hi.
  rewrite !text_positive_text in Hi. lia.
Qed.

Lemma ref_rows_app events es :
  ref_rows (events ++ es) = ref_rows events ++ imap (λ i e, mkRow (index_text (length events + i)) e) es.
Proof. unfold ref_rows. rewrite imap_app. done. Qed.

Lemma ref_rows_cursors events :
  map ce_cursor (ref_rows events) = map index_text (seq 0 (length events)).
Proof.
  unfold ref_rows. change (map ce_cursor ?l) with (ce_cursor <$> l). rewrite fmap_imap.
  apply list_eq. intros i. rewrite list_lookup_imap.
  change (map index_text ?l) with (index_text <$> l). rewrite list_lookup_fmap.
  destruct (events !! i) as [e|] eqn:E; simpl.
  - apply lookup_lt_Some in E. by rewrite lookup_seq_lt.
  - apply lookup_ge_None in E. by rewrite lookup_seq_ge.
Qed.

Lemma ref_rows_length events : length (ref_rows events) = length events.
Proof. unfold ref_rows. apply length_imap. Qed.

(** The cursor after a first part of the rows is the position of its end. *)
Lemma ref_position_after events pre post :
  ref_rows events = pre ++ post → ref_position events (cursor_after None pre) = Some (length pre).
Proof.
  intros Hr. destruct pre as [|row pre _] using rev_ind; [done|].
  unfold cursor_after. rewrite last_snoc. simpl.
  assert (ce_cursor row = index_text (length pre)) as ->.
  { pose proof (f_equal (map ce_cursor) Hr) as Hc. rewrite ref_rows_cursors in Hc.
    rewrite !map_app in Hc. simpl in Hc.
    apply (f_equal (λ l, l !! length pre)) in Hc. rewrite <- (length_map ce_cursor pre) in Hc at 2.
    rewrite <- app_assoc in Hc. simpl in Hc. rewrite list_lookup_middle in Hc by done.
    change (map index_text ?l) with (index_text <$> l) in Hc. rewrite list_lookup_fmap in Hc.
    rewrite lookup_seq_lt in Hc; [by injection Hc|].
    rewrite <- ref_rows_length, Hr, !length_app. simpl. lia. }
  unfold index_text. rewrite text_positive_text, bool_decide_true by done.
  rewrite SuccNat2Pos.id_succ, length_app.
  assert (S (length pre) ≤ length events)%nat.
  { rewrite <- ref_rows_length, Hr, !length_app. simpl. lia. }
  rewrite (proj2 (Nat.leb_le _ _)) by lia. simpl. f_equal. lia.
Qed.

#[export] Instance ref_log_laws : EventLogLaws (list OperatorEvent).
Proof.
  refine {| log_rows := ref_rows; log_readable _ := True; log_encodes _ := True |}.
  - intros l. rewrite ref_rows_cursors. apply NoDup_fmap; [apply _|]. apply NoDup_seq.
  - intros l pre post cursor limit page Hr -> Hp. simpl in Hp. unfold ref_read in Hp.
    rewrite (ref_position_after _ _ _ Hr), Hr, drop_app_length in Hp.
    injection Hp as <-. done.
  - intros l pre post limit _ Hr. simpl. unfold ref_read.
    rewrite (ref_position_after _ _ _ Hr). eauto.
  - intros l e l' row _ [= <- <-]. split; [done|]. rewrite ref_rows_app. simpl.
    by rewrite Nat.add_0_r.
  - intros l e l' r [= <- _]. rewrite ref_rows_app. by eexists.
Defined.

(** ** Witnesses *)

Definition ref_service (rows : list CursorEvent) : Service (list OperatorEvent) :=
  mkService (map ce_event rows) default_journal.

Lemma sync_is_replay_from_scratch_witness :
  let s := ref_service [sample_start; sample_cancel] in
  service_coherent s ∧
  ∃ j, materialized 3 s = (mkService (sv_journal s) j, Ok j) ∧
    core j = replay default_journal (log_rows (sv_journal s)) ∧
    mj_cursor j = cursor_after None (log_rows (sv_journal s)).
Proof.
  split; [apply coherent_default|].
  apply (sync_is_replay_from_scratch (ref_service [sample_start; sample_cancel]) 3).
  - apply coherent_default.
  - exact I.
  - vm_compute. lia.
Defined.

#[export] Instance ref_uuid : UuidV5 := {| uuid_v5 namespace name := to_hex name |}.

Definition ref_env (prefix : string) : Env :=
  mkEnv (λ i, prefix +:+ index_text i) "2026-01-01T00:00:00Z" (Ok tt).

Definition ref_request : StartTurnRequest := request_auto "request-1" "hello".

Definition ref_submission : TurnSubmission :=
  mkSubmission "thread-1" (deterministic_turn_id "thread-1" "request-1") None (index_text 2) false.

Definition ref_submitted : Service (list OperatorEvent) :=
  (start_turn 2 (ref_env "a") "thread-1" ref_request (ref_service [])).1.

Lemma start_turn_exactly_once_witness :
  start_turn 2 (ref_env "a") "thread-1" ref_request (ref_service []) =
    (ref_submitted, Ok ref_submission) ∧
  ∃ s3, sv_journal s3 = sv_journal ref_submitted ∧
    start_turn 5 (ref_env "b") "thread-1" ref_request ref_submitted =
      (s3, Ok (mkSubmission "thread-1" (sub_turn_id ref_submission) None (index_text 2) true)).
Proof.
  assert (start_turn 2 (ref_env "a") "thread-1" ref_request (ref_service []) =
            (ref_submitted, Ok ref_submission)) as Hst by (vm_compute; reflexivity).
  split; [exact Hst|].
  destruct (start_turn_exactly_once (ref_service []) ref_submitted 2 (ref_env "a") "thread-1"
              ref_request ref_submission) as [Hag Hretry].
  - apply coherent_default.
  - exact Hst.
  - reflexivity.
  - split_and!; [eapply bool_decide_unpack; vm_compute; exact I..|reflexivity].
  - split; [simpl; lia|intros b [E|E]; discriminate].
  - intros b. apply Forall_true. intros e. exact I.
  - destruct (Hretry ref_submitted [] 5%nat (ref_env "b") ref_request) as (s3 & Hj & Hok & _).
    + apply coherent_default.
    + by rewrite app_nil_r.
    + constructor.
    + exact I.
    + vm_compute. lia.
    + reflexivity.
    + vm_compute. reflexivity.
    + reflexivity.
    + exists s3. split; [exact Hj|exact (Hok Hag)].
Defined.

Lemma recovery_closes_every_turn_witness :
  let s := ref_service [sample_start; sample_cancel] in
  ∃ s1, recover_interrupted 5 (ref_env "r") s = (s1, Ok 1%nat) ∧
    turns_of (journal_of s1) "thread-1" = map close_turn (turns_of (journal_of s) "thread-1") ∧
    (λ row, get_str (payload (ce_event row)) "reason") <$> last (log_rows (sv_journal s1)) =
      Some (Some "OPERATOR_CANCELLED").
Proof.
  destruct (recovery_closes_every_turn (ref_service [sample_start; sample_cancel]) 5 (ref_env "r"))
    as (s1 & rows & Hrec & Hrows & Hclosing & Hall & _).
  - apply coherent_default.
  - reflexivity.
  - exact I.
  - vm_compute. split; [exact I|]. eexists _, _. split; [reflexivity|exact I].
  - vm_compute. lia.
  - eapply bool_decide_unpack; vm_compute; exact I.
  - eapply bool_decide_unpack; vm_compute; exact I.
  - exists s1. split; [exact Hrec|]. split; [apply Hall|].
    rewrite Hrows. revert Hclosing. generalize rows. intros rs Hrs.
    assert (∃ t, turns_to_close (ref_service [sample_start; sample_cancel]) = [("thread-1", t)] ∧
                 ft_cancel_requested t = true) as (t & Ht & Hc)
      by (eexists; split; vm_compute; reflexivity).
    rewrite Ht in Hrs. inversion Hrs as [|? row ? rows' (_ & _ & _ & Hr) Hnil]; subst.
    inversion Hnil; subst. rewrite last_snoc. simpl in *. by rewrite Hr, Hc.
Defined.

Lemma events_after_pages_exactly_witness :
  let l := map ce_event [sample_start; sample_cancel; sample_interrupted] in
  ∃ page scanned rest,
    events_after 4 l "thread-1" (Some (index_text 0)) 1 = Some (Ok page) ∧
    drop 1 (log_rows l) = scanned ++ rest ∧
    op_events page = filter (on_thread "thread-1") scanned ∧ (length (op_events page) ≤ 1)%nat ∧
    op_events page ++ filter (on_thread "thread-1") rest =
      filter (on_thread "thread-1") (drop 1 (log_rows l)).
Proof.
  destruct (events_after_pages_exactly (map ce_event [sample_start; sample_cancel; sample_interrupted])
              4 1 "thread-1" [mkRow (index_text 0) (ce_event sample_start)]
              [mkRow (index_text 1) (ce_event sample_cancel);
               mkRow (index_text 2) (ce_event sample_interrupted)])
    as (page & scanned & rest & Hp & Hpost & He & _ & Hall & Hle & _).
  - exact I.
  - reflexivity.
  - simpl. lia.
  - exists page, scanned, rest.
    split; [exact Hp|]. split; [exact Hpost|]. split; [exact He|]. split; [exact Hle|exact Hall].
Defined.

Definition sample_artifact : CursorEvent :=
  sample "e4" ArtifactCreated None (json_object [("artifact_id", JString "artifact-9")]).

Lemma artifact_link_iff_row_witness :
  has_artifact_link 3 (map ce_event [sample_start; sample_artifact]) "thread-1" "artifact-9" =
    Some (Ok true).
Proof.
  destruct (artifact_link_iff_row (map ce_event [sample_start; sample_artifact]) 3
              "thread-1" "artifact-9") as (b & Hb & Hiff).
  - exact I.
  - vm_compute. lia.
  - assert (b = true) as ->; [|exact Hb].
    apply Hiff. exists (mkRow (index_text 1) (ce_event sample_artifact)).
    split; [right; left|]. repeat split.
Defined.
