(* ===== verification/ReferenceJournal.v ===== *)
(** * A reference journal

    A base64 whose alphabet is every byte, and a small journal written by the
    model's own append: two events and a tail a crash tore.  The witnesses of
    the journal theorems run on it. *)

From stdpp Require Import base gmap sets strings numbers list.
From Stdlib Require Import Ascii.
From S2P Require Import Prelude Json Hex Envelope Framing OperatorEvent Sensitive Turns TurnProtocol EventLog.
From S2P Require Import OperatorJournal JournalLog JournalContract JournalConcurrent JournalTail.
From S2P Require Import ReferenceText.
#[local] Open Scope Z_scope.

#[export] Instance ref_base64 : Base64 := {|
  b64_encode := String.string_of_list_ascii;
  b64_decode s := Some (as_bytes s);
|}.

#[export] Instance ref_base64_laws : Base64Laws.
Proof. split. intros s. simpl. f_equal. apply String.list_ascii_of_string_of_list_ascii. Qed.

Definition ref_torn : bytes := ["x"%char; "y"%char].

Definition ref_step : AppendStep := mkStep 7 NoFault.

(** One event, then a torn tail; two events, then a torn tail. *)
Definition ref_one : bytes :=
  Eval vm_compute in default [] (append_file ref_step None (ce_event sample_start)).1 ++ ref_torn.
Definition ref_two : bytes :=
  Eval vm_compute in
    default [] (append_file ref_step (Some ref_one) (ce_event sample_cancel)).1 ++ ref_torn.

Definition succeeds {E A} (r : result E A) : bool := match r with Ok _ => true | Err _ => false end.

Lemma append_is_durable_witness :
  ∃ f' row,
    append_file ref_step (Some ref_one) (ce_event sample_cancel) = (f', Ok row) ∧
    file_rows f' = file_rows (Some ref_one) ++ [row] ∧ ce_event row = ce_event sample_cancel.
Proof.
  destruct (append_file ref_step (Some ref_one) (ce_event sample_cancel)) as [f' r] eqn:Ha.
  assert (is_Some (result_ok r)) as [row Hr].
  { change r with ((f', r).2). rewrite <- Ha. vm_compute. eauto. }
  destruct r as [row'|]; [|discriminate Hr]. exists f', row'.
  destruct (append_is_durable ref_step (Some ref_one) f' (ce_event sample_cancel) (Ok row') Ha)
    as (_ & Hok & _).
  destruct (Hok row' eq_refl) as (He & Hf & _).
  - split; [vm_compute; split; discriminate|reflexivity|reflexivity|]. vm_compute. lia.
  - split; [reflexivity|]. split; [exact Hf|exact He].
Defined.

(** A result that succeeds has a value. *)
Lemma succeeds_value {E A} (r : result E A) : succeeds r = true → ∃ a, r = Ok a.
Proof. destruct r as [a|e]; [by exists a|done]. Qed.

Lemma read_after_resumes_witness :
  let rows := file_rows (Some ref_two) in
  ∃ page, read_after (quiet (Some ref_two)) (cursor_after None (take 1 rows)) 5 = Ok page ∧
    op_events page = take 5 (drop 1 rows) ∧ length (op_events page) = 1%nat.
Proof.
  intros rows.
  destruct (read_after_resumes (Some ref_two) (take 1 rows) (drop 1 rows) 5) as [Hread _].
  - unfold file_fits. vm_compute. discriminate.
  - symmetry. apply take_drop.
  - destruct (succeeds_value (read_after (quiet (Some ref_two)) (cursor_after None (take 1 rows)) 5))
      as [page Hp]; [vm_compute; reflexivity|].
    exists page. split; [exact Hp|]. destruct (Hread page Hp) as [He _].
    split; [exact He|]. rewrite He. vm_compute. reflexivity.
Defined.

(** Where the only row of [ref_one] ends. *)
Definition ref_cursor : string := Eval vm_compute in default "" (cursor_after None (file_rows (Some ref_one))).

Lemma cursor_is_a_boundary_witness :
  ∃ page c before after t,
    read_after (quiet (Some ref_two)) (Some ref_cursor) 5 = Ok page ∧
    decode_cursor ref_cursor = Ok c ∧ ref_two = unframe (before ++ after) t ∧
    oc_offset c = zlen (unframe before []) ∧
    op_events page = take 5 (rows_from (lineage (before ++ after)) (oc_offset c) after).
Proof.
  destruct (succeeds_value (read_after (quiet (Some ref_two)) (Some ref_cursor) 5))
    as [page Hp]; [vm_compute; reflexivity|].
  destruct (cursor_is_a_boundary ref_two ref_cursor 5 page Hp)
    as (c & before & after & t & Hc & Hs & _ & _ & Hoff & _ & _ & He).
  exists page, c, before, after, t.
  split; [exact Hp|]. split; [exact Hc|]. split; [exact Hs|]. split; [exact Hoff|exact He].
Defined.

(** An append that lands between two looks of the first attempt. *)
Definition ref_views (k : nat) : FileViews :=
  match k with
  | 0%nat => quiet (Some ref_one) k
  | 1%nat => mkViews (Some ref_one) (Some ref_one) (Some ref_one) (Some ref_two) (Some ref_two)
  | _ => quiet (Some ref_two) k
  end.

Lemma ref_views_grow : appended_only ref_views.
Proof.
  assert (grows (Some ref_one) (Some ref_two)) as Hg by
    (exists (drop 1 (file_lines (Some ref_two))); vm_compute; reflexivity).
  assert (∀ f, grows f f) as Hr by (intros f; unfold grows; reflexivity).
  intros [|[|k]]; cbn [ref_views quiet fv_len fv_snapshot fv_boundary fv_read fv_end].
  - repeat split; exact (Hr (Some ref_one)).
  - exact (conj (Hr _) (conj (Hr _) (conj Hg (conj (Hr _) (Hr _))))).
  - repeat split; exact (Hr (Some ref_two)).
Qed.

Lemma lock_free_read_is_consistent_witness :
  ∃ page k mid rest,
    read_after ref_views None 1 = Ok page ∧
    file_rows (fv_read (ref_views k)) = mid ++ rest ∧
    file_rows (Some ref_one) `prefix_of` mid ∧ op_events page = take 1 mid.
Proof.
  destruct (succeeds_value (read_after ref_views None 1)) as [page Hp]; [vm_compute; reflexivity|].
  destruct (lock_free_read_is_consistent ref_views [] (file_rows (Some ref_one)) 1 page)
    as (k & mid & rest & Hr & Hpre & He & _).
  - apply ref_views_grow.
  - unfold file_fits. vm_compute. discriminate.
  - assert (fv_len (ref_views 1) = Some ref_one) as -> by reflexivity.
    symmetry. apply app_nil_l.
  - exact Hp.
  - exists page, k, mid, rest. split; [exact Hp|]. split; [exact Hr|]. split; [exact Hpre|exact He].
Defined.

Lemma tail_is_honest_witness :
  ∃ tail before inside dropped,
    read_tail (quiet (Some ref_two)) 8000 1 = Ok tail ∧
    file_lines (Some ref_two) = before ++ inside ∧
    file_rows (Some ref_two) =
      rows_from (lineage (before ++ inside)) 0 before ++ dropped ++ ot_events tail ∧
    (length (ot_events tail) ≤ 1)%nat.
Proof.
  destruct (tail_is_honest ref_two 8000 1) as [_ Hall]; [lia|].
  destruct (succeeds_value (read_tail (quiet (Some ref_two)) 8000 1)) as [tail Hp];
    [vm_compute; reflexivity|].
  destruct (Hall tail Hp) as (before & inside & dropped & Hl & _ & Hr & _ & Hle & _).
  exists tail, before, inside, dropped.
  split; [exact Hp|]. split; [exact Hl|]. split; [exact Hr|exact Hle].
Defined.
