(* ===== verification/ReferenceStream.v ===== *)
(** * A reference evidence stream

    The reference text codec meets the laws on torn text; the witnesses of the
    stream and lease theorems run on it. *)

From stdpp Require Import base gmap sets strings numbers countable list.
From Stdlib Require Import Ascii.
From S2P Require Import Prelude Utf8 Json Hex Envelope Framing OperatorEvent Sensitive EventLog.
From S2P Require Import OperatorJournal JournalLog EvidenceRecords EvidenceStream WorkerLease.
From S2P Require Import Compaction WorkerState ReferenceText.
#[local] Open Scope Z_scope.

Definition digits (p : positive) : bytes := as_bytes (positive_text p).

Lemma digits_are p : Forall (λ a, a = "0"%char ∨ a = "1"%char) (digits p).
Proof.
  unfold digits, as_bytes. induction p; simpl; [constructor; [by right|done]|constructor; [by left|done]|constructor].
Qed.

Lemma ref_print_bytes v : as_bytes (ref_print v) = "="%char :: digits (encode v) ++ ["."%char].
Proof.
  unfold ref_print, digits. change (as_bytes (String ?c ?s)) with (c :: as_bytes s). by rewrite as_bytes_app.
Qed.

Lemma digits_free p c : c ≠ "0"%char → c ≠ "1"%char → c ∉ digits p.
Proof. intros Hz Hu Hin. pose proof (digits_are p) as Hall. rewrite Forall_forall in Hall. destruct (Hall _ Hin); done. Qed.

(** A marker splits a list in one way at its first occurrence. *)
Lemma first_marker {A} (c : A) (a b x y : list A) :
  c ∉ a → c ∉ x → a ++ c :: b = x ++ c :: y → a = x ∧ b = y.
Proof.
  revert x. induction a as [|k a IH]; intros [|k' x] Ha Hx; simpl; intros Heq.
  - by injection Heq.
  - injection Heq as Hk _. subst k'. destruct Hx. by left.
  - injection Heq as Hk _. subst k. destruct Ha. by left.
  - injection Heq as Hk Heq. rewrite not_elem_of_cons in Ha, Hx. destruct (IH x) as [-> ->]; [tauto..|done|by subst].
Qed.

Lemma text_code_inv s : ∀ p, text_code s = Some p → as_bytes s = digits p ++ ["."%char].
Proof.
  induction s as [|c s IH]; intros p Hs; simpl in Hs; [done|].
  change (as_bytes (String c s)) with (c :: as_bytes s).
  case_bool_decide as Hc; [case_bool_decide; [by simplify_eq|done]|].
  case_bool_decide as Hz; [|case_bool_decide as Hu; [|done]];
    apply fmap_Some in Hs as (q & Hq & ->); rewrite (IH _ Hq); by subst.
Qed.

Lemma ascii_print v : Forall (λ a, byte_val a < 128) (as_bytes (ref_print v)).
Proof.
  rewrite ref_print_bytes. constructor; [done|]. apply Forall_app. split.
  - eapply Forall_impl; [apply digits_are|]. intros a [-> | ->]; done.
  - by repeat constructor.
Qed.

(** Beginnings of printed texts are ASCII and start with an equals sign. *)
Lemma ref_piece p :
  torn_piece p → Forall (λ a, byte_val a < 128) p ∧
    ∃ p' (v : json), p = "="%char :: p' ∧ p' `prefix_of` digits (encode v) ++ ["."%char].
Proof.
  intros [Hne (k & a & r & [rest Hp])].
  change (envelope_text k a r) with (as_bytes (ref_print (record_envelope k a r))) in Hp.
  pose proof (ascii_print (record_envelope k a r)) as Hascii. rewrite Hp in Hascii.
  apply Forall_app in Hascii as [Hascii _]. split; [done|].
  rewrite ref_print_bytes in Hp. destruct p as [|c p]; [done|]. injection Hp as <- Hp.
  exists p, (record_envelope k a r). split; [done|]. by exists rest.
Qed.

Lemma ref_parse_bytes bs v :
  from_str_value (String.string_of_list_ascii bs) = Some v →
  ∃ q, bs = "="%char :: digits q ++ ["."%char].
Proof.
  unfold from_str_value. simpl. destruct bs as [|c bs]; simpl; [done|].
  case_bool_decide as Hc; [|done]. subst c. intros Hv.
  apply fmap_Some in Hv as (w & Hw & _). apply bind_Some in Hw as (q & Hq & _).
  exists q. f_equal. apply text_code_inv in Hq. unfold as_bytes in Hq.
  by rewrite String.list_ascii_of_string_of_list_ascii in Hq.
Qed.

#[export] Instance ref_torn_laws : JsonTornLaws.
Proof.
  split.
  - intros v. apply utf8_lossy_ascii, ascii_print.
  - intros k a r k' a' r' [rest Hp].
    assert (∀ k a r, envelope_text k a r = as_bytes (ref_print (record_envelope k a r))) as He by done.
    rewrite !He in *.
    rewrite !ref_print_bytes in *. injection Hp as Hp. rewrite <- app_assoc in Hp. simpl in Hp.
    symmetry in Hp. apply first_marker in Hp as [Hp _]; [by rewrite Hp|by apply digits_free..].
  - intros k a r. change (as_bytes (ref_print (record_envelope k a r)) ≠ []). by rewrite ref_print_bytes.
  - intros ps Hps [v Hv].
    rewrite utf8_lossy_ascii in Hv.
    2: { clear Hv. induction Hps as [|p ps Hp _ IH]; simpl; [constructor|]. apply Forall_app. split; [by apply ref_piece|done]. }
    apply ref_parse_bytes in Hv as [q Hq].
    destruct ps as [|p ps]; [done|]. apply Forall_cons_iff in Hps as [Hp Hps].
    pose proof Hp as Hp2. apply ref_piece in Hp2 as (_ & p' & w & -> & Hp').
    simpl in Hq. injection Hq as Hq.
    destruct ps as [|p2 ps].
    + simpl in Hq. rewrite app_nil_r in Hq. subst p'. destruct Hp as (_ & k & a & r & [rest Heq]).
      exists k, a, r. change (envelope_text k a r) with (as_bytes (ref_print (record_envelope k a r))) in *.
      rewrite ref_print_bytes in *. injection Heq as Heq.
      rewrite <- app_assoc in Heq. simpl in Heq. apply first_marker in Heq as [<- _]; [done|by apply digits_free..].
    + exfalso. apply Forall_cons_iff in Hps as [Hp2 _]. apply ref_piece in Hp2 as (_ & p2' & _ & -> & _).
      assert ("="%char ∈ digits q ++ ["."%char]) as Hin by (rewrite <- Hq; set_solver).
      apply elem_of_app in Hin as [Hin|Hin]; [|set_solver]. by apply digits_free in Hin.
Qed.

(** ** Witnesses *)

#[export] Instance ref_rfc3339 : Rfc3339 := {|
  parse_rfc3339 s := if is_blank s then None else Some (str_len s);
|}.

#[export] Instance ref_hash_order : HashOrder := {|
  hash_values A m := (map_to_list m).*2;
  hash_values_perm A m := reflexivity _;
|}.

Definition ref_lease (id issued expires : string) : PersistedWorkerLease :=
  mkLease id "task" "session" "node" "gpu" "issued" issued issued expires None None None None.

(** A directory whose lease stream is [file]. *)
Definition ref_dir (file : bytes) : EvidenceDir :=
  mkDir {["worker_leases" := file]} (λ _, mkStep 7 NoFault) 0.

(** What a crash left of an envelope. *)
Definition ref_torn_lease : bytes :=
  take 5 (envelope_text worker_leases 7 (lease_value (ref_lease "lease-0" "1" "22"))).

Lemma append_is_exact_witness :
  let row := lease_value (ref_lease "lease-1" "1" "22") in
  let d := ref_dir ref_torn_lease in
  ∃ d', append_record worker_leases row d = (d', Ok tt) ∧
    rs_events (read_stream d' worker_leases) = [] ∧
    (rs_skipped_lines (read_stream d' worker_leases) > 0)%nat.
Proof.
  intros row d. destruct (append_record worker_leases row d) as [d' r] eqn:Ha.
  assert (r = Ok tt) as Hr by (change r with ((d', r).2); rewrite <- Ha; vm_compute; reflexivity).
  subst r. exists d'. split; [reflexivity|].
  assert (stream_written (stream_file d worker_leases)) as Hw.
  { exists [], ref_torn_lease. split; [reflexivity|]. split; [constructor|].
    exists [ref_torn_lease]. split; [reflexivity|]. constructor; [|constructor].
    apply take_torn. vm_compute. discriminate. }
  pose proof (append_is_exact worker_leases row d d' (Ok tt) Hw Ha) as Hexact.
  assert (frames (stream_file d worker_leases) = ([], ref_torn_lease)) as Hf by (vm_compute; reflexivity).
  rewrite Hf in Hexact. destruct Hexact as (_ & _ & _ & Hlost).
  destruct Hlost as [He Hs]; [vm_compute; discriminate|reflexivity|].
  split; [exact He|exact Hs].
Defined.

(** A lease granted, renewed by its holder, and taken over after its expiry. *)
Lemma lease_exclusion_witness :
  let l0 := ref_lease "lease-1" "1" "333" in
  let l1 := ref_lease "lease-2" "4444" "55555" in
  let ops := [Upsert (ref_lease "lease-9" "1" "22"); Acquire (ref_lease "lease-3" "22" "333")] in
  ∃ d1 d2,
    try_acquire_worker_lease l0 (ref_dir []) = (d1, Ok None) ∧
    try_acquire_worker_lease l1 (run_ops ops d1) = (d2, Ok None) ∧
    ∃ op, op ∈ ops ++ [Acquire l1] ∧ releases l0 op.
Proof.
  intros l0 l1 ops.
  destruct (try_acquire_worker_lease l0 (ref_dir [])) as [d1 r1] eqn:Ha.
  assert (r1 = Ok None) as Hr1 by (change r1 with ((d1, r1).2); rewrite <- Ha; vm_compute; reflexivity).
  subst r1.
  destruct (try_acquire_worker_lease l1 (run_ops ops d1)) as [d2 r2] eqn:Hb.
  assert (d1 = (try_acquire_worker_lease l0 (ref_dir [])).1) as Hd by (rewrite Ha; reflexivity).
  assert (r2 = Ok None) as Hr2
    by (change r2 with ((d2, r2).2); rewrite <- Hb, Hd; vm_compute; reflexivity).
  subst r2. exists d1, d2. split; [reflexivity|]. split; [exact Hb|].
  apply (lease_exclusion l0 l1 ops (ref_dir []) d1 d2).
  - exists [], []. split; [reflexivity|]. split; [constructor|apply chunk_written_nil].
  - exact Ha.
  - exact Hb.
  - reflexivity.
Defined.

(** A lease stream with two rows of one lease and one of another. *)
Definition ref_lease_lines : list bytes :=
  [envelope_text worker_leases 7 (lease_value (ref_lease "lease-1" "1" "22"));
   envelope_text worker_leases 8 (lease_value (ref_lease "lease-2" "1" "22"));
   envelope_text worker_leases 9 (lease_value (ref_lease "lease-1" "1" "333"))].

Lemma compaction_preserves_replay_witness :
  let d := ref_dir (unframe ref_lease_lines []) in
  ∃ d' report,
    compact_stream worker_leases "lease_id" d = (d', Ok report) ∧
    lww (omap lease_entry (rs_events (read_stream d' worker_leases))) =
      lww (omap lease_entry (rs_events (read_stream d worker_leases))) ∧
    (records_after report ≤ records_before report)%nat ∧ records_before report = 3%nat.
Proof.
  intros d. destruct (compact_stream worker_leases "lease_id" d) as [d' r] eqn:Hc.
  assert (r = Ok (mkCompaction 3 2 0)) as Hr by (change r with ((d', r).2); rewrite <- Hc; vm_compute; reflexivity).
  exists d', (mkCompaction 3 2 0). subst r.
  destruct (compaction_preserves_replay lease_entry worker_leases "lease_id" d d' (Ok (mkCompaction 3 2 0)))
    as (Hview & _ & Hrep & _).
  - apply (bool_decide_unpack _). vm_compute. exact I.
  - exact Hc.
  - destruct (Hrep _ eq_refl) as [Hle _]. split; [reflexivity|]. split; [exact Hview|]. split; [exact Hle|reflexivity].
Defined.

(** A row compaction keys and replay cannot decode supersedes the last row replay
    could. *)
Definition ref_alien_line : bytes :=
  envelope_text worker_leases 9 (json_object [("lease_id", JString "lease-1")]).

Example compaction_loses_a_lease :
  let raw := unframe (ref_lease_lines ++ [ref_alien_line]) [] in
  let view file := lww (omap lease_entry (rs_events (read_stream_unlocked (Some file)))) in
  is_Some (view raw !! "lease-1") ∧ view (compact_file "lease_id" raw).1 !! "lease-1" = None.
Proof. vm_compute. split; [eauto|reflexivity]. Qed.

Definition ref_session (id status : string) : PersistedWorkerSession :=
  mkSession id "node" "instance" "runtime" "1" "1" "p" "[]" "{}" 4 1 status 0 "t0" "t0" "t9" "t1" None None None.

Definition ref_session_row (at_ms : Z) (id status : string) : bytes :=
  envelope_text worker_sessions at_ms (session_value (ref_session id status)).

(** One session in flight, one over, one live lease. *)
Definition ref_workers (tail : bytes) : EvidenceDir :=
  mkDir {["worker_sessions" := unframe [ref_session_row 1 "s1" "active"; ref_session_row 2 "s2" "expired"] [];
          "worker_leases" := unframe [envelope_text worker_leases 7 (lease_value (ref_lease "lease-1" "1" "22"))] tail]}
    (λ _, mkStep 7 NoFault) 0.

Lemma envelope_written kind at_ms record : chunk_written (envelope_text kind at_ms record).
Proof. apply (chunk_written_app [] _ chunk_written_nil (envelope_torn kind at_ms record)). Qed.

Lemma recovery_settles_witness :
  let d := ref_workers [] in
  ∃ d', recover_workers "now" d = (d', Ok (mkRecovery 1 1)) ∧
    wv_sessions (replay_view d') = settle_session "now" <$> wv_sessions (replay_view d) ∧
    wv_leases (replay_view d') = settle_lease "now" <$> wv_leases (replay_view d) ∧
    recover_workers "later" d' = (d', Ok (mkRecovery 0 0)).
Proof.
  intros d. destruct (recover_workers "now" d) as [d' r] eqn:Hrec.
  assert (r = Ok (mkRecovery 1 1)) as Hr by (change r with ((d', r).2); rewrite <- Hrec; vm_compute; reflexivity).
  subst r. exists d'. split; [reflexivity|].
  destruct (recovery_settles "now" d d' (mkRecovery 1 1)) as (Hs & Hl & _ & _ & _ & _ & Hagain).
  - eexists. split; [reflexivity|]. repeat (constructor; [apply envelope_written|]). constructor.
  - eexists. split; [reflexivity|]. repeat (constructor; [apply envelope_written|]). constructor.
  - exists []. split; [reflexivity|constructor].
  - assert (in_flight (hash_values (wv_sessions (replay_view d))) = [ref_session "s1" "active"]) as Hf
      by (vm_compute; reflexivity).
    rewrite Hf. constructor; [|constructor]. split.
    + split; [vm_compute; split; discriminate|vm_compute; split; [discriminate|reflexivity]|reflexivity].
    + intros at_ms _. split; [apply ref_parse_print|reflexivity].
  - exact Hrec.
  - split; [exact Hs|]. split; [exact Hl|apply Hagain].
Defined.

(** After a crash that tore the lease stream, the revoking row is joined to the
    torn line and lost: the lease stays live, and a second recovery finds it
    again. *)
Example torn_recovery_is_not_idempotent :
  let '(d1, r1) := recover_workers "now" (ref_workers ref_torn_lease) in
  let '(d2, r2) := recover_workers "later" d1 in
  r1 = Ok (mkRecovery 1 1) ∧ r2 = Ok (mkRecovery 0 1) ∧
  (lease_live <$> wv_leases (replay_view d1) !! "lease-1") = Some true.
Proof. vm_compute. split_and!; reflexivity. Qed.
