(* ===== verification/ReferenceAdapters.v ===== *)
(** * A loop at work, stored accounts and provider replies

    One account, one model, one loop: the calls of LoopExecutor.v against the
    reference log, from the objective to the message and its receipt.  Then
    account registries on concrete files, the replies of providers, and
    connections over concrete stores. *)

From stdpp Require Import base gmap sets strings numbers sorting list.
From Stdlib Require Import Ascii SpecFloat.
From S2P Require Import Prelude Utf8 Json Hex Envelope ReferenceText OperatorEvent RoutePolicy Turns.
From S2P Require Import TurnProtocol EventLog Session SessionSync SessionTurns Drex ModelCall Routing.
From S2P Require Import CallCosts Sse ModelExecution ExecutionProtocol Provider ProviderStreams ProviderHttp.
From S2P Require Import AnthropicApi OpenAiApi GeminiApi CliAdapters Discovery AccountCodec RegistryStore.
From S2P Require Import Admission LaneSelection Connections AdapterCalls LoopController LoopExecutor.
From S2P Require Import ReferenceLog.
#[local] Open Scope Z_scope.

(** ** The account and its tier *)

Definition cent : Z := bits_of_spec (lit 1).

Definition call_model : DetectedModel :=
  mkModel "gpt" "gpt-vendor" "openai" "openai-1" "openai_api" 4 200000 true true false false cent cent Known Verified.
Definition call_account : ProviderAccount :=
  mkAccount "openai-1" "openai" ApiKey "openai_api" Connected [call_model].

Definition call_tier : ModelTier :=
  mkTier (registry_model_candidate_id call_model) "gpt" "gpt-vendor" "codex" "openai_api" 4 "" 0
    (f64_mul cent four) 200000 0 "" "" "[]" true (1022 * 2 ^ 52) 0 10 "".

Definition call_machine : Machine := mkMachine (Some [call_account]) (λ _, true).

(** A model of another price stands for no lane. *)
Definition dear_tier : ModelTier :=
  mkTier (registry_model_candidate_id call_model) "gpt" "gpt-vendor" "codex" "openai_api" 4 "" 0
    cent 200000 0 "" "" "[]" true (1022 * 2 ^ 52) 0 10 "".

Example lanes_of_the_account :
  (∃ witnesses, registry_selection_with_ids [loop_candidate call_tier] [call_account] (λ _, true) (λ _, true)
     registry_model_candidate_id = Ok ([loop_candidate call_tier], witnesses) ∧
     witnesses !! registry_model_candidate_id call_model = Some (mkLane call_account call_model)) ∧
  registry_selection_with_ids [loop_candidate dear_tier] [call_account] (λ _, true) (λ _, true)
    registry_model_candidate_id = Err NO_EXACT_LANE ∧
  registry_selection_with_ids [loop_candidate call_tier; loop_candidate call_tier] [call_account] (λ _, true)
    (λ _, true) registry_model_candidate_id = Err NO_EXACT_LANE.
Proof. split; [eexists; split; vm_compute; reflexivity|]. split; vm_compute; reflexivity. Qed.

(** ** The loop *)

Definition call_world (answer : list Poll) : nat → CallWorld := λ n,
  let name := "call" +:+ index_text n in
  mkCallWorld (ref_env (name +:+ "-submit-")) (λ i, ref_env (name +:+ "-turn" +:+ index_text i +:+ "-"))
    (registered call_machine (λ _, call_machine)
       (λ a, mkWorld (λ i, ref_env (name +:+ "-try" +:+ index_text a +:+ "-" +:+ index_text i +:+ "-"))
               (λ _, Err EmptyString) false answer 7))
    false.

Definition one_answer : list Poll :=
  [mkPoll (Some (Some (Token "done"))) None; mkPoll (Some (Some (Done (mkUsage 10 2 0 0 0)))) None].

Definition call_config (turns cost : Z) : LoopConfig :=
  mkLoopConfig "user" "tidy up" turns cost "code" "low" "standard" "macbook" true.

Definition loop_world (n : nat) : TurnWorld :=
  mkTurnWorld false CallFirst ("id" +:+ index_text n) ("run" +:+ index_text n) ("it" +:+ index_text n) "t0" "t1".

Definition fresh_caller : CallerState (list OperatorEvent) := mkCaller (ref_service []) [] 0.

Definition loop_run (evidence : bool) (turns cost : Z) (answer : list Poll) :=
  let caller := executor_loop_caller 100 (λ _, "failed") (call_world answer) in
  run (H := caller) (call_config turns cost) "l" [call_tier] evidence loop_world fresh_caller.

(** Two turns of a cent a thousand tokens: two messages, then completion. *)
Example loop_completes :
  let '(s', es, r) := loop_run true 2 (bits_of_spec (lit 100)) one_answer in
  messages_sent s' = [loop_candidate call_tier; loop_candidate call_tier] ∧ r = Some (Ok tt) ∧
  session_rows es = [Some "STARTED"; Some "COMPLETED"] ∧
  map (λ e, event_type (ce_event e)) (log_rows (sv_journal (cs_service s'))) =
    [ThreadCreated; TurnStarted; UserMessage; AssistantStarted; RoutePlanned; RouteAttempted; RouteCompleted;
     AssistantCompleted; TurnCompleted;
     TurnStarted; UserMessage; AssistantStarted; RoutePlanned; RouteAttempted; RouteCompleted;
     AssistantCompleted; TurnCompleted].
Proof. vm_compute. done. Qed.

(** Without an evidence transport the same run tells its listener only. *)
Example loop_without_evidence :
  let '(_, es, r) := loop_run false 2 (bits_of_spec (lit 100)) one_answer in
  r = Some (Ok tt) ∧ session_rows es = [] ∧ map ls_status (final_reports es) = ["COMPLETED"] ∧ length (calls es) = 2%nat.
Proof. vm_compute. done. Qed.

(** Money for one call only. *)
Example loop_stops_at_its_budget :
  let '(s', es, r) := loop_run true 5 (f64_mul cent four) one_answer in
  length (messages_sent s') = 1%nat ∧ r = Some (Ok tt) ∧ session_rows es = [Some "STARTED"; Some "COMPLETED"].
Proof. vm_compute. done. Qed.

(** A provider that fails once is not asked again: its only model is excluded,
    and the loop fails with nothing to close its journal. *)
Example loop_fails_open :
  let '(s', es, r) :=
    loop_run true 5 (bits_of_spec (lit 100)) [mkPoll (Some (Some (StreamError "boom"))) None] in
  length (messages_sent s') = 1%nat ∧ session_rows es = [Some "STARTED"] ∧
  match r with Some (Err (CallFailed (ExecutionFailed (NoRoute _)))) => True | _ => False end.
Proof. vm_compute. done. Qed.

(** ** The same call again *)

Definition one_call : LoopCallRequest :=
  call_request (call_config 2 (bits_of_spec (lit 100))) "l" [call_tier] (loop_world 0) Standard Low initial_state.

Definition call_submitted : Service (list OperatorEvent) :=
  (start_turn 100 (cw_env (call_world one_answer 0)) (lq_thread_id one_call) (submission one_call) (ref_service [])).1.

Definition call_turn : TurnSubmission :=
  mkSubmission (lq_thread_id one_call) (deterministic_turn_id (lq_thread_id one_call) (lq_turn_id one_call)) None
    (index_text 2) false.

(** The caller after the call was executed. *)
Definition called_once : CallerState (list OperatorEvent) :=
  (executor_call 100 (λ _, "failed") (call_world one_answer) one_call fresh_caller).1.

Definition executed_rows : list CursorEvent := drop 3 (log_rows (sv_journal (cs_service called_once))).

Lemma call_is_executed_once_witness :
  length (messages_sent called_once) = 1%nat ∧
  ∃ st3, executor_call 100 (λ _, "failed") (call_world one_answer) one_call called_once =
           (st3, Some (Err (DuplicateAdmission (sub_turn_id call_turn)))) ∧
    messages_sent st3 = messages_sent called_once.
Proof.
  split; [vm_compute; reflexivity|].
  assert (policy_representable (st_route_policy (submission one_call))) as Hpol.
  { split; [simpl; lia|intros b [E|E]; [discriminate|]].
    change (lq_remaining_budget_usd one_call = Some b) in E.
    assert (lq_remaining_budget_usd one_call = Some (1023 * 2 ^ 52)) as Hb by (vm_compute; reflexivity).
    rewrite Hb in E. clear Hb. injection E as <-. reflexivity. }
  destruct (call_is_executed_once 100 (λ _, "failed") (call_world one_answer) one_call one_call fresh_caller called_once
              call_submitted call_turn executed_rows) as (st3 & e & Hc & Hm & _ & Hag & _).
  - apply coherent_default.
  - vm_compute. reflexivity.
  - reflexivity.
  - split_and!; [eapply bool_decide_unpack; vm_compute; exact I..|reflexivity].
  - exact Hpol.
  - intros b. apply Forall_true. intros e. exact I.
  - apply call_kept, coherent_default.
  - vm_compute. reflexivity.
  - eapply bool_decide_unpack; vm_compute; exact I.
  - exact I.
  - vm_compute. lia.
  - reflexivity.
  - vm_compute. reflexivity.
  - reflexivity.
  - reflexivity.
  - exists st3. split; [|exact Hm]. rewrite Hc, Hag; [reflexivity|]. by apply agrees_refl.
Defined.

(** ** Cancelled before anything was sent *)

Definition switched_off : AttemptWorld :=
  mkWorld (λ i, ref_env ("off" +:+ index_text i +:+ "-")) (λ _, Ok execution_channel_unknown) true [] 0.

(** The record says the provider was invoked; nothing was sent to it. *)
Example unsent_cancellation_says_invoked :
  let x := call_execution one_call (sub_turn_id call_turn) false in
  let '(_, es, r) := execute 100 (λ _, switched_off) x (Ok [loop_candidate call_tier]) call_submitted in
  sends es = [] ∧ r = inl (Some (Err CallCancelled)) ∧
  last (omap (λ eff, match eff with Recorded e _ => Some (event_type e, obj_get "provider_invoked"
          match payload e with JObject m => m | _ => [] end) | ModelExecution.Sent _ _ => None end) es) =
    Some (RouteFailed, Some (JBool true)).
Proof. vm_compute. done. Qed.

(** ** Account registries on concrete files

    Two windows over one file, and the witnesses of RegistryStore.v. *)

Definition bare_account (id : string) (status : AccountStatus) : ProviderAccount :=
  mkAccount id "openai" ApiKey "openai_api" status [].

(** A window loads an empty profile, another adds an account first. *)
Definition window_one : Registry := from_accounts [bare_account "first" NeedsAuth].
Definition window_two : Registry := from_accounts [bare_account "second" NeedsAuth].


(** A damaged file is refused and kept. *)
Example damage_is_kept :
  save_to NoFault (Contents "{") window_one = (Contents "{", window_one, Err DamagedRegistry) ∧
  save_to NoFault NotAFile window_one = (NotAFile, window_one, Err NotRegularFile).
Proof. vm_compute. split; reflexivity. Qed.

(** What the first window left on disk. *)
Definition after_one : RegistryPath * Registry :=
  Eval vm_compute in (save_to NoFault Missing window_one).1.

Lemma concurrent_saves_lose_nothing_witness :
  save_to NoFault Missing window_one = (after_one.1, after_one.2, Ok tt) ∧
  match save_to NoFault after_one.1 window_two with
  | (_, second2, Ok tt) =>
      get (rg_accounts second2) "first" = Some (bare_account "first" NeedsAuth) ∧
      get (rg_accounts second2) "second" = Some (bare_account "second" NeedsAuth)
  | _ => False
  end.
Proof.
  assert (save_to NoFault Missing window_one = (after_one.1, after_one.2, Ok tt)) as E by (vm_compute; reflexivity).
  split; [exact E|].
  assert (∀ id, distinct_ids [bare_account id NeedsAuth] ↔ id ≠ "") as Hd.
  { intros id. split; [by intros [Hid _]; inversion_clear Hid|]. intros Hid. split; [by repeat constructor|].
    apply NoDup_singleton. }
  assert (∀ id, Forall storable [bare_account id NeedsAuth]) as Hs by (intros id; repeat constructor).
  pose proof (concurrent_saves_lose_nothing Missing after_one.1 default_registry window_one after_one.2 window_two
    eq_refl eq_refl eq_refl (proj2 (Hd "first") ltac:(done)) (proj2 (Hd "second") ltac:(done)) (List.Forall_nil _)
    (Hs "first") (Hs "second") E ltac:(vm_compute; reflexivity)) as Hsave.
  revert Hsave. cbv zeta. destruct (save_to NoFault after_one.1 window_two) as [[p r2] [u|e]] eqn:E2.
  - destruct u. intros Hsave. rewrite !Hsave. vm_compute. done.
  - vm_compute in E2. discriminate E2.
Defined.

(** A probe that comes back after its account was removed is refused. *)
Example a_late_probe_is_refused :
  let seat := bare_account "first" NeedsAuth in
  let removed := mkRegistry [] (rg_baseline after_one.2) in
  let probe := mkRegistry [bare_account "first" Connected] (rg_baseline after_one.2) in
  let '(path, _, r) := save_to NoFault after_one.1 removed in
  r = Ok tt ∧ save_to NoFault path probe = (path, probe, Err (ChangedElsewhere "first")).
Proof. vm_compute. done. Qed.

(** A damaged file is never replaced. *)
Example damaged_files_are_kept :
  Forall (λ raw, save_to NoFault (Contents raw) window_one =
                 (Contents raw, window_one, Err DamagedRegistry))
    ["{broken"; print_json (JObject [("accounts", JArray []); ("future_schema", JNumber (PosInt 2))])].
Proof. repeat constructor. Qed.

(** ** Provider calls and connections at concrete inputs

    One streamed answer in the vocabulary of each direct adapter, cut in several
    ways, and the witnesses of the adapters' theorems. *)

(** ** Anthropic *)

Definition frame (kind : string) (fields : list (string * json)) : SseEvent :=
  mkSse (Some kind) (print_json (json_object fields)).
Definition at_index (i : Z) : string * json := ("index", JNumber (PosInt i)).

Definition tool_start (i : Z) (name : string) : SseEvent :=
  frame "content_block_start" [at_index i; ("content_block", json_object [("type", JString "tool_use"); ("name", JString name)])].
Definition tool_fragment (i : Z) (text : string) : SseEvent :=
  frame "content_block_delta" [at_index i; ("delta", json_object [("type", JString "input_json_delta"); ("partial_json", JString text)])].
Definition block_closed (i : Z) : SseEvent := frame "content_block_stop" [at_index i].

(** Two blocks interleaved, and a frame that is no JSON. *)
Definition between : list SseEvent :=
  [tool_start 1 "write"; tool_fragment 0 "{a"; tool_fragment 1 "{b"; mkSse None "?"; tool_fragment 0 "}"; block_closed 1].

Lemma tool_call_is_its_block_witness :
  opens 0 (tool_start 0 "read") = Some "read" ∧
  (anthropic_consume (after anthropic_default (tool_start 0 "read" :: between)) (block_closed 0)).1 = [ToolUse "read" "{a}"].
Proof.
  assert (opens 0 (tool_start 0 "read") = Some "read") as Ho by (vm_compute; reflexivity). split; [exact Ho|].
  assert (Forall (λ e, opens 0 e = None ∧ closes 0 e = false) between) as Hm.
  { apply Forall_forall. intros e He. unfold between in He.
    repeat (apply elem_of_cons in He as [->|He]; [vm_compute; by split|]). by apply elem_of_nil in He. }
  rewrite (tool_call_is_its_block anthropic_default 0 "read" (tool_start 0 "read") (block_closed 0) between Ho Hm ltac:(vm_compute; reflexivity)).
  vm_compute. reflexivity.
Defined.

(** ** Chat Completions *)

Definition spoken (text : string) : json :=
  json_object [("choices", JArray [json_object [("delta", json_object [("content", JString text)])]])].
Definition data_line (text : string) : bytes := as_bytes "data: " ++ as_bytes text ++ [LF; LF].
Definition whole_answer : bytes := data_line (print_json (spoken "hi")) ++ data_line "[DONE]".
Definition in_three (s : bytes) : list bytes := [take 9 s; take 20 (drop 9 s); drop 29 s].

Definition said_hi : list StreamEvent := [Token "hi"; Done (mkUsage 0 0 0 0 0)].

Lemma reply_is_the_body_witness :
  Forall (λ b, utf8_lossy b = b) (in_three whole_answer) ∧
  (pump "OpenAI" openai_default None true (map Chunk (in_three whole_answer))).1 = said_hi ∧
  pump "OpenAI" openai_default None true (map Chunk (in_three whole_answer)) =
    (reply openai_default (dispatched reader_start (concat (in_three whole_answer))), Some (Ok tt)).
Proof.
  assert (Forall (λ b, utf8_lossy b = b) (in_three whole_answer)) as Hu.
  { repeat (apply Forall_cons; split; [vm_compute; reflexivity|]). apply Forall_nil_2. }
  split; [exact Hu|]. split; [vm_compute; reflexivity|].
  apply (reply_is_the_body "OpenAI" openai_default (in_three whole_answer)); [reflexivity|exact Hu|vm_compute; reflexivity].
Defined.

(** A character cut by the end of a chunk is lost. *)
Definition e_acute : string := String.string_of_list_ascii (map byte_of [195; 169]).
Definition accented : bytes := data_line (print_json (spoken e_acute)) ++ data_line "[DONE]".

Fixpoint index_of (n : nat) (a : ascii) (s : bytes) : nat :=
  match s with [] => n | b :: s => if bool_decide (a = b) then n else index_of (S n) a s end.

Example a_cut_character_is_replaced :
  (pump "OpenAI" openai_default None true [Chunk accented]).1 = [Token e_acute; Done (mkUsage 0 0 0 0 0)] ∧
  (pump "OpenAI" openai_default None true
     [Chunk (as_bytes "data: " ++ map byte_of [195]); Chunk (map byte_of [169; 10; 10])]).1 =
  (pump "OpenAI" openai_default None true
     [Chunk (as_bytes "data: " ++ replacement_character ++ replacement_character ++ [LF; LF])]).1.
Proof. split; vm_compute; reflexivity. Qed.

(** ** An admitted account *)

Definition ok_response (stream : list Feed) (ended : bool) : HttpResponse :=
  mkResponse 200 "200 OK" (Some (Ok EmptyString)) (Err "no json") stream ended.

(** An outside whose network answers calls so. *)
Definition outside (answer : option (result string HttpResponse)) : Outside :=
  mkOutside (λ _, None) (λ _, Ok (Some "sk-1")) (λ _, answer) (λ _ _, Some (Err "no route")) (λ _, Err "no route")
    (λ s, s) (λ _, Err "no such program") (λ _, Err "no such program").

Definition answering : Outside := outside (Some (Ok (ok_response [Chunk whole_answer] true))).

Definition hi_polls : list Poll := map (λ e, mkPoll (Some (Some e)) None) said_hi.

Lemma every_call_is_answered_witness :
  transport_for call_account = Some Provider.OpenAiApi ∧
  ∃ called, adapter_send answering call_machine (mkLane call_account call_model) Provider.OpenAiApi "gpt" [] None = Return called ∧
    run_adapter false hi_polls = ([Token "hi"], Some (Ok ("hi", mkUsage 0 0 0 0 0, true))).
Proof.
  split; [vm_compute; reflexivity|].
  destruct (every_call_is_answered answering call_machine (mkLane call_account call_model) Provider.OpenAiApi "gpt" [] ltac:(vm_compute; reflexivity))
    as (called & Hc & _ & Hrun). exists called. split; [exact Hc|].
  assert (task_events (ca_reply called) = said_hi) as Hsaid by (vm_compute in Hc; injection Hc as <-; vm_compute; reflexivity).
  assert ((ca_reply called).2 ≠ None) as Hret by (vm_compute in Hc; injection Hc as <-; discriminate).
  destruct (Hrun Hret hi_polls) as (deltas & last & rest & Ht & Hd & Hl & Hr).
  - by rewrite Hsaid.
  - apply Forall_cons; split; [done|]. apply Forall_cons; split; [done|]. apply Forall_nil_2.
  - rewrite Hr. rewrite Hsaid in Ht. destruct deltas as [|d deltas].
    { injection Ht as <- <-. discriminate Hl. }
    injection Ht as <- Ht. apply Forall_cons in Hd as [_ Hd]. destruct deltas as [|d deltas].
    + injection Ht as <- <-. reflexivity.
    + injection Ht as <- Ht. apply Forall_cons in Hd as [Hd _]. discriminate Hd.
Defined.

(** What the outside does not do, the call waits for: an endpoint that accepts
    the connection and sends no answer, a refusal whose text does not end, a
    stream that stays open, and a program blocked on the standard error nobody
    reads. *)
Example a_silent_outside_is_awaited :
  let asked answer := adapter_send (outside answer) call_machine (mkLane call_account call_model) Provider.OpenAiApi "gpt" [] None in
  let replied answer := match asked answer with Return called => Some (ca_reply called) | Panic => None end in
  let refusal := mkResponse 500 "500 Internal Server Error" None (Err "no json") [] false in
  replied None = Some ([], None) ∧ replied (Some (Ok refusal)) = Some ([], None) ∧
  replied (Some (Ok (ok_response [Chunk (data_line (print_json (spoken "hi")))] false))) = Some ([Token "hi"], None) ∧
  cli_send claude_texts claude_result None (Ok (mkProcess [] false None)) = ([], None) ∧
  codex_send None (Ok (mkProcess [] true None)) = ([], None).
Proof. vm_compute. split_and!; reflexivity. Qed.

(** The one request of the call. *)
Definition hi_request : HttpRequest :=
  mkRequest "POST" "https://api.openai.com/v1/chat/completions" [bearer "sk-1"]
    (Some (OpenAiApi.build_request_body "gpt-vendor" [])).

Lemma key_goes_to_one_place_witness :
  match adapter_send answering call_machine (mkLane call_account call_model) Provider.OpenAiApi "gpt" [] None with
  | Return called => hi_request ∈ ca_requests called ∧
      ∃ key, ou_secret answering "openai-1" = Ok (Some key) ∧
        goes_to "https://api.openai.com" key (Some ("gpt-vendor", [])) hi_request
  | Panic => False
  end.
Proof.
  destruct (adapter_send answering call_machine (mkLane call_account call_model) Provider.OpenAiApi "gpt" [] None) as [called|] eqn:E;
    [|vm_compute in E; discriminate E].
  assert (ca_requests called = [hi_request]) as Hreq by (vm_compute in E; injection E as <-; vm_compute; reflexivity).
  assert (hi_request ∈ ca_requests called) as Hq by (rewrite Hreq; by left). split; [exact Hq|].
  destruct (key_goes_to_one_place (λ s, s) answering call_machine (mkLane call_account call_model) Provider.OpenAiApi "gpt" [] None
    called hi_request ltac:(vm_compute; reflexivity) E Hq) as (key & Hk & Hg & _).
  exists key. split; [exact Hk|exact Hg].
Defined.

(** A gateway of one's own, with a slash at its end. *)
Example a_gateway_is_asked :
  let env := λ name, if bool_decide (name = "OPENAI_BASE_URL") then Some " https://gateway.example/ " else None in
  endpoint_of env "codex" = "https://gateway.example" ∧
  rq_url (completions_request (openai_from_lane (mkLane call_account call_model) (base_of env (mkLane call_account call_model) OpenAiApi.DEFAULT_BASE_URL))
            "gpt" [] "k") = "https://gateway.example/v1/chat/completions" ∧
  rq_url (OpenAiApi.models_request (api_base_url env "openai" OpenAiApi.DEFAULT_BASE_URL) "k") = "https://gateway.example/v1/models".
Proof. split; [|split]; vm_compute; reflexivity. Qed.

(** A program that ends at once, with an error, has completed with no text. *)
Example a_failed_program_is_done :
  let failed := mkProcess [] true (Some (Ok (mkExit false "exit status: 1"))) in
  cli_send claude_texts claude_result None (Ok failed) = ([Done no_usage], Some (Ok tt)) ∧
  codex_send None (Ok failed) =
    ([StreamError "Codex execution failed: Codex CLI exited with exit status: 1"],
     Some (Err "Codex execution failed: Codex CLI exited with exit status: 1")).
Proof. split; vm_compute; reflexivity. Qed.

(** ** Connections on concrete stores

    A key connected and disconnected, and the witness of Connections.v. *)

(** One account in the file, its secret and another's in the keychain. *)
Definition two_secrets : gmap string string := <["first" := "sk-1"]> (<["other" := "sk-2"]> ∅).
Definition connected_stores (fault : SaveFault) (faults : KeychainFaults) : Stores :=
  mkStores after_one.1 after_one.1 fault two_secrets faults.

Definition loaded_first : Registry := Eval vm_compute in
  match load_from after_one.1 with Ok r => r | Err _ => default_registry end.

Lemma disconnecting_removes_the_route_first_witness :
  let s := connected_stores NoFault keychain_works in
  load_from (st_loaded s) = Ok loaded_first ∧
  let '(path', kc', r) := disconnect_api_connection s "first" in
  r = Ok tt ∧ kc' !! "first" = None ∧ kc' !! "other" = Some "sk-2" ∧
  ∃ after, (text_keeps (rg_accounts after) → load_from path' = Ok after) ∧ get (rg_accounts after) "first" = None.
Proof.
  intros s. assert (load_from (st_loaded s) = Ok loaded_first) as Hl by (vm_compute; reflexivity). split; [exact Hl|].
  assert (Forall storable (rg_accounts loaded_first)) as Hs by (repeat constructor).
  pose proof (disconnecting_removes_the_route_first s "first" loaded_first loaded_first Hl Hl Hs Hs) as Hd.
  destruct (disconnect_api_connection s "first") as [[path' kc'] r] eqn:E.
  assert (r = Ok tt) as -> by (vm_compute in E; injection E; by intros <-).
  destruct Hd as (Ho & Hr & _). destruct (Hr (or_intror eq_refl)) as (Hk & after & Ha & Hg).
  split; [reflexivity|]. split; [exact Hk|]. split; [rewrite (Ho "other") by done; reflexivity|].
  exists after. split; [exact Ha|]. rewrite Hg. reflexivity.
Defined.

(** The secret outlives its account when the keychain refuses; the account is
    routed to no more. *)
Example a_secret_that_stays :
  let '(path', kc', r) := disconnect_api_connection (connected_stores NoFault (mkKeychainFaults false false true)) "first" in
  r = Err (KeychainFailed "failed to delete secret for first") ∧ kc' = two_secrets ∧
  match load_from path' with Ok after => rg_accounts after = [] | Err _ => False end.
Proof. vm_compute. split; [reflexivity|]. split; reflexivity. Qed.

(** A save whose directory could not be synchronized has written the account,
    and its secret is deleted: the file routes to an account with no key. *)
Example a_routed_account_without_its_key :
  let '(path', kc', _, r) := add_api_key_account (mkStores Missing Missing AfterReplace ∅ keychain_works)
    default_registry "u" "openai" "sk" "openai_api" in
  r = Err (RegistryFailed StorageError) ∧ kc' = ∅ ∧
  match load_from path' with
  | Ok after => rg_accounts after = [new_api_account "openai-api-u" "openai" "openai_api"]
  | Err _ => False
  end.
Proof. vm_compute. split; [reflexivity|]. split; reflexivity. Qed.

(** The two ways of adding a Google key put it in different rate groups. *)
Example google_has_two_groups :
  rate_group "google" = Ok "google_api" ∧ ("google", "google") ∈ ENV_KEY_PROVIDERS.
Proof. split; [reflexivity|]. right. right. by left. Qed.

Example a_key_with_a_newline_is_refused :
  (∃ e, checked_key (String.string_of_list_ascii (as_bytes "key" ++ [newline] ++ as_bytes "injected")) = Err e) ∧
  checked_key " sk-1 " = Ok "sk-1".
Proof. split; [eexists|]; vm_compute; reflexivity. Qed.
