(* ===== verification/ReferenceAuth.v ===== *)
(** * A reference base64, with reference requests, tokens and decisions

    The unpadded URL-safe alphabet of RFC 4648, whose laws are those the core's
    signatures rely on, with one signed request, one session token, one sealed
    decision and the tool call it approves. *)

From stdpp Require Import base gmap sets strings numbers list.
From Stdlib Require Import Ascii.
From S2P Require Import Prelude Utf8 Json Hex Sensitive CanonicalJson OperatorJournal Git Sha256 ReferenceText Auth Decisions.
From S2P Require Import AgenticTools.
#[local] Open Scope Z_scope.

(** ** Sextets *)

Definition url_char (z : Z) : ascii :=
  if z <? 26 then byte_of (65 + z) else if z <? 52 then byte_of (71 + z) else if z <? 62 then byte_of (z - 4)
  else if z =? 62 then "-"%char else "_"%char.

Definition url_value (a : ascii) : option Z :=
  if upper a then Some (byte_val a - 65) else if in_bytes 97 122 a then Some (byte_val a - 71)
  else if digit a then Some (byte_val a + 4)
  else if bool_decide (a = "-"%char) then Some 62 else if bool_decide (a = "_"%char) then Some 63 else None.

Fixpoint to_sextets (l : list Z) : list Z :=
  match l with
  | a :: b :: c :: l' => [a / 4; a mod 4 * 16 + b / 16; b mod 16 * 4 + c / 64; c mod 64] ++ to_sextets l'
  | [a; b] => [a / 4; a mod 4 * 16 + b / 16; b mod 16 * 4]
  | [a] => [a / 4; a mod 4 * 16]
  | [] => []
  end.

(** A lone sextet, and bits left over, are refused. *)
Fixpoint of_sextets (l : list Z) : option (list Z) :=
  match l with
  | p :: q :: r :: s :: l' =>
      ([p * 4 + q / 16; q mod 16 * 16 + r / 4; r mod 4 * 64 + s] ++.) <$> of_sextets l'
  | [p; q; r] => if r mod 4 =? 0 then Some [p * 4 + q / 16; q mod 16 * 16 + r / 4] else None
  | [p; q] => if q mod 16 =? 0 then Some [p * 4 + q / 16] else None
  | [_] => None
  | [] => Some []
  end.

Definition url_encode (b : bytes) : string := text (map url_char (to_sextets (map byte_val b))).
Definition url_decode (s : string) : option bytes :=
  sextets ← mapM url_value (as_bytes s); map byte_of <$> of_sextets sextets.

Notation is_byte := (λ z, 0 ≤ z < 256).
Notation is_sextet := (λ z, 0 ≤ z < 64).

(** Three bytes at a time. *)
Lemma triples (P : list Z → Prop) :
  P [] → (∀ a, P [a]) → (∀ a b, P [a; b]) → (∀ a b c l, P l → P (a :: b :: c :: l)) → ∀ l, P l.
Proof.
  intros H0 H1 H2 H3 l. assert (P l ∧ (∀ a, P (a :: l)) ∧ ∀ a b, P (a :: b :: l)) as [H _]; [|done].
  induction l as [|c l (IH0 & IH1 & IH2)]; [by auto|]. split_and!; auto.
Qed.

Lemma sextets_range l : Forall is_byte l → Forall is_sextet (to_sextets l).
Proof.
  induction l as [|a|a b|a b c l IH] using triples; rewrite ?Forall_cons; intros Hl; cbn [to_sextets app]; [done|..].
  - destruct Hl as [? _]. repeat constructor; mods.
  - destruct Hl as (? & ? & _). repeat constructor; mods.
  - destruct Hl as (? & ? & ? & Hl). do 4 (constructor; [mods|]). by apply IH.
Qed.

Lemma sextets_round_trip l : Forall is_byte l → of_sextets (to_sextets l) = Some l.
Proof.
  induction l as [|a|a b|a b c l IH] using triples; rewrite ?Forall_cons; intros Hl; cbn [to_sextets of_sextets app]; [done|..].
  - destruct Hl as [? _]. rewrite (proj2 (Z.eqb_eq _ _)) by mods. do 2 f_equal. mods.
  - destruct Hl as (? & ? & _). rewrite (proj2 (Z.eqb_eq _ _)) by mods. do 2 f_equal; [mods|]. f_equal. mods.
  - destruct Hl as (? & ? & ? & Hl). rewrite IH by done. cbn [fmap option_fmap option_map app]. do 2 f_equal; [mods|].
    f_equal; [mods|]. f_equal. mods.
Qed.

Lemma url_char_ok z : 0 ≤ z < 64 → url_value (url_char z) = Some z ∧ url_safe (url_char z) = true.
Proof.
  intros Hz. assert (forallb (λ z, bool_decide (url_value (url_char z) = Some z) && url_safe (url_char z)) (seqZ 0 64) = true) as Hall
    by (vm_compute; reflexivity).
  rewrite forallb_forall in Hall. specialize (Hall z). rewrite andb_true_iff, bool_decide_eq_true in Hall.
  apply Hall, list_elem_of_In, elem_of_seqZ. split; lia.
Qed.

Lemma bytes_range (b : bytes) : Forall is_byte (map byte_val b).
Proof. induction b; simpl; constructor; [apply byte_val_range|done]. Qed.

#[export] Instance url_base64 : Base64 := {| b64_encode := url_encode; b64_decode := url_decode |}.

#[export] Instance url_base64_laws : Base64Laws.
Proof.
  split. intros b. simpl. unfold url_decode, url_encode. rewrite as_bytes_text.
  assert (∀ l, Forall is_sextet l → mapM url_value (map url_char l) = Some l) as Hm.
  { intros l Hl. induction Hl as [|z l Hz Hl IH]; [done|]. simpl. by rewrite (proj1 (url_char_ok z Hz)), IH. }
  rewrite Hm by apply sextets_range, bytes_range. simpl. rewrite sextets_round_trip by apply bytes_range. simpl. f_equal.
  rewrite map_map. rewrite (map_ext _ id) by apply byte_of_val. apply map_id.
Qed.

Lemma sextets_length l : Z.of_nat (length (to_sextets l)) = (Z.of_nat (length l) * 4 + 2) / 3.
Proof. induction l as [|a|a b|a b c l IH] using triples; cbn [to_sextets app length]; [done..|]. rewrite !Nat2Z.inj_succ, IH. mods. Qed.

#[export] Instance url_base64_url : Base64UrlLaws.
Proof.
  split.
  - intros b. simpl. unfold all_bytes_are, url_encode. rewrite as_bytes_text. apply forallb_forall.
    intros a (z & <- & Hz)%in_map_iff. apply url_char_ok. pose proof (sextets_range _ (bytes_range b)) as Hr.
    rewrite Forall_forall in Hr. by apply Hr, list_elem_of_In.
  - intros b Hb. change (b64_encode b) with (url_encode b). unfold str_len, url_encode.
    rewrite <-as_bytes_length, as_bytes_text, length_map, sextets_length, length_map, Hb. done.
Qed.

(** ** One signed request *)

Definition ref_parts : LocalRequestParts := mkParts "POST" 7474 "/operator/turns" (as_bytes "{}").
Definition ref_nonce : string := "00112233445566778899aabbccddeeff".
Definition ref_signature : LocalRequestSignature :=
  mkSignature "1" "1700000000" ref_nonce
    (b64_encode (hmac_sha256 (as_bytes "secret") (canonical_local_request ref_parts 1700000000 ref_nonce))).

Lemma signed_requests_verify_witness :
  sign_local_request ref_parts 1700000000 ref_nonce "secret" = Ok ref_signature ∧
  verify_local_request ref_parts ref_signature "secret" 1700000030 = Ok (mkVerified 1700000000 ref_nonce).
Proof.
  assert (sign_local_request ref_parts 1700000000 ref_nonce "secret" = Ok ref_signature) as Hs by (vm_compute; reflexivity).
  split; [exact Hs|]. rewrite (signed_requests_verify ref_parts 1700000000 1700000030 ref_nonce "secret" ref_signature).
  - vm_compute. reflexivity.
  - vm_compute. split; [discriminate|reflexivity].
  - exact Hs.
Defined.

Lemma a_signature_is_one_request_witness :
  ∃ v, verify_local_request ref_parts ref_signature "secret" 1700000030 = Ok v ∧
    abs_diff (vr_timestamp v) 1700000030 ≤ LOCAL_REQUEST_MAX_SKEW_SECONDS.
Proof.
  assert (verify_local_request ref_parts ref_signature "secret" 1700000030 = Ok (mkVerified 1700000000 ref_nonce)) as Hv
    by (vm_compute; reflexivity).
  exists (mkVerified 1700000000 ref_nonce). split; [exact Hv|].
  destruct (a_signature_is_one_request ref_parts ref_parts ref_signature ref_signature "secret" 1700000030 1700000030 _ _ Hv Hv eq_refl)
    as [Hk _]. exact Hk.
Defined.

(** ** One session token *)

Definition ref_claims : AuthClaims := mkClaims "a" "o" "p" None None 1 100 "heiwa-core" "heiwa".
Definition ref_utf8 (b : bytes) : option string := Some (text b).

Lemma ref_utf8_text s : ref_utf8 (as_bytes s) = Some s.
Proof. unfold ref_utf8. by rewrite text_as_bytes. Qed.

Lemma ref_claims_times : is_i64 (ac_iat ref_claims) ∧ is_i64 (ac_exp ref_claims).
Proof. unfold is_i64. simpl. lia. Qed.

Lemma a_token_is_its_claims_witness :
  ∃ token, sign_jwt ref_claims "secret" = Ok token ∧ verify_jwt ref_utf8 token "secret" 100 = Ok ref_claims.
Proof.
  assert (∃ token, sign_jwt ref_claims "secret" = Ok token) as [token Hs].
  { unfold sign_jwt, sign_bytes. rewrite bool_decide_false by discriminate. eexists. reflexivity. }
  exists token. split; [exact Hs|]. destruct ref_claims_times as [Hi He].
  destruct (a_token_is_its_claims ref_utf8 ref_utf8_text ref_claims "secret" token Hi He Hs) as [Hown _].
  clear Hs. apply Hown; [apply Z.le_refl|reflexivity|reflexivity].
Defined.

(** The text of one document. *)
Definition brief_text (doc : json) : JsonText := {|
  number_text := ref_number_text;
  string_text := ref_string_text;
  print_json v := if bool_decide (v = doc) then "c" else "h";
  print_json_pretty v := if bool_decide (v = doc) then "c" else "h";
  parse_json s := if bool_decide (s = "c") then Some doc else None;
|}.

Definition claims_text : JsonText := brief_text (encode_claims ref_claims).
Definition short_token : bytes := Eval vm_compute in default [] (result_ok (@sign_jwt _ claims_text ref_claims "secret")).

Definition ref_config : RuntimeConfig := mkRuntimeConfig "machine" "secret".
Definition ref_cookie : string := "theme=dark; heiwa_session=" +:+ text short_token.

Notation subject_of := (@extract_auth_subject _ claims_text ref_utf8).

Lemma a_subject_is_proved_witness :
  subject_of (Some ref_cookie) (Some "Bearer other") ref_config 100 = Ok (User ref_claims) ∧
  @proved_user _ claims_text ref_utf8 (Some ref_cookie) (Some "Bearer other") ref_config 100 ref_claims.
Proof.
  assert (subject_of (Some ref_cookie) (Some "Bearer other") ref_config 100 = Ok (User ref_claims)) as Hs
    by (vm_compute; reflexivity).
  split; [exact Hs|]. exact (@a_subject_is_proved _ claims_text ref_utf8 _ _ _ _ _ Hs).
Defined.

(** The machine's token is the operator; an expired token, one under another
    secret, and an empty machine token are nobody. *)
Example operator_token : subject_of None (Some " Bearer  machine ") ref_config 0 = Ok Operator.
Proof. vm_compute. reflexivity. Qed.

Example refused_tokens :
  subject_of (Some ref_cookie) None ref_config 101 = Err "unauthorized" ∧
  subject_of (Some ref_cookie) None (mkRuntimeConfig "machine" "other") 100 = Err "unauthorized" ∧
  subject_of None (Some "Bearer ") (mkRuntimeConfig "" "") 100 = Err "unauthorized" ∧
  @verify_jwt _ claims_text ref_utf8 (as_bytes "a.b") "secret" 0 = Err "missing signature" ∧
  @verify_jwt _ claims_text ref_utf8 (as_bytes "a.b.c.d") "secret" 0 = Err "too many jwt segments".
Proof. vm_compute. done. Qed.

Example moved_request :
  verify_local_request (mkParts "POST" 7475 "/operator/turns" (as_bytes "{}")) ref_signature "secret" 1700000000 =
    Err "invalid local request signature" ∧
  verify_local_request ref_parts ref_signature "secret" 1700000031 = Err "local request timestamp outside allowed skew".
Proof. vm_compute. done. Qed.

(** ** One sealed decision *)

Definition ref_record : json := json_object [("id", JString "req_1"); ("outcome", JString "approved")].
Definition ref_decision : json := Eval vm_compute in default JNull (result_ok (@seal_decision _ ref_text "key" ref_record)).

Lemma a_seal_is_its_record_witness :
  seal_decision "key" ref_record = Ok ref_decision ∧
  ∃ id, str_at "id" ref_record = Some id ∧ classify_decision (Some "key") id ref_decision = Verified.
Proof.
  assert (seal_decision "key" ref_record = Ok ref_decision) as Hs by (vm_compute; reflexivity).
  split; [exact Hs|]. destruct (a_seal_is_its_record "key" ref_record ref_decision Hs) as [[_ Hv] _]. exact Hv.
Defined.

Definition decision_text : JsonText := brief_text ref_decision.

(** The record appears at the second turn. *)
Definition ref_polls (i : nat) : DecisionPoll :=
  mkPoll (POLL_INTERVAL * Z.of_nat i) false (match i with O => PathAbsent | S _ => PathFile end)
    (Ok (mkOpenRecord true 1 (Ok (as_bytes "c")))) (Some "key").

Lemma ref_sleeps : sleeps_between ref_polls.
Proof. intros i. simpl. reflexivity. Qed.

Lemma an_outcome_is_sealed_witness :
  @wait_for_decision_cancellable _ decision_text ref_utf8 "req_1" 1000 true ref_polls = Some (Ok "approved") ∧
  ∃ i, @sealed_approval _ decision_text ref_utf8 "req_1" 1000 (ref_polls i) "approved".
Proof.
  assert (@wait_for_decision_cancellable _ decision_text ref_utf8 "req_1" 1000 true ref_polls = Some (Ok "approved")) as Hw
    by (vm_compute; reflexivity).
  split; [exact Hw|].
  destruct (@an_outcome_is_sealed _ decision_text ref_utf8 "req_1" 1000 true ref_polls ref_sleeps) as (r & Hr & Hok).
  rewrite Hw in Hr. injection Hr as <-. destruct (Hok "approved" eq_refl) as (_ & i & Hi & _). exists i. exact Hi.
Defined.

(** ** One tool call *)

Definition ref_call : ToolCall := mkToolCall "call-1" "fs.write" (JObject []).
Definition ref_world : ToolWorld := mkWorld "s" "r" "c" "1" "u" true ref_polls.
Definition ref_gate : GateConfig := mkGate None (Some "web") "/state".
Definition ref_registry (name : string) (arguments : json) : result ToolError json := Ok JNull.

Lemma no_tool_runs_unapproved_witness :
  ∃ runs, @execute_tool_calls _ decision_text ref_utf8 ref_registry ref_gate "p" "m" [(ref_world, ref_call)] =
      Some (concat (map fst runs), map (λ r, r.2.1) runs, map (λ r, r.2.2) runs) ∧
    Forall2 (λ wc r, @respects _ decision_text ref_utf8 ref_registry ref_gate wc.1 wc.2 r) [(ref_world, ref_call)] runs.
Proof.
  apply (@no_tool_runs_unapproved _ decision_text ref_utf8 ref_registry ref_gate "p" "m" [(ref_world, ref_call)]).
  apply Forall_singleton. exact ref_sleeps.
Defined.

(** Approved and run; on a record sealed under another key, denied. *)
Definition statuses (world : ToolWorld) : option (list ToolEffect * list ToolCallStatus) :=
  '(effects, receipts, _) ← @execute_tool_calls _ decision_text ref_utf8 ref_registry ref_gate "p" "m" [(world, ref_call)];
  Some (drop 1 effects, map tr_status receipts).

Example approved_call : statuses ref_world = Some ([Called "fs.write" (JObject [])], [Success]).
Proof. vm_compute. reflexivity. Qed.

Definition other_key (p : DecisionPoll) : DecisionPoll :=
  mkPoll (poll_elapsed p) (poll_cancelled p) (poll_path p) (poll_opened p) (Some "other").

Example forged_call : statuses (mkWorld "s" "r" "c" "1" "u" true (λ i, other_key (ref_polls i))) = Some ([], [Denied]).
Proof. vm_compute. reflexivity. Qed.

(** "never" holds nothing that "cli" does not, and "always" approves nothing
    more. *)
Example never_is_cli : evaluate_approval_policy (Some "never") "1" "/s" High "cli" = AutoApproved.
Proof. reflexivity. Qed.

Example always_is_cli :
  evaluate_approval_policy (Some "always") "1" "/s" High "web" = AwaitingApproval "req_1" "/s/dispatch/requests/req_1.json".
Proof. reflexivity. Qed.

(** A plain answer whose braces are the wrong way round panics the turn. *)
Example a_plain_answer_panics : parse_tool_calls (λ _, "u") "close with } and open with {" = Panic.
Proof. vm_compute. reflexivity. Qed.
